(* ===== verification/_CoqProject ===== *)
-Q . S2P
Prelude.v
DList.v
PriorityBitmap.v
RBTree.v
Chain.v
Priority.v
Heap.v
HeapInv.v
HeapAlloc.v
HeapInit.v
HeapFree.v
HeapCorrect.v
HeapInfo.v
HeapResize.v
HeapWalk.v
HeapExtend.v
HeapGreedy.v
Workspace.v
ObjectId.v
Objects.v
ObjectsInv.v
ObjectsCorrect.v
Scheduler.v
SchedulerLaws.v
SchedulerPriority.v
SchedulerSimple.v
SchedulerEDF.v
Timespec.v
Watchdog.v
WatchdogCorrect.v
TimeOfDay.v
ThreadQueue.v
EDFJobs.v
Semaphore.v
ThreadQueueInv.v
ThreadTimer.v
Barrier.v
MessageQueue.v
SyncSpec.v
MessageQueueInv.v
SyncInv.v
SyncCorrect.v
BarrierCorrect.v
MessageCorrect.v
