(* ===== verification/Prelude.v ===== *)
(** * A verification of the core of the RTEMS executive

    RTEMS is a real-time executive.  Its core, cpukit/score (the "super
    core") and cpukit/rtems (the Classic API), is modelled here function by
    function and proved correct, in the configuration x86_64: 64-bit words,
    [CPU_ALIGNMENT] 8, one processor, no multiprocessing, no POSIX API,
    neither [RTEMS_DEBUG] nor [HEAP_PROTECTION].  Source paths below are
    relative to src/cpukit; "score/x.h" is score/include/rtems/score/x.h and
    "x.c" is score/src/x.c unless a directory is given.

    ** The parts of the program and how they interact

    - _Chains_ (doubly linked lists) and the _priority bit map_ are the data
      structures of everything else; _red-black trees_ serve what must be
      sorted.
    - The _heap_ manages a memory area with boundary tags; the _workspace_ is
      the heap the kernel takes its own memory from.
    - The _object handler_ keeps the objects of each class (tasks,
      semaphores, ...) in tables allocated from the workspace and links the
      inactive ones in a chain; objects are named by 32-bit identifiers.
    - _Threads_ change state, yield, change priority and are charged for the
      clock tick; each such operation calls the configured _scheduler_
      through a table of function pointers.  The deterministic priority
      scheduler uses one chain per priority and the bit map, the simple
      scheduler one sorted chain, the earliest deadline first scheduler a
      red-black tree.
    - _Watchdogs_ call functions at a future tick or time, out of red-black
      trees; _timespecs_ and the _clock manager_ convert between ticks, seconds
      and calendar dates.
    - _Thread queues_ hold the threads that wait for an object, in FIFO order
      or in the order of their priorities; a thread blocks and is unblocked
      through the scheduler, and a watchdog bounds its waiting time.  The
      _priority aggregations_ of threads and queues report a change of their
      minimum.  _Semaphores_ and _barriers_ are a count and a thread queue.

    ** How C is modelled

    - A [uintN_t] is a [Z] with the reductions modulo [2^N] written out; a
      pointer is the address, [NULL] is 0.
    - A C function that changes state is a function of the monad [M S]: it
      maps a state to a result and a new state, or to [None], a fault: an
      access to unmapped memory, an index out of range or a loop that ran out
      of fuel.  Proofs go through the weakest precondition [wp], which
      demands that no fault occurs: every theorem of the form [wp m Q s] is
      a total-correctness statement.
    - Chains and heap blocks live in one word memory, [gmap Z Z], so that
      aliasing between nodes, control blocks and allocated areas is real.
      Structures that are only reached through typed pointers are records in
      stores indexed by their addresses.
    - [while] and [do] loops run on [FUEL] = 2^64 steps of binary fuel, which
      evaluates without unfolding the number.  Running out of fuel is a
      fault, and every theorem shows that it does not happen: a loop over the
      blocks or nodes of a structure in a 64-bit address space makes fewer
      than 2^64 steps, because its members have different addresses.
    - Code that is not in the repository is a parameter with laws:
      the rebalancing macros of the C library's sys/tree.h are the class
      [RB_Macros], which the unbalanced tree [RBTree.Spine.macros] shows to be
      satisfiable; the time counter and the service routines of watchdogs
      are arguments.

    ** The files

    Foundations
    - Prelude.v: machine integers, the monad, [wp], loops, the word memory.
    - DList.v: the doubly linked list predicate that chains and the heap's
      free list share.

    Data structures
    - Chain.v: score/chain.h, score/chainimpl.h, chain.c, chainnodecount.c.
      Any sequence of chain operations refines the same sequence on lists
      ([chain_trace_refines]); ordered insertion is stable
      ([chain_insert_ordered_stable]).
    - PriorityBitmap.v: score/prioritybitmap.h, score/prioritybitmapimpl.h,
      log2table.c.  Both bit scans find the first bit
      ([find_first_bit_generic_equiv]); the two-level map returns the highest
      priority of the set it represents ([bit_map_trace_highest]).
    - RBTree.v: score/rbtree.h, rbtreeinsert.c, rbtreeextract.c,
      rbtreereplace.c, rbtreenext.c, rbtreeiterate.c.  Insertion with the
      inlined search puts a node behind its equals
      ([rbtree_insert_inline_correct]).
    - Priority.v: score/priority.h, score/priorityimpl.h.  An aggregation
      keeps its contributors sorted and reports exactly the changes of its
      minimum ([priority_aggregation_trace]).

    Memory
    - Heap.v is the model of score/heap.h, score/heapimpl.h, heap.c,
      heapallocate.c, heapfree.c, heapresizeblock.c and the queries;
      HeapInv.v has the representation invariant [layout] (a tiling by
      blocks with consistent tags, no two free neighbours, the free list
      links exactly the free blocks); HeapAlloc.v, HeapInit.v and HeapFree.v
      prove the operations preserve it.
    - HeapCorrect.v has the contracts: allocated areas are aligned, keep the
      boundary constraint, are disjoint and keep their contents, in any
      sequence of operations whose alignments are multiples of the page size,
      or of any alignments if the page size is 8 ([heap_trace_safe],
      [heap_allocate_correct], [heap_free_correct],
      [heap_initialize_correct], [heap_free_refuses]);
      allocation fails only if no free block fits ([heap_allocate_complete]);
      free undoes allocation ([heap_allocate_free_roundtrip]).
    - HeapInfo.v (heapsizeofuserarea.c, heapiterate.c, heapgetinfo.c; with
      other alignments an area can end beyond its block, and how far,
      [heap_allocate_short_area]), HeapResize.v (heapresizeblock.c),
      HeapWalk.v (heapwalk.c: accepts every heap that satisfies the
      invariant), HeapExtend.v (heapextend.c: merging an area, or linking it
      over a used gap block, where the gap is wide enough for one and the
      area does not lie below two others; examples show what happens
      otherwise), HeapGreedy.v (heapgreedy.c: the greedy allocations take
      everything and freeing them gives the same heap back).
    - Workspace.v: wkspace.c and the contract [Workspace] that the heap
      discharges.

    Objects
    - ObjectId.v: score/object.h, objectapimaximumclass.c, objectsetname.c,
      objectgetnameasstring.c (identifiers and names as bit fields).
    - Objects.v is the model of score/objectimpl.h and object*.c over the
      workspace contract, ObjectsInv.v the invariant of a class, and
      ObjectsCorrect.v the theorems: a class is a finite map from
      identifiers to names under any sequence of creations and deletions,
      with extension and shrinking invisible ([objects_trace_refines]).

    Threads and scheduling
    - Scheduler.v is the model of the thread-level operations
      (score/threadimpl.h, score/statesimpl.h, score/schedulerimpl.h,
      threadsetstate.c, threadclearstate.c, threadyield.c,
      threadchangepriority.c, schedulerdefaulttick.c, threaddispatch.c,
      taskmode.c).
    - SchedulerLaws.v is the interface: what the operations table of a
      scheduler promises, and that any trace of thread-level operations keeps
      the heir the first of the highest ready priority.
    - SchedulerPriority.v, SchedulerSimple.v and SchedulerEDF.v are its
      instances (schedulerpriority*.c, schedulersimple*.c, scheduleredf*.c);
      the last one for all priorities but the deadline 0 and the pseudo
      interrupt priority, with which the heir can be less urgent than a
      ready thread ([edf_pseudo_isr_inversion]).
    - EDFJobs.v (scheduleredfreleasejob.c, over the kernel of ThreadQueue.v):
      releasing and cancelling jobs gives each thread the earliest deadline
      of its jobs and elects the thread with the earliest one
      ([edf_jobs_correct]), where only released jobs are cancelled.

    Time
    - Timespec.v: timespec*.c, coretodtickspersec.c.
    - Watchdog.v is the model of score/watchdogimpl.h, watchdoginsert.c,
      watchdogremove.c and watchdogtick.c; WatchdogCorrect.v shows that any
      sequence of operations refines a machine on sorted lists, that a
      watchdog fires exactly once and at its tick, and that the 64-bit
      encoding of real time keeps its order.
    - TimeOfDay.v: rtems/src/clocktodvalidate.c, clocktodtoseconds.c,
      clockgettod.c, clockset.c, against a calendar that counts days.

    Blocking
    - ThreadQueue.v is the model of score/threadq.h, score/threadqimpl.h,
      threadqops.c, threadqenqueue.c, threadqfirst.c, threadqflush.c,
      threadqtimeout.c, threadtimeout.c, and of the wait information and
      the priority actions of score/threadimpl.h and
      threadchangepriority.c.  The record [kernel] joins the state of the
      scheduler, the word memory with the queues, the stores and the timers.
      Interrupts are explicit where the code enables them:
      [_Thread_queue_Enqueue] takes what happens in its three windows, before
      the callout that arms the timer, before the state of the thread is set
      and before the intent to block is confirmed, and
      [_Thread_queue_Unblock_critical] what happens between releasing the
      queue and unblocking the thread.  The loop of a flush that unblocks the
      extracted threads is atomic.
    - ThreadQueueInv.v has the invariant of all queues: each holds its
      threads in the order of its discipline, and the queue heads that the
      waiting threads lent are neither lost nor used twice; entering and
      leaving a queue preserve it, for FIFO and priority queues.
    - ThreadTimer.v: the watchdogs of the threads (score/threadimpl.h)
      satisfy what the queues expect of timers.
    - Semaphore.v is the model of coresem.c and score/coresemimpl.h, Barrier.v
      of corebarrier*.c and score/corebarrierimpl.h, MessageQueue.v of
      coremsg*.c and score/coremsgimpl.h without the POSIX API.  SyncSpec.v
      has the abstract objects and the programs that use them,
      MessageQueueInv.v message queues in memory and SyncInv.v the invariant
      that relates the objects with the kernel.  SyncCorrect.v shows that
      any sequence of calls, timeouts and interrupts refines the abstract
      objects, without lost wake-ups ([sync_trace_refines]), over any
      scheduler and timers that satisfy their interfaces, and that waiting
      for a FIFO semaphore is bounded ([semaphore_bounded_wait]).
      MessageCorrect.v: a queue delivers every message once and in order
      ([message_queue_conserves]), but the size of its buffers can overflow
      ([message_queue_overflow_undetected]).  BarrierCorrect.v: an automatic
      barrier holds threads until all have arrived ([barrier_rendezvous]),
      unless a thread timed out before ([barrier_timeout_opens_early]).

    ** Bounds

    Heaps lie below 2^64 with a nonzero begin address.  Object classes have
    at most 2^16 - 1 objects, as identifiers do.  Priorities are below 256,
    the size of the bit map, with the deterministic priority scheduler;
    tick counts are below 2^64.  Sums of timespec
    seconds that overflow [time_t], undefined in C, are excluded by
    hypotheses.

    ** Not modelled

    Other configurations: SMP schedulers, inter-processor locks,
    multiprocessing packets, the POSIX API, heap protection.  Vendored code:
    the time counter, the network stacks, zlib and the like.  Code that is
    mostly I/O or hardware access: board support packages, drivers, file
    systems, the shell.  Interrupt locks and thread-dispatch disabling are
    omitted where they only bracket a function, which on one processor
    executes atomically.  Of the thread queues, priority inheritance is
    defined but has no theorem yet.  Of the message queues, message
    priorities, notification and senders that block belong to the POSIX API.
    Planned next: priority inheritance with mutexes, events, the CBS
    scheduler. *)

(** * Shared vocabulary

    Machine-width integers, the
    state-and-fault monad in which the C functions are written, its
    weakest-precondition calculus, loops with binary fuel, and the word
    memory that chains and heaps live in. *)

From stdpp Require Export base tactics option list numbers gmap sorting.
From Stdlib Require Export ZArith Lia.

#[global] Open Scope Z_scope.

(** * Machine-width integers

    A [uintN_t] is a [Z] in [0, 2^N); every C operation that can leave the
    range is followed by an explicit reduction. *)

Definition u8 (x : Z) : Z := x mod 2 ^ 8.
Definition u16 (x : Z) : Z := x mod 2 ^ 16.
Definition u32 (x : Z) : Z := x mod 2 ^ 32.
Definition u64 (x : Z) : Z := x mod 2 ^ 64.
(** An [int64_t] is a [Z] in [-2^63, 2^63). *)
Definition s64 (x : Z) : Z := (x + 2 ^ 63) mod 2 ^ 64 - 2 ^ 63.

(** [NULL] *)
Definition NULL : Z := 0.

Declare Scope width_scope.
Delimit Scope width_scope with width.
(** Unsigned 64-bit (that is [uintptr_t]) and 32-bit arithmetic. *)
Notation "x +! y" := (u64 (x + y)) (at level 50, left associativity) : width_scope.
Notation "x -! y" := (u64 (x - y)) (at level 50, left associativity) : width_scope.
Notation "x +. y" := (u32 (x + y)) (at level 50, left associativity) : width_scope.
Notation "x -. y" := (u32 (x - y)) (at level 50, left associativity) : width_scope.

Lemma u64_small x : 0 <= x < 2 ^ 64 -> u64 x = x.
Proof. intros; unfold u64; rewrite Z.mod_small; lia. Qed.

Lemma u32_small x : 0 <= x < 2 ^ 32 -> u32 x = x.
Proof. intros; unfold u32; rewrite Z.mod_small; lia. Qed.

Lemma u16_small x : 0 <= x < 2 ^ 16 -> u16 x = x.
Proof. intros; unfold u16; rewrite Z.mod_small; lia. Qed.

Lemma u64_range x : 0 <= u64 x < 2 ^ 64.
Proof. unfold u64; apply Z.mod_pos_bound; lia. Qed.

Lemma u32_range x : 0 <= u32 x < 2 ^ 32.
Proof. unfold u32; apply Z.mod_pos_bound; lia. Qed.

Lemma u16_range x : 0 <= u16 x < 2 ^ 16.
Proof. unfold u16; apply Z.mod_pos_bound; lia. Qed.

(** Removes every [u64]/[u32]/[u16] whose argument [lia] can bound. *)
Ltac width_simpl :=
  repeat match goal with
  | |- context [u64 ?x] => rewrite (u64_small x) by lia
  | |- context [u32 ?x] => rewrite (u32_small x) by lia
  | |- context [u16 ?x] => rewrite (u16_small x) by lia
  end.
Ltac width_simpl_in H :=
  repeat match type of H with
  | context [u64 ?x] => rewrite (u64_small x) in H by lia
  | context [u32 ?x] => rewrite (u32_small x) in H by lia
  | context [u16 ?x] => rewrite (u16_small x) in H by lia
  end.

(** Case analysis on the boolean tests of the code, leaving their [Prop]
    reading in the context. *)
Ltac case_bool :=
  match goal with
  | |- context [Z.eqb ?a ?b] => destruct (Z.eqb_spec a b)
  | |- context [Z.leb ?a ?b] => destruct (Z.leb_spec a b)
  | |- context [Z.ltb ?a ?b] => destruct (Z.ltb_spec a b)
  end.
Ltac bool_hyps :=
  repeat match goal with
  | H : Z.eqb _ _ = true |- _ => apply Z.eqb_eq in H
  | H : Z.eqb _ _ = false |- _ => apply Z.eqb_neq in H
  | H : Z.leb _ _ = true |- _ => apply Z.leb_le in H
  | H : Z.leb _ _ = false |- _ => apply Z.leb_gt in H
  | H : Z.ltb _ _ = true |- _ => apply Z.ltb_lt in H
  | H : Z.ltb _ _ = false |- _ => apply Z.ltb_ge in H
  | H : andb _ _ = true |- _ => apply andb_true_iff in H; destruct H
  | H : orb _ _ = false |- _ => apply orb_false_iff in H; destruct H
  | H : negb _ = true |- _ => apply negb_true_iff in H
  | H : negb _ = false |- _ => apply negb_false_iff in H
  end.

(** * Bits of a word *)

Lemma testbit_above w n i : 0 <= n -> 0 <= w < 2 ^ n -> n <= i ->
  Z.testbit w i = false.
Proof.
  intros Hn Hw Hi. rewrite <- (Z.mod_small w (2 ^ n)) by lia.
  by apply Z.mod_pow2_bits_high.
Qed.

Lemma nonzero_bit w n : 0 <= n -> 0 < w < 2 ^ n ->
  0 <= Z.log2 w < n /\ Z.testbit w (Z.log2 w) = true /\
  (forall i, Z.log2 w < i -> Z.testbit w i = false).
Proof.
  intros Hn Hw. split_and!.
  - apply Z.log2_nonneg.
  - apply Z.log2_lt_pow2; lia.
  - apply Z.bit_log2; lia.
  - intros i Hi. apply Z.bits_above_log2; lia.
Qed.

Lemma bit_nonzero w i : Z.testbit w i = true -> w <> 0.
Proof. intros H ->. by rewrite Z.testbit_0_l in H. Qed.

Lemma bits_range w n : 0 <= n -> (forall i, n <= i -> Z.testbit w i = false) ->
  0 <= w < 2 ^ n.
Proof.
  intros Hn Hb. replace w with (w mod 2 ^ n).
  { apply Z.mod_pos_bound. lia. }
  apply Z.bits_inj'. intros i Hi. destruct (Z.lt_ge_cases i n).
  - by rewrite Z.mod_pow2_bits_low.
  - rewrite Z.mod_pow2_bits_high by lia. symmetry. by apply Hb.
Qed.

Lemma lor_range w m n : 0 <= n -> 0 <= w < 2 ^ n -> 0 <= m < 2 ^ n ->
  0 <= Z.lor w m < 2 ^ n.
Proof.
  intros Hn Hw Hm. apply bits_range; [done|]. intros i Hi.
  by rewrite Z.lor_spec, !(testbit_above _ n) by done.
Qed.

Lemma land_range w m n : 0 <= n -> 0 <= w < 2 ^ n -> 0 <= Z.land w m < 2 ^ n.
Proof.
  intros Hn Hw. apply bits_range; [done|]. intros i Hi.
  by rewrite Z.land_spec, (testbit_above _ n) by done.
Qed.

(** Fields that do not overlap add up. *)
Lemma lor_fields a b n : 0 <= n -> a mod 2 ^ n = 0 -> 0 <= b < 2 ^ n -> Z.lor a b = a + b.
Proof.
  intros Hn Ha Hb. symmetry. apply Z.add_nocarry_lor. apply Z.bits_inj'. intros i Hi.
  rewrite Z.land_spec, Z.testbit_0_l. destruct (Z.lt_ge_cases i n).
  - rewrite <- (Z.mod_pow2_bits_low a n i) by lia. by rewrite Ha, Z.testbit_0_l.
  - by rewrite (testbit_above b n i), andb_false_r.
Qed.

(** * The state-and-fault monad

    [M S A] is C code that reads and writes a state [S] and returns an [A];
    [None] is a fault: an access outside the memory the model maps, or a
    loop that ran out of fuel.  Theorems show that neither happens. *)

Definition M (S A : Type) : Type := S -> option (A * S).

#[export] Instance M_ret S : MRet (M S) := fun A a s => Some (a, s).
#[export] Instance M_bind S : MBind (M S) := fun A B f m s =>
  match m s with
  | Some (a, s') => f a s'
  | None => None
  end.

Definition fault {S A} : M S A := fun _ => None.
Definition gets {S A} (f : S -> A) : M S A := fun s => Some (f s, s).
Definition modify {S} (f : S -> S) : M S unit := fun s => Some (tt, f s).
Definition whenM {S} (b : bool) (m : M S unit) : M S unit :=
  if b then m else mret tt.

(** Total-correctness weakest precondition: the code does not fault and its
    result satisfies [Q]. *)
Definition wp {S A} (m : M S A) (Q : A -> S -> Prop) (s : S) : Prop :=
  match m s with
  | Some (a, s') => Q a s'
  | None => False
  end.

Section wp_rules.
Context {S : Type}.

Lemma wp_ret {A} (a : A) (Q : A -> S -> Prop) s :
  Q a s -> wp (mret a) Q s.
Proof. done. Qed.

Lemma wp_bind {A B} (m : M S A) (f : A -> M S B) Q s :
  wp m (fun a s' => wp (f a) Q s') s -> wp (m ≫= f) Q s.
Proof. unfold wp, mbind, M_bind. by destruct (m s) as [[a s']|]. Qed.

Lemma wp_assoc {A B C} (m : M S A) (f : A -> M S B) (g : B -> M S C) Q s :
  wp ((m ≫= f) ≫= g) Q s -> wp (m ≫= (fun a => f a ≫= g)) Q s.
Proof. unfold wp, mbind, M_bind. by destruct (m s) as [[a s']|]. Qed.

Lemma wp_gets {A} (f : S -> A) (Q : A -> S -> Prop) s :
  Q (f s) s -> wp (gets f) Q s.
Proof. done. Qed.

Lemma wp_modify (f : S -> S) (Q : unit -> S -> Prop) s :
  Q tt (f s) -> wp (modify f) Q s.
Proof. done. Qed.

Lemma wp_mono {A} (m : M S A) (P Q : A -> S -> Prop) s :
  wp m P s -> (forall a s', P a s' -> Q a s') -> wp m Q s.
Proof. unfold wp. destruct (m s) as [[a s']|]; naive_solver. Qed.

Lemma wp_whenM b (m : M S unit) Q s :
  (b = true -> wp m Q s) -> (b = false -> Q tt s) -> wp (whenM b m) Q s.
Proof. destruct b; cbn; auto. Qed.

Lemma wp_run {A} (m : M S A) Q s :
  wp m Q s <-> exists a s', m s = Some (a, s') /\ Q a s'.
Proof.
  unfold wp. destruct (m s) as [[a s']|]; naive_solver.
Qed.
End wp_rules.

(** * Loops

    [loopM n body a] runs [body] at most [n] times, stopping at the first
    [inr].  The fuel is a binary number, so that [2^64] iterations are
    available and a run costs only the iterations it performs. *)

Fixpoint loopM {S A R} (n : positive) (body : A -> M S (A + R)) (a : A)
    : M S (A + R) :=
  match n with
  | xH => body a
  | xO n' => r ← loopM n' body a;
             match r with
             | inl a' => loopM n' body a'
             | inr r => mret (inr r)
             end
  | xI n' => r ← body a;
             match r with
             | inl a' => r' ← loopM n' body a';
                         match r' with
                         | inl a'' => loopM n' body a''
                         | inr r => mret (inr r)
                         end
             | inr r => mret (inr r)
             end
  end.

(** Every loop of the modelled code iterates fewer than [2^64] times: each
    one advances through distinct addresses or counts a machine integer. *)
Definition FUEL : positive := 18446744073709551616.

Definition whileM {S A R} (body : A -> M S (A + R)) (a : A) : M S R :=
  r ← loopM FUEL body a;
  match r with
  | inl _ => fault
  | inr r => mret r
  end.

Section loops.
Context {S A R : Type} (body : A -> M S (A + R)).
(** The invariant is indexed by a variant, a number that bounds the
    remaining iterations. *)
Context (I : Z -> A -> S -> Prop) (Q : R -> S -> Prop).
Hypothesis Hbody : forall k a s, I k a s ->
  wp (body a) (fun r s' => match r with
    | inl a' => exists k', 0 <= k' < k /\ I k' a' s'
    | inr r => Q r s'
    end) s.

Lemma wp_loopM n k a s : I k a s ->
  wp (loopM n body a) (fun r s' => match r with
    | inl a' => exists k', 0 <= k' /\ k' + Z.pos n <= k /\ I k' a' s'
    | inr r => Q r s'
    end) s.
Proof.
  revert k a s. induction n as [n IH|n IH|]; intros k a s HI; cbn [loopM].
  - apply wp_bind. eapply wp_mono; [by apply Hbody|].
    intros [a'|r] s'; [|done]. intros (k' & ? & HI').
    apply wp_bind. eapply wp_mono; [by apply IH|].
    intros [a''|r] s''; [|done]. intros (k'' & ? & ? & HI'').
    eapply wp_mono; [by apply IH|]. intros [a3|r] s3; [|done].
    intros (k3 & ? & ? & HI3). exists k3. split_and!; [lia|lia|done].
  - apply wp_bind. eapply wp_mono; [by apply IH|].
    intros [a''|r] s''; [|done]. intros (k'' & ? & ? & HI'').
    eapply wp_mono; [by apply IH|]. intros [a3|r] s3; [|done].
    intros (k3 & ? & ? & HI3). exists k3. split_and!; [lia|lia|done].
  - eapply wp_mono; [by apply Hbody|]. intros [a'|r] s'; [|done].
    intros (k' & ? & HI'). exists k'. split_and!; [lia|lia|done].
Qed.

(** A loop whose variant starts below the fuel returns, with its
    postcondition. *)
Lemma wp_whileM k a s : I k a s -> k < 2 ^ 64 -> wp (whileM body a) Q s.
Proof.
  intros HI Hm. apply wp_bind. eapply wp_mono; [exact (wp_loopM FUEL k a s HI)|].
  intros [a'|r] s'; [|done]. intros (k' & ? & H & _). unfold FUEL in H. lia.
Qed.
End loops.

(** * Word memory

    Memory is a finite map from the addresses of 8-byte words to their
    contents; touching an unmapped address is a fault. *)

Abbreviation mem := (gmap Z Z).

(** A state that contains the word memory (a lens). *)
Class HasMem (S : Type) := {
  get_mem : S -> mem;
  set_mem : mem -> S -> S;
  get_set_mem m s : get_mem (set_mem m s) = m;
  set_set_mem m m' s : set_mem m (set_mem m' s) = set_mem m s;
  set_get_mem s : set_mem (get_mem s) s = s;
}.

#[export, program] Instance mem_HasMem : HasMem mem :=
  {| get_mem m := m; set_mem m _ := m |}.
Solve All Obligations with done.

Section memory.
Context {S : Type} `{HasMem S}.

Definition load (a : Z) : M S Z := fun s =>
  match get_mem s !! a with
  | Some v => Some (v, s)
  | None => None
  end.

Definition store (a v : Z) : M S unit := fun s =>
  match get_mem s !! a with
  | Some _ => Some (tt, set_mem (<[a := v]> (get_mem s)) s)
  | None => None
  end.

Lemma wp_load a v (Q : Z -> S -> Prop) s :
  get_mem s !! a = Some v -> Q v s -> wp (load a) Q s.
Proof. unfold wp, load. by intros ->. Qed.

Lemma wp_store a v (Q : unit -> S -> Prop) s :
  is_Some (get_mem s !! a) ->
  Q tt (set_mem (<[a := v]> (get_mem s)) s) -> wp (store a v) Q s.
Proof. unfold wp, store. by intros [? ->]. Qed.
End memory.

(** Memory [m'] differs from [m] at most on the words [W], and no word got
    unmapped. *)
Definition changes (W : list Z) (m m' : mem) : Prop :=
  (forall k, k ∉ W -> m' !! k = m !! k) /\
  (forall k, is_Some (m !! k) -> is_Some (m' !! k)).

Lemma is_Some_insert (m : mem) j v k :
  is_Some (m !! k) -> is_Some (<[j := v]> m !! k).
Proof. rewrite lookup_insert. case_decide; [by eexists|done]. Qed.

Lemma changes_refl W m : changes W m m.
Proof. split; auto. Qed.

Lemma changes_insert W m m' k v :
  k ∈ W -> changes W m m' -> changes W m (<[k := v]> m').
Proof.
  intros Hk [H1 H2]. split.
  - intros j Hj. rewrite lookup_insert_ne; [auto|]. by intros ->.
  - intros j Hj. by apply is_Some_insert, H2.
Qed.

Lemma changes_trans W m1 m2 m3 :
  changes W m1 m2 -> changes W m2 m3 -> changes W m1 m3.
Proof. intros [H1 H2] [H3 H4]. split; intros k Hk; [by rewrite H3, H1|auto]. Qed.

Lemma changes_mono W W' m m' : W ⊆ W' -> changes W m m' -> changes W' m m'.
Proof. intros HW [H1 H2]. split; [|done]. intros k Hk. apply H1. set_solver. Qed.

(** Resolves lookups through stores at addresses [lia] can compare. *)
Ltac mem_lookup :=
  repeat first
    [ rewrite lookup_insert_eq
    | rewrite lookup_insert_ne by lia ].

(** Two store sequences with the same effect. *)
Ltac mem_eq :=
  apply map_eq; intros ?k; rewrite !lookup_insert;
  repeat case_decide; subst; try done; try lia.

Ltac mapped := repeat apply is_Some_insert; first [assumption | by eexists].

(** One step of symbolic execution. *)
Ltac wp_step :=
  cbv beta;
  lazymatch goal with
  | |- wp (_ ≫= _) _ _ => apply wp_bind
  | |- wp (mret _) _ _ => apply wp_ret
  | |- wp (gets _) _ _ => apply wp_gets
  | |- wp (modify _) _ _ => apply wp_modify
  | |- wp (load _) _ _ =>
      eapply wp_load; [rewrite ?get_set_mem; mem_lookup; eassumption|]
  | |- wp (store _ _) _ _ =>
      apply wp_store; [rewrite ?get_set_mem; mapped|];
      rewrite ?get_set_mem, ?set_set_mem
  end.
Ltac wp_steps := repeat wp_step.

(** * Lists *)

Lemma filter_all {A} (P : A -> Prop) `{!forall x, Decision (P x)} (l : list A) :
  (forall x, x ∈ l -> P x) -> filter P l = l.
Proof.
  induction l as [|x l IH]; intros Hl; [done|].
  rewrite filter_cons_True by (apply Hl; left). f_equal. apply IH. intros y Hy. apply Hl. by right.
Qed.

Lemma filter_none {A} (P : A -> Prop) `{!forall x, Decision (P x)} (l : list A) :
  (forall x, x ∈ l -> ~ P x) -> filter P l = [].
Proof.
  induction l as [|x l IH]; intros Hl; [done|].
  rewrite filter_cons_False by (apply Hl; left). apply IH. intros y Hy. apply Hl. by right.
Qed.

(** * Hint databases *)

Create HintDb width.
#[export] Hint Resolve u64_range u32_range u16_range : width.
Create Rewrite HintDb memdb.
#[export] Hint Rewrite @get_set_mem @set_set_mem @set_get_mem : memdb.
