(* ===== verification/DList.v ===== *)
(** Doubly linked lists in the word memory.

    Both the kernel chains (score/chainimpl.h) and the free list of the heap
    (score/heapimpl.h) are doubly linked node lists between a first and a
    last sentinel; they differ in the offsets of the two link fields and in
    whether the sentinels coincide.  This file holds the representation
    predicate they share and what the three link updates (insert, remove,
    replace) do to it. *)

From S2P Require Import Prelude.

Section dlist.
(** Byte offsets of the [next] and [prev] fields in a node. *)
Context (on op : Z).

(** [b] follows [a]. *)
Definition linked (m : mem) (a b : Z) : Prop :=
  m !! (a + on) = Some b /\ m !! (b + op) = Some a.

(** Every two neighbours of the list are linked. *)
Fixpoint links (m : mem) (l : list Z) : Prop :=
  match l with
  | a :: (b :: _) as l' => linked m a b /\ links m l'
  | _ => True
  end.

(** The nodes [ns] between the sentinels [p] and [q]. *)
Definition dlist (m : mem) (p : Z) (ns : list Z) (q : Z) : Prop :=
  links m (p :: ns ++ [q]).

(** The link fields used by a list are pairwise different words. *)
Definition dsep (p : Z) (ns : list Z) (q : Z) : Prop :=
  NoDup (p :: ns) /\ NoDup (ns ++ [q]) /\
  (forall x y, x ∈ p :: ns -> y ∈ ns ++ [q] -> x + on <> y + op).

(** [k] is none of the words used by the list. *)
Definition dfresh (k : Z) (p : Z) (ns : list Z) (q : Z) : Prop :=
  (forall x, x ∈ p :: ns -> k <> x + on) /\
  (forall y, y ∈ ns ++ [q] -> k <> y + op).

Lemma links_app m l1 a l2 :
  links m (l1 ++ a :: l2) <-> links m (l1 ++ [a]) /\ links m (a :: l2).
Proof.
  induction l1 as [|x [|y l1] IH]; cbn [app links] in *; [tauto|tauto|].
  rewrite IH. tauto.
Qed.

Lemma links_cons2 m a b l :
  links m (a :: b :: l) <-> linked m a b /\ links m (b :: l).
Proof. done. Qed.

(** A store to a word the list does not use keeps it. *)
Lemma links_insert m l k v :
  (forall l1 l2 x, l = l1 ++ x :: l2 -> l2 <> [] -> k <> x + on) ->
  (forall l1 l2 y, l = l1 ++ y :: l2 -> l1 <> [] -> k <> y + op) ->
  links m l -> links (<[k := v]> m) l.
Proof.
  induction l as [|a [|b l] IH]; intros Hn Hp; [done|done|].
  rewrite !links_cons2. intros [[H1 H2] Hl]. split.
  - split; rewrite lookup_insert_ne; try done.
    + apply (Hn [] (b :: l)); done.
    + apply (Hp [a] l); done.
  - apply IH; [| |done].
    + intros l1 l2 x E Hne. apply (Hn (a :: l1) l2); [by rewrite E|done].
    + intros l1 l2 y E Hne. apply (Hp (a :: l1) l2); [by rewrite E|done].
Qed.

Lemma elem_of_front (p : Z) ns q l1 x l2 :
  p :: ns ++ [q] = l1 ++ x :: l2 -> l2 <> [] -> x ∈ p :: ns.
Proof.
  intros E Hne. destruct l2 as [|z l2 _] using rev_ind; [done|].
  change (x :: l2 ++ [z]) with ((x :: l2) ++ [z]) in E. rewrite app_assoc in E.
  change (p :: ns ++ [q]) with ((p :: ns) ++ [q]) in E.
  apply app_inj_tail in E as [-> _]. set_solver.
Qed.

Lemma elem_of_back (p : Z) ns q l1 y l2 :
  p :: ns ++ [q] = l1 ++ y :: l2 -> l1 <> [] -> y ∈ ns ++ [q].
Proof. intros E Hne. destruct l1 as [|a l1]; [done|]. cbn in E. injection E as _ ->. set_solver. Qed.

Lemma dlist_insert_ne m p ns q k v :
  dfresh k p ns q -> dlist m p ns q -> dlist (<[k := v]> m) p ns q.
Proof.
  intros [Hn Hp]. apply links_insert.
  - intros l1 l2 x E Hne. by apply Hn, (elem_of_front p ns q l1 x l2).
  - intros l1 l2 y E Hne. by apply Hp, (elem_of_back p ns q l1 y l2).
Qed.

(** A memory that agrees on the words of the list holds the same list. *)
Lemma dlist_ext m m' p ns q :
  (forall x, x ∈ p :: ns -> m' !! (x + on) = m !! (x + on)) ->
  (forall y, y ∈ ns ++ [q] -> m' !! (y + op) = m !! (y + op)) ->
  dlist m p ns q -> dlist m' p ns q.
Proof.
  unfold dlist. revert p. induction ns as [|n ns IH]; intros p Hn Hp; cbn [app].
  - intros [[H1 H2] _]. split; [|done].
    split; [rewrite Hn|rewrite Hp]; set_solver.
  - rewrite !links_cons2. intros [[H1 H2] Hl]. split.
    + split; [rewrite Hn|rewrite Hp]; set_solver.
    + apply IH; [set_solver|set_solver|done].
Qed.

(** ** Neighbours of a position *)

(** The node before the position after [l1], and the one at the start of
    [l2]. *)
Definition dpred (p : Z) (l1 : list Z) : Z := default p (last l1).
Definition dsucc (l2 : list Z) (q : Z) : Z := default q (head l2).

Lemma dpred_split p l1 : exists A, p :: l1 = A ++ [dpred p l1].
Proof.
  destruct l1 as [|a l1 _] using rev_ind; [by exists []|].
  exists (p :: l1). unfold dpred. by rewrite last_snoc.
Qed.

Lemma dsucc_split l2 q : exists B, l2 ++ [q] = dsucc l2 q :: B.
Proof. destruct l2 as [|b l2]; [by exists []|]. by exists (l2 ++ [q]). Qed.

Lemma dsucc_cons b l2 q : dsucc (b :: l2) q = b.
Proof. done. Qed.

Lemma dsucc_nil q : dsucc [] q = q.
Proof. done. Qed.

Lemma dpred_nil p : dpred p [] = p.
Proof. done. Qed.

Lemma dpred_snoc p l1 a : dpred p (l1 ++ [a]) = a.
Proof. unfold dpred. by rewrite last_snoc. Qed.

Lemma dpred_elem p l1 : dpred p l1 ∈ p :: l1.
Proof. destruct (dpred_split p l1) as [A ->]. set_solver. Qed.

Lemma dsucc_elem l2 q : dsucc l2 q ∈ l2 ++ [q].
Proof. destruct (dsucc_split l2 q) as [B ->]. set_solver. Qed.

(** A list splits around a position into two linked halves. *)
Lemma dlist_split m p l1 n l2 q : dlist m p (l1 ++ n :: l2) q ->
  links m (p :: l1) /\ links m (l2 ++ [q]) /\
  linked m (dpred p l1) n /\ linked m n (dsucc l2 q).
Proof.
  unfold dlist. rewrite <- app_assoc. cbn [app].
  destruct (dpred_split p l1) as [A HA], (dsucc_split l2 q) as [B HB].
  rewrite HB. change (p :: l1 ++ n :: dsucc l2 q :: B)
    with ((p :: l1) ++ n :: dsucc l2 q :: B).
  rewrite HA, <- app_assoc. cbn [app].
  rewrite links_app, !links_cons2. tauto.
Qed.

Lemma dlist_split_pos m p l1 l2 q : dlist m p (l1 ++ l2) q ->
  links m (p :: l1) /\ links m (l2 ++ [q]) /\
  linked m (dpred p l1) (dsucc l2 q).
Proof.
  unfold dlist. rewrite <- app_assoc.
  destruct (dpred_split p l1) as [A HA], (dsucc_split l2 q) as [B HB].
  rewrite HB. change (p :: l1 ++ dsucc l2 q :: B) with ((p :: l1) ++ dsucc l2 q :: B).
  rewrite HA, <- app_assoc. cbn [app]. rewrite links_app, !links_cons2. tauto.
Qed.

Lemma dlist_first m p ns q : dlist m p ns q -> m !! (p + on) = Some (dsucc ns q).
Proof. intros H. by apply (dlist_split_pos m p [] ns q) in H as (_ & _ & ? & _). Qed.

Lemma dlist_last m p ns q : dlist m p ns q -> m !! (q + op) = Some (dpred p ns).
Proof.
  intros H. rewrite <- (app_nil_r ns) in H.
  by apply dlist_split_pos in H as (_ & _ & _ & ?).
Qed.

(** Stores outside the words of one half keep that half. *)
Lemma links_front m p l1 k v : NoDup (p :: l1) ->
  (forall x, x ∈ p :: l1 -> x <> dpred p l1 -> k <> x + on) ->
  (forall y, y ∈ l1 -> k <> y + op) ->
  links m (p :: l1) -> links (<[k := v]> m) (p :: l1).
Proof.
  intros Hnd Hn Hp. destruct (dpred_split p l1) as [A HA].
  apply links_insert.
  - intros l2 l3 x E Hne. destruct l3 as [|z l3 _] using rev_ind; [done|].
    change (x :: l3 ++ [z]) with ((x :: l3) ++ [z]) in E. rewrite app_assoc in E.
    rewrite E in HA. apply app_inj_tail in HA as [HA Hz].
    rewrite E in Hnd. apply NoDup_app in Hnd as (_ & Hd & _).
    apply Hn; [rewrite E; set_solver|].
    intros ->. apply (Hd (dpred p l1)); set_solver.
  - intros l2 l3 y E Hne. apply Hp. destruct l2 as [|z l2]; [done|].
    cbn in E. injection E as _ ->. set_solver.
Qed.

Lemma links_back m l2 q k v : NoDup (l2 ++ [q]) ->
  (forall x, x ∈ l2 -> k <> x + on) ->
  (forall y, y ∈ l2 ++ [q] -> y <> dsucc l2 q -> k <> y + op) ->
  links m (l2 ++ [q]) -> links (<[k := v]> m) (l2 ++ [q]).
Proof.
  intros Hnd Hn Hp. destruct (dsucc_split l2 q) as [B HB].
  apply links_insert.
  - intros l1 l3 x E Hne. apply Hn. destruct l3 as [|z l3 _] using rev_ind; [done|].
    change (x :: l3 ++ [z]) with ((x :: l3) ++ [z]) in E. rewrite app_assoc in E.
    apply app_inj_tail in E as [-> _]. set_solver.
  - intros l1 l3 y E Hne. rewrite E in HB.
    apply Hp; [rewrite E; set_solver|]. intros ->.
    destruct l1 as [|z l1]; [done|]. cbn in HB. injection HB as Hz _.
    rewrite E, Hz in Hnd. apply NoDup_cons in Hnd as [Hnd _]. set_solver.
Qed.

Lemma dlist_join m p l1 l2 q :
  links m (p :: l1) -> links m (l2 ++ [q]) ->
  linked m (dpred p l1) (dsucc l2 q) -> dlist m p (l1 ++ l2) q.
Proof.
  intros H1 H2 H3. unfold dlist. rewrite <- app_assoc.
  destruct (dpred_split p l1) as [A HA], (dsucc_split l2 q) as [B HB].
  rewrite HB in *. change (p :: l1 ++ dsucc l2 q :: B) with ((p :: l1) ++ dsucc l2 q :: B).
  rewrite HA in *. rewrite <- app_assoc. cbn [app].
  rewrite links_app, !links_cons2. tauto.
Qed.

Lemma dlist_join_mid m p l1 n l2 q :
  links m (p :: l1) -> links m (l2 ++ [q]) ->
  linked m (dpred p l1) n -> linked m n (dsucc l2 q) ->
  dlist m p (l1 ++ n :: l2) q.
Proof.
  intros H1 H2 H3 H4. apply dlist_join; [done| |done].
  cbn [app]. destruct (dsucc_split l2 q) as [B HB]. rewrite HB in *.
  by rewrite links_cons2.
Qed.

(** The separation facts that the two link updates need. *)
Lemma dsep_halves p l1 l2 q : dsep p (l1 ++ l2) q ->
  NoDup (p :: l1) /\ NoDup (l2 ++ [q]) /\
  (forall x y, x ∈ p :: l1 -> y ∈ l2 -> x <> y) /\
  (forall x y, x ∈ l1 -> y ∈ l2 ++ [q] -> x <> y) /\
  (forall x y, x ∈ p :: l1 ++ l2 -> y ∈ l1 ++ l2 ++ [q] -> x + on <> y + op).
Proof.
  intros (H1 & H2 & H3). change (p :: l1 ++ l2) with ((p :: l1) ++ l2) in *.
  rewrite <- app_assoc in *. apply NoDup_app in H1 as (? & H1 & _).
  apply NoDup_app in H2 as (_ & H2 & ?).
  split_and!; try done; intros x y Hx Hy ->; [by apply (H1 y)|by apply (H2 y)].
Qed.

(** Stores to the fields at the cut or beyond it keep a half. *)
Lemma front_keep m p l1 l2 q k v : dsep p (l1 ++ l2) q ->
  k = dpred p l1 + on \/ (exists x, x ∈ l2 /\ k = x + on) \/
    (exists y, y ∈ l2 ++ [q] /\ k = y + op) ->
  links m (p :: l1) -> links (<[k := v]> m) (p :: l1).
Proof.
  intros Hs Hk. pose proof (dpred_elem p l1) as Ha.
  apply dsep_halves in Hs as (Hd1 & Hd2 & H12 & H12' & Hop).
  apply links_front; [done|..].
  - intros x Hx Hne E. destruct Hk as [->|[(z & Hz & ->)|(z & Hz & ->)]].
    + apply Hne. lia.
    + apply (H12 x z); [done..|lia].
    + symmetry in E. revert E. apply Hop; set_solver.
  - intros y Hy E. destruct Hk as [->|[(z & Hz & ->)|(z & Hz & ->)]].
    + revert E. apply Hop; set_solver.
    + revert E. apply Hop; set_solver.
    + apply (H12' y z); [done..|lia].
Qed.

Lemma back_keep m p l1 l2 q k v : dsep p (l1 ++ l2) q ->
  k = dsucc l2 q + op \/ (exists x, x ∈ p :: l1 /\ k = x + on) \/
    (exists y, y ∈ l1 /\ k = y + op) ->
  links m (l2 ++ [q]) -> links (<[k := v]> m) (l2 ++ [q]).
Proof.
  intros Hs Hk. pose proof (dsucc_elem l2 q) as Hb.
  apply dsep_halves in Hs as (Hd1 & Hd2 & H12 & H12' & Hop).
  apply links_back; [done|..].
  - intros x Hx E. destruct Hk as [->|[(z & Hz & ->)|(z & Hz & ->)]].
    + symmetry in E. revert E. apply Hop; set_solver.
    + apply (H12 z x); [done..|lia].
    + symmetry in E. revert E. apply Hop; set_solver.
  - intros y Hy Hne E. destruct Hk as [->|[(z & Hz & ->)|(z & Hz & ->)]].
    + apply Hne. lia.
    + revert E. apply Hop; set_solver.
    + apply (H12' z y); [done..|lia].
Qed.

(** Unlinking: [pred->next = succ; succ->prev = pred]. *)
Lemma dlist_link2 m p l1 l2 q :
  let a := dpred p l1 in let b := dsucc l2 q in
  dsep p (l1 ++ l2) q -> links m (p :: l1) -> links m (l2 ++ [q]) ->
  dlist (<[b + op := a]> (<[a + on := b]> m)) p (l1 ++ l2) q.
Proof.
  intros a b Hs H1 H2. pose proof (dpred_elem p l1). pose proof (dsucc_elem l2 q).
  assert (a + on <> b + op) by (apply Hs; set_solver).
  apply dlist_join.
  - do 2 (eapply front_keep; [exact Hs|eauto|]). done.
  - do 2 (eapply back_keep; [exact Hs|eauto|]). done.
  - split; [|by rewrite lookup_insert_eq].
    rewrite lookup_insert_ne by done. by rewrite lookup_insert_eq.
Qed.

Lemma dsep_remove p l1 n l2 q : dsep p (l1 ++ n :: l2) q -> dsep p (l1 ++ l2) q.
Proof.
  intros (H1 & H2 & H3). split; [|split].
  - eapply sublist_NoDup; [exact H1|]. apply sublist_skip, sublist_app; [done|].
    by apply sublist_cons.
  - eapply sublist_NoDup; [exact H2|].
    apply sublist_app; [|done]. apply sublist_app; [done|]. by apply sublist_cons.
  - intros x y Hx Hy. apply H3; set_solver.
Qed.

Lemma dlist_remove m p l1 n l2 q :
  dsep p (l1 ++ n :: l2) q -> dlist m p (l1 ++ n :: l2) q ->
  dlist (<[dsucc l2 q + op := dpred p l1]> (<[dpred p l1 + on := dsucc l2 q]> m))
    p (l1 ++ l2) q.
Proof.
  intros Hs Hl. apply dlist_split in Hl as (Hf & Hb & _ & _).
  apply dlist_link2; [by eapply dsep_remove|done|done].
Qed.

(** Linking a node in, or in the place of another:
    [n->next = succ; n->prev = pred; pred->next = n; succ->prev = n]. *)
Lemma dlist_link4 m p l1 n l2 q :
  let a := dpred p l1 in let b := dsucc l2 q in
  dsep p (l1 ++ n :: l2) q -> links m (p :: l1) -> links m (l2 ++ [q]) ->
  dlist (<[b + op := n]> (<[a + on := n]> (<[n + op := a]> (<[n + on := b]> m))))
    p (l1 ++ n :: l2) q.
Proof.
  intros a b Hs H1 H2.
  pose proof (dpred_elem p l1) as Ha. pose proof (dsucc_elem l2 q) as Hb.
  fold a in Ha. fold b in Hb. pose proof (dsep_halves _ _ _ _ Hs) as (_ & _ & Hna & _ & Hop).
  assert (Hs' : dsep p ((l1 ++ [n]) ++ l2) q) by (by rewrite <- app_assoc).
  pose proof (dsep_halves _ _ _ _ Hs') as (_ & _ & _ & Hnb & _).
  specialize (Hna a n ltac:(done) ltac:(set_solver)).
  specialize (Hnb n b ltac:(set_solver) ltac:(done)).
  assert (n + on <> n + op) by (apply Hop; set_solver).
  assert (a + on <> n + op) by (apply Hop; set_solver).
  assert (n + on <> b + op) by (apply Hop; set_solver).
  assert (a + on <> b + op) by (apply Hop; set_solver).
  apply dlist_join_mid.
  - do 4 (eapply front_keep; [exact Hs|try (left; reflexivity); set_solver|]). done.
  - do 4 (eapply back_keep; [exact Hs'|try (left; reflexivity); set_solver|]). done.
  - split; fold a; repeat (rewrite lookup_insert_ne by lia); by rewrite lookup_insert_eq.
  - split; fold b; repeat (rewrite lookup_insert_ne by lia); by rewrite lookup_insert_eq.
Qed.

(** Insertion of [n] after the nodes [l1]. *)
Lemma dlist_insert m p l1 n l2 q :
  dsep p (l1 ++ n :: l2) q -> dlist m p (l1 ++ l2) q ->
  dlist (<[dsucc l2 q + op := n]> (<[dpred p l1 + on := n]>
    (<[n + op := dpred p l1]> (<[n + on := dsucc l2 q]> m)))) p (l1 ++ n :: l2) q.
Proof.
  intros Hs Hl. apply dlist_split_pos in Hl as (Hf & Hb & _). by apply dlist_link4.
Qed.

(** [n] takes the place of [o]. *)
Lemma dlist_replace m p l1 o n l2 q :
  dsep p (l1 ++ n :: l2) q -> dlist m p (l1 ++ o :: l2) q ->
  dlist (<[dsucc l2 q + op := n]> (<[dpred p l1 + on := n]>
    (<[n + op := dpred p l1]> (<[n + on := dsucc l2 q]> m)))) p (l1 ++ n :: l2) q.
Proof.
  intros Hs Hl. apply dlist_split in Hl as (Hf & Hb & _). by apply dlist_link4.
Qed.

Lemma dsep_insert p l1 n l2 q : dsep p (l1 ++ l2) q ->
  n ∉ p :: l1 ++ l2 -> n ∉ l1 ++ l2 ++ [q] ->
  (forall y, y ∈ l1 ++ l2 ++ [q] -> n + on <> y + op) ->
  (forall x, x ∈ p :: l1 ++ l2 -> x + on <> n + op) -> on <> op ->
  dsep p (l1 ++ n :: l2) q.
Proof.
  intros (H1 & H2 & H3) Hn1 Hn2 Hno Hnp Hne. rewrite <- app_assoc in H2.
  split; [|split].
  - rewrite <- (Permutation_middle l1 l2 n), (Permutation_swap n p).
    by apply NoDup_cons.
  - rewrite <- app_assoc. cbn [app].
    rewrite <- (Permutation_middle l1 (l2 ++ [q]) n). by apply NoDup_cons.
  - intros x y Hx Hy. rewrite <- app_assoc in Hy.
    assert (Hx' : x = n \/ x ∈ p :: l1 ++ l2) by set_solver.
    assert (Hy' : y = n \/ y ∈ l1 ++ l2 ++ [q]) by set_solver.
    destruct Hx' as [->|Hx'], Hy' as [->|Hy']; auto; [lia|].
    apply H3; [done|]. by rewrite <- app_assoc.
Qed.
End dlist.

#[global] Arguments dlist : simpl never.
