(* ===== verification/PriorityBitmap.v ===== *)
(** The two-level priority bit map of the deterministic priority scheduler
    (score/prioritybitmap.h, score/prioritybitmapimpl.h, score/log2table.c):
    sixteen major bits, each standing for a 16-bit word of minor bits.

    [Priority_bit_map_Information.minor] is a pointer into the array
    [bit_map]; it is represented by the index it points to. *)

From S2P Require Import Prelude.
Open Scope width_scope.

Module PriorityBitmap.

(** * Data *)

Record Priority_bit_map_Control := {
  major_bit_map : Z;              (* Priority_bit_map_Word *)
  bit_map : list Z;               (* Priority_bit_map_Word [16] *)
}.

Record Priority_bit_map_Information := {
  minor : nat;                    (* &bit_map[minor] *)
  ready_major : Z;
  ready_minor : Z;
  block_major : Z;
  block_minor : Z;
}.

Definition _Bitfield_Leading_zeros : list Z := [
    7; 7; 6; 6; 5; 5; 5; 5; 4; 4; 4; 4; 4; 4; 4; 4;
    3; 3; 3; 3; 3; 3; 3; 3; 3; 3; 3; 3; 3; 3; 3; 3;
    2; 2; 2; 2; 2; 2; 2; 2; 2; 2; 2; 2; 2; 2; 2; 2;
    2; 2; 2; 2; 2; 2; 2; 2; 2; 2; 2; 2; 2; 2; 2; 2;
    1; 1; 1; 1; 1; 1; 1; 1; 1; 1; 1; 1; 1; 1; 1; 1;
    1; 1; 1; 1; 1; 1; 1; 1; 1; 1; 1; 1; 1; 1; 1; 1;
    1; 1; 1; 1; 1; 1; 1; 1; 1; 1; 1; 1; 1; 1; 1; 1;
    1; 1; 1; 1; 1; 1; 1; 1; 1; 1; 1; 1; 1; 1; 1; 1;
    0; 0; 0; 0; 0; 0; 0; 0; 0; 0; 0; 0; 0; 0; 0; 0;
    0; 0; 0; 0; 0; 0; 0; 0; 0; 0; 0; 0; 0; 0; 0; 0;
    0; 0; 0; 0; 0; 0; 0; 0; 0; 0; 0; 0; 0; 0; 0; 0;
    0; 0; 0; 0; 0; 0; 0; 0; 0; 0; 0; 0; 0; 0; 0; 0;
    0; 0; 0; 0; 0; 0; 0; 0; 0; 0; 0; 0; 0; 0; 0; 0;
    0; 0; 0; 0; 0; 0; 0; 0; 0; 0; 0; 0; 0; 0; 0; 0;
    0; 0; 0; 0; 0; 0; 0; 0; 0; 0; 0; 0; 0; 0; 0; 0;
    0; 0; 0; 0; 0; 0; 0; 0; 0; 0; 0; 0; 0; 0; 0; 0
  ].

(** * Operations *)

(** [__builtin_clz] on a 32-bit [unsigned int]; undefined at zero. *)
Definition __builtin_clz (value : Z) : option Z :=
  if value =? 0 then None else Some (31 - Z.log2 value).

(** The branch compiled by GCC ([CPU_USE_GENERIC_BITFIELD_CODE] is [TRUE]
    on x86_64 and [__GNUC__] is defined); [None] is the undefined
    behaviour of [__builtin_clz(0)]. *)
Definition _Bitfield_Find_first_bit (value : Z) : option Z :=
  clz ← __builtin_clz value;
  Some (clz -. 4 * 8 +. 16).

(** The branch of the same function for other compilers, a table scan;
    [None] is a read outside the table. *)
Definition _Bitfield_Find_first_bit_generic (value : Z) : option Z :=
  if value <? 0x100
  then z ← _Bitfield_Leading_zeros !! Z.to_nat value; Some (z +. 8)
  else _Bitfield_Leading_zeros !! Z.to_nat (Z.shiftr value 8).

Definition _Priority_Mask (bit_number : Z) : Z :=
  u16 (Z.shiftr 0x8000 bit_number).

Definition _Priority_Bits_index (bit_number : Z) : Z := bit_number.

Definition _Priority_Major (the_priority : Z) : Z := the_priority / 16.

Definition _Priority_Minor (the_priority : Z) : Z := the_priority mod 16.

(** [memset( bit_map, 0, sizeof( *bit_map ) )] *)
Definition _Priority_bit_map_Initialize (_ : Priority_bit_map_Control)
    : Priority_bit_map_Control :=
  {| major_bit_map := 0; bit_map := replicate 16 0 |}.

Definition _Priority_bit_map_Add (m : Priority_bit_map_Control)
    (info : Priority_bit_map_Information) : option Priority_bit_map_Control :=
  word ← bit_map m !! minor info;
  Some {| bit_map := <[minor info := Z.lor word (ready_minor info)]> (bit_map m);
          major_bit_map := Z.lor (major_bit_map m) (ready_major info) |}.

Definition _Priority_bit_map_Remove (m : Priority_bit_map_Control)
    (info : Priority_bit_map_Information) : option Priority_bit_map_Control :=
  word ← bit_map m !! minor info;
  let word' := Z.land word (block_minor info) in
  Some {| bit_map := <[minor info := word']> (bit_map m);
          major_bit_map :=
            if word' =? 0 then Z.land (major_bit_map m) (block_major info)
            else major_bit_map m |}.

Definition _Priority_bit_map_Get_highest (m : Priority_bit_map_Control)
    : option Z :=
  major ← _Bitfield_Find_first_bit (major_bit_map m);
  word ← bit_map m !! Z.to_nat major;
  minor ← _Bitfield_Find_first_bit word;
  Some (u32 (Z.shiftl (_Priority_Bits_index major) 4)
        +. _Priority_Bits_index minor).

Definition _Priority_bit_map_Is_empty (m : Priority_bit_map_Control) : bool :=
  major_bit_map m =? 0.

Definition _Priority_bit_map_Initialize_information (new_priority : Z)
    : Priority_bit_map_Information :=
  let major := _Priority_Major new_priority in
  let minor := _Priority_Minor new_priority in
  let mask_major := _Priority_Mask major in
  let mask_minor := _Priority_Mask minor in
  {| minor := Z.to_nat (_Priority_Bits_index major);
     ready_major := mask_major;
     block_major := u16 (Z.lnot mask_major);
     ready_minor := mask_minor;
     block_minor := u16 (Z.lnot mask_minor) |}.

(** * Specification

    The abstract state is the finite set of ready priorities.  Priority
    [p] is the minor bit [15 - p mod 16] of word [p / 16]. *)

Definition word_at (m : Priority_bit_map_Control) (i : Z) : Z :=
  default 0 (bit_map m !! Z.to_nat i).

Definition is_set (m : Priority_bit_map_Control) (p : Z) : bool :=
  Z.testbit (word_at m (p / 16)) (15 - p mod 16).

(** Words fit in 16 bits and a major bit is set exactly when its minor word
    is not zero. *)
Record wf (m : Priority_bit_map_Control) : Prop := {
  wf_length : length (bit_map m) = 16%nat;
  wf_major : 0 <= major_bit_map m < 2 ^ 16;
  wf_word i : 0 <= i < 16 -> 0 <= word_at m i < 2 ^ 16;
  wf_bit i : 0 <= i < 16 ->
    Z.testbit (major_bit_map m) (15 - i) = negb (word_at m i =? 0);
}.

(** [m] represents the set [P] of ready priorities. *)
Definition repr (m : Priority_bit_map_Control) (P : gset Z) : Prop :=
  wf m /\ (forall p, p ∈ P -> 0 <= p < 256) /\
  (forall p, 0 <= p < 256 -> p ∈ P <-> is_set m p = true).

(** * Lemmas on masks *)

Lemma mask_pow2 b : 0 <= b < 16 -> _Priority_Mask b = 2 ^ (15 - b).
Proof.
  intros Hb. unfold _Priority_Mask. rewrite Z.shiftr_div_pow2 by lia.
  assert (Hp : 0x8000 = 2 ^ (15 - b) * 2 ^ b).
  { rewrite <- Z.pow_add_r by lia. by replace (15 - b + b) with 15 by lia. }
  rewrite Hp, Z.div_mul by (apply Z.pow_nonzero; lia).
  apply u16_small. split; [apply Z.pow_nonneg; lia|].
  apply Z.pow_lt_mono_r; lia.
Qed.

Lemma testbit_mask b i : 0 <= b < 16 -> 0 <= i ->
  Z.testbit (_Priority_Mask b) i = (i =? 15 - b).
Proof.
  intros Hb Hi. rewrite mask_pow2 by done.
  rewrite Z.pow2_bits_eqb by lia. apply Z.eqb_sym.
Qed.

Lemma testbit_block_mask b i : 0 <= b < 16 -> 0 <= i < 16 ->
  Z.testbit (u16 (Z.lnot (_Priority_Mask b))) i = negb (i =? 15 - b).
Proof.
  intros Hb Hi. unfold u16. rewrite Z.mod_pow2_bits_low by lia.
  rewrite Z.lnot_spec by lia. by rewrite testbit_mask by lia.
Qed.

Lemma find_first_bit_log2 w : 0 < w < 2 ^ 16 ->
  _Bitfield_Find_first_bit w = Some (15 - Z.log2 w).
Proof.
  intros Hw. destruct (nonzero_bit w 16) as ([? ?] & _); [lia|done|].
  unfold _Bitfield_Find_first_bit, __builtin_clz.
  destruct (Z.eqb_spec w 0) as [?|_]; [lia|]. cbn -[u32]. f_equal.
  unfold u32. rewrite Zplus_mod_idemp_l.
  replace (31 - Z.log2 w - 4 * 8 + 16) with (15 - Z.log2 w) by lia.
  apply Z.mod_small. lia.
Qed.

(** * The operations implement the set of ready priorities *)

Lemma slot_range p : 0 <= p < 256 -> 0 <= p / 16 < 16 /\ 0 <= p mod 16 < 16.
Proof.
  intros Hp. split; [|apply Z.mod_pos_bound; lia].
  split; [apply Z.div_pos|apply Z.div_lt_upper_bound]; lia.
Qed.

(** Two priorities of the same word share their bit only when equal. *)
Lemma same_slot p q : q / 16 = p / 16 ->
  (15 - q mod 16 =? 15 - p mod 16) = (q =? p).
Proof.
  intros E. pose proof (Z.div_mod p 16). pose proof (Z.div_mod q 16).
  destruct (Z.eqb_spec (15 - q mod 16) (15 - p mod 16)), (Z.eqb_spec q p);
    try done; lia.
Qed.

Lemma eqb_15_sub i j : (15 - i =? 15 - j) = (i =? j).
Proof. destruct (Z.eqb_spec i j); [apply Z.eqb_eq|apply Z.eqb_neq]; lia. Qed.

Section operations.
Context (m : Priority_bit_map_Control) (P : gset Z) (Hm : repr m P).

Lemma word_at_lookup i : 0 <= i < 16 ->
  bit_map m !! Z.to_nat i = Some (word_at m i).
Proof.
  intros Hi. destruct Hm as [[Hlen _ _ _] _]. unfold word_at.
  destruct (lookup_lt_is_Some_2 (bit_map m) (Z.to_nat i)) as [w Hw]; [lia|].
  by rewrite Hw.
Qed.

Lemma word_at_insert mj i j w : 0 <= i < 16 -> 0 <= j < 16 ->
  word_at {| major_bit_map := mj; bit_map := <[Z.to_nat i := w]> (bit_map m) |} j
  = if j =? i then w else word_at m j.
Proof.
  intros Hi Hj. destruct Hm as [[Hlen _ _ _] _]. unfold word_at; cbn.
  destruct (Z.eqb_spec j i) as [->|Hne].
  - rewrite list_lookup_insert_eq; [done|lia].
  - rewrite list_lookup_insert_ne; [done|lia].
Qed.

(** Rebuilds [repr] after an update of word [p / 16]. *)
Lemma repr_update p mj w P' : 0 <= p < 256 ->
  0 <= mj < 2 ^ 16 -> 0 <= w < 2 ^ 16 ->
  (forall i, 0 <= i < 16 -> Z.testbit mj (15 - i) =
     if i =? p / 16 then negb (w =? 0) else Z.testbit (major_bit_map m) (15 - i)) ->
  (forall q, q ∈ P' -> 0 <= q < 256) ->
  (forall q, 0 <= q < 256 -> q ∈ P' <->
     (if q / 16 =? p / 16 then Z.testbit w (15 - q mod 16) else is_set m q) = true) ->
  repr {| major_bit_map := mj;
          bit_map := <[Z.to_nat (p / 16) := w]> (bit_map m) |} P'.
Proof.
  intros Hp Hmj Hw Hbit Hrng Hin. pose proof Hm as [[Hlen HM HW HB] _].
  destruct (slot_range p Hp). split; [split|split; [done|]].
  - cbn. by rewrite length_insert.
  - done.
  - intros i Hi. rewrite word_at_insert by done. case_bool; auto.
  - intros i Hi. rewrite word_at_insert by done. cbn [major_bit_map].
    rewrite Hbit by done. case_bool; [done|]. by apply HB.
  - intros q Hq. rewrite Hin by done. unfold is_set.
    destruct (slot_range q Hq). rewrite word_at_insert by done. by case_bool.
Qed.

(** Adding the mask information of priority [p] to a bit map that
    represents [P] yields a bit map that represents [{p} ∪ P]: the major
    and minor words stay consistent. *)
Lemma bit_map_add_refines p : 0 <= p < 256 ->
  exists m', _Priority_bit_map_Add m (_Priority_bit_map_Initialize_information p)
             = Some m' /\ repr m' ({[p]} ∪ P).
Proof.
  intros Hp. pose proof Hm as [[Hlen HM HW HB] [Hrng Hin]].
  destruct (slot_range p Hp) as [Hj Hn].
  unfold _Priority_bit_map_Add; cbn [minor _Priority_bit_map_Initialize_information].
  unfold _Priority_Bits_index, _Priority_Major. rewrite word_at_lookup by done.
  eexists; split; [reflexivity|]. cbn.
  apply repr_update; try done.
  - apply lor_range; [lia|done|]. apply u16_range.
  - apply lor_range; [lia|auto|]. apply u16_range.
  - intros i Hi. rewrite Z.lor_spec. unfold _Priority_Major.
    rewrite testbit_mask, eqb_15_sub by lia. case_bool; [|apply orb_false_r].
    rewrite orb_true_r. symmetry. apply negb_true_iff, Z.eqb_neq.
    apply (bit_nonzero _ (15 - p mod 16)). rewrite Z.lor_spec.
    unfold _Priority_Minor. rewrite testbit_mask, Z.eqb_refl by lia. apply orb_true_r.
  - intros q [->%elem_of_singleton|Hq]%elem_of_union; auto.
  - intros q Hq. rewrite elem_of_union, elem_of_singleton, Hin by done.
    unfold _Priority_Minor, is_set. destruct (slot_range q Hq).
    destruct (Z.eqb_spec (q / 16) (p / 16)) as [E|E].
    + rewrite Z.lor_spec, testbit_mask, same_slot, E by lia.
      rewrite orb_true_iff, Z.eqb_eq. tauto.
    + split; [intros [->|?]|]; tauto.
Qed.

(** Removing the mask information of priority [p] yields a bit map that
    represents [P] without [p]: the major bit is cleared exactly when the
    last priority of its word goes. *)
Lemma bit_map_remove_refines p : 0 <= p < 256 ->
  exists m', _Priority_bit_map_Remove m (_Priority_bit_map_Initialize_information p)
             = Some m' /\ repr m' (P ∖ {[p]}).
Proof.
  intros Hp. pose proof Hm as [[Hlen HM HW HB] [Hrng Hin]].
  destruct (slot_range p Hp) as [Hj Hn].
  unfold _Priority_bit_map_Remove; cbn [minor _Priority_bit_map_Initialize_information].
  unfold _Priority_Bits_index, _Priority_Major. rewrite word_at_lookup by done.
  eexists; split; [reflexivity|]. cbn -[u16]. unfold _Priority_Major, _Priority_Minor.
  set (w' := Z.land (word_at m (p / 16)) _).
  apply repr_update; try done.
  - case_bool; [|done]. by apply land_range.
  - by apply land_range; [|apply HW].
  - intros i Hi. destruct (Z.eqb_spec w' 0) as [Hz|Hz];
      destruct (Z.eqb_spec i (p / 16)) as [Hi'|Hi']; cbn; try done.
    + rewrite Z.land_spec, testbit_block_mask, eqb_15_sub by lia.
      apply Z.eqb_eq in Hi'. rewrite Hi'. apply andb_false_r.
    + rewrite Z.land_spec, testbit_block_mask, eqb_15_sub by lia.
      apply Z.eqb_neq in Hi'. rewrite Hi'. apply andb_true_r.
    + rewrite HB, Hi' by done. apply negb_true_iff, Z.eqb_neq.
      intros H0. subst w'. by rewrite H0, Z.land_0_l in Hz.
  - intros q Hq. apply Hrng. set_solver.
  - intros q Hq. rewrite elem_of_difference, elem_of_singleton, Hin by done.
    unfold is_set, w'. destruct (slot_range q Hq).
    destruct (Z.eqb_spec (q / 16) (p / 16)) as [E|E].
    + rewrite Z.land_spec, testbit_block_mask, same_slot, E by lia.
      rewrite andb_true_iff, negb_true_iff, Z.eqb_neq. tauto.
    + split; [tauto|]. split; [done|]. by intros ->.
Qed.

(** For a bit map that represents a set [P] with an element, the two
    bit scans of [_Priority_bit_map_Get_highest] return the numerically
    smallest, that is the most urgent, priority of [P]. *)
Lemma bit_map_highest_minimal p : p ∈ P ->
  exists h, _Priority_bit_map_Get_highest m = Some h /\ h ∈ P /\
            forall q, q ∈ P -> h <= q.
Proof.
  intros HpP. pose proof Hm as [[Hlen HM HW HB] [Hrng Hin]].
  pose proof (Hrng p HpP) as Hp. destruct (slot_range p Hp) as [Hj Hn].
  assert (Hset : forall q, q ∈ P ->
    Z.testbit (major_bit_map m) (15 - q / 16) = true /\ word_at m (q / 16) <> 0).
  { intros q Hq. pose proof (Hrng q Hq). destruct (slot_range q) as [? ?]; [done|].
    apply Hin in Hq; [|done]. apply bit_nonzero in Hq.
    rewrite HB by done. split; [|done]. by apply negb_true_iff, Z.eqb_neq. }
  assert (HM0 : 0 < major_bit_map m < 2 ^ 16).
  { destruct (Hset p HpP) as [Hb _]. apply bit_nonzero in Hb. lia. }
  destruct (nonzero_bit (major_bit_map m) 16) as (HJ & HJb & HJmax); [lia|done|].
  set (J := Z.log2 (major_bit_map m)) in *.
  pose proof (HB (15 - J)) as HBJ. replace (15 - (15 - J)) with J in HBJ by lia.
  rewrite HJb in HBJ. specialize (HBJ ltac:(lia)). symmetry in HBJ. bool_hyps.
  assert (HW0 : 0 < word_at m (15 - J) < 2 ^ 16) by (specialize (HW (15 - J)); lia).
  destruct (nonzero_bit (word_at m (15 - J)) 16) as (HN & HNb & HNmax); [lia|done|].
  set (N := Z.log2 (word_at m (15 - J))) in *.
  unfold _Priority_bit_map_Get_highest.
  rewrite find_first_bit_log2 by done. fold J. cbn [mbind option_bind].
  rewrite word_at_lookup by lia. cbn [mbind option_bind].
  rewrite find_first_bit_log2 by done. fold N. cbn [mbind option_bind].
  unfold _Priority_Bits_index. rewrite Z.shiftl_mul_pow2 by lia.
  width_simpl. eexists; split; [reflexivity|]. change (2 ^ 4) with 16.
  assert (Hd : ((15 - J) * 16 + (15 - N)) / 16 = 15 - J)
    by (symmetry; apply (Z.div_unique _ _ _ (15 - N)); lia).
  assert (Hmd : ((15 - J) * 16 + (15 - N)) mod 16 = 15 - N)
    by (symmetry; apply (Z.mod_unique _ _ (15 - J)); lia).
  split.
  - apply Hin; [lia|]. unfold is_set. rewrite Hd, Hmd.
    by replace (15 - (15 - N)) with N by lia.
  - intros q Hq. destruct (Hset q Hq) as [Hqb _]. pose proof (Hrng q Hq) as Hq'.
    destruct (slot_range q Hq') as [? ?]. pose proof (Z.div_mod q 16 ltac:(lia)).
    apply Hin in Hq; [|done]. unfold is_set in Hq.
    assert (15 - q / 16 <= J).
    { apply Z.nlt_ge. intros ?. by rewrite HJmax in Hqb by lia. }
    assert (q / 16 = 15 - J -> 15 - q mod 16 <= N).
    { intros Hq16. rewrite Hq16 in Hq. apply Z.nlt_ge. intros ?.
      by rewrite HNmax in Hq by lia. }
    lia.
Qed.

(** A bit map is empty exactly when it represents no priority. *)
Lemma bit_map_is_empty : _Priority_bit_map_Is_empty m = true <-> P = ∅.
Proof.
  pose proof Hm as [[Hlen HM HW HB] [Hrng Hin]].
  unfold _Priority_bit_map_Is_empty. rewrite Z.eqb_eq. split.
  - intros H0. apply set_eq. intros p. split; [|set_solver]. intros Hp.
    pose proof (Hrng p Hp) as Hp'. destruct (slot_range p Hp') as [? ?].
    apply Hin, bit_nonzero in Hp; [|done]. specialize (HB (p / 16)).
    rewrite H0, Z.testbit_0_l in HB. symmetry in HB. specialize (HB ltac:(done)).
    by bool_hyps.
  - intros ->. destruct (Z.eq_dec (major_bit_map m) 0) as [?|Hne]; [done|].
    destruct (nonzero_bit (major_bit_map m) 16) as (HJ & HJb & _); [lia|lia|].
    set (J := Z.log2 (major_bit_map m)) in *. pose proof (HB (15 - J) ltac:(lia)) as HBJ.
    replace (15 - (15 - J)) with J in HBJ by lia. rewrite HJb in HBJ.
    symmetry in HBJ. bool_hyps. specialize (HW (15 - J) ltac:(lia)).
    destruct (nonzero_bit (word_at m (15 - J)) 16) as (HN & HNb & _); [lia|lia|].
    set (N := Z.log2 (word_at m (15 - J))) in *.
    exfalso. apply (not_elem_of_empty (C := gset Z) ((15 - J) * 16 + (15 - N))).
    apply Hin; [lia|]. unfold is_set.
    replace (((15 - J) * 16 + (15 - N)) / 16) with (15 - J)
      by (apply (Z.div_unique _ _ _ (15 - N)); lia).
    replace (((15 - J) * 16 + (15 - N)) mod 16) with (15 - N)
      by (apply (Z.mod_unique _ _ (15 - J)); lia).
    by replace (15 - (15 - N)) with N by lia.
Qed.
End operations.

Lemma bit_map_initialize_empty m : repr (_Priority_bit_map_Initialize m) ∅.
Proof.
  assert (H0 : forall i, word_at (_Priority_bit_map_Initialize m) i = 0).
  { intros i. unfold word_at. cbn [bit_map _Priority_bit_map_Initialize].
    destruct (replicate 16 0 !! Z.to_nat i) eqn:E; [|done].
    by apply lookup_replicate in E as [-> _]. }
  split; [split; [done|cbn; lia|..]|split; [set_solver|]].
  - intros i _. rewrite H0. lia.
  - intros i _. rewrite H0. by rewrite Z.testbit_0_l.
  - intros p _. unfold is_set. rewrite H0, Z.testbit_0_l. set_solver.
Qed.

Lemma leading_zeros_log2 n : 0 < n < 256 ->
  _Bitfield_Leading_zeros !! Z.to_nat n = Some (7 - Z.log2 n).
Proof.
  intros Hn.
  assert (Hall : forallb (fun n => bool_decide
    (_Bitfield_Leading_zeros !! n = Some (7 - Z.log2 (Z.of_nat n))))
    (seq 1 255) = true) by (vm_compute; reflexivity).
  rewrite forallb_forall in Hall. specialize (Hall (Z.to_nat n)).
  rewrite bool_decide_eq_true, Z2Nat.id in Hall by lia.
  apply Hall, in_seq. lia.
Qed.

(** * Sequences of updates *)

Inductive op :=
  | op_add (p : Z)
  | op_remove (p : Z).

Definition op_priority (o : op) : Z := match o with op_add p | op_remove p => p end.

Definition exec (m : Priority_bit_map_Control) (o : op) : option Priority_bit_map_Control :=
  match o with
  | op_add p => _Priority_bit_map_Add m (_Priority_bit_map_Initialize_information p)
  | op_remove p => _Priority_bit_map_Remove m (_Priority_bit_map_Initialize_information p)
  end.

Fixpoint run (m : Priority_bit_map_Control) (ops : list op) : option Priority_bit_map_Control :=
  match ops with
  | [] => Some m
  | o :: ops' => m' ← exec m o; run m' ops'
  end.

(** The set of ready priorities after the same updates. *)
Definition ready (P : gset Z) (ops : list op) : gset Z :=
  foldl (fun P o => match o with
    | op_add p => {[p]} ∪ P
    | op_remove p => P ∖ {[p]}
    end) P ops.

Lemma bit_map_run_refines m P ops : repr m P -> Forall (fun o => 0 <= op_priority o < 256) ops ->
  exists m', run m ops = Some m' /\ repr m' (ready P ops).
Proof.
  intros Hm Hops. revert m P Hm. induction Hops as [|o ops Ho _ IH]; intros m P Hm; [by eexists|].
  cbn [run]. destruct o as [p|p]; cbn [op_priority exec] in *.
  - destruct (bit_map_add_refines m P Hm p Ho) as (m' & -> & Hm'). by apply IH.
  - destruct (bit_map_remove_refines m P Hm p Ho) as (m' & -> & Hm'). by apply IH.
Qed.

(** C15. After any sequence of insertions and removals of priorities below
    256 from an initialized bit map, the bit map tests empty exactly when
    the set of priorities that are still ready is empty, and otherwise the
    two bit scans of [_Priority_bit_map_Get_highest] return the numerically
    smallest, that is the most urgent, ready priority.  No step reads
    outside the array or scans a zero word. *)
Theorem bit_map_trace_highest m0 ops :
  Forall (fun o => 0 <= op_priority o < 256) ops ->
  exists m, run (_Priority_bit_map_Initialize m0) ops = Some m /\
    _Priority_bit_map_Is_empty m = bool_decide (ready ∅ ops = ∅) /\
    (ready ∅ ops <> ∅ -> exists h, _Priority_bit_map_Get_highest m = Some h /\
       h ∈ ready ∅ ops /\ forall q, q ∈ ready ∅ ops -> h <= q).
Proof.
  intros Hops. destruct (bit_map_run_refines _ _ ops (bit_map_initialize_empty m0) Hops)
    as (m & Hr & Hm). exists m. split_and!; [done| |].
  - apply eq_bool_prop_intro. rewrite bool_decide_spec. unfold Is_true.
    pose proof (bit_map_is_empty m _ Hm). destruct (_Priority_bit_map_Is_empty m); naive_solver.
  - intros [p Hp]%set_choose_L. by apply (bit_map_highest_minimal m _ Hm p).
Qed.

Definition sample_ops : list op := [op_add 200; op_add 17; op_add 18; op_remove 17].

Lemma bit_map_trace_highest_witness : exists m,
  run (_Priority_bit_map_Initialize {| major_bit_map := 5; bit_map := [] |}) sample_ops = Some m /\
  (ready ∅ sample_ops <> ∅ /\ _Priority_bit_map_Get_highest m = Some 18).
Proof.
  assert (Hne : ready ∅ sample_ops <> ∅) by (vm_compute; done).
  edestruct (bit_map_trace_highest {| major_bit_map := 5; bit_map := [] |} sample_ops)
    as (m & Hr & _ & Hh); [repeat constructor; cbn; lia|].
  exists m. split; [done|]. split; [done|]. destruct (Hh Hne) as (h & Hg & _).
  vm_compute in Hr. injection Hr as <-. vm_compute. reflexivity.
Defined.

(** C27. The table scan compiled by compilers without [__builtin_clz] finds
    the same first bit as the GCC branch, for every non-zero 16-bit word. *)
Theorem find_first_bit_generic_equiv w : 0 < w < 2 ^ 16 ->
  _Bitfield_Find_first_bit_generic w = _Bitfield_Find_first_bit w.
Proof.
  intros Hw. rewrite find_first_bit_log2 by done.
  destruct (nonzero_bit w 16) as ([? ?] & _); [lia|done|].
  unfold _Bitfield_Find_first_bit_generic. destruct (Z.ltb_spec w 0x100).
  - rewrite leading_zeros_log2 by lia. cbn [mbind option_bind].
    destruct (nonzero_bit w 8) as ([? ?] & _); [lia|lia|].
    width_simpl. f_equal. lia.
  - rewrite Z.shiftr_div_pow2 by lia.
    assert (8 <= Z.log2 w) by (apply (Z.log2_le_mono 256 w); lia).
    rewrite leading_zeros_log2
      by (split; [apply Z.div_str_pos|apply Z.div_lt_upper_bound]; lia).
    rewrite <- Z.shiftr_div_pow2, Z.log2_shiftr by lia. f_equal. lia.
Qed.

Lemma find_first_bit_generic_equiv_witness :
  0 < 0x0123 < 2 ^ 16 /\ _Bitfield_Find_first_bit_generic 0x0123 = Some 7.
Proof.
  split; [lia|]. rewrite (find_first_bit_generic_equiv 0x0123) by lia. vm_compute. reflexivity.
Defined.

End PriorityBitmap.
