(* ===== verification/RBTree.v ===== *)
(** Red-black trees (score/rbtree.h, score/rbtreeextract.c,
    score/rbtreeinsert.c, score/rbtreereplace.c).

    The kernel searches the insertion point of a node itself and leaves the
    rebalancing to the macros of the C library's sys/tree.h, which are not
    part of the repository.  They are the operations of the class
    [RB_Macros], whose laws say what the kernel relies on: rebalancing
    preserves the order of the nodes and removal takes one node out of it.

    Nodes are records in a store indexed by their addresses; a tree is
    described by its shape, and its in-order list is what the users of a
    tree care about. *)

From S2P Require Import Prelude.

Module RBTree.

(** * Nodes and trees *)

(** [RB_ENTRY( RBTree_Node ) Node] *)
Record RBTree_Node := {
  rbe_left : Z;
  rbe_right : Z;
  rbe_parent : Z;
  rbe_color : Z;
}.

(** [RB_HEAD( RBTree_Control, RBTree_Node )] with the nodes it leads to. *)
Record rbtree := {
  rb_nodes : gmap Z RBTree_Node;
  rbh_root : Z;
}.

Definition RB_BLACK : Z := 0.
Definition RB_RED : Z := 1.

(** The place of a pointer to a node: [RBTree_Node **]. *)
Inductive link :=
  | Root_reference
  | Left_reference (the_node : Z)
  | Right_reference (the_node : Z).

(** ** Shapes *)

Inductive tree :=
  | Leaf
  | Node (l : tree) (n : Z) (r : tree).

Fixpoint inorder (t : tree) : list Z :=
  match t with
  | Leaf => []
  | Node l n r => inorder l ++ n :: inorder r
  end.

(** The pointer [p] leads to a tree of the given shape, whose root has the
    given parent. *)
Fixpoint tree_at (ns : gmap Z RBTree_Node) (p parent : Z) (t : tree) : Prop :=
  match t with
  | Leaf => p = NULL
  | Node l n r => p = n /\ n <> NULL /\ exists nd, ns !! n = Some nd /\
      rbe_parent nd = parent /\ (rbe_color nd = RB_BLACK \/ rbe_color nd = RB_RED) /\
      tree_at ns (rbe_left nd) n l /\ tree_at ns (rbe_right nd) n r
  end.

Definition tree_rep (s : rbtree) (t : tree) : Prop :=
  tree_at (rb_nodes s) (rbh_root s) NULL t /\ NoDup (inorder t).

(** ** Positions in a tree *)

Inductive frame :=
  | InLeft (n : Z) (r : tree)
  | InRight (l : tree) (n : Z).

(** The tree with [t] at the end of the path [c], innermost frame first. *)
Fixpoint plug (c : list frame) (t : tree) : tree :=
  match c with
  | [] => t
  | InLeft n r :: c' => plug c' (Node t n r)
  | InRight l n :: c' => plug c' (Node l n t)
  end.

Definition link_of (c : list frame) : link :=
  match c with
  | [] => Root_reference
  | InLeft n _ :: _ => Left_reference n
  | InRight _ n :: _ => Right_reference n
  end.

Definition parent_of (c : list frame) : Z :=
  match c with
  | [] => NULL
  | InLeft n _ :: _ | InRight _ n :: _ => n
  end.

(** The state after [_RBTree_Add_child]: the new leaf [n] with parent [p] is
    the target of the link. *)
Definition set_left (v : Z) (nd : RBTree_Node) : RBTree_Node :=
  {| rbe_left := v; rbe_right := rbe_right nd; rbe_parent := rbe_parent nd; rbe_color := rbe_color nd |}.
Definition set_right (v : Z) (nd : RBTree_Node) : RBTree_Node :=
  {| rbe_left := rbe_left nd; rbe_right := v; rbe_parent := rbe_parent nd; rbe_color := rbe_color nd |}.
Definition set_parent (v : Z) (nd : RBTree_Node) : RBTree_Node :=
  {| rbe_left := rbe_left nd; rbe_right := rbe_right nd; rbe_parent := v; rbe_color := rbe_color nd |}.
Definition set_color (v : Z) (nd : RBTree_Node) : RBTree_Node :=
  {| rbe_left := rbe_left nd; rbe_right := rbe_right nd; rbe_parent := rbe_parent nd; rbe_color := v |}.

Definition assign_link (l : link) (v : Z) (s : rbtree) : rbtree :=
  match l with
  | Root_reference => {| rb_nodes := rb_nodes s; rbh_root := v |}
  | Left_reference n => {| rb_nodes := alter (set_left v) n (rb_nodes s); rbh_root := rbh_root s |}
  | Right_reference n => {| rb_nodes := alter (set_right v) n (rb_nodes s); rbh_root := rbh_root s |}
  end.

(** The node [n] is a red leaf below [parent]. *)
Definition red_leaf (n parent : Z) (s : rbtree) : rbtree :=
  {| rb_nodes := <[n := {| rbe_left := NULL; rbe_right := NULL; rbe_parent := parent; rbe_color := RB_RED |}]> (rb_nodes s);
     rbh_root := rbh_root s |}.

(** The nodes outside of [l] are the same. *)
Definition same_outside (l : list Z) (s s' : rbtree) : Prop :=
  (forall k, k ∉ l -> rb_nodes s' !! k = rb_nodes s !! k) /\
  (forall k, is_Some (rb_nodes s !! k) -> is_Some (rb_nodes s' !! k)).

(** * The macros of sys/tree.h *)

(** [RB_SET] makes a node a red leaf, [RB_INSERT_COLOR] rebalances the tree
    after a leaf was attached, [RB_REMOVE] removes a node and rebalances.
    The last two rely on and preserve the colouring of the tree, about which
    nothing else is known.  [RB_MIN] and [RB_MAX] return the ends of the
    tree, [RB_NEXT] and [RB_PREV] the neighbours of a node in it. *)
Class RB_Macros := {
  RB_MIN : rbtree -> Z;
  RB_MAX : rbtree -> Z;
  RB_NEXT : Z -> rbtree -> Z;
  RB_PREV : Z -> rbtree -> Z;
  RB_SET : Z -> Z -> rbtree -> rbtree;
  RB_INSERT_COLOR : Z -> rbtree -> rbtree;
  RB_REMOVE : Z -> rbtree -> rbtree;
  balanced : rbtree -> Prop;
  RB_SET_law n parent s : RB_SET n parent s = red_leaf n parent s;
  balanced_empty ns : balanced {| rb_nodes := ns; rbh_root := NULL |};
  balanced_one ns n : n <> NULL -> balanced
    {| rb_nodes := <[n := {| rbe_left := NULL; rbe_right := NULL; rbe_parent := NULL; rbe_color := RB_BLACK |}]> ns;
       rbh_root := n |};
  balanced_frame s s' t : balanced s -> tree_rep s t -> rbh_root s' = rbh_root s ->
    (forall k, k ∈ inorder t -> rb_nodes s' !! k = rb_nodes s !! k) -> balanced s';
  RB_INSERT_COLOR_law s c n : balanced s -> tree_rep s (plug c Leaf) ->
    n <> NULL -> n ∉ inorder (plug c Leaf) ->
    let s1 := assign_link (link_of c) n (RB_SET n (parent_of c) s) in
    let s2 := RB_INSERT_COLOR n s1 in
    balanced s2 /\ same_outside (inorder (plug c (Node Leaf n Leaf))) s1 s2 /\
    exists t, tree_rep s2 t /\ inorder t = inorder (plug c (Node Leaf n Leaf));
  RB_REMOVE_law s t n : balanced s -> tree_rep s t -> n ∈ inorder t ->
    let s2 := RB_REMOVE n s in
    balanced s2 /\ same_outside (inorder t) s s2 /\
    exists t', tree_rep s2 t' /\ inorder t' = filter (fun k => k <> n) (inorder t);
  RB_MIN_law s t : tree_rep s t -> RB_MIN s = default NULL (head (inorder t));
  RB_MAX_law s t : tree_rep s t -> RB_MAX s = default NULL (last (inorder t));
  RB_NEXT_law s t l n l' : tree_rep s t -> inorder t = l ++ n :: l' -> RB_NEXT n s = default NULL (head l');
  RB_PREV_law s t l n l' : tree_rep s t -> inorder t = l ++ n :: l' -> RB_PREV n s = default NULL (last l);
}.

(** * rbtree.h *)

(** A state that contains a tree. *)
Class HasTree (S : Type) := {
  get_tree : S -> rbtree;
  set_tree : rbtree -> S -> S;
  get_set_tree t s : get_tree (set_tree t s) = t;
  set_set_tree t t' s : set_tree t (set_tree t' s) = set_tree t s;
}.

#[export, program] Instance rbtree_HasTree : HasTree rbtree :=
  {| get_tree s := s; set_tree t _ := t |}.
Solve All Obligations with done.

Section operations.
Context {S : Type} {HT : HasTree S} {RB : RB_Macros}.

Definition node (n : Z) : M S RBTree_Node := fun s =>
  match rb_nodes (get_tree s) !! n with
  | Some nd => Some (nd, s)
  | None => None
  end.

Definition _RBTree_Root : M S Z := gets (fun s => rbh_root (get_tree s)).
Definition _RBTree_Left (the_node : Z) : M S Z := nd ← node the_node; mret (rbe_left nd).
Definition _RBTree_Right (the_node : Z) : M S Z := nd ← node the_node; mret (rbe_right nd).
Definition _RBTree_Parent (the_node : Z) : M S Z := nd ← node the_node; mret (rbe_parent nd).
Definition RB_COLOR (the_node : Z) : M S Z := nd ← node the_node; mret (rbe_color nd).

Definition modify_tree (f : rbtree -> rbtree) : M S unit :=
  modify (fun s => set_tree (f (get_tree s)) s).

Definition update_node (n : Z) (f : RBTree_Node -> RBTree_Node) : M S unit :=
  node n;;
  modify_tree (fun t => {| rb_nodes := alter f n (rb_nodes t); rbh_root := rbh_root t |}).

Definition _RBTree_Set_off_tree (the_node : Z) : M S unit := update_node the_node (set_color (-1)).
Definition _RBTree_Is_node_off_tree (the_node : Z) : M S bool :=
  color ← RB_COLOR the_node; mret (color =? -1).

(** Does nothing without [RTEMS_DEBUG]. *)
Definition _RBTree_Initialize_node (the_node : Z) : M S unit := mret tt.

(** [*link] *)
Definition deref (l : link) : M S Z :=
  match l with
  | Root_reference => _RBTree_Root
  | Left_reference n => _RBTree_Left n
  | Right_reference n => _RBTree_Right n
  end.

Definition _RBTree_Insert_color (the_node : Z) : M S unit := modify_tree (RB_INSERT_COLOR the_node).

Definition _RBTree_Add_child (child parent : Z) (l : link) : M S unit :=
  node child;;
  modify_tree (RB_SET child parent);;
  deref l;;
  modify_tree (assign_link l child).

Definition _RBTree_Insert_with_parent (the_node parent : Z) (l : link) : M S unit :=
  _RBTree_Add_child the_node parent l;;
  _RBTree_Insert_color the_node.

Definition _RBTree_Extract (the_node : Z) : M S unit :=
  modify_tree (RB_REMOVE the_node);;
  _RBTree_Initialize_node the_node.

Definition _RBTree_Is_empty : M S bool := root ← _RBTree_Root; mret (root =? NULL).
Definition _RBTree_Is_root (the_node : Z) : M S bool :=
  parent ← _RBTree_Parent the_node; mret (parent =? NULL).

Definition _RBTree_Initialize_empty : M S unit :=
  modify_tree (fun t => {| rb_nodes := rb_nodes t; rbh_root := NULL |}).

Definition _RBTree_Initialize_one (the_node : Z) : M S unit :=
  node the_node;;
  modify_tree (fun t =>
    {| rb_nodes := <[the_node := {| rbe_left := NULL; rbe_right := NULL; rbe_parent := NULL; rbe_color := RB_BLACK |}]> (rb_nodes t);
       rbh_root := the_node |}).

Definition _RBTree_Minimum : M S Z := gets (fun s => RB_MIN (get_tree s)).
Definition _RBTree_Maximum : M S Z := gets (fun s => RB_MAX (get_tree s)).
Definition _RBTree_Successor (the_node : Z) : M S Z := gets (fun s => RB_NEXT the_node (get_tree s)).
Definition _RBTree_Predecessor (the_node : Z) : M S Z := gets (fun s => RB_PREV the_node (get_tree s)).

(** The visitor returns whether to stop. *)
Definition _RBTree_Iterate (visitor : Z -> M S bool) : M S unit :=
  current ← _RBTree_Minimum;
  whileM (fun '((stop, current) : bool * Z) =>
    if negb stop && negb (current =? NULL) then
      stop ← visitor current;
      current ← _RBTree_Successor current;
      mret (inl (stop, current))
    else mret (inr tt)) (false, current).

(** One step of the search for the place of a new node; [on_right] updates
    what the loop remembers about the path. *)
Definition descend {A} (less : Z -> M S bool) (on_right : A -> A)
    : link * Z * A -> M S (link * Z * A + link * Z * A) :=
  fun '(l, parent, a) =>
    p ← deref l;
    if negb (p =? NULL) then
      let parent := p in
      b ← less parent;
      if (b : bool) then mret (inl (Left_reference parent, parent, a))
      else mret (inl (Right_reference parent, parent, on_right a))
    else mret (inr (l, parent, a)).

(** Returns whether the node is the new minimum. *)
Definition _RBTree_Insert_inline (the_node : Z) (less : Z -> M S bool) : M S bool :=
  '(l, parent, is_new_minimum) ← whileM (descend less (fun _ => false)) (Root_reference, NULL, true);
  _RBTree_Add_child the_node parent l;;
  _RBTree_Insert_color the_node;;
  mret is_new_minimum.

Definition _RBTree_Find_inline {A} (equal less : Z -> M S bool) (map : Z -> A) : M S (option A) :=
  whileM (fun l =>
    parent ← deref l;
    if negb (parent =? NULL) then
      e ← equal parent;
      if (e : bool) then mret (inr (Some (map parent)))
      else
        b ← less parent;
        if (b : bool) then mret (inl (Left_reference parent))
        else mret (inl (Right_reference parent))
    else mret (inr None)) Root_reference.

Definition replace_child (child replacement : Z) : M S unit :=
  whenM (negb (child =? NULL)) (update_node child (set_parent replacement)).

Definition _RBTree_Replace_node (victim replacement : Z) : M S unit :=
  parent ← _RBTree_Parent victim;
  l ← (if negb (parent =? NULL) then
         left ← _RBTree_Left parent;
         if victim =? left then mret (Left_reference parent) else mret (Right_reference parent)
       else mret Root_reference);
  modify_tree (assign_link l replacement);;
  child ← _RBTree_Left victim;
  replace_child child replacement;;
  child ← _RBTree_Right victim;
  replace_child child replacement;;
  v ← node victim;
  update_node replacement (fun _ => v).

End operations.

(** * Shapes and stores *)

Lemma tree_at_frame ns ns' p parent t : (forall k, k ∈ inorder t -> ns' !! k = ns !! k) ->
  tree_at ns p parent t -> tree_at ns' p parent t.
Proof.
  revert p parent. induction t as [|l IHl n r IHr]; intros p parent Hf; [done|]. cbn in *.
  intros (-> & Hn & nd & Hnd & Hp & Hc & Hl & Hr). split_and!; [done|done|]. exists nd.
  split_and!; [by rewrite Hf by set_solver|done|done|apply IHl|apply IHr]; set_solver.
Qed.

Lemma tree_at_dom ns p parent t k : tree_at ns p parent t -> k ∈ inorder t -> k <> NULL /\ is_Some (ns !! k).
Proof.
  revert p parent. induction t as [|l IHl n r IHr]; intros p parent; cbn; [set_solver|].
  intros (-> & Hn & nd & Hnd & _ & _ & Hl & Hr) [Hk|[->|Hk]%elem_of_cons]%elem_of_app; eauto.
Qed.

Lemma tree_at_color ns p parent t k : tree_at ns p parent t -> k ∈ inorder t ->
  exists nd, ns !! k = Some nd /\ (rbe_color nd = RB_BLACK \/ rbe_color nd = RB_RED).
Proof.
  revert p parent. induction t as [|l IHl n r IHr]; intros p parent; cbn; [set_solver|].
  intros (-> & Hn & nd & Hnd & _ & Hc & Hl & Hr) [Hk|[->|Hk]%elem_of_cons]%elem_of_app; eauto.
Qed.

Lemma tree_rep_nonnull s t n : tree_rep s t -> n ∈ inorder t -> n <> NULL.
Proof. intros [Ht _] Hn. by eapply tree_at_dom. Qed.

(** The nodes in front of and behind a position. *)
Fixpoint before (c : list frame) : list Z :=
  match c with
  | [] => []
  | InLeft _ _ :: c' => before c'
  | InRight l n :: c' => before c' ++ inorder l ++ [n]
  end.

Fixpoint after (c : list frame) : list Z :=
  match c with
  | [] => []
  | InLeft n r :: c' => n :: inorder r ++ after c'
  | InRight _ _ :: c' => after c'
  end.

Lemma inorder_plug c t : inorder (plug c t) = before c ++ inorder t ++ after c.
Proof.
  revert t. induction c as [|[n r|l n] c IH]; intros t; cbn; [by rewrite app_nil_r|..]; rewrite IH; cbn.
  - by rewrite <- app_assoc.
  - by rewrite <- !app_assoc.
Qed.

(** The path [c] leads to the pointer [p]. *)
Fixpoint path_at (ns : gmap Z RBTree_Node) (root : Z) (c : list frame) (p : Z) : Prop :=
  match c with
  | [] => root = p
  | InLeft n r :: c' => n <> NULL /\ exists nd, ns !! n = Some nd /\ rbe_left nd = p /\
      rbe_parent nd = parent_of c' /\ (rbe_color nd = RB_BLACK \/ rbe_color nd = RB_RED) /\
      tree_at ns (rbe_right nd) n r /\ path_at ns root c' n
  | InRight l n :: c' => n <> NULL /\ exists nd, ns !! n = Some nd /\ rbe_right nd = p /\
      rbe_parent nd = parent_of c' /\ (rbe_color nd = RB_BLACK \/ rbe_color nd = RB_RED) /\
      tree_at ns (rbe_left nd) n l /\ path_at ns root c' n
  end.

Lemma tree_at_plug ns root c t : tree_at ns root NULL (plug c t) <->
  exists p, path_at ns root c p /\ tree_at ns p (parent_of c) t.
Proof.
  revert t. induction c as [|[n r|l n] c IH]; intros t; cbn.
  - split; [intros Ht; by exists root|by intros (p & <- & Ht)].
  - rewrite IH. cbn. split.
    + intros (p & Hc & -> & Hn & nd & ? & ? & ? & ? & ?). exists (rbe_left nd). split; [|done]. split; [done|]. by exists nd.
    + intros (p & (Hn & nd & ? & <- & ? & ? & ? & ?) & ?). exists n. split; [done|]. split_and!; [done|done|]. by exists nd.
  - rewrite IH. cbn. split.
    + intros (p & Hc & -> & Hn & nd & ? & ? & ? & ? & ?). exists (rbe_right nd). split; [|done]. split; [done|]. by exists nd.
    + intros (p & (Hn & nd & ? & <- & ? & ? & ? & ?) & ?). exists n. split; [done|]. split_and!; [done|done|]. by exists nd.
Qed.

Lemma path_at_frame ns ns' root c p : (forall k, k ∈ before c ++ after c -> ns' !! k = ns !! k) ->
  path_at ns root c p -> path_at ns' root c p.
Proof.
  revert p. induction c as [|[n r|l n] c IH]; intros p Hf; [done|..]; cbn in *;
    intros (Hn & nd & ? & ? & ? & ? & ? & ?); (split; [done|]); exists nd;
    (split_and!; [by rewrite Hf by set_solver|done|done|done|eapply tree_at_frame; [|done]|apply IH; [|done]];
     intros k Hk; apply Hf; set_solver).
Qed.

Lemma path_at_nonnull ns root c p : path_at ns root c p -> c <> [] -> parent_of c <> NULL.
Proof. destruct c as [|[]]; cbn; naive_solver. Qed.

(** What the pointer at the end of a path is. *)
Definition target (s : rbtree) (l : link) : option Z :=
  match l with
  | Root_reference => Some (rbh_root s)
  | Left_reference n => rbe_left <$> rb_nodes s !! n
  | Right_reference n => rbe_right <$> rb_nodes s !! n
  end.

Lemma path_target s c p : path_at (rb_nodes s) (rbh_root s) c p -> target s (link_of c) = Some p.
Proof. destruct c as [|[n r|l n] c]; cbn; [by intros ->|..]; intros (_ & nd & -> & <- & _); done. Qed.

(** Attaching a new leaf at the end of a path. *)
Lemma add_leaf_rep s c n : tree_rep s (plug c Leaf) -> n <> NULL -> n ∉ inorder (plug c Leaf) ->
  tree_rep (assign_link (link_of c) n (red_leaf n (parent_of c) s)) (plug c (Node Leaf n Leaf)).
Proof.
  intros [Ht Hnd] Hn Hni. rewrite inorder_plug in Hni, Hnd. cbn in Hni, Hnd. split.
  2: { rewrite inorder_plug. cbn. rewrite <- Permutation_middle. by apply NoDup_cons. }
  unfold red_leaf. apply tree_at_plug in Ht as (p & Hc & _). apply tree_at_plug. exists n.
  set (ns := <[n := _]> (rb_nodes s)).
  assert (Hc' : path_at ns (rbh_root s) c p).
  { eapply path_at_frame; [|exact Hc]. intros k Hk. unfold ns. apply lookup_insert_ne. by intros ->. }
  assert (Hleaf : forall ns', ns' !! n = ns !! n -> tree_at ns' n (parent_of c) (Node Leaf n Leaf)).
  { intros ns' E. cbn. split_and!; [done|done|]. eexists. split; [rewrite E; apply lookup_insert_eq|].
    cbn. split_and!; try done. by right. }
  destruct c as [|[m r|l m] c]; cbn [link_of assign_link rb_nodes rbh_root parent_of] in *.
  - split; [done|]. by apply Hleaf.
  - destruct Hc' as (Hm & nd & Hnd' & Hp & ? & ? & ? & ?). cbn [before after] in *.
    assert (m ∉ inorder r ++ before c ++ after c).
    { revert Hnd. clear. rewrite <- Permutation_middle. intros [Hm _]%NoDup_cons. set_solver. }
    assert (n <> m) by set_solver.
    split; [|apply Hleaf; by rewrite lookup_alter_ne]. split; [done|]. exists (set_left n nd).
    split_and!; [by rewrite lookup_alter_eq, Hnd'|done|done|done|..].
    + eapply tree_at_frame; [|done]. intros k Hk. apply lookup_alter_ne. intros <-. set_solver.
    + eapply path_at_frame; [|done]. intros k Hk. apply lookup_alter_ne. intros <-. set_solver.
  - destruct Hc' as (Hm & nd & Hnd' & Hp & ? & ? & ? & ?). cbn [before after] in *.
    assert (m ∉ inorder l ++ before c ++ after c).
    { revert Hnd. clear. rewrite <- !app_assoc. cbn. rewrite app_assoc, <- Permutation_middle. intros [Hm _]%NoDup_cons. set_solver. }
    assert (n <> m) by set_solver.
    split; [|apply Hleaf; by rewrite lookup_alter_ne]. split; [done|]. exists (set_right n nd).
    split_and!; [by rewrite lookup_alter_eq, Hnd'|done|done|done|..].
    + eapply tree_at_frame; [|done]. intros k Hk. apply lookup_alter_ne. intros <-. set_solver.
    + eapply path_at_frame; [|done]. intros k Hk. apply lookup_alter_ne. intros <-. set_solver.
Qed.

(** ** Sorted trees *)

(** The search went left exactly at the nodes that are greater. *)
Fixpoint followed (lt : Z -> bool) (c : list frame) : Prop :=
  match c with
  | [] => True
  | InLeft n _ :: c' => lt n = true /\ followed lt c'
  | InRight _ n :: c' => lt n = false /\ followed lt c'
  end.

(** The nodes greater than the key come last. *)
Definition partitioned (lt : Z -> bool) (l : list Z) : Prop :=
  StronglySorted (fun a b => lt a = true -> lt b = true) l.

Lemma StronglySorted_split {A} (R : A -> A -> Prop) l1 x l2 : StronglySorted R (l1 ++ x :: l2) ->
  (forall y, y ∈ l1 -> R y x) /\ (forall y, y ∈ l2 -> R x y).
Proof.
  induction l1 as [|z l1 IH]; cbn; intros [Hs Hf]%StronglySorted_inv.
  - rewrite Forall_forall in Hf. split; [set_solver|done].
  - apply IH in Hs as [H1 H2]. rewrite Forall_forall in Hf. split; [|done].
    intros y [->|Hy]%elem_of_cons; [apply Hf; set_solver|by apply H1].
Qed.

Lemma followed_sides lt c t : followed lt c -> partitioned lt (inorder (plug c t)) ->
  Forall (fun n => lt n = false) (before c) /\ Forall (fun n => lt n = true) (after c).
Proof.
  revert t. induction c as [|[n r|l n] c IH]; intros t; cbn; [by repeat constructor|..]; intros [Hn Hf] Hp;
    destruct (IH _ Hf Hp) as [H1 H2]; rewrite inorder_plug in Hp; cbn in Hp; (split; [|done || idtac]); try done.
  - apply Forall_cons. split; [done|]. apply Forall_app. split; [|done]. apply Forall_forall. intros x Hx.
    rewrite <- app_assoc in Hp. rewrite app_assoc in Hp. cbn in Hp.
    apply StronglySorted_split in Hp as [_ Hp]. apply Hp; [set_solver|done].
  - apply Forall_app. split; [done|]. apply Forall_app. split; [|by constructor]. apply Forall_forall. intros x Hx.
    rewrite <- app_assoc in Hp. cbn in Hp. rewrite app_assoc in Hp.
    apply StronglySorted_split in Hp as [Hp _]. specialize (Hp x ltac:(set_solver)). destruct (lt x); [|done].
    rewrite Hn in Hp. by specialize (Hp eq_refl).
Qed.

(** Insertion behind the nodes that are not greater. *)
Fixpoint insert_by (lt : Z -> bool) (n : Z) (l : list Z) : list Z :=
  match l with
  | [] => [n]
  | x :: l' => if lt x then n :: l else x :: insert_by lt n l'
  end.

Lemma insert_by_split lt n l1 l2 : Forall (fun n => lt n = false) l1 -> Forall (fun n => lt n = true) l2 ->
  insert_by lt n (l1 ++ l2) = l1 ++ n :: l2.
Proof.
  intros H1 H2. induction H1 as [|x l1 Hx _ IH]; cbn; [|by rewrite Hx, IH].
  destruct H2 as [|x l2 Hx _]; [done|]. cbn. by rewrite Hx.
Qed.

Lemma followed_insert lt c n : followed lt c -> partitioned lt (inorder (plug c Leaf)) ->
  inorder (plug c (Node Leaf n Leaf)) = insert_by lt n (inorder (plug c Leaf)).
Proof.
  intros Hf Hp. destruct (followed_sides lt c Leaf Hf Hp) as [H1 H2]. rewrite !inorder_plug. cbn.
  by rewrite insert_by_split.
Qed.

(** Distinct addresses are fewer than [2^64]. *)
Lemma addresses_bound l : NoDup l -> Forall (fun n => 0 < n < 2 ^ 64) l -> Z.of_nat (length l) < 2 ^ 64.
Proof.
  intros Hnd Hl. assert (Hs : l ⊆+ seqZ 1 (2 ^ 64 - 1)).
  { apply NoDup_submseteq; [done|]. intros x Hx. rewrite Forall_forall in Hl. specialize (Hl x Hx).
    apply elem_of_seqZ. lia. }
  apply submseteq_length in Hs. rewrite length_seqZ in Hs. lia.
Qed.

(** * The operations *)

Section specs.
Context {S : Type} {HT : HasTree S} {RB : RB_Macros}.

Lemma wp_node n nd Q s : rb_nodes (get_tree s) !! n = Some nd -> Q nd s -> wp (node n) Q s.
Proof. unfold wp, node. by intros ->. Qed.

Lemma wp_left n nd Q s : rb_nodes (get_tree s) !! n = Some nd -> Q (rbe_left nd) s -> wp (_RBTree_Left n) Q s.
Proof. intros. apply wp_bind. by eapply wp_node. Qed.

Lemma wp_right n nd Q s : rb_nodes (get_tree s) !! n = Some nd -> Q (rbe_right nd) s -> wp (_RBTree_Right n) Q s.
Proof. intros. apply wp_bind. by eapply wp_node. Qed.

Lemma wp_parent n nd Q s : rb_nodes (get_tree s) !! n = Some nd -> Q (rbe_parent nd) s -> wp (_RBTree_Parent n) Q s.
Proof. intros. apply wp_bind. by eapply wp_node. Qed.

Lemma wp_color n nd Q s : rb_nodes (get_tree s) !! n = Some nd -> Q (rbe_color nd) s -> wp (RB_COLOR n) Q s.
Proof. intros. apply wp_bind. by eapply wp_node. Qed.

Lemma wp_deref l p Q s : target (get_tree s) l = Some p -> Q p s -> wp (deref l) Q s.
Proof.
  destruct l as [|n|n]; cbn; [by intros [= <-]|..]; destruct (rb_nodes (get_tree s) !! n) as [nd|] eqn:E; try done;
    intros [= <-]; [by eapply wp_left|by eapply wp_right].
Qed.

(** What a search remembers at the end of a path. *)
Fixpoint recall {A} (on_right : A -> A) (a : A) (c : list frame) : A :=
  match c with
  | [] => a
  | InLeft _ _ :: c' => recall on_right a c'
  | InRight _ _ :: c' => on_right (recall on_right a c')
  end.

(** The search ends at a free place that follows the order. *)
Lemma descend_spec {A} (less : Z -> M S bool) (on_right : A -> A) lt (a : A) t Q s :
  tree_rep (get_tree s) t -> Z.of_nat (length (inorder t)) < 2 ^ 64 ->
  (forall n, n ∈ inorder t -> less n s = Some (lt n, s)) ->
  (forall c, t = plug c Leaf -> followed lt c -> Q (link_of c, parent_of c, recall on_right a c) s) ->
  wp (whileM (descend less on_right) (Root_reference, NULL, a)) Q s.
Proof.
  intros [Ht Hnd] Hlen Hless HQ.
  apply (wp_whileM _ (fun k '((l, p, a') : link * Z * A) s' => s' = s /\ exists c sub, t = plug c sub /\ followed lt c /\
    l = link_of c /\ p = parent_of c /\ a' = recall on_right a c /\ k = Z.of_nat (length (inorder sub))))
    with (k := Z.of_nat (length (inorder t))); [|by split; [|exists [], t]|lia].
  intros k [[l p] a'] s' (-> & c & sub & -> & Hf & -> & -> & -> & ->). unfold descend.
  apply tree_at_plug in Ht as (p & Hc & Hsub). apply wp_bind. eapply wp_deref; [by apply path_target|].
  destruct sub as [|l n r].
  - cbn in Hsub. subst p. cbn [Z.eqb NULL negb]. by apply wp_ret, HQ.
  - destruct Hsub as (-> & Hn & _). destruct (Z.eqb_spec n NULL); [done|]. cbn [negb]. cbv zeta. apply wp_bind.
    unfold wp at 1. rewrite Hless by (rewrite inorder_plug; cbn; set_solver). destruct (lt n) eqn:E; apply wp_ret.
    + exists (Z.of_nat (length (inorder l))). split; [cbn; rewrite length_app; cbn; lia|]. split; [done|].
      by exists (InLeft n r :: c), l.
    + exists (Z.of_nat (length (inorder r))). split; [cbn; rewrite length_app; cbn; lia|]. split; [done|].
      by exists (InRight l n :: c), r.
Qed.

Lemma recall_flag c : recall (fun _ => false) true c = bool_decide (before c = []).
Proof.
  induction c as [|[n r|l n] c IH]; cbn; [done|done|]. symmetry. apply bool_decide_eq_false. by destruct (before c), (inorder l).
Qed.

Lemma recall_first (n f : Z) c : recall (fun _ => f) n c = if bool_decide (before c = []) then n else f.
Proof.
  induction c as [|[m r|l m] c IH]; cbn; [done|done|].
  rewrite bool_decide_false; [done|]. by destruct (before c), (inorder l).
Qed.
Lemma same_outside_refl l s : same_outside l s s.
Proof. by split. Qed.

Lemma same_outside_trans l s1 s2 s3 : same_outside l s1 s2 -> same_outside l s2 s3 -> same_outside l s1 s3.
Proof. intros [H1 H2] [H3 H4]. split; [intros k Hk; by rewrite H3, H1|auto]. Qed.

Lemma add_leaf_outside s c n : n ∉ inorder (plug c Leaf) -> path_at (rb_nodes s) (rbh_root s) c NULL ->
  same_outside (inorder (plug c (Node Leaf n Leaf))) s (assign_link (link_of c) n (RB_SET n (parent_of c) s)).
Proof.
  intros Hn Hc. rewrite RB_SET_law. rewrite inorder_plug in *. cbn in *. split.
  - intros k Hk. assert (k <> n) by set_solver. destruct c as [|[m r|l m] c]; cbn in *;
      rewrite ?lookup_alter_ne, lookup_insert_ne; done || set_solver.
  - intros k Hk. destruct c as [|[m r|l m] c]; cbn; rewrite ?lookup_alter_is_Some; apply lookup_insert_is_Some';
      by right.
Qed.

Lemma insert_with_parent_spec c n Q s : let t := get_tree s in
  balanced t -> tree_rep t (plug c Leaf) -> n <> NULL -> n ∉ inorder (plug c Leaf) -> is_Some (rb_nodes t !! n) ->
  (forall t' tr, balanced t' -> tree_rep t' tr -> inorder tr = inorder (plug c (Node Leaf n Leaf)) ->
    same_outside (inorder tr) t t' -> Q tt (set_tree t' s)) ->
  wp (_RBTree_Insert_with_parent n (parent_of c) (link_of c)) Q s.
Proof.
  intros t Hb Ht Hn Hni [nd Hnd] HQ. pose proof Ht as [Hta _]. apply tree_at_plug in Hta as (p & Hc & Hp). cbn in Hp. subst p.
  destruct (RB_INSERT_COLOR_law t c n Hb Ht Hn Hni) as (Hb' & Hs & tr & Htr & Hin).
  apply wp_bind, wp_bind. eapply wp_node; [exact Hnd|]. apply wp_bind, wp_modify, wp_bind.
  eapply (wp_deref _ NULL).
  { rewrite get_set_tree, RB_SET_law. destruct c as [|[m r|l m] c]; cbn; [by apply (f_equal Some)|..];
      rewrite inorder_plug in Hni; cbn in Hni; rewrite lookup_insert_ne by set_solver;
      destruct Hc as (_ & md & Hmd & <- & _); unfold t in Hmd; by rewrite Hmd. }
  apply wp_modify, wp_modify. rewrite !get_set_tree, !set_set_tree. apply (HQ _ tr); [done|done|done|].
  rewrite Hin. eapply same_outside_trans; [by apply add_leaf_outside|exact Hs].
Qed.

Lemma rbtree_extract_spec n tr Q s : let t := get_tree s in
  balanced t -> tree_rep t tr -> n ∈ inorder tr ->
  (forall t' tr', balanced t' -> tree_rep t' tr' -> inorder tr' = filter (fun k => k <> n) (inorder tr) ->
    same_outside (inorder tr) t t' -> Q tt (set_tree t' s)) ->
  wp (_RBTree_Extract n) Q s.
Proof.
  intros t Hb Ht Hn HQ. destruct (RB_REMOVE_law t tr n Hb Ht Hn) as (Hb' & Hs & tr' & Htr & Hin).
  apply wp_bind, wp_modify, wp_ret. by apply (HQ _ tr').
Qed.

Lemma minimum_spec t (Q : Z -> S -> Prop) s : tree_rep (get_tree s) t -> Q (default NULL (head (inorder t))) s ->
  wp _RBTree_Minimum Q s.
Proof. intros Ht HQ. apply wp_gets. by rewrite (RB_MIN_law _ t Ht). Qed.

(** Iteration visits the nodes in order until the visitor stops it. *)
Lemma rbtree_iterate_spec visitor (J : list Z -> S -> Prop) (Q : S -> Prop) t s :
  tree_rep (get_tree s) t -> Z.of_nat (length (inorder t)) < 2 ^ 64 - 1 -> J [] s ->
  (forall l n l' s', inorder t = l ++ n :: l' -> get_tree s' = get_tree s -> J l s' ->
    wp (visitor n) (fun (stop : bool) s'' => get_tree s'' = get_tree s /\ if stop then Q s'' else J (l ++ [n]) s'') s') ->
  (forall s', J (inorder t) s' -> Q s') ->
  wp (_RBTree_Iterate visitor) (fun _ => Q) s.
Proof.
  intros Ht Hlen H0 Hv HQ. apply wp_bind. eapply minimum_spec; [exact Ht|].
  apply (wp_whileM _ (fun k '((stop, c) : bool * Z) s' => get_tree s' = get_tree s /\ exists l l', inorder t = l ++ l' /\
    k = 1 + Z.of_nat (length l') /\ c = default NULL (head l') /\ if stop then Q s' else J l s'))
    with (k := 1 + Z.of_nat (length (inorder t))); [|by split; [|exists [], (inorder t)]|lia].
  intros k [stop c] s' (E & l & l' & Hi & -> & -> & HJ). destruct stop; cbn [negb andb]; [by apply wp_ret|].
  destruct l' as [|n l']; cbn [head default length].
  { cbn [from_option NULL Z.eqb negb]. apply wp_ret, HQ. rewrite app_nil_r in Hi. by rewrite Hi. }
  cbn [from_option id]. assert (Hn : n <> NULL) by (eapply tree_rep_nonnull; [exact Ht|rewrite Hi; set_solver]).
  destruct (Z.eqb_spec n NULL); [done|]. cbn [negb]. apply wp_bind. eapply wp_mono; [by apply (Hv l n l')|].
  intros stop s'' [E' H]. apply wp_bind, wp_gets, wp_ret. rewrite E', (RB_NEXT_law _ t l n l' Ht Hi).
  exists (1 + Z.of_nat (length l')). split; [lia|]. split; [done|]. exists (l ++ [n]), l'.
  rewrite <- app_assoc. by destruct stop.
Qed.

End specs.

(** ** Insertion and search with an order *)

(** The key of each node is what the order compares. *)
Definition sorted_by (key : Z -> Z) (l : list Z) : Prop := StronglySorted (fun a b => key a <= key b) l.

Lemma sorted_partitioned key k l : sorted_by key l -> partitioned (fun n => k <? key n) l.
Proof.
  intros Hs. induction Hs as [|x l Hs IH Hf]; constructor; [done|].
  eapply Forall_impl; [exact Hf|]. cbn. intros y Hy. rewrite !Z.ltb_lt. lia.
Qed.

Lemma insert_by_sorted key n l : sorted_by key l -> sorted_by key (insert_by (fun m => key n <? key m) n l).
Proof.
  intros Hs. induction Hs as [|x l Hs IH Hf]; cbn; [by repeat constructor|].
  destruct (Z.ltb_spec (key n) (key x)) as [Hlt|Hle].
  - constructor; [by constructor|]. constructor; [lia|]. eapply Forall_impl; [exact Hf|]. cbn. intros; lia.
  - constructor; [done|]. apply Forall_forall. intros y Hy.
    assert (y = n \/ y ∈ l) as [->|Hy'].
    { clear -Hy. induction l as [|z l IH]; cbn in *; [set_solver|]. destruct (_ <? _); set_solver. }
    + done.
    + rewrite Forall_forall in Hf. by apply Hf.
Qed.

(** For any test that is false on a first part of the nodes and true on the
    rest. *)
Lemma insert_inline_by_spec {RB : RB_Macros} {S} {HT : HasTree S} (less : Z -> M S bool) lt n tr Q s : let t := get_tree s in
  balanced t -> tree_rep t tr -> partitioned lt (inorder tr) -> Z.of_nat (length (inorder tr)) < 2 ^ 64 ->
  n <> NULL -> n ∉ inorder tr -> is_Some (rb_nodes t !! n) ->
  (forall m, m ∈ inorder tr -> less m s = Some (lt m, s)) ->
  (forall t' tr', balanced t' -> tree_rep t' tr' -> inorder tr' = insert_by lt n (inorder tr) ->
    same_outside (inorder tr') t t' -> Q (bool_decide (head (inorder tr') = Some n)) (set_tree t' s)) ->
  wp (_RBTree_Insert_inline n less) Q s.
Proof.
  intros t Hb Ht Hs Hlen Hn0 Hn Hm Hless HQ. apply wp_bind.
  apply (descend_spec _ _ lt true tr); [done|done|done|].
  intros c -> Hf. cbv beta iota zeta. pose proof (followed_insert _ c n Hf Hs) as Hins.
  apply wp_assoc, wp_bind. eapply insert_with_parent_spec; [exact Hb|exact Ht|exact Hn0|exact Hn|exact Hm|].
  intros t' tr' ? ? E ?. apply wp_ret.
  replace (recall (fun _ => false) true c) with (bool_decide (head (inorder tr') = Some n));
    [by apply HQ; [..|rewrite E|]|].
  rewrite E, recall_flag, inorder_plug. cbn. apply bool_decide_ext. rewrite inorder_plug in Hn. cbn in Hn.
  destruct (before c) as [|x l]; cbn; [done|]. split; [|done]. intros [= ->]. set_solver.
Qed.

Section inline.
Context {RB : RB_Macros} (key : Z -> Z).

Lemma insert_inline_spec {S} {HT : HasTree S} (less : Z -> M S bool) n tr Q s : let t := get_tree s in
  balanced t -> tree_rep t tr -> sorted_by key (inorder tr) -> Z.of_nat (length (inorder tr)) < 2 ^ 64 ->
  n <> NULL -> n ∉ inorder tr -> is_Some (rb_nodes t !! n) ->
  (forall m, m ∈ inorder tr -> less m s = Some (key n <? key m, s)) ->
  (forall t' tr', balanced t' -> tree_rep t' tr' ->
    inorder tr' = insert_by (fun m => key n <? key m) n (inorder tr) ->
    same_outside (inorder tr') t t' -> Q (bool_decide (head (inorder tr') = Some n)) (set_tree t' s)) ->
  wp (_RBTree_Insert_inline n less) Q s.
Proof. intros t Hb Ht Hs. apply insert_inline_by_spec; [done|done|by apply sorted_partitioned]. Qed.

(** C28. For every implementation of the tree macros, inserting a node with
    [_RBTree_Insert_inline] into a tree that is sorted by its keys terminates without fault; the nodes are then in
    order again, the new node behind all nodes with the same key, and the
    result tells whether it is the new minimum.  Nodes outside of the tree
    are not touched. *)
Theorem rbtree_insert_inline_correct s t n :
  balanced s -> tree_rep s t -> sorted_by key (inorder t) ->
  0 < n -> Forall (fun m => 0 < m < 2 ^ 64) (inorder t) -> n ∉ inorder t -> is_Some (rb_nodes s !! n) ->
  wp (_RBTree_Insert_inline (S := rbtree) n (fun m => mret (key n <? key m)))
     (fun is_new_minimum s' => exists t', balanced s' /\ tree_rep s' t' /\
        inorder t' = insert_by (fun m => key n <? key m) n (inorder t) /\
        sorted_by key (inorder t') /\ same_outside (inorder t') s s' /\
        is_new_minimum = bool_decide (head (inorder t') = Some n)) s.
Proof.
  intros Hb Ht Hs Hn0 Hr Hn Hm.
  apply (insert_inline_spec (S := rbtree) _ _ t); [done|done|done| |unfold NULL; lia|done|done|done|].
  - apply addresses_bound; [apply Ht|done].
  - intros t' tr' ? ? E ?. exists tr'. split_and!; [done|done|done| |done|done]. rewrite E. by apply insert_by_sorted.
Qed.

End inline.

(** * An implementation of the interface

    Trees that are never rebalanced: [RB_REMOVE] lines the remaining nodes up
    in order.  It shows that the laws can be satisfied and makes the model
    executable. *)
Module Spine.

Fixpoint read (fuel : nat) (ns : gmap Z RBTree_Node) (p : Z) : tree :=
  match fuel with
  | O => Leaf
  | S fuel =>
      match ns !! p with
      | Some nd => if p =? NULL then Leaf else Node (read fuel ns (rbe_left nd)) p (read fuel ns (rbe_right nd))
      | None => Leaf
      end
  end.

Fixpoint height (t : tree) : nat :=
  match t with
  | Leaf => 0
  | Node l _ r => S (Nat.max (height l) (height r))
  end.

Lemma height_length t : (height t <= length (inorder t))%nat.
Proof. induction t as [|l IHl n r IHr]; cbn; [done|]. rewrite length_app. cbn. lia. Qed.

Lemma read_tree fuel ns p parent t : tree_at ns p parent t -> (height t < fuel)%nat -> read fuel ns p = t.
Proof.
  revert p parent t. induction fuel as [|fuel IH]; intros p parent t Ht Hh; [lia|]. cbn.
  destruct t as [|l n r]; cbn in *.
  - subst p. by destruct (ns !! NULL).
  - destruct Ht as (-> & Hn & nd & -> & _ & _ & Hl & Hr). destruct (Z.eqb_spec n NULL); [done|].
    f_equal; (eapply IH; [done|lia]).
Qed.

Definition first_of (l : list Z) : Z := default NULL (head l).

Fixpoint line_up (parent : Z) (l : list Z) (ns : gmap Z RBTree_Node) : gmap Z RBTree_Node :=
  match l with
  | [] => ns
  | n :: l' => <[n := {| rbe_left := NULL; rbe_right := first_of l'; rbe_parent := parent; rbe_color := RB_BLACK |}]>
                 (line_up n l' ns)
  end.

Fixpoint spine (l : list Z) : tree :=
  match l with
  | [] => Leaf
  | n :: l' => Node Leaf n (spine l')
  end.

Lemma inorder_spine l : inorder (spine l) = l.
Proof. induction l as [|n l IH]; cbn; [done|]. by rewrite IH. Qed.

Lemma line_up_outside parent l ns k : k ∉ l -> line_up parent l ns !! k = ns !! k.
Proof.
  revert parent. induction l as [|n l IH]; intros parent Hk; cbn; [done|].
  rewrite lookup_insert_ne by set_solver. apply IH. set_solver.
Qed.

Lemma line_up_tree parent l ns : NoDup l -> NULL ∉ l -> tree_at (line_up parent l ns) (first_of l) parent (spine l).
Proof.
  intros Hnd. revert parent. induction Hnd as [|n l Hn Hnd IH]; intros parent H0; cbn; [done|].
  split_and!; [done|set_solver|]. eexists. split; [apply lookup_insert_eq|]. cbn. split_and!; [done|by left|done|].
  eapply tree_at_frame; [|apply IH; set_solver]. intros k Hk. rewrite inorder_spine in Hk.
  apply lookup_insert_ne. by intros ->.
Qed.

(** The in-order list of the nodes of a tree. *)
Definition contents (s : rbtree) : list Z :=
  inorder (read (Datatypes.S (size (rb_nodes s))) (rb_nodes s) (rbh_root s)).

Lemma contents_rep s t : tree_rep s t -> contents s = inorder t.
Proof.
  intros [Ht Hnd]. unfold contents. f_equal. eapply read_tree; [exact Ht|]. pose proof (height_length t).
  assert (length (inorder t) <= size (rb_nodes s))%nat; [|lia].
  rewrite <- size_dom, <- (size_list_to_set (C := gset Z)) by done. apply subseteq_size.
  intros k Hk. rewrite elem_of_list_to_set in Hk. apply elem_of_dom. by eapply tree_at_dom.
Qed.

Definition remove (n : Z) (s : rbtree) : rbtree :=
  let l := filter (fun k => k <> n) (contents s) in
  {| rb_nodes := line_up NULL l (rb_nodes s); rbh_root := first_of l |}.

Lemma remove_law s t n : tree_rep s t -> same_outside (inorder t) s (remove n s) /\
  exists t', tree_rep (remove n s) t' /\ inorder t' = filter (fun k => k <> n) (inorder t).
Proof.
  intros Hrep. pose proof Hrep as [Ht Hnd]. unfold remove. rewrite (contents_rep s t Hrep). set (l := filter _ (inorder t)).
  assert (Hl : l ⊆ inorder t) by (intros k Hk; by apply list_elem_of_filter in Hk as [_ ?]).
  split; [split|].
  - intros k Hk. cbn. apply line_up_outside. set_solver.
  - intros k Hk. cbn. destruct (decide (k ∈ l)) as [Hin|Hin]; [|by rewrite line_up_outside].
    clear Hl Hk. revert Hin. generalize NULL. induction l as [|m l IH]; intros par Hin; [set_solver|]. cbn.
    apply lookup_insert_is_Some'. apply elem_of_cons in Hin as [->|Hin]; [by left|right; by apply IH].
  - exists (spine l). rewrite inorder_spine. split; [|done]. split; cbn; rewrite ?inorder_spine.
    + apply line_up_tree; [by apply NoDup_filter|]. intros H0. apply Hl in H0. by apply (tree_at_dom _ _ _ _ _ Ht) in H0 as [? _].
    + by apply NoDup_filter.
Qed.

(** What follows [n] in a list. *)
Fixpoint behind (n : Z) (l : list Z) : list Z :=
  match l with
  | [] => []
  | x :: l' => if x =? n then l' else behind n l'
  end.

Lemma behind_split n l l' : n ∉ l -> behind n (l ++ n :: l') = l'.
Proof.
  induction l as [|x l IH]; cbn; intros Hn; [by rewrite Z.eqb_refl|].
  destruct (Z.eqb_spec x n); [set_solver|]. apply IH. set_solver.
Qed.

#[program] Definition macros : RB_Macros := {|
  RB_MIN s := first_of (contents s);
  RB_MAX s := first_of (reverse (contents s));
  RB_NEXT n s := first_of (behind n (contents s));
  RB_PREV n s := first_of (behind n (reverse (contents s)));
  RB_SET := red_leaf;
  RB_INSERT_COLOR n s := s;
  RB_REMOVE := remove;
  balanced s := True |}.
Next Obligation. done. Qed.
Next Obligation. done. Qed.
Next Obligation. done. Qed.
Next Obligation. done. Qed.
Next Obligation.
  intros s c n _ Ht Hn Hni s1 s2. split_and!; [done|apply same_outside_refl|].
  eexists. split; [by apply add_leaf_rep|done].
Qed.
Next Obligation. intros s t n _ Ht Hn s2. split; [done|by apply remove_law]. Qed.
Next Obligation. intros s t Ht. cbv beta. by rewrite (contents_rep s t Ht). Qed.
Next Obligation. intros s t Ht. cbv beta. rewrite (contents_rep s t Ht). unfold first_of. by rewrite head_reverse. Qed.
Next Obligation.
  intros s t l n l' Ht Hi. cbv beta. rewrite (contents_rep s t Ht), Hi. unfold first_of. rewrite behind_split; [done|].
  destruct Ht as [_ Hnd]. rewrite Hi in Hnd. apply NoDup_app in Hnd as (_ & Hd & _). intros Hn. apply (Hd n Hn). left.
Qed.
Next Obligation.
  intros s t l n l' Ht Hi. cbv beta. rewrite (contents_rep s t Ht), Hi. unfold first_of.
  rewrite reverse_app, reverse_cons, <- app_assoc.
  change ([n] ++ reverse l) with (n :: reverse l). rewrite behind_split.
  - by rewrite head_reverse.
  - destruct Ht as [_ Hnd]. rewrite Hi in Hnd. apply NoDup_app in Hnd as (_ & _ & Hnd). apply NoDup_cons in Hnd as [Hn _].
    by rewrite elem_of_reverse.
Qed.

End Spine.

(** Two nodes with the keys 5 and 9, and a third node with the key 5. *)
Definition sample_tree : rbtree :=
  {| rb_nodes := {[ 8 := {| rbe_left := NULL; rbe_right := 16; rbe_parent := NULL; rbe_color := RB_BLACK |};
                    16 := {| rbe_left := NULL; rbe_right := NULL; rbe_parent := 8; rbe_color := RB_RED |};
                    24 := {| rbe_left := NULL; rbe_right := NULL; rbe_parent := NULL; rbe_color := -1 |} ]};
     rbh_root := 8 |}.

Lemma rbtree_insert_inline_correct_witness :
  let key := fun n => if n =? 16 then 9 else 5 in
  wp (_RBTree_Insert_inline (S := rbtree) (RB := Spine.macros) 24 (fun m => mret (key 24 <? key m)))
     (fun is_new_minimum s' => is_new_minimum = false /\ exists t', tree_rep s' t' /\ inorder t' = [8; 24; 16])
     sample_tree.
Proof.
  intros key. eapply wp_mono.
  - apply (rbtree_insert_inline_correct (RB := Spine.macros) key sample_tree
      (Node Leaf 8 (Node Leaf 16 Leaf)) 24).
    + exact I.
    + split; [|repeat constructor; set_solver]. vm_compute.
      split_and!; [done|done|]. eexists. split; [reflexivity|]. vm_compute. split_and!; [done|by left|done|done|done|].
      eexists. split; [reflexivity|]. vm_compute. split_and!; [done|by right|done|done].
    + repeat constructor; vm_compute; discriminate.
    + lia.
    + repeat constructor; lia.
    + cbn [inorder app]. set_solver.
    + by eexists.
  - intros b s' (t' & _ & Ht & Hi & _ & _ & ->). split; [|by exists t']. rewrite Hi. reflexivity.
Defined.

End RBTree.
