(* ===== verification/Chain.v ===== *)
(** The kernel chains (score/chain.h, score/chainimpl.h, score/chain.c,
    score/chainnodecount.c): doubly linked lists whose control block
    overlays a head and a tail node.

    A [Chain_Node] is two words, [next] at offset 0 and [previous] at offset
    8.  A [Chain_Control] is three words, [first], the permanent null and
    [last]: its head node starts at offset 0 and its tail node at offset 8,
    so that the null word is both [head->previous] and [tail->next].  The
    functions are those of a build without [RTEMS_DEBUG]. *)

From S2P Require Import Prelude DList.
Open Scope width_scope.

Module Chain.

Definition NODE_NEXT : Z := 0.
Definition NODE_PREVIOUS : Z := 8.

Section operations.
Context {S : Type} `{HasMem S}.

Definition next (node : Z) : M S Z := load (node + NODE_NEXT).
Definition previous (node : Z) : M S Z := load (node + NODE_PREVIOUS).
Definition set_next (node v : Z) : M S unit := store (node + NODE_NEXT) v.
Definition set_previous (node v : Z) : M S unit := store (node + NODE_PREVIOUS) v.

Definition _Chain_Set_off_chain (node : Z) : M S unit := set_next node NULL.

Definition _Chain_Initialize_node (_ : Z) : M S unit := mret tt.

Definition _Chain_Is_node_off_chain (node : Z) : M S bool :=
  n ← next node; mret (n =? NULL).

Definition _Chain_Head (the_chain : Z) : Z := the_chain.
Definition _Chain_Tail (the_chain : Z) : Z := the_chain + 8.

Definition _Chain_First (the_chain : Z) : M S Z := next (_Chain_Head the_chain).
Definition _Chain_Last (the_chain : Z) : M S Z := previous (_Chain_Tail the_chain).
Definition _Chain_Next (the_node : Z) : M S Z := next the_node.
Definition _Chain_Previous (the_node : Z) : M S Z := previous the_node.

Definition _Chain_Is_empty (the_chain : Z) : M S bool :=
  first ← _Chain_First the_chain;
  mret (first =? _Chain_Tail the_chain).

Definition _Chain_Is_first (the_node : Z) : M S bool :=
  p ← previous the_node; pp ← previous p; mret (pp =? NULL).

Definition _Chain_Is_last (the_node : Z) : M S bool :=
  n ← next the_node; nn ← next n; mret (nn =? NULL).

Definition _Chain_Has_only_one_node (the_chain : Z) : M S bool :=
  first ← _Chain_First the_chain;
  last ← _Chain_Last the_chain;
  mret (first =? last).

Definition _Chain_Is_head (the_chain the_node : Z) : bool :=
  the_node =? _Chain_Head the_chain.

Definition _Chain_Is_tail (the_chain the_node : Z) : bool :=
  the_node =? _Chain_Tail the_chain.

Definition _Chain_Initialize_empty (the_chain : Z) : M S unit :=
  let head := _Chain_Head the_chain in
  let tail := _Chain_Tail the_chain in
  set_next head tail;;
  set_previous head NULL;;
  set_previous tail head.

Definition _Chain_Initialize_one (the_chain the_node : Z) : M S unit :=
  let head := _Chain_Head the_chain in
  let tail := _Chain_Tail the_chain in
  set_next the_node tail;;
  set_previous the_node head;;
  set_next head the_node;;
  set_previous head NULL;;
  set_previous tail the_node.

(** The [while ( count-- )] loop of [_Chain_Initialize]. *)
Fixpoint chain_initialize_loop (count : nat) (current nxt node_size : Z)
    : M S Z :=
  match count with
  | O => mret current
  | Datatypes.S count' =>
      set_next current nxt;;
      set_previous nxt current;;
      chain_initialize_loop count' nxt (nxt +! node_size) node_size
  end.

Definition _Chain_Initialize (the_chain starting_address : Z)
    (number_nodes : nat) (node_size : Z) : M S unit :=
  let head := _Chain_Head the_chain in
  let tail := _Chain_Tail the_chain in
  set_previous head NULL;;
  current ← chain_initialize_loop number_nodes head starting_address node_size;
  set_next current tail;;
  set_previous tail current.

Definition _Chain_Extract_unprotected (the_node : Z) : M S unit :=
  nxt ← next the_node;
  prv ← previous the_node;
  set_previous nxt prv;;
  set_next prv nxt.

Definition _Chain_Get_first_unprotected (the_chain : Z) : M S Z :=
  let head := _Chain_Head the_chain in
  old_first ← next head;
  new_first ← next old_first;
  set_next head new_first;;
  set_previous new_first head;;
  mret old_first.

Definition _Chain_Get_unprotected (the_chain : Z) : M S Z :=
  empty ← _Chain_Is_empty the_chain;
  if negb empty then _Chain_Get_first_unprotected the_chain else mret NULL.

Definition _Chain_Insert_unprotected (after_node the_node : Z) : M S unit :=
  set_previous the_node after_node;;
  before_node ← next after_node;
  set_next after_node the_node;;
  set_next the_node before_node;;
  set_previous before_node the_node.

Definition _Chain_Append_unprotected (the_chain the_node : Z) : M S unit :=
  let tail := _Chain_Tail the_chain in
  old_last ← previous tail;
  set_next the_node tail;;
  set_previous tail the_node;;
  set_next old_last the_node;;
  set_previous the_node old_last.

Definition _Chain_Append_if_is_off_chain_unprotected (the_chain the_node : Z)
    : M S unit :=
  off ← _Chain_Is_node_off_chain the_node;
  whenM off (_Chain_Append_unprotected the_chain the_node).

Definition _Chain_Prepend_unprotected (the_chain the_node : Z) : M S unit :=
  _Chain_Insert_unprotected (_Chain_Head the_chain) the_node.

Definition _Chain_Append_with_empty_check_unprotected (the_chain the_node : Z)
    : M S bool :=
  was_empty ← _Chain_Is_empty the_chain;
  _Chain_Append_unprotected the_chain the_node;;
  mret was_empty.

Definition _Chain_Prepend_with_empty_check_unprotected (the_chain the_node : Z)
    : M S bool :=
  was_empty ← _Chain_Is_empty the_chain;
  _Chain_Prepend_unprotected the_chain the_node;;
  mret was_empty.

(** Returns [is_empty_now] and the value stored to [*the_node]. *)
Definition _Chain_Get_with_empty_check_unprotected (the_chain : Z)
    : M S (bool * Z) :=
  let head := _Chain_Head the_chain in
  let tail := _Chain_Tail the_chain in
  old_first ← next head;
  if negb (old_first =? tail) then
    new_first ← next old_first;
    set_next head new_first;;
    set_previous new_first head;;
    mret (new_first =? tail, old_first)
  else mret (true, NULL).

Definition _Chain_Insert_ordered_unprotected (the_chain to_insert : Z)
    (order : Z -> M S bool) : M S unit :=
  let tail := _Chain_Tail the_chain in
  first ← _Chain_First the_chain;
  nxt ← whileM (fun nxt =>
    if nxt =? tail then mret (inr nxt)
    else o ← order nxt;
         if negb o then n ← _Chain_Next nxt; mret (inl n) else mret (inr nxt)) first;
  prv ← _Chain_Previous nxt;
  _Chain_Insert_unprotected prv to_insert.

Definition _Chain_Node_count_unprotected (chain : Z) : M S Z :=
  let tail := _Chain_Tail chain in
  first ← _Chain_First chain;
  whileM (fun '(count, node) =>
    if node =? tail then mret (inr count)
    else n ← _Chain_Next node; mret (inl (count +! 1, n))) (0, first).
End operations.

(** * Representation *)

(** The chain at [c] links the nodes [ns]. *)
Definition chain (m : mem) (c : Z) (ns : list Z) : Prop :=
  dsep NODE_NEXT NODE_PREVIOUS c ns (c + 8) /\
  dlist NODE_NEXT NODE_PREVIOUS m c ns (c + 8) /\
  m !! (c + NODE_PREVIOUS) = Some NULL.

(** [n] is a mapped node that shares no word with the chain. *)
Definition off_chain (m : mem) (c : Z) (ns : list Z) (n : Z) : Prop :=
  is_Some (m !! (n + NODE_NEXT)) /\ is_Some (m !! (n + NODE_PREVIOUS)) /\
  (n ∉ c :: ns) /\ (n ∉ ns ++ [c + 8]) /\
  (forall y, y ∈ ns ++ [c + 8] -> n + NODE_NEXT <> y + NODE_PREVIOUS) /\
  (forall x, x ∈ c :: ns -> x + NODE_NEXT <> n + NODE_PREVIOUS).

(** The words of a chain and of its nodes. *)
Definition node_words (n : Z) : list Z := [n; n + 8].
Definition chain_words (c : Z) (ns : list Z) : list Z :=
  [c; c + 8; c + 16] ++ (ns ≫= node_words).

Lemma elem_of_chain_words k c ns : k ∈ chain_words c ns <->
  k = c \/ k = c + 8 \/ k = c + 16 \/ exists n, n ∈ ns /\ (k = n \/ k = n + 8).
Proof.
  unfold chain_words. rewrite elem_of_app, list_elem_of_bind.
  unfold node_words. set_unfold. naive_solver.
Qed.

(** A chain whose words keep their contents is the same chain. *)
Lemma chain_frame m m' c ns :
  (forall k, k ∈ chain_words c ns -> m' !! k = m !! k) ->
  chain m c ns -> chain m' c ns.
Proof.
  intros Hk (Hs & Hl & Hn). split; [done|]. split.
  - eapply dlist_ext; [..|exact Hl].
    + intros x Hx. apply Hk, elem_of_chain_words. unfold NODE_NEXT.
      rewrite Z.add_0_r. set_solver.
    + intros y [Hy| ->%list_elem_of_singleton]%elem_of_app;
        apply Hk, elem_of_chain_words; unfold NODE_PREVIOUS; [eauto 10|].
      right; right; left; lia.
  - rewrite Hk; [done|]. apply elem_of_chain_words. unfold NODE_PREVIOUS. auto.
Qed.

(** * What the operations do to the represented list *)

Section specs.
Context {S : Type} `{HasMem S}.
Context (c : Z).
Local Abbreviation dsep' ns := (dsep NODE_NEXT NODE_PREVIOUS c ns (c + 8)).
Local Abbreviation dlist' m ns := (dlist NODE_NEXT NODE_PREVIOUS m c ns (c + 8)).

Lemma off_chain_dsep m l1 l2 n :
  dsep' (l1 ++ l2) -> off_chain m c (l1 ++ l2) n -> dsep' (l1 ++ n :: l2).
Proof.
  intros Hs (_ & _ & H1 & H2 & H3 & H4). rewrite <- app_assoc in *.
  apply dsep_insert; try done.
Qed.

(** Facts [lia] needs about the words of a node at a position. *)
Lemma pred_succ_words l1 l2 : dsep' (l1 ++ l2) ->
  dpred c l1 <> c + 8 /\ dsucc l2 (c + 8) <> c /\
  dpred c l1 <> dsucc l2 (c + 8) + 8.
Proof.
  intros (H1 & H2 & H3).
  pose proof (dpred_elem c l1) as Ha. pose proof (dsucc_elem l2 (c + 8)) as Hb.
  split_and!.
  - intros E. rewrite E in Ha. apply elem_of_cons in Ha as [?|Ha]; [lia|].
    rewrite <- app_assoc in H2. apply NoDup_app in H2 as (_ & H2 & _).
    apply (H2 (c + 8)); set_solver.
  - intros E. rewrite E in Hb. apply elem_of_app in Hb as [Hb|Hb%list_elem_of_singleton]; [|lia].
    apply NoDup_cons in H1 as [H1 _]. set_solver.
  - intros E. specialize (H3 (dpred c l1) (dsucc l2 (c + 8))).
    unfold NODE_NEXT, NODE_PREVIOUS in H3. apply H3; [set_solver|set_solver|lia].
Qed.

Lemma dsep_not_tail n ns : dsep' (n :: ns) -> (n =? c + 8) = false.
Proof.
  intros (_ & Hd & _). apply Z.eqb_neq. intros ->.
  apply NoDup_cons in Hd as [Hd _]. set_solver.
Qed.

Lemma dsep_not_tail_mid l1 n l2 : dsep' (l1 ++ n :: l2) -> (n =? c + 8) = false.
Proof.
  intros (_ & Hd & _). apply Z.eqb_neq. intros ->. rewrite <- app_assoc in Hd.
  apply NoDup_app in Hd as (_ & _ & Hd). apply NoDup_cons in Hd as [Hd _]. set_solver.
Qed.

Lemma is_empty_spec s ns Q : chain (get_mem s) c ns ->
  Q (bool_decide (ns = [])) s -> wp (_Chain_Is_empty c) Q s.
Proof.
  intros (Hs & Hl & _) HQ. unfold _Chain_Is_empty, _Chain_First, next.
  pose proof (dlist_first _ _ _ _ _ _ Hl) as Hf.
  apply wp_bind. eapply wp_load; [exact Hf|]. apply wp_ret.
  replace (_ =? _) with (bool_decide (ns = [])); [done|].
  symmetry. unfold _Chain_Tail. destruct ns as [|n ns]; cbn.
  - apply Z.eqb_refl.
  - apply Z.eqb_neq. intros ->. destruct Hs as (_ & Hd & _).
    apply NoDup_cons in Hd as [Hd _]. set_solver.
Qed.

Lemma has_only_one_node_spec s ns Q : chain (get_mem s) c ns ->
  Q (bool_decide (length ns = 1%nat)) s -> wp (_Chain_Has_only_one_node c) Q s.
Proof.
  intros (Hs & Hl & _) HQ.
  pose proof (dlist_first _ _ _ _ _ _ Hl) as Hf. pose proof (dlist_last _ _ _ _ _ _ Hl) as Hla.
  apply wp_bind. eapply wp_load; [exact Hf|].
  apply wp_bind. eapply wp_load; [exact Hla|]. apply wp_ret.
  replace (_ =? _) with (bool_decide (length ns = 1%nat)); [done|]. symmetry.
  destruct Hs as (Hd1 & Hd2 & _).
  destruct ns as [|n ns]; [cbn; apply Z.eqb_neq; lia|].
  destruct ns as [|n' ns _] using rev_ind; [cbn; apply Z.eqb_refl|].
  cbn [dsucc head default]. unfold dpred. rewrite app_comm_cons, last_snoc. cbn.
  rewrite bool_decide_eq_false_2 by (rewrite length_app; cbn; lia).
  apply Z.eqb_neq. intros ->. apply NoDup_cons in Hd1 as [_ Hd1].
  apply NoDup_cons in Hd1 as [Hd1 _]. set_solver.
Qed.

Lemma initialize_empty_spec s Q :
  (forall k, k ∈ [c; c + 8; c + 16] -> is_Some (get_mem s !! k)) ->
  (forall m', chain m' c [] -> changes (chain_words c []) (get_mem s) m' ->
    Q tt (set_mem m' s)) ->
  wp (_Chain_Initialize_empty c) Q s.
Proof.
  intros Hk HQ. unfold _Chain_Initialize_empty, set_next, set_previous,
    _Chain_Head, _Chain_Tail, NODE_NEXT, NODE_PREVIOUS.
  assert (is_Some (get_mem s !! (c + 0))) by (apply Hk; set_solver by lia).
  assert (is_Some (get_mem s !! (c + 8))) by (apply Hk; set_solver by lia).
  assert (is_Some (get_mem s !! (c + 8 + 8))) by (apply Hk; set_solver by lia).
  wp_steps. apply HQ.
  - split; [|split].
    + split; [|split]; [apply NoDup_singleton..|].
      unfold NODE_NEXT, NODE_PREVIOUS. set_solver by lia.
    + unfold dlist; cbn. unfold linked, NODE_NEXT, NODE_PREVIOUS. mem_lookup. done.
    + unfold NODE_PREVIOUS. by mem_lookup.
  - do 3 (apply changes_insert; [set_solver by lia|]). apply changes_refl.
Qed.

Lemma initialize_one_spec s n Q :
  (forall k, k ∈ [c; c + 8; c + 16; n; n + 8] -> is_Some (get_mem s !! k)) ->
  n + 16 <= c \/ c + 24 <= n ->
  (forall m', chain m' c [n] -> changes (chain_words c [n]) (get_mem s) m' -> Q tt (set_mem m' s)) ->
  wp (_Chain_Initialize_one c n) Q s.
Proof.
  intros Hk Hn HQ. unfold _Chain_Initialize_one, set_next, set_previous,
    _Chain_Head, _Chain_Tail, NODE_NEXT, NODE_PREVIOUS.
  assert (is_Some (get_mem s !! (c + 0))) by (apply Hk; set_solver by lia).
  assert (is_Some (get_mem s !! (c + 8))) by (apply Hk; set_solver by lia).
  assert (is_Some (get_mem s !! (c + 8 + 8))) by (apply Hk; set_solver by lia).
  assert (is_Some (get_mem s !! (n + 0))) by (apply Hk; set_solver by lia).
  assert (is_Some (get_mem s !! (n + 8))) by (apply Hk; set_solver by lia).
  wp_steps. apply HQ.
  - split; [|split].
    + split; [|split].
      * repeat (apply NoDup_cons; split; [set_solver by lia|]). apply NoDup_nil_2.
      * cbn. repeat (apply NoDup_cons; split; [set_solver by lia|]). apply NoDup_nil_2.
      * unfold NODE_NEXT, NODE_PREVIOUS. cbn. set_solver by lia.
    + unfold dlist; cbn. unfold linked, NODE_NEXT, NODE_PREVIOUS. split_and!; mem_lookup; done.
    + unfold NODE_PREVIOUS. by mem_lookup.
  - do 5 (apply changes_insert; [unfold chain_words, node_words; cbn; set_solver by lia|]). apply changes_refl.
Qed.

Lemma first_spec s n ns Q : chain (get_mem s) c (n :: ns) -> Q n s -> wp (_Chain_First c) Q s.
Proof.
  intros (_ & Hl & _) HQ. pose proof (dlist_first _ _ _ _ _ _ Hl) as Hf. by eapply wp_load.
Qed.

Lemma elem_pred_word l1 ns : (forall x, x ∈ l1 -> x ∈ ns) ->
  dpred c l1 + NODE_NEXT ∈ chain_words c ns.
Proof.
  intros Hsub. pose proof (dpred_elem c l1) as Ha. apply elem_of_chain_words.
  unfold NODE_NEXT. rewrite Z.add_0_r. apply elem_of_cons in Ha as [->|Ha]; [auto|].
  right; right; right. eauto.
Qed.

Lemma elem_succ_word l2 ns : (forall x, x ∈ l2 -> x ∈ ns) ->
  dsucc l2 (c + 8) + NODE_PREVIOUS ∈ chain_words c ns.
Proof.
  intros Hsub. pose proof (dsucc_elem l2 (c + 8)) as Hb. apply elem_of_chain_words.
  unfold NODE_PREVIOUS. apply elem_of_app in Hb as [Hb|Hb%list_elem_of_singleton].
  - right; right; right. eauto.
  - right; right; left. lia.
Qed.

Lemma elem_node_word n ns : n ∈ ns ->
  n + NODE_NEXT ∈ chain_words c ns /\ n + NODE_PREVIOUS ∈ chain_words c ns.
Proof.
  intros Hn. unfold NODE_NEXT, NODE_PREVIOUS. rewrite Z.add_0_r.
  split; apply elem_of_chain_words; right; right; right; eauto.
Qed.

(** The memory after linking [n] between [l1] and [l2]. *)
Lemma chain_linked m l1 n l2 :
  chain m c (l1 ++ l2) -> off_chain m c (l1 ++ l2) n ->
  let a := dpred c l1 in let b := dsucc l2 (c + 8) in
  let m' := <[b + NODE_PREVIOUS := n]> (<[a + NODE_NEXT := n]>
              (<[n + NODE_PREVIOUS := a]> (<[n + NODE_NEXT := b]> m))) in
  chain m' c (l1 ++ n :: l2) /\ changes (chain_words c (l1 ++ n :: l2)) m m'.
Proof.
  intros (Hs & Hl & Hn) Hoff a b m'. pose proof (off_chain_dsep _ _ _ _ Hs Hoff) as Hs'.
  pose proof (pred_succ_words l1 l2 Hs) as (? & ? & _). destruct Hoff as (_ & _ & ? & ? & _).
  pose proof (elem_succ_word l2 (l1 ++ n :: l2) ltac:(set_solver)).
  pose proof (elem_pred_word l1 (l1 ++ n :: l2) ltac:(set_solver)).
  split; [split; [done|split]|].
  - by apply dlist_insert.
  - assert (n <> c) by set_solver. assert (n <> c + 8) by set_solver.
    subst m' a b. unfold NODE_NEXT, NODE_PREVIOUS in *. by mem_lookup.
  - destruct (elem_node_word n (l1 ++ n :: l2)) as [? ?]; [set_solver|].
    subst m'. repeat apply changes_insert; auto using changes_refl.
Qed.

(** Disequalities between the words written by a link update. *)
Lemma link_words m l1 n l2 : dsep' (l1 ++ l2) -> off_chain m c (l1 ++ l2) n ->
  let a := dpred c l1 in let b := dsucc l2 (c + 8) in
  a <> n /\ b <> n /\ n <> b + 8 /\ a <> n + 8 /\ a <> b + 8.
Proof.
  intros Hs (_ & _ & H1 & H2 & H3 & H4) a b. rewrite <- app_assoc in *.
  pose proof (pred_succ_words l1 l2 Hs) as (_ & _ & ?).
  pose proof (dpred_elem c l1) as Ha. pose proof (dsucc_elem l2 (c + 8)) as Hb.
  fold a in Ha. fold b in Hb. unfold NODE_NEXT, NODE_PREVIOUS in *.
  split_and!; [set_solver..| | |done].
  - specialize (H3 b ltac:(set_solver)). lia.
  - specialize (H4 a ltac:(set_solver)). lia.
Qed.

Lemma insert_spec s l1 n l2 Q :
  chain (get_mem s) c (l1 ++ l2) -> off_chain (get_mem s) c (l1 ++ l2) n ->
  (forall m', chain m' c (l1 ++ n :: l2) ->
    changes (chain_words c (l1 ++ n :: l2)) (get_mem s) m' -> Q tt (set_mem m' s)) ->
  wp (_Chain_Insert_unprotected (dpred c l1) n) Q s.
Proof.
  intros Hc Hoff HQ. destruct (chain_linked _ _ _ _ Hc Hoff) as [Hc' Hch].
  specialize (HQ _ Hc' Hch). destruct Hc as (Hs & Hl & _).
  pose proof (link_words _ _ _ _ Hs Hoff) as (? & ? & ? & ? & ?).
  apply dlist_split_pos in Hl as (_ & _ & Hab & Hba). destruct Hoff as (? & ? & _).
  unfold _Chain_Insert_unprotected, set_next, set_previous, next, NODE_NEXT, NODE_PREVIOUS in *.
  wp_steps. match goal with |- Q tt (set_mem ?m1 _) => match type of HQ with
    Q tt (set_mem ?m2 _) => replace m1 with m2; [exact HQ|mem_eq] end end.
Qed.

Lemma prepend_spec s ns n Q :
  chain (get_mem s) c ns -> off_chain (get_mem s) c ns n ->
  (forall m', chain m' c (n :: ns) -> changes (chain_words c (n :: ns)) (get_mem s) m' ->
    Q tt (set_mem m' s)) ->
  wp (_Chain_Prepend_unprotected c n) Q s.
Proof. apply (insert_spec s [] n ns). Qed.

Lemma append_spec s ns n Q :
  chain (get_mem s) c ns -> off_chain (get_mem s) c ns n ->
  (forall m', chain m' c (ns ++ [n]) ->
    changes (chain_words c (ns ++ [n])) (get_mem s) m' -> Q tt (set_mem m' s)) ->
  wp (_Chain_Append_unprotected c n) Q s.
Proof.
  rewrite <- (app_nil_r ns) at 1 2. intros Hc Hoff HQ.
  destruct (chain_linked _ _ _ _ Hc Hoff) as [Hc' Hch].
  specialize (HQ _ Hc' Hch). destruct Hc as (Hs & Hl & _).
  pose proof (link_words _ _ _ _ Hs Hoff) as (? & ? & ? & ? & ?).
  apply dlist_split_pos in Hl as (_ & _ & Hab & Hba). destruct Hoff as (? & ? & _).
  cbn [dsucc head default from_option id] in *.
  unfold _Chain_Append_unprotected, _Chain_Tail, set_next, set_previous, previous,
    NODE_NEXT, NODE_PREVIOUS in *. unfold dsucc in *. cbn [head default from_option] in *.
  wp_steps. match goal with |- Q tt (set_mem ?m1 _) => match type of HQ with
    Q tt (set_mem ?m2 _) => replace m1 with m2; [exact HQ|mem_eq] end end.
Qed.

Lemma extract_spec s l1 n l2 Q :
  chain (get_mem s) c (l1 ++ n :: l2) ->
  (forall m', chain m' c (l1 ++ l2) ->
    changes (chain_words c (l1 ++ l2)) (get_mem s) m' -> Q tt (set_mem m' s)) ->
  wp (_Chain_Extract_unprotected n) Q s.
Proof.
  intros (Hs & Hl & Hn) HQ. pose proof (dlist_remove _ _ _ _ _ _ _ _ Hs Hl) as Hl'.
  pose proof (dsep_remove _ _ _ _ _ _ _ Hs) as Hs'.
  pose proof (pred_succ_words l1 l2 Hs') as (? & ? & ?).
  pose proof (elem_succ_word l2 (l1 ++ l2) ltac:(set_solver)).
  pose proof (elem_pred_word l1 (l1 ++ l2) ltac:(set_solver)).
  apply dlist_split in Hl as (_ & _ & [Ha1 Ha2] & [Hb1 Hb2]).
  unfold _Chain_Extract_unprotected, set_next, set_previous, next, previous,
    NODE_NEXT, NODE_PREVIOUS in *.
  wp_steps. apply HQ.
  - split; [done|split].
    + match goal with |- dlist _ _ ?m1 _ _ _ => match type of Hl' with
        dlist _ _ ?m2 _ _ _ => replace m1 with m2; [exact Hl'|mem_eq] end end.
    + unfold NODE_PREVIOUS. by mem_lookup.
  - repeat apply changes_insert; auto using changes_refl.
Qed.

Lemma get_first_spec s n ns Q :
  chain (get_mem s) c (n :: ns) ->
  (forall m', chain m' c ns -> changes (chain_words c ns) (get_mem s) m' ->
    Q n (set_mem m' s)) ->
  wp (_Chain_Get_first_unprotected c) Q s.
Proof.
  intros (Hs & Hl & Hn) HQ. pose proof (dlist_remove _ _ _ _ [] _ _ _ Hs Hl) as Hl'.
  pose proof (dsep_remove _ _ _ [] _ _ _ Hs) as Hs'.
  pose proof (pred_succ_words [] ns Hs') as (? & ? & ?).
  pose proof (elem_succ_word ns ns ltac:(set_solver)).
  pose proof (elem_pred_word [] ns ltac:(set_solver)).
  apply (dlist_split _ _ _ _ []) in Hl as (_ & _ & [Ha1 Ha2] & [Hb1 Hb2]).
  unfold _Chain_Get_first_unprotected, _Chain_Head, set_next, set_previous, next, previous,
    NODE_NEXT, NODE_PREVIOUS in *. unfold dpred in *. cbn [last default from_option] in *.
  wp_steps. apply HQ.
  - split; [done|split].
    + exact Hl'.
    + unfold NODE_PREVIOUS. by mem_lookup.
  - repeat apply changes_insert; auto using changes_refl.
Qed.

Lemma get_with_empty_check_spec s ns Q :
  chain (get_mem s) c ns ->
  (ns = [] -> Q (true, NULL) s) ->
  (forall n ns' m', ns = n :: ns' -> chain m' c ns' ->
    changes (chain_words c ns') (get_mem s) m' ->
    Q (bool_decide (ns' = []), n) (set_mem m' s)) ->
  wp (_Chain_Get_with_empty_check_unprotected c) Q s.
Proof.
  intros Hc HQ0 HQ1. pose proof Hc as (Hs & Hl & Hn).
  pose proof (dlist_first _ _ _ _ _ _ Hl) as Hf.
  unfold _Chain_Get_with_empty_check_unprotected, _Chain_Head, _Chain_Tail, next.
  apply wp_bind. eapply wp_load; [exact Hf|]. destruct ns as [|n ns].
  - rewrite dsucc_nil, Z.eqb_refl. apply wp_ret. by apply HQ0.
  - rewrite dsucc_cons, (dsep_not_tail n ns Hs). cbn [negb].
    eapply (wp_mono _ (fun '(e, x) s' => e = bool_decide (ns = []) /\ x = n /\
      exists m', s' = set_mem m' s /\ chain m' c ns /\
        changes (chain_words c ns) (get_mem s) m')).
    2: { intros [e x] s' (-> & -> & m' & -> & ? & ?). eauto. }
    pose proof (dlist_split _ _ _ _ [] _ _ _ Hl) as (_ & _ & _ & [Hb _]).
    pose proof (get_first_spec s n ns (fun x s' => x = n /\
      exists m', s' = set_mem m' s /\ chain m' c ns /\
        changes (chain_words c ns) (get_mem s) m') Hc) as Hg.
    unfold _Chain_Get_first_unprotected, _Chain_Head, next in Hg.
    unfold wp, mbind, M_bind in *. unfold load in *.
    rewrite Hf, dsucc_cons, Hb in Hg. rewrite Hb.
    replace (dsucc ns (c + 8) =? c + 8) with (bool_decide (ns = [])).
    + destruct (set_next _ _ _) as [[? ?]|]; [|naive_solver].
      destruct (set_previous _ _ _) as [[? ?]|]; naive_solver.
    + destruct ns as [|n' ns']; [by rewrite dsucc_nil, Z.eqb_refl|].
      rewrite dsucc_cons. symmetry. eapply dsep_not_tail, (dsep_remove _ _ _ []), Hs.
Qed.

(** [_Chain_Node_count_unprotected] terminates with the length. *)
Lemma node_count_spec s ns Q :
  chain (get_mem s) c ns -> Z.of_nat (length ns) < 2 ^ 64 ->
  Q (Z.of_nat (length ns)) s -> wp (_Chain_Node_count_unprotected c) Q s.
Proof.
  intros Hc Hlen HQ. pose proof Hc as (Hs & Hl & Hn).
  pose proof (dlist_first _ _ _ _ _ _ Hl) as Hf.
  apply wp_bind. eapply wp_load; [exact Hf|].
  eapply (wp_whileM _ (fun k '(count, node) s' => s' = s /\ exists l1 l2, ns = l1 ++ l2 /\
      node = dsucc l2 (c + 8) /\ count = Z.of_nat (length l1) /\ k = Z.of_nat (length l2))).
  - intros k [count node] s' (-> & l1 & l2 & -> & -> & -> & ->).
    unfold _Chain_Tail. destruct l2 as [|n l2].
    + rewrite dsucc_nil, Z.eqb_refl. apply wp_ret. by rewrite app_nil_r in HQ.
    + rewrite dsucc_cons, (dsep_not_tail_mid l1 n l2 Hs).
      apply dlist_split in Hl as (_ & _ & _ & [Hb _]).
      apply wp_bind. eapply wp_load; [exact Hb|]. apply wp_ret.
      rewrite length_app in *. cbn [length] in *. width_simpl.
      exists (Z.of_nat (length l2)). split; [lia|]. split; [done|].
      exists (l1 ++ [n]), l2. rewrite <- app_assoc, length_app. cbn [length].
      split_and!; [done|done|lia|done].
  - split; [done|]. by exists [], ns.
  - lia.
Qed.

(** ** Ordered insertion *)

(** The list that ordered insertion produces: before the first node the
    order predicate accepts. *)
Fixpoint insert_before (f : Z -> bool) (n : Z) (ns : list Z) : list Z :=
  match ns with
  | [] => [n]
  | x :: ns' => if f x then n :: x :: ns' else x :: insert_before f n ns'
  end.

Lemma insert_before_app f n l1 l2 : forallb (fun x => negb (f x)) l1 = true ->
  insert_before f n (l1 ++ l2) = l1 ++ insert_before f n l2.
Proof.
  induction l1 as [|x l1 IH]; [done|]. cbn. intros [Hx Hl]%andb_true_iff.
  apply negb_true_iff in Hx. by rewrite Hx, IH.
Qed.

Lemma insert_ordered_spec s ns n (order : Z -> M S bool) (f : Z -> bool) Q :
  chain (get_mem s) c ns -> off_chain (get_mem s) c ns n ->
  (forall x, x ∈ ns -> order x s = Some (f x, s)) -> Z.of_nat (length ns) < 2 ^ 64 ->
  (forall m', chain m' c (insert_before f n ns) ->
    changes (chain_words c (insert_before f n ns)) (get_mem s) m' -> Q tt (set_mem m' s)) ->
  wp (_Chain_Insert_ordered_unprotected c n order) Q s.
Proof.
  intros Hc Hoff Hord Hlen HQ. pose proof Hc as (Hs & Hl & Hn).
  pose proof (dlist_first _ _ _ _ _ _ Hl) as Hf.
  apply wp_bind. eapply wp_load; [exact Hf|]. apply wp_bind.
  eapply (wp_whileM _ (fun k node s' => s' = s /\ exists l1 l2, ns = l1 ++ l2 /\
      node = dsucc l2 (c + 8) /\ forallb (fun x => negb (f x)) l1 = true /\
      k = Z.of_nat (length l2))).
  2: { split; [done|]. by exists [], ns. } 2: lia.
  intros k node s' (-> & l1 & l2 & -> & -> & Hf1 & ->).
  assert (Hdone : insert_before f n (l1 ++ l2) = l1 ++ n :: l2 ->
    wp (prv ← _Chain_Previous (dsucc l2 (c + 8)); _Chain_Insert_unprotected prv n) Q s).
  { intros E. rewrite E in HQ. apply dlist_split_pos in Hl as (_ & _ & [_ Hb]).
    apply wp_bind. eapply wp_load; [exact Hb|]. by apply (insert_spec s l1 n l2). }
  unfold _Chain_Tail. destruct l2 as [|x l2].
  - rewrite dsucc_nil, Z.eqb_refl in *. apply wp_ret, Hdone. by apply insert_before_app.
  - rewrite dsucc_cons, (dsep_not_tail_mid l1 x l2 Hs) in *.
    apply wp_bind. apply wp_run. exists (f x), s. split; [apply Hord; set_solver|].
    destruct (f x) eqn:Hfx; cbn [negb].
    + apply wp_ret, Hdone. rewrite insert_before_app by done. cbn. by rewrite Hfx.
    + apply dlist_split in Hl as (_ & _ & _ & [Hb _]).
      apply wp_bind. eapply wp_load; [exact Hb|]. apply wp_ret.
      exists (Z.of_nat (length l2)). cbn [length]. split; [lia|]. split; [done|].
      exists (l1 ++ [x]), l2. rewrite <- app_assoc, forallb_app, Hf1. cbn. by rewrite Hfx.
Qed.

Lemma get_spec s ns Q :
  chain (get_mem s) c ns ->
  (forall m', chain m' c (tail ns) -> changes (chain_words c ns) (get_mem s) m' ->
    Q (default NULL (head ns)) (set_mem m' s)) ->
  wp (_Chain_Get_unprotected c) Q s.
Proof.
  intros Hc HQ. apply wp_bind. eapply is_empty_spec; [done|].
  destruct ns as [|n ns]; cbn.
  - rewrite <- (set_get_mem s). apply HQ; [done|apply changes_refl].
  - eapply get_first_spec; [done|]. intros m' Hc' Hch. apply HQ; [done|].
    eapply changes_mono; [|done]. intros k. rewrite !elem_of_chain_words. set_solver.
Qed.

(** ** Building a chain from an array of nodes *)

Fixpoint array_nodes (start : Z) (count : nat) (node_size : Z) : list Z :=
  match count with
  | O => []
  | Datatypes.S count' => start :: array_nodes (start + node_size) count' node_size
  end.

Lemma chain_initialize_loop_spec s done count nxt node_size Q :
  0 <= node_size -> 0 <= nxt -> nxt + Z.of_nat count * node_size < 2 ^ 64 ->
  let rest := array_nodes nxt count node_size in
  dsep' (done ++ rest) ->
  (forall k, k ∈ chain_words c (done ++ rest) -> is_Some (get_mem s !! k)) ->
  links NODE_NEXT NODE_PREVIOUS (get_mem s) (c :: done) ->
  get_mem s !! (c + NODE_PREVIOUS) = Some NULL ->
  (forall m', links NODE_NEXT NODE_PREVIOUS m' (c :: done ++ rest) ->
    m' !! (c + NODE_PREVIOUS) = Some NULL ->
    changes (chain_words c (done ++ rest)) (get_mem s) m' ->
    Q (dpred c (done ++ rest)) (set_mem m' s)) ->
  wp (chain_initialize_loop count (dpred c done) nxt node_size) Q s.
Proof.
  intros Hsz. revert s done nxt. induction count as [|count IH];
    intros s done nxt Hnxt Hbd rest Hs Hmap Hl Hn HQ; cbn [chain_initialize_loop].
  - apply wp_ret. rewrite <- (set_get_mem s). subst rest. cbn in *. rewrite app_nil_r in *.
    apply HQ; auto using changes_refl.
  - subst rest. cbn [array_nodes] in *. rewrite Nat2Z.inj_succ, Z.mul_succ_l in Hbd.
    assert (0 <= Z.of_nat count * node_size) by (apply Z.mul_nonneg_nonneg; lia).
    assert (Hw : forall x, x ∈ done -> x ∈ done ++ nxt :: array_nodes (nxt + node_size) count node_size)
      by set_solver.
    pose proof (elem_pred_word done _ Hw) as Ha.
    destruct (elem_node_word nxt (done ++ nxt :: array_nodes (nxt + node_size) count node_size))
      as [_ Hb]; [set_solver|].
    pose proof (pred_succ_words _ _ Hs) as (Hp1 & Hp2 & Hp3). rewrite dsucc_cons in *.
    assert (Hma : is_Some (get_mem s !! (dpred c done + NODE_NEXT))) by auto.
    assert (Hmb : is_Some (get_mem s !! (nxt + NODE_PREVIOUS))) by auto.
    unfold set_next, set_previous. wp_steps. rewrite u64_small by lia.
    replace (chain_initialize_loop count nxt)
      with (chain_initialize_loop count (dpred c (done ++ [nxt]))) by (by rewrite dpred_snoc).
    replace (done ++ nxt :: array_nodes (nxt + node_size) count node_size)
      with ((done ++ [nxt]) ++ array_nodes (nxt + node_size) count node_size) in *
      by (by rewrite <- app_assoc).
    apply IH; rewrite ?get_set_mem.
    + lia.
    + lia.
    + done.
    + intros k Hk. mapped || (repeat apply is_Some_insert; auto).
    + match goal with |- links _ _ ?m1 _ =>
        pose proof (dlist_join NODE_NEXT NODE_PREVIOUS m1 c done [] nxt) as Hj end.
      rewrite app_nil_r in Hj. apply Hj; clear Hj.
      * rewrite <- app_assoc in Hs. eapply front_keep; [exact Hs| |].
        { right; right. exists nxt. set_solver. }
        eapply front_keep; [exact Hs|by left|done].
      * done.
      * rewrite dsucc_nil. unfold linked, NODE_NEXT, NODE_PREVIOUS in *. mem_lookup. done.
    + unfold NODE_NEXT, NODE_PREVIOUS in *. by mem_lookup.
    + intros m' Hl' Hn' Hch. rewrite set_set_mem. apply HQ; [done|done|].
      eapply changes_trans; [|exact Hch]. by repeat apply changes_insert; auto using changes_refl.
Qed.

Lemma chain_initialize_spec s start count node_size Q :
  0 <= node_size -> 0 <= start -> start + Z.of_nat count * node_size < 2 ^ 64 ->
  let ns := array_nodes start count node_size in
  dsep' ns -> (forall k, k ∈ chain_words c ns -> is_Some (get_mem s !! k)) ->
  (forall m', chain m' c ns -> changes (chain_words c ns) (get_mem s) m' ->
    Q tt (set_mem m' s)) ->
  wp (_Chain_Initialize c start count node_size) Q s.
Proof.
  intros Hsz H0 Hbd ns Hs Hmap HQ. unfold _Chain_Initialize.
  assert (Hw : c + NODE_PREVIOUS ∈ chain_words c ns)
    by (apply elem_of_chain_words; unfold NODE_PREVIOUS; auto).
  pose proof (Hmap _ Hw) as Hm8. unfold set_previous, set_next, _Chain_Head, _Chain_Tail.
  wp_steps. change c with (dpred c []) at 1.
  apply (chain_initialize_loop_spec _ []); rewrite ?get_set_mem; try done.
  - intros k Hk. apply is_Some_insert. auto.
  - by mem_lookup.
  - cbn [app]. fold ns. intros m' Hl Hn Hch. rewrite set_set_mem.
    pose proof (elem_pred_word ns ns ltac:(done)) as Ha.
    pose proof (elem_succ_word [] ns ltac:(set_solver)) as Hb. rewrite dsucc_nil in Hb.
    assert (Hma : is_Some (m' !! (dpred c ns + NODE_NEXT)))
      by (apply Hch, is_Some_insert; auto).
    assert (Hmb : is_Some (m' !! (c + 8 + NODE_PREVIOUS)))
      by (apply Hch, is_Some_insert; auto).
    pose proof (pred_succ_words ns [] ltac:(by rewrite app_nil_r)) as (Hp1 & _ & Hp3).
    rewrite dsucc_nil in *. wp_steps. apply HQ.
    + split; [done|split].
      * rewrite <- (app_nil_r ns) at 3.
        apply (dlist_link2 _ _ m' c ns [] (c + 8)); [by rewrite app_nil_r|done|done].
      * unfold NODE_NEXT, NODE_PREVIOUS in *. by mem_lookup.
    + do 2 (apply changes_insert; [done|]).
      eapply changes_trans; [|exact Hch]. by apply changes_insert, changes_refl.
Qed.
End specs.

(** * Sequences of chain operations *)

Inductive op :=
  | op_append (n : Z)
  | op_prepend (n : Z)
  | op_insert (after_node n : Z)
  | op_extract (n : Z)
  | op_get.

Section traces.
Context {S : Type} `{HasMem S}.
Context (c : Z) (U : list Z).

Definition exec (o : op) : M S Z :=
  match o with
  | op_append n => _Chain_Append_unprotected c n;; mret n
  | op_prepend n => _Chain_Prepend_unprotected c n;; mret n
  | op_insert a n => _Chain_Insert_unprotected a n;; mret n
  | op_extract n => _Chain_Extract_unprotected n;; mret n
  | op_get => _Chain_Get_unprotected c
  end.

Fixpoint run (ops : list op) : M S (list Z) :=
  match ops with
  | [] => mret []
  | o :: ops' => r ← exec o; rs ← run ops'; mret (r :: rs)
  end.

Fixpoint insert_after (a n : Z) (ns : list Z) : list Z :=
  match ns with
  | [] => []
  | x :: ns' => if decide (x = a) then x :: n :: ns' else x :: insert_after a n ns'
  end.

(** The list operation, [None] when the caller breaks the contract: a
    node may be added only when it is off the chain, and extracted only
    when it is on it. *)
Definition spec_step (ns : list Z) (o : op) : option (Z * list Z) :=
  match o with
  | op_append n =>
      if decide (n ∈ U /\ n ∉ ns) then Some (n, ns ++ [n]) else None
  | op_prepend n =>
      if decide (n ∈ U /\ n ∉ ns) then Some (n, n :: ns) else None
  | op_insert a n =>
      if decide ((n ∈ U) /\ (n ∉ ns) /\ (a ∈ ns)) then Some (n, insert_after a n ns) else None
  | op_extract n =>
      if decide (n ∈ ns) then Some (n, filter (.≠ n) ns) else None
  | op_get => Some (default NULL (head ns), tail ns)
  end.

Fixpoint spec (ns : list Z) (ops : list op) : option (list Z * list Z) :=
  match ops with
  | [] => Some ([], ns)
  | o :: ops' =>
      '(r, ns') ← spec_step ns o;
      '(rs, ns'') ← spec ns' ops';
      Some (r :: rs, ns'')
  end.

(** The nodes of [U] and the control block are mapped and share no word. *)
Definition universe (m : mem) : Prop :=
  dsep NODE_NEXT NODE_PREVIOUS c U (c + 8) /\
  (forall k, k ∈ chain_words c U -> is_Some (m !! k)).

Definition inv (m : mem) (ns : list Z) : Prop :=
  universe m /\ chain m c ns /\ NoDup ns /\ ns ⊆ U.

Lemma universe_off m ns n :
  universe m -> NoDup ns -> ns ⊆ U -> n ∈ U -> n ∉ ns -> off_chain m c ns n.
Proof.
  intros ((H1 & H2 & H3) & Hm) Hnd Hsub Hn Hni.
  destruct (elem_node_word c n U Hn). apply NoDup_cons in H1 as [H1 _].
  apply NoDup_app in H2 as (_ & H2 & _). specialize (H2 n Hn).
  split_and!; try (by apply Hm).
  - set_solver.
  - set_solver.
  - intros y Hy. apply H3; set_solver.
  - intros x Hx. apply H3; set_solver.
Qed.

Lemma universe_changes W m m' : changes W m m' -> universe m -> universe m'.
Proof. intros [_ Hc] [H1 H2]. split; [done|]. auto. Qed.

Lemma insert_after_split a n ns : a ∈ ns -> exists l1 l2,
  ns = (l1 ++ [a]) ++ l2 /\ insert_after a n ns = (l1 ++ [a]) ++ n :: l2.
Proof.
  induction ns as [|x ns IH]; [set_solver|]. intros Ha. cbn. case_decide as Hx.
  - subst. by exists [], ns.
  - destruct IH as (l1 & l2 & -> & ->); [set_solver|]. by exists (x :: l1), l2.
Qed.

Lemma filter_ne_id (n : Z) (l : list Z) : n ∉ l -> filter (.≠ n) l = l.
Proof.
  induction l as [|x l IH]; [done|]. intros Hn.
  rewrite filter_cons_True by set_solver. rewrite IH; [done|set_solver].
Qed.

Lemma filter_ne_split (n : Z) (l1 l2 : list Z) : NoDup (l1 ++ n :: l2) ->
  filter (.≠ n) (l1 ++ n :: l2) = l1 ++ l2.
Proof.
  intros Hnd. assert (Hni : n ∉ l1 ++ l2).
  { rewrite <- Permutation_middle in Hnd. by apply NoDup_cons in Hnd as [? _]. }
  rewrite filter_app, filter_cons_False by naive_solver.
  rewrite <- filter_app. by apply filter_ne_id.
Qed.

Lemma exec_refines s ns o r ns' : inv (get_mem s) ns ->
  spec_step ns o = Some (r, ns') ->
  wp (exec o) (fun r' s' => r' = r /\ inv (get_mem s') ns') s.
Proof.
  intros (HU & Hc & Hnd & Hsub) Hst.
  assert (Hadd : forall l1 n l2, ns = l1 ++ l2 -> n ∈ U -> n ∉ ns ->
    forall m', chain m' c (l1 ++ n :: l2) ->
      changes (chain_words c (l1 ++ n :: l2)) (get_mem s) m' ->
      inv (get_mem (set_mem m' s)) (l1 ++ n :: l2)).
  { intros l1 n l2 -> Hn Hni m' Hc' Hch. rewrite get_set_mem. split_and!.
    - by eapply universe_changes.
    - done.
    - rewrite <- Permutation_middle. by apply NoDup_cons.
    - set_solver. }
  destruct o as [n|n|a n|n|]; cbn in Hst |- *.
  - case_decide as Hd; [|done]. destruct Hd as [Hn Hni]. simplify_eq.
    apply wp_bind. eapply append_spec; [eauto|eauto using universe_off|].
    intros m' Hc' Hch. apply wp_ret. split; [done|].
    by apply (Hadd ns _ []); rewrite ?app_nil_r.
  - case_decide as Hd; [|done]. destruct Hd as [Hn Hni]. simplify_eq.
    apply wp_bind. eapply prepend_spec; [eauto|eauto using universe_off|].
    intros m' Hc' Hch. apply wp_ret. split; [done|]. by apply (Hadd []).
  - case_decide as Hd; [|done]. destruct Hd as (Hn & Hni & Ha). simplify_eq.
    destruct (insert_after_split a r ns Ha) as (l1 & l2 & E & ->).
    apply wp_bind. subst ns. replace (_Chain_Insert_unprotected a r)
      with (_Chain_Insert_unprotected (S := S) (dpred c (l1 ++ [a])) r)
      by (by rewrite dpred_snoc).
    eapply insert_spec; [eauto|eauto using universe_off|].
    intros m' Hc' Hch. apply wp_ret. split; [done|]. by apply Hadd.
  - case_decide as Hn; [|done]. simplify_eq.
    apply list_elem_of_split in Hn as (l1 & l2 & ->).
    rewrite filter_ne_split by done. apply wp_bind. eapply extract_spec; [done|].
    intros m' Hc' Hch. apply wp_ret. rewrite get_set_mem. split; [done|]. split_and!.
    + by eapply universe_changes.
    + done.
    + eapply sublist_NoDup; [exact Hnd|]. apply sublist_app; [done|]. by apply sublist_cons.
    + set_solver.
  - simplify_eq. eapply get_spec; [done|]. intros m' Hc' Hch.
    rewrite get_set_mem. split; [done|]. split_and!.
    + by eapply universe_changes.
    + done.
    + destruct ns; [done|]. by apply NoDup_cons in Hnd as [_ ?].
    + destruct ns; set_solver.
Qed.

Lemma chain_run_refines ops s ns rs ns' : inv (get_mem s) ns ->
  spec ns ops = Some (rs, ns') ->
  wp (run ops) (fun rs' s' => rs' = rs /\ inv (get_mem s') ns') s.
Proof.
  revert s ns rs. induction ops as [|o ops IH]; cbn; intros s ns rs Hi Hs.
  - simplify_eq. by apply wp_ret.
  - destruct (spec_step ns o) as [[r ns1]|] eqn:Hst; cbn in Hs; [|done].
    destruct (spec ns1 ops) as [[rs1 ns2]|] eqn:Hsp; cbn in Hs; [|done]. simplify_eq.
    apply wp_bind. eapply wp_mono; [by eapply exec_refines|]. intros r' s' [-> Hi'].
    apply wp_bind. eapply wp_mono; [by eapply IH|]. intros rs' s'' [-> Hi''].
    by apply wp_ret.
Qed.

(** C16. Any sequence of appends, prepends, insertions, extractions and
    gets that respects the contract of the chain API (nodes are added only
    while off the chain and extracted only while on it), run on the linked
    memory representation of a freshly initialized chain, returns exactly
    the values the same operations return on a plain list and leaves a
    well-formed chain of that list; no step touches unmapped memory. *)
Theorem chain_trace_refines s ops rs ns :
  universe (get_mem s) -> spec [] ops = Some (rs, ns) ->
  wp (_Chain_Initialize_empty c;; run ops)
     (fun rs' s' => rs' = rs /\ chain (get_mem s') c ns) s.
Proof.
  intros HU Hsp. apply wp_bind. apply initialize_empty_spec.
  { intros k Hk. apply HU, elem_of_chain_words. set_solver. }
  intros m' Hc Hch. eapply wp_mono; [eapply chain_run_refines; [|done]|].
  - rewrite get_set_mem. split_and!; [by eapply universe_changes|done| |set_solver].
    apply NoDup_nil_2.
  - intros rs' s' (? & _ & ? & _). done.
Qed.
End traces.

(** ** A concrete memory: a chain control at 1000, nodes at 2000 and 2016 *)

Definition sample_mem : mem :=
  list_to_map ((fun k => (k, 77)) <$> chain_words 1000 [2000; 2016]).

Lemma sample_universe : universe 1000 [2000; 2016] sample_mem.
Proof.
  split; [split; [|split]|].
  - apply (bool_decide_unpack _). vm_compute. reflexivity.
  - apply (bool_decide_unpack _). vm_compute. reflexivity.
  - intros x y Hx Hy. set_unfold in Hx. set_unfold in Hy. unfold NODE_NEXT, NODE_PREVIOUS. lia.
  - apply Forall_forall, (bool_decide_unpack _). vm_compute. reflexivity.
Qed.

Lemma chain_trace_refines_witness :
  spec [2000; 2016] [] [op_append 2000; op_prepend 2016; op_extract 2000; op_get; op_get]
    = Some ([2000; 2016; 2000; 2016; NULL], []) /\
  wp (S := mem) (_Chain_Initialize_empty 1000;;
        run 1000 [op_append 2000; op_prepend 2016; op_extract 2000; op_get; op_get])
     (fun rs s => rs = [2000; 2016; 2000; 2016; NULL] /\ chain s 1000 []) sample_mem.
Proof.
  assert (H : spec [2000; 2016] [] [op_append 2000; op_prepend 2016; op_extract 2000; op_get; op_get]
    = Some ([2000; 2016; 2000; 2016; NULL], [])) by (vm_compute; reflexivity).
  split; [exact H|].
  exact (chain_trace_refines (S := mem) 1000 [2000; 2016] sample_mem _ _ _ sample_universe H).
Defined.

(** * Ordered insertion keeps a chain sorted *)

Section sorted.
Context {S : Type} `{HasMem S}.
Context (c : Z) (key : Z -> Z).

Definition key_le (x y : Z) : Prop := key x <= key y.

Lemma insert_before_split f n ns : exists l1 l2, ns = l1 ++ l2 /\
  insert_before f n ns = l1 ++ n :: l2 /\
  (forall x, x ∈ l1 -> f x = false) /\ (forall x, head l2 = Some x -> f x = true).
Proof.
  induction ns as [|x ns IH]; cbn; [exists [], []; set_solver|].
  destruct (f x) eqn:Hf.
  - exists [], (x :: ns). split_and!; try done; [set_solver|naive_solver].
  - destruct IH as (l1 & l2 & -> & -> & H1 & H2). exists (x :: l1), l2.
    split_and!; try done. set_solver.
Qed.

(** [_Chain_Insert_ordered_unprotected] with the order "the new key is
    strictly smaller" keeps a chain sorted by key and puts the new node
    behind every node of an equal or smaller key (first in, first out
    among equals) and before every node of a greater key. *)
Theorem chain_insert_ordered_stable s ns n (order : Z -> M S bool) :
  chain (get_mem s) c ns -> off_chain (get_mem s) c ns n ->
  Z.of_nat (length ns) < 2 ^ 64 ->
  (forall x, x ∈ ns -> order x s = Some (key n <? key x, s)) ->
  StronglySorted key_le ns ->
  wp (_Chain_Insert_ordered_unprotected c n order)
     (fun _ s' => exists l1 l2, ns = l1 ++ l2 /\
        chain (get_mem s') c (l1 ++ n :: l2) /\
        StronglySorted key_le (l1 ++ n :: l2) /\
        Forall (fun x => key x <= key n) l1 /\ Forall (fun x => key n < key x) l2) s.
Proof.
  intros Hc Hoff Hlen Hord Hsort.
  apply (insert_ordered_spec c s ns n order (fun x => key n <? key x)); [done..|]. intros m' Hc' _. rewrite get_set_mem.
  destruct (insert_before_split (fun x => key n <? key x) n ns)
    as (l1 & l2 & -> & E & H1 & H2). rewrite E in Hc'. exists l1, l2.
  assert (Hl1 : Forall (fun x => key x <= key n) l1).
  { apply Forall_forall. intros x Hx. specialize (H1 x Hx). bool_hyps. lia. }
  apply StronglySorted_app in Hsort as (Hcross & Hs1 & Hs2).
  assert (Hl2 : Forall (fun x => key n < key x) l2).
  { destruct l2 as [|y l2]; [done|]. specialize (H2 y eq_refl). bool_hyps.
    apply StronglySorted_inv in Hs2 as [_ Hy]. constructor; [done|].
    eapply Forall_impl; [exact Hy|]. unfold key_le. intros x Hx. cbn in *. lia. }
  split_and!; try done. apply StronglySorted_app. split_and!; try done.
  - intros x y Hx [->|Hy]%elem_of_cons; [|by apply Hcross].
    rewrite Forall_forall in Hl1. by apply Hl1.
  - constructor; [done|]. eapply Forall_impl; [exact Hl2|]. unfold key_le.
    intros x Hx. cbn in *. lia.
Qed.
End sorted.

Lemma sample_chain_one :
  wp (S := mem) (_Chain_Initialize_empty 1000;; _Chain_Append_unprotected 1000 2000)
    (fun _ m => chain m 1000 [2000] /\ off_chain m 1000 [2000] 2016) sample_mem.
Proof.
  apply wp_bind, initialize_empty_spec.
  { intros k Hk. apply sample_universe, elem_of_chain_words. set_solver. }
  intros m' Hc Hch. cbn [set_mem mem_HasMem].
  pose proof (universe_changes _ _ _ _ _ Hch sample_universe) as HU.
  eapply append_spec; [done|eapply universe_off; [exact HU|constructor|set_solver..]|].
  intros m'' Hc' Hch'. cbn [set_mem mem_HasMem]. split; [done|].
  eapply universe_off; [by eapply universe_changes|apply NoDup_singleton|set_solver..].
Qed.

Definition sample_key (n : Z) : Z := if n =? 2000 then 5 else 3.

Lemma chain_insert_ordered_stable_witness :
  exists m : mem, StronglySorted (key_le sample_key) [2000] /\
    wp (S := mem) (_Chain_Insert_ordered_unprotected 1000 2016
          (fun x => mret (sample_key 2016 <? sample_key x)))
       (fun _ s' => exists l1 l2, [2000] = l1 ++ l2 /\ chain s' 1000 (l1 ++ 2016 :: l2) /\
          StronglySorted (key_le sample_key) (l1 ++ 2016 :: l2) /\
          Forall (fun x => sample_key x <= sample_key 2016) l1 /\
          Forall (fun x => sample_key 2016 < sample_key x) l2) m.
Proof.
  pose proof sample_chain_one as Hw. apply wp_run in Hw as (u & m & _ & Hc & Hoff).
  exists m. assert (Hs : StronglySorted (key_le sample_key) [2000]) by (repeat constructor).
  split; [exact Hs|].
  eapply wp_mono; [apply (chain_insert_ordered_stable (S := mem) 1000 sample_key m [2000] 2016
    (fun x => mret (sample_key 2016 <? sample_key x))); [exact Hc|exact Hoff|cbn; lia|done|exact Hs]|].
  intros a s' H. exact H.
Defined.

End Chain.
