(* ===== verification/Priority.v ===== *)
(** Priority nodes and aggregations (score/priority.h, score/priorityimpl.h).

    The priority of a thread, and that of a thread queue with priority
    inheritance, is an aggregation of priority nodes: a red-black tree of
    contributors and a node of its own, whose priority is the minimum of the
    contributors and which may contribute to a further aggregation.

    An aggregation starts with its own node, so that both have the same
    address.  The members of a [Priority_Node] are kept apart: the tree links
    in [p_nodes], the priority behind the accessor of [HasPriority], since a
    user may keep it elsewhere.  The [Chain] variant of the union belongs to
    the users that put nodes on a chain.  One processor, no debug support. *)

From S2P Require Import Prelude RBTree.

Module Priority.
Import RBTree.

(** * Data *)

Inductive Priority_Action_type :=
  | PRIORITY_ACTION_ADD
  | PRIORITY_ACTION_CHANGE
  | PRIORITY_ACTION_REMOVE
  | PRIORITY_ACTION_INVALID.

(** [Contributors] is the root of the tree. *)
Record Priority_Aggregation := {
  Contributors : Z;
  Action_node : Z;
  Action_type : Priority_Action_type;
}.

Record store := {
  p_nodes : gmap Z RBTree_Node;
  p_aggrs : gmap Z Priority_Aggregation;
}.

(** A state that contains priority nodes and aggregations; [get_prio] is the
    priority of a node. *)
Class HasPriority (S : Type) := {
  get_store : S -> store;
  set_store : store -> S -> S;
  get_prio : S -> Z -> option Z;
  set_prio : Z -> Z -> S -> S;
  get_set_store t s : get_store (set_store t s) = t;
  set_set_store t t' s : set_store t (set_store t' s) = set_store t s;
  set_get_store s : set_store (get_store s) s = s;
  get_prio_set_store t s n : get_prio (set_store t s) n = get_prio s n;
  get_store_set_prio n p s : get_store (set_prio n p s) = get_store s;
  get_set_prio n p s : is_Some (get_prio s n) -> get_prio (set_prio n p s) n = Some p;
  get_set_prio_ne n n' p s : n <> n' -> get_prio (set_prio n p s) n' = get_prio s n';
}.

(** The tree of the contributors of an aggregation. *)
Definition root_of (st : store) (a : Z) : Z := from_option Contributors NULL (p_aggrs st !! a).

Definition set_root (r : Z) (o : option Priority_Aggregation) : Priority_Aggregation :=
  {| Contributors := r; Action_node := from_option Action_node NULL o;
     Action_type := from_option Action_type PRIORITY_ACTION_INVALID o |}.

#[program] Definition aggr_tree {S} `{HasPriority S} (a : Z) : HasTree S := {|
  get_tree s := {| rb_nodes := p_nodes (get_store s); rbh_root := root_of (get_store s) a |};
  set_tree t s := set_store {| p_nodes := rb_nodes t;
    p_aggrs := <[a := set_root (rbh_root t) (p_aggrs (get_store s) !! a)]> (p_aggrs (get_store s)) |} s |}.
Next Obligation.
  intros S HS a [ns r] s. cbn. rewrite get_set_store. unfold root_of. cbn. by rewrite lookup_insert_eq.
Qed.
Next Obligation.
  intros S HS a [ns r] t' s. cbn. rewrite get_set_store, set_set_store. cbn.
  rewrite lookup_insert_eq, insert_insert_eq. do 3 f_equal.
Qed.

(** * priorityimpl.h *)

Section operations.
Context {S : Type} {HP : HasPriority S} {RB : RB_Macros}.

(** [node->priority] *)
Definition node_priority (n : Z) : M S Z := fun s =>
  match get_prio s n with
  | Some p => Some (p, s)
  | None => None
  end.

Definition _Priority_Node_set_priority (node priority : Z) : M S unit :=
  node_priority node;; modify (set_prio node priority).

Definition _Priority_Node_initialize (node priority : Z) : M S unit :=
  _Priority_Node_set_priority node priority;;
  _RBTree_Initialize_node node.

Definition get_aggr (a : Z) : M S Priority_Aggregation := fun s =>
  match p_aggrs (get_store s) !! a with
  | Some g => Some (g, s)
  | None => None
  end.

(** [_RBTree_Set_off_tree] and [_RBTree_Is_node_off_tree] of a node. *)
Definition node_links (n : Z) : M S RBTree_Node := fun s =>
  match p_nodes (get_store s) !! n with
  | Some nd => Some (nd, s)
  | None => None
  end.

Definition _Priority_Node_set_inactive (node : Z) : M S unit :=
  nd ← node_links node;
  modify (fun s => set_store {| p_nodes := <[node := set_color (-1) nd]> (p_nodes (get_store s));
                                p_aggrs := p_aggrs (get_store s) |} s).

Definition _Priority_Node_is_active (node : Z) : M S bool :=
  nd ← node_links node; mret (negb (rbe_color nd =? -1)).

(** A [Priority_Actions] is a pointer to the first aggregation of a list,
    which on one processor has at most one element. *)
Definition _Priority_Actions_initialize_empty : Z := NULL.

Definition _Priority_Set_action (aggregation node : Z) (type : Priority_Action_type) : M S unit :=
  g ← get_aggr aggregation;
  modify (fun s => set_store {| p_nodes := p_nodes (get_store s);
    p_aggrs := <[aggregation := {| Contributors := Contributors g; Action_node := node; Action_type := type |}]>
                 (p_aggrs (get_store s)) |} s).

Definition _Priority_Actions_initialize_one (aggregation node : Z) (type : Priority_Action_type) : M S Z :=
  _Priority_Set_action aggregation node type;;
  mret aggregation.

Definition _Priority_Actions_is_empty (actions : Z) : bool := actions =? NULL.

(** [true] only with several processors. *)
Definition _Priority_Actions_is_valid (aggregation : Z) : bool := false.
Definition _Priority_Get_next_action (aggregation : Z) : Z := NULL.

(** Returns the aggregation and the emptied list. *)
Definition _Priority_Actions_move (actions : Z) : Z * Z := (actions, NULL).

Definition _Priority_Actions_add (actions aggregation : Z) : Z := aggregation.

Definition _Priority_Initialize_empty (aggregation : Z) : M S unit :=
  _RBTree_Initialize_node aggregation;;
  _RBTree_Initialize_empty (HT := aggr_tree aggregation).

Definition _Priority_Initialize_one (aggregation node : Z) : M S unit :=
  p ← node_priority node;
  _Priority_Node_initialize aggregation p;;
  _RBTree_Initialize_one (HT := aggr_tree aggregation) node.

Definition _Priority_Is_empty (aggregation : Z) : M S bool :=
  _RBTree_Is_empty (HT := aggr_tree aggregation).

Definition _Priority_Get_priority (aggregation : Z) : M S Z := node_priority aggregation.

Definition _Priority_Get_minimum_node (aggregation : Z) : M S Z :=
  _RBTree_Minimum (HT := aggr_tree aggregation).

(** Compares a priority with that of a node. *)
Definition _Priority_Less (left right : Z) : M S bool :=
  p ← node_priority right; mret (left <? p).

Definition _Priority_Plain_insert (aggregation node priority : Z) : M S bool :=
  _RBTree_Insert_inline (HT := aggr_tree aggregation) node (_Priority_Less priority).

Definition _Priority_Plain_extract (aggregation node : Z) : M S unit :=
  _RBTree_Extract (HT := aggr_tree aggregation) node.

Definition _Priority_Plain_changed (aggregation node : Z) : M S unit :=
  _Priority_Plain_extract aggregation node;;
  p ← node_priority node;
  _Priority_Plain_insert aggregation node p;;
  mret tt.

(** The handlers get the action list, or the structure that contains it, and
    the argument as one value [C], and return it changed. *)
Context {C : Type}.

Definition _Priority_Change_nothing (aggregation : Z) (prepend_it : bool) (c : C) : M S C := mret c.
Definition _Priority_Remove_nothing (aggregation : Z) (c : C) : M S C := mret c.

Definition _Priority_Non_empty_insert (aggregation node : Z) (c : C) (change : Z -> bool -> C -> M S C) : M S C :=
  p ← node_priority node;
  is_new_minimum ← _Priority_Plain_insert aggregation node p;
  if (is_new_minimum : bool) then
    p ← node_priority node;
    _Priority_Node_set_priority aggregation p;;
    change aggregation false c
  else mret c.

Definition _Priority_Insert (aggregation node : Z) (c : C) (add : Z -> C -> M S C) (change : Z -> bool -> C -> M S C)
    : M S C :=
  e ← _Priority_Is_empty aggregation;
  if (e : bool) then
    _Priority_Initialize_one aggregation node;;
    add aggregation c
  else _Priority_Non_empty_insert aggregation node c change.

(** What follows the removal of a node: a greater minimum is reported. *)
Definition extracted_check (aggregation node : Z) (c : C) (change : Z -> bool -> C -> M S C) : M S C :=
  min ← _Priority_Get_minimum_node aggregation;
  p ← node_priority node;
  q ← node_priority min;
  if p <? q then
    _Priority_Node_set_priority aggregation q;;
    change aggregation true c
  else mret c.

Definition _Priority_Extract (aggregation node : Z) (c : C) (remove : Z -> C -> M S C)
    (change : Z -> bool -> C -> M S C) : M S C :=
  _Priority_Plain_extract aggregation node;;
  e ← _Priority_Is_empty aggregation;
  if (e : bool) then remove aggregation c
  else extracted_check aggregation node c change.

Definition _Priority_Extract_non_empty (aggregation node : Z) (c : C) (change : Z -> bool -> C -> M S C) : M S C :=
  _Priority_Plain_extract aggregation node;;
  extracted_check aggregation node c change.

Definition _Priority_Changed (aggregation node : Z) (prepend_it : bool) (c : C) (change : Z -> bool -> C -> M S C)
    : M S C :=
  _Priority_Plain_changed aggregation node;;
  min ← _Priority_Get_minimum_node aggregation;
  p ← node_priority min;
  q ← _Priority_Get_priority aggregation;
  if negb (p =? q) then
    _Priority_Node_set_priority aggregation p;;
    change aggregation prepend_it c
  else mret c.

Definition _Priority_Replace (aggregation victim replacement : Z) : M S unit :=
  p ← node_priority victim;
  _Priority_Node_set_priority replacement p;;
  _RBTree_Replace_node (HT := aggr_tree aggregation) victim replacement.

End operations.

(** * What the operations do *)

Lemma insert_by_ext lt lt' n l : (forall m, m ∈ l -> lt m = lt' m) -> insert_by lt n l = insert_by lt' n l.
Proof.
  induction l as [|x l IH]; cbn; intros H; [done|]. rewrite (H x) by left. rewrite IH; [done|].
  intros m Hm. apply H. by right.
Qed.

Lemma insert_by_Permutation lt n l : insert_by lt n l ≡ₚ n :: l.
Proof. induction l as [|x l IH]; cbn; [done|]. destruct (lt x); [done|]. rewrite IH. apply Permutation_swap. Qed.

Lemma elem_of_insert_by lt n l x : x ∈ insert_by lt n l <-> x = n \/ x ∈ l.
Proof. induction l as [|y l IH]; cbn; [set_solver|]. destruct (lt y); set_solver. Qed.

Lemma sorted_by_ext key key' l : (forall n, n ∈ l -> key' n = key n) -> sorted_by key l -> sorted_by key' l.
Proof.
  intros H Hs. induction Hs as [|x l Hs IH Hf]; constructor; [apply IH; set_solver|].
  rewrite Forall_forall in Hf |- *. intros y Hy. rewrite !H by set_solver. by apply Hf.
Qed.

Lemma sorted_by_filter key P `{!forall x, Decision (P x)} l : sorted_by key l -> sorted_by key (filter P l).
Proof.
  intros Hs. induction Hs as [|x l Hs IH Hf]; [constructor|]. rewrite filter_cons. case_decide; [|done].
  constructor; [done|]. rewrite Forall_forall in Hf |- *. intros y Hy. apply Hf. by apply list_elem_of_filter in Hy as [_ ?].
Qed.

Section specs.
Context {S : Type} {HP : HasPriority S} {RB : RB_Macros}.

Definition prio (s : S) (n : Z) : Z := default 0 (get_prio s n).

Abbreviation tree_of a s := (get_tree (HasTree := aggr_tree a) s).

(** The contributors of [a] are the nodes [l], in this order. *)
Record aggr_shape (s : S) (a : Z) (l : list Z) : Prop := {
  as_tree : exists t, tree_rep (tree_of a s) t /\ inorder t = l;
  as_balanced : balanced (tree_of a s);
  as_prio n : n ∈ l -> is_Some (get_prio s n);
  as_range : Forall (fun n => 0 < n < 2 ^ 64) l;
  as_self : a ∉ l;
  as_node : is_Some (get_prio s a);
  as_aggr : is_Some (p_aggrs (get_store s) !! a);
}.

(** They are sorted, and the aggregation has the priority of the first. *)
Definition aggr_sorted (s : S) (a : Z) (l : list Z) : Prop := aggr_shape s a l /\ sorted_by (prio s) l.

Definition aggr_ok (s : S) (a : Z) (l : list Z) : Prop :=
  aggr_sorted s a l /\ forall n, head l = Some n -> prio s a = prio s n.

(** [s'] differs from [s] only in the root of [a] and in the links of the
    nodes [l]. *)
Definition touch (a : Z) (l : list Z) (s s' : S) : Prop :=
  exists st, s' = set_store st s /\
    (forall b, b <> a -> p_aggrs st !! b = p_aggrs (get_store s) !! b) /\
    (forall g, p_aggrs (get_store s) !! a = Some g -> exists r, p_aggrs st !! a = Some (set_root r (Some g))) /\
    (forall k, k ∉ l -> p_nodes st !! k = p_nodes (get_store s) !! k) /\
    (forall k, is_Some (p_nodes (get_store s) !! k) -> is_Some (p_nodes st !! k)).

Lemma touch_prio a l s s' n : touch a l s s' -> get_prio s' n = get_prio s n.
Proof. intros (st & -> & _). apply get_prio_set_store. Qed.

Lemma touch_key a l s s' n : touch a l s s' -> prio s' n = prio s n.
Proof. intros H. unfold prio. by rewrite (touch_prio a l s s' n H). Qed.

Lemma touch_set_tree a l t s : is_Some (p_aggrs (get_store s) !! a) -> same_outside l (tree_of a s) t ->
  touch a l s (set_tree (HasTree := aggr_tree a) t s).
Proof.
  intros [g Hg] [H1 H2]. eexists. split; [reflexivity|]. cbn. rewrite Hg. split_and!.
  - intros b Hb. by apply lookup_insert_ne.
  - intros g' [= <-]. exists (rbh_root t). by rewrite lookup_insert_eq.
  - done.
  - done.
Qed.

Lemma touch_aggr a l s s' b : touch a l s s' -> is_Some (p_aggrs (get_store s) !! b) -> is_Some (p_aggrs (get_store s') !! b).
Proof.
  intros (st & -> & A & B & _) [g Hg]. rewrite get_set_store. destruct (decide (b = a)) as [->|Hb].
  - destruct (B g Hg) as [r ->]. by eexists.
  - rewrite A, Hg by done. by eexists.
Qed.

Lemma touch_node a l s s' k : touch a l s s' -> is_Some (p_nodes (get_store s) !! k) -> is_Some (p_nodes (get_store s') !! k).
Proof. intros (st & -> & _ & _ & _ & D) Hk. rewrite get_set_store. auto. Qed.

Lemma touch_mono a l l' s s' : l ⊆ l' -> touch a l s s' -> touch a l' s s'.
Proof.
  intros Hl (st & ? & ? & ? & H & ?). exists st. split_and!; try done. intros k Hk. apply H. set_solver.
Qed.

Lemma touch_trans a l s1 s2 s3 : touch a l s1 s2 -> touch a l s2 s3 -> touch a l s1 s3.
Proof.
  intros (t1 & -> & A1 & B1 & C1 & D1) (t2 & -> & A2 & B2 & C2 & D2). rewrite get_set_store in *.
  exists t2. rewrite set_set_store. split_and!; [done|..].
  - intros b Hb. by rewrite A2, A1.
  - intros g Hg. destruct (B1 g Hg) as [r Hr]. destruct (B2 _ Hr) as [r' Hr']. exists r'. by rewrite Hr'.
  - intros k Hk. by rewrite C2, C1.
  - auto.
Qed.

(** Only the root of an aggregation, the links of its contributors and their
    priorities matter. *)
Lemma shape_frame s s' a l :
  Contributors <$> p_aggrs (get_store s') !! a = Contributors <$> p_aggrs (get_store s) !! a ->
  (forall n, n ∈ l -> p_nodes (get_store s') !! n = p_nodes (get_store s) !! n) ->
  (forall n, n ∈ a :: l -> get_prio s' n = get_prio s n) -> aggr_shape s a l -> aggr_shape s' a l.
Proof.
  intros Ea En Ep [(t & Ht & Hi) Hbal Hp Hr Hs Hn Ha].
  assert (Er : root_of (get_store s') a = root_of (get_store s) a).
  { unfold root_of. destruct (p_aggrs (get_store s') !! a), (p_aggrs (get_store s) !! a); try discriminate Ea; [|done].
    by injection Ea. }
  split; rewrite ?Ep by left; try done.
  - exists t. split; [|done]. destruct Ht as [Ht Hnd]. split; [|done]. cbn in *. rewrite Er.
    eapply tree_at_frame; [|exact Ht]. by rewrite Hi.
  - eapply balanced_frame; [exact Hbal|exact Ht|done|]. by rewrite Hi.
  - intros n Hin. rewrite Ep by (by right). auto.
  - destruct Ha as [g Hg]. rewrite Hg in Ea. by destruct (p_aggrs (get_store s') !! a).
Qed.

Lemma aggr_ok_frame s s' a l :
  Contributors <$> p_aggrs (get_store s') !! a = Contributors <$> p_aggrs (get_store s) !! a ->
  (forall n, n ∈ l -> p_nodes (get_store s') !! n = p_nodes (get_store s) !! n) ->
  (forall n, n ∈ a :: l -> get_prio s' n = get_prio s n) -> aggr_ok s a l -> aggr_ok s' a l.
Proof.
  intros Ea En Ep [[Hsh Hs] Hmin]. split; [split; [by eapply shape_frame|]|].
  - eapply sorted_by_ext; [|exact Hs]. intros n Hn. unfold prio. rewrite Ep; [done|by right].
  - intros n Hn. specialize (Hmin n Hn). destruct l as [|x l]; [done|]. injection Hn as ->. unfold prio in *.
    by rewrite !Ep by set_solver.
Qed.

Lemma aggr_sorted_local s s' a l : p_aggrs (get_store s') !! a = p_aggrs (get_store s) !! a ->
  (forall n, n ∈ l -> p_nodes (get_store s') !! n = p_nodes (get_store s) !! n) ->
  (forall n, n ∈ a :: l -> get_prio s' n = get_prio s n) -> aggr_sorted s a l -> aggr_sorted s' a l.
Proof.
  intros Ea En Ep [Hsh Hs]. split; [eapply shape_frame; [by rewrite Ea|done..]|].
  eapply sorted_by_ext; [|exact Hs]. intros n Hn. unfold prio. rewrite Ep; [done|by right].
Qed.

Lemma aggr_ok_ext s s' a l : get_store s' = get_store s -> (forall n, get_prio s' n = get_prio s n) ->
  aggr_ok s a l -> aggr_ok s' a l.
Proof.
  intros E Ep [Hs Hm]. split; [by apply (aggr_sorted_local s); rewrite ?E|]. unfold prio in *. intros n Hn. rewrite !Ep. auto.
Qed.

Lemma shape_set_prio s a l n p : aggr_shape s a l -> is_Some (get_prio s n) -> aggr_shape (set_prio n p s) a l.
Proof.
  intros [Htr Hbal Hp Hr Hs Hn Ha] Hin.
  assert (E : tree_of a (set_prio n p s) = tree_of a s) by (cbn; by rewrite get_store_set_prio).
  assert (Hset : forall k, is_Some (get_prio s k) -> is_Some (get_prio (set_prio n p s) k)).
  { intros k Hk. destruct (decide (n = k)) as [<-|]; [by rewrite get_set_prio|by rewrite get_set_prio_ne]. }
  split; try done.
  - by rewrite E.
  - by rewrite E.
  - auto.
  - auto.
  - by rewrite get_store_set_prio.
Qed.

Lemma prio_set_prio s n p : is_Some (get_prio s n) -> prio (set_prio n p s) n = p.
Proof. intros H. unfold prio. by rewrite get_set_prio. Qed.

Lemma prio_set_prio_ne s n m p : n <> m -> prio (set_prio n p s) m = prio s m.
Proof. intros H. unfold prio. by rewrite get_set_prio_ne. Qed.

Lemma shape_length s a l : aggr_shape s a l -> Z.of_nat (length l) < 2 ^ 64.
Proof. intros [(t & [_ Hnd] & <-) _ _ Hr _ _ _]. by apply addresses_bound. Qed.

Lemma shape_NoDup s a l : aggr_shape s a l -> NoDup l.
Proof. by intros [(t & [_ Hnd] & <-) _ _ _ _ _ _]. Qed.

Lemma shape_nodes s a l n : aggr_shape s a l -> n ∈ l -> is_Some (p_nodes (get_store s) !! n).
Proof. intros [(t & [Ht _] & <-) _ _ _ _ _ _] Hn. by apply (tree_at_dom _ _ _ _ _ Ht Hn). Qed.

(** ** Elementary operations *)

Lemma wp_node_priority n (Q : Z -> S -> Prop) s : is_Some (get_prio s n) -> Q (prio s n) s -> wp (node_priority n) Q s.
Proof. unfold prio, wp, node_priority. by intros [p ->]. Qed.

Lemma wp_set_priority n p (Q : unit -> S -> Prop) s : is_Some (get_prio s n) -> Q tt (set_prio n p s) ->
  wp (_Priority_Node_set_priority n p) Q s.
Proof. intros Hn HQ. apply wp_bind. by apply wp_node_priority. Qed.

Lemma wp_minimum a l n (Q : Z -> S -> Prop) s : aggr_shape s a l -> head l = Some n -> Q n s ->
  wp (_Priority_Get_minimum_node a) Q s.
Proof.
  intros [(t & Ht & Hi) _ _ _ _ _ _] Hh HQ. apply (minimum_spec (HT := aggr_tree a) t); [done|]. by rewrite Hi, Hh.
Qed.

Lemma wp_is_empty a l (Q : bool -> S -> Prop) s : aggr_shape s a l -> Q (bool_decide (l = [])) s ->
  wp (_Priority_Is_empty a) Q s.
Proof.
  intros [(t & [Ht _] & Hi) _ _ _ _ _ _] HQ. apply wp_bind, wp_gets, wp_ret.
  replace (_ =? NULL) with (bool_decide (l = [])); [done|]. subst l. destruct t as [|l n r]; cbn in Ht |- *.
  - rewrite Ht. done.
  - destruct Ht as (-> & Hn & _). apply Z.eqb_neq in Hn as ->. apply bool_decide_eq_false. by destruct (inorder l).
Qed.

Lemma plain_insert_spec a n l (Q : bool -> S -> Prop) s :
  aggr_sorted s a l -> n ∉ l -> n <> a -> 0 < n < 2 ^ 64 -> is_Some (get_prio s n) -> is_Some (p_nodes (get_store s) !! n) ->
  (forall s', let l' := insert_by (fun m => prio s n <? prio s m) n l in
    aggr_sorted s' a l' -> touch a l' s s' -> Q (bool_decide (head l' = Some n)) s') ->
  wp (_Priority_Plain_insert a n (prio s n)) Q s.
Proof.
  intros [Hsh Hs] Hn Hna Hr Hp Hnd HQ. pose proof Hsh as [(t & Ht & Hi) Hbal Hps Hrs Hself Hnode Haggr].
  eapply (insert_inline_spec (prio s) (HT := aggr_tree a)) with (tr := t); try done.
  - by rewrite Hi.
  - rewrite Hi. by eapply shape_length.
  - unfold NULL. lia.
  - by rewrite Hi.
  - intros m Hm. rewrite Hi in Hm. specialize (Hps m Hm). unfold _Priority_Less, node_priority, mbind, M_bind.
    unfold prio. by destruct Hps as [p ->].
  - intros t' tr' Hb' Ht' Hi' Hso. rewrite Hi in Hi'. rewrite Hi'.
    pose proof (touch_set_tree a _ t' s Haggr Hso) as Htouch. rewrite Hi' in Htouch.
    apply HQ; [|done]. split.
    + split; rewrite ?(touch_prio _ _ _ _ _ Htouch); try done.
      * exists tr'. by rewrite (@get_set_tree S (aggr_tree a)).
      * by rewrite (@get_set_tree S (aggr_tree a)).
      * intros m Hm. rewrite (touch_prio _ _ _ _ _ Htouch). apply elem_of_insert_by in Hm as [->|Hm]; auto.
      * apply Forall_forall. intros m Hm. rewrite Forall_forall in Hrs. apply elem_of_insert_by in Hm as [->|Hm]; auto.
      * rewrite elem_of_insert_by. naive_solver.
      * by eapply touch_aggr.
    + eapply sorted_by_ext; [intros m _; apply (touch_key _ _ _ _ _ Htouch)|]. by apply insert_by_sorted.
Qed.

Lemma plain_extract_spec a n l (Q : unit -> S -> Prop) s : aggr_shape s a l -> n ∈ l ->
  (forall s', aggr_shape s' a (filter (fun m => m <> n) l) -> touch a l s s' -> Q tt s') ->
  wp (_Priority_Plain_extract a n) Q s.
Proof.
  intros Hsh Hn HQ. pose proof Hsh as [(t & Ht & Hi) Hbal Hps Hrs Hself Hnode Haggr].
  eapply (rbtree_extract_spec (HT := aggr_tree a)); [done|exact Ht|by rewrite Hi|].
  intros t' tr' Hb' Ht' Hi' Hso. rewrite Hi in *. pose proof (touch_set_tree a _ t' s Haggr Hso) as Htouch.
  assert (Hsub : forall m, m ∈ filter (fun m => m <> n) l -> m ∈ l) by (intros m Hm; by apply list_elem_of_filter in Hm as [_ ?]).
  apply HQ; [|done]. split; rewrite ?(touch_prio _ _ _ _ _ Htouch); try done.
  - exists tr'. by rewrite (@get_set_tree S (aggr_tree a)).
  - by rewrite (@get_set_tree S (aggr_tree a)).
  - intros m Hm. rewrite (touch_prio _ _ _ _ _ Htouch). auto.
  - apply Forall_forall. intros m Hm. rewrite Forall_forall in Hrs. auto.
  - auto.
  - by eapply touch_aggr.
Qed.

Lemma plain_changed_spec a n p l (Q : unit -> S -> Prop) s : aggr_sorted s a l -> n ∈ l ->
  let s1 := set_prio n p s in
  let l' := insert_by (fun m => p <? prio s m) n (filter (fun m => m <> n) l) in
  (forall s', aggr_sorted s' a l' -> touch a l s1 s' -> Q tt s') ->
  wp (_Priority_Plain_changed a n) Q s1.
Proof.
  intros [Hsh Hs] Hn s1 l' HQ. pose proof (as_prio _ _ _ Hsh n Hn) as Hp.
  pose proof (shape_set_prio s a l n p Hsh Hp) as Hsh1. fold s1 in Hsh1.
  assert (Hself : n <> a) by (intros ->; by apply (as_self _ _ _ Hsh)).
  apply wp_bind. eapply plain_extract_spec; [exact Hsh1|exact Hn|]. intros s2 Hsh2 Ht2.
  pose proof (touch_key _ _ _ _ n Ht2) as E2. unfold s1 in E2. rewrite prio_set_prio in E2 by done.
  assert (Hp2 : is_Some (get_prio s2 n)). { rewrite (touch_prio _ _ _ _ n Ht2). by apply (as_prio _ _ _ Hsh1). }
  assert (Hkey : forall m, m ∈ filter (fun m => m <> n) l -> prio s2 m = prio s m).
  { intros m [Hm _]%list_elem_of_filter. rewrite (touch_key _ _ _ _ m Ht2). by apply prio_set_prio_ne. }
  apply wp_bind, wp_node_priority; [done|]. apply wp_bind.
  eapply plain_insert_spec with (l := filter (fun m => m <> n) l).
  - split; [done|]. eapply sorted_by_ext; [exact Hkey|]. by apply sorted_by_filter.
  - intros [? _]%list_elem_of_filter. done.
  - done.
  - pose proof (as_range _ _ _ Hsh) as Hr. rewrite Forall_forall in Hr. by apply Hr.
  - done.
  - eapply touch_node; [exact Ht2|].
    by apply (shape_nodes _ _ _ _ Hsh1).
  - intros s3 l3 Hsh3 Ht3. apply wp_ret.
    assert (l3 = l') as El.
    { unfold l3, l'. apply insert_by_ext. intros m Hm. by rewrite E2, Hkey. }
    rewrite El in *. apply HQ; [done|]. eapply touch_trans; [exact Ht2|]. eapply touch_mono; [|exact Ht3].
    intros m. unfold l'. rewrite elem_of_insert_by, list_elem_of_filter. naive_solver.
Qed.

(** ** Insertion, removal and change of a contributor *)

Context {C : Type}.

Lemma aggr_ok_set_prio s a l n : aggr_sorted s a l -> head l = Some n -> aggr_ok (set_prio a (prio s n) s) a l.
Proof.
  intros [Hsh Hs] Hh. pose proof (as_self _ _ _ Hsh) as Hself. pose proof (as_node _ _ _ Hsh) as Hnode.
  assert (Hne : forall m, m ∈ l -> a <> m) by (intros m Hm ->; done).
  split; [split|].
  - by apply shape_set_prio.
  - eapply sorted_by_ext; [|exact Hs]. intros m Hm. apply prio_set_prio_ne. auto.
  - intros m Hm. rewrite Hh in Hm. injection Hm as <-. rewrite prio_set_prio by done. symmetry. apply prio_set_prio_ne.
    apply Hne. destruct l; cbn in Hh; [done|]. injection Hh as <-. left.
Qed.

Lemma insert_by_head lt n l : head (insert_by lt n l) = Some n \/ head (insert_by lt n l) = head l.
Proof. destruct l as [|x l]; cbn; [by left|]. destruct (lt x); [by left|by right]. Qed.

(** What is needed to add the node [n] to the contributors [l] of [a]. *)
Definition addable (s : S) (a : Z) (l : list Z) (n : Z) : Prop :=
  (n ∉ l) /\ n <> a /\ 0 < n < 2 ^ 64 /\ is_Some (get_prio s n) /\ is_Some (p_nodes (get_store s) !! n).

Definition with_node (s : S) (n : Z) (l : list Z) : list Z := insert_by (fun m => prio s n <? prio s m) n l.
Definition without_node (n : Z) (l : list Z) : list Z := filter (fun m => m <> n) l.

Lemma non_empty_insert_spec a n l c change (Q : C -> S -> Prop) s :
  aggr_ok s a l -> l <> [] -> addable s a l n -> let l' := with_node s n l in
  (forall s', aggr_ok s' a l' -> touch a l' s s' -> head l' <> Some n -> Q c s') ->
  (forall s', let s'' := set_prio a (prio s n) s' in aggr_ok s'' a l' -> touch a l' s s' -> head l' = Some n ->
    wp (change a false c) Q s'') ->
  wp (_Priority_Non_empty_insert a n c change) Q s.
Proof.
  intros [[Hsh Hs] Hmin] Hne (Hn & Hna & Hr & Hp & Hnd) l' HQ HQ'. apply wp_bind, wp_node_priority; [done|]. apply wp_bind.
  eapply plain_insert_spec; [by split|done|done|done|done|done|]. intros s' l0 Hsh' Ht. fold (with_node s n l) in l0. subst l0. fold l' in Hsh', Ht |- *.
  pose proof (touch_key _ _ _ _ n Ht) as En. destruct (decide (head l' = Some n)) as [Hh|Hh].
  - rewrite bool_decide_true by done. apply wp_bind, wp_node_priority; [by rewrite (touch_prio _ _ _ _ n Ht)|].
    rewrite En. apply wp_bind, wp_set_priority; [apply (as_node _ _ _ (proj1 Hsh'))|]. apply HQ'; [|done|done].
    rewrite <- En. by apply aggr_ok_set_prio.
  - rewrite bool_decide_false by done. apply wp_ret, HQ; [|done|done]. split; [done|]. intros m Hm.
    rewrite !(touch_key _ _ _ _ _ Ht). apply Hmin. destruct (insert_by_head (fun m => prio s n <? prio s m) n l) as [E|E]; [done|].
    rewrite <- E. exact Hm.
Qed.

Lemma priority_initialize_one_spec a n (Q : unit -> S -> Prop) s :
  is_Some (get_prio s a) -> is_Some (p_aggrs (get_store s) !! a) -> addable s a [] n ->
  (forall s', let s'' := set_prio a (prio s n) s in aggr_ok s' a [n] -> touch a [n] s'' s' -> Q tt s') ->
  wp (_Priority_Initialize_one a n) Q s.
Proof.
  intros Hnode Ha (_ & Hna & Hr & Hp & Hnd) HQ.
  apply wp_bind, wp_node_priority; [done|]. apply wp_bind, wp_bind, wp_set_priority; [done|]. apply wp_ret. apply wp_bind.
  destruct Hnd as [nd Hnd]. eapply (wp_node (HT := aggr_tree a)); [cbn; rewrite get_store_set_prio; exact Hnd|].
  apply wp_modify. match goal with |- Q tt (set_tree ?t ?s1) => set (s'' := s1); set (tr := t) end.
  assert (Ht : touch a [n] s'' (set_tree (HasTree := aggr_tree a) tr s'')).
  { apply touch_set_tree; [unfold s''; by rewrite get_store_set_prio|]. unfold tr. split; cbn.
    - intros k Hk. apply lookup_insert_ne. set_solver.
    - intros k Hk. apply lookup_insert_is_Some'. by right. }
  apply HQ; [|done]. pose proof (fun m => touch_prio _ _ _ _ m Ht) as E. split; [split; [split|]|]; rewrite ?E.
  - exists (Node Leaf n Leaf). split; [|done]. rewrite (@get_set_tree S (aggr_tree a)). unfold tr. split; [|repeat constructor; set_solver].
    cbn. split_and!; [done|unfold NULL; lia|]. eexists. split; [apply lookup_insert_eq|]. cbn. split_and!; try done. by left.
  - rewrite (@get_set_tree S (aggr_tree a)). unfold tr. apply balanced_one. unfold NULL; lia.
  - intros m ->%list_elem_of_singleton. rewrite E. unfold s''. by rewrite get_set_prio_ne.
  - by apply Forall_singleton.
  - set_solver.
  - unfold s''. rewrite get_set_prio; done.
  - eapply touch_aggr; [exact Ht|]. unfold s''. by rewrite get_store_set_prio.
  - repeat constructor.
  - intros m [= <-]. unfold prio. rewrite !E. unfold s''. rewrite get_set_prio, get_set_prio_ne by done. done.
Qed.

(** [_Priority_Insert] of a node into a possibly empty aggregation. *)
Lemma priority_insert_spec a n l c add change (Q : C -> S -> Prop) s :
  aggr_ok s a l -> addable s a l n -> let l' := with_node s n l in
  (forall s', aggr_ok s' a l' -> touch a l' s s' -> l <> [] -> head l' <> Some n -> Q c s') ->
  (forall s', let s'' := set_prio a (prio s n) s' in aggr_ok s'' a l' -> touch a l' s s' -> l <> [] -> head l' = Some n ->
    wp (change a false c) Q s'') ->
  (forall s', aggr_ok s' a l' -> touch a l' (set_prio a (prio s n) s) s' -> l = [] -> wp (add a c) Q s') ->
  wp (_Priority_Insert a n c add change) Q s.
Proof.
  intros Hok Hadd l' H1 H2 H3. pose proof Hok as [[Hsh Hs] Hmin]. apply wp_bind. eapply wp_is_empty; [exact Hsh|].
  destruct (decide (l = [])) as [->|Hne].
  - rewrite bool_decide_true by done. apply wp_bind. eapply priority_initialize_one_spec; [apply (as_node _ _ _ Hsh)|apply (as_aggr _ _ _ Hsh)|exact Hadd|].
    intros s' s'' ? ?. by apply H3.
  - rewrite bool_decide_false by done. eapply non_empty_insert_spec; eauto.
Qed.

Lemma sorted_head_le key l m n : sorted_by key l -> head l = Some m -> n ∈ l -> key m <= key n.
Proof.
  intros Hs Hh Hn. destruct Hs as [|x l Hs Hf]; [done|]. injection Hh as ->.
  apply elem_of_cons in Hn as [->|Hn]; [lia|]. rewrite Forall_forall in Hf. auto.
Qed.

Lemma extracted_check_spec a n l c change (Q : C -> S -> Prop) s :
  aggr_sorted s a (without_node n l) -> without_node n l <> [] -> n ∈ l -> n <> a -> is_Some (get_prio s n) ->
  sorted_by (prio s) l -> (forall m, head l = Some m -> prio s a = prio s m) ->
  let l' := without_node n l in
  (forall m, aggr_ok s a l' -> head l' = Some m -> prio s m <= prio s n -> Q c s) ->
  (forall m, let s'' := set_prio a (prio s m) s in aggr_ok s'' a l' -> head l' = Some m -> prio s n < prio s m ->
    wp (change a true c) Q s'') ->
  wp (extracted_check a n c change) Q s.
Proof.
  intros Hsh Hne Hn Hna Hp Hs Hmin l' H1 H2. destruct l' as [|m l0] eqn:El; [done|].
  assert (Hm : head l' = Some m) by (by rewrite El). fold l' in Hsh. rewrite <- El in *.
  assert (Hmp : is_Some (get_prio s m)) by (apply (as_prio _ _ _ (proj1 Hsh)); rewrite El; left).
  apply wp_bind. eapply wp_minimum; [apply Hsh|exact Hm|]. apply wp_bind, wp_node_priority; [done|].
  apply wp_bind, wp_node_priority; [done|]. destruct (Z.ltb_spec (prio s n) (prio s m)) as [Hlt|Hle].
  - apply wp_bind, wp_set_priority; [apply (as_node _ _ _ (proj1 Hsh))|]. apply H2; [|done|done]. by apply aggr_ok_set_prio.
  - apply wp_ret. eapply H1; [|exact Hm|lia]. split; [done|]. intros m' Hm'. rewrite Hm in Hm'. injection Hm' as <-.
    destruct l as [|x l1]; [set_solver|]. rewrite (Hmin x) by done.
    assert (Hx : prio s x <= prio s n) by (eapply sorted_head_le; [exact Hs|done|done]).
    assert (Hin : m ∈ x :: l1).
    { assert (H : m ∈ l') by (rewrite El; left). by apply list_elem_of_filter in H as [_ ?]. }
    assert (prio s x <= prio s m) by (eapply sorted_head_le; [exact Hs|done|done]).
    destruct (decide (x = n)) as [->|Hxn]; [lia|]. unfold l', without_node in El. rewrite filter_cons_True in El by done.
    injection El as -> _. done.
Qed.

Lemma extract_non_empty_spec a n l c change (Q : C -> S -> Prop) s :
  aggr_ok s a l -> n ∈ l -> let l' := without_node n l in l' <> [] ->
  (forall s' m, aggr_ok s' a l' -> touch a l s s' -> head l' = Some m -> prio s m <= prio s n -> Q c s') ->
  (forall s' m, let s'' := set_prio a (prio s m) s' in aggr_ok s'' a l' -> touch a l s s' -> head l' = Some m ->
    prio s n < prio s m -> wp (change a true c) Q s'') ->
  wp (_Priority_Extract_non_empty a n c change) Q s.
Proof.
  intros [[Hsh Hs] Hmin] Hn l' Hne H1 H2. apply wp_bind. eapply plain_extract_spec; [exact Hsh|exact Hn|].
  intros s' Hsh' Ht. pose proof (fun m => touch_key _ _ _ _ m Ht) as E.
  eapply extracted_check_spec; try done.
  - split; [done|]. eapply sorted_by_ext; [intros m _; apply E|]. by apply sorted_by_filter.
  - intros ->. by apply (as_self _ _ _ Hsh).
  - rewrite (touch_prio _ _ _ _ n Ht). by apply (as_prio _ _ _ Hsh).
  - eapply sorted_by_ext; [intros m _; apply E|done].
  - intros m Hm. rewrite !E. auto.
  - intros m ? ? Hle. rewrite !E in Hle. by eapply H1.
  - intros m s'' Hok Hm Hlt. rewrite !E in Hlt. unfold s'' in *. rewrite E in *. by eapply H2.
Qed.

Lemma aggr_ok_nil s a : aggr_shape s a [] -> aggr_ok s a [].
Proof. intros Hsh. split; [split; [done|constructor]|done]. Qed.

Lemma priority_extract_spec a n l c remove change (Q : C -> S -> Prop) s :
  aggr_ok s a l -> n ∈ l -> let l' := without_node n l in
  (forall s' m, aggr_ok s' a l' -> touch a l s s' -> head l' = Some m -> prio s m <= prio s n -> Q c s') ->
  (forall s' m, let s'' := set_prio a (prio s m) s' in aggr_ok s'' a l' -> touch a l s s' -> head l' = Some m ->
    prio s n < prio s m -> wp (change a true c) Q s'') ->
  (forall s', aggr_ok s' a [] -> touch a l s s' -> l' = [] -> wp (remove a c) Q s') ->
  wp (_Priority_Extract a n c remove change) Q s.
Proof.
  intros Hok Hn l' H1 H2 H3. pose proof Hok as [[Hsh Hs] Hmin]. apply wp_bind. eapply plain_extract_spec; [exact Hsh|exact Hn|].
  intros s' Hsh' Ht. pose proof (fun m => touch_key _ _ _ _ m Ht) as E.
  fold (without_node n l) in Hsh'. fold l' in Hsh'. apply wp_bind. eapply wp_is_empty; [exact Hsh'|].
  destruct (decide (l' = [])) as [El|El].
  - rewrite bool_decide_true by done. rewrite El in Hsh'. apply H3; [|done|done]. by apply aggr_ok_nil.
  - rewrite bool_decide_false by done. eapply extracted_check_spec; try done.
    + split; [done|]. eapply sorted_by_ext; [intros m _; apply E|]. by apply sorted_by_filter.
    + intros ->. by apply (as_self _ _ _ Hsh).
    + rewrite (touch_prio _ _ _ _ n Ht). by apply (as_prio _ _ _ Hsh).
    + eapply sorted_by_ext; [intros m _; apply E|done].
    + intros m Hm. rewrite !E. auto.
    + intros m ? ? Hle. rewrite !E in Hle. by eapply H1.
    + intros m s'' Hok' Hm Hlt. rewrite !E in Hlt. unfold s'' in *. rewrite E in *. by eapply H2.
Qed.

(** The priority of a contributor was set to [p]. *)
Lemma changed_spec a n p l b c change (Q : C -> S -> Prop) s :
  aggr_ok s a l -> n ∈ l ->
  let s1 := set_prio n p s in let l' := with_node s1 n (without_node n l) in
  (forall s' m, aggr_ok s' a l' -> touch a l s1 s' -> head l' = Some m -> prio s1 m = prio s a -> Q c s') ->
  (forall s' m, let s'' := set_prio a (prio s1 m) s' in aggr_ok s'' a l' -> touch a l s1 s' -> head l' = Some m ->
    prio s1 m <> prio s a -> wp (change a b c) Q s'') ->
  wp (_Priority_Changed a n b c change) Q s1.
Proof.
  intros [[Hsh Hs] Hmin] Hn s1 l' H1 H2. pose proof (as_prio _ _ _ Hsh n Hn) as Hp.
  assert (Hna : n <> a) by (intros ->; by apply (as_self _ _ _ Hsh)).
  assert (Hl' : l' = insert_by (fun m => p <? prio s m) n (filter (fun m => m <> n) l)).
  { apply insert_by_ext. intros m [Hm _]%list_elem_of_filter. unfold s1. by rewrite prio_set_prio, prio_set_prio_ne. }
  apply wp_bind. eapply plain_changed_spec; [by split|exact Hn|]. rewrite <- Hl'. intros s' Hsh' Ht.
  pose proof (fun m => touch_key _ _ _ _ m Ht) as E.
  destruct l' as [|m l0] eqn:El; [destruct (filter _ l); cbn in Hl'; [done|by destruct (_ <? _)]|]. rewrite <- El in *.
  assert (Hm : head l' = Some m) by (by rewrite El).
  assert (Hmp : is_Some (get_prio s' m)) by (apply (as_prio _ _ _ (proj1 Hsh')); rewrite El; left).
  pose proof (as_node _ _ _ (proj1 Hsh')) as Ha.
  apply wp_bind. eapply wp_minimum; [apply Hsh'|exact Hm|]. apply wp_bind, wp_node_priority; [done|].
  apply wp_bind, wp_node_priority; [done|]. fold s1 in E. rewrite !E.
  replace (prio s1 a) with (prio s a) by (unfold s1; by rewrite prio_set_prio_ne).
  destruct (Z.eqb_spec (prio s1 m) (prio s a)) as [Heq|Hneq]; cbn [negb].
  - apply wp_ret. eapply H1; [|done|exact Hm|done]. split; [done|]. intros m' Hm'. rewrite Hm in Hm'. injection Hm' as <-.
    rewrite !E, Heq. unfold s1. by rewrite prio_set_prio_ne.
  - apply wp_bind, wp_set_priority; [done|]. eapply H2; [|done|exact Hm|done]. rewrite <- E. by apply aggr_ok_set_prio.
Qed.

End specs.

(** * Sequences of operations on an aggregation *)

(** What the handlers of an aggregation are told. *)
Inductive event :=
  | Added (p : Z)
  | Changed (p : Z) (prepend_it : bool)
  | Removed.

Record pstate := {
  ps_store : store;
  ps_prio : gmap Z Z;
  ps_log : list event;
}.

#[export, program] Instance pstate_HasPriority : HasPriority pstate := {|
  get_store := ps_store;
  set_store t s := {| ps_store := t; ps_prio := ps_prio s; ps_log := ps_log s |};
  get_prio s n := ps_prio s !! n;
  set_prio n p s := {| ps_store := ps_store s; ps_prio := <[n := p]> (ps_prio s); ps_log := ps_log s |} |}.
Next Obligation. done. Qed.
Next Obligation. done. Qed.
Next Obligation. by intros []. Qed.
Next Obligation. done. Qed.
Next Obligation. done. Qed.
Next Obligation. intros n p s _. apply lookup_insert_eq. Qed.
Next Obligation. intros n n' p s Hne. by apply lookup_insert_ne. Qed.

Definition record_event (e : event) : M pstate unit :=
  modify (fun s => {| ps_store := ps_store s; ps_prio := ps_prio s; ps_log := ps_log s ++ [e] |}).

Inductive priority_op :=
  | Add_node (n p : Z)
  | Remove_node (n : Z)
  | Change_node (n p : Z) (prepend_it : bool).

Section trace.
Context {RB : RB_Macros} (a : Z).

Definition on_add (a : Z) (_ : unit) : M pstate unit := p ← _Priority_Get_priority a; record_event (Added p).
Definition on_change (a : Z) (prepend_it : bool) (_ : unit) : M pstate unit :=
  p ← _Priority_Get_priority a; record_event (Changed p prepend_it).
Definition on_remove (a : Z) (_ : unit) : M pstate unit := record_event Removed.

Definition exec_priority_op (o : priority_op) : M pstate unit :=
  match o with
  | Add_node n p => _Priority_Node_initialize n p;; _Priority_Insert a n tt on_add on_change
  | Remove_node n => _Priority_Extract a n tt on_remove on_change
  | Change_node n p b => _Priority_Node_set_priority n p;; _Priority_Changed a n b tt on_change
  end.

Fixpoint run_priority_ops (os : list priority_op) : M pstate unit :=
  match os with
  | [] => mret tt
  | o :: os' => exec_priority_op o;; run_priority_ops os'
  end.

(** The abstract aggregation: nodes with their priorities, sorted, first come
    first served. *)
Fixpoint spec_insert (x : Z * Z) (l : list (Z * Z)) : list (Z * Z) :=
  match l with
  | [] => [x]
  | y :: l' => if x.2 <? y.2 then x :: l else y :: spec_insert x l'
  end.

Definition spec_remove (n : Z) (l : list (Z * Z)) : list (Z * Z) := filter (fun x => x.1 <> n) l.
Definition spec_min (l : list (Z * Z)) : option Z := snd <$> head l.

Definition spec_op (o : priority_op) (l : list (Z * Z)) : list (Z * Z) :=
  match o with
  | Add_node n p => spec_insert (n, p) l
  | Remove_node n => spec_remove n l
  | Change_node n p _ => spec_insert (n, p) (spec_remove n l)
  end.

(** The handlers are told exactly the changes of the minimum. *)
Definition spec_events (o : priority_op) (l : list (Z * Z)) : list event :=
  let l' := spec_op o l in
  match spec_min l, spec_min l' with
  | None, Some p => [Added p]
  | Some _, None => [Removed]
  | Some q, Some p =>
      if p =? q then []
      else match o with
           | Add_node _ _ => [Changed p false]
           | Remove_node _ => [Changed p true]
           | Change_node _ _ b => [Changed p b]
           end
  | None, None => []
  end.

Fixpoint spec_run (os : list priority_op) (l : list (Z * Z)) : list (Z * Z) * list event :=
  match os with
  | [] => (l, [])
  | o :: os' => let '(l', es) := spec_run os' (spec_op o l) in (l', spec_events o l ++ es)
  end.

(** New contributors are fresh, others are known. *)
Definition legal_op (o : priority_op) (l : list (Z * Z)) : Prop :=
  match o with
  | Add_node n p => n ∉ l.*1
  | Remove_node n | Change_node n _ _ => n ∈ l.*1
  end.

Fixpoint legal_ops (os : list priority_op) (l : list (Z * Z)) : Prop :=
  match os with
  | [] => True
  | o :: os' => legal_op o l /\ legal_ops os' (spec_op o l)
  end.

Definition node_of (o : priority_op) : Z :=
  match o with
  | Add_node n _ | Remove_node n | Change_node n _ _ => n
  end.

(** [n] is an initialized node besides the aggregation. *)
Definition known (s : pstate) (n : Z) : Prop :=
  n <> a /\ 0 < n < 2 ^ 64 /\ is_Some (ps_prio s !! n) /\ is_Some (p_nodes (ps_store s) !! n).

(** [l] describes the aggregation. *)
Definition describes (s : pstate) (l : list (Z * Z)) : Prop :=
  aggr_ok s a l.*1 /\ forall n p, (n, p) ∈ l -> ps_prio s !! n = Some p.

Lemma spec_insert_fst key n p l : key n = p -> (forall m q, (m, q) ∈ l -> key m = q) ->
  (spec_insert (n, p) l).*1 = insert_by (fun m => key n <? key m) n l.*1.
Proof.
  intros Hn. induction l as [|[m q] l IH]; intros H; [done|]. cbn. rewrite Hn, (H m q) by left.
  destruct (p <? q); [done|]. cbn. f_equal. rewrite IH; [by rewrite Hn|]. intros ? ? ?. apply H. by right.
Qed.

Lemma spec_remove_fst n l : (spec_remove n l).*1 = filter (fun m => m <> n) l.*1.
Proof.
  unfold spec_remove. induction l as [|[m q] l IH]; [done|]. rewrite fmap_cons, !filter_cons. cbn [fst].
  case_decide; [by rewrite fmap_cons, IH|done].
Qed.

Lemma elem_of_spec_insert x l y : y ∈ spec_insert x l <-> y = x \/ y ∈ l.
Proof. induction l as [|z l IH]; cbn; [set_solver|]. destruct (x.2 <? z.2); set_solver. Qed.

Lemma describes_min s l p : describes s l -> spec_min l = Some p -> ps_prio s !! a = Some p.
Proof.
  intros [[[Hsh _] Hmin] Hl] Hp. destruct l as [|[n q] l]; [done|]. injection Hp as ->.
  specialize (Hmin n eq_refl). unfold prio in Hmin. cbn in Hmin. rewrite (Hl n p) in Hmin by left. cbn in Hmin.
  destruct (as_node _ _ _ Hsh) as [r Hr]. cbn in Hr. rewrite Hr in Hmin |- *. cbn in Hmin. by f_equal.
Qed.

(** ** One operation *)

(** The state after an operation: described by [l'], the handlers were told
    [es], and no node was forgotten. *)
Definition op_result (s : pstate) (l' : list (Z * Z)) (es : list event) (s' : pstate) : Prop :=
  describes s' l' /\ ps_log s' = ps_log s ++ es /\ forall n, known s n -> known s' n.

Lemma touch_pstate l s s' : touch a l s s' ->
  ps_prio s' = ps_prio s /\ ps_log s' = ps_log s /\ forall n, known s n -> known s' n.
Proof.
  intros (st & -> & _ & _ & _ & D). cbn. split_and!; [done|done|]. intros n (? & ? & ? & ?). cbn. split_and!; try lia; auto.
Qed.

Lemma known_set_prio s b p n : known s n -> known (set_prio b p s) n.
Proof. intros (? & ? & ? & ?). do 2 (split; [done|]). split; [|done]. cbn. apply lookup_insert_is_Some'. by right. Qed.

(** Recording the new minimum ends an operation. *)
Lemma record_result s s' l' es (f : Z -> event) (Q : unit -> pstate -> Prop) :
  describes s' l' -> ps_log s' = ps_log s -> (forall n, known s n -> known s' n) ->
  (forall p, ps_prio s' !! a = Some p -> es = [f p]) ->
  (forall s'', op_result s l' es s'' -> Q tt s'') ->
  wp (p ← _Priority_Get_priority a; record_event (f p)) Q s'.
Proof.
  intros Hd Hlog Hk Hes HQ. pose proof (as_node _ _ _ (proj1 (proj1 (proj1 Hd)))) as Ha. cbn in Ha.
  apply wp_bind, wp_node_priority; [done|]. apply wp_modify, HQ. destruct Ha as [p Hp].
  rewrite (Hes p Hp). unfold prio. cbn. rewrite Hp. cbn. split; [|split; [by rewrite Hlog|exact Hk]].
  destruct Hd as [Hok Hl]. split; [by eapply aggr_ok_ext; [..|exact Hok]|exact Hl].
Qed.

(** Lists of nodes with their priorities. *)
Lemma describes_keys s l m q : describes s l -> (m, q) ∈ l -> prio s m = q.
Proof. intros [_ H] Hm. unfold prio. cbn. by rewrite (H m q Hm). Qed.

Lemma describes_fst s l m : describes s l -> m ∈ l.*1 -> (m, prio s m) ∈ l.
Proof.
  intros Hd Hm. apply list_elem_of_fmap in Hm as ([m' q] & -> & Hm). cbn [fst]. by rewrite (describes_keys s l m' q).
Qed.

Lemma spec_min_head s l n : describes s l -> head l.*1 = Some n -> spec_min l = Some (prio s n).
Proof.
  intros Hd Hh. destruct l as [|[m q] l]; [done|]. injection Hh as ->. unfold spec_min. cbn [head fmap option_fmap option_map snd].
  by rewrite (describes_keys s ((n, q) :: l) n q Hd) by left.
Qed.

Lemma add_node_spec s l n p (Q : unit -> pstate -> Prop) :
  describes s l -> known s n -> n ∉ l.*1 ->
  (forall s', op_result s (spec_op (Add_node n p) l) (spec_events (Add_node n p) l) s' -> Q tt s') ->
  wp (exec_priority_op (Add_node n p)) Q s.
Proof.
  intros Hd (Hna & Hr & Hp & Hnd) Hn HQ. apply wp_bind, wp_bind, wp_set_priority; [done|]. apply wp_ret.
  set (s1 := set_prio n p s).
  assert (Hk1 : forall m, known s m -> known s1 m) by (intros; by apply known_set_prio).
  assert (En : prio s1 n = p) by (by apply prio_set_prio).
  assert (Hd1 : describes s1 l).
  { destruct Hd as [[[Hsh Hs] Hm] Hl]. assert (Hne : forall m, m ∈ l.*1 -> n <> m) by (intros m Hm' ->; done).
    split; [split; [split|]|].
    - by apply shape_set_prio.
    - eapply sorted_by_ext; [|exact Hs]. intros m Hm'. apply prio_set_prio_ne. auto.
    - intros m Hm'. unfold s1. rewrite !prio_set_prio_ne; auto. apply Hne. destruct (l.*1); [done|]. injection Hm' as ->. left.
    - intros m q Hm'. cbn. rewrite lookup_insert_ne; [auto|]. apply Hne. by apply (list_elem_of_fmap_2 fst) in Hm'. }
  assert (Hl' : (spec_insert (n, p) l).*1 = with_node s1 n l.*1).
  { apply spec_insert_fst; [done|]. intros m q. by apply describes_keys. }
  assert (Hkeys : forall s', ps_prio s' = ps_prio s1 -> forall m q, (m, q) ∈ spec_insert (n, p) l -> ps_prio s' !! m = Some q).
  { intros s' E m q. rewrite E, elem_of_spec_insert. intros [[= -> ->]|Hm]; [cbn; apply lookup_insert_eq|by apply Hd1]. }
  assert (Hkeys' : forall s' r, ps_prio s' = <[a := r]> (ps_prio s1) -> forall m q, (m, q) ∈ spec_insert (n, p) l -> ps_prio s' !! m = Some q).
  { intros s' r E m q Hm. rewrite E, lookup_insert_ne; [by apply (Hkeys s1)|]. intros <-.
    apply elem_of_spec_insert in Hm as [[= -> _]|Hm]; [done|]. apply (as_self _ _ _ (proj1 (proj1 (proj1 Hd1)))).
    by apply (list_elem_of_fmap_2 fst) in Hm. }
  assert (Hadd : addable s1 a l.*1 n).
  { split; [done|]. split; [done|]. split; [lia|]. split; [|done]. cbn. by rewrite lookup_insert_eq. }
  eapply priority_insert_spec; [apply Hd1|exact Hadd|..]; rewrite <- Hl', ?En.
  - intros s' Hok Ht Hne Hh. destruct (touch_pstate _ _ _ Ht) as (Ep & El & Hk). apply HQ.
    assert (Hd' : describes s' (spec_insert (n, p) l)) by (split; [done|by apply Hkeys]).
    split; [done|]. rewrite El. cbn [ps_log s1 set_prio pstate_HasPriority]. split; [|auto].
    replace (spec_events _ _) with (@nil event); [by rewrite app_nil_r|].
    destruct l as [|[m q] l]; [done|]. unfold spec_events. cbn in *. destruct (p <? q); cbn in *; [done|].
    by rewrite Z.eqb_refl.
  - intros s' s'' Hok Ht Hne Hh. destruct (touch_pstate _ _ _ Ht) as (Ep & El & Hk).
    assert (Hd' : describes s'' (spec_insert (n, p) l)).
    { split; [done|]. eapply Hkeys'. cbn. by rewrite Ep. }
    eapply (record_result s _ _ (spec_events (Add_node n p) l) (fun p => Changed p false)); [exact Hd'|exact El| |..|exact HQ].
    + intros m Hm. unfold s''. apply known_set_prio. auto.
    + intros r. cbn. rewrite lookup_insert_eq. intros [= <-]. destruct l as [|[m q] l]; [done|]. unfold spec_events.
      cbn in *. destruct (Z.ltb_spec p q); cbn in *.
      * destruct (Z.eqb_spec p q); [lia|done].
      * injection Hh as ->. exfalso. apply Hn. left.
  - intros s' Hok Ht Hnil. apply fmap_nil_inv in Hnil as ->. cbn in Hok, Ht. destruct (touch_pstate _ _ _ Ht) as (Ep & El & Hk).
    eapply (record_result s _ _ (spec_events (Add_node n p) []) Added); [|exact El| |..|exact HQ].
    + split; [done|]. eapply Hkeys'. by rewrite Ep.
    + intros m Hm. apply Hk. exact (known_set_prio s1 a p m (Hk1 m Hm)).
    + intros r. rewrite Ep. cbn. rewrite lookup_insert_eq. by intros [= <-].
Qed.

(** The keys of the contributors are not affected by the priority of [a]. *)
Lemma describes_at s' l' r (m : gmap Z Z) : aggr_ok s' a l'.*1 ->
  ps_prio s' = m \/ ps_prio s' = <[a := r]> m ->
  (forall n q, (n, q) ∈ l' -> m !! n = Some q) -> describes s' l'.
Proof.
  intros Hok E H. split; [done|]. intros n q Hn. destruct E as [->| ->]; [auto|]. rewrite lookup_insert_ne; [auto|].
  intros <-. apply (as_self _ _ _ (proj1 (proj1 Hok))). by apply (list_elem_of_fmap_2 fst) in Hn.
Qed.

Lemma remove_node_spec s l n (Q : unit -> pstate -> Prop) : describes s l -> n ∈ l.*1 ->
  (forall s', op_result s (spec_op (Remove_node n) l) (spec_events (Remove_node n) l) s' -> Q tt s') ->
  wp (exec_priority_op (Remove_node n)) Q s.
Proof.
  intros Hd Hn HQ.
  assert (Hl' : (spec_remove n l).*1 = without_node n l.*1) by apply spec_remove_fst.
  assert (Hkeys : forall m q, (m, q) ∈ spec_remove n l -> ps_prio s !! m = Some q).
  { intros m q [_ Hm]%list_elem_of_filter. by apply Hd. }
  assert (Hq : exists m, head l.*1 = Some m /\ spec_min l = Some (prio s m) /\ prio s m <= prio s n).
  { destruct l as [|[m q] l]; [set_solver|]. exists m. split; [done|]. split; [by apply (spec_min_head s _ m Hd)|].
    eapply sorted_head_le; [apply Hd|done|done]. }
  destruct Hq as (x & Hx & Hmin & Hxn).
  assert (Hev : forall m, head (spec_remove n l).*1 = Some m -> spec_min (spec_remove n l) = Some (prio s m) /\
      (prio s m <= prio s n -> prio s m = prio s x) /\ prio s x <= prio s m).
  { intros m Hm. destruct (spec_remove n l) as [|[m' q] l0] eqn:El; [done|]. injection Hm as ->.
    assert (Hin : (m, q) ∈ spec_remove n l) by (rewrite El; left).
    assert (Eq : prio s m = q) by (unfold prio; cbn; rewrite (Hkeys m q); [done|by rewrite <- El]). split; [by rewrite Eq|].
    apply list_elem_of_filter in Hin as [Hne Hin]. cbn in Hne.
    assert (prio s x <= prio s m).
    { eapply sorted_head_le; [apply Hd|exact Hx|]. by apply (list_elem_of_fmap_2 fst) in Hin. }
    split; [|done]. intros Hle. destruct (decide (x = n)) as [->|Hxne]; [lia|].
    destruct l as [|[x' q'] l1]; [done|]. injection Hx as ->. unfold spec_remove in El. rewrite filter_cons_True in El by done.
    by injection El as -> _. }
  eapply priority_extract_spec; [apply Hd|exact Hn|..]; rewrite <- Hl'.
  - intros s' m Hok Ht Hm Hle. destruct (touch_pstate _ _ _ Ht) as (Ep & El & Hk). apply HQ.
    split; [apply (describes_at _ _ 0 (ps_prio s)); auto|]. split; [|done]. rewrite El.
    replace (spec_events _ _) with (@nil event); [by rewrite app_nil_r|]. unfold spec_events. cbn [spec_op].
    destruct (Hev m Hm) as (-> & E & _). rewrite Hmin, (E Hle). by rewrite Z.eqb_refl.
  - intros s' m s'' Hok Ht Hm Hlt. destruct (touch_pstate _ _ _ Ht) as (Ep & El & Hk).
    eapply (record_result s _ _ (spec_events (Remove_node n) l) (fun p => Changed p true));
      [apply (describes_at _ _ (prio s m) (ps_prio s)); [exact Hok|right; cbn; by rewrite Ep|done]|exact El| | |exact HQ].
    + intros k Hk'. apply known_set_prio. auto.
    + intros r. cbn. rewrite lookup_insert_eq. intros [= <-]. unfold spec_events. cbn [spec_op].
      destruct (Hev m Hm) as (-> & _ & _). rewrite Hmin. destruct (Z.eqb_spec (prio s m) (prio s x)); [lia|done].
  - intros s' Hok Ht Hnil. destruct (touch_pstate _ _ _ Ht) as (Ep & El & Hk).
    assert (Hnil' : spec_remove n l = []). { by apply fmap_nil_inv in Hnil. }
    apply wp_modify, HQ. cbn [spec_op]. rewrite Hnil'. split; [|split; [|done]].
    + split; [|set_solver]. by eapply aggr_ok_ext; [..|exact Hok].
    + cbn. rewrite El. unfold spec_events. cbn [spec_op]. by rewrite Hmin, Hnil'.
Qed.

Lemma change_node_spec s l n p b (Q : unit -> pstate -> Prop) : describes s l -> n ∈ l.*1 ->
  (forall s', op_result s (spec_op (Change_node n p b) l) (spec_events (Change_node n p b) l) s' -> Q tt s') ->
  wp (exec_priority_op (Change_node n p b)) Q s.
Proof.
  intros Hd Hn HQ. pose proof Hd as [[[Hsh Hs] Hm] Hl].
  apply wp_bind, wp_set_priority; [by apply (as_prio _ _ _ Hsh)|]. set (s1 := set_prio n p s).
  assert (En : prio s1 n = p) by (apply prio_set_prio; by apply (as_prio _ _ _ Hsh)).
  assert (Hkeys : forall m q, (m, q) ∈ spec_remove n l -> ps_prio s1 !! m = Some q).
  { intros m q [Hne Hin]%list_elem_of_filter. cbn in *. rewrite lookup_insert_ne by done. by apply Hd. }
  assert (Hl' : (spec_insert (n, p) (spec_remove n l)).*1 = with_node s1 n (without_node n l.*1)).
  { unfold without_node. rewrite <- spec_remove_fst. apply spec_insert_fst; [done|].
    intros m q Hin. unfold prio. cbn. specialize (Hkeys m q Hin). cbn in Hkeys. by rewrite Hkeys. }
  assert (Hkeys' : forall m q, (m, q) ∈ spec_insert (n, p) (spec_remove n l) -> ps_prio s1 !! m = Some q).
  { intros m q. rewrite elem_of_spec_insert. intros [[= -> ->]|Hin]; [cbn; apply lookup_insert_eq|by apply Hkeys]. }
  assert (Hmin : spec_min l = Some (prio s a)).
  { destruct l as [|[m q] l]; [set_solver|]. rewrite (Hm m eq_refl). by apply spec_min_head. }
  assert (Hev : forall m, head (spec_insert (n, p) (spec_remove n l)).*1 = Some m ->
      spec_min (spec_insert (n, p) (spec_remove n l)) = Some (prio s1 m)).
  { intros m Hh. destruct (spec_insert _ _) as [|[m' q] l0]; [done|]. injection Hh as ->. unfold prio. cbn.
    specialize (Hkeys' m q ltac:(left)). cbn in Hkeys'. by rewrite Hkeys'. }
  eapply changed_spec; [apply Hd|exact Hn|..]; fold s1; rewrite <- Hl'.
  - intros s' m Hok Ht Hh Heq. destruct (touch_pstate _ _ _ Ht) as (Ep & El & Hk). apply HQ.
    split; [apply (describes_at _ _ 0 (ps_prio s1)); auto|].
    split; [|intros k Hk'; by apply Hk, known_set_prio]. rewrite El.
    replace (spec_events _ _) with (@nil event); [by rewrite app_nil_r|]. unfold spec_events. cbn [spec_op].
    by rewrite Hmin, (Hev m Hh), Heq, Z.eqb_refl.
  - intros s' m s'' Hok Ht Hh Hneq. destruct (touch_pstate _ _ _ Ht) as (Ep & El & Hk).
    eapply (record_result s _ _ (spec_events (Change_node n p b) l) (fun p => Changed p b));
      [apply (describes_at _ _ (prio s1 m) (ps_prio s1)); [exact Hok|right; cbn; by rewrite Ep|done]|exact El| | |exact HQ].
    + intros k Hk'. apply known_set_prio, Hk. by apply known_set_prio.
    + intros r. cbn. rewrite lookup_insert_eq. intros [= <-]. unfold spec_events. cbn [spec_op].
      rewrite Hmin, (Hev m Hh). destruct (Z.eqb_spec (prio s1 m) (prio s a)); [done|done].
Qed.

Lemma run_priority_ops_spec os s l : describes s l -> Forall (fun o => known s (node_of o)) os -> legal_ops os l ->
  wp (run_priority_ops os) (fun _ s' => let '(l', es) := spec_run os l in describes s' l' /\ ps_log s' = ps_log s ++ es) s.
Proof.
  revert s l. induction os as [|o os IH]; intros s l Hd Hk Hleg.
  { apply wp_ret. split; [done|]. by rewrite app_nil_r. }
  apply Forall_cons in Hk as [Ho Hk]. destruct Hleg as [Hleg Hlegs]. apply wp_bind.
  assert (Hnext : forall s', op_result s (spec_op o l) (spec_events o l) s' ->
    wp (run_priority_ops os) (fun _ s' => let '(l', es) := spec_run (o :: os) l in
      describes s' l' /\ ps_log s' = ps_log s ++ es) s').
  { intros s' (Hd' & Hlog & Hkn). eapply wp_mono; [apply (IH s' (spec_op o l) Hd'); [|done]|].
    - eapply Forall_impl; [exact Hk|]. auto.
    - intros [] s''. cbn. destruct (spec_run os (spec_op o l)) as [l' es]. intros [? ->]. split; [done|].
      by rewrite Hlog, app_assoc. }
  destruct o as [n p|n|n p b]; [eapply add_node_spec|eapply remove_node_spec|eapply change_node_spec]; eauto.
Qed.

Lemma priority_initialize_empty_spec s (Q : unit -> pstate -> Prop) :
  is_Some (ps_prio s !! a) -> is_Some (p_aggrs (ps_store s) !! a) ->
  (forall s', describes s' [] -> ps_log s' = ps_log s -> (forall n, known s n -> known s' n) -> Q tt s') ->
  wp (_Priority_Initialize_empty a) Q s.
Proof.
  intros Hp Ha HQ. apply wp_bind, wp_ret, wp_modify. apply HQ; [|done|done]. split; [|set_solver]. apply aggr_ok_nil. split.
  - exists Leaf. rewrite (@get_set_tree pstate (aggr_tree a)). by repeat split; [..|constructor].
  - rewrite (@get_set_tree pstate (aggr_tree a)). apply balanced_empty.
  - set_solver.
  - constructor.
  - set_solver.
  - done.
  - cbn. by rewrite lookup_insert_eq.
Qed.

(** C9. Start with an empty aggregation and add, remove and change
    contributors in any order.  No operation faults; the contributors are
    kept sorted by priority, first come first served; the priority of the
    aggregation is the minimum of its contributors; and the handlers are
    called exactly when this minimum changes, with the new minimum: a new
    smaller priority is appended, a greater priority after a removal is
    prepended, a change decides itself. *)
Theorem priority_aggregation_trace os s :
  is_Some (ps_prio s !! a) -> is_Some (p_aggrs (ps_store s) !! a) ->
  Forall (fun o => known s (node_of o)) os -> legal_ops os [] ->
  wp (_Priority_Initialize_empty a;; run_priority_ops os)
     (fun _ s' => let '(l, es) := spec_run os [] in
        describes s' l /\ ps_log s' = ps_log s ++ es /\
        (forall n p, (n, p) ∈ l -> prio s' a <= p) /\
        (l <> [] -> exists n, (n, prio s' a) ∈ l)) s.
Proof.
  intros Hp Ha Hk Hleg. apply wp_bind, priority_initialize_empty_spec; [done|done|]. intros s1 Hd Hlog Hk1.
  eapply wp_mono; [apply (run_priority_ops_spec os s1 [] Hd); [|done]|].
  { eapply Forall_impl; [exact Hk|]. auto. }
  intros [] s'. cbv beta. destruct (spec_run os []) as [l es]. intros [Hd' Hlog']. rewrite Hlog in Hlog'.
  split; [done|]. split; [done|]. destruct l as [|[m q] l].
  { split; [set_solver|done]. }
  assert (Hmin : prio s' a = q).
  { unfold prio. cbn. by rewrite (describes_min s' ((m, q) :: l) q Hd'). }
  rewrite Hmin. split; [|intros _; exists m; left]. intros n p Hn.
  rewrite <- (describes_keys s' _ n p Hd' Hn), <- (describes_keys s' _ m q Hd' ltac:(left)).
  eapply sorted_head_le; [apply Hd'|done|]. by apply (list_elem_of_fmap_2 fst) in Hn.
Qed.

End trace.

(** An aggregation at 8 and three nodes, none of which contributes yet. *)
Definition idle_node : RBTree_Node := {| rbe_left := NULL; rbe_right := NULL; rbe_parent := NULL; rbe_color := -1 |}.

Definition sample_state : pstate :=
  {| ps_store :=
       {| p_nodes := {[ 16 := idle_node; 24 := idle_node; 32 := idle_node ]};
          p_aggrs := {[ 8 := {| Contributors := 99; Action_node := NULL; Action_type := PRIORITY_ACTION_INVALID |} ]} |};
     ps_prio := {[ 8 := 255; 16 := 0; 24 := 0; 32 := 0 ]};
     ps_log := [] |}.

Lemma priority_aggregation_trace_witness :
  wp
     (_Priority_Initialize_empty 8;;
      run_priority_ops (RB := Spine.macros) 8
        [Add_node 16 100; Add_node 24 50; Add_node 32 50; Remove_node 24; Change_node 32 120 true; Remove_node 16])
     (fun _ s' => ps_prio s' !! 8 = Some 120 /\
        ps_log s' = [Added 100; Changed 50 false; Changed 100 true; Changed 120 true]) sample_state.
Proof.
  eapply wp_mono.
  - apply (priority_aggregation_trace (RB := Spine.macros) 8
      [Add_node 16 100; Add_node 24 50; Add_node 32 50; Remove_node 24; Change_node 32 120 true; Remove_node 16] sample_state).
    + by eexists.
    + by eexists.
    + repeat (apply Forall_cons; split; [split; [done|split; [cbn; lia|split; by eexists]]|]). apply Forall_nil. exact I.
    + cbn. set_solver by lia.
  - intros [] s' (Hd & Hlog & _ & _). split; [|exact Hlog].
    apply (describes_min (RB := Spine.macros) 8 s' [(32, 120)]); [exact Hd|done].
Defined.

End Priority.
