(* ===== verification/Heap.v ===== *)
(** The boundary-tag heap of the kernel (score/heap.h, score/heapimpl.h,
    score/heap.c, score/heapallocate.c, score/heapfree.c,
    score/heapresizeblock.c and the information functions), in the
    configuration without [HEAP_PROTECTION] and without [RTEMS_DEBUG], for
    the 64-bit target x86_64 ([sizeof(uintptr_t)] and [CPU_ALIGNMENT] are 8).

    Blocks live in the word memory: a [Heap_Block] at address [b] has
    [prev_size] at [b], [size_and_flag] at [b + 8], [next] at [b + 16] and
    [prev] at [b + 24].  The list head [heap->free_list] is such a block at
    the address of the [Heap_Control]; the scalar members of the control are
    kept in a record beside the memory. *)

From S2P Require Import Prelude DList.
Open Scope width_scope.

Module Heap.

(** * Data *)

Record Heap_Statistics := {
  lifetime_allocated : Z;       (* uint64_t *)
  lifetime_freed : Z;           (* uint64_t *)
  size : Z;                     (* uintptr_t *)
  free_size : Z;                (* uintptr_t *)
  min_free_size : Z;            (* uintptr_t *)
  free_blocks : Z;              (* uint32_t, as the following *)
  max_free_blocks : Z;
  used_blocks : Z;
  max_search : Z;
  searches : Z;
  allocs : Z;
  failed_allocs : Z;
  frees : Z;
  resizes : Z;
}.

(** The members of [struct Heap_Control] other than [free_list]. *)
Record Heap_Control := {
  page_size : Z;
  min_block_size : Z;
  area_begin : Z;
  area_end : Z;
  first_block : Z;              (* Heap_Block * *)
  last_block : Z;               (* Heap_Block * *)
  stats : Heap_Statistics;
}.

Record state := { hmem : mem; ctl : Heap_Control }.

#[export, program] Instance state_HasMem : HasMem state :=
  {| get_mem := hmem; set_mem m s := {| hmem := m; ctl := ctl s |} |}.
Solve All Obligations with (by intros; repeat match goal with x : state |- _ => destruct x end).

Inductive Heap_Resize_status :=
  | HEAP_RESIZE_SUCCESSFUL
  | HEAP_RESIZE_UNSATISFIED
  | HEAP_RESIZE_FATAL_ERROR.

Record Heap_Information := { number : Z; largest : Z; total : Z }.

Record Heap_Information_block := {
  Free : Heap_Information;
  Used : Heap_Information;
  Stats : Heap_Statistics;
}.

Definition CPU_ALIGNMENT : Z := 8.
Definition HEAP_PREV_BLOCK_USED : Z := 1.
Definition HEAP_ALLOC_BONUS : Z := 8.
Definition HEAP_BLOCK_HEADER_SIZE : Z := 2 * 8 + 0.
Definition sizeof_Heap_Block : Z := 32.

Definition PREV_SIZE : Z := 0.
Definition SIZE_AND_FLAG : Z := 8.
Definition NEXT : Z := 16.
Definition PREV : Z := 24.

(** ** Field updates of the statistics *)

Definition set_lifetime_allocated v (t : Heap_Statistics) : Heap_Statistics :=
  let 'Build_Heap_Statistics _ b c d e f g h i j k l m n := t in
  Build_Heap_Statistics v b c d e f g h i j k l m n.
Definition set_lifetime_freed v (t : Heap_Statistics) : Heap_Statistics :=
  let 'Build_Heap_Statistics a _ c d e f g h i j k l m n := t in
  Build_Heap_Statistics a v c d e f g h i j k l m n.
Definition set_size v (t : Heap_Statistics) : Heap_Statistics :=
  let 'Build_Heap_Statistics a b _ d e f g h i j k l m n := t in
  Build_Heap_Statistics a b v d e f g h i j k l m n.
Definition set_free_size v (t : Heap_Statistics) : Heap_Statistics :=
  let 'Build_Heap_Statistics a b c _ e f g h i j k l m n := t in
  Build_Heap_Statistics a b c v e f g h i j k l m n.
Definition set_min_free_size v (t : Heap_Statistics) : Heap_Statistics :=
  let 'Build_Heap_Statistics a b c d _ f g h i j k l m n := t in
  Build_Heap_Statistics a b c d v f g h i j k l m n.
Definition set_free_blocks v (t : Heap_Statistics) : Heap_Statistics :=
  let 'Build_Heap_Statistics a b c d e _ g h i j k l m n := t in
  Build_Heap_Statistics a b c d e v g h i j k l m n.
Definition set_max_free_blocks v (t : Heap_Statistics) : Heap_Statistics :=
  let 'Build_Heap_Statistics a b c d e f _ h i j k l m n := t in
  Build_Heap_Statistics a b c d e f v h i j k l m n.
Definition set_used_blocks v (t : Heap_Statistics) : Heap_Statistics :=
  let 'Build_Heap_Statistics a b c d e f g _ i j k l m n := t in
  Build_Heap_Statistics a b c d e f g v i j k l m n.
Definition set_max_search v (t : Heap_Statistics) : Heap_Statistics :=
  let 'Build_Heap_Statistics a b c d e f g h _ j k l m n := t in
  Build_Heap_Statistics a b c d e f g h v j k l m n.
Definition set_searches v (t : Heap_Statistics) : Heap_Statistics :=
  let 'Build_Heap_Statistics a b c d e f g h i _ k l m n := t in
  Build_Heap_Statistics a b c d e f g h i v k l m n.
Definition set_allocs v (t : Heap_Statistics) : Heap_Statistics :=
  let 'Build_Heap_Statistics a b c d e f g h i j _ l m n := t in
  Build_Heap_Statistics a b c d e f g h i j v l m n.
Definition set_failed_allocs v (t : Heap_Statistics) : Heap_Statistics :=
  let 'Build_Heap_Statistics a b c d e f g h i j k _ m n := t in
  Build_Heap_Statistics a b c d e f g h i j k v m n.
Definition set_frees v (t : Heap_Statistics) : Heap_Statistics :=
  let 'Build_Heap_Statistics a b c d e f g h i j k l _ n := t in
  Build_Heap_Statistics a b c d e f g h i j k l v n.
Definition set_resizes v (t : Heap_Statistics) : Heap_Statistics :=
  let 'Build_Heap_Statistics a b c d e f g h i j k l m _ := t in
  Build_Heap_Statistics a b c d e f g h i j k l m v.

Definition zero_statistics : Heap_Statistics :=
  Build_Heap_Statistics 0 0 0 0 0 0 0 0 0 0 0 0 0 0.

Definition set_ctl (f : Heap_Control -> Heap_Control) : M state unit :=
  modify (fun s => {| hmem := hmem s; ctl := f (ctl s) |}).

Definition set_stats (f : Heap_Statistics -> Heap_Statistics) : M state unit :=
  set_ctl (fun c => {| page_size := page_size c; min_block_size := min_block_size c;
                       area_begin := area_begin c; area_end := area_end c;
                       first_block := first_block c; last_block := last_block c;
                       stats := f (stats c) |}).

Definition set_first_block v : M state unit :=
  set_ctl (fun c => {| page_size := page_size c; min_block_size := min_block_size c;
                       area_begin := area_begin c; area_end := area_end c;
                       first_block := v; last_block := last_block c;
                       stats := stats c |}).
Definition set_last_block v : M state unit :=
  set_ctl (fun c => {| page_size := page_size c; min_block_size := min_block_size c;
                       area_begin := area_begin c; area_end := area_end c;
                       first_block := first_block c; last_block := v;
                       stats := stats c |}).
Definition set_area_begin v : M state unit :=
  set_ctl (fun c => {| page_size := page_size c; min_block_size := min_block_size c;
                       area_begin := v; area_end := area_end c;
                       first_block := first_block c; last_block := last_block c;
                       stats := stats c |}).
Definition set_area_end v : M state unit :=
  set_ctl (fun c => {| page_size := page_size c; min_block_size := min_block_size c;
                       area_begin := area_begin c; area_end := v;
                       first_block := first_block c; last_block := last_block c;
                       stats := stats c |}).

Definition get {A} (f : Heap_Control -> A) : M state A := gets (fun s => f (ctl s)).
Definition get_stat {A} (f : Heap_Statistics -> A) : M state A := get (fun c => f (stats c)).

(** ** Block fields *)

Definition prev_size (b : Z) : M state Z := load (b + PREV_SIZE).
Definition size_and_flag (b : Z) : M state Z := load (b + SIZE_AND_FLAG).
Definition next (b : Z) : M state Z := load (b + NEXT).
Definition prev (b : Z) : M state Z := load (b + PREV).
Definition set_prev_size (b v : Z) : M state unit := store (b + PREV_SIZE) v.
Definition set_size_and_flag (b v : Z) : M state unit := store (b + SIZE_AND_FLAG) v.
Definition set_next (b v : Z) : M state unit := store (b + NEXT) v.
Definition set_prev (b v : Z) : M state unit := store (b + PREV) v.

(** * heap.h and heapimpl.h *)

Definition _Heap_Align_up (value alignment : Z) : Z :=
  let remainder := value mod alignment in
  if negb (remainder =? 0) then value -! remainder +! alignment else value.

Definition _Heap_Min_block_size (page_size : Z) : Z :=
  _Heap_Align_up sizeof_Heap_Block page_size.

Definition _Heap_Area_overhead (page_size : Z) : Z :=
  let page_size :=
    if negb (page_size =? 0) then _Heap_Align_up page_size CPU_ALIGNMENT
    else CPU_ALIGNMENT in
  u64 (2 * (page_size -! 1)) +! HEAP_BLOCK_HEADER_SIZE.

Definition _Heap_Size_with_overhead (page_size size alignment : Z) : Z :=
  let page_size :=
    if negb (page_size =? 0) then _Heap_Align_up page_size CPU_ALIGNMENT
    else CPU_ALIGNMENT in
  let page_size := if page_size <? alignment then alignment else page_size in
  HEAP_BLOCK_HEADER_SIZE +! page_size -! 1 +! size.

Definition _Heap_Free_list_head (heap : Z) : Z := heap.
Definition _Heap_Free_list_tail (heap : Z) : Z := heap.
Definition _Heap_Free_list_first (heap : Z) : M state Z := next (_Heap_Free_list_head heap).
Definition _Heap_Free_list_last (heap : Z) : M state Z := prev (_Heap_Free_list_tail heap).

Definition _Heap_Free_list_remove (block : Z) : M state unit :=
  nxt ← next block;
  prv ← prev block;
  set_next prv nxt;;
  set_prev nxt prv.

Definition _Heap_Free_list_replace (old_block new_block : Z) : M state unit :=
  nxt ← next old_block;
  prv ← prev old_block;
  set_next new_block nxt;;
  set_prev new_block prv;;
  set_prev nxt new_block;;
  set_next prv new_block.

Definition _Heap_Free_list_insert_after (block_before new_block : Z) : M state unit :=
  nxt ← next block_before;
  set_next new_block nxt;;
  set_prev new_block block_before;;
  set_next block_before new_block;;
  set_prev nxt new_block.

Definition _Heap_Free_list_insert_before (block_next new_block : Z) : M state unit :=
  prv ← prev block_next;
  set_next new_block block_next;;
  set_prev new_block prv;;
  set_next prv new_block;;
  set_prev block_next new_block.

Definition _Heap_Is_aligned (value alignment : Z) : bool := value mod alignment =? 0.

Definition _Heap_Align_down (value alignment : Z) : Z := value -! (value mod alignment).

Definition _Heap_Block_at (block offset : Z) : Z := block +! offset.

Definition _Heap_Prev_block (block : Z) : M state Z :=
  p ← prev_size block; mret (block -! p).

Definition _Heap_Alloc_area_of_block (block : Z) : Z := block +! HEAP_BLOCK_HEADER_SIZE.

Definition _Heap_Block_of_alloc_area (alloc_begin page_size : Z) : Z :=
  _Heap_Align_down alloc_begin page_size -! HEAP_BLOCK_HEADER_SIZE.

(** [x & ~HEAP_PREV_BLOCK_USED] on [uintptr_t] *)
Definition clear_flag (x : Z) : Z := Z.land x (u64 (Z.lnot HEAP_PREV_BLOCK_USED)).

Definition _Heap_Block_size (block : Z) : M state Z :=
  sf ← size_and_flag block; mret (clear_flag sf).

Definition _Heap_Block_set_size (block size : Z) : M state unit :=
  sf ← size_and_flag block;
  let flag := Z.land sf HEAP_PREV_BLOCK_USED in
  set_size_and_flag block (Z.lor size flag).

Definition _Heap_Is_prev_used (block : Z) : M state bool :=
  sf ← size_and_flag block;
  mret (negb (Z.land sf HEAP_PREV_BLOCK_USED =? 0)).

Definition _Heap_Is_used (block : Z) : M state bool :=
  sz ← _Heap_Block_size block;
  _Heap_Is_prev_used (_Heap_Block_at block sz).

Definition _Heap_Is_free (block : Z) : M state bool :=
  u ← _Heap_Is_used block; mret (negb u).

Definition _Heap_Is_block_in_heap (block : Z) : M state bool :=
  first ← get first_block;
  last ← get last_block;
  mret ((first <=? block) && (block <=? last)).

Definition _Heap_Set_last_block_size : M state unit :=
  last ← get last_block;
  first ← get first_block;
  _Heap_Block_set_size last (first -! last).

Definition _Heap_Get_size : M state Z := get_stat size.

Definition _Heap_Max (a b : Z) : Z := if b <? a then a else b.
Definition _Heap_Min (a b : Z) : Z := if a <? b then a else b.

(** [block->size_and_flag &= ~HEAP_PREV_BLOCK_USED] and [|=]. *)
Definition clear_prev_used (block : Z) : M state unit :=
  sf ← size_and_flag block; set_size_and_flag block (clear_flag sf).
Definition set_prev_used (block : Z) : M state unit :=
  sf ← size_and_flag block; set_size_and_flag block (Z.lor sf HEAP_PREV_BLOCK_USED).

(** * heap.c *)

Definition _Heap_Get_first_and_last_block
    (heap_area_begin heap_area_size page_size min_block_size : Z)
    : option (Z * Z) :=
  let heap_area_end := heap_area_begin +! heap_area_size in
  let alloc_area_begin :=
    _Heap_Align_up (heap_area_begin +! HEAP_BLOCK_HEADER_SIZE) page_size in
  let first_block_begin := alloc_area_begin -! HEAP_BLOCK_HEADER_SIZE in
  let overhead :=
    HEAP_BLOCK_HEADER_SIZE +! (first_block_begin -! heap_area_begin) in
  let first_block_size := _Heap_Align_down (heap_area_size -! overhead) page_size in
  let first_block := first_block_begin in
  let last_block := _Heap_Block_at first_block first_block_size in
  if (heap_area_end <? heap_area_begin) || (heap_area_size <=? overhead)
     || (first_block_size <? min_block_size)
  then None
  else Some (first_block, last_block).

(** Returns 0, leaving the state alone, on failure. *)
Definition _Heap_Initialize (heap heap_area_begin heap_area_size page_size : Z)
    : M state Z :=
  let heap_area_end := heap_area_begin +! heap_area_size in
  let page_size' :=
    if page_size =? 0 then CPU_ALIGNMENT else _Heap_Align_up page_size CPU_ALIGNMENT in
  if negb (page_size =? 0) && (page_size' <? CPU_ALIGNMENT) then mret 0 else
  let min_block_size := _Heap_Min_block_size page_size' in
  match _Heap_Get_first_and_last_block heap_area_begin heap_area_size
          page_size' min_block_size with
  | None => mret 0
  | Some (first_block, last_block) =>
      (* memset(heap, 0, sizeof( *heap )) *)
      set_prev_size heap 0;; set_size_and_flag heap 0;;
      set_next heap 0;; set_prev heap 0;;
      set_ctl (fun _ => Build_Heap_Control 0 0 0 0 0 0 zero_statistics);;
      let first_block_begin := first_block in
      let last_block_begin := last_block in
      let first_block_size := last_block_begin -! first_block_begin in
      (* First block *)
      set_prev_size first_block heap_area_end;;
      set_size_and_flag first_block (Z.lor first_block_size HEAP_PREV_BLOCK_USED);;
      set_next first_block (_Heap_Free_list_tail heap);;
      set_prev first_block (_Heap_Free_list_head heap);;
      (* Heap control *)
      set_ctl (fun c => {|
        page_size := page_size'; min_block_size := min_block_size;
        area_begin := heap_area_begin; area_end := heap_area_end;
        first_block := first_block; last_block := last_block;
        stats := stats c |});;
      set_next (_Heap_Free_list_head heap) first_block;;
      set_prev (_Heap_Free_list_tail heap) first_block;;
      (* Last block *)
      set_prev_size last_block first_block_size;;
      set_size_and_flag last_block 0;;
      _Heap_Set_last_block_size;;
      (* Statistics *)
      set_stats (set_size first_block_size);;
      set_stats (set_free_size first_block_size);;
      set_stats (set_min_free_size first_block_size);;
      set_stats (set_free_blocks 1);;
      set_stats (set_max_free_blocks 1);;
      mret first_block_size
  end.

Definition _Heap_Block_split (heap block free_list_anchor alloc_size : Z) : M state unit :=
  page_size ← get page_size;
  min_block_size ← get min_block_size;
  let min_alloc_size := min_block_size -! HEAP_BLOCK_HEADER_SIZE in
  block_size ← _Heap_Block_size block;
  let used_size := _Heap_Max alloc_size min_alloc_size +! HEAP_BLOCK_HEADER_SIZE in
  let used_block_size := _Heap_Align_up used_size page_size in
  let free_size' := block_size +! HEAP_ALLOC_BONUS -! used_size in
  let free_size_limit := min_block_size +! HEAP_ALLOC_BONUS in
  let next_block := _Heap_Block_at block block_size in
  if free_size_limit <=? free_size' then
    let free_block := _Heap_Block_at block used_block_size in
    let free_block_size := block_size -! used_block_size in
    _Heap_Block_set_size block used_block_size;;
    (* Statistics *)
    set_stats (fun t => set_free_size (free_size t +! free_block_size) t);;
    next_used ← _Heap_Is_used next_block;
    '(free_block_size, next_block) ←
      (if (next_used : bool) then
         _Heap_Free_list_insert_after free_list_anchor free_block;;
         (* Statistics *)
         set_stats (fun t => set_free_blocks (free_blocks t +. 1) t);;
         mret (free_block_size, next_block)
       else
         next_block_size ← _Heap_Block_size next_block;
         _Heap_Free_list_replace next_block free_block;;
         let free_block_size := free_block_size +! next_block_size in
         mret (free_block_size, _Heap_Block_at free_block free_block_size));
    set_size_and_flag free_block (Z.lor free_block_size HEAP_PREV_BLOCK_USED);;
    set_prev_size next_block free_block_size;;
    clear_prev_used next_block
  else
    set_prev_used next_block.

Definition _Heap_Block_allocate_from_begin
    (heap block free_list_anchor alloc_size : Z) : M state Z :=
  _Heap_Block_split heap block free_list_anchor alloc_size;;
  mret block.

Definition _Heap_Block_allocate_from_end
    (heap block free_list_anchor alloc_begin alloc_size : Z) : M state Z :=
  page_size ← get page_size;
  let block_begin := block in
  block_size ← _Heap_Block_size block;
  let block_end := block_begin +! block_size in
  let new_block := _Heap_Block_of_alloc_area alloc_begin page_size in
  let new_block_begin := new_block in
  let new_block_size := block_end -! new_block_begin in
  let block_end := new_block_begin in
  let block_size := block_end -! block_begin in
  (* Statistics *)
  set_stats (fun t => set_free_size (free_size t +! block_size) t);;
  prev_used ← _Heap_Is_prev_used block;
  '(block, block_size, free_list_anchor) ←
    (if (prev_used : bool) then
       _Heap_Free_list_insert_after free_list_anchor block;;
       (* Statistics *)
       set_stats (fun t => set_free_blocks (free_blocks t +. 1) t);;
       mret (block, block_size, block)
     else
       prev_block ← _Heap_Prev_block block;
       prev_block_size ← _Heap_Block_size prev_block;
       mret (prev_block, block_size +! prev_block_size, free_list_anchor));
  set_size_and_flag block (Z.lor block_size HEAP_PREV_BLOCK_USED);;
  set_prev_size new_block block_size;;
  set_size_and_flag new_block new_block_size;;
  _Heap_Block_split heap new_block free_list_anchor alloc_size;;
  mret new_block.

Definition _Heap_Block_allocate (heap block alloc_begin alloc_size : Z) : M state Z :=
  let alloc_area_begin := _Heap_Alloc_area_of_block block in
  let alloc_area_offset := alloc_begin -! alloc_area_begin in
  is_free ← _Heap_Is_free block;
  free_list_anchor ←
    (if (is_free : bool) then
       anchor ← prev block;
       _Heap_Free_list_remove block;;
       (* Statistics *)
       set_stats (fun t => set_free_blocks (free_blocks t -. 1) t);;
       set_stats (fun t => set_used_blocks (used_blocks t +. 1) t);;
       sz ← _Heap_Block_size block;
       set_stats (fun t => set_free_size (free_size t -! sz) t);;
       mret anchor
     else mret (_Heap_Free_list_head heap));
  page_size ← get page_size;
  block ←
    (if alloc_area_offset <? page_size then
       let alloc_size := alloc_size +! alloc_area_offset in
       _Heap_Block_allocate_from_begin heap block free_list_anchor alloc_size
     else
       _Heap_Block_allocate_from_end heap block free_list_anchor alloc_begin alloc_size);
  (* Statistics *)
  set_stats (fun t => if free_size t <? min_free_size t
                      then set_min_free_size (free_size t) t else t);;
  mret block.

(** * heapallocate.c *)

(** The boundary loop of [_Heap_Check_block]: [None] is [return 0]. *)
Definition check_boundary_loop (alloc_size alignment boundary boundary_floor : Z)
    : Z * Z * Z -> M state (Z * Z * Z + option Z) :=
  fun '(alloc_begin, alloc_end, boundary_line) =>
    if (alloc_begin <? boundary_line) && (boundary_line <? alloc_end) then
      if boundary_line <? boundary_floor then mret (inr None)
      else
        let alloc_begin := boundary_line -! alloc_size in
        let alloc_begin := _Heap_Align_down alloc_begin alignment in
        let alloc_end := alloc_begin +! alloc_size in
        let boundary_line := _Heap_Align_down alloc_end boundary in
        mret (inl (alloc_begin, alloc_end, boundary_line))
    else mret (inr (Some alloc_begin)).

Definition _Heap_Check_block (block alloc_size alignment boundary : Z) : M state Z :=
  page_size ← get page_size;
  min_block_size ← get min_block_size;
  let block_begin := block in
  block_size ← _Heap_Block_size block;
  let block_end := block_begin +! block_size in
  let alloc_begin_floor := _Heap_Alloc_area_of_block block in
  let alloc_begin_ceiling :=
    block_end -! min_block_size +! HEAP_BLOCK_HEADER_SIZE +! page_size -! 1 in
  let alloc_end := block_end +! HEAP_ALLOC_BONUS in
  let alloc_begin := alloc_end -! alloc_size in
  let alloc_begin := _Heap_Align_down alloc_begin alignment in
  (* Ensure that the we have a valid new block at the end *)
  let alloc_begin :=
    if alloc_begin_ceiling <? alloc_begin
    then _Heap_Align_down alloc_begin_ceiling alignment else alloc_begin in
  let alloc_end := alloc_begin +! alloc_size in
  (* Ensure boundary constaint *)
  r ← (if negb (boundary =? 0) then
         let boundary_floor := alloc_begin_floor +! alloc_size in
         let boundary_line := _Heap_Align_down alloc_end boundary in
         whileM (check_boundary_loop alloc_size alignment boundary boundary_floor)
           (alloc_begin, alloc_end, boundary_line)
       else mret (Some alloc_begin));
  match r with
  | None => mret 0
  | Some alloc_begin =>
      (* Ensure that the we have a valid new block at the beginning *)
      if alloc_begin_floor <=? alloc_begin then
        let alloc_block_begin := _Heap_Block_of_alloc_area alloc_begin page_size in
        let free_size := alloc_block_begin -! block_begin in
        if (min_block_size <=? free_size) || (free_size =? 0)
        then mret alloc_begin else mret 0
      else mret 0
  end.

(** The search loop: the block and begin address found (0 if none) and the
    number of blocks visited. *)
Definition allocate_search_loop (heap alloc_size alignment boundary block_size_floor : Z)
    : Z * Z * Z -> M state (Z * Z * Z + Z * Z * Z) :=
  fun '(block, alloc_begin, search_count) =>
    if block =? _Heap_Free_list_tail heap then mret (inr (block, alloc_begin, search_count))
    else
      sf ← size_and_flag block;
      alloc_begin ←
        (if block_size_floor <? sf then
           if alignment =? 0 then mret (_Heap_Alloc_area_of_block block)
           else _Heap_Check_block block alloc_size alignment boundary
         else mret alloc_begin);
      (* Statistics *)
      let search_count := search_count +. 1 in
      if negb (alloc_begin =? 0) then mret (inr (block, alloc_begin, search_count))
      else
        block ← next block;
        mret (inl (block, alloc_begin, search_count)).

Definition _Heap_Allocate_aligned_with_boundary
    (heap alloc_size alignment boundary : Z) : M state Z :=
  let block_size_floor := alloc_size +! HEAP_BLOCK_HEADER_SIZE -! HEAP_ALLOC_BONUS in
  page_size ← get page_size;
  if block_size_floor <? alloc_size then mret NULL else
  if negb (boundary =? 0) && (boundary <? alloc_size) then mret NULL else
  let alignment :=
    if negb (boundary =? 0) && (alignment =? 0) then page_size else alignment in
  first ← _Heap_Free_list_first heap;
  '(block, alloc_begin, search_count) ←
    whileM (allocate_search_loop heap alloc_size alignment boundary block_size_floor)
      (first, 0, 0);
  (if negb (alloc_begin =? 0) then
     block ← _Heap_Block_allocate heap block alloc_begin alloc_size;
     (* Statistics *)
     set_stats (fun t => set_allocs (allocs t +. 1) t);;
     set_stats (fun t => set_searches (searches t +. search_count) t);;
     sz ← _Heap_Block_size block;
     set_stats (fun t => set_lifetime_allocated (lifetime_allocated t +! sz) t)
   else
     set_stats (fun t => set_failed_allocs (failed_allocs t +. 1) t));;
  (* Statistics *)
  set_stats (fun t => if max_search t <? search_count
                      then set_max_search search_count t else t);;
  mret alloc_begin.

Definition _Heap_Allocate_aligned (heap size alignment : Z) : M state Z :=
  _Heap_Allocate_aligned_with_boundary heap size alignment 0.

Definition _Heap_Allocate (heap size : Z) : M state Z :=
  _Heap_Allocate_aligned_with_boundary heap size 0 0.

(** * heapfree.c *)

Definition _Heap_Free (heap alloc_begin : Z) : M state bool :=
  if alloc_begin =? NULL then mret true else
  page_size ← get page_size;
  let block := _Heap_Block_of_alloc_area alloc_begin page_size in
  in_heap ← _Heap_Is_block_in_heap block;
  if negb in_heap then mret false else
  block_size ← _Heap_Block_size block;
  let next_block := _Heap_Block_at block block_size in
  in_heap ← _Heap_Is_block_in_heap next_block;
  if negb in_heap then mret false else
  used ← _Heap_Is_prev_used next_block;
  if negb used then mret false else
  next_block_size ← _Heap_Block_size next_block;
  last ← get last_block;
  next_is_free ←
    (if negb (next_block =? last) then
       u ← _Heap_Is_prev_used (_Heap_Block_at next_block next_block_size);
       mret (negb u)
     else mret false);
  prev_used ← _Heap_Is_prev_used block;
  let finish :=
    (* Statistics *)
    set_stats (fun t => set_used_blocks (used_blocks t -. 1) t);;
    set_stats (fun t => set_frees (frees t +. 1) t);;
    set_stats (fun t => set_free_size (free_size t +! block_size) t);;
    set_stats (fun t => set_lifetime_freed (lifetime_freed t +! block_size) t);;
    mret true in
  if negb prev_used then
    prev_size ← prev_size block;
    let prev_block := _Heap_Block_at block (u64 (- prev_size)) in
    in_heap ← _Heap_Is_block_in_heap prev_block;
    if negb in_heap then mret false else
    pu ← _Heap_Is_prev_used prev_block;
    if negb pu then mret false else
    if (next_is_free : bool) then       (* coalesce both *)
      let size := block_size +! prev_size +! next_block_size in
      _Heap_Free_list_remove next_block;;
      set_stats (fun t => set_free_blocks (free_blocks t -. 1) t);;
      set_size_and_flag prev_block (Z.lor size HEAP_PREV_BLOCK_USED);;
      let next_block := _Heap_Block_at prev_block size in
      set_prev_size next_block size;;
      finish
    else                                (* coalesce prev *)
      let size := block_size +! prev_size in
      set_size_and_flag prev_block (Z.lor size HEAP_PREV_BLOCK_USED);;
      clear_prev_used next_block;;
      set_prev_size next_block size;;
      finish
  else if (next_is_free : bool) then    (* coalesce next *)
    let size := block_size +! next_block_size in
    _Heap_Free_list_replace next_block block;;
    set_size_and_flag block (Z.lor size HEAP_PREV_BLOCK_USED);;
    let next_block := _Heap_Block_at block size in
    set_prev_size next_block size;;
    finish
  else                                  (* no coalesce *)
    _Heap_Free_list_insert_after (_Heap_Free_list_head heap) block;;
    set_size_and_flag block (Z.lor block_size HEAP_PREV_BLOCK_USED);;
    clear_prev_used next_block;;
    set_prev_size next_block block_size;;
    (* Statistics *)
    set_stats (fun t => set_free_blocks (free_blocks t +. 1) t);;
    set_stats (fun t => if max_free_blocks t <? free_blocks t
                        then set_max_free_blocks (free_blocks t) t else t);;
    finish.

(** * heapresizeblock.c *)

(** Returns the status and the values stored to [*old_size] and
    [*new_size]. *)
Definition _Heap_Resize_block_checked (heap block alloc_begin new_alloc_size : Z)
    : M state (Heap_Resize_status * Z * Z) :=
  let block_begin := block in
  block_size ← _Heap_Block_size block;
  let block_end := block_begin +! block_size in
  let alloc_size := block_end -! alloc_begin +! HEAP_ALLOC_BONUS in
  let next_block := _Heap_Block_at block block_size in
  next_block_size ← _Heap_Block_size next_block;
  next_block_is_free ← _Heap_Is_free next_block;
  let old_size := alloc_size in
  let block_size := if (next_block_is_free : bool) then block_size +! next_block_size
                    else block_size in
  let alloc_size := if (next_block_is_free : bool) then alloc_size +! next_block_size
                    else alloc_size in
  if alloc_size <? new_alloc_size then mret (HEAP_RESIZE_UNSATISFIED, old_size, 0) else
  whenM next_block_is_free
    (_Heap_Block_set_size block block_size;;
     _Heap_Free_list_remove next_block;;
     let next_block := _Heap_Block_at block block_size in
     set_prev_used next_block;;
     (* Statistics *)
     set_stats (fun t => set_free_blocks (free_blocks t -. 1) t);;
     set_stats (fun t => set_free_size (free_size t -! next_block_size) t));;
  block ← _Heap_Block_allocate heap block alloc_begin new_alloc_size;
  block_size ← _Heap_Block_size block;
  let next_block := _Heap_Block_at block block_size in
  let new_size := next_block -! alloc_begin +! HEAP_ALLOC_BONUS in
  (* Statistics *)
  set_stats (fun t => set_resizes (resizes t +. 1) t);;
  mret (HEAP_RESIZE_SUCCESSFUL, old_size, new_size).

Definition _Heap_Resize_block (heap alloc_begin new_alloc_size : Z)
    : M state (Heap_Resize_status * Z * Z) :=
  page_size ← get page_size;
  let block := _Heap_Block_of_alloc_area alloc_begin page_size in
  in_heap ← _Heap_Is_block_in_heap block;
  if (in_heap : bool) then _Heap_Resize_block_checked heap block alloc_begin new_alloc_size
  else mret (HEAP_RESIZE_FATAL_ERROR, 0, 0).

(** * heapsizeofuserarea.c *)

(** [None] is the result [false]; otherwise the value of [*alloc_size]. *)
Definition _Heap_Size_of_alloc_area (alloc_begin : Z) : M state (option Z) :=
  page_size ← get page_size;
  let block := _Heap_Block_of_alloc_area alloc_begin page_size in
  in_heap ← _Heap_Is_block_in_heap block;
  if negb in_heap then mret None else
  block_size ← _Heap_Block_size block;
  let next_block := _Heap_Block_at block block_size in
  in_heap ← _Heap_Is_block_in_heap next_block;
  if negb in_heap then mret None else
  used ← _Heap_Is_prev_used next_block;
  if negb used then mret None else
  mret (Some (next_block +! HEAP_ALLOC_BONUS -! alloc_begin)).

(** * heapiterate.c, heapgetinfo.c, heapgetfreeinfo.c *)

(** [visitor block block_size block_is_used arg] returns whether to stop and
    the updated argument. *)
Definition _Heap_Iterate {A} (visitor : Z -> Z -> bool -> A -> bool * A) (visitor_arg : A)
    : M state A :=
  first ← get first_block;
  last ← get last_block;
  whileM (fun '(stop, current, arg) =>
    if negb stop && negb (current =? last) then
      size ← _Heap_Block_size current;
      let next := _Heap_Block_at current size in
      used ← _Heap_Is_prev_used next;
      let '(stop, arg) := visitor current size used arg in
      mret (inl (stop, next, arg))
    else mret (inr arg)) (false, first, visitor_arg).

Definition add_block (block_size : Z) (info : Heap_Information) : Heap_Information :=
  {| number := number info +! 1;
     total := total info +! block_size;
     largest := if largest info <? block_size then block_size else largest info |}.

Definition _Heap_Get_information_visitor (_ block_size : Z) (block_is_used : bool)
    (info_block : Heap_Information_block) : bool * Heap_Information_block :=
  (false,
   if block_is_used
   then {| Used := add_block block_size (Used info_block);
           Free := Free info_block; Stats := Stats info_block |}
   else {| Free := add_block block_size (Free info_block);
           Used := Used info_block; Stats := Stats info_block |}).

Definition zero_information : Heap_Information := {| number := 0; largest := 0; total := 0 |}.

Definition _Heap_Get_information : M state Heap_Information_block :=
  info ← _Heap_Iterate _Heap_Get_information_visitor
    {| Free := zero_information; Used := zero_information; Stats := zero_statistics |};
  st ← get stats;
  mret {| Free := Free info; Used := Used info; Stats := st |}.

(** The block size is truncated to [uint32_t], as in the code. *)
Definition _Heap_Get_free_information (heap : Z) : M state Heap_Information :=
  let tail := _Heap_Free_list_tail heap in
  first ← _Heap_Free_list_first heap;
  whileM (fun '(the_block, info) =>
    if the_block =? tail then mret (inr info)
    else
      sz ← _Heap_Block_size the_block;
      let the_size := u32 sz in
      let info := {| number := number info +! 1;
                     total := total info +! the_size;
                     largest := if largest info <? the_size then the_size
                                else largest info |} in
      nxt ← next the_block;
      mret (inl (nxt, info))) (first, zero_information).

End Heap.
