(* ===== verification/HeapInv.v ===== *)
(** The representation invariant of the heap: the memory between
    [first_block] and [last_block] is tiled by blocks with consistent
    boundary tags, no two neighbouring blocks are free, and the free list
    links exactly the free blocks.  This file holds the invariant and what
    stores do to its parts; HeapAlloc.v and HeapFree.v prove the operations
    against it. *)

From S2P Require Import Prelude DList Heap.
Import Heap.
Open Scope width_scope.

Module HeapInv.

(** An abstract block: its size in bytes, header included, and whether it is
    used. *)
Record block := Blk { bsize : Z; bused : bool }.

Definition flag (b : bool) : Z := if b then 1 else 0.

(** * Words with a flag in their least significant bit *)

Lemma lor_1 x : Z.even x = true -> Z.lor x 1 = x + 1.
Proof.
  intros He. apply Z.even_spec in He as [y ->].
  rewrite Z.add_comm, <- Z.lxor_lor, Z.add_nocarry_lxor; [apply Z.lxor_comm|..].
  all: apply Z.bits_inj'; intros i Hi; rewrite ?Z.land_spec, ?Z.testbit_0_l;
    destruct (Z.eq_dec i 0) as [->|Hne]; rewrite ?Z.testbit_even_0, ?andb_false_r; try done;
    (destruct i; [done| |lia]); cbn; try done; by rewrite ?andb_false_r.
Qed.

Lemma lor_flag x b : Z.even x = true -> Z.lor x (flag b) = x + flag b.
Proof. intros He. destruct b; cbn [flag]; [by apply lor_1|]. rewrite Z.lor_0_r. lia. Qed.

Lemma land_flag x b : Z.even x = true -> Z.land (x + flag b) HEAP_PREV_BLOCK_USED = flag b.
Proof.
  intros He. unfold HEAP_PREV_BLOCK_USED. change 1 with (Z.ones 1) at 1.
  rewrite Z.land_ones by lia. apply Z.even_spec in He as [y ->].
  rewrite Z.add_comm, Z.mul_comm, Z.mod_add by lia. by destruct b.
Qed.

Lemma clear_flag_even x b : Z.even x = true -> 0 <= x < 2 ^ 64 ->
  clear_flag (x + flag b) = x.
Proof.
  intros He Hx. unfold clear_flag.
  assert (Hb : Z.even (u64 (Z.lnot HEAP_PREV_BLOCK_USED)) = true) by (vm_compute; reflexivity).
  rewrite <- (lor_flag x b He). apply Z.bits_inj'. intros i Hi.
  rewrite Z.land_spec, Z.lor_spec. destruct (Z.eq_dec i 0) as [->|Hne].
  - rewrite !Z.bit0_odd, <- !Z.negb_even, Hb, He. by rewrite andb_false_r.
  - assert (Hf : Z.testbit (flag b) i = false).
    { destruct b; cbn [flag]; [|apply Z.testbit_0_l].
      apply (testbit_above 1 1); [lia|lia|lia]. }
    rewrite Hf, orb_false_r. destruct (Z.lt_ge_cases i 64).
    + change (u64 (Z.lnot HEAP_PREV_BLOCK_USED)) with (Z.lnot 1 mod 2 ^ 64).
      rewrite Z.mod_pow2_bits_low, Z.lnot_spec by lia.
      rewrite (testbit_above 1 1 i) by lia. apply andb_true_r.
    + by rewrite (testbit_above x 64 i) by lia.
Qed.

Lemma even_mod8 x : x mod 8 = 0 -> Z.even x = true.
Proof.
  intros H. rewrite Zeven_mod. apply Z.eqb_eq.
  pose proof (Z.div_mod x 8 ltac:(lia)) as E. rewrite H in E.
  rewrite E. replace (8 * (x / 8) + 0) with (4 * (x / 8) * 2) by lia.
  by apply Z_mod_mult.
Qed.

(** * Segments of blocks *)

Fixpoint sizes (bs : list block) : Z :=
  match bs with
  | [] => 0
  | b :: bs' => bsize b + sizes bs'
  end.

(** The usage of the last block of a segment, [pu] for an empty one. *)
Fixpoint lastu (pu : bool) (bs : list block) : bool :=
  match bs with
  | [] => pu
  | b :: bs' => lastu (bused b) bs'
  end.

Lemma sizes_app l1 l2 : sizes (l1 ++ l2) = sizes l1 + sizes l2.
Proof. induction l1; cbn; lia. Qed.

Lemma lastu_app pu l1 l2 : lastu pu (l1 ++ l2) = lastu (lastu pu l1) l2.
Proof. revert pu. by induction l1; cbn. Qed.

(** The addresses of the free blocks. *)
Fixpoint free_addrs (a : Z) (bs : list block) : list Z :=
  match bs with
  | [] => []
  | b :: bs' => (if bused b then [] else [a]) ++ free_addrs (a + bsize b) bs'
  end.

Lemma free_addrs_app a l1 l2 :
  free_addrs a (l1 ++ l2) = free_addrs a l1 ++ free_addrs (a + sizes l1) l2.
Proof.
  revert a. induction l1 as [|b l1 IH]; intros a; cbn; [by rewrite Z.add_0_r|].
  rewrite IH, <- app_assoc. by rewrite Z.add_assoc.
Qed.

(** Total size and number of the blocks of one kind. *)
Definition sizes_of (u : bool) (bs : list block) : Z :=
  sizes (filter (fun b => bused b = u) bs).
Definition count_of (u : bool) (bs : list block) : Z :=
  Z.of_nat (length (filter (fun b => bused b = u) bs)).

Lemma sizes_of_app u l1 l2 : sizes_of u (l1 ++ l2) = sizes_of u l1 + sizes_of u l2.
Proof. unfold sizes_of. by rewrite filter_app, sizes_app. Qed.

Lemma count_of_app u l1 l2 : count_of u (l1 ++ l2) = count_of u l1 + count_of u l2.
Proof. unfold count_of. rewrite filter_app, length_app. lia. Qed.

Lemma sizes_of_cons u b l :
  sizes_of u (b :: l) = (if Bool.eqb (bused b) u then bsize b else 0) + sizes_of u l.
Proof.
  unfold sizes_of. rewrite filter_cons.
  destruct (Bool.eqb_spec (bused b) u); case_decide; cbn; try done; lia.
Qed.

Lemma count_of_cons u b l :
  count_of u (b :: l) = (if Bool.eqb (bused b) u then 1 else 0) + count_of u l.
Proof.
  unfold count_of. rewrite filter_cons.
  destruct (Bool.eqb_spec (bused b) u); case_decide; cbn [length]; try done; lia.
Qed.

Section segments.
(** Page size and minimum block size. *)
Context (ps mbs : Z).

(** Boundary tags of the blocks [bs] that start at [a]; [pu] says whether
    the block before [a] is used. *)
Fixpoint seg (m : mem) (a : Z) (pu : bool) (bs : list block) : Prop :=
  match bs with
  | [] => True
  | b :: bs' =>
      m !! (a + SIZE_AND_FLAG) = Some (bsize b + flag pu) /\
      (bused b = false -> pu = true /\ m !! (a + bsize b + PREV_SIZE) = Some (bsize b)) /\
      seg m (a + bsize b) (bused b) bs'
  end.

(** Sizes are multiples of the page size and at least the minimum. *)
Definition good_size (b : block) : Prop := bsize b mod ps = 0 /\ mbs <= bsize b.
Definition good (bs : list block) : Prop := Forall good_size bs.

Lemma seg_app m a pu l1 l2 :
  seg m a pu (l1 ++ l2) <-> seg m a pu l1 /\ seg m (a + sizes l1) (lastu pu l1) l2.
Proof.
  revert a pu. induction l1 as [|b l1 IH]; intros a pu; cbn.
  - rewrite Z.add_0_r. tauto.
  - rewrite IH, Z.add_assoc. tauto.
Qed.

Hypothesis (Hmbs : 32 <= mbs).

Lemma sizes_nonneg bs : good bs -> 0 <= sizes bs.
Proof. induction 1 as [|b bs [_ Hb] _ IH]; cbn; lia. Qed.

Lemma sizes_mod bs : 0 < ps -> good bs -> sizes bs mod ps = 0.
Proof.
  intros Hps. induction 1 as [|b bs [Hb _] _ IH]; cbn; [by apply Z.mod_0_l; lia|].
  rewrite Z.add_mod, Hb, IH by lia. by apply Z.mod_0_l; lia.
Qed.

Lemma free_addrs_range a bs x : good bs -> x ∈ free_addrs a bs ->
  a <= x /\ x + mbs <= a + sizes bs.
Proof.
  intros Hg. revert a. induction Hg as [|b bs [_ Hb] Hg IH]; intros a; cbn; [set_solver|].
  pose proof (sizes_nonneg bs Hg).
  intros [Hx|Hx]%elem_of_app; [|apply IH in Hx; lia].
  destruct (bused b); [set_solver|]. apply list_elem_of_singleton in Hx as ->. lia.
Qed.

Lemma free_addrs_NoDup a bs : good bs -> NoDup (free_addrs a bs).
Proof.
  intros Hg. revert a. induction Hg as [|b bs [_ Hb] Hg IH]; intros a; cbn; [constructor|].
  destruct (bused b); [apply IH|]. cbn. apply NoDup_cons. split; [|apply IH].
  intros Hx. apply free_addrs_range in Hx; [lia|done].
Qed.

(** A free block has its tag repeated at its end. *)
Lemma seg_insert_out m a pu bs k v : good bs ->
  k < a + 8 \/ a + sizes bs < k -> seg m a pu bs -> seg (<[k := v]> m) a pu bs.
Proof.
  intros Hg. revert a pu. induction Hg as [|b bs [_ Hb] Hg IH]; intros a pu Hk; cbn; [done|].
  pose proof (sizes_nonneg bs Hg). cbn in Hk. unfold SIZE_AND_FLAG, PREV_SIZE in *.
  intros (H1 & H2 & H3). split_and!.
  - rewrite lookup_insert_ne by lia. done.
  - intros Hu. destruct (H2 Hu) as [-> H2']. split; [done|].
    by rewrite lookup_insert_ne by lia.
  - apply IH; [lia|done].
Qed.

(** A store strictly inside a block is invisible to the tags. *)
Lemma seg_insert_in m a pu l1 b l2 k v : good (l1 ++ b :: l2) ->
  a + sizes l1 + 8 < k < a + sizes l1 + bsize b ->
  seg m a pu (l1 ++ b :: l2) -> seg (<[k := v]> m) a pu (l1 ++ b :: l2).
Proof.
  intros Hg Hk. apply Forall_app in Hg as [Hg1 Hg2]. apply Forall_cons in Hg2 as [Hb Hg2].
  pose proof (sizes_nonneg l1 Hg1). pose proof (sizes_nonneg l2 Hg2).
  rewrite !seg_app. cbn. unfold SIZE_AND_FLAG, PREV_SIZE in *.
  intros (H1 & H2 & H3 & H4). split_and!.
  - apply seg_insert_out; [done|lia|done].
  - by rewrite lookup_insert_ne by lia.
  - intros Hu. destruct (H3 Hu) as [-> ?]. split; [done|]. by rewrite lookup_insert_ne by lia.
  - apply seg_insert_out; [done|lia|done].
Qed.

(** Words of the allocated areas of the used blocks: from the end of the
    header up to and including the [prev_size] word of the next block. *)
Fixpoint user_word (a : Z) (bs : list block) (k : Z) : Prop :=
  match bs with
  | [] => False
  | b :: bs' => (bused b = true /\ a + HEAP_BLOCK_HEADER_SIZE <= k <= a + bsize b) \/
                user_word (a + bsize b) bs' k
  end.

Lemma user_word_app a l1 l2 k :
  user_word a (l1 ++ l2) k <-> user_word a l1 k \/ user_word (a + sizes l1) l2 k.
Proof.
  revert a. induction l1 as [|b l1 IH]; intros a; cbn.
  - rewrite Z.add_0_r. tauto.
  - rewrite IH, Z.add_assoc. tauto.
Qed.

Lemma user_word_range a bs k : good bs -> user_word a bs k ->
  a + 16 <= k <= a + sizes bs.
Proof.
  intros Hg. revert a. induction Hg as [|b bs [_ Hb] Hg IH]; intros a; cbn; [done|].
  pose proof (sizes_nonneg bs Hg). unfold HEAP_BLOCK_HEADER_SIZE.
  intros [[_ ?]|Hk]; [lia|]. apply IH in Hk. lia.
Qed.

(** Allocated areas do not meet the free blocks. *)
Lemma user_word_free a bs k x : good bs -> user_word a bs k -> x ∈ free_addrs a bs ->
  k <= x \/ x + mbs < k.
Proof.
  intros Hg. revert a. induction Hg as [|b bs [_ Hb] Hg IH]; intros a; cbn; [done|].
  unfold HEAP_BLOCK_HEADER_SIZE. intros Hk [Hx|Hx]%elem_of_app.
  - destruct (bused b); [set_solver|]. apply list_elem_of_singleton in Hx as ->.
    destruct Hk as [[? _]|Hk]; [done|]. apply user_word_range in Hk; [lia|done].
  - destruct Hk as [[_ ?]|Hk]; [|by eapply IH].
    apply free_addrs_range in Hx; [lia|done].
Qed.
End segments.

(** * The words that hold tags *)

Fixpoint tag (a : Z) (bs : list block) (k : Z) : Prop :=
  match bs with
  | [] => False
  | b :: bs' => k = a + SIZE_AND_FLAG \/ (bused b = false /\ k = a + bsize b + PREV_SIZE) \/
                tag (a + bsize b) bs' k
  end.

Lemma seg_ext m m' a pu bs : (forall k, tag a bs k -> m' !! k = m !! k) ->
  seg m a pu bs -> seg m' a pu bs.
Proof.
  revert a pu. induction bs as [|b bs IH]; intros a pu Hk; cbn; [done|].
  intros (H1 & H2 & H3). cbn in Hk. split_and!.
  - rewrite Hk; auto.
  - intros Hu. destruct (H2 Hu). split; [done|]. rewrite Hk; auto.
  - apply IH; auto.
Qed.

Section tags.
Context (ps mbs : Z) (Hmbs : 32 <= mbs).

Lemma tag_range a bs k : good ps mbs bs -> tag a bs k ->
  a + 8 <= k <= a + sizes bs.
Proof.
  intros Hg. revert a. induction Hg as [|b bs [_ Hb] Hg IH]; intros a; cbn; [done|].
  pose proof (sizes_nonneg ps mbs Hmbs bs Hg). unfold SIZE_AND_FLAG, PREV_SIZE.
  intros [->|[[_ ->]|Hk]]; [lia|lia|]. apply IH in Hk. lia.
Qed.

(** Tags are not links. *)
Lemma tag_not_link a bs k x : good ps mbs bs -> tag a bs k ->
  x ∈ free_addrs a bs \/ x + 32 <= a \/ a + sizes bs <= x ->
  k <> x + NEXT /\ k <> x + PREV.
Proof.
  intros Hg Hk Hx. unfold NEXT, PREV.
  pose proof (tag_range a bs k Hg Hk). destruct Hx as [Hx|Hx]; [|lia].
  revert a Hk Hx H. induction Hg as [|b bs [_ Hb] Hg IH]; intros a; cbn; [done|].
  pose proof (sizes_nonneg ps mbs Hmbs bs Hg). unfold SIZE_AND_FLAG, PREV_SIZE.
  intros Hk [Hx|Hx]%elem_of_app Hr.
  - destruct (bused b); [set_solver|]. apply list_elem_of_singleton in Hx as ->.
    destruct Hk as [->|[[_ ->]|Hk]]; [lia|lia|].
    apply tag_range in Hk; [lia|done].
  - pose proof Hx as Hx'. apply (free_addrs_range ps mbs) in Hx'; [|lia|done].
    destruct Hk as [->|[[_ ->]|Hk]]; [lia|lia|].
    eapply IH; [exact Hk|exact Hx|]. by apply tag_range in Hk.
Qed.

(** Allocated areas hold neither tags nor links. *)
Lemma user_word_not_tag a bs k : good ps mbs bs -> user_word a bs k -> ~ tag a bs k.
Proof.
  intros Hg. revert a. induction Hg as [|b bs [_ Hb] Hg IH]; intros a; cbn; [done|].
  unfold SIZE_AND_FLAG, PREV_SIZE, HEAP_BLOCK_HEADER_SIZE.
  intros [[Hu Hk]|Hk] [->|[[Hu' ->]|Ht]].
  - lia.
  - congruence.
  - apply tag_range in Ht; [lia|done].
  - apply (user_word_range ps mbs) in Hk; [lia|lia|done].
  - apply (user_word_range ps mbs) in Hk; [lia|lia|done].
  - by eapply IH.
Qed.
End tags.

(** The link words of list nodes. *)
Definition link_words (l : list Z) : list Z := l ≫= fun x => [x + NEXT; x + PREV].

Lemma elem_of_link_words k l :
  k ∈ link_words l <-> exists x, x ∈ l /\ (k = x + NEXT \/ k = x + PREV).
Proof. unfold link_words. rewrite list_elem_of_bind. set_solver. Qed.

(** * The layout of a heap *)

Section layout.
(** Address of the control block; page size, minimum block size, first and
    last block, and the block that the size field of the last one leads to.
    That is the first block, except while the heap is being extended. *)
Context (hp ps mbs ring first last : Z).

Record params : Prop := {
  p_ps : 0 < ps /\ ps mod 8 = 0;
  p_mbs : 32 <= mbs /\ mbs mod ps = 0;
  p_first : 0 <= first /\ (first + HEAP_BLOCK_HEADER_SIZE) mod ps = 0;
  p_last : first + mbs <= last /\ last + HEAP_BLOCK_HEADER_SIZE < 2 ^ 64 /\
    (last + HEAP_BLOCK_HEADER_SIZE) mod ps = 0;
  p_hp : 0 <= hp /\ (hp + 32 <= first \/ last + HEAP_BLOCK_HEADER_SIZE <= hp);
}.

Abbreviation good := (good ps mbs).
Abbreviation fdlist := (dlist NEXT PREV).

(** Blocks up to the last block, whose size field closes the ring. *)
Definition tail_seg (m : mem) (a : Z) (pu : bool) (bs : list block) : Prop :=
  seg m a pu bs /\ a + sizes bs = last /\
  m !! (last + SIZE_AND_FLAG) = Some (u64 (ring - last) + flag (lastu pu bs)).

Definition mapped_area (m : mem) : Prop :=
  forall k, k mod 8 = 0 -> first <= k <= last + SIZE_AND_FLAG -> is_Some (m !! k).

Definition layout (m : mem) (bs : list block) (fl : list Z) : Prop :=
  good bs /\ tail_seg m first true bs /\ fl ≡ₚ free_addrs first bs /\
  fdlist m hp fl hp /\ mapped_area m.

(** A layout with one block taken out of the free list: [l1] before it,
    its size [sz] and the blocks [l2] after it, whose first tag has the
    flag [fx] whatever the state of the block. *)
Definition open_layout (m : mem) (l1 : list block) (sz : Z) (fx : bool)
    (l2 : list block) (fl : list Z) : Prop :=
  let blk := first + sizes l1 in
  good (l1 ++ Blk sz true :: l2) /\ seg m first true l1 /\
  m !! (blk + SIZE_AND_FLAG) = Some (sz + flag (lastu true l1)) /\
  tail_seg m (blk + sz) fx l2 /\
  fl ≡ₚ free_addrs first (l1 ++ Blk sz true :: l2) /\
  fdlist m hp fl hp /\ mapped_area m.

Hypothesis (HP : params).

Lemma mod_ps_8 x : x mod ps = 0 -> x mod 8 = 0.
Proof.
  destruct HP as [[Hps H8] _ _ _ _]. intros Hx.
  apply Z.mod_divide in Hx as [c ->]; [|lia]. apply Z.mod_divide in H8 as [d ->]; [|lia].
  rewrite Z.mul_assoc. by apply Z.mod_mul.
Qed.

Lemma header_mod8 x : (x + HEAP_BLOCK_HEADER_SIZE) mod ps = 0 -> x mod 8 = 0.
Proof.
  intros Hx. apply mod_ps_8 in Hx. unfold HEAP_BLOCK_HEADER_SIZE in Hx.
  rewrite Z.add_mod in Hx by lia. change ((2 * 8 + 0) mod 8) with 0 in Hx.
  by rewrite Z.add_0_r, Z.mod_mod in Hx by lia.
Qed.

Lemma add_mod8 x y : x mod 8 = 0 -> y mod 8 = 0 -> (x + y) mod 8 = 0.
Proof. intros Hx Hy. by rewrite Z.add_mod, Hx, Hy by lia. Qed.

Lemma block_mod bs : good bs -> (first + sizes bs) mod 8 = 0.
Proof.
  intros Hg. pose proof HP as [[Hps H8] _ [_ Hf] _ _].
  apply add_mod8; [by apply header_mod8|]. by apply mod_ps_8, (sizes_mod ps mbs).
Qed.

Lemma free_spaced a bs x y : good bs ->
  x ∈ free_addrs a bs -> y ∈ free_addrs a bs -> x = y \/ x + 32 <= y \/ y + 32 <= x.
Proof.
  destruct HP as [_ [Hm _] _ _ _]. intros Hg. revert a.
  induction Hg as [|b bs [_ Hb] Hg IH]; intros a; cbn; [set_solver|].
  intros [Hx|Hx]%elem_of_app [Hy|Hy]%elem_of_app; [| | |by eapply IH].
  all: destruct (bused b); try set_solver.
  all: repeat match goal with H : _ ∈ [_] |- _ => apply list_elem_of_singleton in H as -> end.
  all: try (apply (free_addrs_range ps mbs) in Hx; [|lia|done]).
  all: try (apply (free_addrs_range ps mbs) in Hy; [|lia|done]).
  all: lia.
Qed.

(** The links of the free list are pairwise different words. *)
Lemma free_dsep bs fl : good bs -> first + sizes bs = last ->
  fl ≡ₚ free_addrs first bs -> dsep NEXT PREV hp fl hp.
Proof.
  intros Hg Hl Hp. pose proof HP as [_ [Hm _] _ _ [_ Hhp]].
  unfold HEAP_BLOCK_HEADER_SIZE in Hhp.
  assert (Hfar : forall x, x ∈ fl -> x + 32 <= hp \/ hp + 32 <= x).
  { intros x Hx. rewrite Hp in Hx. apply (free_addrs_range ps mbs) in Hx; [lia|lia|done]. }
  assert (Hni : hp ∉ fl) by (intros Hx; specialize (Hfar hp Hx); lia).
  assert (Hnd : NoDup fl) by (rewrite Hp; by apply (free_addrs_NoDup ps mbs); [lia|]).
  assert (Hsp : forall x y, x ∈ hp :: fl -> y ∈ hp :: fl ->
    x = y \/ x + 32 <= y \/ y + 32 <= x).
  { intros x y [->|Hx]%elem_of_cons [->|Hy]%elem_of_cons; [lia| | |].
    - specialize (Hfar y Hy). lia.
    - specialize (Hfar x Hx). lia.
    - rewrite Hp in Hx, Hy. by eapply free_spaced. }
  split; [by apply NoDup_cons|split].
  - rewrite <- Permutation_cons_append. by apply NoDup_cons.
  - intros x y Hx Hy. unfold NEXT, PREV.
    destruct (Hsp x y); [done|set_solver|lia|lia].
Qed.

(** A store away from the links keeps the free list. *)
Lemma fdlist_insert m fl k v : 
  (forall x, x ∈ hp :: fl -> k <> x + NEXT /\ k <> x + PREV) ->
  fdlist m hp fl hp -> fdlist (<[k := v]> m) hp fl hp.
Proof.
  clear HP. intros Hk. apply dlist_insert_ne. split.
  - intros x Hx. by apply Hk.
  - intros y Hy. apply Hk. set_solver.
Qed.

Lemma mapped_insert m k v : mapped_area m -> mapped_area (<[k := v]> m).
Proof. intros Hm j H1 H2. by apply is_Some_insert, Hm. Qed.

(** ** The header at the start of a tail *)

Definition head_size (l : list block) : Z :=
  match l with
  | [] => u64 (ring - last)
  | b :: _ => bsize b
  end.

Definition head_used (l : list block) : Prop :=
  match l with
  | [] => True
  | b :: _ => bused b = true
  end.

Lemma tail_header m a pu l : tail_seg m a pu l ->
  m !! (a + SIZE_AND_FLAG) = Some (head_size l + flag pu).
Proof.
  intros (Hs & Ha & He). destruct l as [|b l]; cbn in *; [|tauto].
  by rewrite Z.add_0_r in Ha; subst a.
Qed.

Lemma good_size_ok b : good_size ps mbs b -> bsize b <= last - first ->
  Z.even (bsize b) = true /\ 0 <= bsize b < 2 ^ 64.
Proof.
  intros [Hb Hb'] Hsz. pose proof HP as [_ [? _] [? _] [? [? _]] _].
  unfold HEAP_BLOCK_HEADER_SIZE in *.
  split; [|lia]. by apply even_mod8, mod_ps_8.
Qed.

Lemma head_size_ok l : ring mod 8 = 0 -> good l -> sizes l <= last - first ->
  Z.even (head_size l) = true /\ 0 <= head_size l < 2 ^ 64.
Proof.
  intros Hf Hg Hsz. pose proof HP as [_ [Hmb _] [? _] [? [? Hla]] _].
  destruct l as [|b l]; cbn in *.
  - split; [|apply u64_range]. apply even_mod8.
    apply Z.mod_divide in Hf as [c Hc]; [|lia].
    apply header_mod8, Z.mod_divide in Hla as [d Hd]; [|lia]. unfold u64.
    replace (ring - last) with (8 * (c - d)) by lia.
    change (2 ^ 64) with (8 * 2 ^ 61). rewrite Zmult_mod_distr_l, Z.mul_comm.
    by apply Z.mod_mul.
  - apply Forall_cons in Hg as [Hb Hg]. pose proof (sizes_nonneg ps mbs ltac:(lia) _ Hg).
    apply good_size_ok; [done|lia].
Qed.

(** Rewriting the flag of the first tag. *)
Lemma tail_set_flag m a pu pu' l : good l -> head_used l \/ pu' = true ->
  tail_seg m a pu l -> tail_seg (<[a + SIZE_AND_FLAG := head_size l + flag pu']> m) a pu' l.
Proof.
  pose proof HP as [_ [Hmb _] _ _ _]. intros Hg Hu (Hs & Ha & He).
  unfold tail_seg. destruct l as [|b l]; cbn in *.
  - split_and!; [done|done|]. rewrite Z.add_0_r in Ha; subst a. by rewrite lookup_insert_eq.
  - apply Forall_cons in Hg as [[_ Hb] Hg]. pose proof (sizes_nonneg ps mbs ltac:(lia) _ Hg).
    destruct Hs as (H1 & H2 & H3). unfold SIZE_AND_FLAG, PREV_SIZE in *.
    split_and!; [by rewrite lookup_insert_eq| | |lia|].
    + intros Hf. destruct (H2 Hf) as [_ ?]. split; [destruct Hu; congruence|].
      by rewrite lookup_insert_ne by lia.
    + by apply (seg_insert_out ps mbs); [lia|done|lia|].
    + by rewrite lookup_insert_ne by lia.
Qed.

Lemma tail_insert_out m a pu l k v : good l -> k < a + 8 ->
  tail_seg m a pu l -> tail_seg (<[k := v]> m) a pu l.
Proof.
  pose proof HP as [_ [Hmb _] _ _ _]. intros Hg Hk (Hs & Ha & He).
  pose proof (sizes_nonneg ps mbs ltac:(lia) _ Hg). unfold tail_seg, SIZE_AND_FLAG in *.
  split_and!; [|done|by rewrite lookup_insert_ne by lia].
  by apply (seg_insert_out ps mbs); [lia|done|lia|].
Qed.

(** Stores to the links of the free list keep the tags. *)
Lemma tail_insert_link m a pu l x k v : good l -> first <= a ->
  x ∈ hp :: free_addrs a l -> k = x + NEXT \/ k = x + PREV ->
  tail_seg m a pu l -> tail_seg (<[k := v]> m) a pu l.
Proof.
  pose proof HP as [_ [Hmb _] _ [? [? _]] [_ Hhp]]. unfold HEAP_BLOCK_HEADER_SIZE in *.
  intros Hg Hfa Hx Hk (Hs & Ha & He). unfold tail_seg, NEXT, PREV, SIZE_AND_FLAG in *.
  pose proof (sizes_nonneg ps mbs ltac:(lia) _ Hg). apply elem_of_cons in Hx as [->|Hx].
  { split_and!; [|done|rewrite lookup_insert_ne; [done|lia]].
    by apply (seg_insert_out ps mbs); [lia|done|lia|]. }
  assert (Hin : exists l1 b l2, l = l1 ++ b :: l2 /\ a + sizes l1 = x).
  { clear -Hx. revert a Hx. induction l as [|b l IH]; cbn; intros a; [set_solver|].
    intros [Hx|Hx]%elem_of_app.
    - destruct (bused b); [set_solver|]. apply list_elem_of_singleton in Hx as ->.
      exists [], b, l. split; [done|cbn; lia].
    - apply IH in Hx as (l1 & b' & l2 & -> & <-). exists (b :: l1), b', l2.
      split; [done|cbn; lia]. }
  destruct Hin as (l1 & b & l2 & -> & <-).
  apply (free_addrs_range ps mbs) in Hx as [? ?]; [|lia|done].
  assert (mbs <= bsize b) by (apply Forall_app in Hg as [_ [[_ ?] _]%Forall_cons]; done).
  split_and!; [|done|rewrite lookup_insert_ne; [done|lia]].
  by apply (seg_insert_in ps mbs); [lia|done|lia|].
Qed.
End layout.

(** * Free list operations *)

Section free_list.
Context (hp : Z) (s : state).
Abbreviation fdlist := (dlist NEXT PREV).
Abbreviation fdsep := (dsep NEXT PREV).

Lemma link_pred fl1 l : (forall x, x ∈ fl1 -> x ∈ l) ->
  dpred hp fl1 + NEXT ∈ link_words (hp :: l).
Proof.
  intros Hsub. apply elem_of_link_words. exists (dpred hp fl1).
  pose proof (dpred_elem hp fl1). set_solver.
Qed.

Lemma link_succ fl2 l : (forall x, x ∈ fl2 -> x ∈ l) ->
  dsucc fl2 hp + PREV ∈ link_words (hp :: l).
Proof.
  intros Hsub. apply elem_of_link_words. exists (dsucc fl2 hp).
  pose proof (dsucc_elem fl2 hp). set_solver.
Qed.

Lemma link_node n l : n ∈ l ->
  n + NEXT ∈ link_words (hp :: l) /\ n + PREV ∈ link_words (hp :: l).
Proof. intros Hn. rewrite !elem_of_link_words. set_solver. Qed.

Lemma free_list_remove_spec fl1 b fl2 Q :
  fdsep hp (fl1 ++ b :: fl2) hp -> fdlist (hmem s) hp (fl1 ++ b :: fl2) hp ->
  (forall m', fdlist m' hp (fl1 ++ fl2) hp ->
    changes (link_words (hp :: fl1 ++ fl2)) (hmem s) m' -> Q tt (set_mem m' s)) ->
  wp (_Heap_Free_list_remove b) Q s.
Proof.
  intros Hs Hl HQ. pose proof (dlist_remove _ _ _ _ _ _ _ _ Hs Hl) as Hl'.
  apply dlist_split in Hl as (_ & _ & [Ha1 Ha2] & [Hb1 Hb2]).
  change (hmem s) with (get_mem s) in *.
  unfold _Heap_Free_list_remove, next, prev, set_next, set_prev.
  wp_steps. apply HQ; [done|].
  repeat apply changes_insert; try apply changes_refl.
  - apply link_succ. set_solver.
  - apply link_pred. set_solver.
Qed.

(** Disequalities of the words written when [n] is linked in. *)
Lemma link4_words fl1 n fl2 : fdsep hp (fl1 ++ n :: fl2) hp ->
  let a := dpred hp fl1 in let c := dsucc fl2 hp in
  a <> n /\ c <> n /\ n + NEXT <> c + PREV /\ a + NEXT <> n + PREV /\ a + NEXT <> c + PREV.
Proof.
  intros (H1 & H2 & H3) a c.
  pose proof (dpred_elem hp fl1) as Ha. pose proof (dsucc_elem fl2 hp) as Hc.
  fold a in Ha. fold c in Hc. split_and!; try (apply H3; set_solver).
  - intros E. change (hp :: fl1 ++ n :: fl2) with ((hp :: fl1) ++ n :: fl2) in H1.
    apply NoDup_app in H1 as (_ & H1 & _). apply (H1 n); [by rewrite <- E|set_solver].
  - intros E. rewrite <- app_assoc in H2. apply NoDup_app in H2 as (_ & _ & H2).
    cbn in H2. apply NoDup_cons in H2 as [H2 _]. apply H2. by rewrite <- E.
Qed.

Lemma link4_changes fl1 n fl2 m :
  changes (link_words (hp :: fl1 ++ n :: fl2)) m
    (<[dsucc fl2 hp + PREV := n]> (<[dpred hp fl1 + NEXT := n]>
      (<[n + PREV := dpred hp fl1]> (<[n + NEXT := dsucc fl2 hp]> m)))).
Proof.
  destruct (link_node n (fl1 ++ n :: fl2)); [set_solver|].
  repeat apply changes_insert; try apply changes_refl; try done.
  - apply link_succ. set_solver.
  - apply link_pred. set_solver.
Qed.

Lemma free_list_insert_after_spec fl1 n fl2 Q :
  fdsep hp (fl1 ++ n :: fl2) hp -> fdlist (hmem s) hp (fl1 ++ fl2) hp ->
  is_Some (hmem s !! (n + NEXT)) -> is_Some (hmem s !! (n + PREV)) ->
  (forall m', fdlist m' hp (fl1 ++ n :: fl2) hp ->
    changes (link_words (hp :: fl1 ++ n :: fl2)) (hmem s) m' -> Q tt (set_mem m' s)) ->
  wp (_Heap_Free_list_insert_after (dpred hp fl1) n) Q s.
Proof.
  intros Hs Hl Hn1 Hn2 HQ. pose proof (link4_words _ _ _ Hs) as (? & ? & ? & ? & ?).
  specialize (HQ _ (dlist_insert _ _ _ _ _ _ _ _ Hs Hl) (link4_changes _ _ _ _)).
  apply dlist_split_pos in Hl as (_ & _ & [Ha1 Ha2]).
  change (hmem s) with (get_mem s) in *.
  unfold _Heap_Free_list_insert_after, next, prev, set_next, set_prev, NEXT, PREV in *.
  by wp_steps.
Qed.

Lemma free_list_insert_before_spec fl1 n Q :
  fdsep hp (fl1 ++ [n]) hp -> fdlist (hmem s) hp fl1 hp ->
  is_Some (hmem s !! (n + NEXT)) -> is_Some (hmem s !! (n + PREV)) ->
  (forall m', fdlist m' hp (fl1 ++ [n]) hp ->
    changes (link_words (hp :: fl1 ++ [n])) (hmem s) m' -> Q tt (set_mem m' s)) ->
  wp (_Heap_Free_list_insert_before hp n) Q s.
Proof.
  intros Hs Hl Hn1 Hn2 HQ. rewrite <- (app_nil_r fl1) in Hl.
  pose proof (link4_words _ _ _ Hs) as (? & ? & ? & ? & ?).
  specialize (HQ _ (dlist_insert _ _ _ _ _ _ _ _ Hs Hl) (link4_changes _ _ _ _)).
  apply dlist_split_pos in Hl as (_ & _ & [Ha1 Ha2]).
  change (hmem s) with (get_mem s) in *. rewrite dsucc_nil in *.
  unfold _Heap_Free_list_insert_before, next, prev, set_next, set_prev, NEXT, PREV in *.
  by wp_steps.
Qed.

Lemma free_list_replace_spec fl1 o n fl2 Q :
  fdsep hp (fl1 ++ n :: fl2) hp -> fdlist (hmem s) hp (fl1 ++ o :: fl2) hp ->
  is_Some (hmem s !! (n + NEXT)) -> is_Some (hmem s !! (n + PREV)) ->
  (forall m', fdlist m' hp (fl1 ++ n :: fl2) hp ->
    changes (link_words (hp :: fl1 ++ n :: fl2)) (hmem s) m' -> Q tt (set_mem m' s)) ->
  wp (_Heap_Free_list_replace o n) Q s.
Proof.
  intros Hs Hl Hn1 Hn2 HQ. pose proof (link4_words _ _ _ Hs) as (? & ? & ? & ? & ?).
  specialize (HQ _ (dlist_replace _ _ _ _ _ _ _ _ _ Hs Hl) (link4_changes _ _ _ _)).
  apply dlist_split in Hl as (_ & _ & [Ha1 Ha2] & [Hb1 Hb2]).
  change (hmem s) with (get_mem s) in *.
  unfold _Heap_Free_list_replace, next, prev, set_next, set_prev, NEXT, PREV in *.
  wp_steps. match goal with |- Q tt (set_mem ?m1 _) => match type of HQ with
    Q tt (set_mem ?m2 _) => replace m1 with m2; [exact HQ|mem_eq] end end.
Qed.
End free_list.

(** * Reading tags *)

Section reads.
Context (s : state).

Lemma block_size_spec b x f Q : hmem s !! (b + SIZE_AND_FLAG) = Some (x + flag f) ->
  Z.even x = true -> 0 <= x < 2 ^ 64 -> Q x s -> wp (_Heap_Block_size b) Q s.
Proof.
  intros Hm He Hx HQ. apply wp_bind. eapply wp_load; [exact Hm|]. apply wp_ret.
  by rewrite clear_flag_even.
Qed.

Lemma is_prev_used_spec b x f Q : hmem s !! (b + SIZE_AND_FLAG) = Some (x + flag f) ->
  Z.even x = true -> Q f s -> wp (_Heap_Is_prev_used b) Q s.
Proof.
  intros Hm He HQ. apply wp_bind. eapply wp_load; [exact Hm|]. apply wp_ret.
  rewrite land_flag by done. by destruct f.
Qed.

Lemma is_block_in_heap_spec b Q :
  Q ((first_block (ctl s) <=? b) && (b <=? last_block (ctl s))) s ->
  wp (_Heap_Is_block_in_heap b) Q s.
Proof. done. Qed.
End reads.

(** * Tags and links are disjoint *)

Lemma tag_app a l1 l2 k : tag a (l1 ++ l2) k <-> tag a l1 k \/ tag (a + sizes l1) l2 k.
Proof.
  revert a. induction l1 as [|b l1 IH]; intros a; cbn.
  - rewrite Z.add_0_r. tauto.
  - rewrite IH, Z.add_assoc. tauto.
Qed.

Lemma tail_ext ring last m m' a pu l :
  (forall k, tag a l k \/ k = last + SIZE_AND_FLAG -> m' !! k = m !! k) ->
  tail_seg ring last m a pu l -> tail_seg ring last m' a pu l.
Proof.
  intros Hk (H1 & H2 & H3). split_and!; [|done|rewrite Hk; auto].
  eapply seg_ext; [|done]. auto.
Qed.

(** The words that the heap leaves alone: the allocated areas and what lies
    outside of the heap and of the list head in its control block.  The first
    word of the first block is the end of the memory area, which only
    [_Heap_Extend] changes. *)
Definition outside (hp first last k : Z) : Prop :=
  (k < first + SIZE_AND_FLAG \/ last + HEAP_BLOCK_HEADER_SIZE <= k) /\ k <> hp + NEXT /\ k <> hp + PREV.
Definition kept (hp first last : Z) (bs : list block) (k : Z) : Prop :=
  user_word first bs k \/ outside hp first last k.

Section disjoint.
Context (hp ps mbs first last : Z) (HP : params hp ps mbs first last).
Context (bs : list block) (fl : list Z).
Context (Hg : good ps mbs bs) (Hsz : first + sizes bs = last).
Context (Hfl : fl ≡ₚ free_addrs first bs).

Lemma link_word_cases k : k ∈ link_words (hp :: fl) ->
  k = hp + NEXT \/ k = hp + PREV \/
  exists x, x ∈ free_addrs first bs /\ (k = x + NEXT \/ k = x + PREV).
Proof.
  intros (x & [->|Hx]%elem_of_cons & Hk)%elem_of_link_words; [naive_solver|].
  rewrite Hfl in Hx. eauto.
Qed.

Lemma tag_not_link_word k : tag first bs k \/ k = last + SIZE_AND_FLAG ->
  k ∉ link_words (hp :: fl).
Proof.
  pose proof HP as [_ [Hmb _] _ [Hla _] [_ Hhp]]. unfold HEAP_BLOCK_HEADER_SIZE in *.
  unfold SIZE_AND_FLAG. intros Ht Hk.
  apply link_word_cases in Hk as [Hk|[Hk|(x & Hx & Hk)]]; unfold NEXT, PREV in Hk.
  1,2: destruct Ht as [Ht|Ht]; [apply (tag_range ps mbs) in Ht as [? ?]; [lia|lia|done]|lia].
  destruct Ht as [Ht|Ht].
  - pose proof (tag_not_link ps mbs ltac:(lia) first bs k x Hg Ht (or_introl Hx)).
    unfold NEXT, PREV in *. lia.
  - apply (free_addrs_range ps mbs) in Hx; [lia|lia|done].
Qed.

Lemma tag_keep m m' k : changes (link_words (hp :: fl)) m m' ->
  tag first bs k \/ k = last + SIZE_AND_FLAG -> m' !! k = m !! k.
Proof. intros [H _] Hk. by apply H, tag_not_link_word. Qed.

(** Allocated areas meet neither links nor tags. *)
Lemma user_not_link_word k : user_word first bs k -> k ∉ link_words (hp :: fl).
Proof.
  pose proof HP as [_ [Hmb _] _ _ [_ Hhp]]. unfold HEAP_BLOCK_HEADER_SIZE in *.
  intros Hu Hk. pose proof (user_word_range ps mbs ltac:(lia) _ _ _ Hg Hu).
  apply link_word_cases in Hk as [Hk|[Hk|(x & Hx & Hk)]]; unfold NEXT, PREV in Hk; [lia|lia|].
  pose proof (user_word_free ps mbs ltac:(lia) _ _ _ _ Hg Hu Hx). lia.
Qed.

Lemma user_not_tag k : user_word first bs k -> ~ (tag first bs k \/ k = last + SIZE_AND_FLAG).
Proof.
  pose proof HP as [_ [Hmb _] _ _ _]. intros Hu [Ht|Ht].
  - by apply (user_word_not_tag ps mbs ltac:(lia) _ _ _ Hg Hu).
  - pose proof (user_word_range ps mbs ltac:(lia) _ _ _ Hg Hu). unfold SIZE_AND_FLAG in *. lia.
Qed.

Lemma kept_not_link_word k : kept hp first last bs k -> k ∉ link_words (hp :: fl).
Proof.
  intros [Hu|(Ho & Hn & Hpv)]; [by apply user_not_link_word|]. intros Hk.
  pose proof HP as [_ [Hmb _] _ _ _].
  apply link_word_cases in Hk as [Hk|[Hk|(x & Hx & Hk)]]; [done|done|].
  apply (free_addrs_range ps mbs) in Hx; [|lia|done].
  unfold HEAP_BLOCK_HEADER_SIZE, SIZE_AND_FLAG, NEXT, PREV in *. lia.
Qed.

Lemma kept_not_tag k : kept hp first last bs k -> ~ (tag first bs k \/ k = last + SIZE_AND_FLAG).
Proof.
  intros [Hu|(Ho & _)]; [by apply user_not_tag|]. pose proof HP as [_ [Hmb _] _ _ _].
  unfold HEAP_BLOCK_HEADER_SIZE, SIZE_AND_FLAG in *. intros [Ht|Ht].
  - apply (tag_range ps mbs) in Ht; [lia|lia|done].
  - pose proof (sizes_nonneg ps mbs ltac:(lia) bs Hg). lia.
Qed.

Lemma tag_not_links k x : x ∈ hp :: fl -> tag first bs k \/ k = last + SIZE_AND_FLAG ->
  k <> x + NEXT /\ k <> x + PREV.
Proof.
  intros Hx Hk. apply tag_not_link_word in Hk. rewrite elem_of_link_words in Hk. naive_solver.
Qed.
End disjoint.

#[global] Arguments tag_not_links {_ _ _ _ _} HP {_ _} Hg Hsz Hfl {_ _} _ _.
#[global] Arguments kept_not_tag {_ _ _ _ _} HP {_} Hg Hsz {_} _ _.
#[global] Arguments kept_not_link_word {_ _ _ _ _} HP {_ _} Hg Hsz Hfl {_} _ _.
#[global] Arguments user_not_tag {_ _ _ _ _} HP {_} Hg Hsz {_} _ _.
#[global] Arguments user_not_link_word {_ _ _ _ _} HP {_ _} Hg Hsz Hfl {_} _ _.
#[global] Arguments tag_keep {_ _ _ _ _} HP {_ _} Hg Hsz Hfl {_ _ _} _ _.
#[global] Arguments free_dsep {_ _ _ _ _} HP {_ _} _ _ _.

End HeapInv.
