(* ===== verification/HeapAlloc.v ===== *)
(** Allocation from the heap preserves its invariant: splitting a block,
    allocating from its begin or its end, the fit test with alignment and
    boundary, and the search of the free list (score/heap.c,
    score/heapallocate.c). *)

From S2P Require Import Prelude DList Heap HeapInv.
Import Heap HeapInv.
Open Scope width_scope.

Module HeapAlloc.

(** * Arithmetic of alignment *)

Lemma align_up_spec v al : 0 < al -> 0 <= v -> v + al < 2 ^ 64 ->
  let r := _Heap_Align_up v al in v <= r < v + al /\ r mod al = 0.
Proof.
  intros Hal Hv Hb. unfold _Heap_Align_up.
  pose proof (Z.mod_pos_bound v al Hal). pose proof (Z.div_mod v al ltac:(lia)).
  pose proof (Z.mod_le v al ltac:(lia) Hal). case_bool; cbn [negb]; [split; lia|].
  cbv zeta. width_simpl. split; [lia|].
  replace (v - v mod al + al) with ((v / al + 1) * al) by lia. apply Z.mod_mul. lia.
Qed.

Lemma align_down_spec v al : 0 < al -> 0 <= v < 2 ^ 64 ->
  let r := _Heap_Align_down v al in r <= v < r + al /\ 0 <= r /\ r mod al = 0.
Proof.
  intros Hal Hv. unfold _Heap_Align_down.
  pose proof (Z.mod_pos_bound v al Hal). pose proof (Z.div_mod v al ltac:(lia)).
  pose proof (Z.mod_le v al ltac:(lia) Hal). width_simpl. split_and!; [lia|lia|lia|].
  replace (v - v mod al) with ((v / al) * al) by lia. apply Z.mod_mul. lia.
Qed.

Lemma mod_add x y n : 0 < n -> x mod n = 0 -> y mod n = 0 -> (x + y) mod n = 0.
Proof. intros. rewrite Z.add_mod by lia. rewrite H0, H1. apply Z.mod_0_l. lia. Qed.

Lemma mod_sub x y n : 0 < n -> x mod n = 0 -> y mod n = 0 -> (x - y) mod n = 0.
Proof. intros. rewrite Zminus_mod, H0, H1. apply Z.mod_0_l. lia. Qed.

(** Multiples compare by whole steps. *)
Lemma mult_le_step x y n : 0 < n -> x mod n = 0 -> y mod n = 0 -> x < y + n -> x <= y.
Proof.
  intros Hn Hx Hy H. apply Z.mod_divide in Hx as [a ->]; [|lia].
  apply Z.mod_divide in Hy as [b ->]; [|lia].
  assert (a * n < (b + 1) * n) by lia. apply Z.mul_lt_mono_pos_r in H0; [|done].
  apply Z.mul_le_mono_nonneg_r; lia.
Qed.

(** * Control block and statistics *)

Definition with_stats (c : Heap_Control) (t : Heap_Statistics) : Heap_Control :=
  {| page_size := page_size c; min_block_size := min_block_size c;
     area_begin := area_begin c; area_end := area_end c;
     first_block := first_block c; last_block := last_block c; stats := t |}.

Lemma with_stats_id c : with_stats c (stats c) = c.
Proof. by destruct c. Qed.

(** The statistics that account for the blocks: free size, number of free
    and of used blocks, heap size and the low-water mark. *)
Record acct (t : Heap_Statistics) (fs nf nu tot mf : Z) : Prop := {
  ac_free : free_size t = fs;
  ac_nfree : free_blocks t = u32 nf;
  ac_nused : used_blocks t = u32 nu;
  ac_size : size t = tot;
  ac_min : min_free_size t = mf;
}.

Section acct.
Context (t : Heap_Statistics) (fs nf nu tot mf : Z) (Ha : acct t fs nf nu tot mf).

Lemma u32_add x y : u32 (u32 x + y) = u32 (x + y).
Proof. unfold u32. by rewrite Zplus_mod_idemp_l. Qed.

Lemma u32_sub x y : u32 (u32 x - y) = u32 (x - y).
Proof. unfold u32. by rewrite Zminus_mod_idemp_l. Qed.

Lemma acct_free_add d : 0 <= fs + d < 2 ^ 64 ->
  acct (set_free_size (free_size t +! d) t) (fs + d) nf nu tot mf.
Proof. intros. destruct Ha, t; cbn in *; subst. by split; cbn; rewrite ?u64_small. Qed.

Lemma acct_free_sub d : 0 <= fs - d < 2 ^ 64 ->
  acct (set_free_size (free_size t -! d) t) (fs - d) nf nu tot mf.
Proof. intros. destruct Ha, t; cbn in *; subst. by split; cbn; rewrite ?u64_small. Qed.

Lemma acct_nfree_add : acct (set_free_blocks (free_blocks t +. 1) t) fs (nf + 1) nu tot mf.
Proof. destruct Ha, t; cbn in *; subst. split; cbn; by rewrite ?u32_add. Qed.

Lemma acct_nfree_sub : acct (set_free_blocks (free_blocks t -. 1) t) fs (nf - 1) nu tot mf.
Proof. destruct Ha, t; cbn in *; subst. split; cbn; by rewrite ?u32_sub. Qed.

Lemma acct_nused_add : acct (set_used_blocks (used_blocks t +. 1) t) fs nf (nu + 1) tot mf.
Proof. destruct Ha, t; cbn in *; subst. split; cbn; by rewrite ?u32_add. Qed.

Lemma acct_nused_sub : acct (set_used_blocks (used_blocks t -. 1) t) fs nf (nu - 1) tot mf.
Proof. destruct Ha, t; cbn in *; subst. split; cbn; by rewrite ?u32_sub. Qed.

Lemma acct_min : acct (if free_size t <? min_free_size t
    then set_min_free_size (free_size t) t else t) fs nf nu tot (Z.min fs mf).
Proof.
  destruct Ha, t; cbn in *; subst. case_bool; split; cbn; try done; lia.
Qed.

(** Counters the accounting does not read. *)
Lemma acct_other f : (forall t, free_size (f t) = free_size t /\
    free_blocks (f t) = free_blocks t /\ used_blocks (f t) = used_blocks t /\
    size (f t) = size t /\ min_free_size (f t) = min_free_size t) ->
  acct (f t) fs nf nu tot mf.
Proof. intros Hf. destruct (Hf t) as (? & ? & ? & ? & ?). destruct Ha. split; congruence. Qed.
End acct.

(** * The heap invariant *)

Definition ctl_params (hp : Z) (c : Heap_Control) : Prop :=
  params hp (page_size c) (min_block_size c) (first_block c) (last_block c).

Definition ring_layout (hp : Z) (c : Heap_Control) (ring : Z) : mem -> list block -> list Z -> Prop :=
  layout hp (page_size c) (min_block_size c) ring (first_block c) (last_block c).

Definition ctl_layout (hp : Z) (c : Heap_Control) : mem -> list block -> list Z -> Prop :=
  ring_layout hp c (first_block c).

(** The gaps between the memory areas of a heap that was extended appear as
    used blocks, but not in the statistics: their number and size. *)
Record gaps := Gaps { gap_count : Z; gap_size : Z }.
Definition no_gaps : gaps := Gaps 0 0.

(** The statistics agree with the blocks. *)
Definition stats_inv (g : gaps) (t : Heap_Statistics) (bs : list block) : Prop :=
  exists mf, acct t (sizes_of false bs) (count_of false bs) (count_of true bs - gap_count g)
      (sizes bs - gap_size g) mf /\
    mf <= sizes_of false bs.

(** The heap at [hp] consists of the blocks [bs], of which the gaps [g] are no
    memory of the heap, and its free list links the free ones in the order
    [fl]. *)
Definition heap_inv (hp : Z) (g : gaps) (s : state) (bs : list block) (fl : list Z) : Prop :=
  ctl_params hp (ctl s) /\ ctl_layout hp (ctl s) (hmem s) bs fl /\ stats_inv g (stats (ctl s)) bs.

(** * Tails *)

Section tails.
Context (ring last : Z).
Abbreviation tail_seg := (tail_seg ring last).

Lemma tail_app m a pu l1 l2 : tail_seg m a pu (l1 ++ l2) <->
  seg m a pu l1 /\ tail_seg m (a + sizes l1) (lastu pu l1) l2.
Proof.
  unfold HeapInv.tail_seg. rewrite seg_app, sizes_app, lastu_app, Z.add_assoc. tauto.
Qed.

Lemma tail_cons m a pu b l : tail_seg m a pu (b :: l) <->
  m !! (a + SIZE_AND_FLAG) = Some (bsize b + flag pu) /\
  (bused b = false -> pu = true /\ m !! (a + bsize b + PREV_SIZE) = Some (bsize b)) /\
  tail_seg m (a + bsize b) (bused b) l.
Proof. unfold HeapInv.tail_seg. cbn. rewrite Z.add_assoc. tauto. Qed.
End tails.

Section alloc.
(** The heap's control block and its address. *)
Context (hp : Z) (c : Heap_Control) (HP : ctl_params hp c) (g : gaps).
Abbreviation stats_inv := (stats_inv g).
Abbreviation ps := (page_size c).
Abbreviation mbs := (min_block_size c).
Abbreviation first := (first_block c).
Abbreviation last := (last_block c).
Abbreviation good := (good ps mbs).
Abbreviation tail_seg := (tail_seg first last).
Abbreviation fdlist := (dlist NEXT PREV).
Abbreviation layout := (ctl_layout hp c).
Abbreviation open_layout := (open_layout hp ps mbs first first last).
Abbreviation St m t := {| hmem := m; ctl := with_stats c t |}.

Definition uframe (bs : list block) (m m' : mem) : Prop :=
  forall k, kept hp first last bs k -> m' !! k = m !! k.

Lemma set_stats_spec f m t Q : Q tt (St m (f t)) -> wp (set_stats f) Q (St m t).
Proof. done. Qed.

Lemma ps_pos : 0 < ps.
Proof. by destruct HP as [[? _] _ _ _ _]. Qed.

Lemma mbs_min : 32 <= mbs.
Proof. by destruct HP as [_ [? _] _ _ _]. Qed.

Lemma bounds : 0 <= first /\ first + mbs <= last /\ last + 16 < 2 ^ 64.
Proof. destruct HP as [_ _ [? _] [? [? _]] _]. unfold HEAP_BLOCK_HEADER_SIZE in *. lia. Qed.

Lemma first_mod8 : first mod 8 = 0.
Proof. destruct HP as [_ _ [_ ?] _ _]. by eapply header_mod8; [exact HP|]. Qed.

Lemma good_nonneg l : good l -> 0 <= sizes l.
Proof. apply sizes_nonneg. pose proof mbs_min. lia. Qed.

Lemma good_app l1 l2 : good (l1 ++ l2) <-> good l1 /\ good l2.
Proof. apply Forall_app. Qed.

Lemma good_cons b l : good (b :: l) <-> (bsize b mod ps = 0 /\ mbs <= bsize b) /\ good l.
Proof. unfold HeapInv.good. by rewrite Forall_cons. Qed.

Lemma mbs_mod : mbs mod ps = 0.
Proof. by destruct HP as [_ [_ ?] _ _ _]. Qed.

Lemma mult_even x : x mod ps = 0 -> Z.even x = true.
Proof. intros. by eapply even_mod8, mod_ps_8; [exact HP|]. Qed.

(** The first block's tag says that its predecessor is used. *)
Lemma first_header m l1 x : seg m first true l1 -> good l1 -> x mod ps = 0 ->
  m !! (first + sizes l1 + SIZE_AND_FLAG) = Some (x + flag (lastu true l1)) ->
  exists y, m !! (first + SIZE_AND_FLAG) = Some (y + flag true) /\ Z.even y = true.
Proof.
  intros Hs Hg Hx Hb. destruct l1 as [|b l1].
  - cbn in Hb. rewrite Z.add_0_r in Hb. exists x. split; [done|by apply mult_even].
  - destruct Hs as [Hs _]. apply good_cons in Hg as [[Hm _] _].
    exists (bsize b). split; [done|by apply mult_even].
Qed.

Lemma tail_is_used_spec m t a pu l y Q : tail_seg m a pu l -> good l ->
  first <= a -> m !! (first + SIZE_AND_FLAG) = Some (y + flag true) -> Z.even y = true ->
  Q (match l with [] => true | b :: _ => bused b end) (St m t) ->
  wp (_Heap_Is_used a) Q (St m t).
Proof.
  intros Ht Hg Ha Hy He HQ. pose proof bounds. pose proof (good_nonneg l Hg).
  assert (a + sizes l = last) by apply Ht.
  destruct (head_size_ok hp ps mbs first first last HP l first_mod8 Hg) as [Hse Hsr]; [lia|].
  apply wp_bind. eapply block_size_spec; [by eapply tail_header|done..|].
  unfold _Heap_Block_at. destruct l as [|b l]; cbn [head_size].
  - cbn in *. assert (a = last) as -> by lia. unfold u64.
    rewrite Zplus_mod_idemp_r. replace (last + (first - last)) with first by lia.
    rewrite Z.mod_small by lia.
    by apply (is_prev_used_spec _ _ y true).
  - apply tail_cons in Ht as (_ & _ & Ht). apply good_cons in Hg as [[_ ?] Hg].
    cbn in *. pose proof (good_nonneg l Hg). pose proof mbs_min. rewrite u64_small by lia.
    eapply is_prev_used_spec; [by eapply tail_header| |done].
    apply (head_size_ok hp ps mbs first first last HP); [exact first_mod8|done|lia].
Qed.

Lemma mapped_changes W m m' : changes W m m' ->
  mapped_area first last m -> mapped_area first last m'.
Proof. intros [_ Hc] Hm k H1 H2. by apply Hc, Hm. Qed.

(** Words of a block header inside the heap are mapped. *)
Lemma mapped_word m l k : mapped_area first last m -> good l -> first + sizes l <= last ->
  k mod 8 = 0 -> 0 <= k -> first + sizes l + k <= last + 8 ->
  is_Some (m !! (first + sizes l + k)).
Proof.
  intros Hm Hg Hl Hk H0 Hle. apply Hm.
  - apply add_mod8; [by eapply block_mod; [exact HP|]|done].
  - pose proof (good_nonneg l Hg). unfold SIZE_AND_FLAG. lia.
Qed.
(** ** Splitting a block *)

(** The blocks that replace a block of size [sz] when [n] bytes are
    allocated at its begin. *)
Definition used_block_size (n : Z) : Z := (Z.max n (mbs - 16) + 16 + (ps - 1)) / ps * ps.
Definition split_blocks (n sz : Z) : list block :=
  let usz := used_block_size n in
  if usz + mbs <=? sz then [Blk usz true; Blk (sz - usz) false] else [Blk sz true].

Lemma ps_le_mbs : ps <= mbs.
Proof.
  pose proof mbs_min. pose proof mbs_mod as Hm. pose proof ps_pos.
  apply Z.mod_divide in Hm as [k Hk]; [|lia]. assert (0 < k) by nia. nia.
Qed.

Lemma used_block_size_ok n : 0 <= n ->
  let usz := used_block_size n in
  usz mod ps = 0 /\ mbs <= usz /\
  Z.max n (mbs - 16) + 16 <= usz < Z.max n (mbs - 16) + 16 + ps.
Proof.
  intros Hn. pose proof ps_pos. pose proof mbs_min. unfold used_block_size.
  set (v := Z.max n (mbs - 16) + 16).
  pose proof (Z.mod_pos_bound (v + (ps - 1)) ps). pose proof (Z.div_mod (v + (ps - 1)) ps).
  split; [apply Z.mod_mul; lia|]. lia.
Qed.

Lemma align_up_used n : 0 <= n -> used_block_size n < 2 ^ 64 ->
  _Heap_Align_up (Z.max n (mbs - 16) + 16) ps = used_block_size n.
Proof.
  intros Hn Hb. pose proof (used_block_size_ok n Hn) as (Hm & _ & Hr). revert Hb Hm Hr.
  set (v := Z.max n (mbs - 16) + 16). set (u := used_block_size n). intros Hb Hm Hr.
  pose proof ps_pos. pose proof mbs_min. unfold _Heap_Align_up.
  pose proof (Z.mod_pos_bound v ps ltac:(lia)). pose proof (Z.mod_le v ps ltac:(lia) ltac:(lia)).
  pose proof (Z.div_mod v ps ltac:(lia)).
  assert (Hv : (v - v mod ps) mod ps = 0)
    by (replace (v - v mod ps) with (v / ps * ps) by lia; apply Z.mod_mul; lia).
  destruct (Z.eqb_spec (v mod ps) 0) as [E0|E0]; cbn [negb].
  - rewrite E0, Z.sub_0_r in Hv. pose proof (mult_le_step u v ps). lia.
  - assert (Hup : v - v mod ps + ps <= u).
    { apply (mult_le_step _ _ ps); [lia|apply mod_add; [lia|done|apply Z.mod_same; lia]|done|].
      assert (v - v mod ps < u) by lia. lia. }
    assert (u <= v - v mod ps + ps).
    { apply (mult_le_step _ _ ps); [lia|done|apply mod_add; [lia|done|apply Z.mod_same; lia]|lia]. }
    rewrite (u64_small (v - v mod ps)), u64_small by lia. lia.
Qed.

(** The test of the code decides whether the remainder is a block. *)
Lemma split_test n sz : 0 <= n -> n + 8 <= sz -> sz mod ps = 0 -> mbs <= sz ->
  sz <= last - first ->
  let used_size := _Heap_Max n (mbs -! HEAP_BLOCK_HEADER_SIZE) +! HEAP_BLOCK_HEADER_SIZE in
  (mbs +! HEAP_ALLOC_BONUS <=? sz +! HEAP_ALLOC_BONUS -! used_size)
    = (used_block_size n + mbs <=? sz) /\
  (used_block_size n + mbs <= sz -> _Heap_Align_up used_size ps = used_block_size n).
Proof.
  intros Hn Hsz Hmod Hm Hl. pose proof mbs_min. pose proof bounds. pose proof ps_pos.
  destruct (used_block_size_ok n Hn) as (Hu1 & Hu2 & Hu3).
  unfold HEAP_BLOCK_HEADER_SIZE, HEAP_ALLOC_BONUS.
  change (2 * 8 + 0) with 16. rewrite (u64_small (mbs - 16)) by lia.
  replace (_Heap_Max n (mbs - 16)) with (Z.max n (mbs - 16))
    by (unfold _Heap_Max; case_bool; lia).
  rewrite (u64_small (Z.max n (mbs - 16) + 16)) by lia.
  split; [|intros; apply align_up_used; lia].
  rewrite (u64_small (sz + 8)), !u64_small by lia.
  apply eq_bool_prop_intro. rewrite !Is_true_true, !Z.leb_le. split; [|lia].
  intros Hle. apply (mult_le_step _ _ ps); [done| |done|lia].
  apply mod_add; [done|done|apply mbs_mod].
Qed.

Lemma split_blocks_good n sz : 0 <= n -> n + 8 <= sz -> sz mod ps = 0 -> mbs <= sz ->
  sz <= last - first ->
  good (split_blocks n sz) /\ sizes (split_blocks n sz) = sz /\
  exists x rest, split_blocks n sz = Blk x true :: rest /\ (n + 16 <= x \/ x = sz) /\
    (rest = [] \/ exists y, rest = [Blk y false]).
Proof.
  intros Hn Hsz Hmod Hm Hl. pose proof ps_pos.
  destruct (used_block_size_ok n Hn) as (Hu1 & Hu2 & Hu3).
  unfold split_blocks. destruct (Z.leb_spec (used_block_size n + mbs) sz); cbn; split_and!.
  - apply good_cons; cbn. split; [done|]. apply good_cons; cbn. split; [|constructor].
    split; [by apply mod_sub|lia].
  - lia.
  - do 2 eexists. split; [done|]. split; [lia|]. right. by eexists.
  - apply good_cons. split; [done|constructor].
  - lia.
  - do 2 eexists. split; [done|]. split; [lia|]. by left.
Qed.

Lemma clear_prev_used_spec b x f m t Q : m !! (b + SIZE_AND_FLAG) = Some (x + flag f) ->
  Z.even x = true -> 0 <= x < 2 ^ 64 ->
  Q tt (St (<[b + SIZE_AND_FLAG := x + flag false]> m) t) -> wp (clear_prev_used b) Q (St m t).
Proof.
  intros Hm He Hx HQ. apply wp_bind. eapply wp_load; [exact Hm|].
  rewrite clear_flag_even by done. apply wp_store; [by eexists|].
  replace x with (x + flag false) at 1 by (cbn; lia). exact HQ.
Qed.

Lemma set_prev_used_spec b x f m t Q : m !! (b + SIZE_AND_FLAG) = Some (x + flag f) ->
  Z.even x = true ->
  Q tt (St (<[b + SIZE_AND_FLAG := x + flag true]> m) t) -> wp (set_prev_used b) Q (St m t).
Proof.
  intros Hm He HQ. apply wp_bind. eapply wp_load; [exact Hm|].
  apply wp_store; [by eexists|]. replace (Z.lor _ _) with (x + flag true); [exact HQ|].
  rewrite <- (lor_flag x true), <- (lor_flag x f), <- Z.lor_assoc by done. by destruct f.
Qed.

Lemma block_set_size_spec b x y f m t Q : m !! (b + SIZE_AND_FLAG) = Some (x + flag f) ->
  Z.even x = true -> Z.even y = true ->
  Q tt (St (<[b + SIZE_AND_FLAG := y + flag f]> m) t) ->
  wp (_Heap_Block_set_size b y) Q (St m t).
Proof.
  intros Hm He Hy HQ. apply wp_bind. eapply wp_load; [exact Hm|].
  cbv zeta. rewrite land_flag, lor_flag by done. apply wp_store; [by eexists|]. exact HQ.
Qed.

(** Closing an open layout: the block becomes used. *)
Lemma close_layout m l1 sz fx l2 fl : open_layout m l1 sz fx l2 fl ->
  let m' := <[first + sizes l1 + sz + SIZE_AND_FLAG := head_size first last l2 + flag true]> m in
  layout m' (l1 ++ Blk sz true :: l2) fl /\ uframe (l1 ++ Blk sz true :: l2) m m'.
Proof.
  intros (Hg & Hs & Hb & Ht & Hp & Hl & Hm) m'.
  pose proof mbs_min. pose proof Hg as Hg'.
  apply good_app in Hg' as [Hg1 Hg2]. apply good_cons in Hg2 as [[Hmod Hsz] Hg2]. cbn in *.
  pose proof (good_nonneg l2 Hg2). assert (Hsum : first + sizes l1 + sz + sizes l2 = last) by apply Ht.
  assert (Hall : first + sizes (l1 ++ Blk sz true :: l2) = last)
    by (rewrite sizes_app; cbn; lia).
  assert (Htag : tag first (l1 ++ Blk sz true :: l2) (first + sizes l1 + sz + SIZE_AND_FLAG)
    \/ first + sizes l1 + sz + SIZE_AND_FLAG = last + SIZE_AND_FLAG).
  { destruct l2 as [|b l2]; [right; cbn in Hsum; lia|]. left.
    rewrite tag_app. cbn. tauto. }
  unfold SIZE_AND_FLAG in *. split; [split_and!; [done|..]|].
  - apply tail_app. split; [by apply (seg_insert_out ps mbs); [lia|done|lia|]|].
    apply tail_cons; cbn. split_and!; [|done|].
    + unfold m', SIZE_AND_FLAG. by rewrite lookup_insert_ne by lia.
    + by apply (tail_set_flag hp ps mbs first first last HP m _ fx true l2); [|right|].
  - done.
  - apply fdlist_insert; [|done]. intros x Hx.
    by apply (tag_not_links HP Hg Hall Hp).
  - by apply mapped_insert.
  - intros k Hk. unfold m'. rewrite lookup_insert_ne; [done|]. intros <-.
    by apply (kept_not_tag HP Hg Hall Hk).
Qed.
(** A store to a tag of the layout or to a link keeps the allocated
    areas. *)
Lemma uframe_insert bs m m' k v : good bs -> first + sizes bs = last ->
  tag first bs k \/ k = last + SIZE_AND_FLAG -> uframe bs m m' -> uframe bs m (<[k := v]> m').
Proof.
  intros Hg Hs Ht Hu j Hj. rewrite lookup_insert_ne; [by apply Hu|]. intros <-.
  by apply (kept_not_tag HP Hg Hs Hj).
Qed.

Lemma uframe_links bs fl m m1 m2 : good bs -> first + sizes bs = last ->
  fl ≡ₚ free_addrs first bs -> changes (link_words (hp :: fl)) m1 m2 ->
  uframe bs m m1 -> uframe bs m m2.
Proof.
  intros Hg Hs Hfl [Hc _] Hu j Hj. rewrite Hc; [by apply Hu|].
  by apply (kept_not_link_word HP Hg Hs Hfl Hj).
Qed.

Lemma tag_mid l1 b l2 : tag first (l1 ++ b :: l2) (first + sizes l1 + SIZE_AND_FLAG).
Proof. rewrite tag_app. cbn. tauto. Qed.

Lemma tag_end l1 b l2 : bused b = false ->
  tag first (l1 ++ b :: l2) (first + sizes l1 + bsize b + PREV_SIZE).
Proof. rewrite tag_app. cbn. tauto. Qed.

(** The tag behind a prefix is a tag of the next block or the last tag. *)
Lemma tag_next l1 l2 : first + sizes (l1 ++ l2) = last ->
  tag first (l1 ++ l2) (first + sizes l1 + SIZE_AND_FLAG) \/
  first + sizes l1 + SIZE_AND_FLAG = last + SIZE_AND_FLAG.
Proof.
  intros Hs. destruct l2 as [|b l2]; [right|left; apply tag_mid].
  rewrite app_nil_r in Hs. lia.
Qed.

Lemma split_bs l1 usz sz l2 (bs' := l1 ++ Blk usz true :: Blk (sz - usz) false :: l2) :
  usz mod ps = 0 -> mbs <= usz -> usz + mbs <= sz ->
  good (l1 ++ Blk sz true :: l2) -> first + sizes (l1 ++ Blk sz true :: l2) = last ->
  good bs' /\ first + sizes bs' = last.
Proof.
  intros Hum Hus Hle Hg Hall. apply good_app in Hg as [Hg1 Hg2].
  apply good_cons in Hg2 as [[Hmod Hsz] Hg2]. cbn [bsize] in *. unfold bs'.
  rewrite sizes_app in *. cbn in *. split; [|lia].
  apply good_app; split; [done|]. rewrite !good_cons; cbn.
  split_and!; [done|done|by apply mod_sub; [apply ps_pos|..]|lia|done].
Qed.

Lemma split_fl l1 usz sz l2 fl1 fl2 :
  fl1 ++ fl2 ≡ₚ free_addrs first (l1 ++ Blk sz true :: l2) ->
  fl1 ++ (first + sizes l1 + usz) :: fl2
    ≡ₚ free_addrs first (l1 ++ Blk usz true :: Blk (sz - usz) false :: l2).
Proof.
  intros Hp. rewrite free_addrs_app in *. cbn in *. rewrite <- Permutation_middle, Hp.
  replace (first + sizes l1 + usz + (sz - usz)) with (first + sizes l1 + sz) by lia.
  apply Permutation_middle.
Qed.

Lemma split_tag_next l1 usz sz l2 (bs' := l1 ++ Blk usz true :: Blk (sz - usz) false :: l2) :
  first + sizes bs' = last -> tag first bs' (first + sizes l1 + sz + SIZE_AND_FLAG) \/
  first + sizes l1 + sz + SIZE_AND_FLAG = last + SIZE_AND_FLAG.
Proof.
  assert (E : bs' = (l1 ++ [Blk usz true; Blk (sz - usz) false]) ++ l2)
    by (unfold bs'; by rewrite <- app_assoc).
  assert (E4 : first + sizes (l1 ++ [Blk usz true; Blk (sz - usz) false]) = first + sizes l1 + sz)
    by (rewrite sizes_app; cbn; lia).
  rewrite E, <- E4. apply tag_next.
Qed.

(** The layout after a block of size [sz] was split into a used block of
    size [usz] and a free one that is linked into the free list. *)
Lemma split_layout m m2 l1 sz fx l2 fl1 fl2 usz :
  open_layout m l1 sz fx l2 (fl1 ++ fl2) -> head_used l2 ->
  usz mod ps = 0 -> mbs <= usz -> usz + mbs <= sz ->
  let blk := first + sizes l1 in
  let bs' := l1 ++ Blk usz true :: Blk (sz - usz) false :: l2 in
  let fl' := fl1 ++ (blk + usz) :: fl2 in
  fdlist m2 hp fl' hp ->
  changes (link_words (hp :: fl')) (<[blk + SIZE_AND_FLAG := usz + flag (lastu true l1)]> m) m2 ->
  let m3 := <[blk + sz + SIZE_AND_FLAG := head_size first last l2 + flag false]>
    (<[blk + sz + PREV_SIZE := sz - usz]>
      (<[blk + usz + SIZE_AND_FLAG := sz - usz + flag true]> m2)) in
  layout m3 bs' fl' /\ uframe bs' m m3.
Proof.
  intros Hopen Hu Hum Hus Husz blk bs' fl' Hl2 Hc m3.
  pose proof Hopen as (Hg & Hs & Hb & Ht & Hp & Hl & Hm).
  pose proof mbs_min. pose proof ps_pos. apply good_app in Hg as [Hg1 Hg2].
  apply good_cons in Hg2 as [[Hmod Hsz] Hg2]. cbn [bsize] in *.
  pose proof (good_nonneg l2 Hg2). assert (Hsum : blk + sz + sizes l2 = last) by apply Ht.
  destruct (split_bs l1 usz sz l2) as [Hg' Hall]; [done..|apply Hopen|by rewrite sizes_app; cbn; lia|].
  fold bs' in Hg', Hall. pose proof (split_fl l1 usz sz l2 fl1 fl2 Hp) as Hp'. fold blk fl' bs' in Hp'.
  assert (Hkeep : forall k, tag first bs' k \/ k = last + SIZE_AND_FLAG -> 
    m2 !! k = <[blk + SIZE_AND_FLAG := usz + flag (lastu true l1)]> m !! k)
    by (intros k Hk; by apply (tag_keep HP Hg' Hall Hp')).
  assert (T1 : tag first bs' (blk + SIZE_AND_FLAG)) by apply tag_mid.
  assert (E2 : bs' = (l1 ++ [Blk usz true]) ++ Blk (sz - usz) false :: l2)
    by (unfold bs'; by rewrite <- app_assoc).
  assert (S2 : first + sizes (l1 ++ [Blk usz true]) = blk + usz)
    by (rewrite sizes_app; cbn; unfold blk; lia).
  assert (T2 : tag first bs' (blk + usz + SIZE_AND_FLAG)) by (rewrite E2, <- S2; apply tag_mid).
  assert (T3 : tag first bs' (blk + sz + PREV_SIZE)).
  { pose proof (tag_end (l1 ++ [Blk usz true]) (Blk (sz - usz) false) l2 eq_refl) as T.
    rewrite <- E2, S2 in T. cbn in T. by replace (blk + usz + (sz - usz)) with (blk + sz) in T by lia. }
  pose proof (split_tag_next l1 usz sz l2 Hall) as T4. fold blk bs' in T4.
  assert (Hlk : forall k v m', tag first bs' k \/ k = last + SIZE_AND_FLAG ->
    fdlist m' hp fl' hp -> fdlist (<[k := v]> m') hp fl' hp).
  { intros k v m' Hk. apply fdlist_insert. intros x Hx. by apply (tag_not_links HP Hg' Hall Hp'). }
  split; [split_and!; [done|..|done| |]|].
  - unfold bs'. apply tail_app. fold blk. unfold m3, PREV_SIZE, SIZE_AND_FLAG in *. split.
    + do 3 (apply (seg_insert_out ps mbs); [lia|done|unfold blk; lia|]).
      eapply seg_ext; [intros k Hk; apply Hkeep; left; unfold bs'; rewrite tag_app; by left|].
      apply (seg_insert_out ps mbs); [lia|done|unfold blk; lia|done].
    + rewrite !tail_cons; cbn [bsize bused]. unfold PREV_SIZE, SIZE_AND_FLAG.
      replace (blk + usz + (sz - usz)) with (blk + sz) by lia. split_and!.
      * rewrite !lookup_insert_ne by lia. rewrite Hkeep by auto. by rewrite lookup_insert_eq.
      * done.
      * rewrite !lookup_insert_ne by lia. by rewrite lookup_insert_eq.
      * intros _. split; [done|]. rewrite lookup_insert_ne by lia. by rewrite lookup_insert_eq.
      * match goal with |- HeapInv.tail_seg _ _ (<[_ := _]> ?M) ?a _ _ =>
          apply (tail_set_flag hp ps mbs first first last HP M a fx false l2); [done|by left|] end.
        do 2 (apply (tail_insert_out hp ps mbs first first last HP); [done|unfold blk in *; lia|]).
        eapply tail_ext; [|apply (tail_insert_out hp ps mbs first first last HP m (blk + sz) fx l2
           (blk + 8) (usz + flag (lastu true l1))); [done|lia|exact Ht]].
        intros k Hk. apply Hkeep. destruct Hk as [Hk|]; [|by right]. left.
        unfold bs'. rewrite tag_app. cbn. fold blk. right; right; right; right; right.
        by replace (blk + usz + (sz - usz)) with (blk + sz) by lia.
  - unfold m3. auto 10.
  - unfold m3. do 3 apply mapped_insert. eapply mapped_changes; [exact Hc|]. by apply mapped_insert.
  - unfold m3. do 3 (apply uframe_insert; [done|done|auto|]).
    eapply uframe_links; [done|done|done|exact Hc|]. by apply uframe_insert; auto.
Qed.
(** Linking the free block behind [pre] into the free list. *)
Lemma link_free_spec m t pre sz post fl1 fl2 Q :
  let bs := pre ++ Blk sz false :: post in
  let b := first + sizes pre in
  good bs -> first + sizes bs = last -> fl1 ++ b :: fl2 ≡ₚ free_addrs first bs ->
  mapped_area first last m -> fdlist m hp (fl1 ++ fl2) hp ->
  (forall m2, fdlist m2 hp (fl1 ++ b :: fl2) hp ->
    changes (link_words (hp :: fl1 ++ b :: fl2)) m m2 -> Q tt (St m2 t)) ->
  wp (_Heap_Free_list_insert_after (dpred hp fl1) b) Q (St m t).
Proof.
  intros bs b Hg Hall Hp Hm Hl HQ. pose proof mbs_min.
  pose proof Hg as Hg'. apply good_app in Hg' as [Hg1 Hg2].
  apply good_cons in Hg2 as [[_ Hsz] Hg2]. cbn [bsize] in Hsz.
  pose proof (good_nonneg _ Hg2). unfold bs in Hall. rewrite sizes_app in Hall. cbn in Hall.
  apply (free_list_insert_after_spec hp _ fl1 b fl2).
  - apply (free_dsep HP Hg); [unfold bs; rewrite sizes_app; cbn; lia|done].
  - exact Hl.
  - apply (mapped_word m pre); [done|done|lia|done|unfold NEXT; lia..].
  - apply (mapped_word m pre); [done|done|lia|done|unfold PREV; lia..].
  - exact HQ.
Qed.

(** The tags of a free block at [fb] that ends at [nxt]. *)
Lemma write_tags_spec fb nxt v w x f m t Q :
  is_Some (m !! (fb + SIZE_AND_FLAG)) -> is_Some (m !! (nxt + PREV_SIZE)) ->
  m !! (nxt + SIZE_AND_FLAG) = Some (x + flag f) -> Z.even x = true -> 0 <= x < 2 ^ 64 ->
  fb + 8 < nxt ->
  Q tt (St (<[nxt + SIZE_AND_FLAG := x + flag false]>
    (<[nxt + PREV_SIZE := w]> (<[fb + SIZE_AND_FLAG := v]> m))) t) ->
  wp (set_size_and_flag fb v;; set_prev_size nxt w;; clear_prev_used nxt) Q (St m t).
Proof.
  intros H1 H2 H3 He Hx Hlt HQ. apply wp_bind, wp_store; [done|].
  apply wp_bind, wp_store; [by apply is_Some_insert|].
  eapply clear_prev_used_spec; [|done..|exact HQ]. unfold SIZE_AND_FLAG, PREV_SIZE in *.
  cbn [get_mem set_mem state_HasMem hmem]. by mem_lookup.
Qed.


Definition split_post (bs : list block) (m m' : mem) : Prop :=
  exists fl', layout m' bs fl' /\ uframe bs m m'.

Lemma split_spec m t l1 sz fx l2 fl1 fl2 n fs nf nu tot mf Q :
  open_layout m l1 sz fx l2 (fl1 ++ fl2) -> head_used l2 -> 0 <= n -> n + 8 <= sz ->
  acct t fs nf nu tot mf -> 0 <= fs -> fs + sz < 2 ^ 64 ->
  (forall m' t' fl', let new := split_blocks n sz in
    layout m' (l1 ++ new ++ l2) fl' -> uframe (l1 ++ new ++ l2) m m' ->
    acct t' (fs + sizes_of false new) (nf + count_of false new) nu tot mf ->
    Q tt (St m' t')) ->
  wp (_Heap_Block_split hp (first + sizes l1) (dpred hp fl1) n) Q (St m t).
Proof.
  intros Hopen Hu Hn Hnsz Ha Hfs Hfsz HQ.
  pose proof Hopen as (Hg & Hs & Hb & Ht & Hp & Hl & Hm).
  pose proof mbs_min. pose proof bounds. apply good_app in Hg as [Hg1 Hg2].
  apply good_cons in Hg2 as [[Hmod Hsz] Hg2]. cbn [bsize] in Hmod, Hsz.
  pose proof (good_nonneg l1 Hg1). pose proof (good_nonneg l2 Hg2).
  assert (Hsum : first + sizes l1 + sz + sizes l2 = last) by apply Ht.
  destruct (head_size_ok hp ps mbs first first last HP l2 first_mod8 Hg2) as [Hhe Hhr]; [lia|].
  destruct (split_test n sz) as [Htest Halign]; [done..|lia|].
  do 2 (apply wp_bind, wp_gets). apply wp_bind.
  eapply block_size_spec; [exact Hb|by apply mult_even|lia|]. cbv zeta.
  change (ctl (St m t)) with (with_stats c t).
  cbn [min_block_size page_size with_stats]. rewrite Htest.
  unfold _Heap_Block_at. rewrite (u64_small (first + sizes l1 + sz)) by lia.
  unfold split_blocks in HQ.
  destruct (Z.leb_spec (used_block_size n + mbs) sz) as [Hle|Hgt].
  - rewrite (Halign Hle). destruct (used_block_size_ok n Hn) as (Hum & Hum' & _).
    set (usz := used_block_size n) in *. rewrite (u64_small (first + sizes l1 + usz)) by lia.
    rewrite (u64_small (sz - usz)) by lia. apply wp_bind.
    eapply block_set_size_spec; [exact Hb|by apply mult_even..|].
    apply wp_bind, set_stats_spec. apply wp_bind.
    set (m1 := <[first + sizes l1 + SIZE_AND_FLAG := usz + flag (lastu true l1)]> m) in *.
    destruct (first_header m1 l1 usz) as (y & Hy & Hye).
    { apply (seg_insert_out ps mbs); [lia|done|unfold SIZE_AND_FLAG; lia|done]. }
    { done. } { done. } { unfold m1. by rewrite lookup_insert_eq. }
    assert (Ht1 : tail_seg m1 (first + sizes l1 + sz) fx l2)
      by (apply (tail_insert_out hp ps mbs first first last HP); [done|unfold SIZE_AND_FLAG; lia|done]).
    eapply tail_is_used_spec; [exact Ht1|done|lia|exact Hy|done|].
    replace (match l2 with [] => true | b :: _ => bused b end) with true
      by (destruct l2; [done|symmetry; exact Hu]).
    destruct (split_bs l1 usz sz l2) as [Hg' Hall']; [done..|apply Hopen|by rewrite sizes_app; cbn; lia|].
    pose proof (split_fl l1 usz sz l2 fl1 fl2 Hp) as Hp'.
    assert (Hfb : first + sizes (l1 ++ [Blk usz true]) = first + sizes l1 + usz)
      by (rewrite sizes_app; cbn; lia).
    assert (Hbs : l1 ++ Blk usz true :: Blk (sz - usz) false :: l2 =
      (l1 ++ [Blk usz true]) ++ Blk (sz - usz) false :: l2) by by rewrite <- app_assoc.
    assert (Hm1 : mapped_area first last m1) by by apply mapped_insert.
    apply wp_bind, wp_bind. rewrite <- Hfb. rewrite Hbs in Hg', Hall', Hp'. rewrite <- Hfb in Hp'.
    apply (link_free_spec m1 _ (l1 ++ [Blk usz true]) (sz - usz) l2 fl1 fl2); try done.
    { apply fdlist_insert; [|done]. intros x Hx.
      refine (tag_not_links HP (proj1 Hopen) _ Hp Hx (or_introl (tag_mid _ _ _))).
      rewrite sizes_app. cbn. lia. }
    rewrite Hfb in *. intros m2 Hl2 Hc. apply wp_bind, set_stats_spec, wp_ret.
    destruct (split_layout m m2 l1 sz fx l2 fl1 fl2 usz Hopen Hu Hum Hum' Hle Hl2 Hc)
      as [Hlay Hfr]. rewrite <- Hbs in *.
    assert (Hm2 : mapped_area first last m2) by by eapply mapped_changes.
    replace (Z.lor (sz - usz) HEAP_PREV_BLOCK_USED) with (sz - usz + flag true)
      by (by rewrite lor_1 by (by apply mult_even, mod_sub; [apply ps_pos|..])).
    assert (Hpre : forall x, x mod ps = 0 -> mbs <= x -> good (l1 ++ [Blk x true]))
      by (intros; apply good_app; split; [done|]; apply good_cons; split; [done|constructor]).
    assert (Hnx : first + sizes (l1 ++ [Blk sz true]) = first + sizes l1 + sz)
      by (rewrite sizes_app; cbn; lia).
    unfold SIZE_AND_FLAG, PREV_SIZE in *.
    apply (write_tags_spec _ _ _ _ (head_size first last l2) fx); unfold SIZE_AND_FLAG, PREV_SIZE.
    + rewrite <- Hfb. apply mapped_word; [done|by apply Hpre|lia|done|lia|lia].
    + rewrite <- Hnx. apply mapped_word; [done|by apply Hpre|lia|done|lia|lia].
    + rewrite (tag_keep HP Hg' Hall' Hp' Hc); [by apply (tail_header first last)|].
      by apply split_tag_next.
    + done.
    + done.
    + lia.
    + eapply HQ; [exact Hlay|exact Hfr|].
      replace (sizes_of false [Blk usz true; Blk (sz - usz) false]) with (sz - usz)
        by (rewrite !sizes_of_cons; cbn; lia).
      apply acct_nfree_add, acct_free_add; [done|lia].
  - eapply set_prev_used_spec; [by eapply tail_header; exact Ht|done|].
    destruct (close_layout _ _ _ _ _ _ Hopen) as [Hlay Hfr].
    eapply HQ; [exact Hlay|exact Hfr|]. cbn. unfold sizes_of, count_of; cbn.
    by rewrite !Z.add_0_r.
Qed.
(** ** Allocating at the end of a block *)

Lemma user_word_split n l1 sz l2 k : 0 <= n -> n + 8 <= sz -> mbs <= sz ->
  user_word first (l1 ++ split_blocks n sz ++ l2) k ->
  user_word first (l1 ++ Blk sz true :: l2) k.
Proof.
  intros Hn Hsz Hm. unfold split_blocks. pose proof mbs_min.
  destruct (Z.leb_spec (used_block_size n + mbs) sz); [|done]. cbn.
  rewrite !user_word_app. cbn. unfold HEAP_BLOCK_HEADER_SIZE.
  replace (first + sizes l1 + used_block_size n + (sz - used_block_size n))
    with (first + sizes l1 + sz) by lia.
  intros [?|[[_ ?]|[[? _]|?]]]; [by left| |done|by right; right].
  right; left. split; [done|lia].
Qed.

Lemma end_bs l1 off sz l2 (bs' := l1 ++ Blk off false :: Blk (sz - off) true :: l2) :
  off mod ps = 0 -> mbs <= off -> off + mbs <= sz ->
  good (l1 ++ Blk sz true :: l2) -> first + sizes (l1 ++ Blk sz true :: l2) = last ->
  good bs' /\ first + sizes bs' = last.
Proof.
  intros Hum Hus Hle Hg Hall. apply good_app in Hg as [Hg1 Hg2].
  apply good_cons in Hg2 as [[Hmod Hsz] Hg2]. cbn [bsize] in *. unfold bs'.
  rewrite sizes_app in *. cbn in *. split; [|lia].
  apply good_app; split; [done|]. rewrite !good_cons; cbn.
  split_and!; [done|done|by apply mod_sub; [apply ps_pos|..]|lia|done].
Qed.

Lemma end_fl l1 off sz l2 fl1 fl2 :
  fl1 ++ fl2 ≡ₚ free_addrs first (l1 ++ Blk sz true :: l2) ->
  fl1 ++ (first + sizes l1) :: fl2
    ≡ₚ free_addrs first (l1 ++ Blk off false :: Blk (sz - off) true :: l2).
Proof.
  intros Hp. rewrite free_addrs_app in *. cbn in *. rewrite <- Permutation_middle, Hp.
  replace (first + sizes l1 + off + (sz - off)) with (first + sizes l1 + sz) by lia.
  apply Permutation_middle.
Qed.

Lemma end_layout m m2 l1 sz fx l2 fl1 fl2 off :
  open_layout m l1 sz fx l2 (fl1 ++ fl2) -> lastu true l1 = true ->
  off mod ps = 0 -> mbs <= off -> off + mbs <= sz ->
  let blk := first + sizes l1 in
  let fl' := fl1 ++ blk :: fl2 in
  fdlist m2 hp fl' hp -> changes (link_words (hp :: fl')) m m2 ->
  let m3 := <[blk + off + SIZE_AND_FLAG := sz - off + flag false]>
    (<[blk + off + PREV_SIZE := off]> (<[blk + SIZE_AND_FLAG := off + flag true]> m2)) in
  open_layout m3 (l1 ++ [Blk off false]) (sz - off) fx l2 fl' /\
  uframe (l1 ++ Blk off false :: Blk (sz - off) true :: l2) m m3.
Proof.
  intros Hopen Hlu Hom Hof Hsz blk fl' Hl2 Hc m3.
  pose proof Hopen as (Hg & Hs & Hb & Ht & Hp & Hl & Hm). pose proof mbs_min.
  pose proof Hg as Hg0. apply good_app in Hg0 as [Hg1 Hg2].
  apply good_cons in Hg2 as [_ Hg2]. pose proof (good_nonneg l2 Hg2).
  assert (Hsum : blk + sz + sizes l2 = last) by apply Ht.
  destruct (end_bs l1 off sz l2) as [Hg' Hall]; [done..|by rewrite sizes_app; cbn; lia|].
  pose proof (end_fl l1 off sz l2 fl1 fl2 Hp) as Hp'. fold blk fl' in Hp'.
  set (bs' := l1 ++ Blk off false :: Blk (sz - off) true :: l2) in *.
  assert (E2 : bs' = (l1 ++ [Blk off false]) ++ Blk (sz - off) true :: l2)
    by (unfold bs'; by rewrite <- app_assoc).
  assert (S2 : first + sizes (l1 ++ [Blk off false]) = blk + off)
    by (rewrite sizes_app; cbn; unfold blk; lia).
  assert (T1 : tag first bs' (blk + SIZE_AND_FLAG)) by apply tag_mid.
  assert (T2 : tag first bs' (blk + off + SIZE_AND_FLAG)) by (rewrite E2, <- S2; apply tag_mid).
  assert (T3 : tag first bs' (blk + off + PREV_SIZE))
    by exact (tag_end l1 (Blk off false) (Blk (sz - off) true :: l2) eq_refl).
  assert (Hkeep : forall k, tag first bs' k \/ k = last + SIZE_AND_FLAG -> m2 !! k = m !! k)
    by (intros k Hk; by apply (tag_keep HP Hg' Hall Hp')).
  assert (Hlk : forall k v m', tag first bs' k ->
    fdlist m' hp fl' hp -> fdlist (<[k := v]> m') hp fl' hp).
  { intros k v m' Hk. apply fdlist_insert. intros x Hx.
    apply (tag_not_links HP Hg' Hall Hp'); auto. }
  split; [unfold HeapInv.open_layout; cbv zeta; rewrite S2, <- E2; split_and!|].
  - done.
  - unfold m3, SIZE_AND_FLAG, PREV_SIZE in *. rewrite seg_app. cbn [seg bsize bused]. fold blk.
    unfold SIZE_AND_FLAG, PREV_SIZE. split_and!.
    + do 3 (apply (seg_insert_out ps mbs); [lia|done|unfold blk; lia|]).
      eapply seg_ext; [|exact Hs]. intros k Hk. apply Hkeep. left. unfold bs'.
      rewrite tag_app. by left.
    + rewrite !lookup_insert_ne by lia. by rewrite lookup_insert_eq, Hlu.
    + intros _. split; [done|]. rewrite lookup_insert_ne by lia. by rewrite lookup_insert_eq.
    + done.
  - unfold m3. rewrite lookup_insert_eq, lastu_app. done.
  - replace (blk + off + (sz - off)) with (blk + sz) by lia. unfold m3, SIZE_AND_FLAG, PREV_SIZE in *.
    do 3 (apply (tail_insert_out hp ps mbs first first last HP); [done|unfold blk in *; lia|]).
    eapply tail_ext; [|exact Ht]. intros k [Hk|Hk]; apply Hkeep; [left|by right].
    unfold bs'. rewrite tag_app. cbn. fold blk. right; right; right; right; right.
    by replace (blk + off + (sz - off)) with (blk + sz) by lia.
  - done.
  - unfold m3. auto 10.
  - unfold m3. do 3 apply mapped_insert. by eapply mapped_changes.
  - unfold m3. do 3 (apply uframe_insert; [done|done|auto|]).
    by eapply uframe_links; [done|done|done|exact Hc|].
Qed.
(** How an allocation of [n] bytes at [p] may subdivide a block of size
    [sz] at [blk]: an optional free block, the used block, an optional free
    block. *)
Record subdivision (blk sz p n : Z) (pre : list block) (x : Z) (post : list block) : Prop := {
  sd_pre : pre = [] \/ exists o, pre = [Blk o false];
  sd_post : post = [] \/ exists y, post = [Blk y false];
  sd_good : good (pre ++ Blk x true :: post);
  sd_sizes : sizes (pre ++ Blk x true :: post) = sz;
  sd_begin : blk + sizes pre + 16 <= p;
  sd_page : p < blk + sizes pre + 16 + ps;
  sd_end : p + n <= blk + sizes pre + x + 8;
}.

Lemma subdivision_begin blk sz p n : 0 <= n -> blk + 16 <= p < blk + 16 + ps ->
  p + n <= blk + sz + 8 -> sz mod ps = 0 -> mbs <= sz -> sz <= last - first ->
  exists x post, split_blocks (n + (p - (blk + 16))) sz = Blk x true :: post /\
    subdivision blk sz p n [] x post.
Proof.
  intros Hn Hp Hend Hmod Hm Hl.
  destruct (split_blocks_good (n + (p - (blk + 16))) sz)
    as (Hg & Hs & x & post & E & Hx & Hpost); [lia|lia|done..|].
  exists x, post. split; [done|]. rewrite E in *. split; cbn in *; try done; try lia.
  by left.
Qed.

Lemma subdivision_end blk sz p n off : 0 <= n -> off mod ps = 0 -> mbs <= off ->
  off + mbs <= sz -> blk + off + 16 <= p < blk + off + 16 + ps -> p <= blk + off + 24 ->
  p + n <= blk + sz + 8 -> sz mod ps = 0 -> sz <= last - first ->
  exists x post, split_blocks n (sz - off) = Blk x true :: post /\
    subdivision blk sz p n [Blk off false] x post.
Proof.
  intros Hn Hom Hof Hsz Hp Hp' Hend Hmod Hl. pose proof mbs_min.
  destruct (split_blocks_good n (sz - off))
    as (Hg & Hs & x & post & E & Hx & Hpost); [lia|lia|by apply mod_sub; [apply ps_pos|..]|lia..|].
  exists x, post. split; [done|]. rewrite E in *. split; cbn in *; try done; try lia.
  - right. by eexists.
  - by apply good_cons.
Qed.

Lemma from_end_spec m t l1 sz fx l2 fl1 fl2 p n off fs nf nu tot mf Q :
  let blk := first + sizes l1 in
  open_layout m l1 sz fx l2 (fl1 ++ fl2) -> head_used l2 -> lastu true l1 = true ->
  0 <= n -> off mod ps = 0 -> mbs <= off -> off + mbs <= sz -> n + 8 <= sz - off ->
  _Heap_Block_of_alloc_area p ps = blk + off ->
  acct t fs nf nu tot mf -> 0 <= fs -> fs + sz < 2 ^ 64 ->
  (forall m' t' fl', let new := Blk off false :: split_blocks n (sz - off) in
    layout m' (l1 ++ new ++ l2) fl' -> uframe (l1 ++ new ++ l2) m m' ->
    acct t' (fs + sizes_of false new) (nf + count_of false new) nu tot mf ->
    Q (blk + off) (St m' t')) ->
  wp (_Heap_Block_allocate_from_end hp blk (dpred hp fl1) p n) Q (St m t).
Proof.
  intros blk Hopen Hu Hlu Hn Hom Hof Hsz Hns Hblk Ha Hfs Hfsz HQ.
  pose proof Hopen as (Hg & Hs & Hb & Ht & Hp & Hl & Hm). pose proof mbs_min. pose proof bounds.
  pose proof Hg as Hg0. apply good_app in Hg0 as [Hg1 Hg2].
  apply good_cons in Hg2 as [[Hmod _] Hg2]. cbn [bsize] in Hmod.
  pose proof (good_nonneg l1 Hg1). pose proof (good_nonneg l2 Hg2).
  assert (Hsum : blk + sz + sizes l2 = last) by apply Ht.
  destruct (end_bs l1 off sz l2) as [Hg' Hall]; [done..|by rewrite sizes_app; cbn; lia|].
  pose proof (end_fl l1 off sz l2 fl1 fl2 Hp) as Hp'.
  apply wp_bind, wp_gets, wp_bind.
  eapply block_size_spec; [exact Hb|by apply mult_even|lia|]. cbv zeta.
  change (page_size (ctl (St m t))) with ps. rewrite Hblk.
  rewrite (u64_small (blk + sz)), (u64_small (blk + sz - (blk + off))),
    (u64_small (blk + off - blk)) by (unfold blk in *; lia).
  replace (blk + off - blk) with off by lia.
  replace (blk + sz - (blk + off)) with (sz - off) by lia.
  apply wp_bind, set_stats_spec, wp_bind.
  eapply is_prev_used_spec; [exact Hb|by apply mult_even|]. rewrite Hlu.
  apply wp_bind, wp_bind.
  apply (link_free_spec m _ l1 off (Blk (sz - off) true :: l2) fl1 fl2); [done..|].
  intros m2 Hl2 Hc. fold blk in Hl2, Hc. apply wp_bind, set_stats_spec, wp_ret.
  destruct (end_layout m m2 l1 sz fx l2 fl1 fl2 off Hopen Hlu Hom Hof Hsz Hl2 Hc) as [Hop3 Hfr3].
  fold blk in Hop3, Hfr3. cbv zeta in Hop3, Hfr3.
  assert (Hm2 : mapped_area first last m2) by by eapply mapped_changes.
  assert (Hpre : first + sizes (l1 ++ [Blk off false]) = blk + off)
    by (rewrite sizes_app; cbn; unfold blk; lia).
  assert (Hgp : good (l1 ++ [Blk off false]))
    by (apply good_app; split; [done|]; apply good_cons; split; [done|constructor]).
  rewrite lor_1 by by apply mult_even. apply wp_bind, wp_store.
  { apply (mapped_word m2 l1); [done|done|lia|done|unfold SIZE_AND_FLAG; lia..]. }
  apply wp_bind, wp_store.
  { apply is_Some_insert. rewrite <- Hpre.
    apply mapped_word; [done|done|lia|done|unfold PREV_SIZE; lia..]. }
  apply wp_bind, wp_store.
  { do 2 apply is_Some_insert. rewrite <- Hpre.
    apply mapped_word; [done|done|lia|done|unfold SIZE_AND_FLAG; lia..]. }
  apply wp_bind. cbn [get_mem set_mem state_HasMem hmem ctl].
  replace (sz - off + flag false) with (sz - off) in Hop3, Hfr3 by (cbn; lia).
  replace (_Heap_Block_split hp (blk + off) blk n) with (_Heap_Block_split hp
    (first + sizes (l1 ++ [Blk off false])) (dpred hp (fl1 ++ [blk])) n)
    by by rewrite Hpre, dpred_snoc.
  replace (fl1 ++ blk :: fl2) with ((fl1 ++ [blk]) ++ fl2) in Hop3 by by rewrite <- app_assoc.
  eapply (split_spec _ _ (l1 ++ [Blk off false]) (sz - off) fx l2 (fl1 ++ [blk]) fl2 n
    (fs + off) (nf + 1)); [exact Hop3|done|done|lia| |lia|lia|].
  { apply acct_nfree_add, acct_free_add; [done|lia]. }
  cbv zeta. intros m' t' fl' Hlay Hfr Ha'. apply wp_ret.
  rewrite <- !app_assoc in Hlay, Hfr. cbn [app] in Hlay, Hfr.
  eapply HQ; [exact Hlay| |].
  - intros k Hk. rewrite (Hfr k Hk). apply Hfr3.
    change (Blk off false :: Blk (sz - off) true :: l2) with ([Blk off false] ++ Blk (sz - off) true :: l2).
    destruct Hk as [Hk|Hk]; [left|by right].
    rewrite app_assoc. apply (user_word_split n); [done|lia|lia|].
    rewrite <- app_assoc. exact Hk.
  - rewrite sizes_of_cons, count_of_cons. cbn [bused bsize Bool.eqb].
    by rewrite !Z.add_assoc.
Qed.
(** ** Allocating in a free block *)

(** [n] bytes at [p] fit into the block of size [sz] at [blk]: in its first
    page, or behind a remainder that is a valid block, at most a bonus
    behind a page boundary. *)
Definition fit (blk sz p n : Z) : Prop :=
  0 <= n /\ blk + 16 <= p /\ p + n <= blk + sz + 8 /\
  (p < blk + 16 + ps \/
   exists off, off mod ps = 0 /\ mbs <= off /\ off + mbs <= sz /\
     blk + off + 16 <= p <= blk + off + 24 /\ p < blk + off + 16 + ps).

Lemma layout_free ring m l1 sz l2 fl : ring_layout hp c ring m (l1 ++ Blk sz false :: l2) fl ->
  let blk := first + sizes l1 in
  lastu true l1 = true /\ head_used l2 /\ m !! (blk + SIZE_AND_FLAG) = Some (sz + flag true) /\
  m !! (blk + sz + PREV_SIZE) = Some sz /\ HeapInv.tail_seg ring last m (blk + sz) false l2 /\
  exists fl1 fl2, fl = fl1 ++ blk :: fl2 /\
    fl1 ++ fl2 ≡ₚ free_addrs first (l1 ++ Blk sz true :: l2).
Proof.
  intros (Hg & Ht & Hp & _) blk. apply tail_app in Ht as [Hs Ht].
  apply tail_cons in Ht as (H1 & H2 & H3). cbn [bsize bused] in *.
  destruct (H2 eq_refl) as [Hlu H2']. rewrite Hlu in *. split_and!; try done.
  - destruct l2 as [|b l2]; [done|]. cbn. apply tail_cons in H3 as (_ & H3 & _).
    destruct (bused b); [done|]. by destruct (H3 eq_refl).
  - assert (Hin : blk ∈ fl) by (rewrite Hp, free_addrs_app; cbn; set_solver).
    apply list_elem_of_split in Hin as (fl1 & fl2 & ->). exists fl1, fl2. split; [done|].
    rewrite free_addrs_app in *. cbn in *. apply (Permutation_cons_inv (a := blk)).
    by rewrite Permutation_middle, Hp, <- Permutation_middle.
Qed.

Lemma good_set_used u u' l1 sz l2 : good (l1 ++ Blk sz u :: l2) -> good (l1 ++ Blk sz u' :: l2).
Proof. by rewrite !good_app, !good_cons. Qed.

Lemma sizes_set_used u u' l1 sz l2 : sizes (l1 ++ Blk sz u :: l2) = sizes (l1 ++ Blk sz u' :: l2).
Proof. by rewrite !sizes_app. Qed.

(** Unlinking a free block opens the layout. *)
Lemma open_free m m1 l1 sz l2 fl1 fl2 : layout m (l1 ++ Blk sz false :: l2)
    (fl1 ++ (first + sizes l1) :: fl2) ->
  fl1 ++ fl2 ≡ₚ free_addrs first (l1 ++ Blk sz true :: l2) ->
  fdlist m1 hp (fl1 ++ fl2) hp -> changes (link_words (hp :: fl1 ++ fl2)) m m1 ->
  open_layout m1 l1 sz false l2 (fl1 ++ fl2) /\ uframe (l1 ++ Blk sz true :: l2) m m1.
Proof.
  intros Hlay Hp' Hl' Hc. pose proof (layout_free _ _ _ _ _ _ Hlay) as (Hlu & Hu & Hb & _ & Ht & _).
  destruct Hlay as (Hg & Hts & Hp & Hl & Hm). apply (good_set_used false true) in Hg.
  assert (Hall : first + sizes (l1 ++ Blk sz true :: l2) = last)
    by (rewrite <- (sizes_set_used false); apply Hts).
  assert (Hkeep : forall k, tag first (l1 ++ Blk sz true :: l2) k \/ k = last + SIZE_AND_FLAG ->
    m1 !! k = m !! k) by (intros k Hk; by apply (tag_keep HP Hg Hall Hp')).
  split; [|by eapply uframe_links].
  split_and!; [done| | |..|done|done|by eapply mapped_changes].
  - apply tail_app in Hts as [Hs _]. eapply seg_ext; [|exact Hs].
    intros k Hk. apply Hkeep. left. rewrite tag_app. by left.
  - rewrite Hkeep, Hlu; [done|]. left. apply tag_mid.
  - eapply tail_ext; [|exact Ht]. intros k [Hk|Hk]; apply Hkeep; [left|by right].
    rewrite tag_app. cbn. auto.
Qed.

Lemma block_of_alloc_area_spec b p : 0 <= b -> b + 16 <= p < b + 16 + ps -> p < 2 ^ 64 ->
  (b + 16) mod ps = 0 -> _Heap_Block_of_alloc_area p ps = b.
Proof.
  intros Hb Hp Hlt Hmod. unfold _Heap_Block_of_alloc_area, _Heap_Align_down, HEAP_BLOCK_HEADER_SIZE.
  assert (Hr : p mod ps = p - (b + 16)).
  { symmetry. apply Z.mod_divide in Hmod as [q Hq]; [|lia].
    apply (Z.mod_unique _ _ q); lia. }
  rewrite Hr. change (2 * 8 + 0) with 16. rewrite (u64_small (p - _)), u64_small by lia. lia.
Qed.

Lemma block_page_mod l : good l -> (first + sizes l + 16) mod ps = 0.
Proof.
  intros Hg. destruct HP as [[? _] _ [_ Hf] _ _]. unfold HEAP_BLOCK_HEADER_SIZE in Hf.
  replace (first + sizes l + 16) with (first + (2 * 8 + 0) + sizes l) by lia.
  apply mod_add; [done|done|by eapply sizes_mod].
Qed.
Lemma sizes_of_used u l : bused u = true -> sizes_of false (u :: l) = sizes_of false l.
Proof. intros Hu. by rewrite sizes_of_cons, Hu. Qed.

Lemma count_of_used u l : bused u = true -> count_of false (u :: l) = count_of false l.
Proof. intros Hu. by rewrite count_of_cons, Hu. Qed.

(** The part of [_Heap_Block_allocate] behind the removal from the free
    list. *)
Lemma allocate_open_spec m t l1 sz l2 fl1 fl2 p n fs nf nu tot mf Q :
  let blk := first + sizes l1 in
  open_layout m l1 sz false l2 (fl1 ++ fl2) -> head_used l2 -> lastu true l1 = true ->
  fit blk sz p n -> acct t fs nf nu tot mf -> 0 <= fs -> fs + sz < 2 ^ 64 ->
  (forall m' t' fl' pre x post, subdivision blk sz p n pre x post ->
    let bs' := l1 ++ (pre ++ Blk x true :: post) ++ l2 in
    layout m' bs' fl' -> uframe bs' m m' ->
    acct t' (fs + sizes_of false (pre ++ post)) (nf + count_of false (pre ++ post)) nu tot mf ->
    Q (blk + sizes pre) (St m' t')) ->
  wp (if p -! _Heap_Alloc_area_of_block blk <? ps
      then _Heap_Block_allocate_from_begin hp blk (dpred hp fl1)
             (n +! (p -! _Heap_Alloc_area_of_block blk))
      else _Heap_Block_allocate_from_end hp blk (dpred hp fl1) p n) Q (St m t).
Proof.
  intros blk Hopen Hu Hlu (Hn & Hp1 & Hp2 & Hcase) Ha Hfs Hfsz HQ.
  pose proof Hopen as (Hg & _ & _ & Ht & _). pose proof mbs_min. pose proof bounds.
  apply good_app in Hg as [Hg1 Hg2]. apply good_cons in Hg2 as [[Hmod Hm] Hg2]. cbn [bsize] in *.
  pose proof (good_nonneg l1 Hg1). pose proof (good_nonneg l2 Hg2).
  assert (Hsum : blk + sz + sizes l2 = last) by apply Ht.
  unfold _Heap_Alloc_area_of_block, HEAP_BLOCK_HEADER_SIZE. change (2 * 8 + 0) with 16.
  rewrite (u64_small (blk + 16)), (u64_small (p - (blk + 16))),
    (u64_small (n + (p - (blk + 16)))) by (unfold blk in *; lia).
  destruct (Z.ltb_spec (p - (blk + 16)) ps) as [Hlt|Hge].
  - destruct (subdivision_begin blk sz p n) as (x & post & E & Hsd); [lia..|done|done|unfold blk in *; lia|].
    apply wp_bind. eapply (split_spec _ _ l1 sz false l2 fl1 fl2); [done|done|lia|lia|exact Ha|done|done|].
    cbv zeta. rewrite E. intros m' t' fl' Hlay Hfr Ha'. apply wp_ret.
    rewrite sizes_of_used, count_of_used in Ha' by done.
    specialize (HQ m' t' fl' [] x post Hsd). cbn [app sizes] in HQ. rewrite Z.add_0_r in HQ.
    by apply HQ.
  - destruct Hcase as [?|(off & Hom & Hof & Hos & [Hb1 Hb2] & Hb3)]; [lia|].
    destruct (subdivision_end blk sz p n off) as (x & post & E & Hsd);
      [done..|lia|lia|done|unfold blk in *; lia|].
    eapply (from_end_spec _ _ l1 sz false l2 fl1 fl2 p n off); [done..|lia| |exact Ha|done|done|].
    { apply block_of_alloc_area_spec; [unfold blk; lia|fold blk; lia|unfold blk in *; lia|].
      replace (first + sizes l1 + off + 16) with (first + sizes l1 + 16 + off) by lia.
      apply mod_add; [apply ps_pos|by apply block_page_mod|done]. }
    cbv zeta. rewrite E. intros m' t' fl' Hlay Hfr Ha'.
    specialize (HQ m' t' fl' [Blk off false] x post Hsd). cbn [sizes bsize] in HQ.
    rewrite Z.add_0_r in HQ. apply HQ; [exact Hlay|exact Hfr|].
    rewrite sizes_of_cons, sizes_of_used, count_of_cons, count_of_used in Ha' by done.
    cbn [app]. rewrite sizes_of_cons, count_of_cons. exact Ha'.
Qed.

Lemma user_word_subdivision l1 sz p n pre x post l2 k :
  subdivision (first + sizes l1) sz p n pre x post ->
  user_word first (l1 ++ (pre ++ Blk x true :: post) ++ l2) k ->
  user_word first (l1 ++ Blk sz true :: l2) k.
Proof.
  intros [Hpre Hpost Hg Hs _ _ _]. rewrite !user_word_app, Hs. intros [?|[Hk|Hk]].
  - by left.
  - right; left. split; [done|]. pose proof (user_word_range ps mbs mbs_min _ _ _ Hg
      (proj2 (user_word_app _ _ _ _) Hk)). unfold HEAP_BLOCK_HEADER_SIZE. cbn [bsize]. lia.
  - by right; right.
Qed.

(** [_Heap_Block_allocate] of a free block up to the choice between its begin
    and its end: the block is unlinked, the layout open, the statistics
    count it as used. *)
Lemma block_allocate_open m t l1 sz l2 fl p n fs nf nu tot mf Q :
  let blk := first + sizes l1 in
  layout m (l1 ++ Blk sz false :: l2) fl -> acct t fs nf nu tot mf -> sz <= fs < 2 ^ 64 ->
  (forall m1 t1 fl1 fl2, open_layout m1 l1 sz false l2 (fl1 ++ fl2) -> head_used l2 -> lastu true l1 = true ->
    uframe (l1 ++ Blk sz true :: l2) m m1 -> acct t1 (fs - sz) (nf - 1) (nu + 1) tot mf ->
    wp (if p -! _Heap_Alloc_area_of_block blk <? ps
        then _Heap_Block_allocate_from_begin hp blk (dpred hp fl1) (n +! (p -! _Heap_Alloc_area_of_block blk))
        else _Heap_Block_allocate_from_end hp blk (dpred hp fl1) p n)
      (fun b s => wp (set_stats (fun t => if free_size t <? min_free_size t
                                          then set_min_free_size (free_size t) t else t);; mret b) Q s) (St m1 t1)) ->
  wp (_Heap_Block_allocate hp blk p n) Q (St m t).
Proof.
  intros blk Hlay Ha Hfs HQ. pose proof mbs_min. pose proof bounds.
  pose proof (layout_free _ _ _ _ _ _ Hlay) as (Hlu & Hu & Hb & Hpv & Ht & fl1 & fl2 & -> & Hp').
  pose proof Hlay as (Hg & Hts & Hp & Hl & Hm). pose proof Hg as Hg0.
  apply good_app in Hg0 as [Hg1 Hg2]. apply good_cons in Hg2 as [[Hmod Hms] Hg2]. cbn [bsize] in *.
  pose proof (good_nonneg l1 Hg1). pose proof (good_nonneg l2 Hg2).
  assert (Hall : first + sizes (l1 ++ Blk sz false :: l2) = last) by apply Hts.
  pose proof (free_dsep HP Hg Hall Hp) as Hsep.
  assert (Hsum : blk + sz + sizes l2 = last) by (unfold blk; rewrite sizes_app in Hall; cbn in Hall; lia).
  unfold _Heap_Block_allocate. cbv zeta. apply wp_bind, wp_bind.
  destruct (first_header m l1 sz) as (y & Hy & Hye);
    [by apply tail_app in Hts as [? _]|done|done|by rewrite Hlu|].
  apply tail_app in Hts as [_ Hts].
  eapply tail_is_used_spec; [exact Hts|by apply good_app in Hg as [_ ?]|lia|exact Hy|done|].
  cbn [bused]. apply wp_ret. cbn [negb]. apply wp_bind, wp_bind.
  pose proof (dlist_split _ _ _ _ _ _ _ _ Hl) as (_ & _ & [_ Hbp] & _).
  eapply wp_load; [exact Hbp|]. apply wp_bind.
  apply (free_list_remove_spec hp _ fl1 blk fl2); [done|exact Hl|].
  intros m1 Hl1 Hc. destruct (open_free m m1 l1 sz l2 fl1 fl2 Hlay Hp' Hl1 Hc) as [Hopen Hfr].
  do 2 apply wp_bind, set_stats_spec. apply wp_bind.
  eapply (block_size_spec _ _ sz (lastu true l1)); [apply Hopen|by apply mult_even|lia|].
  apply wp_bind, set_stats_spec, wp_ret, wp_bind, wp_gets, wp_bind.
  apply (HQ m1 _ fl1 fl2); [exact Hopen|done|done|exact Hfr|].
  apply acct_free_sub; [apply acct_nused_add, acct_nfree_sub, Ha|lia].
Qed.

Lemma block_allocate_spec m t l1 sz l2 fl p n fs nf nu tot mf Q :
  let blk := first + sizes l1 in
  layout m (l1 ++ Blk sz false :: l2) fl -> fit blk sz p n ->
  acct t fs nf nu tot mf -> sz <= fs < 2 ^ 64 ->
  (forall m' t' fl' pre x post, subdivision blk sz p n pre x post ->
    let bs' := l1 ++ (pre ++ Blk x true :: post) ++ l2 in
    layout m' bs' fl' -> uframe bs' m m' ->
    (let fs' := fs - sz + sizes_of false (pre ++ post) in
     acct t' fs' (nf - 1 + count_of false (pre ++ post)) (nu + 1) tot (Z.min fs' mf)) ->
    Q (blk + sizes pre) (St m' t')) ->
  wp (_Heap_Block_allocate hp blk p n) Q (St m t).
Proof.
  intros blk Hlay Hfit Ha Hfs HQ. eapply block_allocate_open; [exact Hlay|exact Ha|exact Hfs|].
  intros m1 t1 fl1 fl2 Hopen Hu Hlu Hfr Ha1.
  eapply allocate_open_spec; [exact Hopen|done|done|exact Hfit|exact Ha1|lia|lia|].
  cbv zeta. intros m' t' fl' pre x post Hsd Hlay' Hfr' Ha'.
  apply wp_bind, set_stats_spec, wp_ret. eapply HQ; [exact Hsd|exact Hlay'| |].
  - intros k Hk. rewrite (Hfr' k Hk). apply Hfr.
    destruct Hk; [left; by apply (user_word_subdivision _ _ p n pre x post)|by right].
  - by apply acct_min.
Qed.

(** ** The fit test *)

(** Alignment 0 asks for an address that is a multiple of the page size. *)
Definition aligned_ok (p al : Z) : Prop := p mod (if al =? 0 then ps else al) = 0.

(** No multiple of the boundary lies strictly inside [n] bytes at [p]. *)
Definition boundary_ok (p n b : Z) : Prop := b = 0 \/ forall q, ~ (p < q * b < p + n).

Lemma boundary_line_ok p n b : 0 < b -> 0 <= p -> 0 <= n <= b -> p + n < 2 ^ 64 ->
  ~ (p < _Heap_Align_down (p + n) b < p + n) -> boundary_ok p n b.
Proof.
  intros Hb Hp Hn Hlt Hline. right. intros q Hq. apply Hline.
  destruct (align_down_spec (p + n) b Hb) as (Hr & _ & Hm); [lia|].
  set (r := _Heap_Align_down (p + n) b) in *.
  assert (q * b <= r).
  { apply (mult_le_step _ _ b); [done|apply Z.mod_mul; lia|done|lia]. }
  split; [lia|]. destruct (Z.eq_dec r (p + n)) as [E|]; [|lia]. exfalso.
  assert (r <= q * b).
  { apply (mult_le_step _ _ b); [done|done|apply Z.mod_mul; lia|lia]. }
  lia.
Qed.

(** The boundary loop terminates: each round moves the begin down. *)
Lemma boundary_loop_spec s n al b fl0 p0 Q : 0 < al -> 0 < b -> 0 <= n <= b -> 0 <= fl0 ->
  0 <= p0 -> p0 + n < 2 ^ 64 -> p0 mod al = 0 ->
  Q None s ->
  (forall p, 0 <= p <= p0 -> p mod al = 0 -> boundary_ok p n b -> Q (Some p) s) ->
  wp (whileM (check_boundary_loop n al b (fl0 + n)) (p0, p0 + n, _Heap_Align_down (p0 + n) b)) Q s.
Proof.
  intros Hal Hb Hn Hfl Hp0 Hlt Hm Hnone Hsome.
  apply (wp_whileM _ (fun k '(p, e, line) s' => s' = s /\ k = p /\ 0 <= p <= p0 /\
    p mod al = 0 /\ e = p + n /\ line = _Heap_Align_down e b)) with (k := p0); [|split_and!; done || lia|lia].
  intros k [[p e] line] s' (-> & -> & Hp & Hpm & -> & ->). unfold check_boundary_loop.
  destruct (align_down_spec (p + n) b Hb) as (Hr & Hr0 & Hrm); [lia|].
  set (line := _Heap_Align_down (p + n) b) in *.
  destruct ((p <? line) && (line <? p + n)) eqn:Hin.
  - bool_hyps. destruct (Z.ltb_spec line (fl0 + n)); [by apply wp_ret|]. apply wp_ret.
    rewrite (u64_small (line - n)) by lia.
    destruct (align_down_spec (line - n) al Hal) as (Hd & Hd0 & Hdm); [lia|].
    set (p' := _Heap_Align_down (line - n) al) in *. rewrite (u64_small (p' + n)) by lia.
    exists p'. split_and!; try done; lia.
  - apply wp_ret, Hsome; [done|done|]. apply boundary_line_ok; [lia..|]. fold line.
    intros [? ?]. apply andb_false_iff in Hin as [?|?]; bool_hyps; lia.
Qed.

Lemma page_offset_ok p al : 0 <= p -> p mod al = 0 -> 0 < al -> al mod ps = 0 \/ ps = 8 ->
  p mod ps <= 8.
Proof.
  intros Hp Hm Hal [Ha|Ha].
  - pose proof ps_pos. apply Z.mod_divide in Hm as [a ->]; [|lia].
    apply Z.mod_divide in Ha as [d ->]; [|lia]. rewrite Z.mul_assoc, Z.mod_mul; lia.
  - rewrite Ha. pose proof (Z.mod_pos_bound p 8). lia.
Qed.

(** The last test of [_Heap_Check_block] accepts only what fits. *)
Lemma fit_test blk sz p n : 0 <= blk -> (blk + 16) mod ps = 0 -> blk + 16 <= p ->
  p <= blk + sz - mbs + 16 + ps - 1 -> 0 <= n -> p + n <= blk + sz + 8 -> p < 2 ^ 64 ->
  sz mod ps = 0 -> p mod ps <= 8 ->
  let free := _Heap_Block_of_alloc_area p ps -! blk in
  (mbs <=? free) || (free =? 0) = true -> fit blk sz p n.
Proof.
  intros Hb Hbm Hp Hceil Hn Hend Hlt Hsm Hoff. pose proof ps_pos. pose proof mbs_min.
  unfold _Heap_Block_of_alloc_area, HEAP_BLOCK_HEADER_SIZE. change (2 * 8 + 0) with 16.
  destruct (align_down_spec p ps) as (Hq1 & Hq2 & Hq3); [lia..|].
  assert (Hq : _Heap_Align_down p ps = p - p mod ps).
  { unfold _Heap_Align_down. pose proof (Z.mod_pos_bound p ps ltac:(lia)).
    pose proof (Z.mod_le p ps ltac:(lia) ltac:(lia)). by rewrite u64_small by lia. }
  set (q := _Heap_Align_down p ps) in *.
  assert (blk + 16 <= q) by (apply (mult_le_step _ _ ps); [lia|done|done|lia]).
  assert (q <= blk + sz - mbs + 16).
  { apply (mult_le_step _ _ ps); [lia|done| |lia].
    replace (blk + sz - mbs + 16) with (blk + 16 + (sz - mbs)) by lia.
    apply mod_add, mod_sub; [done|done|lia|done|apply mbs_mod]. }
  rewrite (u64_small (q - 16)), (u64_small (q - 16 - blk)) by lia.
  intros [Hc|Hc]%orb_true_iff; bool_hyps; (split; [lia|split; [lia|split; [lia|]]]); [|left; lia].
  right. exists (q - 16 - blk). split_and!; [|lia..].
  replace (q - 16 - blk) with (q - (blk + 16)) by lia. by apply mod_sub.
Qed.

Lemma check_block_spec m t l sz f n al b Q :
  let blk := first + sizes l in
  m !! (blk + SIZE_AND_FLAG) = Some (sz + flag f) -> good l -> sz mod ps = 0 -> mbs <= sz ->
  blk + sz <= last -> 0 <= n -> n + 8 <= sz -> 0 < al < 2 ^ 64 -> 0 <= b -> (b = 0 \/ n <= b) ->
  al mod ps = 0 \/ ps = 8 ->
  Q 0 (St m t) ->
  (forall p, p <> 0 -> fit blk sz p n -> aligned_ok p al -> boundary_ok p n b -> Q p (St m t)) ->
  wp (_Heap_Check_block blk n al b) Q (St m t).
Proof.
  intros blk Hb Hg Hmod Hm Hend Hn Hsz Hal Hb0 Hbn Hps Hnone Hsome.
  pose proof mbs_min. pose proof bounds. pose proof ps_pos. pose proof ps_le_mbs.
  pose proof (good_nonneg l Hg). pose proof (block_page_mod l Hg) as Hpm.
  assert (Hblk : 0 <= blk) by (unfold blk; lia).
  do 2 apply wp_bind, wp_gets. cbv zeta. apply wp_bind.
  eapply block_size_spec; [exact Hb|by apply mult_even|lia|].
  change (page_size (ctl (St m t))) with ps. change (min_block_size (ctl (St m t))) with mbs.
  unfold _Heap_Alloc_area_of_block, HEAP_BLOCK_HEADER_SIZE, HEAP_ALLOC_BONUS.
  change (2 * 8 + 0) with 16. rewrite (u64_small (blk + sz)), (u64_small (blk + 16)) by lia.
  rewrite (u64_small (blk + sz + 8)), (u64_small (blk + sz + 8 - n)),
    (u64_small (blk + sz - mbs)), (u64_small (blk + sz - mbs + 16)),
    (u64_small (blk + sz - mbs + 16 + ps)), (u64_small (blk + sz - mbs + 16 + ps - 1)) by lia.
  set (ceil := blk + sz - mbs + 16 + ps - 1).
  destruct (align_down_spec (blk + sz + 8 - n) al) as (Ha1 & Ha2 & Ha3); [lia..|].
  destruct (align_down_spec ceil al) as (Hc1 & Hc2 & Hc3); [unfold ceil; lia..|].
  set (p0 := if ceil <? _ then _ else _).
  assert (Hp0 : 0 <= p0 <= ceil /\ p0 + n <= blk + sz + 8 /\ p0 mod al = 0)
    by (unfold p0; case_bool; split_and!; try done; lia).
  destruct Hp0 as ([Hp00 Hp01] & Hp02 & Hp03). rewrite (u64_small (p0 + n)) by lia.
  assert (Hfin : forall p, 0 <= p <= p0 -> p mod al = 0 -> boundary_ok p n b ->
    wp (if blk + 16 <=? p then
          if (mbs <=? _Heap_Block_of_alloc_area p ps -! blk) ||
             (_Heap_Block_of_alloc_area p ps -! blk =? 0) then mret p else mret 0
        else mret 0) Q (St m t)).
  { intros p Hp Hpal Hpb. destruct (Z.leb_spec (blk + 16) p) as [Hfl|]; [|by apply wp_ret].
    case_match eqn:Hc; [|by apply wp_ret]. apply wp_ret, Hsome; [lia| | |done].
    2: { unfold aligned_ok. by destruct (Z.eqb_spec al 0); [lia|]. }
    apply fit_test; try done; unfold ceil in *; try lia.
    by apply (page_offset_ok p al); [lia|done|lia|]. }
  apply wp_bind. destruct (Z.eqb_spec b 0) as [->|Hbne]; cbn [negb].
  - apply wp_ret, Hfin; [lia|done|by left].
  - rewrite (u64_small (blk + 16 + n)) by lia.
    apply boundary_loop_spec; [lia|lia|lia|lia|lia|lia|done|by apply wp_ret|exact Hfin].
Qed.
(** ** The search of the free list *)

Lemma free_addr_split bs x a : x ∈ free_addrs a bs ->
  exists l1 sz l2, bs = l1 ++ Blk sz false :: l2 /\ x = a + sizes l1.
Proof.
  revert a. induction bs as [|[sz u] bs IH]; cbn; intros a; [set_solver|].
  intros [Hx|Hx]%elem_of_app.
  - destruct u; [set_solver|]. apply list_elem_of_singleton in Hx as ->.
    exists [], sz, bs. split; [done|cbn; lia].
  - apply IH in Hx as (l1 & sz' & l2 & -> & ->). exists (Blk sz u :: l1), sz', l2.
    split; [done|cbn; lia].
Qed.

Lemma free_addrs_length a bs : good bs ->
  32 * Z.of_nat (length (free_addrs a bs)) <= sizes bs.
Proof.
  intros Hg. pose proof mbs_min. revert a. induction Hg as [|b bs [_ Hb] Hg IH]; intros a; cbn; [lia|].
  specialize (IH (a + bsize b)). rewrite length_app. destruct (bused b); cbn [length]; lia.
Qed.

(** Blocks that start at the same address are the same. *)
Lemma same_block k1 x k2 l1 y l2 : k1 ++ x :: k2 = l1 ++ y :: l2 -> good (k1 ++ x :: k2) ->
  sizes k1 = sizes l1 -> x = y.
Proof.
  pose proof mbs_min. revert l1. induction k1 as [|z k1 IH]; intros [|w l1] E Hg Hs;
    cbn in *; simplify_eq; try done.
  - apply good_cons in Hg as [[_ ?] Hg]. apply good_app in Hg as [Hg _].
    pose proof (good_nonneg l1 Hg). lia.
  - apply good_cons in Hg as [[_ ?] Hg]. apply good_app in Hg as [Hg _].
    pose proof (good_nonneg k1 Hg). lia.
  - apply good_cons in Hg as [_ Hg]. eapply IH; [done|done|lia].
Qed.

(** What the search finds: a free block in which the request fits, or
    nothing; without alignment, nothing only when no free block is large
    enough. *)
Definition found (bs : list block) (b p n al bd : Z) : Prop :=
  exists l1 sz l2, bs = l1 ++ Blk sz false :: l2 /\ b = first + sizes l1 /\
    fit b sz p n /\ aligned_ok p al /\ boundary_ok p n bd.

Lemma search_spec m t bs fl n al bd Q :
  layout m bs fl -> 0 <= n -> n + 8 < 2 ^ 64 -> 0 <= al < 2 ^ 64 -> 0 <= bd ->
  (bd = 0 \/ n <= bd) -> (al = 0 -> bd = 0) -> al mod ps = 0 \/ ps = 8 ->
  (forall b cnt, (al = 0 -> forall x, x ∈ bs -> bused x = false -> bsize x < n + 8) ->
    Q (b, 0, cnt) (St m t)) ->
  (forall b p cnt, p <> 0 -> found bs b p n al bd -> Q (b, p, cnt) (St m t)) ->
  wp (whileM (allocate_search_loop hp n al bd (n + 8)) (dsucc fl hp, 0, 0)) Q (St m t).
Proof.
  intros (Hg & Ht & Hp & Hl & Hm) Hn Hn8 Hal Hbd Hbn Hab Hps Hnone Hsome.
  pose proof mbs_min. pose proof bounds. assert (Hall : first + sizes bs = last) by apply Ht.
  pose proof (free_dsep HP Hg Hall Hp) as Hsep.
  assert (Hlen : Z.of_nat (length fl) < 2 ^ 64)
    by (rewrite Hp; pose proof (free_addrs_length first bs Hg); lia).
  apply (wp_whileM _ (fun k '(b, p, cnt) s' => s' = St m t /\ p = 0 /\
    exists f1 f2, fl = f1 ++ f2 /\ b = dsucc f2 hp /\ k = Z.of_nat (length f2) /\
      (al = 0 -> forall x l1 l2, bs = l1 ++ x :: l2 -> bused x = false ->
        first + sizes l1 ∈ f1 -> bsize x < n + 8))) with (k := Z.of_nat (length fl)).
  3: done.
  2: { split_and!; [done|done|]. exists [], fl. split_and!; try done. set_solver. }
  intros k [[b p] cnt] s' (-> & -> & f1 & f2 & -> & -> & -> & Hsmall).
  unfold allocate_search_loop, _Heap_Free_list_tail. destruct f2 as [|x f2].
  - rewrite dsucc_nil, Z.eqb_refl. apply wp_ret, Hnone. rewrite app_nil_r in *.
    intros Ha x Hx Hux. apply list_elem_of_split in Hx as (l1 & l2 & Hbs).
    apply (Hsmall Ha x l1 l2 Hbs Hux). rewrite Hp, Hbs, free_addrs_app. cbn. rewrite Hux. set_solver.
  - rewrite dsucc_cons. replace (x =? hp) with false
      by (symmetry; apply Z.eqb_neq; intros ->; destruct Hsep as [Hs _];
          apply NoDup_cons in Hs as [Hs _]; set_solver).
    assert (Hx : x ∈ free_addrs first bs) by (rewrite <- Hp; set_solver).
    apply free_addr_split in Hx as (l1 & sz & l2 & Hbs & ->).
    pose proof (layout_free first m l1 sz l2 (f1 ++ (first + sizes l1) :: f2)) as Hfree.
    rewrite <- Hbs in Hfree. destruct Hfree as (_ & _ & Hb & _); [by split_and!|].
    pose proof Hg as Hg'. rewrite Hbs in Hg', Hall. apply good_app in Hg' as [Hg1 Hg2].
    apply good_cons in Hg2 as [[Hmod Hms] Hg2]. cbn [bsize] in Hmod, Hms.
    rewrite sizes_app in Hall. cbn in Hall. pose proof (good_nonneg l2 Hg2).
    pose proof (good_nonneg l1 Hg1).
    pose proof (dlist_split _ _ _ _ _ _ _ _ Hl) as (_ & _ & _ & [Hnx _]).
    match goal with |- wp _ ?Post _ => set (P := Post) end.
    assert (Hnext : forall cnt', (al = 0 -> sz < n + 8) ->
      wp (block ← next (first + sizes l1); mret (inl (block, 0, cnt'))) P (St m t)).
    { intros cnt' Hsz. apply wp_bind. eapply wp_load; [exact Hnx|]. apply wp_ret.
      exists (Z.of_nat (length f2)). cbn [length]. split; [lia|]. split_and!; [done|done|].
      exists (f1 ++ [first + sizes l1]), f2. rewrite <- app_assoc. split_and!; try done.
      intros Ha x k1 k2 Hxb Hux [Hin|Hin%list_elem_of_singleton]%elem_of_app; [by eapply Hsmall|].
      rewrite Hxb in Hbs. eapply same_block in Hbs; [|by rewrite <- Hxb|lia].
      rewrite Hbs. cbn. by apply Hsz. }
    assert (Hcont : forall p, p = 0 /\ (al = 0 -> sz < n + 8) \/
        p <> 0 /\ found bs (first + sizes l1) p n al bd ->
      wp (if negb (p =? 0) then mret (inr (first + sizes l1, p, cnt +. 1))
          else block ← next (first + sizes l1); mret (inl (block, p, cnt +. 1))) P (St m t)).
    { intros p [[-> Hsz]|[Hp0 Hf]]; [by apply Hnext|].
      destruct (Z.eqb_spec p 0); [done|]. apply wp_ret. by apply Hsome. }
    apply wp_bind. eapply wp_load; [exact Hb|]. apply wp_bind. cbn [flag].
    destruct (Z.ltb_spec (n + 8) (sz + 1)) as [Hlt|Hge]; [|apply wp_ret, Hcont; left; split; [done|lia]].
    destruct (Z.eqb_spec al 0) as [->|Ha0].
    + apply wp_ret, Hcont. right. pose proof ps_pos.
      unfold _Heap_Alloc_area_of_block, HEAP_BLOCK_HEADER_SIZE. change (2 * 8 + 0) with 16.
      rewrite u64_small by lia. split; [lia|]. exists l1, sz, l2. split_and!; [done|done| | |left; auto].
      * split_and!; [lia..|left; lia].
      * exact (block_page_mod l1 Hg1).
    + eapply check_block_spec; [exact Hb|done|done|done|lia|lia|lia|lia|done|done|done| |].
      * apply Hcont. left. split; [done|lia].
      * intros p Hp0 Hfit Hal' Hbd'. apply Hcont. right. split; [done|]. by exists l1, sz, l2.
Qed.
(** ** Allocation *)

(** The statistics after a free block was subdivided. *)
Lemma stats_subdivision t' l1 sz l2 blk p n pre x post mf :
  let bs := l1 ++ Blk sz false :: l2 in
  let bs' := l1 ++ (pre ++ Blk x true :: post) ++ l2 in
  subdivision blk sz p n pre x post ->
  (let fs' := sizes_of false bs - sz + sizes_of false (pre ++ post) in
   acct t' fs' (count_of false bs - 1 + count_of false (pre ++ post))
     (count_of true bs - gap_count g + 1) (sizes bs - gap_size g) (Z.min fs' mf)) ->
  stats_inv t' bs'.
Proof.
  intros bs bs' [Hpre Hpost _ Hs _ _ _] Ha. eexists. split.
  - replace (sizes_of false bs') with (sizes_of false bs - sz + sizes_of false (pre ++ post)).
    2: { unfold bs, bs'. rewrite !sizes_of_app, !sizes_of_cons. cbn. lia. }
    replace (count_of false bs') with (count_of false bs - 1 + count_of false (pre ++ post)).
    2: { unfold bs, bs'. rewrite !count_of_app, !count_of_cons. cbn. lia. }
    replace (count_of true bs' - gap_count g) with (count_of true bs - gap_count g + 1).
    2: { unfold bs, bs'. rewrite !count_of_app, !count_of_cons. cbn.
         destruct Hpre as [->|[? ->]], Hpost as [->|[? ->]]; cbn; rewrite ?count_of_cons; cbn;
         unfold count_of; cbn; lia. }
    replace (sizes bs') with (sizes bs); [exact Ha|].
    unfold bs, bs'. rewrite (sizes_app l1), (sizes_app l1), (sizes_app _ l2), Hs. cbn. lia.
  - unfold bs, bs'. rewrite !sizes_of_app, !sizes_of_cons. cbn. lia.
Qed.

(** The blocks [bs'] arise from [bs] by allocating [n] bytes at [p]: a free
    block is replaced by an optional free remainder, a used block whose
    usable area (up to and including the [prev_size] word of its
    successor) contains the bytes, and another optional free remainder. *)
Definition allocated (bs bs' : list block) (p n : Z) : Prop :=
  exists l1 sz l2 pre x post, bs = l1 ++ Blk sz false :: l2 /\
    bs' = l1 ++ (pre ++ Blk x true :: post) ++ l2 /\
    subdivision (first + sizes l1) sz p n pre x post.

Lemma stats_other f t bs : (forall t, free_size (f t) = free_size t /\
    free_blocks (f t) = free_blocks t /\ used_blocks (f t) = used_blocks t /\
    size (f t) = size t /\ min_free_size (f t) = min_free_size t) ->
  stats_inv t bs -> stats_inv (f t) bs.
Proof. intros Hf (mf & Ha & Hm). exists mf. split; [|done]. by apply acct_other. Qed.

Lemma user_word_set_used l1 sz l2 k : user_word first (l1 ++ Blk sz false :: l2) k ->
  forall mid, sizes mid = sz -> user_word first (l1 ++ mid ++ l2) k.
Proof.
  rewrite user_word_app. cbn. intros Hk mid Hmid. rewrite !user_word_app, Hmid.
  destruct Hk as [?|[[? _]|?]]; [by left|done|by right; right].
Qed.

(** The tag of a block in the middle of a layout. *)
Lemma layout_block ring m l1 b l2 fl : ring_layout hp c ring m (l1 ++ b :: l2) fl ->
  m !! (first + sizes l1 + SIZE_AND_FLAG) = Some (bsize b + flag (lastu true l1)) /\
  Z.even (bsize b) = true /\ mbs <= bsize b /\ 0 <= sizes l1 /\ 0 <= sizes l2 /\
  bsize b mod ps = 0 /\ first + sizes l1 + bsize b + sizes l2 = last.
Proof.
  intros (Hg & Ht & _). assert (Hall : first + sizes (l1 ++ b :: l2) = last) by apply Ht.
  apply good_app in Hg as [Hg1 Hg2]. apply good_cons in Hg2 as [[Hmod Hsz] Hg2].
  pose proof (good_nonneg l1 Hg1). pose proof (good_nonneg l2 Hg2).
  apply tail_app in Ht as [_ Ht]. apply tail_cons in Ht as [Hb _].
  rewrite sizes_app in Hall. cbn in Hall. split_and!; try done; [by apply mult_even|lia].
Qed.

(** The result of a successful search. *)
Lemma allocate_found_spec m t bs fl b p n al bd Q :
  layout m bs fl -> stats_inv t bs -> found bs b p n al bd ->
  (forall m' t' bs' fl' b', layout m' bs' fl' -> stats_inv t' bs' -> allocated bs bs' p n ->
    uframe bs m m' ->
    (exists x f, m' !! (b' + SIZE_AND_FLAG) = Some (x + flag f) /\ Z.even x = true /\
       0 <= x < 2 ^ 64) -> Q b' (St m' t')) ->
  wp (_Heap_Block_allocate hp b p n) Q (St m t).
Proof.
  intros Hlay (mf & Ha & Hmf) (l1 & sz & l2 & -> & -> & Hfit & _) HQ.
  pose proof mbs_min. pose proof bounds.
  destruct (layout_block _ _ _ _ _ _ Hlay) as (_ & _ & Hms & H1 & H2 & _ & Hall). cbn [bsize] in *.
  assert (Hsf : sizes_of false (l1 ++ Blk sz false :: l2)
    = sizes_of false l1 + sz + sizes_of false l2)
    by (rewrite sizes_of_app, sizes_of_cons; cbn; lia).
  assert (Hb : forall l, good l -> 0 <= sizes_of false l <= sizes l).
  { clear -H. induction 1 as [|[x u] l [_ Hx] _ IH]; [done|].
    rewrite sizes_of_cons. cbn in *. destruct u; cbn; lia. }
  pose proof (proj1 Hlay) as Hg'.
  apply good_app in Hg' as [Hg1 Hg2]. apply good_cons in Hg2 as [_ Hg2].
  pose proof (Hb l1 Hg1). pose proof (Hb l2 Hg2).
  eapply block_allocate_spec; [exact Hlay|exact Hfit|exact Ha|lia|].
  intros m' t' fl' pre x post Hsd bs' Hlay2 Hfr Hst.
  assert (Hsz : sizes (pre ++ Blk x true :: post) = sz) by apply Hsd.
  assert (Hbk : bs' = (l1 ++ pre) ++ Blk x true :: post ++ l2)
    by (unfold bs'; by rewrite <- !app_assoc).
  apply (HQ m' t' bs' fl'); [done|by eapply stats_subdivision| |..].
  - by exists l1, sz, l2, pre, x, post.
  - intros k Hk. apply Hfr. destruct Hk; [left; by eapply user_word_set_used|by right].
  - pose proof Hlay2 as Hl2. rewrite Hbk in Hl2. apply layout_block in Hl2 as (Hh & He & ? & ? & ? & _ & ?).
    cbn [bsize] in *. exists x, (lastu true (l1 ++ pre)).
    rewrite sizes_app, Z.add_assoc in Hh. split_and!; [done|done|lia|lia].
Qed.

Lemma allocate_spec m t bs fl n al bd Q :
  layout m bs fl -> stats_inv t bs -> 0 <= n < 2 ^ 64 -> 0 <= al < 2 ^ 64 -> 0 <= bd < 2 ^ 64 ->
  al mod ps = 0 \/ ps = 8 ->
  (forall t', stats_inv t' bs ->
    (al = 0 -> bd = 0 -> forall x, x ∈ bs -> bused x = false -> bsize x < n + 8) ->
    Q NULL (St m t')) ->
  (forall p m' t' bs' fl', p <> NULL -> layout m' bs' fl' -> stats_inv t' bs' ->
    allocated bs bs' p n -> aligned_ok p al -> boundary_ok p n bd -> uframe bs m m' ->
    Q p (St m' t')) ->
  wp (_Heap_Allocate_aligned_with_boundary hp n al bd) Q (St m t).
Proof.
  intros Hlay Hst Hn Hal Hbd Hps Hnone Hsome. pose proof ps_pos. pose proof bounds. pose proof mbs_min.
  unfold _Heap_Allocate_aligned_with_boundary, HEAP_BLOCK_HEADER_SIZE, HEAP_ALLOC_BONUS.
  replace (n +! (2 * 8 + 0) -! 8) with (u64 (n + 8))
    by (unfold u64; rewrite Zminus_mod_idemp_l; f_equal; lia).
  cbv zeta. apply wp_bind, wp_gets. change (page_size (ctl (St m t))) with ps.
  destruct (Z.ltb_spec (u64 (n + 8)) n) as [Hov|Hnov].
  { apply wp_ret, Hnone; [done|]. intros _ _ x Hx _.
    destruct (Z.lt_ge_cases (n + 8) (2 ^ 64)); [rewrite u64_small in Hov; lia|].
    apply list_elem_of_split in Hx as (l1 & l2 & ->).
    apply layout_block in Hlay as (_ & _ & ? & ? & ? & _ & ?). lia. }
  assert (Hn8 : n + 8 < 2 ^ 64).
  { destruct (Z.lt_ge_cases (n + 8) (2 ^ 64)); [done|]. exfalso.
    unfold u64 in Hnov. rewrite <- (Z_mod_plus_full _ (-1)) in Hnov.
    rewrite Z.mod_small in Hnov; lia. }
  rewrite (u64_small (n + 8)) by lia.
  destruct (negb (bd =? 0) && (bd <? n)) eqn:Hbig.
  { bool_hyps. apply wp_ret, Hnone; [done|lia]. }
  assert (Hbn : bd = 0 \/ n <= bd)
    by (apply andb_false_iff in Hbig as [?|?]; bool_hyps; [by left|by right]).
  set (al' := if negb (bd =? 0) && (al =? 0) then ps else al).
  assert (Hal' : 0 <= al' < 2 ^ 64 /\ (al' = 0 -> al = 0 /\ bd = 0) /\ (al' mod ps = 0 \/ ps = 8) /\
    (forall p, aligned_ok p al' -> aligned_ok p al)).
  { pose proof ps_le_mbs. unfold al', aligned_ok.
    destruct (Z.eqb_spec bd 0), (Z.eqb_spec al 0) as [->|]; cbn; split_and!; try done; try lia;
      try (left; apply Z.mod_same; lia); auto.
    all: intros p; destruct (Z.eqb_spec ps 0); [lia|]; by repeat case_bool. }
  destruct Hal' as (Ha1 & Ha2 & Ha3 & Ha4).
  pose proof Hlay as (_ & _ & _ & Hl & _). apply wp_bind.
  eapply wp_load; [exact (dlist_first _ _ _ _ _ _ Hl)|]. apply wp_bind.
  eapply search_spec; [exact Hlay|lia|done|done|lia|done|naive_solver|done| |].
  - intros b cnt Hsm. rewrite Z.eqb_refl. cbn [negb].
    apply wp_bind, set_stats_spec, wp_bind, set_stats_spec, wp_ret, Hnone.
    + apply (stats_other (fun t => if max_search t <? cnt then set_max_search cnt t else t)).
      { intros [] ; case_match; done. }
      by apply (stats_other (fun t => set_failed_allocs (failed_allocs t +. 1) t)); [intros []|].
    + intros -> ->. apply Hsm. unfold al'. done.
  - intros b p cnt Hp0 Hf. destruct (Z.eqb_spec p 0); [done|]. cbn [negb].
    pose proof Hf as (? & ? & ? & _ & _ & _ & Hpa & Hpb).
    apply wp_bind, wp_bind. eapply allocate_found_spec; [done|done|exact Hf|].
    intros m' t' bs' fl' b' Hlay' Hst' Hall Hfr (v & f & Hh & He & Hv).
    do 2 apply wp_bind, set_stats_spec. apply wp_bind.
    eapply block_size_spec; [exact Hh|done|done|].
    apply set_stats_spec, wp_bind, set_stats_spec, wp_ret.
    eapply Hsome; [done|exact Hlay'| |exact Hall|by apply Ha4|done|done].
    apply (stats_other (fun t => if max_search t <? cnt then set_max_search cnt t else t)).
    { intros []; case_match; done. }
    apply (stats_other (fun t => set_lifetime_allocated (lifetime_allocated t +! v) t)); [by intros []|].
    apply (stats_other (fun t => set_searches (searches t +. cnt) t)); [by intros []|].
    by apply (stats_other (fun t => set_allocs (allocs t +. 1) t)); [intros []|].
Qed.
End alloc.

End HeapAlloc.
