(* ===== verification/HeapInit.v ===== *)
(** Initialization of a heap establishes the invariant (score/heap.c). *)

From S2P Require Import Prelude DList Heap HeapInv HeapAlloc.
Import Heap HeapInv HeapAlloc.
Open Scope width_scope.

Module HeapInit.

(** The blocks computed for a memory area: page-aligned allocation areas
    inside the area, at least one minimum block apart. *)
Lemma get_first_and_last_block_spec b sz ps mbs : 0 < ps -> 0 <= b -> 0 <= sz < 2 ^ 64 ->
  b + ps + 32 < 2 ^ 64 -> 0 < mbs ->
  match _Heap_Get_first_and_last_block b sz ps mbs with
  | Some (f, l) => b <= f /\ (f + 16) mod ps = 0 /\ f + mbs <= l /\ l + 16 <= b + sz /\
      (l + 16) mod ps = 0 /\ b + sz < 2 ^ 64 /\ b + sz < l + 16 + ps /\
      f = _Heap_Align_up (b +! HEAP_BLOCK_HEADER_SIZE) ps -! HEAP_BLOCK_HEADER_SIZE
  | None => True
  end.
Proof.
  intros Hps Hb Hsz Hbig Hmbs. unfold _Heap_Get_first_and_last_block. unfold HEAP_BLOCK_HEADER_SIZE.
  change (2 * 8 + 0) with 16. rewrite (u64_small (b + 16)) by lia.
  destruct (align_up_spec (b + 16) ps) as [Ha Ham]; [lia..|].
  set (a := _Heap_Align_up (b + 16) ps) in *. rewrite (u64_small (a - 16)) by lia.
  rewrite (u64_small (a - 16 - b)), (u64_small (16 + (a - 16 - b))) by lia.
  match goal with |- context [if ?t then None else _] => destruct t eqn:Hc end; [done|]. bool_hyps.
  assert (Hend : b + sz < 2 ^ 64).
  { destruct (Z.lt_ge_cases (b + sz) (2 ^ 64)); [done|]. exfalso.
    unfold u64 in H. rewrite <- (Z_mod_plus_full _ (-1)) in H. rewrite Z.mod_small in H; lia. }
  rewrite (u64_small (sz - _)) in * by lia.
  destruct (align_down_spec (sz - (16 + (a - 16 - b))) ps) as (Hd1 & Hd2 & Hd3); [lia..|].
  set (d := _Heap_Align_down _ ps) in *. unfold _Heap_Block_at. rewrite (u64_small (a - 16 + d)) by lia.
  split_and!; try lia.
  - by replace (a - 16 + 16) with a by lia.
  - replace (a - 16 + d + 16) with (a + d) by lia. by apply mod_add.
Qed.

(** The page size and minimum block size the heap uses. *)
Lemma page_size_ok page_size ps :
  0 <= page_size -> page_size + 64 < 2 ^ 64 ->
  ps = (if page_size =? 0 then CPU_ALIGNMENT else _Heap_Align_up page_size CPU_ALIGNMENT) ->
  8 <= ps < page_size + 16 /\ ps mod 8 = 0 /\
  let mbs := _Heap_Min_block_size ps in 32 <= mbs < 32 + ps /\ mbs mod ps = 0.
Proof.
  intros H0 Hb ->. unfold CPU_ALIGNMENT, _Heap_Min_block_size, sizeof_Heap_Block.
  assert (Hp : forall ps, 8 <= ps < page_size + 16 -> ps mod 8 = 0 ->
    8 <= ps < page_size + 16 /\ ps mod 8 = 0 /\
    let mbs := _Heap_Align_up 32 ps in 32 <= mbs < 32 + ps /\ mbs mod ps = 0).
  { intros ps Hps Hm. split_and!; try lia; try done; apply align_up_spec; lia. }
  destruct (Z.eqb_spec page_size 0) as [->|Hne]; [by apply Hp|].
  destruct (align_up_spec page_size 8) as [Ha Hm]; [lia..|].
  apply Hp; [|done]. split; [|lia]. apply (mult_le_step 8 _ 8); try done. lia.
Qed.

Section init.
Context (hp : Z) (m : mem) (c0 : Heap_Control) (f l ps mbs : Z).
Context (HP : params hp ps mbs f l).
Context (Hhp : forall k, k ∈ [0; 8; 16; 24] -> is_Some (m !! (hp + k))).
Context (Hm : mapped_area f l m).

(** The memory that the initialization leaves, with any words of no
    interest in between. *)
Lemma init_layout m' v0 v1 v2 :
  m' = <[l + SIZE_AND_FLAG := u64 (f - l)]> (<[l + SIZE_AND_FLAG := 0]>
    (<[l + PREV_SIZE := l - f]> (<[hp + PREV := f]> (<[hp + NEXT := f]>
    (<[f + PREV := hp]> (<[f + NEXT := hp]> (<[f + SIZE_AND_FLAG := l - f + flag true]>
    (<[f + PREV_SIZE := v0]> (<[hp + PREV := v1]> (<[hp + NEXT := v1]>
    (<[hp + SIZE_AND_FLAG := v2]> (<[hp + PREV_SIZE := v2]> m)))))))))))) ->
  layout hp ps mbs f f l m' [Blk (l - f) false] [f].
Proof.
  intros ->. pose proof HP as [[Hps Hps8] [Hmb Hmbm] [Hf Hfm] [Hfl [Hl Hlm]] [Hh Hd]].
  unfold HEAP_BLOCK_HEADER_SIZE, SIZE_AND_FLAG, PREV_SIZE, NEXT, PREV in *. split_and!.
  - apply Forall_cons. split; [|constructor]. split; cbn; [|lia].
    replace (l - f) with (l + (2 * 8 + 0) - (f + (2 * 8 + 0))) by lia. by apply mod_sub.
  - apply tail_cons. cbn. unfold SIZE_AND_FLAG, PREV_SIZE. split_and!.
    + by mem_lookup.
    + intros _. split; [done|]. replace (f + (l - f) + 0) with (l + 0) by lia. by mem_lookup.
    + split_and!; cbn; [done|lia|]. unfold SIZE_AND_FLAG. mem_lookup. by rewrite Z.add_0_r.
  - done.
  - unfold dlist. cbn. unfold linked, NEXT, PREV. split_and!; by mem_lookup.
  - intros k Hk Hr. repeat apply is_Some_insert. by apply Hm.
Qed.
End init.

(** The control block and the words of the memory area are mapped, and the
    control block lies outside the area. *)
Definition area_ok (hp : Z) (m : mem) (b sz : Z) : Prop :=
  (forall k, k ∈ [0; 8; 16; 24] -> is_Some (m !! (hp + k))) /\
  (forall k, k mod 8 = 0 -> b <= k -> k + 8 <= b + sz -> is_Some (m !! k)) /\
  0 <= hp /\ (hp + 32 <= b \/ b + sz <= hp).

(** The state of a heap that was initialized with the area [b, b + sz) and
    has a single free block of [r] bytes. *)
Definition initialized (hp b sz page_size0 r : Z) (s : state) : Prop :=
  let c := ctl s in
  heap_inv hp no_gaps s [Blk r false] [first_block c] /\ 0 < r /\
  b <= first_block c /\ last_block c = first_block c + r /\ last_block c + 16 <= b + sz /\
  page_size c = (if page_size0 =? 0 then CPU_ALIGNMENT
                 else _Heap_Align_up page_size0 CPU_ALIGNMENT) /\
  area_begin c = b /\ area_end c = b + sz /\
  b + sz < last_block c + 16 + page_size c /\ b + sz < 2 ^ 64 /\
  hmem s !! (first_block c + PREV_SIZE) = Some (b + sz).

Lemma one_free_block r : let bs := [Blk r false] in
  sizes_of false bs = r /\ count_of false bs = 1 /\ count_of true bs = 0 /\ sizes bs = r.
Proof. cbv zeta. rewrite sizes_of_cons, !count_of_cons. cbn. split_and!; try done; lia. Qed.

Lemma words4 (m : mem) b : (forall k, k ∈ [0; 8; 16; 24] -> is_Some (m !! (b + k))) ->
  is_Some (m !! (b + PREV_SIZE)) /\ is_Some (m !! (b + SIZE_AND_FLAG)) /\
  is_Some (m !! (b + NEXT)) /\ is_Some (m !! (b + PREV)).
Proof. intros Hk. split_and!; apply Hk; set_solver. Qed.

Lemma set_stats_run f s Q :
  Q tt {| hmem := hmem s; ctl := with_stats (ctl s) (f (stats (ctl s))) |} ->
  wp (set_stats f) Q s.
Proof. done. Qed.

Ltac run_store := apply wp_bind, wp_store;
  [cbn [get_mem set_mem state_HasMem hmem]; repeat apply is_Some_insert; assumption|].

Lemma initialize_spec hp b sz page_size s Q :
  0 <= b -> 0 <= sz < 2 ^ 64 -> 0 <= page_size -> b + page_size + 64 < 2 ^ 64 ->
  area_ok hp (hmem s) b sz ->
  Q 0 s -> (forall r s', initialized hp b sz page_size r s' -> Q r s') ->
  wp (_Heap_Initialize hp b sz page_size) Q s.
Proof.
  intros Hb Hsz Hp0 Hbig (Hhp & Hmap & Hh & Hd) Hnone Hsome. unfold _Heap_Initialize. cbv zeta.
  set (ps := if page_size =? 0 then CPU_ALIGNMENT else _).
  destruct (page_size_ok page_size ps) as (Hps & Hps8 & Hmb & Hmbm); [done|lia|done|].
  set (mbs := _Heap_Min_block_size ps) in *.
  case_match; [by apply wp_ret|].
  pose proof (get_first_and_last_block_spec b sz ps mbs ltac:(lia) Hb Hsz ltac:(lia) ltac:(lia)) as Hfl.
  destruct (_Heap_Get_first_and_last_block b sz ps mbs) as [[f l]|]; [|by apply wp_ret].
  destruct Hfl as (Hf1 & Hf2 & Hf3 & Hf4 & Hf5 & Hf6).
  assert (HP : params hp ps mbs f l).
  { unfold HEAP_BLOCK_HEADER_SIZE. split; unfold HEAP_BLOCK_HEADER_SIZE; split_and!; try done; lia. }
  assert (Hf8 : f mod 8 = 0) by by eapply header_mod8; [exact HP|].
  assert (Hl8 : l mod 8 = 0) by by eapply header_mod8; [exact HP|].
  assert (Hma : mapped_area f l (hmem s)).
  { intros k Hk Hr. unfold SIZE_AND_FLAG in Hr. apply Hmap; [done|lia..]. }
  assert (Hw : forall k, k ∈ [0; 8; 16; 24] -> is_Some (hmem s !! (f + k))).
  { intros k Hk. apply Hma; [apply add_mod8; [done|set_unfold in Hk; naive_solver]|].
    unfold SIZE_AND_FLAG. set_unfold in Hk. lia. }
  assert (Hwl : forall k, k ∈ [0; 8] -> is_Some (hmem s !! (l + k))).
  { intros k Hk. apply Hma; [apply add_mod8; [done|set_unfold in Hk; naive_solver]|].
    unfold SIZE_AND_FLAG. set_unfold in Hk. lia. }
  destruct s as [m c0]. cbn [hmem] in *.
  rewrite (u64_small (l - f)) by lia. rewrite lor_1.
  2: { apply even_mod8. rewrite Zminus_mod, Hl8, Hf8. done. }
  destruct (words4 m hp Hhp) as (? & ? & ? & ?). destruct (words4 m f Hw) as (? & ? & ? & ?).
  assert (is_Some (m !! (l + PREV_SIZE))) by (apply (Hwl 0); set_solver).
  assert (is_Some (m !! (l + SIZE_AND_FLAG))) by (apply (Hwl 8); set_solver).
  do 4 run_store. apply wp_bind, wp_modify. do 4 run_store.
  apply wp_bind, wp_modify. do 4 run_store.
  apply wp_bind, wp_bind, wp_gets, wp_bind, wp_gets. cbn [first_block last_block ctl].
  apply wp_bind. eapply wp_load; [cbn; by rewrite lookup_insert_eq|].
  cbv zeta. change (Z.land 0 HEAP_PREV_BLOCK_USED) with 0. rewrite Z.lor_0_r.
  apply wp_store; [cbn; by rewrite lookup_insert_eq|].
  do 5 (apply wp_bind, set_stats_run; cbn [hmem ctl set_mem state_HasMem]). apply wp_ret, Hsome.
  unfold initialized, heap_inv, ctl_params, ctl_layout.
  cbn [get_mem set_mem state_HasMem ctl hmem first_block last_block Heap.page_size min_block_size
       area_begin area_end with_stats]. rewrite (u64_small (b + sz)) by lia.
  split_and!; try done; try lia.
  - by eapply (init_layout hp m f l ps mbs HP).
  - exists (l - f). destruct (one_free_block (l - f)) as (-> & -> & -> & ->).
    cbn [gap_count gap_size no_gaps]. rewrite !Z.sub_0_r. split; [|lia]. by split.
  - unfold SIZE_AND_FLAG, PREV_SIZE, NEXT, PREV, _Heap_Free_list_head, _Heap_Free_list_tail.
    by mem_lookup.
Qed.

End HeapInit.
