(* ===== verification/HeapFree.v ===== *)
(** Freeing an allocated area: the block is marked free and coalesced with
    its free neighbours, and the invariant is preserved (score/heapfree.c). *)

From S2P Require Import Prelude DList Heap HeapInv HeapAlloc.
Import Heap HeapInv HeapAlloc.
Open Scope width_scope.

Module HeapFree.

(** * The abstract effect *)

(** The blocks in front without a free last one, and its size. *)
Fixpoint merge_left (l : list block) : list block * Z :=
  match l with
  | [] => ([], 0)
  | [b] => if bused b then ([b], 0) else ([], bsize b)
  | b :: l' => let '(pre, a) := merge_left l' in (b :: pre, a)
  end.

Definition merge_right (l : list block) : Z * list block :=
  match l with
  | b :: l' => if bused b then (0, l) else (bsize b, l')
  | [] => (0, [])
  end.

(** The blocks after freeing a block of size [sz] between [l1] and [l2]. *)
Definition freed (l1 : list block) (sz : Z) (l2 : list block) : list block :=
  let '(pre, a) := merge_left l1 in
  let '(b, post) := merge_right l2 in
  pre ++ Blk (a + sz + b) false :: post.

Lemma merge_left_snoc l b : merge_left (l ++ [b]) =
  if bused b then (l ++ [b], 0) else (l, bsize b).
Proof.
  induction l as [|x l IH]; [cbn; by destruct (bused b)|].
  cbn [app merge_left]. destruct (l ++ [b]) as [|y l'] eqn:E; [by destruct l|].
  rewrite IH. by destruct (bused b).
Qed.

Lemma lastu_false_snoc l : lastu true l = false ->
  exists l' a, l = l' ++ [Blk a false].
Proof.
  destruct l as [|[a u] l' _] using rev_ind; [done|]. rewrite lastu_app. cbn. intros ->. eauto.
Qed.

Lemma lastu_true_merge l : lastu true l = true -> merge_left l = (l, 0).
Proof.
  destruct l as [|[a u] l' _] using rev_ind; [done|]. rewrite lastu_app. cbn. intros ->.
  by rewrite merge_left_snoc.
Qed.

(** The whole of [_Heap_Free] works while the last block leads to a block
    [ring] other than the first one, as it does during an extension. *)
Section free.
Context (hp : Z) (c : Heap_Control) (HP : ctl_params hp c) (ring : Z) (Hring : ring mod 8 = 0).
Context (g : gaps).
Abbreviation stats_inv := (stats_inv g).
Abbreviation ps := (page_size c).
Abbreviation mbs := (min_block_size c).
Abbreviation first := (first_block c).
Abbreviation last := (last_block c).
Abbreviation good := (good ps mbs).
Abbreviation tail_seg := (tail_seg ring last).
Abbreviation fdlist := (dlist NEXT PREV).
Abbreviation layout := (ring_layout hp c ring).
Abbreviation uframe := (uframe hp c).
Abbreviation St m t := {| hmem := m; ctl := with_stats c t |}.

Lemma joined_tag_next pre x u post (bs' := pre ++ Blk x u :: post) :
  first + sizes bs' = last -> tag first bs' (first + sizes pre + x + SIZE_AND_FLAG) \/
  first + sizes pre + x + SIZE_AND_FLAG = last + SIZE_AND_FLAG.
Proof.
  intros Hall. pose proof (tag_next c (pre ++ [Blk x u]) post) as T.
  rewrite <- app_assoc in T. specialize (T Hall). rewrite sizes_app in T. cbn in T.
  by replace (first + (sizes pre + (x + 0))) with (first + sizes pre + x) in T by lia.
Qed.

(** The layout in which the area between [pre] and [post] became one free
    block of size [x] that is on the free list. *)
Lemma free_layout m m2 pre x post fx fl' :
  let bs' := pre ++ Blk x false :: post in
  let b := first + sizes pre in
  good bs' -> first + sizes bs' = last -> fl' ≡ₚ free_addrs first bs' ->
  lastu true pre = true -> head_used post -> mapped_area first last m ->
  seg m first true pre -> tail_seg m (b + x) fx post ->
  fdlist m2 hp fl' hp -> changes (link_words (hp :: fl')) m m2 ->
  let m3 := <[b + x + PREV_SIZE := x]>
    (<[b + x + SIZE_AND_FLAG := head_size ring last post + flag false]>
      (<[b + SIZE_AND_FLAG := x + flag true]> m2)) in
  layout m3 bs' fl' /\ uframe bs' m m3.
Proof.
  intros bs' b Hg Hall Hp Hlu Hu Hm Hs Ht Hl Hc m3. pose proof (mbs_min hp c HP).
  pose proof Hg as Hg'. apply good_app in Hg' as [Hg1 Hg2].
  apply good_cons in Hg2 as [[Hmod Hsz] Hg2]. cbn [bsize] in *.
  assert (T1 : tag first bs' (b + SIZE_AND_FLAG)) by apply tag_mid.
  assert (T2 : tag first bs' (b + x + PREV_SIZE)) by by apply (tag_end c pre (Blk x false)).
  assert (T3 : tag first bs' (b + x + SIZE_AND_FLAG) \/ b + x + SIZE_AND_FLAG = last + SIZE_AND_FLAG).
  { by apply joined_tag_next. }
  assert (Hkeep : forall k, tag first bs' k \/ k = last + SIZE_AND_FLAG -> m2 !! k = m !! k)
    by (intros k Hk; by apply (tag_keep HP Hg Hall Hp)).
  assert (Hlk : forall k v m', tag first bs' k \/ k = last + SIZE_AND_FLAG ->
    fdlist m' hp fl' hp -> fdlist (<[k := v]> m') hp fl' hp).
  { intros k v m' Hk. apply fdlist_insert. intros y Hy. by apply (tag_not_links HP Hg Hall Hp). }
  split; [split_and!; [done| |done| |]|].
  - unfold bs'. apply tail_app. fold b. unfold m3, PREV_SIZE, SIZE_AND_FLAG in *. split.
    + do 3 (apply (seg_insert_out ps mbs); [lia|done|unfold b; lia|]).
      eapply seg_ext; [|exact Hs]. intros k Hk. apply Hkeep. left. unfold bs'. rewrite tag_app. by left.
    + apply tail_cons; cbn [bsize bused]. unfold PREV_SIZE, SIZE_AND_FLAG. split_and!.
      * rewrite !lookup_insert_ne by lia. by rewrite lookup_insert_eq, Hlu.
      * intros _. by rewrite lookup_insert_eq.
      * apply (tail_insert_out hp ps mbs ring first last HP); [done|lia|].
        match goal with |- HeapInv.tail_seg _ _ (<[_ := _]> ?M) ?a _ _ =>
          apply (tail_set_flag hp ps mbs ring first last HP M a fx false post); [done|by left|] end.
        apply (tail_insert_out hp ps mbs ring first last HP); [done|lia|].
        eapply tail_ext; [|exact Ht]. intros k [Hk|Hk]; apply Hkeep; [left|by right].
        unfold bs'. rewrite tag_app. cbn. auto.
  - unfold m3. auto 10.
  - unfold m3. do 3 apply mapped_insert. by eapply mapped_changes.
  - unfold m3. do 3 (eapply uframe_insert; [exact HP|done|done|auto|]).
    by eapply uframe_links; [exact HP|done|done|done|exact Hc|].
Qed.
(** The same when the tag behind the area already says so. *)
Lemma free_layout_keep m m2 pre x post fl' :
  let bs' := pre ++ Blk x false :: post in
  let b := first + sizes pre in
  good bs' -> first + sizes bs' = last -> fl' ≡ₚ free_addrs first bs' ->
  lastu true pre = true -> head_used post -> mapped_area first last m ->
  seg m first true pre -> tail_seg m (b + x) false post ->
  fdlist m2 hp fl' hp -> changes (link_words (hp :: fl')) m m2 ->
  let m3 := <[b + x + PREV_SIZE := x]> (<[b + SIZE_AND_FLAG := x + flag true]> m2) in
  layout m3 bs' fl' /\ uframe bs' m m3.
Proof.
  intros bs' b Hg Hall Hp Hlu Hu Hm Hs Ht Hl Hc m3. pose proof (mbs_min hp c HP).
  pose proof (free_layout m m2 pre x post false fl' Hg Hall Hp Hlu Hu Hm Hs Ht Hl Hc) as Hfl.
  fold b in Hfl. cbv zeta in Hfl. rewrite (insert_id _ (b + x + SIZE_AND_FLAG)) in Hfl; [exact Hfl|].
  assert (mbs <= x) by (apply good_app in Hg as [_ Hg]; by apply good_cons in Hg as [[_ ?] _]).
  rewrite lookup_insert_ne by (unfold SIZE_AND_FLAG; lia).
  rewrite (tag_keep HP Hg Hall Hp Hc); [by eapply tail_header|].
  by apply joined_tag_next.
Qed.

(** The statistics of a successful free. *)
Lemma finish_spec m t fs nf nu tot mf sz (Q : bool -> state -> Prop) :
  acct t fs nf nu tot mf -> 0 <= fs + sz < 2 ^ 64 ->
  (forall t', acct t' (fs + sz) nf (nu - 1) tot mf -> Q true (St m t')) ->
  wp (set_stats (fun t => set_used_blocks (used_blocks t -. 1) t);;
      set_stats (fun t => set_frees (frees t +. 1) t);;
      set_stats (fun t => set_free_size (free_size t +! sz) t);;
      set_stats (fun t => set_lifetime_freed (lifetime_freed t +! sz) t);;
      mret true) Q (St m t).
Proof.
  intros Ha Hr HQ. do 4 apply wp_bind, set_stats_spec. apply wp_ret, HQ.
  refine (acct_other _ _ _ _ _ _ _ (fun t => set_lifetime_freed (lifetime_freed t +! sz) t) _);
    [|by intros []].
  apply acct_free_add; [|done].
  refine (acct_other _ _ _ _ _ _ _ (fun t => set_frees (frees t +. 1) t) _); [|by intros []].
  by apply acct_nused_sub.
Qed.

Lemma merge_left_sums l : let '(pre, a) := merge_left l in
  sizes l = sizes pre + a /\ sizes_of false l = sizes_of false pre + a /\
  count_of true l = count_of true pre.
Proof.
  destruct l as [|[a u] l _] using rev_ind; [by split_and!|].
  rewrite merge_left_snoc. destruct u; cbn [bused]; [split_and!; lia|].
  rewrite sizes_app, sizes_of_app, count_of_app, sizes_of_cons, count_of_cons. cbn.
  change (sizes_of false []) with 0. change (count_of true []) with 0. split_and!; lia.
Qed.

Lemma merge_right_sums l : let '(b, post) := merge_right l in
  sizes l = b + sizes post /\ sizes_of false l = b + sizes_of false post /\
  count_of true l = count_of true post.
Proof.
  destruct l as [|[b u] l]; [by split_and!|].
  unfold merge_right. destruct u; cbn [bused]; [split_and!; lia|].
  rewrite sizes_of_cons, count_of_cons. cbn [sizes bsize bused Bool.eqb]. split_and!; lia.
Qed.

Lemma stats_freed t l1 sz l2 mf (bs := l1 ++ Blk sz true :: l2) :
  mf <= sizes_of false bs -> 0 <= sz ->
  acct t (sizes_of false bs + sz) (count_of false (freed l1 sz l2)) (count_of true bs - gap_count g - 1)
    (sizes bs - gap_size g) mf ->
  stats_inv t (freed l1 sz l2).
Proof.
  intros Hmf Hsz Ha. pose proof (merge_left_sums l1) as Hl. pose proof (merge_right_sums l2) as Hr.
  assert (Hs : sizes_of false (freed l1 sz l2) = sizes_of false bs + sz /\
    count_of true (freed l1 sz l2) = count_of true bs - 1 /\ sizes (freed l1 sz l2) = sizes bs).
  { unfold freed, bs. destruct (merge_left l1) as [pre a], (merge_right l2) as [b post].
    rewrite !sizes_of_app, !count_of_app, !sizes_app, !sizes_of_cons, !count_of_cons. cbn.
    split_and!; lia. }
  destruct Hs as (E1 & E2 & E3). exists mf. rewrite E1, E2, E3.
  replace (count_of true bs - 1 - gap_count g) with (count_of true bs - gap_count g - 1) by lia. split; [done|lia].
Qed.
(** Joining the blocks [mid] into one. *)
Lemma join_good pre mid post u : mid <> [] -> good (pre ++ mid ++ post) ->
  first + sizes (pre ++ mid ++ post) = last ->
  good (pre ++ Blk (sizes mid) u :: post) /\ first + sizes (pre ++ Blk (sizes mid) u :: post) = last.
Proof.
  intros Hne Hg Hall. rewrite !sizes_app in Hall. rewrite sizes_app. cbn.
  apply good_app in Hg as [Hg1 Hg2]. apply good_app in Hg2 as [Hgm Hg2].
  split; [|lia]. apply good_app; split; [done|]. apply good_cons; cbn. split; [|done].
  split; [apply (sizes_mod ps mbs); [by eapply ps_pos|done]|].
  destruct mid as [|x mid]; [done|]. apply good_cons in Hgm as [[_ ?] Hgm].
  pose proof (good_nonneg hp c HP mid Hgm). cbn. lia.
Qed.

(** What [_Heap_Free] reads about the neighbours. *)
Lemma next_free_spec m t l2 a Q : tail_seg m a true l2 -> good l2 -> first <= a ->
  Q (match l2 with [] => false | b :: _ => negb (bused b) end) (St m t) ->
  wp (if negb (a =? last) then
        u ← _Heap_Is_prev_used (_Heap_Block_at a (head_size ring last l2)); mret (negb u)
      else mret false) Q (St m t).
Proof.
  intros Ht Hg Ha HQ. pose proof (bounds hp c HP). pose proof (mbs_min hp c HP).
  assert (Hall : a + sizes l2 = last) by apply Ht. destruct l2 as [|b l2].
  - cbn in Hall. rewrite Z.add_0_r in Hall. rewrite Hall, Z.eqb_refl. by apply wp_ret.
  - apply good_cons in Hg as [[_ Hb] Hg]. pose proof (good_nonneg hp c HP l2 Hg). cbn in Hall.
    destruct (Z.eqb_spec a last); [lia|]. cbn [negb head_size]. unfold _Heap_Block_at.
    rewrite u64_small by lia. apply tail_cons in Ht as (_ & _ & Ht). apply wp_bind.
    eapply is_prev_used_spec; [by eapply tail_header|apply (head_size_ok hp ps mbs ring first last HP); [done|done|lia]|].
    by apply wp_ret.
Qed.

(** The stores of the branches, for any code [k] behind them: those that
    clear the flag of the next block and those that find it cleared. *)
Section branches.
Context (m m2 : mem) (t2 : Heap_Statistics) (pre post : list block) (x : Z) (fl' : list Z).
Context (k : M state bool) (Q : bool -> state -> Prop).
Abbreviation bs' := (pre ++ Blk x false :: post).
Abbreviation b := (first + sizes pre).
Context (Hg : good bs') (Hall : first + sizes bs' = last) (Hp : fl' ≡ₚ free_addrs first bs').
Context (Hlu : lastu true pre = true) (Hu : head_used post) (Hm : mapped_area first last m).
Context (Hs : seg m first true pre).
Context (Hl : fdlist m2 hp fl' hp) (Hc : changes (link_words (hp :: fl')) m m2).
Context (HQ : forall m3, layout m3 bs' fl' -> uframe bs' m m3 -> wp k Q (St m3 t2)).

Lemma branch_mapped : is_Some (m2 !! (b + SIZE_AND_FLAG)) /\
  is_Some (m2 !! (b + x + PREV_SIZE)) /\ mbs <= x.
Proof.
  pose proof (mbs_min hp c HP). pose proof Hg as Hg'. apply good_app in Hg' as [Hg1 Hg2].
  apply good_cons in Hg2 as [[Hmod Hsz] Hg2]. cbn [bsize] in *.
  pose proof (good_nonneg hp c HP post Hg2). pose proof Hall as Ha.
  rewrite sizes_app in Ha. cbn in Ha.
  assert (Hm2 : mapped_area first last m2) by by eapply mapped_changes.
  assert (Hx : first + sizes (pre ++ [Blk x false]) = b + x) by (rewrite sizes_app; cbn; lia).
  split_and!; [| |done].
  - apply (mapped_word hp c HP); [done|done|lia|done|unfold SIZE_AND_FLAG; lia..].
  - rewrite <- Hx. apply (mapped_word hp c HP); [done| |lia|done|unfold PREV_SIZE; lia..].
    apply good_app; split; [done|]. apply good_cons; split; [done|constructor].
Qed.

Lemma keep_branch : tail_seg m (b + x) false post ->
  wp (set_size_and_flag b (x + flag true);; set_prev_size (b + x) x;; k) Q (St m2 t2).
Proof.
  intros Ht. destruct branch_mapped as (? & ? & _).
  destruct (free_layout_keep m m2 pre x post fl') as [Hlay Hfr]; [done..|].
  apply wp_bind, wp_store; [done|]. apply wp_bind, wp_store; [by apply is_Some_insert|].
  by apply HQ.
Qed.

Lemma clear_branch fx : tail_seg m (b + x) fx post ->
  wp (set_size_and_flag b (x + flag true);; clear_prev_used (b + x);;
      set_prev_size (b + x) x;; k) Q (St m2 t2).
Proof.
  intros Ht. destruct branch_mapped as (? & ? & ?). pose proof (mbs_min hp c HP).
  destruct (free_layout m m2 pre x post fx fl') as [Hlay Hfr]; [done..|].
  pose proof Hg as Hg'. apply good_app in Hg' as [Hg1 Hg2]. apply good_cons in Hg2 as [_ Hg2].
  pose proof (good_nonneg hp c HP pre Hg1). assert (Hsum : b + x + sizes post = last) by apply Ht.
  destruct (head_size_ok hp ps mbs ring first last HP post Hring Hg2) as [He Hr]; [lia|].
  apply wp_bind, wp_store; [done|]. apply wp_bind.
  apply (clear_prev_used_spec c _ (head_size ring last post) fx); [|done|done|].
  - cbn. rewrite lookup_insert_ne by (unfold SIZE_AND_FLAG; lia).
    rewrite (tag_keep HP Hg Hall Hp Hc); [by eapply tail_header|]. by apply joined_tag_next.
  - apply wp_bind, wp_store; [by do 2 apply is_Some_insert|]. by apply HQ.
Qed.
End branches.
Lemma in_heap_true b m t (Q : bool -> state -> Prop) : first <= b <= last ->
  Q true (St m t) -> wp (_Heap_Is_block_in_heap b) Q (St m t).
Proof.
  intros Hb HQ. apply is_block_in_heap_spec. cbn [ctl first_block last_block with_stats].
  destruct (Z.leb_spec first b), (Z.leb_spec b last); cbn; done || lia.
Qed.

Lemma freed_none l1 sz l2 : lastu true l1 = true -> head_used l2 ->
  freed l1 sz l2 = l1 ++ Blk sz false :: l2.
Proof.
  intros Hlu Hu. unfold freed. rewrite lastu_true_merge by done.
  replace (merge_right l2) with (0, l2) by (destruct l2 as [|b l2]; [done|]; cbn in *; by rewrite Hu).
  do 3 f_equal. lia.
Qed.

Lemma freed_next l1 sz b l2 : lastu true l1 = true ->
  freed l1 sz (Blk b false :: l2) = l1 ++ Blk (sz + b) false :: l2.
Proof.
  intros Hlu. unfold freed. by rewrite lastu_true_merge.
Qed.

Lemma freed_prev l0 a sz l2 : head_used l2 ->
  freed (l0 ++ [Blk a false]) sz l2 = l0 ++ Blk (a + sz) false :: l2.
Proof.
  intros Hu. unfold freed. rewrite merge_left_snoc. cbn [bused bsize].
  replace (merge_right l2) with (0, l2) by (destruct l2 as [|b l2]; [done|]; cbn in *; by rewrite Hu).
  do 3 f_equal. lia.
Qed.

Lemma freed_both l0 a sz b l2 :
  freed (l0 ++ [Blk a false]) sz (Blk b false :: l2) = l0 ++ Blk (a + sz + b) false :: l2.
Proof. unfold freed. by rewrite merge_left_snoc. Qed.

(** The four branches of the code behind its tests. *)
Section cases.
Context (m : mem) (t : Heap_Statistics) (l1 : list block) (sz : Z) (l2 : list block).
Context (fl : list Z) (mf : Z) (Q : bool -> state -> Prop).
Abbreviation blk := (first + sizes l1).
Abbreviation bs := (l1 ++ Blk sz true :: l2).
Context (Hlay : layout m bs fl).
Context (Ha : acct t (sizes_of false bs) (count_of false bs) (count_of true bs - gap_count g) (sizes bs - gap_size g) mf).
Context (Hmf : mf <= sizes_of false bs).
Context (HQ : forall m' t' fl', layout m' (freed l1 sz l2) fl' ->
  stats_inv t' (freed l1 sz l2) -> uframe (freed l1 sz l2) m m' -> Q true (St m' t')).
Abbreviation finish :=
  (set_stats (fun t => set_used_blocks (used_blocks t -. 1) t);;
   set_stats (fun t => set_frees (frees t +. 1) t);;
   set_stats (fun t => set_free_size (free_size t +! sz) t);;
   set_stats (fun t => set_lifetime_freed (lifetime_freed t +! sz) t);;
   mret true).

Lemma free_sizes_bound l : good l -> 0 <= sizes_of false l <= sizes l.
Proof.
  pose proof (mbs_min hp c HP). induction 1 as [|[x u] l [_ Hx] _ IH]; [done|].
  rewrite sizes_of_cons. cbn in *. destruct u; cbn; lia.
Qed.

Lemma case_facts : good bs /\ first + sizes bs = last /\ fl ≡ₚ free_addrs first bs /\
  fdlist m hp fl hp /\ mapped_area first last m /\ seg m first true l1 /\
  tail_seg m (blk + sz) true l2 /\ 0 <= sizes l1 /\ 0 <= sizes l2 /\ mbs <= sz /\
  Z.even sz = true /\ blk + sz + sizes l2 = last /\ 0 <= first /\ last + 16 < 2 ^ 64.
Proof.
  pose proof Hlay as (Hg & Hts & Hp & Hl & Hm). pose proof (bounds hp c HP) as (? & ? & ?).
  pose proof (layout_block hp c HP _ _ _ _ _ _ Hlay) as (_ & ? & ? & ? & ? & _ & ?).
  pose proof Hts as Ht. apply tail_app in Ht as [Hs1 Ht]. apply tail_cons in Ht as (_ & _ & Ht).
  split_and!; try done. apply Hts.
Qed.

Lemma finish_case nf m' t' fl' : layout m' (freed l1 sz l2) fl' ->
  uframe (freed l1 sz l2) m m' -> nf = count_of false (freed l1 sz l2) ->
  acct t' (sizes_of false bs) nf (count_of true bs - gap_count g) (sizes bs - gap_size g) mf ->
  wp finish Q (St m' t').
Proof.
  intros Hlay' Hfr -> Ha'. destruct case_facts as (Hg & Hall & _ & _ & _ & _ & _ & ? & ? & ? & _ & Hsum & ? & ?).
  pose proof (mbs_min hp c HP). apply good_app in Hg as [Hg1 Hg2]. apply good_cons in Hg2 as [_ Hg2].
  pose proof (free_sizes_bound l1 Hg1). pose proof (free_sizes_bound l2 Hg2).
  eapply finish_spec; [exact Ha'| |].
  - rewrite sizes_of_app, sizes_of_cons. cbn [Bool.eqb bused]. lia.
  - intros t3 Ha3. eapply HQ; [exact Hlay'| |exact Hfr]. eapply stats_freed; [exact Hmf|lia|exact Ha3].
Qed.

Lemma case_none : lastu true l1 = true -> head_used l2 ->
  wp (_Heap_Free_list_insert_after (_Heap_Free_list_head hp) blk;;
      set_size_and_flag blk (Z.lor sz HEAP_PREV_BLOCK_USED);;
      clear_prev_used (blk + sz);; set_prev_size (blk + sz) sz;;
      set_stats (fun t => set_free_blocks (free_blocks t +. 1) t);;
      set_stats (fun t => if max_free_blocks t <? free_blocks t
                          then set_max_free_blocks (free_blocks t) t else t);;
      finish) Q (St m t).
Proof.
  intros Hlu Hu. pose proof (freed_none l1 sz l2 Hlu Hu) as Hf.
  destruct case_facts as (Hg & Hall & Hp & Hl & Hm & Hs & Ht & _ & _ & _ & He & _).
  assert (Hg' : good (l1 ++ Blk sz false :: l2)) by by eapply good_set_used.
  assert (Hall' : first + sizes (l1 ++ Blk sz false :: l2) = last)
    by by rewrite (sizes_set_used false true).
  assert (Hp' : [] ++ blk :: fl ≡ₚ free_addrs first (l1 ++ Blk sz false :: l2)).
  { cbn. rewrite Hp, !free_addrs_app. cbn. by rewrite Permutation_middle. }
  apply wp_bind. apply (link_free_spec hp c HP m t l1 sz l2 [] fl); [done..|].
  intros m2 Hl2 Hc. rewrite lor_1 by done.
  apply (clear_branch m m2 t l1 l2 sz ([] ++ blk :: fl)) with (fx := true); [done..| |done].
  intros m3 Hlay3 Hfr3. do 2 apply wp_bind, set_stats_spec.
  eapply finish_case; [by rewrite Hf|by rewrite Hf|reflexivity|].
  refine (acct_other _ _ _ _ _ _ _ (fun t => if max_free_blocks t <? free_blocks t
    then set_max_free_blocks (free_blocks t) t else t) _); [|by intros []; case_match].
  replace (count_of false (freed l1 sz l2)) with (count_of false bs + 1); [by apply acct_nfree_add|].
  rewrite Hf, !count_of_app, !count_of_cons. cbn. lia.
Qed.
(** What is known when the next block is free. *)
Lemma next_facts b l3 : l2 = Blk b false :: l3 ->
  head_used l3 /\ tail_seg m (blk + sz + b) false l3 /\ mbs <= b /\ Z.even b = true /\
  b <= sizes l2 /\ exists fl1 fl2, fl = fl1 ++ (blk + sz) :: fl2 /\
    fl1 ++ fl2 ≡ₚ free_addrs first (l1 ++ Blk sz true :: Blk b true :: l3).
Proof.
  clear Ha Hmf HQ. intros E. pose proof Hlay as Hlay'.
  replace bs with ((l1 ++ [Blk sz true]) ++ Blk b false :: l3) in Hlay'
    by by rewrite <- app_assoc, E.
  pose proof (layout_block hp c HP _ _ _ _ _ _ Hlay') as (_ & ? & ? & _ & ? & _ & _).
  apply (layout_free hp c HP) in Hlay' as (_ & ? & _ & _ & ? & fl1 & fl2 & Hfl & Hp').
  rewrite sizes_app in *. cbn [sizes bsize] in *.
  replace (first + (sizes l1 + (sz + 0))) with (blk + sz) in * by lia.
  rewrite E. cbn [sizes bsize]. split_and!; try done; [lia|]. exists fl1, fl2. split; [done|].
  by rewrite <- app_assoc in Hp'.
Qed.

Lemma case_next b l3 : l2 = Blk b false :: l3 -> lastu true l1 = true ->
  wp (_Heap_Free_list_replace (blk + sz) blk;;
      set_size_and_flag blk (Z.lor (sz + b) HEAP_PREV_BLOCK_USED);;
      set_prev_size (blk + (sz + b)) (sz + b);; finish) Q (St m t).
Proof.
  intros E Hlu. destruct (next_facts b l3 E) as (Hu & Ht3 & Hb & Hbe & Hbs & fl1 & fl2 & Efl & Hp3).
  assert (Hf : freed l1 sz l2 = l1 ++ Blk (sz + b) false :: l3) by (rewrite E; by apply freed_next).
  destruct case_facts as (Hg & Hall & Hp & Hl & Hm & Hs & Ht & ? & ? & ? & He & ? & ? & ?).
  pose proof (mbs_min hp c HP).
  destruct (join_good l1 [Blk sz true; Blk b false] l3 false) as [Hg' Hall'];
    [done|by rewrite E in Hg|by rewrite E in Hall|].
  cbn [sizes bsize] in Hg', Hall'. rewrite Z.add_0_r in Hg', Hall'.
  assert (Hp' : fl1 ++ blk :: fl2 ≡ₚ free_addrs first (l1 ++ Blk (sz + b) false :: l3)).
  { rewrite <- Permutation_middle, Hp3, !free_addrs_app. cbn.
    by rewrite Permutation_middle, Z.add_assoc. }
  apply wp_bind, (free_list_replace_spec hp _ fl1 (blk + sz) blk fl2).
  { by apply (free_dsep HP Hg' Hall'). }
  { cbn. by rewrite <- Efl. }
  { apply (mapped_word hp c HP); [done|by apply good_app in Hg as [? _]|lia|done|unfold NEXT; lia..]. }
  { apply (mapped_word hp c HP); [done|by apply good_app in Hg as [? _]|lia|done|unfold PREV; lia..]. }
  intros m2 Hl2 Hc. rewrite lor_1 by by rewrite Z.even_add, He, Hbe.
  apply (keep_branch m m2 t l1 l3 (sz + b) (fl1 ++ blk :: fl2)); [done..| |by rewrite Z.add_assoc].
  intros m3 Hlay3 Hfr3.
  eapply finish_case; [by rewrite Hf|by rewrite Hf|reflexivity|].
  replace (count_of false (freed l1 sz l2)) with (count_of false bs); [exact Ha|].
  rewrite Hf, E, !count_of_app, !count_of_cons. cbn. lia.
Qed.

(** What is known when the previous block is free. *)
Lemma prev_facts l0 a : l1 = l0 ++ [Blk a false] ->
  lastu true l0 = true /\ m !! (blk + PREV_SIZE) = Some a /\
  m !! (blk - a + SIZE_AND_FLAG) = Some (a + flag true) /\ blk - a = first + sizes l0 /\
  mbs <= a /\ Z.even a = true /\ 0 <= sizes l0 /\ sizes l1 = sizes l0 + a.
Proof.
  clear Ha Hmf HQ. intros E. pose proof Hlay as Hlay'.
  replace bs with (l0 ++ Blk a false :: Blk sz true :: l2) in Hlay' by by rewrite E, <- app_assoc.
  pose proof (layout_block hp c HP _ _ _ _ _ _ Hlay') as (_ & ? & ? & ? & ? & _ & _).
  apply (layout_free hp c HP) in Hlay' as (? & _ & ? & ? & _).
  rewrite E, sizes_app. cbn [sizes bsize] in *.
  replace (first + (sizes l0 + (a + 0))) with (first + sizes l0 + a) by lia.
  replace (first + sizes l0 + a - a) with (first + sizes l0) by lia.
  split_and!; try done; lia.
Qed.

Lemma case_prev l0 a : l1 = l0 ++ [Blk a false] -> head_used l2 ->
  wp (set_size_and_flag (blk - a) (Z.lor (sz + a) HEAP_PREV_BLOCK_USED);;
      clear_prev_used (blk + sz);; set_prev_size (blk + sz) (sz + a);; finish) Q (St m t).
Proof.
  intros E Hu. destruct (prev_facts l0 a E) as (Hlu & _ & _ & Hpb & Hma & Hae & ? & Hsl).
  assert (Hf : freed l1 sz l2 = l0 ++ Blk (sz + a) false :: l2)
    by (rewrite E, (Z.add_comm sz); by apply freed_prev).
  destruct case_facts as (Hg & Hall & Hp & Hl & Hm & Hs & Ht & ? & ? & ? & He & ? & ? & ?).
  destruct (join_good l0 [Blk a false; Blk sz true] l2 false) as [Hg' Hall'];
    [done|by rewrite E, <- app_assoc in Hg|by rewrite E, <- app_assoc in Hall|].
  cbn [sizes bsize] in Hg', Hall'. rewrite Z.add_0_r, (Z.add_comm a) in Hg', Hall'.
  assert (Hp' : fl ≡ₚ free_addrs first (l0 ++ Blk (sz + a) false :: l2)).
  { rewrite Hp, E, <- app_assoc, !free_addrs_app. cbn. rewrite ?Z.add_0_r.
    by replace (first + sizes l0 + a + sz) with (first + sizes l0 + (sz + a)) by lia. }
  rewrite lor_1 by by rewrite Z.even_add, He, Hae.
  assert (Hnx : blk + sz = first + sizes l0 + (sz + a)) by lia. rewrite Hnx, Hpb.
  apply (clear_branch m m t l0 l2 (sz + a) fl) with (fx := true);
    [done..|by rewrite E in Hs; apply seg_app in Hs as [? _]|done|apply changes_refl| |by rewrite <- Hnx].
  intros m3 Hlay3 Hfr3.
  eapply finish_case; [by rewrite Hf|by rewrite Hf|reflexivity|].
  replace (count_of false (freed l1 sz l2)) with (count_of false bs); [exact Ha|].
  rewrite Hf, E, !count_of_app, !count_of_cons. cbn. change (count_of false []) with 0. lia.
Qed.

Lemma case_both l0 a b l3 : l1 = l0 ++ [Blk a false] -> l2 = Blk b false :: l3 ->
  wp (_Heap_Free_list_remove (blk + sz);;
      set_stats (fun t => set_free_blocks (free_blocks t -. 1) t);;
      set_size_and_flag (blk - a) (Z.lor (sz + a + b) HEAP_PREV_BLOCK_USED);;
      set_prev_size (blk - a + (sz + a + b)) (sz + a + b);; finish) Q (St m t).
Proof.
  intros E E2. destruct (prev_facts l0 a E) as (Hlu & _ & _ & Hpb & Hma & Hae & ? & Hsl).
  destruct (next_facts b l3 E2) as (Hu & Ht3 & Hb & Hbe & Hbs & fl1 & fl2 & Efl & Hp3).
  assert (Hf : freed l1 sz l2 = l0 ++ Blk (sz + a + b) false :: l3)
    by (rewrite E, E2, (Z.add_comm sz); by apply freed_both).
  destruct case_facts as (Hg & Hall & Hp & Hl & Hm & Hs & Ht & ? & ? & ? & He & ? & ? & ?).
  destruct (join_good l0 [Blk a false; Blk sz true; Blk b false] l3 false) as [Hg' Hall'];
    [done|by rewrite E, E2, <- app_assoc in Hg|by rewrite E, E2, <- app_assoc in Hall|].
  cbn [sizes bsize] in Hg', Hall'.
  replace (a + (sz + (b + 0))) with (sz + a + b) in Hg', Hall' by lia.
  assert (Hp' : fl1 ++ fl2 ≡ₚ free_addrs first (l0 ++ Blk (sz + a + b) false :: l3)).
  { rewrite Hp3, E, <- app_assoc, !free_addrs_app. cbn. rewrite ?Z.add_0_r.
    by replace (first + sizes l0 + a + sz + b) with (first + sizes l0 + (sz + a + b)) by lia. }
  apply wp_bind, (free_list_remove_spec hp _ fl1 (blk + sz) fl2).
  { rewrite <- Efl. by apply (free_dsep HP Hg Hall). }
  { cbn. by rewrite <- Efl. }
  intros m2 Hl2 Hc. apply wp_bind, set_stats_spec.
  rewrite lor_1 by by rewrite !Z.even_add, He, Hae, Hbe. rewrite Hpb.
  apply (keep_branch m m2 _ l0 l3 (sz + a + b) (fl1 ++ fl2));
    [done..|by rewrite E in Hs; apply seg_app in Hs as [? _]|done|done| |].
  2: { by replace (first + sizes l0 + (sz + a + b)) with (blk + sz + b) by lia. }
  intros m3 Hlay3 Hfr3.
  eapply finish_case; [by rewrite Hf|by rewrite Hf|reflexivity|].
  replace (count_of false (freed l1 sz l2)) with (count_of false bs - 1); [by apply acct_nfree_sub|].
  rewrite Hf, E, E2, !count_of_app, !count_of_cons. cbn. change (count_of false []) with 0. lia.
Qed.
End cases.
Lemma free_spec m t l1 sz l2 fl p Q :
  let blk := first + sizes l1 in let bs := l1 ++ Blk sz true :: l2 in
  layout m bs fl -> stats_inv t bs -> blk + 16 <= p < blk + 16 + ps ->
  (forall m' t' fl', let bs' := freed l1 sz l2 in
    layout m' bs' fl' -> stats_inv t' bs' -> uframe bs' m m' -> Q true (St m' t')) ->
  wp (_Heap_Free hp p) Q (St m t).
Proof.
  intros blk bs Hlay (mf & Ha & Hmf) Hpp HQ.
  pose proof (mbs_min hp c HP). pose proof (ps_le_mbs hp c HP).
  destruct (case_facts m l1 sz l2 fl Hlay)
    as (Hg & Hall & Hp & Hl & Hm & Hs & Ht & ? & ? & ? & He & Hsum & ? & ?). fold blk in Ht, Hsum.
  pose proof (layout_block hp c HP _ _ _ _ _ _ Hlay) as (Hb & _). cbn [bsize] in Hb. fold blk in Hb.
  assert (Hblk : first <= blk) by (unfold blk; lia).
  apply good_app in Hg as [Hg1 Hg2]. apply good_cons in Hg2 as [_ Hg2].
  destruct (head_size_ok hp ps mbs ring first last HP l2 Hring Hg2) as [Hhe Hhr]; [lia|].
  unfold _Heap_Free. destruct (Z.eqb_spec p NULL) as [->|_]; [unfold NULL in *; lia|].
  apply wp_bind, wp_gets. cbv zeta. change (page_size (ctl (St m t))) with ps.
  rewrite (block_of_alloc_area_spec c blk p) by (lia || by apply (block_page_mod hp c HP)).
  apply wp_bind, in_heap_true; [lia|]. cbn [negb]. apply wp_bind.
  eapply block_size_spec; [exact Hb|done|lia|]. unfold _Heap_Block_at.
  rewrite (u64_small (blk + sz)) by lia. apply wp_bind, in_heap_true; [lia|]. cbn [negb].
  apply wp_bind. eapply is_prev_used_spec; [by eapply tail_header|done|]. cbn [negb].
  apply wp_bind. eapply block_size_spec; [by eapply tail_header|done|done|].
  apply wp_bind, wp_gets. change (last_block (ctl (St m t))) with last.
  apply wp_bind. apply next_free_spec; [done|done|lia|].
  apply wp_bind. eapply is_prev_used_spec; [exact Hb|done|].
  destruct (lastu true l1) eqn:Hlu; cbn [negb].
  - destruct l2 as [|[b [|]] l3]; cbn [bused negb].
    + by apply (case_none m t l1 sz [] fl mf Q).
    + by apply (case_none m t l1 sz (Blk b true :: l3) fl mf Q).
    + cbn [head_size bsize]. destruct (next_facts m l1 sz _ fl Hlay b l3 eq_refl) as (_ & Ht3 & ? & _ & ? & _).
      rewrite (u64_small (sz + b)), (u64_small (blk + (sz + b))) by lia.
      by apply (case_next m t l1 sz (Blk b false :: l3) fl mf Q Hlay Ha Hmf HQ b l3).
  - apply lastu_false_snoc in Hlu as (l0 & a & El).
    destruct (prev_facts m l1 sz l2 fl Hlay l0 a El) as (_ & Hpv & Hph & Hpb & ? & Hae & ? & Hsl).
    apply wp_bind. eapply wp_load; [exact Hpv|]. fold blk in Hpb.
    replace (u64 (blk + u64 (- a))) with (blk - a).
    2: { unfold u64. rewrite Zplus_mod_idemp_r. rewrite Z.mod_small; lia. }
    apply wp_bind, in_heap_true; [lia|]. cbn [negb]. apply wp_bind.
    eapply is_prev_used_spec; [exact Hph|done|]. cbn [negb].
    destruct l2 as [|[b [|]] l3]; cbn [bused negb].
    + rewrite (u64_small (sz + a)) by lia. by apply (case_prev m t l1 sz [] fl mf Q Hlay Ha Hmf HQ l0 a).
    + rewrite (u64_small (sz + a)) by lia.
      by apply (case_prev m t l1 sz (Blk b true :: l3) fl mf Q Hlay Ha Hmf HQ l0 a).
    + cbn [head_size bsize]. destruct (next_facts m l1 sz _ fl Hlay b l3 eq_refl) as (_ & _ & ? & _ & ? & _).
      rewrite (u64_small (sz + a)), (u64_small (sz + a + b)),
        (u64_small (blk - a + (sz + a + b))) by lia.
      by apply (case_both m t l1 sz (Blk b false :: l3) fl mf Q Hlay Ha Hmf HQ l0 a b l3).
Qed.

(** [NULL] is ignored and an address whose block lies outside the heap is
    refused, without touching the heap. *)
Lemma free_null_spec s Q : Q true s -> wp (_Heap_Free hp NULL) Q s.
Proof. done. Qed.

Lemma free_outside_spec m t p Q : p <> NULL ->
  ~ (first <= _Heap_Block_of_alloc_area p ps <= last) ->
  Q false (St m t) -> wp (_Heap_Free hp p) Q (St m t).
Proof.
  intros Hp Hout HQ. unfold _Heap_Free. destruct (Z.eqb_spec p NULL); [done|].
  apply wp_bind, wp_gets, wp_bind. cbv zeta. apply is_block_in_heap_spec.
  change (ctl (St m t)) with (with_stats c t). cbn [first_block last_block page_size with_stats].
  destruct (Z.leb_spec first (_Heap_Block_of_alloc_area p ps)),
    (Z.leb_spec (_Heap_Block_of_alloc_area p ps) last); cbn; try (by apply wp_ret). lia.
Qed.

(** Freeing a block that is not used is refused as well. *)
Lemma free_unused_spec m t l1 sz l2 fl p Q :
  let blk := first + sizes l1 in
  layout m (l1 ++ Blk sz false :: l2) fl -> blk + 16 <= p < blk + 16 + ps ->
  Q false (St m t) -> wp (_Heap_Free hp p) Q (St m t).
Proof.
  intros blk Hlay Hpp HQ. pose proof (mbs_min hp c HP). pose proof (ps_le_mbs hp c HP).
  pose proof (bounds hp c HP).
  pose proof (layout_block hp c HP _ _ _ _ _ _ Hlay) as (Hb & He & ? & ? & ? & _ & Hsum).
  pose proof (layout_free hp c HP _ _ _ _ _ _ Hlay) as (_ & _ & _ & _ & Ht & _).
  cbn [bsize] in *. fold blk in Hb, Hsum, Ht. pose proof (proj1 Hlay) as Hg.
  apply good_app in Hg as [Hg1 Hg2]. apply good_cons in Hg2 as [_ Hg2].
  assert (Hblk : first <= blk) by (unfold blk; lia).
  destruct (head_size_ok hp ps mbs ring first last HP l2 Hring Hg2) as [Hhe Hhr]; [lia|].
  unfold _Heap_Free. destruct (Z.eqb_spec p NULL) as [->|_]; [unfold NULL in *; lia|].
  apply wp_bind, wp_gets. cbv zeta. change (page_size (ctl (St m t))) with ps.
  rewrite (block_of_alloc_area_spec c blk p) by (lia || by apply (block_page_mod hp c HP)).
  apply wp_bind, in_heap_true; [lia|]. cbn [negb]. apply wp_bind.
  eapply block_size_spec; [exact Hb|done|lia|]. unfold _Heap_Block_at.
  rewrite (u64_small (blk + sz)) by lia. apply wp_bind, in_heap_true; [lia|]. cbn [negb].
  apply wp_bind. eapply is_prev_used_spec; [by eapply tail_header|done|]. by apply wp_ret.
Qed.
End free.

End HeapFree.
