(* ===== verification/HeapCorrect.v ===== *)
(** What the heap promises its clients: allocation and free are safe and
    preserve the invariant, first-fit allocation is complete, freeing undoes
    an allocation, and any sequence of both keeps the live areas disjoint. *)

From S2P Require Import Prelude DList Heap HeapInv HeapAlloc HeapInit HeapFree.
Import Heap HeapInv HeapAlloc HeapInit HeapFree.
Open Scope width_scope.

Module HeapCorrect.

(** * Used blocks *)

(** A used block of size [x] starts at [b]. *)
Fixpoint used_at (a : Z) (bs : list block) (b x : Z) : Prop :=
  match bs with
  | [] => False
  | blk :: bs' => (bused blk = true /\ b = a /\ x = bsize blk) \/ used_at (a + bsize blk) bs' b x
  end.

Lemma used_at_app a l1 l2 b x :
  used_at a (l1 ++ l2) b x <-> used_at a l1 b x \/ used_at (a + sizes l1) l2 b x.
Proof.
  revert a. induction l1 as [|y l1 IH]; intros a; cbn.
  - rewrite Z.add_0_r. tauto.
  - rewrite IH, Z.add_assoc. tauto.
Qed.

Lemma used_at_split a bs b x : used_at a bs b x ->
  exists l1 l2, bs = l1 ++ Blk x true :: l2 /\ b = a + sizes l1.
Proof.
  revert a. induction bs as [|[y u] bs IH]; intros a; cbn; [done|].
  intros [(-> & -> & ->)|Hu].
  - exists [], bs. split; [done|cbn; lia].
  - apply IH in Hu as (l1 & l2 & -> & ->). exists (Blk y u :: l1), l2. split; [done|cbn; lia].
Qed.

Lemma used_at_range ps mbs a bs b x : 32 <= mbs -> good ps mbs bs -> used_at a bs b x ->
  a <= b /\ b + x <= a + sizes bs /\ mbs <= x.
Proof.
  intros Hm Hg. revert a. induction Hg as [|y bs [_ Hy] Hg IH]; intros a; cbn; [done|].
  pose proof (sizes_nonneg ps mbs Hm bs Hg). intros [(_ & -> & ->)|Hu]; [lia|].
  apply IH in Hu. lia.
Qed.

(** Different used blocks do not overlap. *)
Lemma used_at_disjoint ps mbs a bs b x b' x' : 32 <= mbs -> good ps mbs bs ->
  used_at a bs b x -> used_at a bs b' x' -> b = b' /\ x = x' \/ b + x <= b' \/ b' + x' <= b.
Proof.
  intros Hm Hg. revert a. induction Hg as [|y bs [_ Hy] Hg IH]; intros a; cbn; [done|].
  intros [(_ & -> & ->)|Hu] [(_ & -> & ->)|Hu'].
  - by left.
  - apply (used_at_range ps mbs) in Hu'; [lia|done|done].
  - apply (used_at_range ps mbs) in Hu; [lia|done|done].
  - by eapply IH.
Qed.

(** The words of used blocks. *)
Lemma used_at_user a bs b x k : used_at a bs b x -> b + 16 <= k <= b + x -> user_word a bs k.
Proof.
  intros (l1 & l2 & -> & ->)%used_at_split Hk. rewrite user_word_app. cbn.
  right; left. by split.
Qed.

Lemma user_word_used a bs k : user_word a bs k -> exists b x, used_at a bs b x /\ b + 16 <= k <= b + x.
Proof.
  revert a. induction bs as [|y bs IH]; intros a; cbn; [done|]. intros [[Hu Hk]|Hk].
  - exists a, (bsize y). split; [by left|done].
  - apply IH in Hk as (b & x & Hu & Hk). exists b, x. split; [by right|done].
Qed.

Section blocks.
Context (c : Heap_Control) (Hm : 32 <= min_block_size c).
Abbreviation first := (first_block c).
Abbreviation good := (good (page_size c) (min_block_size c)).

Lemma allocated_used bs bs' p n : good bs -> allocated c bs bs' p n ->
  exists b x, used_at first bs' b x /\ b + 16 <= p < b + 16 + page_size c /\ p + n <= b + x + 8 /\
    (forall b' x', used_at first bs b' x' -> used_at first bs' b' x' /\ b' <> b).
Proof.
  intros Hg (l1 & sz & l2 & pre & x & post & -> & -> & [Hpre Hpost Hgd Hs H1 H2 H3]).
  exists (first + sizes l1 + sizes pre), x. split_and!; [| |done|done|].
  - rewrite !used_at_app. right; left; right. cbn. by left.
  - done.
  - intros b' x' Hu. rewrite !used_at_app in *. rewrite Hs. cbn in Hu.
    apply good_app in Hg as [Hg1 Hg2]. apply good_cons in Hg2 as [[_ ?] Hg2]. cbn [bsize] in *.
    pose proof (sizes_nonneg _ _ Hm l1 Hg1). apply good_app in Hgd as [Hgp Hgd].
    pose proof (sizes_nonneg _ _ Hm pre Hgp). apply good_cons in Hgd as [[_ ?] Hgd].
    pose proof (sizes_nonneg _ _ Hm post Hgd). rewrite sizes_app in Hs. cbn [sizes bsize] in *.
    destruct Hu as [Hu|[[? _]|Hu]]; [|done|].
    + split; [by left|]. apply (used_at_range _ _ _ _ _ _ Hm Hg1) in Hu. lia.
    + split; [by right; right|]. apply (used_at_range _ _ _ _ _ _ Hm Hg2) in Hu. lia.
Qed.

Lemma freed_used l1 sz l2 b x : used_at first (l1 ++ Blk sz true :: l2) b x ->
  b <> first + sizes l1 -> used_at first (freed l1 sz l2) b x.
Proof.
  intros Hu Hne. pose proof (merge_left_sums l1) as Hl. pose proof (merge_right_sums l2) as Hr.
  assert (HL : used_at first l1 b x -> used_at first (merge_left l1).1 b x).
  { destruct l1 as [|[a u] l1' _] using rev_ind; [done|]. rewrite merge_left_snoc.
    destruct u; cbn [bused]; [done|]. rewrite used_at_app. cbn. naive_solver. }
  assert (HR : forall a, used_at a l2 b x -> used_at (a + (merge_right l2).1) (merge_right l2).2 b x).
  { intros a. destruct l2 as [|[b' u] l2']; [done|]. cbn. destruct u; cbn.
    - by rewrite Z.add_0_r.
    - intros [[? _]|?]; done. }
  unfold freed. destruct (merge_left l1) as [pre a], (merge_right l2) as [b' post].
  cbn [fst snd] in *. rewrite used_at_app in *. cbn in Hu |- *.
  destruct Hu as [Hu|[(_ & -> & _)|Hu]]; [by left; apply HL|done|].
  right; right. apply HR in Hu. by replace (first + sizes pre + (a + sz + b'))
    with (first + sizes l1 + sz + b') by lia.
Qed.

(** Freeing an allocated block restores the blocks. *)
Lemma freed_allocated l1 sz l2 blk p n pre x post : lastu true l1 = true -> head_used l2 ->
  subdivision c blk sz p n pre x post ->
  freed (l1 ++ pre) x (post ++ l2) = l1 ++ Blk sz false :: l2.
Proof.
  intros Hlu Hu [Hpre Hpost _ Hs _ _ _]. unfold freed.
  assert (Hr : merge_right (post ++ l2) = (sizes post, l2)).
  { destruct Hpost as [->|[y ->]]; cbn; [|by rewrite Z.add_0_r].
    destruct l2 as [|b l2]; [done|]. cbn in *. by rewrite Hu. }
  assert (Hl : merge_left (l1 ++ pre) = (l1, sizes pre)).
  { destruct Hpre as [->|[y ->]].
    - rewrite app_nil_r. by apply lastu_true_merge.
    - rewrite merge_left_snoc. cbn. by rewrite Z.add_0_r. }
  rewrite Hl, Hr. rewrite sizes_app in Hs. cbn in Hs. do 3 f_equal. lia.
Qed.
End blocks.

(** * A concrete heap *)

Definition words (a n : Z) : list Z := (fun i => a + 8 * Z.of_nat i) <$> seq 0 (Z.to_nat n).

(** A control block at 512 and an area of 2048 bytes at 1024. *)
Definition sample_mem : mem :=
  list_to_map ((fun k => (k, 0)) <$> (words 512 4 ++ words 1024 256)).

Definition sample_start : state :=
  {| hmem := sample_mem; ctl := Build_Heap_Control 0 0 0 0 0 0 zero_statistics |}.

Lemma elem_of_words a n k : 0 <= n -> k ∈ words a n <-> (k - a) mod 8 = 0 /\ a <= k < a + 8 * n.
Proof.
  intros Hn. unfold words. rewrite list_elem_of_fmap. split.
  - intros (i & -> & Hi). apply elem_of_seq in Hi. split; [|lia].
    replace (a + 8 * Z.of_nat i - a) with (Z.of_nat i * 8) by lia. by apply Z.mod_mul.
  - intros [Hm Hr]. exists (Z.to_nat ((k - a) / 8)). apply Z.mod_divide in Hm as [q Hq]; [|lia].
    rewrite Hq, Z.div_mul by lia. split; [|apply elem_of_seq]; lia.
Qed.

Lemma zero_mem_lookup (l : list Z) k : k ∈ l ->
  (list_to_map ((fun k => (k, 0)) <$> l) : mem) !! k = Some 0.
Proof.
  intros Hk. apply elem_of_list_to_map_1'; [|apply list_elem_of_fmap; eauto].
  intros y (j & E & _)%list_elem_of_fmap. congruence.
Qed.

Lemma zero_area_ok hp b n : 0 <= hp -> 0 <= n -> b mod 8 = 0 -> hp + 32 <= b ->
  area_ok hp (list_to_map ((fun k => (k, 0)) <$> (words hp 4 ++ words b n))) b (8 * n).
Proof.
  intros ? ? Hb ?. split_and!; [| |lia|lia].
  - intros k Hk. exists 0. apply zero_mem_lookup, elem_of_app. left.
    apply elem_of_words; [lia|]. set_unfold in Hk. replace (hp + k - hp) with k by lia.
    split; [naive_solver|lia].
  - intros k Hk ? ?. exists 0. apply zero_mem_lookup, elem_of_app. right.
    apply elem_of_words; [lia|]. split; [|lia]. rewrite Zminus_mod, Hk, Hb. done.
Qed.

Lemma sample_area_ok : area_ok 512 sample_mem 1024 2048.
Proof. by apply (zero_area_ok 512 1024 256). Qed.

(** The heap after its initialization with the default page size. *)
Definition sample_state : state :=
  match _Heap_Initialize 512 1024 2048 0 sample_start with
  | Some (_, s) => s
  | None => sample_start
  end.

Lemma sample_run : exists s, _Heap_Initialize 512 1024 2048 0 sample_start = Some (2032, s).
Proof. eexists. vm_compute. reflexivity. Qed.

Lemma sample_initialized : initialized 512 1024 2048 0 2032 sample_state.
Proof.
  assert (Hw : wp (_Heap_Initialize 512 1024 2048 0)
    (fun r s => r = 0 \/ initialized 512 1024 2048 0 r s) sample_start).
  { apply initialize_spec; try lia; [exact sample_area_ok|auto]. }
  unfold wp in Hw. unfold sample_state. destruct sample_run as [s E]. rewrite E in *.
  destruct Hw as [Hw|Hw]; [discriminate Hw|exact Hw].
Qed.

(** * Initialization *)

(** Initializing a heap on a mapped memory area either fails with 0 and
    leaves the state alone, or yields a heap in a consistent state that
    consists of one free block of the returned size, with page-aligned
    allocation areas inside the given area. *)
Theorem heap_initialize_correct hp b sz page_size s :
  0 <= b -> 0 <= sz < 2 ^ 64 -> 0 <= page_size -> b + page_size + 64 < 2 ^ 64 ->
  area_ok hp (hmem s) b sz ->
  wp (_Heap_Initialize hp b sz page_size)
     (fun r s' => r = 0 /\ s' = s \/ initialized hp b sz page_size r s') s.
Proof. intros. apply initialize_spec; auto. Qed.

Lemma heap_initialize_correct_witness :
  wp (_Heap_Initialize 512 1024 2048 0)
     (fun r s' => r = 0 /\ s' = sample_start \/ initialized 512 1024 2048 0 r s') sample_start.
Proof.
  apply (heap_initialize_correct 512 1024 2048 0 sample_start); [lia|lia|lia|lia|].
  exact sample_area_ok.
Defined.

(** * Allocation *)

Lemma state_eta s : s = {| hmem := hmem s; ctl := with_stats (ctl s) (stats (ctl s)) |}.
Proof. destruct s. cbn. by rewrite with_stats_id. Qed.

Lemma wp_eta {A} (x : M state A) Q s :
  wp x Q {| hmem := hmem s; ctl := with_stats (ctl s) (stats (ctl s)) |} -> wp x Q s.
Proof. by rewrite <- state_eta. Qed.

(** C10. In a consistent heap, allocation with any alignment and boundary
    does not fault and its search loops terminate.  It either returns [NULL]
    and changes nothing but statistics, or returns an address with the
    requested alignment (the page size where none is requested) whose [n] bytes do not cross the boundary and lie in
    a used block carved out of a formerly free one; the heap is consistent
    again and no word of any other allocated area or outside of the heap changed.  The alignment
    must be a multiple of the page size, unless the page size is 8. *)
Theorem heap_allocate_correct hp g s bs fl n al bd :
  heap_inv hp g s bs fl -> 0 <= n < 2 ^ 64 -> 0 <= al < 2 ^ 64 -> 0 <= bd < 2 ^ 64 ->
  al mod page_size (ctl s) = 0 \/ page_size (ctl s) = 8 ->
  wp (_Heap_Allocate_aligned_with_boundary hp n al bd)
     (fun p s' =>
        p = NULL /\ hmem s' = hmem s /\ heap_inv hp g s' bs fl \/
        p <> NULL /\ aligned_ok (ctl s) p al /\ boundary_ok p n bd /\
        exists bs' fl', heap_inv hp g s' bs' fl' /\ allocated (ctl s) bs bs' p n /\
          forall k, kept hp (first_block (ctl s)) (last_block (ctl s)) bs k -> hmem s' !! k = hmem s !! k) s.
Proof.
  intros (HP & Hlay & Hst) Hn Hal Hbd Hps. apply wp_eta.
  apply (allocate_spec hp (ctl s) HP g (hmem s) (stats (ctl s)) bs fl); try done.
  - intros t' Hst' _. left. done.
  - intros p m' t' bs' fl' Hp Hlay' Hst' Hall Hpa Hpb Hfr. right.
    split_and!; try done. by exists bs', fl'.
Qed.

Lemma sample_inv : heap_inv 512 no_gaps sample_state [Blk 2032 false] [first_block (ctl sample_state)].
Proof. apply sample_initialized. Qed.

Lemma sample_page_size : page_size (ctl sample_state) = 8.
Proof. apply sample_initialized. Qed.

Lemma heap_allocate_correct_witness :
  wp (_Heap_Allocate_aligned_with_boundary 512 100 64 256)
     (fun p s' =>
        p = NULL /\ hmem s' = hmem sample_state /\
          heap_inv 512 no_gaps s' [Blk 2032 false] [first_block (ctl sample_state)] \/
        p <> NULL /\ aligned_ok (ctl sample_state) p 64 /\ boundary_ok p 100 256 /\
        exists bs' fl', heap_inv 512 no_gaps s' bs' fl' /\
          allocated (ctl sample_state) [Blk 2032 false] bs' p 100 /\
          forall k, kept 512 (first_block (ctl sample_state)) (last_block (ctl sample_state)) [Blk 2032 false] k ->
            hmem s' !! k = hmem sample_state !! k) sample_state.
Proof.
  apply (heap_allocate_correct 512 no_gaps sample_state [Blk 2032 false]
    [first_block (ctl sample_state)] 100 64 256); [exact sample_inv|lia|lia|lia|].
  right. exact sample_page_size.
Defined.

(** C20. First-fit allocation is complete: [_Heap_Allocate] returns [NULL]
    exactly when every free block is too small, that is smaller than the
    request plus the header less the bonus. *)
Theorem heap_allocate_complete hp g s bs fl n :
  heap_inv hp g s bs fl -> 0 <= n < 2 ^ 64 ->
  wp (_Heap_Allocate hp n)
     (fun p _ => p = NULL <-> forall x, x ∈ bs -> bused x = false ->
        bsize x < n + HEAP_BLOCK_HEADER_SIZE - HEAP_ALLOC_BONUS) s.
Proof.
  intros (HP & Hlay & Hst) Hn. unfold _Heap_Allocate. apply wp_eta.
  change (n + HEAP_BLOCK_HEADER_SIZE - HEAP_ALLOC_BONUS) with (n + 16 - 8).
  apply (allocate_spec hp (ctl s) HP g (hmem s) (stats (ctl s)) bs fl); try done.
  - left. by apply Z.mod_0_l, Z.neq_sym, Z.lt_neq, (ps_pos hp).
  - intros t' _ Hsm. split; [|done]. intros _ x Hx Hu. specialize (Hsm eq_refl eq_refl x Hx Hu). lia.
  - intros p m' t' bs' fl' Hp _ _ (l1 & sz & l2 & pre & x & post & -> & _ & Hsd) _ _ _.
    split; [done|]. intros Hsm. specialize (Hsm (Blk sz false) ltac:(set_solver) eq_refl).
    destruct Hsd as [_ _ Hgd Hs H1 _ H3]. cbn [bsize] in Hsm. rewrite sizes_app in Hs. cbn in Hs.
    pose proof (mbs_min hp _ HP) as Hm. apply good_app in Hgd as [Hg1 Hgd].
    apply good_cons in Hgd as [_ Hgd]. pose proof (sizes_nonneg _ _ Hm _ Hgd).
    pose proof (sizes_nonneg _ _ Hm _ Hg1). lia.
Qed.

Lemma heap_allocate_complete_witness :
  wp (_Heap_Allocate 512 5000) (fun p _ => p = NULL) sample_state.
Proof.
  eapply wp_mono; [apply (heap_allocate_complete 512 no_gaps sample_state [Blk 2032 false]
    [first_block (ctl sample_state)] 5000); [exact sample_inv|lia]|].
  intros p s' [_ H]. apply H. intros x Hx _. apply list_elem_of_singleton in Hx as ->.
  vm_compute. reflexivity.
Defined.

(** * Free *)

(** C11. Freeing an address in the first page of a used block's allocation
    area returns true, without fault, and leaves a consistent heap in which
    the block is merged with its free neighbours and no word of any other
    allocated area or outside of the heap changed. *)
Theorem heap_free_correct hp g s l1 sz l2 fl p :
  let blk := first_block (ctl s) + sizes l1 in
  heap_inv hp g s (l1 ++ Blk sz true :: l2) fl ->
  blk + HEAP_BLOCK_HEADER_SIZE <= p < blk + HEAP_BLOCK_HEADER_SIZE + page_size (ctl s) ->
  wp (_Heap_Free hp p)
     (fun r s' => r = true /\ exists fl', heap_inv hp g s' (freed l1 sz l2) fl' /\
        forall k, kept hp (first_block (ctl s)) (last_block (ctl s)) (freed l1 sz l2) k ->
          hmem s' !! k = hmem s !! k) s.
Proof.
  intros blk (HP & Hlay & Hst) Hp. apply wp_eta.
  eapply (free_spec hp (ctl s) HP _ (first_mod8 hp (ctl s) HP) g (hmem s) (stats (ctl s)) l1 sz l2 fl); try done.
  intros m' t' fl' bs' Hlay' Hst' Hfr. split; [done|]. by exists fl'.
Qed.

(** C25. Nothing else can be freed: [NULL] is accepted and ignored, and an
    address whose block lies outside the heap, or the address of a block
    that is free already (a double free of a block that was not merged with
    its predecessor), is refused with the heap unchanged. *)
Theorem heap_free_refuses hp g s p :
  (p = NULL -> wp (_Heap_Free hp p) (fun r s' => r = true /\ s' = s) s) /\
  (p <> NULL ->
   ~ (first_block (ctl s) <= _Heap_Block_of_alloc_area p (page_size (ctl s)) <= last_block (ctl s)) ->
   wp (_Heap_Free hp p) (fun r s' => r = false /\ s' = s) s) /\
  (forall l1 sz l2 fl, heap_inv hp g s (l1 ++ Blk sz false :: l2) fl ->
   let alloc := first_block (ctl s) + sizes l1 + HEAP_BLOCK_HEADER_SIZE in
   alloc <= p < alloc + page_size (ctl s) ->
   wp (_Heap_Free hp p) (fun r s' => r = false /\ s' = s) s).
Proof.
  split_and!.
  - intros ->. done.
  - intros Hp Hout. apply wp_eta. apply free_outside_spec; [done|done|].
    split; [done|]. symmetry. apply state_eta.
  - intros l1 sz l2 fl (HP & Hlay & _) alloc Hp. apply wp_eta.
    eapply (free_unused_spec hp (ctl s) HP _ (first_mod8 hp (ctl s) HP)); [exact Hlay|exact Hp|].
    split; [done|]. symmetry. apply state_eta.
Qed.

(** C19. Round trip: freeing what an allocation returned succeeds and
    restores exactly the blocks the heap had before, every remainder being
    merged back.  As for the allocation alone, the alignment is a multiple of
    the page size, or the page size is 8. *)
Theorem heap_allocate_free_roundtrip hp g s bs fl n al bd :
  heap_inv hp g s bs fl -> 0 <= n < 2 ^ 64 -> 0 <= al < 2 ^ 64 -> 0 <= bd < 2 ^ 64 ->
  al mod page_size (ctl s) = 0 \/ page_size (ctl s) = 8 ->
  wp (p ← _Heap_Allocate_aligned_with_boundary hp n al bd; _Heap_Free hp p)
     (fun r s' => r = true /\ exists fl', heap_inv hp g s' bs fl') s.
Proof.
  intros (HP & Hlay & Hst) Hn Hal Hbd Hps. apply wp_eta, wp_bind.
  apply (allocate_spec hp (ctl s) HP g (hmem s) (stats (ctl s)) bs fl); try done.
  - intros t' Hst' _. apply free_null_spec. split; [done|]. by exists fl.
  - intros p m' t' bs' fl' Hp Hlay' Hst' (l1 & sz & l2 & pre & x & post & -> & -> & Hsd) _ _ _.
    pose proof (layout_free hp (ctl s) HP _ _ _ _ _ _ Hlay) as (Hlu & Hu & _).
    pose proof (freed_allocated _ l1 sz l2 _ _ _ _ _ _ Hlu Hu Hsd) as Hf.
    replace (l1 ++ (pre ++ Blk x true :: post) ++ l2)
      with ((l1 ++ pre) ++ Blk x true :: post ++ l2) in * by by rewrite <- !app_assoc.
    destruct Hsd as [_ _ _ _ H1 H2 _].
    eapply (free_spec hp (ctl s) HP _ (first_mod8 hp (ctl s) HP)); [exact Hlay'|exact Hst'|rewrite sizes_app; lia|].
    cbv zeta. rewrite Hf. intros m2 t2 fl2 Hlay2 Hst2 _. split; [done|]. by exists fl2.
Qed.

Lemma heap_allocate_free_roundtrip_witness :
  wp (p ← _Heap_Allocate_aligned_with_boundary 512 100 64 256; _Heap_Free 512 p)
     (fun r s' => r = true /\ exists fl', heap_inv 512 no_gaps s' [Blk 2032 false] fl') sample_state.
Proof.
  apply (heap_allocate_free_roundtrip 512 no_gaps sample_state [Blk 2032 false]
    [first_block (ctl sample_state)] 100 64 256); [exact sample_inv|lia|lia|lia|].
  right. exact sample_page_size.
Defined.

Lemma sample_allocated : exists s l1 sz l2 fl p,
  heap_inv 512 no_gaps s (l1 ++ Blk sz true :: l2) fl /\
  (first_block (ctl s) + sizes l1 + 16 <= p < first_block (ctl s) + sizes l1 + 16 + page_size (ctl s)) /\
  p + 100 <= first_block (ctl s) + sizes l1 + sz + 8.
Proof.
  destruct sample_inv as (HP & Hlay & Hst).
  assert (Hw : wp (_Heap_Allocate_aligned_with_boundary 512 100 0 0)
    (fun p s => exists l1 sz l2 fl, heap_inv 512 no_gaps s (l1 ++ Blk sz true :: l2) fl /\
      (first_block (ctl s) + sizes l1 + 16 <= p < first_block (ctl s) + sizes l1 + 16 + page_size (ctl s)) /\
      p + 100 <= first_block (ctl s) + sizes l1 + sz + 8) sample_state).
  { apply wp_eta. eapply (allocate_spec 512 (ctl sample_state) HP); [exact Hlay|exact Hst|lia|lia|lia|..].
    - right. exact sample_page_size.
    - intros t' _ Hsm. exfalso.
      pose proof (Hsm eq_refl eq_refl (Blk 2032 false) (list_elem_of_here _ _) eq_refl) as Hlt.
      cbn [bsize] in Hlt. lia.
    - intros p m' t' bs' fl' _ Hlay' Hst' (l1 & sz & l2 & pre & x & post & _ & -> & Hsd) _ _ _.
      exists (l1 ++ pre), x, (post ++ l2), fl'.
      replace ((l1 ++ pre) ++ Blk x true :: post ++ l2)
        with (l1 ++ (pre ++ Blk x true :: post) ++ l2) by by rewrite <- !app_assoc.
      destruct Hsd as [_ _ _ _ H1 H2 H3].
      split; [done|]. rewrite sizes_app. cbn [ctl first_block page_size with_stats] in *. lia. }
  destruct (proj1 (wp_run _ _ _) Hw) as (p & s & _ & l1 & sz & l2 & fl & Hs).
  exists s, l1, sz, l2, fl, p. exact Hs.
Qed.

Lemma heap_free_correct_witness : exists s l1 sz l2 fl p,
  heap_inv 512 no_gaps s (l1 ++ Blk sz true :: l2) fl /\
  wp (_Heap_Free 512 p)
     (fun r s' => r = true /\ exists fl', heap_inv 512 no_gaps s' (freed l1 sz l2) fl' /\
        forall k, kept 512 (first_block (ctl s)) (last_block (ctl s)) (freed l1 sz l2) k ->
          hmem s' !! k = hmem s !! k) s.
Proof.
  destruct sample_allocated as (s & l1 & sz & l2 & fl & p & Hinv & Hp & _).
  exists s, l1, sz, l2, fl, p. split; [exact Hinv|].
  exact (heap_free_correct 512 no_gaps s l1 sz l2 fl p Hinv Hp).
Defined.

Lemma heap_free_refuses_witness :
  wp (_Heap_Free 512 NULL) (fun r s' => r = true /\ s' = sample_state) sample_state /\
  wp (_Heap_Free 512 64) (fun r s' => r = false /\ s' = sample_state) sample_state /\
  wp (_Heap_Free 512 1040) (fun r s' => r = false /\ s' = sample_state) sample_state.
Proof.
  split_and!.
  - exact (proj1 (heap_free_refuses 512 no_gaps sample_state NULL) eq_refl).
  - refine (proj1 (proj2 (heap_free_refuses 512 no_gaps sample_state 64)) _ _); [discriminate|].
    destruct sample_initialized as (_ & _ & Hb & Hl & _ & -> & _). rewrite Hl. vm_compute in Hb |- *.
    intros [H _]. exact (H eq_refl).
  - apply (proj2 (proj2 (heap_free_refuses 512 no_gaps sample_state 1040)) [] 2032 []
      [first_block (ctl sample_state)] sample_inv).
    vm_compute. split; [discriminate|reflexivity].
Defined.

(** * Sequences of allocations and frees *)

Inductive op :=
  | op_alloc (n al bd : Z)
  | op_free (i : nat).

Definition op_ok (ps : Z) (o : op) : Prop :=
  match o with
  | op_alloc n al bd => 0 <= n < 2 ^ 64 /\ 0 <= al < 2 ^ 64 /\ 0 <= bd < 2 ^ 64 /\
      (al mod ps = 0 \/ ps = 8)
  | op_free _ => True
  end.

(** A client that keeps the list of its live areas (address and size); it
    frees the [i]-th of them.  The boolean is the conjunction of the results
    of [_Heap_Free]. *)
Definition exec (hp : Z) (L : list (Z * Z)) (o : op) : M state (list (Z * Z) * bool) :=
  match o with
  | op_alloc n al bd =>
      p ← _Heap_Allocate_aligned_with_boundary hp n al bd;
      mret (if p =? NULL then L else L ++ [(p, n)], true)
  | op_free i =>
      match L !! i with
      | None => mret (L, true)
      | Some (p, _) => r ← _Heap_Free hp p; mret (delete i L, r)
      end
  end.

Fixpoint run (hp : Z) (L : list (Z * Z)) (ops : list op) : M state (list (Z * Z) * bool) :=
  match ops with
  | [] => mret (L, true)
  | o :: ops' =>
      '(L, r) ← exec hp L o;
      '(L, r') ← run hp L ops';
      mret (L, r && r')
  end.

Lemma Forall2_right {A B} (P : A -> B -> Prop) l k :
  Forall2 P l k -> forall y, y ∈ k -> exists x, P x y.
Proof. induction 1; set_solver. Qed.

Lemma Forall2_impl_r {A B} (P R : A -> B -> Prop) (Q : B -> Prop) l k :
  Forall2 P l k -> Forall Q k -> (forall a b, P a b -> Q b -> R a b) -> Forall2 R l k.
Proof. intros H HQ Hi. induction H; constructor; decompose_Forall; auto. Qed.

Section traces.
Context (hp : Z) (c : Heap_Control) (HP : ctl_params hp c).
Abbreviation first := (first_block c).
Abbreviation ps := (page_size c).
Abbreviation St m t := {| hmem := m; ctl := with_stats c t |}.

(** The area belongs to the used block. *)
Definition owns (bs : list block) (a b : Z * Z) : Prop :=
  used_at first bs b.1 b.2 /\ b.1 + 16 <= a.1 < b.1 + 16 + ps /\ a.1 + a.2 <= b.1 + b.2 + 8.

(** The live areas belong to different used blocks, and there are no other
    used blocks. *)
Definition live (bs : list block) (L : list (Z * Z)) : Prop :=
  count_of true bs = Z.of_nat (length L) /\
  exists B, Forall2 (owns bs) L B /\ NoDup B.*1.

Lemma allocated_count bs bs' p n : allocated c bs bs' p n ->
  count_of true bs' = count_of true bs + 1.
Proof.
  intros (l1 & sz & l2 & pre & x & post & -> & -> & [Hpre Hpost _ _ _ _ _]).
  rewrite !count_of_app, !count_of_cons. cbn [bused Bool.eqb].
  destruct Hpre as [->|[? ->]], Hpost as [->|[? ->]]; rewrite ?count_of_cons;
    cbn [bused Bool.eqb]; change (count_of true []) with 0; lia.
Qed.

Lemma freed_count l1 sz l2 :
  count_of true (freed l1 sz l2) = count_of true (l1 ++ Blk sz true :: l2) - 1.
Proof.
  pose proof (merge_left_sums l1) as Hl. pose proof (merge_right_sums l2) as Hr.
  unfold freed. destruct (merge_left l1) as [pre a], (merge_right l2) as [b post].
  rewrite !count_of_app, !count_of_cons. cbn [bused Bool.eqb]. lia.
Qed.

(** Without used blocks the heap is a single free block. *)
Lemma no_used_blocks m bs fl : ctl_layout hp c m bs fl -> count_of true bs = 0 ->
  exists r, bs = [Blk r false].
Proof.
  intros (_ & (Hs & Hall & _) & _) Hc. pose proof (bounds hp c HP). pose proof (mbs_min hp c HP).
  destruct bs as [|[r [|]] bs]; [cbn in Hall; lia| |].
  - rewrite count_of_cons in Hc. cbn [bused Bool.eqb] in Hc. unfold count_of in Hc. lia.
  - destruct bs as [|[r' [|]] bs]; [by exists r| |].
    + rewrite !count_of_cons in Hc. cbn [bused Bool.eqb] in Hc. unfold count_of in Hc. lia.
    + destruct Hs as (_ & _ & _ & Hf & _). by destruct (Hf eq_refl).
Qed.

Lemma live_alloc bs bs' L p n : good ps (min_block_size c) bs -> allocated c bs bs' p n ->
  live bs L -> live bs' (L ++ [(p, n)]).
Proof.
  intros Hg Hall (Hcnt & B & HB & Hnd). split.
  { rewrite (allocated_count _ _ _ _ Hall), Hcnt, length_app. cbn. lia. }
  destruct (allocated_used c (mbs_min hp c HP) bs bs' p n Hg Hall) as (b & x & Hu & H1 & H2 & Hold).
  exists (B ++ [(b, x)]). split.
  - apply Forall2_app; [|by constructor]. eapply Forall2_impl; [exact HB|].
    intros a b' (Hu' & ?). split; [|done]. by apply Hold.
  - rewrite fmap_app. cbn. apply NoDup_app. split_and!; [done| |apply NoDup_singleton].
    intros y (b' & -> & Hb')%list_elem_of_fmap E%list_elem_of_singleton.
    apply (Forall2_right _ _ _ HB) in Hb' as (a & Hu' & _). by apply Hold in Hu' as [_ ?].
Qed.

Lemma live_free bs L i p n : live bs L -> L !! i = Some (p, n) ->
  exists l1 x l2, bs = l1 ++ Blk x true :: l2 /\
    first + sizes l1 + 16 <= p < first + sizes l1 + 16 + ps /\
    live (freed l1 x l2) (delete i L).
Proof.
  intros (Hcnt & B & HB & Hnd) Hi. destruct (Forall2_lookup_l _ _ _ _ _ HB Hi) as ([b x] & Hb & Hu & Hp & _).
  cbn [fst snd] in *. apply used_at_split in Hu as (l1 & l2 & -> & ->).
  exists l1, x, l2. split_and!; [done|lia|lia|].
  split.
  { rewrite freed_count, Hcnt, length_delete by eauto.
    apply lookup_lt_Some in Hi. lia. }
  exists (delete i B).
  pose proof (delete_Permutation _ _ _ Hb) as HpB. rewrite HpB in Hnd. cbn in Hnd.
  apply NoDup_cons in Hnd as [Hni Hnd]. split; [|done].
  eapply (Forall2_impl_r _ _ (fun b => b.1 <> first + sizes l1));
    [by apply Forall2_delete|apply Forall_forall|].
  - intros b Hb' E. apply Hni. rewrite <- E. apply list_elem_of_fmap. eauto.
  - intros a b (Hu & Hr & Hn) Hne. split; [by apply freed_used|done].
Qed.

Definition areas_disjoint (L : list (Z * Z)) : Prop :=
  forall i j p n p' n', i <> j -> L !! i = Some (p, n) -> L !! j = Some (p', n') ->
    p + n <= p' \/ p' + n' <= p.

Lemma live_disjoint bs L : good ps (min_block_size c) bs -> live bs L -> areas_disjoint L.
Proof.
  intros Hg (_ & B & HB & Hnd) i j p n p' n' Hij Hi Hj. pose proof (mbs_min hp c HP) as Hm.
  destruct (Forall2_lookup_l _ _ _ _ _ HB Hi) as ([b x] & Hb & Hu & Hp & Hn).
  destruct (Forall2_lookup_l _ _ _ _ _ HB Hj) as ([b' x'] & Hb' & Hu' & Hp' & Hn').
  cbn [fst snd] in *. destruct (used_at_disjoint _ _ _ _ _ _ _ _ Hm Hg Hu Hu')
    as [[-> ->]|[?|?]]; [|lia|lia].
  exfalso. apply Hij. eapply NoDup_lookup; [exact Hnd|by rewrite list_lookup_fmap, Hb|].
  by rewrite list_lookup_fmap, Hb'.
Qed.

Lemma live_inside bs L p n : good ps (min_block_size c) bs -> first + sizes bs = last_block c ->
  live bs L -> (p, n) ∈ L -> first + 16 <= p /\ p + n <= last_block c + 8.
Proof.
  intros Hg Hall (_ & B & HB & _) [i Hi]%list_elem_of_lookup. pose proof (mbs_min hp c HP) as Hm.
  destruct (Forall2_lookup_l _ _ _ _ _ HB Hi) as ([b x] & _ & Hu & Hp & Hn). cbn [fst snd] in *.
  apply (used_at_range _ _ _ _ _ _ Hm Hg) in Hu. lia.
Qed.

Lemma run_live m t bs fl L ops : ctl_layout hp c m bs fl -> stats_inv no_gaps t bs -> live bs L ->
  Forall (op_ok ps) ops ->
  wp (run hp L ops) (fun '(L', ok) s' => ok = true /\ exists bs' fl' m' t',
    s' = St m' t' /\ ctl_layout hp c m' bs' fl' /\ stats_inv no_gaps t' bs' /\ live bs' L') (St m t).
Proof.
  intros Hlay Hst Hlive Hops. revert m t bs fl L Hlay Hst Hlive.
  induction Hops as [|o ops Ho _ IH]; intros m t bs fl L Hlay Hst Hlive; cbn [run].
  { apply wp_ret. split; [done|]. by exists bs, fl, m, t. }
  assert (Hnext : forall m t bs fl L, ctl_layout hp c m bs fl -> stats_inv no_gaps t bs -> live bs L ->
    wp ('(L, r') ← run hp L ops; mret (L, true && r')) (fun '(L', ok) s' => ok = true /\
      exists bs' fl' m' t', s' = St m' t' /\ ctl_layout hp c m' bs' fl' /\
        stats_inv no_gaps t' bs' /\ live bs' L') (St m t)).
  { intros m1 t1 bs1 fl1 L1 Hlay1 Hst1 Hlive1. apply wp_bind.
    eapply wp_mono; [by eapply IH|]. intros [L2 ok2] s2 [-> H2]. by apply wp_ret. }
  apply wp_bind. destruct o as [n al bd|i]; cbn [exec op_ok] in *.
  - destruct Ho as (Hn & Hal & Hbd & Hps). apply wp_bind.
    eapply (allocate_spec hp c HP); [exact Hlay|exact Hst|done..| |].
    + intros t' Hst' _. apply wp_ret. rewrite Z.eqb_refl. by eapply Hnext.
    + intros p m' t' bs' fl' Hp Hlay' Hst' Hall _ _ _. apply wp_ret.
      destruct (Z.eqb_spec p NULL); [done|]. eapply Hnext; [exact Hlay'|exact Hst'|].
      eapply live_alloc; [apply Hlay|exact Hall|done].
  - destruct (L !! i) as [[p n]|] eqn:Hi; [|apply wp_ret; by eapply Hnext].
    destruct (live_free bs L i p n Hlive Hi) as (l1 & x & l2 & -> & Hp & Hlive').
    apply wp_bind. eapply (free_spec hp c HP _ (first_mod8 hp c HP)); [exact Hlay|exact Hst|exact Hp|].
    intros m' t' fl' bs' Hlay' Hst' _. apply wp_ret. by eapply Hnext.
Qed.
End traces.

(** C1. Any sequence of allocations and frees of live areas, run on an
    initialized heap, ends in a consistent heap.  The sizes and boundaries are
    arbitrary; the alignments are multiples of the page size, or arbitrary
    where the page size is 8 (no alignment, 0, is always admitted).  With
    other alignments the areas need not be disjoint: the allocation then
    forgets the offset of the area in its page.  In the admitted sequences
    every free succeeds, the areas that are live at the
    end are pairwise disjoint and lie inside the memory area given to the
    heap, and the heap has lost no memory: when all areas were freed, it is
    one free block again. *)
Theorem heap_trace_safe hp b sz page_size r s ops :
  initialized hp b sz page_size r s -> Forall (op_ok (Heap.page_size (ctl s))) ops ->
  wp (run hp [] ops) (fun '(L, ok) s' => ok = true /\ areas_disjoint L /\
    (forall p n, (p, n) ∈ L -> b <= p /\ p + n <= b + sz) /\
    exists bs fl, heap_inv hp no_gaps s' bs fl /\ (L = [] -> bs = [Blk r false])) s.
Proof.
  intros ((HP & Hlay & Hst) & Hr & Hb & Hlast & Hend & _) Hops. apply wp_eta.
  eapply wp_mono; [eapply (run_live hp (ctl s) HP); [exact Hlay|exact Hst| |exact Hops]|].
  - split; [done|]. exists []. split; constructor.
  - intros [L ok] s' (-> & bs' & fl' & m' & t' & -> & Hlay' & Hst' & Hlive).
    pose proof Hlay' as (Hg & Ht & _). assert (Hall : first_block (ctl s) + sizes bs' = last_block (ctl s)) by apply Ht.
    split_and!; [done|by eapply live_disjoint| |].
    + intros p n Hpn. destruct (live_inside hp (ctl s) HP bs' L p n Hg Hall Hlive Hpn). lia.
    + exists bs', fl'. split; [by split_and!|]. intros ->.
      destruct (no_used_blocks hp (ctl s) HP m' bs' fl' Hlay') as [r' ->]; [apply Hlive|].
      cbn in Hall. do 2 f_equal. lia.
Qed.

Lemma heap_trace_safe_witness :
  wp (run 512 [] [op_alloc 100 0 0; op_alloc 40 64 256; op_free 0; op_alloc 24 0 0])
    (fun '(L, ok) s' => ok = true /\ areas_disjoint L /\
      (forall p n, (p, n) ∈ L -> 1024 <= p /\ p + n <= 1024 + 2048) /\
      exists bs fl, heap_inv 512 no_gaps s' bs fl /\ (L = [] -> bs = [Blk 2032 false])) sample_state.
Proof.
  apply (heap_trace_safe 512 1024 2048 0 2032 sample_state); [exact sample_initialized|].
  rewrite sample_page_size. repeat constructor; cbn; lia.
Defined.



End HeapCorrect.
