(* ===== verification/HeapInfo.v ===== *)
(** The queries of the heap: the size of an allocated area, the iteration
    over all blocks and the block statistics computed with it
    (score/heapsizeofuserarea.c, score/heapiterate.c, score/heapgetinfo.c). *)

From S2P Require Import Prelude DList Heap HeapInv HeapAlloc HeapInit HeapFree HeapCorrect.
Import Heap HeapInv HeapAlloc HeapInit HeapFree HeapCorrect.
Open Scope width_scope.

Module HeapInfo.

(** * Size of an allocated area *)

Lemma size_of_alloc_area_spec hp c m t l1 sz l2 fl p Q : ctl_params hp c ->
  let blk := first_block c + sizes l1 in
  ctl_layout hp c m (l1 ++ Blk sz true :: l2) fl -> blk + 16 <= p < blk + 16 + page_size c ->
  p <= blk + sz + 8 -> Q (Some (blk + sz + 8 - p)) {| hmem := m; ctl := with_stats c t |} ->
  wp (_Heap_Size_of_alloc_area p) Q {| hmem := m; ctl := with_stats c t |}.
Proof.
  intros HP blk Hlay Hp Hpe HQ. pose proof (mbs_min hp c HP). pose proof (ps_le_mbs hp c HP).
  destruct (case_facts hp c HP _ m l1 sz l2 fl Hlay)
    as (Hg & _ & _ & _ & _ & _ & Ht & ? & ? & ? & He & Hsum & ? & ?). fold blk in Ht, Hsum.
  pose proof (layout_block hp c HP _ _ _ _ _ _ Hlay) as (Hb & _). cbn [bsize] in Hb. fold blk in Hb.
  assert (Hblk : first_block c <= blk) by (unfold blk; lia).
  apply good_app in Hg as [Hg1 Hg2]. apply good_cons in Hg2 as [_ Hg2].
  destruct (head_size_ok hp _ _ _ (first_block c) (last_block c) HP l2 (first_mod8 hp c HP) Hg2) as [Hhe Hhr]; [lia|].
  apply wp_bind, wp_gets. cbv zeta. cbn [page_size ctl with_stats].
  rewrite (block_of_alloc_area_spec c blk p) by (lia || by apply (block_page_mod hp c HP)).
  apply wp_bind, in_heap_true; [lia|]. cbn [negb]. apply wp_bind.
  eapply block_size_spec; [exact Hb|done|lia|]. unfold _Heap_Block_at.
  rewrite (u64_small (blk + sz)) by lia. apply wp_bind, in_heap_true; [lia|]. cbn [negb].
  apply wp_bind. eapply is_prev_used_spec; [by eapply tail_header|done|]. cbn [negb].
  apply wp_ret. unfold HEAP_ALLOC_BONUS.
  rewrite (u64_small (blk + sz + 8)), (u64_small (blk + sz + 8 - p)) by lia. exact HQ.
Qed.

(** An allocation of [n] bytes reports a usable size of at least [n]
    bytes: [_Heap_Size_of_alloc_area] applied to the address that
    [_Heap_Allocate_aligned_with_boundary] returned succeeds with the bytes
    up to the end of the block, bonus included. *)
Lemma heap_allocated_size_sufficient hp g s bs fl n al bd :
  heap_inv hp g s bs fl -> 0 <= n < 2 ^ 64 -> 0 <= al < 2 ^ 64 -> 0 <= bd < 2 ^ 64 ->
  al mod page_size (ctl s) = 0 \/ page_size (ctl s) = 8 ->
  wp (p ← _Heap_Allocate_aligned_with_boundary hp n al bd;
      if p =? NULL then mret None else r ← _Heap_Size_of_alloc_area p; mret (Some r))
     (fun r _ => match r with
        | None => True
        | Some r => exists usable, r = Some usable /\ n <= usable
        end) s.
Proof.
  intros (HP & Hlay & Hst) Hn Hal Hbd Hps. apply wp_eta, wp_bind.
  apply (allocate_spec hp (ctl s) HP g (hmem s) (stats (ctl s)) bs fl); try done.
  intros p m' t' bs' fl' Hp Hlay' _ (l1 & sz & l2 & pre & x & post & -> & -> & Hsd) _ _ _.
  destruct (Z.eqb_spec p NULL); [done|]. apply wp_bind.
  replace (l1 ++ (pre ++ Blk x true :: post) ++ l2)
    with ((l1 ++ pre) ++ Blk x true :: post ++ l2) in Hlay' by by rewrite <- !app_assoc.
  destruct Hsd as [_ _ _ _ H1 H2 H3].
  eapply (size_of_alloc_area_spec hp); [exact HP|exact Hlay'|rewrite sizes_app; lia|rewrite sizes_app; lia|].
  apply wp_ret. eexists. split; [done|]. rewrite sizes_app. lia.
Qed.

Lemma heap_allocated_size_sufficient_witness :
  wp (p ← _Heap_Allocate_aligned_with_boundary 512 100 64 256;
      if p =? NULL then mret None else r ← _Heap_Size_of_alloc_area p; mret (Some r))
     (fun r _ => match r with
        | None => True
        | Some r => exists usable, r = Some usable /\ 100 <= usable
        end) sample_state.
Proof.
  apply (heap_allocated_size_sufficient 512 no_gaps sample_state [Blk 2032 false]
    [first_block (ctl sample_state)] 100 64 256); [exact sample_inv|lia|lia|lia|].
  right. exact sample_page_size.
Defined.

(** ** The restriction on the alignment is needed

    With a page size above 8 and an alignment that is no multiple of it,
    allocation at the end of a block reserves room for [alloc_size] bytes
    from the begin of the page, not from the address it returns. *)

Section short.
Context (hp : Z) (c : Heap_Control) (HP : ctl_params hp c) (g : gaps).
Abbreviation ps := (page_size c).
Abbreviation mbs := (min_block_size c).
Abbreviation first := (first_block c).
Abbreviation St m t := {| hmem := m; ctl := with_stats c t |}.

(** The area at [p] is placed at the end of the free block of size [sz], in
    the page that begins [off] bytes behind the begin of the block and [d]
    bytes before [p] and within the block for [n] bytes, and there is a rest
    behind it that is split off. *)
Record at_end (blk sz p n off d : Z) : Prop := {
  ae_n : 0 <= n;
  ae_off : off mod ps = 0 /\ mbs <= off;
  ae_p : p = blk + off + 16 + d;
  ae_d : 0 <= d < ps /\ d + 8 <= used_block_size c n;
  ae_rest : off + used_block_size c n + mbs <= sz;
}.

Lemma block_allocate_at_end m t l1 sz l2 fl p n off d Q :
  let blk := first + sizes l1 in
  ctl_layout hp c m (l1 ++ Blk sz false :: l2) fl -> stats_inv g t (l1 ++ Blk sz false :: l2) ->
  at_end blk sz p n off d ->
  (forall m' t' fl', ctl_layout hp c m' ((l1 ++ [Blk off false]) ++ Blk (used_block_size c n) true ::
      Blk (sz - off - used_block_size c n) false :: l2) fl' -> Q (blk + off) (St m' t')) ->
  wp (_Heap_Block_allocate hp blk p n) Q (St m t).
Proof.
  intros blk Hlay (mf & Ha & Hmf) [Hn [Hom Hof] -> [Hd Hd8] Hrest] HQ. pose proof (mbs_min hp c HP). pose proof (ps_le_mbs hp c HP).
  pose proof (bounds hp c HP) as (? & ? & ?). destruct (used_block_size_ok hp c HP n Hn) as (Hu1 & Hu2 & Hu3).
  destruct (layout_block hp c HP _ _ _ _ _ _ Hlay) as (_ & _ & Hms & H1' & H2' & _ & Hall). cbn [bsize] in *.
  pose proof (proj1 Hlay) as Hg. apply good_app in Hg as [Hg1 Hg2]. pose proof Hg2 as Hg3.
  apply good_cons in Hg3 as [_ Hg3]. pose proof (free_sizes_bound hp c HP l1 Hg1).
  pose proof (free_sizes_bound hp c HP l2 Hg3). rewrite sizes_of_app, sizes_of_cons in Ha. cbn [bused bsize] in Ha.
  eapply (block_allocate_open hp c HP); [exact Hlay|exact Ha|cbn; lia|].
  intros m1 t1 fl1 fl2 Hopen Hhu Hlu _ Ha1. fold blk.
  unfold _Heap_Alloc_area_of_block, HEAP_BLOCK_HEADER_SIZE. change (2 * 8 + 0) with 16.
  rewrite (u64_small (blk + 16)), (u64_small (_ - (blk + 16))) by (unfold blk in *; lia).
  destruct (Z.ltb_spec (blk + off + 16 + d - (blk + 16)) ps); [lia|].
  eapply (from_end_spec hp c HP _ _ l1 sz false l2 fl1 fl2 _ n off);
    [done..|lia|lia| |exact Ha1|cbn; lia|cbn; lia|].
  { apply block_of_alloc_area_spec; [unfold blk in *; lia..|].
    replace (first + sizes l1 + off + 16) with (first + sizes l1 + 16 + off) by lia.
    apply mod_add; [apply (ps_pos hp c HP)|by apply (block_page_mod hp c HP)|done]. }
  cbv zeta. unfold split_blocks. destruct (Z.leb_spec (used_block_size c n + mbs) (sz - off)); [|lia].
  intros m' t' fl' Hlay' _ _. fold blk. apply wp_bind, set_stats_spec, wp_ret.
  apply (HQ m' _ fl'). rewrite <- app_assoc. exact Hlay'.
Qed.
End short.

(** The search ends at the first free block when the request fits there. *)
Lemma search_first hp s l1 sz l2 fl n al bd floor p Q :
  let blk := first_block (ctl s) + sizes l1 in
  ctl_params hp (ctl s) -> ctl_layout hp (ctl s) (hmem s) (l1 ++ Blk sz false :: l2) (blk :: fl) ->
  al <> 0 -> floor <= sz -> p <> 0 -> _Heap_Check_block blk n al bd s = Some (p, s) ->
  Q (blk, p, 1) s -> wp (whileM (allocate_search_loop hp n al bd floor) (blk, 0, 0)) Q s.
Proof.
  intros blk HP Hlay Hal Hfl Hp Hchk HQ.
  assert (Hb : hmem s !! (blk + SIZE_AND_FLAG) = Some (sz + flag true)) by apply (layout_free hp _ HP _ _ _ _ _ _ Hlay).
  pose proof Hlay as (Hg & Ht & Hperm & _).
  assert (Hne : (blk =? hp) = false).
  { apply Z.eqb_neq. intros E. destruct (free_dsep HP Hg (proj1 (proj2 Ht)) Hperm) as [Hs _].
    apply NoDup_cons in Hs as [Hs _]. set_solver. }
  apply (wp_whileM _ (fun k a s' => k = 0 /\ a = (blk, 0, 0) /\ s' = s)) with (k := 0); [|done|done].
  intros k a s' (-> & -> & ->). unfold allocate_search_loop, _Heap_Free_list_tail. rewrite Hne.
  apply wp_bind. eapply wp_load; [exact Hb|]. cbn [flag]. destruct (Z.ltb_spec floor (sz + 1)); [|lia].
  destruct (Z.eqb_spec al 0); [done|]. apply wp_bind, wp_run. exists p, s. split; [exact Hchk|].
  destruct (Z.eqb_spec p 0); [done|]. cbn [negb]. by apply wp_ret.
Qed.

(** C26. What an allocation at the end of a free block really reserves.  Let
    [_Heap_Check_block] place a request of [n] bytes with a given alignment
    and boundary into the first free block, in a page of it that leaves a
    free block before and behind, at [d] bytes from the begin of the page.
    Then the allocation returns that address, and the usable size, which
    [_Heap_Size_of_alloc_area] reports, is the size of the block for [n]
    bytes less 8 and less [d]: the code forgets the offset in the page.  The
    word behind the usable area is the size field of the free block behind,
    so that, when [d] exceeds the slack of the block, the [n] bytes handed out
    reach into the management data of the heap. *)
Theorem heap_allocate_short_area hp g s l1 sz l2 fl n al bd p off d :
  let blk := first_block (ctl s) + sizes l1 in
  heap_inv hp g s (l1 ++ Blk sz false :: l2) (blk :: fl) ->
  al <> 0 -> n + 8 <= sz -> bd = 0 \/ n <= bd ->
  _Heap_Check_block blk n al bd s = Some (p, s) -> at_end (ctl s) blk sz p n off d ->
  wp (q ← _Heap_Allocate_aligned_with_boundary hp n al bd; r ← _Heap_Size_of_alloc_area q; mret (q, r))
     (fun x s' => let usable := used_block_size (ctl s) n - 8 - d in
       x = (p, Some usable) /\
       hmem s' !! (p + usable) = Some (sz - off - used_block_size (ctl s) n + HEAP_PREV_BLOCK_USED)) s.
Proof.
  intros blk (HP & Hlay & Hst) Hal Hsz Hbd Hchk Hend. pose proof Hend as [Hn [Hom Hof] Hp [Hd Hd8] Hrest].
  pose proof (mbs_min _ _ HP). pose proof (bounds _ _ HP) as (? & ? & ?). pose proof (ps_le_mbs _ _ HP).
  destruct (used_block_size_ok _ _ HP n Hn) as (Hu1 & Hu2 & Hu3).
  destruct (layout_block hp _ HP _ _ _ _ _ _ Hlay) as (Hb & _ & _ & ? & ? & _ & Hall). cbn [bsize] in *. fold blk in Hb, Hall.
  pose proof Hlay as (_ & _ & _ & Hl & _).
  apply wp_bind. unfold _Heap_Allocate_aligned_with_boundary, HEAP_BLOCK_HEADER_SIZE, HEAP_ALLOC_BONUS. cbv zeta.
  apply wp_bind, wp_gets. rewrite (u64_small (n + (2 * 8 + 0))), (u64_small (n + (2 * 8 + 0) - 8)) by lia.
  destruct (Z.ltb_spec (n + (2 * 8 + 0) - 8) n); [lia|].
  replace (negb (bd =? 0) && (bd <? n)) with false by (repeat case_bool; cbn; lia).
  replace (if negb (bd =? 0) && (al =? 0) then _ else al) with al by (destruct (Z.eqb_spec al 0); by rewrite ?andb_false_r).
  apply wp_bind. eapply wp_load; [exact (dlist_first _ _ _ _ _ _ Hl)|]. rewrite dsucc_cons. apply wp_bind.
  assert (Hp0 : p <> 0) by (unfold blk in *; lia).
  apply (search_first hp s l1 sz l2 fl n al bd _ p); [exact HP|exact Hlay|done|lia|done|exact Hchk|].
  destruct (Z.eqb_spec p 0); [done|]. cbn [negb]. apply wp_bind, wp_bind, wp_eta.
  apply (block_allocate_at_end hp _ HP g _ _ l1 sz l2 (blk :: fl) p n off d); [exact Hlay|exact Hst|exact Hend|].
  intros m' t' fl' Hlay'. pose proof (layout_block hp _ HP _ _ _ _ _ _ Hlay') as (Hb' & He & _ & _ & _ & _ & Hall').
  rewrite sizes_app in Hb'. cbn [sizes bsize] in *.
  do 2 apply wp_bind, set_stats_spec. apply wp_bind.
  eapply block_size_spec; [fold blk; replace (blk + off) with (first_block (ctl s) + (sizes l1 + (off + 0))) by (unfold blk; lia); exact Hb'|done|lia|].
  apply set_stats_spec, wp_bind, set_stats_spec, wp_ret, wp_bind.
  apply (size_of_alloc_area_spec hp _ _ _ _ _ _ _ _ _ HP Hlay'); [rewrite sizes_app; cbn; unfold blk in *; lia..|].
  apply wp_ret. cbn [hmem]. rewrite sizes_app. cbn [sizes bsize]. split; [do 2 f_equal; unfold blk in *; lia|].
  rewrite (cons_middle (Blk (used_block_size _ _) true)), app_assoc in Hlay'.
  apply (layout_block hp _ HP) in Hlay' as (Hw & _). rewrite lastu_app, !sizes_app in Hw. cbn [sizes bsize lastu bused flag] in Hw.
  unfold HEAP_PREV_BLOCK_USED. rewrite <- Hw. f_equal. unfold SIZE_AND_FLAG, blk in *. lia.
Qed.

(** The first free block of a heap with a page size of 64, asked for 304 bytes
    with alignment 8 and boundary 1024. *)
Definition short_start : state :=
  {| hmem := list_to_map ((fun k => (k, 0)) <$> (words 512 4 ++ words 1008 162));
     ctl := Build_Heap_Control 0 0 0 0 0 0 zero_statistics |}.

Definition short_state : state :=
  match _Heap_Initialize 512 1008 1296 64 short_start with Some (_, s) => s | None => short_start end.

Lemma short_inv : heap_inv 512 no_gaps short_state [Blk 1280 false] [1008].
Proof.
  assert (Hw : wp (_Heap_Initialize 512 1008 1296 64)
    (fun r s => r = 0 \/ initialized 512 1008 1296 64 r s) short_start).
  { apply initialize_spec; try lia; [by apply (zero_area_ok 512 1008 162)|auto]. }
  unfold wp in Hw. assert (exists s, _Heap_Initialize 512 1008 1296 64 short_start = Some (1280, s)) as [s E].
  { eexists. vm_compute. reflexivity. }
  assert (Es : short_state = s) by (unfold short_state; by rewrite E). rewrite E in Hw.
  destruct Hw as [Hw|[Hw _]]; [discriminate Hw|]. rewrite <- Es in Hw. exact Hw.
Qed.

Lemma heap_allocate_short_area_witness :
  wp (q ← _Heap_Allocate_aligned_with_boundary 512 304 8 1024; r ← _Heap_Size_of_alloc_area q; mret (q, r))
     (fun x s' => x = (1744, Some 296) /\ hmem s' !! (1744 + 296) = Some (256 + HEAP_PREV_BLOCK_USED)) short_state.
Proof.
  refine (heap_allocate_short_area 512 no_gaps short_state [] 1280 [] [] 304 8 1024 1744 704 16 short_inv _ _ _ _ _).
  - lia.
  - lia.
  - right. lia.
  - vm_compute. reflexivity.
  - split; vm_compute; split_and?; done.
Defined.

(** * Iteration and block statistics *)

(** The visitor is called for each block in address order until it asks to
    stop. *)
Fixpoint visit {A} (visitor : Z -> Z -> bool -> A -> bool * A) (a : Z) (bs : list block) (arg : A) : A :=
  match bs with
  | [] => arg
  | b :: bs' =>
      let '(stop, arg') := visitor a (bsize b) (bused b) arg in
      if stop then arg' else visit visitor (a + bsize b) bs' arg'
  end.

Lemma iterate_spec {A} hp c m t bs fl (visitor : Z -> Z -> bool -> A -> bool * A) arg Q :
  ctl_params hp c -> ctl_layout hp c m bs fl ->
  Q (visit visitor (first_block c) bs arg) {| hmem := m; ctl := with_stats c t |} ->
  wp (_Heap_Iterate visitor arg) Q {| hmem := m; ctl := with_stats c t |}.
Proof.
  intros HP Hlay HQ. set (s := {| hmem := m; ctl := with_stats c t |}) in *.
  pose proof (bounds hp c HP) as (? & ? & ?). pose proof (mbs_min hp c HP).
  pose proof Hlay as (Hg & Ht & _). assert (Hall : first_block c + sizes bs = last_block c) by apply Ht.
  do 2 apply wp_bind, wp_gets. cbn [ctl with_stats first_block last_block s].
  apply (wp_whileM _ (fun k '((stop, b, arg') : bool * Z * A) s' => s' = s /\ exists l1 l2, bs = l1 ++ l2 /\
    b = first_block c + sizes l1 /\ k = (if stop then 0 else 1 + sizes l2) /\
    visit visitor (first_block c) bs arg
      = if stop then arg' else visit visitor b l2 arg')) with (k := 1 + sizes bs).
  3: lia.
  2: { split; [done|]. exists [], bs. cbn. by rewrite Z.add_0_r. }
  intros k [[stop b] arg'] s' (-> & l1 & l2 & E & -> & -> & Hv).
  destruct stop; cbn [negb andb]; [rewrite Hv in HQ; by apply wp_ret|].
  destruct l2 as [|x l2].
  - rewrite app_nil_r in E. subst l1. rewrite Hall, Z.eqb_refl. cbn [negb].
    apply wp_ret. cbn in Hv. by rewrite Hv in HQ.
  - pose proof Hlay as Hlay'. rewrite E in Hlay'.
    pose proof (layout_block hp c HP _ _ _ _ _ _ Hlay') as (Hb & He & ? & ? & ? & _ & Hsum).
    destruct (Z.eqb_spec (first_block c + sizes l1) (last_block c)); [lia|]. cbn [negb].
    apply wp_bind. eapply block_size_spec; [exact Hb|done|lia|]. cbv zeta. unfold _Heap_Block_at.
    rewrite u64_small by lia. rewrite E in Ht, Hg. apply tail_app in Ht as [_ Ht].
    apply tail_cons in Ht as (_ & _ & Ht). apply good_app in Hg as [_ Hg]. apply good_cons in Hg as [_ Hg].
    destruct (head_size_ok hp _ _ _ (first_block c) (last_block c) HP l2 (first_mod8 hp c HP) Hg) as [Hhe _]; [lia|].
    apply wp_bind. eapply is_prev_used_spec; [by eapply tail_header|done|].
    cbn [visit] in Hv. destruct (visitor (first_block c + sizes l1) (bsize x) (bused x) arg')
      as [stop arg''] eqn:Ev. apply wp_ret.
    exists (if stop then 0 else 1 + sizes l2). cbn [sizes]. split; [destruct stop; lia|].
    split; [done|]. exists (l1 ++ [x]), l2. rewrite <- app_assoc, sizes_app. cbn [sizes].
    split_and!; [done|lia|done|]. by destruct stop.
Qed.

(** The information about the blocks of one kind. *)
Definition largest_of (u : bool) (bs : list block) : Z :=
  foldl (fun a b => if Bool.eqb (bused b) u then Z.max a (bsize b) else a) 0 bs.
Definition info_of (u : bool) (bs : list block) : Heap_Information :=
  {| number := count_of u bs; largest := largest_of u bs; total := sizes_of u bs |}.

Lemma add_block_info u l b : bused b = u -> count_of u l + 1 < 2 ^ 64 -> 0 <= sizes_of u l ->
  0 <= bsize b -> sizes_of u l + bsize b < 2 ^ 64 ->
  add_block (bsize b) (info_of u l) = info_of u (l ++ [b]).
Proof.
  intros Hu Hc Hs Hb Hsum. unfold add_block, info_of; cbn [number largest total].
  assert (0 <= count_of u l) by (unfold count_of; lia).
  rewrite !u64_small by lia.
  rewrite count_of_app, sizes_of_app, count_of_cons, sizes_of_cons, Hu, Bool.eqb_reflx.
  change (count_of u []) with 0. change (sizes_of u []) with 0. unfold largest_of.
  rewrite foldl_app. cbn [foldl]. rewrite Hu, Bool.eqb_reflx. fold (largest_of u l).
  f_equal; [|lia]. case_bool; lia.
Qed.

Lemma skip_block_info u l b : bused b <> u -> info_of u (l ++ [b]) = info_of u l.
Proof.
  intros Hu. assert (E : Bool.eqb (bused b) u = false) by by apply Bool.eqb_false_iff.
  unfold info_of, largest_of. rewrite foldl_app. cbn [foldl].
  rewrite count_of_app, sizes_of_app, count_of_cons, sizes_of_cons, E.
  change (count_of u []) with 0. change (sizes_of u []) with 0. f_equal; lia.
Qed.

Lemma kind_bounds ps mbs bs u : 32 <= mbs -> good ps mbs bs ->
  0 <= sizes_of u bs <= sizes bs /\ 32 * count_of u bs <= sizes bs.
Proof.
  intros Hm. induction 1 as [|[x v] l [_ Hx] _ IH]; [done|].
  rewrite sizes_of_cons, count_of_cons. cbn in *. destruct (Bool.eqb v u); lia.
Qed.

Lemma visit_info ps mbs a l1 l2 st : 32 <= mbs -> good ps mbs (l1 ++ l2) -> sizes (l1 ++ l2) < 2 ^ 64 ->
  visit _Heap_Get_information_visitor a l2
    {| Free := info_of false l1; Used := info_of true l1; Stats := st |}
  = {| Free := info_of false (l1 ++ l2); Used := info_of true (l1 ++ l2); Stats := st |}.
Proof.
  intros Hm. revert a l1. induction l2 as [|b l2 IH]; intros a l1 Hg Hsz; cbn [visit].
  { by rewrite app_nil_r. }
  assert (Hg1 : good ps mbs (l1 ++ [b])).
  { replace (l1 ++ b :: l2) with ((l1 ++ [b]) ++ l2) in Hg by by rewrite <- app_assoc.
    by apply Forall_app in Hg as [? _]. }
  pose proof (sizes_nonneg ps mbs Hm l2) as Hl2. pose proof Hg as Hg'.
  apply Forall_app in Hg' as [Hgl Hg']. apply Forall_cons in Hg' as [[_ Hb] Hg'].
  rewrite sizes_app in Hsz. cbn [sizes] in Hsz.
  destruct (kind_bounds ps mbs l1 (bused b) Hm Hgl). specialize (Hl2 Hg').
  specialize (IH (a + bsize b) (l1 ++ [b])). rewrite <- app_assoc in IH. cbn [app] in IH.
  rewrite sizes_app in IH. cbn [sizes] in IH. specialize (IH Hg ltac:(lia)).
  unfold _Heap_Get_information_visitor at 1. cbn [Free Used Stats].
  destruct (bused b) eqn:Hu.
  - rewrite add_block_info, <- (skip_block_info false l1 b) by (rewrite ?Hu; done || lia). exact IH.
  - rewrite add_block_info, <- (skip_block_info true l1 b) by (rewrite ?Hu; done || lia). exact IH.
Qed.

(** [_Heap_Get_information] walks all blocks, terminates and reports
    exactly the number, the total size and the largest size of the free and
    of the used blocks; the totals agree with the statistics that allocation
    and free maintain incrementally, except that the gaps between the memory
    areas of an extended heap count as used blocks. *)
Theorem heap_get_information_correct hp g s bs fl : heap_inv hp g s bs fl ->
  wp _Heap_Get_information
     (fun info s' => s' = s /\ Free info = info_of false bs /\ Used info = info_of true bs /\
        Stats info = stats (ctl s) /\ free_size (Stats info) = total (Free info) /\
        u32 (number (Free info)) = free_blocks (Stats info) /\
        u32 (number (Used info) - gap_count g) = used_blocks (Stats info) /\
        size (Stats info) = total (Free info) + total (Used info) - gap_size g) s.
Proof.
  intros (HP & Hlay & Hst). apply wp_eta, wp_bind. eapply (iterate_spec hp); [exact HP|exact Hlay|].
  pose proof (bounds hp _ HP) as (? & ? & ?). pose proof Hlay as (Hg & Ht & _).
  assert (Hall : first_block (ctl s) + sizes bs = last_block (ctl s)) by apply Ht.
  pose proof (visit_info (page_size (ctl s)) (min_block_size (ctl s)) (first_block (ctl s)) [] bs
    zero_statistics (mbs_min hp _ HP) Hg ltac:(cbn [app]; lia)) as Hv. cbn [app] in Hv.
  change {| Free := zero_information; Used := zero_information; Stats := zero_statistics |}
    with {| Free := info_of false []; Used := info_of true []; Stats := zero_statistics |}.
  rewrite Hv. apply wp_bind, wp_gets, wp_ret. rewrite <- state_eta. cbn [Free Used Stats].
  destruct Hst as (mf & [? ? ? ? _] & _).
  split_and!; try done. cbn [total info_of].
  assert (Hsum : forall l, sizes l = sizes_of false l + sizes_of true l).
  { induction l as [|[x [|]] l IH]; [done|..]; rewrite !sizes_of_cons; cbn; lia. }
  rewrite <- Hsum. done.
Qed.

Lemma heap_get_information_correct_witness :
  wp _Heap_Get_information
     (fun info s' => s' = sample_state /\ number (Free info) = 1 /\ total (Free info) = 2032)
     sample_state.
Proof.
  eapply wp_mono; [exact (heap_get_information_correct 512 no_gaps sample_state [Blk 2032 false]
    [first_block (ctl sample_state)] sample_inv)|].
  intros info s' (-> & -> & _). split; [reflexivity|]. split; reflexivity.
Defined.

End HeapInfo.
