(* ===== verification/HeapResize.v ===== *)
(** Resizing an allocated area in place (score/heapresizeblock.c). *)

From S2P Require Import Prelude DList Heap HeapInv HeapAlloc HeapInit HeapFree HeapCorrect.
Import Heap HeapInv HeapAlloc HeapInit HeapFree HeapCorrect.
Open Scope width_scope.

Module HeapResize.

Section resize.
Context (hp : Z) (c : Heap_Control) (HP : ctl_params hp c) (g : gaps).
Abbreviation stats_inv := (stats_inv g).
Abbreviation ps := (page_size c).
Abbreviation mbs := (min_block_size c).
Abbreviation first := (first_block c).
Abbreviation last := (last_block c).
Abbreviation good := (good ps mbs).
Abbreviation fdlist := (dlist NEXT PREV).
Abbreviation layout := (ctl_layout hp c).
Abbreviation uframe := (uframe hp c).
Abbreviation open_layout := (open_layout hp ps mbs first first last).
Abbreviation St m t := {| hmem := m; ctl := with_stats c t |}.

(** A used block of a layout can be opened as it is. *)
Lemma open_used m l1 sz l2 fl : layout m (l1 ++ Blk sz true :: l2) fl ->
  open_layout m l1 sz true l2 fl.
Proof.
  intros Hlay. pose proof Hlay as (Hg & Ht & Hp & Hl & Hm).
  pose proof (layout_block hp c HP _ _ _ _ _ _ Hlay) as (Hb & _).
  apply tail_app in Ht as [Hs Ht]. apply tail_cons in Ht as (_ & _ & Ht). by split_and!.
Qed.

(** [_Heap_Block_allocate] on a used block shrinks it to the request. *)
Lemma block_allocate_used_spec m t l1 sz l2 fl p n fs nf nu tot mf Q :
  let blk := first + sizes l1 in
  layout m (l1 ++ Blk sz true :: l2) fl -> head_used l2 -> 0 <= n ->
  blk + 16 <= p < blk + 16 + ps -> p + n <= blk + sz + 8 ->
  acct t fs nf nu tot mf -> 0 <= fs -> fs + sz < 2 ^ 64 ->
  (forall m' t' fl', let new := split_blocks c (n + (p - (blk + 16))) sz in
    layout m' (l1 ++ new ++ l2) fl' -> uframe (l1 ++ new ++ l2) m m' ->
    acct t' (fs + sizes_of false new) (nf + count_of false new) nu tot
      (Z.min (fs + sizes_of false new) mf) ->
    Q blk (St m' t')) ->
  wp (_Heap_Block_allocate hp blk p n) Q (St m t).
Proof.
  intros blk Hlay Hu Hn Hp Hend Ha Hfs Hfsz HQ.
  pose proof (mbs_min hp c HP). pose proof (ps_pos hp c HP).
  destruct (case_facts hp c HP _ m l1 sz l2 fl Hlay)
    as (Hg & _ & _ & _ & _ & Hs & _ & ? & ? & ? & He & Hsum & ? & ?). fold blk in Hsum.
  pose proof (layout_block hp c HP _ _ _ _ _ _ Hlay) as (Hb & _ & _ & _ & _ & Hmod & _). cbn [bsize] in Hb, Hmod.
  destruct (first_header hp c HP m l1 sz Hs) as (y & Hy & Hye);
    [by apply good_app in Hg as [? _]|done|exact Hb|].
  pose proof Hlay as (_ & Ht & _). apply tail_app in Ht as [_ Ht].
  unfold _Heap_Block_allocate. cbv zeta. apply wp_bind, wp_bind.
  eapply (tail_is_used_spec hp c HP); [exact Ht|by apply good_app in Hg as [_ ?]|lia|exact Hy|done|].
  cbn [bused]. apply wp_ret. cbn [negb]. apply wp_bind, wp_ret, wp_bind, wp_gets, wp_bind.
  change (page_size (ctl (St m t))) with ps. fold blk.
  unfold _Heap_Alloc_area_of_block, HEAP_BLOCK_HEADER_SIZE. change (2 * 8 + 0) with 16.
  rewrite (u64_small (blk + 16)), (u64_small (p - (blk + 16))),
    (u64_small (n + (p - (blk + 16)))) by (unfold blk in *; lia).
  destruct (Z.ltb_spec (p - (blk + 16)) ps); [|lia]. apply wp_bind.
  change (_Heap_Free_list_head hp) with (dpred hp []).
  eapply (split_spec hp c HP m t l1 sz true l2 [] fl); [by apply open_used|done|lia|lia|exact Ha|done|done|].
  cbv zeta. intros m' t' fl' Hlay' Hfr' Ha'. apply wp_ret, wp_bind, set_stats_spec, wp_ret.
  eapply HQ; [exact Hlay'|exact Hfr'|]. by apply acct_min.
Qed.

(** A free successor is merged into the used block. *)
Lemma merge_next_spec m t l1 sz b l3 fl Q :
  let blk := first + sizes l1 in
  layout m (l1 ++ Blk sz true :: Blk b false :: l3) fl ->
  (forall m' fl', layout m' (l1 ++ Blk (sz + b) true :: l3) fl' ->
    uframe (l1 ++ Blk (sz + b) true :: l3) m m' ->
    wp (set_stats (fun t => set_free_blocks (free_blocks t -. 1) t);;
        set_stats (fun t => set_free_size (free_size t -! b) t)) Q (St m' t)) ->
  wp (_Heap_Block_set_size blk (sz + b);; _Heap_Free_list_remove (blk + sz);;
      set_prev_used (blk + sz + b);;
      set_stats (fun t => set_free_blocks (free_blocks t -. 1) t);;
      set_stats (fun t => set_free_size (free_size t -! b) t)) Q (St m t).
Proof.
  intros blk Hlay HQ. pose proof (mbs_min hp c HP).
  destruct (case_facts hp c HP _ m l1 sz _ fl Hlay)
    as (Hg & Hall & Hp & Hl & Hm & Hs & _ & ? & ? & ? & He & Hsum & ? & ?). fold blk in Hsum.
  destruct (next_facts hp c HP _ m l1 sz _ fl Hlay b l3 eq_refl)
    as (Hu & Ht3 & Hb & Hbe & Hbs & fl1 & fl2 & Efl & Hp3). fold blk in Ht3, Efl.
  pose proof (layout_block hp c HP _ _ _ _ _ _ Hlay) as (Hbh & _). cbn [bsize] in Hbh. fold blk in Hbh.
  destruct (join_good hp c HP l1 [Blk sz true; Blk b false] l3 true) as [Hg' Hall']; [done..|].
  cbn [sizes bsize] in Hg', Hall'. rewrite Z.add_0_r in Hg', Hall'.
  assert (Hp' : fl1 ++ fl2 ≡ₚ free_addrs first (l1 ++ Blk (sz + b) true :: l3)).
  { rewrite Hp3, !free_addrs_app. cbn. by rewrite Z.add_assoc. }
  set (bs' := l1 ++ Blk (sz + b) true :: l3) in *.
  assert (T1 : tag first bs' (blk + SIZE_AND_FLAG)) by apply tag_mid.
  apply wp_bind. eapply (block_set_size_spec c); [exact Hbh|done|by rewrite Z.even_add, He, Hbe|].
  set (m1 := <[blk + SIZE_AND_FLAG := sz + b + flag (lastu true l1)]> m).
  assert (Hl1 : fdlist m1 hp (fl1 ++ blk + sz :: fl2) hp).
  { unfold m1. rewrite <- Efl. apply fdlist_insert; [|done]. intros x Hx.
    apply (tag_not_links HP Hg Hall Hp Hx). left. apply tag_mid. }
  apply wp_bind, (free_list_remove_spec hp _ fl1 (blk + sz) fl2).
  { rewrite <- Efl. by apply (free_dsep HP Hg Hall). }
  { exact Hl1. }
  intros m2 Hl2 Hc. cbn [set_mem state_HasMem hmem ctl] in *.
  assert (Hkeep : forall k, tag first bs' k \/ k = last + SIZE_AND_FLAG -> m2 !! k = m1 !! k)
    by (intros k Hk; by apply (tag_keep HP Hg' Hall' Hp')).
  assert (Hopen : open_layout m2 l1 (sz + b) false l3 (fl1 ++ fl2)).
  { split_and!; try done.
    - eapply seg_ext; [intros k Hk; apply Hkeep; left; unfold bs'; rewrite tag_app; by left|].
      by apply (seg_insert_out ps mbs); [lia|apply good_app in Hg as [? _]|unfold SIZE_AND_FLAG; lia|].
    - rewrite Hkeep by auto. unfold m1. by rewrite lookup_insert_eq.
    - rewrite Z.add_assoc. eapply tail_ext; [|eapply (tail_insert_out hp ps mbs first first last HP _ _ false l3
        (blk + SIZE_AND_FLAG)); [|unfold SIZE_AND_FLAG; lia|exact Ht3]].
      + intros k Hk. apply Hkeep. destruct Hk as [Hk|]; [left|by right]. unfold bs'.
        rewrite tag_app. cbn. rewrite Z.add_assoc. auto.
      + by apply good_app in Hg' as [_ [_ ?]%Forall_cons].
    - eapply mapped_changes; [exact Hc|]. by apply mapped_insert. }
  destruct (close_layout hp c HP _ _ _ _ _ _ Hopen) as [Hlay3 Hfr3]. rewrite Z.add_assoc in Hlay3, Hfr3.
  apply wp_bind. apply (set_prev_used_spec c _ (head_size first last l3) false).
  - apply tail_header. replace (blk + sz + b) with (first + sizes l1 + (sz + b)) by (unfold blk; lia).
    apply Hopen.
  - apply (head_size_ok hp ps mbs first first last HP); [by eapply first_mod8|by apply good_app in Hg' as [_ [_ ?]%Forall_cons]|].
    cbn in Hsum. lia.
  - eapply HQ; [exact Hlay3|]. intros k Hk. etransitivity; [exact (Hfr3 k Hk)|].
    assert (Hfr2 : uframe bs' m m2); [|by apply Hfr2].
    eapply (uframe_links hp c HP); [done|done|exact Hp'|exact Hc|].
    by apply (uframe_insert hp c HP); [done|done|by left|].
Qed.
(** The blocks and the statistics after a successful resize. *)
Definition resized (l1 : list block) (sz : Z) (l2 : list block) (n off : Z) : list block :=
  let '(b, l3) := merge_right l2 in l1 ++ split_blocks c (n + off) (sz + b) ++ l3.

Lemma stats_resized t l1 sz l2 b l3 n off mf : merge_right l2 = (b, l3) ->
  let bs := l1 ++ Blk sz true :: l2 in let new := split_blocks c (n + off) (sz + b) in
  good new -> sizes new = sz + b -> count_of true new = 1 ->
  (let fs' := sizes_of false bs - b + sizes_of false new in
   acct t fs' (count_of false (l1 ++ Blk sz true :: l3) + count_of false new)
     (count_of true bs - gap_count g) (sizes bs - gap_size g) (Z.min fs' mf)) ->
  stats_inv t (resized l1 sz l2 n off).
Proof.
  intros Hmr bs new Hg Hs Hc Ha. pose proof (merge_right_sums l2) as Hr. rewrite Hmr in Hr.
  unfold resized. rewrite Hmr. fold new. eexists. split.
  - replace (sizes_of false (l1 ++ new ++ l3)) with (sizes_of false bs - b + sizes_of false new).
    2: { unfold bs. rewrite !sizes_of_app, sizes_of_cons. cbn [Bool.eqb bused]. lia. }
    replace (count_of false (l1 ++ new ++ l3))
      with (count_of false (l1 ++ Blk sz true :: l3) + count_of false new).
    2: { rewrite !count_of_app, count_of_cons. cbn [Bool.eqb bused]. lia. }
    replace (count_of true (l1 ++ new ++ l3)) with (count_of true bs).
    2: { unfold bs. rewrite !count_of_app, count_of_cons, Hc. cbn [Bool.eqb bused]. lia. }
    replace (sizes (l1 ++ new ++ l3)) with (sizes bs); [exact Ha|].
    unfold bs. rewrite !sizes_app, Hs. cbn [sizes bsize]. lia.
  - unfold bs. rewrite !sizes_of_app, sizes_of_cons. cbn [Bool.eqb bused]. lia.
Qed.

(** What [_Heap_Resize_block_checked] does once the free successor, if any,
    was merged. *)
Lemma resize_tail_spec m t l1 sz l3 fl p n fs nf nu tot mf (old : Z) Q :
  let blk := first + sizes l1 in
  layout m (l1 ++ Blk sz true :: l3) fl -> head_used l3 -> 0 <= n ->
  blk + 16 <= p < blk + 16 + ps -> p + n <= blk + sz + 8 ->
  acct t fs nf nu tot mf -> 0 <= fs -> fs + sz < 2 ^ 64 ->
  (forall m' t' fl' x rest, let new := split_blocks c (n + (p - (blk + 16))) sz in
    new = Blk x true :: rest -> p + n <= blk + x + 8 -> good new -> sizes new = sz ->
    count_of true new = 1 ->
    layout m' (l1 ++ new ++ l3) fl' -> uframe (l1 ++ new ++ l3) m m' ->
    acct t' (fs + sizes_of false new) (nf + count_of false new) nu tot
      (Z.min (fs + sizes_of false new) mf) ->
    Q (HEAP_RESIZE_SUCCESSFUL, old, blk + x + 8 - p) (St m' t')) ->
  wp (block ← _Heap_Block_allocate hp blk p n;
      block_size ← _Heap_Block_size block;
      let next_block := _Heap_Block_at block block_size in
      let new_size := next_block -! p +! HEAP_ALLOC_BONUS in
      set_stats (fun t => set_resizes (resizes t +. 1) t);;
      mret (HEAP_RESIZE_SUCCESSFUL, old, new_size)) Q (St m t).
Proof.
  intros blk Hlay Hu Hn Hp Hend Ha Hfs Hfsz HQ. pose proof (mbs_min hp c HP).
  destruct (case_facts hp c HP _ m l1 sz l3 fl Hlay)
    as (_ & _ & _ & _ & _ & _ & _ & ? & ? & ? & _ & Hsum & ? & ?). fold blk in Hsum.
  pose proof (layout_block hp c HP _ _ _ _ _ _ Hlay) as (_ & _ & _ & _ & _ & Hmod & _). cbn [bsize] in Hmod.
  destruct (split_blocks_good hp c HP (n + (p - (blk + 16))) sz)
    as (Hgn & Hsn & x & rest & En & Hx & Hrest); [lia|lia|done|lia|unfold blk in *; lia|].
  apply wp_bind. eapply block_allocate_used_spec; [exact Hlay|done|done|exact Hp|exact Hend|exact Ha|done|done|].
  cbv zeta. fold blk. intros m' t' fl' Hlay' Hfr Ha'. pose proof Hlay' as Hl. rewrite En in Hl.
  apply (layout_block hp c HP) in Hl as (Hb & He & ? & _ & ? & _ & ?). cbn [bsize] in *.
  apply wp_bind. eapply block_size_spec; [exact Hb|done|unfold blk in *; lia|].
  apply wp_bind, set_stats_spec, wp_ret. unfold _Heap_Block_at, HEAP_ALLOC_BONUS.
  rewrite (u64_small (blk + x)) by (unfold blk in *; lia).
  replace (blk + x -! p +! 8) with (blk + x + 8 - p).
  2: { unfold u64. rewrite Zplus_mod_idemp_l. rewrite Z.mod_small; unfold blk in *; lia. }
  eapply HQ; [exact En|lia|done|done| |exact Hlay'|exact Hfr|].
  - rewrite En, count_of_cons. cbn [Bool.eqb bused].
    destruct Hrest as [->|[y ->]]; rewrite ?count_of_cons; done.
  - by refine (acct_other _ _ _ _ _ _ _ (fun t => set_resizes (resizes t +. 1) t) _); [|intros []].
Qed.
Lemma resize_spec m t l1 sz l2 fl p n Q :
  let blk := first + sizes l1 in let bs := l1 ++ Blk sz true :: l2 in
  let old := blk + sz + 8 - p in
  layout m bs fl -> stats_inv t bs -> 0 <= n < 2 ^ 64 ->
  blk + 16 <= p < blk + 16 + ps -> p <= blk + sz + 8 ->
  (old + (merge_right l2).1 < n -> Q (HEAP_RESIZE_UNSATISFIED, old, 0) (St m t)) ->
  (forall m' t' fl' x rest, let bs' := resized l1 sz l2 n (p - (blk + 16)) in let new := blk + x + 8 - p in
    n <= old + (merge_right l2).1 -> bs' = l1 ++ Blk x true :: rest -> n <= new -> layout m' bs' fl' -> stats_inv t' bs' ->
    uframe bs' m m' -> Q (HEAP_RESIZE_SUCCESSFUL, old, new) (St m' t')) ->
  wp (_Heap_Resize_block hp p n) Q (St m t).
Proof.
  intros blk bs old Hlay (mf & Ha & Hmf) Hn Hp Hpe Hno Hyes.
  pose proof (mbs_min hp c HP). pose proof (ps_pos hp c HP). pose proof (ps_le_mbs hp c HP).
  destruct (case_facts hp c HP _ m l1 sz l2 fl Hlay)
    as (Hg & Hall & _ & _ & _ & Hs & Ht & ? & ? & ? & He & Hsum & ? & ?). fold blk in Ht, Hsum.
  pose proof (layout_block hp c HP _ _ _ _ _ _ Hlay) as (Hb & _ & _ & _ & _ & Hmod & _).
  cbn [bsize] in Hb, Hmod. assert (Hblk : first <= blk) by (unfold blk; lia).
  destruct (first_header hp c HP m l1 sz Hs) as (y & Hy & Hye);
    [by apply good_app in Hg as [? _]|done|exact Hb|]. fold blk in Hb.
  pose proof Hg as Hg0. apply good_app in Hg0 as [Hg1 Hg2]. apply good_cons in Hg2 as [_ Hg2].
  pose proof (free_sizes_bound hp c HP l1 Hg1) as Hf1. pose proof (free_sizes_bound hp c HP l2 Hg2) as Hf2.
  assert (Hfs : sizes_of false bs = sizes_of false l1 + sizes_of false l2)
    by (unfold bs; rewrite sizes_of_app, sizes_of_cons; cbn [Bool.eqb bused]; lia).
  destruct (head_size_ok hp ps mbs first first last HP l2 (first_mod8 hp c HP) Hg2) as [Hhe Hhr]; [lia|].
  apply wp_bind, wp_gets. cbv zeta. change (page_size (ctl (St m t))) with ps.
  rewrite (block_of_alloc_area_spec c blk p) by (lia || by apply (block_page_mod hp c HP)).
  apply wp_bind, in_heap_true; [lia|]. apply wp_bind.
  eapply block_size_spec; [exact Hb|done|lia|]. cbv zeta. unfold _Heap_Block_at.
  rewrite (u64_small (blk + sz)) by lia. apply wp_bind.
  eapply block_size_spec; [by eapply tail_header|done|done|].
  apply wp_bind, wp_bind. eapply (tail_is_used_spec hp c HP); [exact Ht|exact Hg2|lia|exact Hy|done|].
  apply wp_ret. unfold HEAP_ALLOC_BONUS.
  replace (blk + sz -! p +! 8) with old.
  2: { unfold old, u64. rewrite Zplus_mod_idemp_l. rewrite Z.mod_small; lia. }
  assert (Huse : head_used l2 -> merge_right l2 = (0, l2) /\
    negb match l2 with [] => true | b :: _ => bused b end = false).
  { destruct l2 as [|x l2']; [done|]. cbn. by intros ->. }
  assert (Hdec : head_used l2 \/ exists b l3, l2 = Blk b false :: l3).
  { destruct l2 as [|[x [|]] l2']; cbn; eauto. }
  destruct Hdec as [Hu|(b & l3 & El)].
  - destruct (Huse Hu) as [Hmr ->]. rewrite Hmr in Hno, Hyes. cbn [fst] in Hno, Hyes.
    destruct (Z.ltb_spec old n); [apply wp_ret, Hno; lia|]. apply wp_bind, wp_ret.
    eapply resize_tail_spec; [exact Hlay|done|lia|exact Hp|unfold old in *; lia|exact Ha|lia|lia|].
    cbv zeta. fold blk. intros m' t' fl' x rest En Hx Hgn Hsn Hcn Hlay' Hfr Ha'.
    assert (Er : resized l1 sz l2 n (p - (blk + 16)) = l1 ++ split_blocks c (n + (p - (blk + 16))) sz ++ l2)
      by (unfold resized; by rewrite Hmr, Z.add_0_r).
    eapply Hyes; [lia|by rewrite Er, En|lia|by rewrite Er| |by rewrite Er].
    eapply stats_resized; [exact Hmr|by rewrite Z.add_0_r|by rewrite Z.add_0_r|by rewrite Z.add_0_r|].
    rewrite Z.add_0_r, Z.sub_0_r. exact Ha'.
  - assert (Hmr : merge_right l2 = (b, l3)) by by rewrite El.
    rewrite Hmr in Hno, Hyes. cbn [fst] in Hno, Hyes. rewrite El. cbn [negb bused head_size bsize].
    destruct (next_facts hp c HP _ m l1 sz l2 fl Hlay b l3 El) as (Hu & _ & Hbm & _ & Hbs & _).
    rewrite (u64_small (sz + b)), (u64_small (old + b)) by (unfold old; lia).
    destruct (Z.ltb_spec (old + b) n); [apply wp_ret, Hno; lia|]. apply wp_bind.
    rewrite (u64_small (blk + (sz + b))) by lia. rewrite (Z.add_assoc blk sz b).
    assert (Hlay2 : layout m (l1 ++ Blk sz true :: Blk b false :: l3) fl) by by rewrite <- El.
    eapply (merge_next_spec m t l1 sz b l3 fl _ Hlay2). intros m1 fl1 Hlay1 Hfr1.
    apply wp_bind, set_stats_spec, set_stats_spec.
    pose proof (layout_block hp c HP _ _ _ _ _ _ Hlay1) as (_ & _ & _ & _ & ? & _ & Hsum1). cbn [bsize] in Hsum1.
    assert (Hf3 : sizes_of false l2 = b + sizes_of false l3)
      by (rewrite El, sizes_of_cons; cbn [Bool.eqb bused bsize]; lia).
    rewrite El in Hg2. apply good_cons in Hg2 as [_ Hg3].
    pose proof (free_sizes_bound hp c HP l3 Hg3).
    eapply resize_tail_spec; [exact Hlay1|done|lia|exact Hp|unfold old in *; lia| |..].
    { apply acct_free_sub; [apply acct_nfree_sub; exact Ha|lia]. }
    { lia. } { lia. }
    cbv zeta. fold blk. intros m' t' fl' x rest En Hx Hgn Hsn Hcn Hlay' Hfr Ha'.
    assert (Er : resized l1 sz l2 n (p - (blk + 16))
      = l1 ++ split_blocks c (n + (p - (blk + 16))) (sz + b) ++ l3) by (unfold resized; by rewrite Hmr).
    eapply Hyes; [lia|by rewrite Er, En|lia|by rewrite Er| |].
    + eapply stats_resized; [exact Hmr|done|done|done|].
      replace (count_of false (l1 ++ Blk sz true :: l3)) with (count_of false bs - 1); [exact Ha'|].
      unfold bs. rewrite El, !count_of_app, !count_of_cons. cbn [Bool.eqb bused]. lia.
    + rewrite Er. intros k Hk. rewrite (Hfr k Hk). apply Hfr1.
      destruct Hk as [Hk|Hk]; [left|by right].
      eapply (user_word_split hp c HP); [| | |exact Hk]; lia.
Qed.
End resize.

(** The successor of a block has a size. *)
Lemma merge_right_nonneg hp g s l1 sz l2 fl : heap_inv hp g s (l1 ++ Blk sz true :: l2) fl -> 0 <= (merge_right l2).1.
Proof.
  intros (HP & (Hg & _) & _). pose proof (mbs_min hp _ HP). apply good_app in Hg as [_ Hg]. apply good_cons in Hg as [_ Hg].
  destruct l2 as [|[x [|]] l2]; cbn; [lia|lia|]. apply good_cons in Hg as [[_ Hx] _]. cbn in *. lia.
Qed.

(** C21. Resizing an allocated area in place either reports that it does not
    fit, exactly when the request exceeds the room up to the end of the next
    used block, and changes nothing, or succeeds with an area of at least
    the requested size.  The reported old size is that of the area before,
    from its begin to the end of its block, bonus included, the reported new
    size is that of the area afterwards.  The heap is consistent again, a free successor was
    merged and the rest split off, and no word of any area that is allocated
    afterwards, the resized one included, or outside of the heap has changed. *)
Theorem heap_resize_correct hp g s l1 sz l2 fl p n :
  let blk := first_block (ctl s) + sizes l1 in
  heap_inv hp g s (l1 ++ Blk sz true :: l2) fl -> 0 <= n < 2 ^ 64 ->
  blk + 16 <= p < blk + 16 + page_size (ctl s) -> p <= blk + sz + 8 ->
  wp (_Heap_Resize_block hp p n)
     (fun '(status, old, new) s' => old = blk + sz + 8 - p /\
        (status = HEAP_RESIZE_UNSATISFIED /\ old + (merge_right l2).1 < n /\ new = 0 /\ s' = s \/
         status = HEAP_RESIZE_SUCCESSFUL /\ n <= old + (merge_right l2).1 /\ n <= new /\
         exists fl' x rest, let bs' := resized (ctl s) l1 sz l2 n (p - (blk + 16)) in
           bs' = l1 ++ Blk x true :: rest /\ new = blk + x + 8 - p /\ heap_inv hp g s' bs' fl' /\
           forall k, kept hp (first_block (ctl s)) (last_block (ctl s)) bs' k ->
             hmem s' !! k = hmem s !! k)) s.
Proof.
  intros blk (HP & Hlay & Hst) Hn Hp Hpe. apply wp_eta.
  apply (resize_spec hp (ctl s) HP g (hmem s) (stats (ctl s)) l1 sz l2 fl p n); try done.
  - intros Hno. split; [done|]. left. split_and!; [done|done|done|]. symmetry. apply state_eta.
  - intros m' t' fl' x rest bs' new Hle Ebs Hnew Hlay' Hst' Hfr. split; [done|]. right.
    split_and!; [done|done|done|]. by exists fl', x, rest.
Qed.

Lemma heap_resize_correct_witness : exists s l1 sz l2 fl p,
  heap_inv 512 no_gaps s (l1 ++ Blk sz true :: l2) fl /\
  wp (_Heap_Resize_block 512 p 40)
     (fun '(status, old, new) s' => status = HEAP_RESIZE_SUCCESSFUL /\ 40 <= new /\ exists x rest,
        resized (ctl s) l1 sz l2 40 (p - (first_block (ctl s) + sizes l1 + 16)) = l1 ++ Blk x true :: rest /\
        new = first_block (ctl s) + sizes l1 + x + 8 - p) s.
Proof.
  destruct sample_allocated as (s & l1 & sz & l2 & fl & p & Hinv & Hp & Hroom).
  exists s, l1, sz, l2, fl, p. split; [exact Hinv|].
  eapply wp_mono; [apply (heap_resize_correct 512 no_gaps s l1 sz l2 fl p 40 Hinv); [lia|exact Hp|lia]|].
  intros [[status old] new] s' [Eold [(_ & Hlt & _)|(-> & _ & Hnew & fl' & x & rest & Hbs & Hx & _)]].
  - exfalso. pose proof (merge_right_nonneg _ _ _ _ _ _ _ Hinv). lia.
  - split; [reflexivity|]. split; [exact Hnew|]. exists x, rest. exact (conj Hbs Hx).
Defined.

End HeapResize.
