(* ===== verification/HeapWalk.v ===== *)
(** The consistency check of the heap (score/heapwalk.c): a model of
    [_Heap_Walk] and the proof that it accepts every heap that satisfies the
    invariant.  The printers write messages only and are left out; the
    arguments they evaluate are kept. *)

From S2P Require Import Prelude DList Heap HeapInv HeapAlloc HeapInit HeapFree HeapCorrect.
Import Heap HeapInv HeapAlloc HeapInit HeapFree HeapCorrect.
Open Scope width_scope.

Module HeapWalk.

(** * Operations *)

Definition _Addresses_Is_aligned (address : Z) : bool := address mod CPU_ALIGNMENT =? 0.

Definition _Heap_Walk_check_free_list (heap : Z) : M state bool :=
  page_size ← get page_size;
  let free_list_tail := _Heap_Free_list_tail heap in
  first_free_block ← _Heap_Free_list_first heap;
  whileM (fun '(prev_block, free_block) =>
    if free_block =? free_list_tail then mret (inr true) else
    in_heap ← _Heap_Is_block_in_heap free_block;
    if negb in_heap then mret (inr false) else
    if negb (_Heap_Is_aligned (_Heap_Alloc_area_of_block free_block) page_size)
    then mret (inr false) else
    used ← _Heap_Is_used free_block;
    if (used : bool) then mret (inr false) else
    p ← prev free_block;
    if negb (p =? prev_block) then mret (inr false) else
    n ← next free_block;
    mret (inl (free_block, n))) (free_list_tail, first_free_block).

Definition _Heap_Walk_is_in_free_list (heap block : Z) : M state bool :=
  let free_list_tail := _Heap_Free_list_tail heap in
  first ← _Heap_Free_list_first heap;
  whileM (fun free_block =>
    if free_block =? free_list_tail then mret (inr false) else
    if free_block =? block then mret (inr true) else
    n ← next free_block;
    mret (inl n)) first.

Definition _Heap_Walk_check_control (heap : Z) : M state bool :=
  page_size ← get page_size;
  min_block_size ← get min_block_size;
  _ ← _Heap_Free_list_first heap;
  _ ← _Heap_Free_list_last heap;
  first_block ← get first_block;
  last_block ← get last_block;
  if page_size =? 0 then mret false else
  if negb (_Addresses_Is_aligned page_size) then mret false else
  if negb (_Heap_Is_aligned min_block_size page_size) then mret false else
  if negb (_Heap_Is_aligned (_Heap_Alloc_area_of_block first_block) page_size)
  then mret false else
  pu ← _Heap_Is_prev_used first_block;
  if negb pu then mret false else
  last_free ← _Heap_Is_free last_block;
  if (last_free : bool) then mret false else
  last_size ← _Heap_Block_size last_block;
  if negb (_Heap_Block_at last_block last_size =? first_block) then mret false else
  _Heap_Walk_check_free_list heap.

Definition _Heap_Walk_check_free_block (heap block : Z) : M state bool :=
  _ ← _Heap_Free_list_first heap;
  _ ← _Heap_Free_list_last heap;
  prev_used ← _Heap_Is_prev_used block;
  block_size ← _Heap_Block_size block;
  let next_block := _Heap_Block_at block block_size in
  _ ← prev block;
  _ ← next block;
  next_prev_size ← prev_size next_block;
  if negb (block_size =? next_prev_size) then mret false else
  if negb prev_used then mret false else
  in_list ← _Heap_Walk_is_in_free_list heap block;
  if negb in_list then mret false else
  mret true.

(** [system_up] is [_System_state_Is_up( _System_state_Get() )]. *)
Definition _Heap_Walk (system_up : bool) (heap : Z) : M state bool :=
  page_size ← get page_size;
  min_block_size ← get min_block_size;
  first_block ← get first_block;
  last_block ← get last_block;
  if negb system_up then mret true else
  control_ok ← _Heap_Walk_check_control heap;
  if negb control_ok then mret false else
  whileM (fun block =>
    let block_begin := block in
    block_size ← _Heap_Block_size block;
    prev_used ← _Heap_Is_prev_used block;
    let next_block := _Heap_Block_at block block_size in
    let next_block_begin := next_block in
    let is_not_last_block := negb (block =? last_block) in
    in_heap ← _Heap_Is_block_in_heap next_block;
    if negb in_heap then mret (inr false) else
    if negb (_Heap_Is_aligned block_size page_size) && is_not_last_block
    then mret (inr false) else
    if (block_size <? min_block_size) && is_not_last_block then mret (inr false) else
    if (next_block_begin <=? block_begin) && is_not_last_block then mret (inr false) else
    next_prev_used ← _Heap_Is_prev_used next_block;
    ok ← (if negb next_prev_used then _Heap_Walk_check_free_block heap block
          else if (prev_used : bool) then mret true
          else _ ← prev_size block; mret true);
    if negb ok then mret (inr false) else
    if negb (next_block =? first_block) then mret (inl next_block)
    else mret (inr true)) first_block.

(** * The check accepts every consistent heap *)

Section walk.
Context (hp : Z) (c : Heap_Control) (HP : ctl_params hp c).
Context (m : mem) (t : Heap_Statistics) (bs : list block) (fl : list Z).
Context (Hlay : ctl_layout hp c m bs fl).
Abbreviation first := (first_block c).
Abbreviation last := (last_block c).
Abbreviation s := {| hmem := m; ctl := with_stats c t |}.

Lemma walk_facts : good (page_size c) (min_block_size c) bs /\ first + sizes bs = last /\
  dsep NEXT PREV hp fl hp /\ Z.of_nat (length fl) < 2 ^ 64.
Proof.
  pose proof Hlay as (Hg & Ht & Hp & Hl & _). pose proof (bounds hp c HP).
  assert (Hall : first + sizes bs = last) by apply Ht.
  split_and!; [done|done|by apply (free_dsep HP Hg Hall)|].
  rewrite Hp. pose proof (free_addrs_length hp c HP first bs Hg). lia.
Qed.

Lemma not_head f1 x f2 : fl = f1 ++ x :: f2 -> (x =? hp) = false.
Proof.
  intros E. destruct walk_facts as (_ & _ & [Hs _] & _). apply Z.eqb_neq. intros ->.
  apply NoDup_cons in Hs as [Hs _]. set_solver.
Qed.

Lemma is_in_free_list_true x Q : x ∈ fl -> Q true s -> wp (_Heap_Walk_is_in_free_list hp x) Q s.
Proof.
  intros Hx HQ. destruct walk_facts as (_ & _ & _ & Hlen). pose proof Hlay as (_ & _ & _ & Hl & _).
  apply wp_bind. eapply wp_load; [exact (dlist_first _ _ _ _ _ _ Hl)|].
  apply (wp_whileM _ (fun k y s' => s' = s /\ exists f1 f2, fl = f1 ++ f2 /\ x ∈ f2 /\
    y = dsucc f2 hp /\ k = Z.of_nat (length f2))) with (k := Z.of_nat (length fl));
    [|split; [done|]; by exists [], fl|done].
  intros k y s' (-> & f1 & [|z f2] & E & Hin & -> & ->); [set_solver|].
  rewrite dsucc_cons. unfold _Heap_Free_list_tail. rewrite (not_head _ _ _ E).
  destruct (Z.eqb_spec z x) as [->|Hne]; [by apply wp_ret|].
  rewrite E in Hl. apply dlist_split in Hl as (_ & _ & _ & [Hn _]).
  apply wp_bind. eapply wp_load; [exact Hn|]. apply wp_ret.
  exists (Z.of_nat (length f2)). cbn [length]. split; [lia|]. split; [done|].
  exists (f1 ++ [z]), f2. rewrite <- app_assoc. split_and!; try done. set_solver.
Qed.

(** The tag of the first block. *)
Lemma walk_first_header : exists y, m !! (first + SIZE_AND_FLAG) = Some (y + flag true) /\
  Z.even y = true.
Proof.
  pose proof Hlay as (Hg & Ht & _). pose proof (bounds hp c HP). pose proof (mbs_min hp c HP).
  destruct bs as [|b bs']; [destruct Ht as (_ & Ht & _); cbn in Ht; lia|].
  apply good_cons in Hg as [[Hmod _] _]. destruct Ht as ((Hb & _) & _).
  exists (bsize b). split; [done|by eapply mult_even].
Qed.

Lemma in_heap_last a Q : first <= a <= last -> Q true s -> wp (_Heap_Is_block_in_heap a) Q s.
Proof. apply in_heap_true. Qed.

Lemma free_block_at x : x ∈ fl -> exists l1 sz l2, bs = l1 ++ Blk sz false :: l2 /\
  x = first + sizes l1.
Proof.
  pose proof Hlay as (_ & _ & Hp & _). rewrite Hp. apply (free_addr_split hp c HP).
Qed.

Lemma block_aligned l1 l2 : bs = l1 ++ l2 ->
  _Heap_Is_aligned (_Heap_Alloc_area_of_block (first + sizes l1)) (page_size c) = true.
Proof.
  intros E. destruct walk_facts as (Hg & Hall & _). pose proof (bounds hp c HP). pose proof (mbs_min hp c HP).
  rewrite E in Hg, Hall. rewrite sizes_app in Hall. apply good_app in Hg as [Hg1 Hg2].
  pose proof (good_nonneg hp c HP l1 Hg1). pose proof (good_nonneg hp c HP l2 Hg2).
  unfold _Heap_Is_aligned, _Heap_Alloc_area_of_block, HEAP_BLOCK_HEADER_SIZE.
  change (2 * 8 + 0) with 16. rewrite u64_small by lia. by apply Z.eqb_eq, (block_page_mod hp c HP).
Qed.

Lemma check_free_list_true Q : Q true s -> wp (_Heap_Walk_check_free_list hp) Q s.
Proof.
  intros HQ. destruct walk_facts as (Hg & Hall & _ & Hlen). pose proof Hlay as (_ & Ht & _ & Hl & _).
  apply wp_bind, wp_gets, wp_bind. eapply wp_load; [exact (dlist_first _ _ _ _ _ _ Hl)|].
  apply (wp_whileM _ (fun k '(p, y) s' => s' = s /\ exists f1 f2, fl = f1 ++ f2 /\
    p = dpred hp f1 /\ y = dsucc f2 hp /\ k = Z.of_nat (length f2))) with (k := Z.of_nat (length fl));
    [|split; [done|]; by exists [], fl|done].
  intros k [p y] s' (-> & f1 & [|x f2] & E & -> & -> & ->); unfold _Heap_Free_list_tail.
  { rewrite dsucc_nil, Z.eqb_refl. by apply wp_ret. }
  rewrite dsucc_cons, (not_head _ _ _ E).
  destruct (free_block_at x) as (l1 & sz & l2 & Ebs & ->); [rewrite E; set_solver|].
  pose proof Hlay as Hlay'. rewrite Ebs in Hlay'.
  pose proof (layout_block hp c HP _ _ _ _ _ _ Hlay') as (_ & _ & ? & ? & ? & _ & Hsum). cbn [bsize] in *.
  pose proof (bounds hp c HP). pose proof (mbs_min hp c HP).
  apply wp_bind, in_heap_last; [lia|]. cbn [negb].
  change (page_size (ctl s)) with (page_size c). rewrite (block_aligned l1 _ Ebs). cbn [negb].
  destruct walk_first_header as (y & Hy & Hye). rewrite Ebs in Ht. apply tail_app in Ht as [_ Ht].
  rewrite Ebs in Hg. apply good_app in Hg as [_ Hg].
  apply wp_bind. eapply (tail_is_used_spec hp c HP); [exact Ht|exact Hg|lia|exact Hy|done|].
  cbn [bused]. rewrite E in Hl. apply dlist_split in Hl as (_ & _ & [_ Hpv] & [Hn _]).
  apply wp_bind. eapply wp_load; [exact Hpv|]. rewrite Z.eqb_refl. cbn [negb].
  apply wp_bind. eapply wp_load; [exact Hn|]. apply wp_ret.
  exists (Z.of_nat (length f2)). cbn [length]. split; [lia|]. split; [done|].
  exists (f1 ++ [first + sizes l1]), f2. rewrite <- app_assoc, dpred_snoc. by split_and!.
Qed.

Lemma last_facts : m !! (last + SIZE_AND_FLAG) = Some (u64 (first - last) + flag (lastu true bs)) /\
  Z.even (u64 (first - last)) = true /\ u64 (last + u64 (first - last)) = first.
Proof.
  pose proof Hlay as (_ & (_ & _ & He) & _). pose proof (bounds hp c HP) as (? & ? & ?).
  pose proof (mbs_min hp c HP). split_and!; [done| |].
  - by apply (head_size_ok hp _ _ first first last HP []); [by eapply first_mod8|constructor|cbn; lia].
  - unfold u64. rewrite Zplus_mod_idemp_r. replace (last + (first - last)) with first by lia.
    rewrite Z.mod_small; lia.
Qed.

Lemma check_control_true Q : Q true s -> wp (_Heap_Walk_check_control hp) Q s.
Proof.
  intros HQ. pose proof HP as [[Hps Hps8] [Hmb Hmbm] [Hf0 _] [? [? _]] _].
  pose proof Hlay as (Hg & Ht & _ & Hl & _).
  destruct walk_first_header as (y & Hy & Hye). destruct last_facts as (Hla & Hle & Hln).
  do 2 apply wp_bind, wp_gets. apply wp_bind. eapply wp_load; [exact (dlist_first _ _ _ _ _ _ Hl)|].
  apply wp_bind. eapply wp_load; [exact (dlist_last _ _ _ _ _ _ Hl)|].
  do 2 apply wp_bind, wp_gets. change (ctl s) with (with_stats c t).
  cbn [page_size min_block_size first_block last_block with_stats].
  destruct (Z.eqb_spec (page_size c) 0); [lia|]. unfold _Addresses_Is_aligned, CPU_ALIGNMENT.
  rewrite Hps8, Z.eqb_refl. cbn [negb]. unfold _Heap_Is_aligned at 1. rewrite Hmbm, Z.eqb_refl. cbn [negb].
  pose proof (block_aligned [] bs eq_refl) as Ha. cbn [sizes] in Ha. rewrite Z.add_0_r in Ha.
  rewrite Ha. cbn [negb]. apply wp_bind. eapply is_prev_used_spec; [exact Hy|done|]. cbn [negb].
  apply wp_bind, wp_bind, wp_bind. eapply block_size_spec; [exact Hla|done|apply u64_range|].
  unfold _Heap_Block_at. rewrite Hln. eapply is_prev_used_spec; [exact Hy|done|]. apply wp_ret.
  cbn [negb]. apply wp_bind. eapply block_size_spec; [exact Hla|done|apply u64_range|].
  rewrite Hln, Z.eqb_refl. cbn [negb]. by apply check_free_list_true.
Qed.

Lemma check_free_block_true l1 sz l2 Q : bs = l1 ++ Blk sz false :: l2 -> Q true s ->
  wp (_Heap_Walk_check_free_block hp (first + sizes l1)) Q s.
Proof.
  intros E HQ. pose proof Hlay as (_ & _ & Hp & Hl & _). pose proof Hlay as Hlay'. rewrite E in Hlay'.
  pose proof (layout_block hp c HP _ _ _ _ _ _ Hlay') as (Hb & He & ? & ? & ? & _ & ?).
  pose proof (layout_free hp c HP _ _ _ _ _ _ Hlay') as (Hlu & _ & _ & Hpv & _ & f1 & f2 & Efl & _).
  cbn [bsize] in *. pose proof (bounds hp c HP). pose proof (mbs_min hp c HP).
  apply wp_bind. eapply wp_load; [exact (dlist_first _ _ _ _ _ _ Hl)|].
  apply wp_bind. eapply wp_load; [exact (dlist_last _ _ _ _ _ _ Hl)|].
  apply wp_bind. eapply is_prev_used_spec; [exact Hb|done|]. apply wp_bind.
  eapply block_size_spec; [exact Hb|done|lia|]. cbv zeta. pose proof Hl as Hl'. rewrite Efl in Hl'.
  apply dlist_split in Hl' as (_ & _ & [_ Hbp] & [Hbn _]).
  apply wp_bind. eapply wp_load; [exact Hbp|]. apply wp_bind. eapply wp_load; [exact Hbn|].
  unfold _Heap_Block_at. rewrite u64_small by lia. apply wp_bind. eapply wp_load; [exact Hpv|].
  rewrite Z.eqb_refl, Hlu. cbn [negb]. apply wp_bind, is_in_free_list_true; [rewrite Efl; set_solver|].
  by apply wp_ret.
Qed.

(** One round of the walk at a block of the heap. *)
Lemma walk_true Q : Q true s -> wp (_Heap_Walk true hp) Q s.
Proof.
  intros HQ. destruct walk_facts as (Hg & Hall & _ & _). pose proof Hlay as (_ & Ht & _).
  pose proof (bounds hp c HP) as (? & ? & ?). pose proof (mbs_min hp c HP).
  destruct last_facts as (Hla & Hle & Hln). destruct walk_first_header as (y & Hy & Hye).
  do 4 apply wp_bind, wp_gets. cbn [negb]. apply wp_bind, check_control_true. cbn [negb].
  change (ctl s) with (with_stats c t).
  cbn [page_size min_block_size first_block last_block with_stats].
  apply (wp_whileM _ (fun k b s' => s' = s /\ exists l1 l2, bs = l1 ++ l2 /\
    b = first + sizes l1 /\ k = sizes l2)) with (k := sizes bs);
    [|split; [done|]; exists [], bs; cbn; split_and!; done || lia|lia].
  intros k b s' (-> & l1 & l2 & E & -> & ->). destruct l2 as [|x l2].
  - rewrite app_nil_r in E. rewrite <- E, Hall. apply wp_bind.
    eapply block_size_spec; [exact Hla|done|apply u64_range|].
    apply wp_bind. eapply is_prev_used_spec; [exact Hla|done|].
    unfold _Heap_Block_at. rewrite Hln, Z.eqb_refl. cbn [negb].
    apply wp_bind, in_heap_last; [lia|]. cbn [negb]. rewrite !andb_false_r.
    apply wp_bind. eapply is_prev_used_spec; [exact Hy|done|]. cbn [negb]. rewrite Z.eqb_refl. cbn [negb].
    apply wp_bind. destruct (lastu true bs) eqn:Hlu; [by apply wp_ret, wp_ret|].
    apply lastu_false_snoc in Hlu as (l0 & a & El). pose proof Hlay as Hlay'. rewrite El in Hlay'.
    apply (layout_free hp c HP) in Hlay' as (_ & _ & _ & Hpv & _).
    rewrite El, sizes_app in Hall. cbn in Hall.
    replace (first + sizes l0 + a) with last in Hpv by lia.
    apply wp_bind. eapply wp_load; [exact Hpv|]. by apply wp_ret, wp_ret.
  - pose proof Hlay as Hlay'. rewrite E in Hlay'.
    pose proof (layout_block hp c HP _ _ _ _ _ _ Hlay') as (Hb & He & ? & ? & ? & Hmod & Hsum).
    rewrite E in Hg, Ht. apply good_app in Hg as [_ Hg]. apply good_cons in Hg as [_ Hg].
    apply tail_app in Ht as [Hs Ht]. apply tail_cons in Ht as (_ & Hfr & Ht).
    destruct (head_size_ok hp _ _ first first last HP l2 (first_mod8 hp c HP) Hg) as [Hhe Hhr]; [lia|].
    apply wp_bind. eapply block_size_spec; [exact Hb|done|lia|].
    apply wp_bind. eapply is_prev_used_spec; [exact Hb|done|]. unfold _Heap_Block_at.
    rewrite u64_small by lia. apply wp_bind, in_heap_last; [lia|]. cbn [negb].
    unfold _Heap_Is_aligned. rewrite Hmod, Z.eqb_refl. cbn [negb andb].
    destruct (Z.ltb_spec (bsize x) (min_block_size c)); [lia|]. cbn [andb].
    destruct (Z.leb_spec (first + sizes l1 + bsize x) (first + sizes l1)); [lia|]. cbn [andb].
    apply wp_bind. eapply is_prev_used_spec; [by eapply tail_header|done|].
    apply wp_bind.
    assert (Hgo : wp (if negb true then mret (inr false) else
        if negb (first + sizes l1 + bsize x =? first) then mret (inl (first + sizes l1 + bsize x))
        else mret (inr true)) (fun r s' => match r with
      | inl a' => exists k', 0 <= k' < sizes (x :: l2) /\ s' = s /\ exists l1 l2,
          bs = l1 ++ l2 /\ a' = first + sizes l1 /\ k' = sizes l2
      | inr r => Q r s' end) s).
    { cbn [negb]. destruct (Z.eqb_spec (first + sizes l1 + bsize x) first); [lia|]. apply wp_ret.
      exists (sizes l2). cbn [sizes]. split; [lia|]. split; [done|]. exists (l1 ++ [x]), l2.
      rewrite <- app_assoc, sizes_app. cbn. split_and!; [done|lia|done]. }
    destruct x as [sz [|]]; cbn [bused bsize negb] in *.
    + destruct (lastu true l1) eqn:Hlu; [by apply wp_ret|].
      apply lastu_false_snoc in Hlu as (l0 & a & El). rewrite El in Hlay'.
      replace ((l0 ++ [Blk a false]) ++ Blk sz true :: l2)
        with (l0 ++ Blk a false :: Blk sz true :: l2) in Hlay' by by rewrite <- app_assoc.
      apply (layout_free hp c HP) in Hlay' as (_ & _ & _ & Hpv & _).
      replace (first + sizes l0 + a) with (first + sizes l1) in Hpv by (rewrite El, sizes_app; cbn; lia).
      apply wp_bind. eapply wp_load; [exact Hpv|]. by apply wp_ret.
    + by apply (check_free_block_true l1 sz l2).
Qed.
End walk.

(** C24. The consistency check of the heap returns true, without fault and
    without changing anything, for every heap that satisfies the invariant,
    and it terminates.  With the theorems on allocation and free, no
    sequence of such calls can make [_Heap_Walk] report corruption. *)
Theorem heap_walk_accepts system_up hp g s bs fl : heap_inv hp g s bs fl ->
  wp (_Heap_Walk system_up hp) (fun r s' => r = true /\ s' = s) s.
Proof.
  intros (HP & Hlay & _). destruct system_up; [|done]. apply wp_eta.
  eapply (walk_true hp (ctl s) HP); [exact Hlay|]. split; [done|]. symmetry. apply state_eta.
Qed.

Lemma heap_walk_accepts_witness :
  wp (_Heap_Walk true 512) (fun r s' => r = true /\ s' = sample_state) sample_state.
Proof.
  exact (heap_walk_accepts true 512 no_gaps sample_state [Blk 2032 false]
    [first_block (ctl sample_state)] sample_inv).
Defined.


End HeapWalk.
