(* ===== verification/HeapExtend.v ===== *)
(** Extending a heap by a further memory area (score/heapextend.c).

    An area that adjoins the heap is merged with it; otherwise the gap
    becomes a block that is permanently used.  The header of the first block
    of every area holds the end of the area, which the code uses to walk over
    the areas. *)

From S2P Require Import Prelude DList Heap HeapInv HeapAlloc HeapInit HeapFree HeapCorrect HeapWalk.
Import Heap HeapInv HeapAlloc HeapInit HeapFree HeapCorrect HeapWalk.
Open Scope width_scope.

Module HeapExtend.

(** * heapextend.c *)

Definition _Heap_Free_block (heap block : Z) : M state unit :=
  (* Statistics *)
  set_stats (fun t => set_used_blocks (used_blocks t +. 1) t);;
  set_stats (fun t => set_frees (frees t -. 1) t);;
  _Heap_Free heap (_Heap_Alloc_area_of_block block);;
  first_free ← _Heap_Free_list_first heap;
  _Heap_Free_list_remove first_free;;
  _Heap_Free_list_insert_before (_Heap_Free_list_tail heap) first_free.

Definition _Heap_Merge_below (heap extend_area_begin first_block : Z) : M state unit :=
  page_size ← get page_size;
  let new_first_block_alloc_begin :=
    _Heap_Align_up (extend_area_begin +! HEAP_BLOCK_HEADER_SIZE) page_size in
  let new_first_block_begin := new_first_block_alloc_begin -! HEAP_BLOCK_HEADER_SIZE in
  let new_first_block_size := first_block -! new_first_block_begin in
  let new_first_block := new_first_block_begin in
  p ← prev_size first_block;
  set_prev_size new_first_block p;;
  set_size_and_flag new_first_block (Z.lor new_first_block_size HEAP_PREV_BLOCK_USED);;
  _Heap_Free_block heap new_first_block.

Definition _Heap_Merge_above (heap last_block extend_area_end : Z) : M state unit :=
  page_size ← get page_size;
  let last_block_new_size :=
    _Heap_Align_down (extend_area_end -! last_block -! HEAP_BLOCK_HEADER_SIZE) page_size in
  let new_last_block := _Heap_Block_at last_block last_block_new_size in
  sf ← size_and_flag last_block;
  set_size_and_flag new_last_block (Z.lor (sf -! last_block_new_size) HEAP_PREV_BLOCK_USED);;
  _Heap_Block_set_size last_block last_block_new_size;;
  _Heap_Free_block heap last_block.

Definition _Heap_Link_below (link last_block : Z) : M state unit :=
  set_size_and_flag last_block (Z.lor (link -! last_block) HEAP_PREV_BLOCK_USED).

Definition _Heap_Link_above (link first_block last_block : Z) : M state unit :=
  _Heap_Block_set_size link (first_block -! link);;
  set_prev_used last_block.

(** The neighbours of the new area, null if there are none. *)
Record neighbours := {
  merge_below_block : Z;
  merge_above_block : Z;
  link_below_block : Z;
  link_above_block : Z;
}.

(** The walk over the areas: [None] when the new area overlaps one of them. *)
Definition extend_search_loop (extend_area_begin extend_area_end : Z)
    : Z * neighbours -> M state (Z * neighbours + option neighbours) :=
  fun '(start_block, n) =>
    first_block ← get first_block;
    page_size ← get page_size;
    area_begin ← get area_begin;
    let sub_area_begin := if negb (start_block =? first_block) then start_block else area_begin in
    sub_area_end ← prev_size start_block;
    let end_block := _Heap_Block_of_alloc_area sub_area_end page_size in
    if (extend_area_begin <? sub_area_end) && (sub_area_begin <? extend_area_end)
    then mret (inr None) else
    let n :=
      if extend_area_end =? sub_area_begin then
        {| merge_below_block := start_block; merge_above_block := merge_above_block n;
           link_below_block := link_below_block n; link_above_block := link_above_block n |}
      else if extend_area_end <? sub_area_end then
        {| merge_below_block := merge_below_block n; merge_above_block := merge_above_block n;
           link_below_block := start_block; link_above_block := link_above_block n |}
      else n in
    n ←
      (if sub_area_end =? extend_area_begin then
         set_prev_size start_block extend_area_end;;
         mret {| merge_below_block := merge_below_block n; merge_above_block := end_block;
                 link_below_block := link_below_block n; link_above_block := link_above_block n |}
       else if sub_area_end <? extend_area_begin then
         mret {| merge_below_block := merge_below_block n; merge_above_block := merge_above_block n;
                 link_below_block := link_below_block n; link_above_block := end_block |}
       else mret n);
    size ← _Heap_Block_size end_block;
    let start_block := _Heap_Block_at end_block size in
    if negb (start_block =? first_block) then mret (inl (start_block, n)) else mret (inr (Some n)).

(** The updates of the control block and the headers of the new area. *)
Definition extend_enter (extend_area_begin extend_area_end extend_first_block extend_last_block : Z)
    : M state unit :=
  heap_area_begin ← get area_begin;
  heap_area_end ← get area_end;
  (if extend_area_begin <? heap_area_begin then set_area_begin extend_area_begin
   else whenM (heap_area_end <? extend_area_end) (set_area_end extend_area_end));;
  let extend_first_block_size := extend_last_block -! extend_first_block in
  set_prev_size extend_first_block extend_area_end;;
  set_size_and_flag extend_first_block (Z.lor extend_first_block_size HEAP_PREV_BLOCK_USED);;
  set_prev_size extend_last_block extend_first_block_size;;
  set_size_and_flag extend_last_block 0;;
  first_block ← get first_block;
  last_block ← get last_block;
  (if extend_first_block <? first_block then set_first_block extend_first_block
   else whenM (last_block <? extend_last_block) (set_last_block extend_last_block)).

Definition extend_connect (heap extend_area_begin extend_area_end extend_first_block
    extend_last_block : Z) (n : neighbours) : M state unit :=
  (if negb (merge_below_block n =? NULL)
   then _Heap_Merge_below heap extend_area_begin (merge_below_block n)
   else whenM (negb (link_below_block n =? NULL))
          (_Heap_Link_below (link_below_block n) extend_last_block));;
  (if negb (merge_above_block n =? NULL)
   then _Heap_Merge_above heap (merge_above_block n) extend_area_end
   else whenM (negb (link_above_block n =? NULL))
          (_Heap_Link_above (link_above_block n) extend_first_block extend_last_block));;
  whenM ((merge_below_block n =? NULL) && (merge_above_block n =? NULL))
    (_Heap_Free_block heap extend_first_block).

(** The new area with the given first and last block is added to the heap. *)
Definition extend_area (heap extend_area_begin extend_area_end extend_first_block extend_last_block
    free_size' : Z) : M state Z :=
  first_block ← get first_block;
  r ← whileM (extend_search_loop extend_area_begin extend_area_end)
        (first_block, {| merge_below_block := NULL; merge_above_block := NULL;
                         link_below_block := NULL; link_above_block := NULL |});
  match r with
  | None => mret 0
  | Some n =>
      extend_enter extend_area_begin extend_area_end extend_first_block extend_last_block;;
      extend_connect heap extend_area_begin extend_area_end extend_first_block
        extend_last_block n;;
      _Heap_Set_last_block_size;;
      fs ← get_stat free_size;
      let extended_size := fs -! free_size' in
      (* Statistics *)
      set_stats (fun t => set_size (size t +! extended_size) t);;
      mret extended_size
  end.

(** Returns the size by which the heap grew. *)
Definition _Heap_Extend (heap extend_area_begin extend_area_size : Z) : M state Z :=
  page_size ← get page_size;
  min_block_size ← get min_block_size;
  let extend_area_end := extend_area_begin +! extend_area_size in
  free_size' ← get_stat free_size;
  if extend_area_end <? extend_area_begin then mret 0 else
  match _Heap_Get_first_and_last_block extend_area_begin extend_area_size page_size min_block_size with
  | None => mret 0
  | Some (extend_first_block, extend_last_block) =>
      extend_area heap extend_area_begin extend_area_end extend_first_block extend_last_block free_size'
  end.

(** The extend handler of heaps that cannot be extended (heapnoextend.c). *)
Definition _Heap_No_extend (heap area_begin area_size handler_opaque : Z) : Z := 0.

(** * Freeing the new block *)

Section free_block.
Context (hp : Z) (c : Heap_Control) (HP : ctl_params hp c) (ring : Z) (Hring : ring mod 8 = 0).
Abbreviation ps := (page_size c).
Abbreviation mbs := (min_block_size c).
Abbreviation first := (first_block c).
Abbreviation last := (last_block c).
Abbreviation good := (good ps mbs).
Abbreviation fdlist := (dlist NEXT PREV).
Abbreviation layout := (ring_layout hp c ring).
Abbreviation St m t := {| hmem := m; ctl := with_stats c t |}.

(** Changing the order of the free list. *)
Lemma layout_relink m m' bs fl fl' : layout m bs fl -> fl' ≡ₚ fl -> fdlist m' hp fl' hp ->
  changes (link_words (hp :: fl')) m m' -> layout m' bs fl' /\ uframe hp c bs m m'.
Proof.
  intros (Hg & Ht & Hp & Hl & Hm) Hp' Hl' Hc. assert (Hall : first + sizes bs = last) by apply Ht.
  assert (Hpf : fl' ≡ₚ free_addrs first bs) by by rewrite Hp'.
  split; [split_and!; [done| |done|done|by eapply mapped_changes]|].
  - eapply tail_ext; [|exact Ht]. intros k Hk. by apply (tag_keep HP Hg Hall Hpf Hc).
  - by eapply uframe_links; [exact HP|done|done|exact Hpf|exact Hc|].
Qed.

Lemma freed_nonempty l1 n l2 m fl : layout m (freed l1 n l2) fl -> fl <> [].
Proof.
  intros (_ & _ & Hp & _) ->. apply Permutation_nil_l in Hp. revert Hp. unfold freed.
  destruct (merge_left l1), (merge_right l2). rewrite free_addrs_app. cbn. by destruct (free_addrs _ _).
Qed.

Lemma free_block_spec g m t l1 n l2 fl Q :
  let blk := first + sizes l1 in
  layout m (l1 ++ Blk n true :: l2) fl ->
  stats_inv g (set_used_blocks (used_blocks t +. 1) t) (l1 ++ Blk n true :: l2) ->
  (forall m' t' fl', layout m' (freed l1 n l2) fl' -> stats_inv g t' (freed l1 n l2) ->
    uframe hp c (freed l1 n l2) m m' -> Q tt (St m' t')) ->
  wp (_Heap_Free_block hp blk) Q (St m t).
Proof.
  intros blk Hlay Hst HQ. pose proof (mbs_min hp c HP). pose proof (ps_pos hp c HP). pose proof (bounds hp c HP).
  pose proof (layout_block hp c HP _ _ _ _ _ _ Hlay) as (_ & _ & ? & ? & ? & _ & ?). cbn [bsize] in *.
  do 2 (apply wp_bind, (set_stats_spec c)). apply wp_bind.
  unfold _Heap_Alloc_area_of_block, HEAP_BLOCK_HEADER_SIZE. rewrite u64_small by (unfold blk; lia).
  apply (free_spec hp c HP ring Hring g m _ l1 n l2 fl); [done| |lia|].
  { by apply (stats_other g (fun t => set_frees (frees t -. 1) t)); [intros []|]. }
  intros m1 t1 fl1 bs' Hlay1 Hst1 Hfr1. pose proof (freed_nonempty _ _ _ _ _ Hlay1) as Hne.
  destruct fl1 as [|x fl1]; [done|]. pose proof Hlay1 as (Hg1 & Ht1 & Hp1 & Hl1 & Hm1).
  assert (Hall1 : first + sizes bs' = last) by apply Ht1.
  assert (Hsep : dsep NEXT PREV hp (x :: fl1) hp) by by apply (free_dsep HP Hg1 Hall1 Hp1).
  assert (Hp2 : fl1 ++ [x] ≡ₚ free_addrs first bs') by by rewrite <- Permutation_cons_append.
  apply wp_bind. eapply wp_load; [by eapply dlist_first|]. rewrite dsucc_cons. apply wp_bind.
  apply (free_list_remove_spec hp (St m1 t1) [] x fl1); [done|done|]. intros m2 Hl2 Hc2. cbn [app] in Hl2, Hc2.
  assert (Hx : is_Some (m1 !! (x + NEXT)) /\ is_Some (m1 !! (x + PREV))).
  { apply (dlist_split NEXT PREV m1 hp [] x fl1 hp) in Hl1 as (_ & _ & [_ ?] & [? _]). split; by eexists. }
  apply (free_list_insert_before_spec hp (set_mem m2 (St m1 t1)) fl1 x); [|done|by apply (proj2 Hc2), Hx|by apply (proj2 Hc2), Hx|].
  { by apply (free_dsep HP Hg1 Hall1 Hp2). }
  intros m3 Hl3 Hc3. cbn [hmem set_mem state_HasMem] in *.
  destruct (layout_relink m1 m3 bs' (x :: fl1) (fl1 ++ [x])) as [Hlay3 Hfr3]; [done| |done| |].
  { by rewrite <- Permutation_cons_append. }
  { eapply changes_trans; [|exact Hc3]. eapply changes_mono; [|exact Hc2].
    unfold link_words. intros k. rewrite !list_elem_of_bind. set_solver. }
  apply (HQ m3 t1 (fl1 ++ [x])); [done|done|]. intros k Hk. rewrite Hfr3 by done. by apply Hfr1.
Qed.

(** The end of the extension: the last block leads to the first one again
    and the size statistics account for the new block. *)
Lemma extend_finish_spec gc gs n fs m t bs fl Q :
  layout m bs fl -> stats_inv (Gaps gc (gs + n)) t bs -> 0 <= gs <= sizes bs - n -> 0 <= n ->
  sizes_of false bs = fs + n -> 0 <= fs ->
  (forall m' t', heap_inv hp (Gaps gc gs) (St m' t') bs fl -> uframe hp c bs m m' -> Q n (St m' t')) ->
  wp (_Heap_Set_last_block_size;;
      fs' ← get_stat free_size;
      set_stats (fun t => set_size (size t +! (fs' -! fs)) t);;
      mret (fs' -! fs)) Q (St m t).
Proof.
  intros Hlay (mf & Ha & Hmf) Hgs Hn Hfs Hfs0 HQ. pose proof (bounds hp c HP) as (? & ? & ?).
  pose proof Hlay as (Hg & (Hs & Hall & Hl) & Hp & Hfl & Hm).
  pose proof (free_sizes_bound hp c HP bs Hg).
  destruct (head_size_ok hp ps mbs ring first last HP [] Hring) as [He _]; [constructor|cbn; pose proof (mbs_min hp c HP); lia|].
  destruct (head_size_ok hp ps mbs first first last HP [] (first_mod8 hp c HP)) as [He' _]; [constructor|cbn; pose proof (mbs_min hp c HP); lia|].
  cbn [head_size] in He, He'.
  apply wp_bind, wp_bind, wp_gets, wp_bind, wp_gets. cbn [ctl first_block last_block with_stats].
  apply (block_set_size_spec c _ _ _ _ _ _ _ Hl); [done|done|].
  assert (Efs : free_size t = fs + n) by (destruct Ha; congruence).
  apply wp_bind, wp_gets. cbn [ctl stats with_stats]. rewrite Efs. replace (fs + n - fs) with n by lia.
  rewrite (u64_small n) by lia. apply wp_bind, (set_stats_spec c), wp_ret.
  set (m' := <[last + SIZE_AND_FLAG := _]> m). set (t' := set_size _ t).
  assert (Hla : tag first bs (last + SIZE_AND_FLAG) \/ last + SIZE_AND_FLAG = last + SIZE_AND_FLAG) by by right.
  apply HQ.
  - split_and!; [exact HP| |].
    + cbn [hmem]. split_and!; [done| |done| |by apply mapped_insert].
      * unfold m'. split_and!; [|done|by rewrite lookup_insert_eq]. eapply seg_ext; [|exact Hs].
        intros k Hk. rewrite lookup_insert_ne; [done|]. intros <-.
        apply (tag_range ps mbs) in Hk; [cbn in Hk; unfold SIZE_AND_FLAG in *; lia|by eapply mbs_min|done].
      * apply fdlist_insert; [|done]. intros x Hx. by apply (tag_not_links HP Hg Hall Hp Hx).
    + exists mf. split; [|done]. cbn [gap_count gap_size] in *. unfold t'. cbn [stats ctl with_stats]. clear HQ Hmf Efs. destruct Ha, t.
      cbn in *. subst. split; cbn; try done. rewrite u64_small; lia.
  - intros k Hk. unfold m'. rewrite lookup_insert_ne; [done|]. intros <-.
    by apply (kept_not_tag HP Hg Hall Hk).
Qed.
End free_block.

(** * The memory areas of a heap *)

Section areas.
Context (ps first : Z).

(** The areas in front of the one that starts at [sl], each given by its first
    block and its end: the last block of each is a used block that bridges the
    gap to the next area. *)
Fixpoint gap_chain (m : mem) (bs : list block) (start : Z) (l0 : list (Z * Z)) (sl : Z) : Prop :=
  match l0 with
  | [] => start = sl
  | (b, e) :: l' => b = start /\ m !! (b + PREV_SIZE) = Some e /\
      exists eb x, start < eb /\ eb + HEAP_BLOCK_HEADER_SIZE <= e < eb + HEAP_BLOCK_HEADER_SIZE + ps /\
        e <= eb + x /\ used_at first bs eb x /\ gap_chain m bs (eb + x) l' sl
  end.

Lemma gap_chain_app m bs start l1 l2 sl mid :
  gap_chain m bs start l1 mid -> gap_chain m bs mid l2 sl -> gap_chain m bs start (l1 ++ l2) sl.
Proof.
  revert start. induction l1 as [|[b e] l1 IH]; intros start; cbn; [by intros ->|].
  intros (-> & ? & eb & x & ? & ? & ? & ? & ?) Hc2. split_and!; [done|done|]. exists eb, x. split_and!; try done; try lia. auto.
Qed.

Lemma gap_chain_mono (P : Z -> Prop) m m' bs bs' start l0 sl : gap_chain m bs start l0 sl ->
  (forall eb x, used_at first bs eb x -> eb + x <= sl -> used_at first bs' eb x) ->
  (P start) -> (forall eb x, used_at first bs eb x -> P (eb + x)) ->
  (forall k, P k -> k < sl -> m' !! (k + PREV_SIZE) = m !! (k + PREV_SIZE)) ->
  (forall eb x, used_at first bs eb x -> 0 < x) ->
  gap_chain m' bs' start l0 sl /\ start <= sl.
Proof.
  intros Hc Hu Hs HP Hm Hx. revert start Hc Hs. induction l0 as [|[b e] l0 IH]; intros start; cbn; [intros ->; split; [done|lia]|].
  intros (-> & Hb & eb & x & ? & ? & ? & Hux & Hc) Hs. specialize (Hx _ _ Hux).
  destruct (IH (eb + x) Hc) as [Hc' Hle]; [by apply HP|]. split; [|lia]. split_and!; [done| |].
  - rewrite Hm; [done|done|lia].
  - exists eb, x. split_and!; try done; try lia. by apply Hu.
Qed.
End areas.

(** The heap consists of the areas [l0] and, above them, the area whose first
    block is [sl] and that ends at [e]. *)
Record heap_areas (c : Heap_Control) (m : mem) (bs : list block) (l0 : list (Z * Z)) (sl e : Z) : Prop := {
  ar_chain : gap_chain (page_size c) (first_block c) m bs (first_block c) l0 sl;
  ar_last : m !! (sl + PREV_SIZE) = Some e /\ sl < last_block c;
  ar_end : last_block c + HEAP_BLOCK_HEADER_SIZE <= e < last_block c + HEAP_BLOCK_HEADER_SIZE + page_size c /\ e < 2 ^ 64;
  ar_ctl : area_end c = e /\ 0 <= area_begin c <= first_block c;
}.

(** * The walk over the areas *)

Section search.
Context (hp : Z) (c : Heap_Control) (HP : ctl_params hp c).
Context (m : mem) (t : Heap_Statistics) (bs : list block) (fl : list Z) (l0 : list (Z * Z)) (sl e : Z).
Context (Hlay : ctl_layout hp c m bs fl) (Har : heap_areas c m bs l0 sl e).
Context (eb ee : Z) (He : 0 <= eb < ee).
Abbreviation ps := (page_size c).
Abbreviation mbs := (min_block_size c).
Abbreviation first := (first_block c).
Abbreviation last := (last_block c).
Abbreviation St m t := {| hmem := m; ctl := with_stats c t |}.

Lemma used_facts b x : used_at first bs b x ->
  (b + HEAP_BLOCK_HEADER_SIZE) mod ps = 0 /\ first <= b /\ b + x <= last /\ mbs <= x /\
  exists f, m !! (b + SIZE_AND_FLAG) = Some (x + flag f) /\ Z.even x = true.
Proof using HP Hlay.
  intros Hu. destruct (used_at_split _ _ _ _ Hu) as (l1 & l2 & E & ->).
  pose proof Hlay as Hl. rewrite E in Hl. pose proof (proj1 Hl) as Hg. apply good_app in Hg as [Hg1 _].
  apply (layout_block hp c HP) in Hl as (Hb & Hx & ? & ? & ? & _ & ?). cbn [bsize] in *.
  split_and!; try lia; [by apply (block_page_mod hp c HP)|by eexists].
Qed.

Lemma gap_chain_le start l : gap_chain ps first m bs start l sl -> start <= sl.
Proof using HP Hlay.
  revert start. induction l as [|[b e'] l IH]; intros start; cbn; [lia|].
  intros (-> & _ & eb' & x & ? & _ & _ & Hu & Hc). apply used_facts in Hu as (_ & _ & _ & Hx & _).
  pose proof (mbs_min hp c HP). apply IH in Hc. lia.
Qed.

Abbreviation no_neighbours := {| merge_below_block := NULL; merge_above_block := NULL;
  link_below_block := NULL; link_above_block := NULL |}.

(** Reading the end of an area and its last block. *)
Lemma sub_area_spec Q start e' b n : m !! (start + PREV_SIZE) = Some e' ->
  0 <= b -> b + HEAP_BLOCK_HEADER_SIZE <= e' < b + HEAP_BLOCK_HEADER_SIZE + ps -> e' < 2 ^ 64 ->
  (b + HEAP_BLOCK_HEADER_SIZE) mod ps = 0 -> e' <= eb -> start < b ->
  (if e' =? eb
   then wp (size ← _Heap_Block_size b;
            let n' := {| merge_below_block := merge_below_block n; merge_above_block := b;
              link_below_block := link_below_block n; link_above_block := link_above_block n |} in
            if negb (_Heap_Block_at b size =? first) then mret (inl (_Heap_Block_at b size, n'))
            else mret (inr (Some n'))) Q (St (<[start + PREV_SIZE := ee]> m) t)
   else wp (size ← _Heap_Block_size b;
            let n' := {| merge_below_block := merge_below_block n; merge_above_block := merge_above_block n;
              link_below_block := link_below_block n; link_above_block := b |} in
            if negb (_Heap_Block_at b size =? first) then mret (inl (_Heap_Block_at b size, n'))
            else mret (inr (Some n'))) Q (St m t)) ->
  wp (extend_search_loop eb ee (start, n)) Q (St m t).
Proof using All.
  intros Hs Hb Hr He' Hmod Hle Hab HQ. unfold extend_search_loop.
  do 3 apply wp_bind, wp_gets. cbv zeta. apply wp_bind. eapply wp_load; [exact Hs|].
  cbn [ctl first_block area_begin page_size with_stats]. unfold HEAP_BLOCK_HEADER_SIZE in *.
  rewrite (block_of_alloc_area_spec c b e') by lia || done. pose proof (ar_ctl _ _ _ _ _ _ Har) as [_ Hfirst].
  pose proof (ps_pos hp c HP).
  set (sb := if negb (start =? first) then start else area_begin c).
  assert (Hsb : sb <= start) by (unfold sb; destruct (Z.eqb_spec start first); cbn; lia).
  destruct (Z.ltb_spec eb e') as [|_]; [lia|]. cbn [andb].
  destruct (Z.eqb_spec ee sb) as [|_]; [lia|]. destruct (Z.ltb_spec ee e') as [|_]; [lia|].
  destruct (Z.eqb_spec e' eb) as [->|Hne].
  - apply wp_bind, wp_bind, wp_store; [by eexists|]. by apply wp_ret.
  - destruct (Z.ltb_spec e' eb) as [_|]; [|lia]. apply wp_bind, wp_ret. exact HQ.
Qed.

(** The new area lies above the heap. *)
Lemma search_above_spec Q : e <= eb ->
  (forall la, e = eb -> Q (Some {| merge_below_block := NULL; merge_above_block := last;
     link_below_block := NULL; link_above_block := la |}) (St (<[sl + PREV_SIZE := ee]> m) t)) ->
  (e < eb -> Q (Some {| merge_below_block := NULL; merge_above_block := NULL;
     link_below_block := NULL; link_above_block := last |}) (St m t)) ->
  wp (whileM (extend_search_loop eb ee) (first, no_neighbours)) Q (St m t).
Proof using All.
  intros Hle HQm HQl. pose proof Har as [Hc [Hsl Hsll] [Hend He64] [_ Hab]].
  pose proof (bounds hp c HP) as (? & ? & ?). pose proof (mbs_min hp c HP). unfold HEAP_BLOCK_HEADER_SIZE in Hend.
  pose proof Hlay as (Hg & (Hs & Hall & Hl) & _).
  assert (Hlmod : (last + HEAP_BLOCK_HEADER_SIZE) mod ps = 0) by (by destruct HP as [_ _ _ [_ [_ ?]] _]).
  destruct (head_size_ok hp ps mbs first first last HP [] (first_mod8 hp c HP)) as [He' _];
    [constructor|cbn; lia|]. cbn [head_size] in He'.
  assert (Hback : _Heap_Block_at last (u64 (first - last)) = first).
  { unfold _Heap_Block_at, u64. rewrite Zplus_mod_idemp_r. rewrite Z.mod_small; lia. }
  apply (wp_whileM _ (fun v '(start, n) s' => s' = St m t /\ v = last - start /\ first <= start /\
    merge_below_block n = NULL /\ merge_above_block n = NULL /\ link_below_block n = NULL /\
    exists l, gap_chain ps first m bs start l sl)) with (k := last - first).
  - intros v [start n] s' (-> & -> & Hst & Hmb & Hma & Hlb & l & Hgc). pose proof (gap_chain_le start l Hgc).
    destruct l as [|[b e'] l]; cbn in Hgc.
    + subst start. apply (sub_area_spec _ sl e last n); try done; [lia|].
      destruct (Z.eqb_spec e eb) as [Eeb|Hne]; rewrite ?Hmb, ?Hma, ?Hlb; apply wp_bind.
      * eapply block_size_spec; [cbn [hmem]; rewrite lookup_insert_ne; [exact Hl|unfold PREV_SIZE, SIZE_AND_FLAG; lia]|done|apply u64_range|].
        cbv zeta. rewrite Hback, Z.eqb_refl. cbn [negb]. by apply wp_ret, HQm.
      * eapply block_size_spec; [exact Hl|done|apply u64_range|].
        cbv zeta. rewrite Hback, Z.eqb_refl. cbn [negb]. apply wp_ret, HQl. lia.
    + destruct Hgc as (-> & Hb & eb' & x & Hlt & Hr & Hex & Hu & Hgc).
      destruct (used_facts eb' x Hu) as (Hmod & ? & ? & ? & f & Hf & Hxe). pose proof (gap_chain_le _ _ Hgc).
      apply (sub_area_spec _ start e' eb' n); try done; try lia.
      destruct (Z.eqb_spec e' eb) as [Eeb|Hne]; [lia|]. apply wp_bind.
      eapply block_size_spec; [exact Hf|done|lia|]. cbv zeta. unfold _Heap_Block_at. rewrite u64_small by lia.
      destruct (Z.eqb_spec (eb' + x) first); [lia|]. cbn [negb]. apply wp_ret. exists (last - (eb' + x)).
      split; [lia|]. split_and!; try done; try lia. by exists l.
  - split_and!; try done. by exists l0.
  - lia.
Qed.

(** The new area lies below or overlaps the only area of the heap. *)
Lemma search_below_spec Q : l0 = [] ->
  (eb < e -> area_begin c < ee -> Q None (St m t)) ->
  (ee = area_begin c -> Q (Some {| merge_below_block := first; merge_above_block := NULL;
     link_below_block := NULL; link_above_block := NULL |}) (St m t)) ->
  (ee < area_begin c -> Q (Some {| merge_below_block := NULL; merge_above_block := NULL;
     link_below_block := first; link_above_block := NULL |}) (St m t)) ->
  eb < e ->
  wp (whileM (extend_search_loop eb ee) (first, no_neighbours)) Q (St m t).
Proof using All.
  intros -> HQo HQm HQl Hlt. pose proof Har as [<- [Hsl Hsll] [Hend He64] [_ Hab]].
  pose proof (bounds hp c HP) as (? & ? & ?). pose proof (mbs_min hp c HP). unfold HEAP_BLOCK_HEADER_SIZE in Hend.
  pose proof Hlay as (Hg & (Hs & Hall & Hl) & _).
  assert (Hlmod : (last + HEAP_BLOCK_HEADER_SIZE) mod ps = 0) by (by destruct HP as [_ _ _ [_ [_ ?]] _]).
  destruct (head_size_ok hp ps mbs first first last HP [] (first_mod8 hp c HP)) as [He' _];
    [constructor|cbn; lia|]. cbn [head_size] in He'.
  assert (Hback : _Heap_Block_at last (u64 (first - last)) = first).
  { unfold _Heap_Block_at, u64. rewrite Zplus_mod_idemp_r. rewrite Z.mod_small; lia. }
  apply (wp_whileM _ (fun v a s' => v = 0 /\ a = (first, no_neighbours) /\ s' = St m t)) with (k := 0); [|done|lia].
  intros v a s' (-> & -> & ->). unfold extend_search_loop.
  do 3 apply wp_bind, wp_gets. cbv zeta. apply wp_bind. eapply wp_load; [exact Hsl|].
  cbn [ctl first_block area_begin page_size with_stats]. rewrite Z.eqb_refl. cbn [negb].
  rewrite (block_of_alloc_area_spec c last e) by lia || done.
  destruct (Z.ltb_spec eb e) as [_|]; [|lia]. cbn [andb].
  destruct (Z.ltb_spec (area_begin c) ee) as [Ho|Hno]; [by apply wp_ret, HQo|].
  destruct (Z.eqb_spec e eb) as [|_]; [lia|]. destruct (Z.ltb_spec e eb) as [|_]; [lia|].
  destruct (Z.eqb_spec ee (area_begin c)) as [Hee|Hee]; [|destruct (Z.ltb_spec ee e) as [_|]; [|lia]];
    cbn [merge_below_block merge_above_block link_below_block link_above_block];
    apply wp_bind, wp_ret, wp_bind; (eapply block_size_spec; [exact Hl|done|apply u64_range|]);
    rewrite Hback, Z.eqb_refl; cbn [negb]; apply wp_ret; [by apply HQm|apply HQl; lia].
Qed.
End search.

(** * Accounting for new blocks *)

Lemma free_addrs_used a l : Forall (fun b => bused b = true) l -> free_addrs a l = [].
Proof. intros Hl. revert a. induction Hl as [|b l Hb _ IH]; intros a; cbn; [done|]. by rewrite Hb, IH. Qed.

Lemma used_sums l : Forall (fun b => bused b = true) l ->
  sizes_of false l = 0 /\ count_of false l = 0 /\ count_of true l = Z.of_nat (length l).
Proof.
  induction 1 as [|b l Hb _ IH]; [done|]. rewrite sizes_of_cons, !count_of_cons, Hb. cbn [Bool.eqb length]. lia.
Qed.

Lemma freed_free_size l1 n l2 :
  sizes_of false (freed l1 n l2) = sizes_of false (l1 ++ Blk n true :: l2) + n /\
  sizes (freed l1 n l2) = sizes (l1 ++ Blk n true :: l2).
Proof.
  pose proof (merge_left_sums l1) as Hl. pose proof (merge_right_sums l2) as Hr. unfold freed.
  destruct (merge_left l1) as [pre a], (merge_right l2) as [b post].
  rewrite !sizes_of_app, !sizes_app, !sizes_of_cons. cbn. lia.
Qed.

(** The gap of [n] bytes, if any. *)
Definition add_gap (g : gaps) (new : list block) : gaps :=
  Gaps (gap_count g + Z.of_nat (length new)) (gap_size g + sizes new).

Lemma stats_new g t bs bs' gap n : stats_inv g t bs -> Forall (fun b => bused b = true) gap ->
  bs' ≡ₚ bs ++ Blk n true :: gap ->
  stats_inv (Gaps (gap_count (add_gap g gap)) (gap_size (add_gap g gap) + n))
    (set_used_blocks (used_blocks t +. 1) t) bs'.
Proof.
  intros (mf & Ha & Hmf) Hu Hp. destruct (used_sums gap Hu) as (E1 & E2 & E3).
  assert (Hs : sizes bs' = sizes bs + n + sizes gap /\ sizes_of false bs' = sizes_of false bs /\
    count_of false bs' = count_of false bs /\ count_of true bs' = count_of true bs + 1 + Z.of_nat (length gap)).
  { assert (Hperm : forall l l' : list block, l ≡ₚ l' -> sizes l = sizes l').
    { induction 1; cbn; lia. }
    assert (Hc : forall u, count_of u bs' = count_of u (bs ++ Blk n true :: gap)).
    { intros u. unfold count_of. by rewrite Hp. }
    assert (Hf : sizes_of false bs' = sizes_of false (bs ++ Blk n true :: gap)).
    { unfold sizes_of. apply Hperm. by rewrite Hp. }
    rewrite (Hperm _ _ Hp), Hf, !Hc, sizes_app, sizes_of_app, !count_of_app, sizes_of_cons, !count_of_cons.
    cbn [sizes bsize bused Bool.eqb]. lia. }
  destruct Hs as (Es & Ef & En & Eu). exists mf. rewrite Es, Ef, En, Eu. split; [|done].
  cbn [gap_count gap_size add_gap].
  apply acct_nused_add in Ha. destruct Ha. split; try done; [|lia].
  etrans; [eassumption|]. f_equal. lia.
Qed.

Lemma lor_flag_1 x f : Z.even x = true -> Z.lor (x + flag f) 1 = x + flag true.
Proof.
  intros He. rewrite <- (lor_flag x f He), <- (lor_flag x true He), <- Z.lor_assoc. by destruct f.
Qed.

(** * The layout with the new blocks *)

Section blocks.
Context (hp : Z) (c : Heap_Control) (HP : ctl_params hp c).
Context (m : mem) (bs : list block) (fl : list Z) (Hlay : ctl_layout hp c m bs fl).
Context (m' : mem) (new : list block).
Context (Hg : good (page_size c) (min_block_size c) new).
Context (Hu : Forall (fun b => bused b = true) new).
Abbreviation first := (first_block c).
Abbreviation last := (last_block c).
Context (Htag : forall k, tag first bs k -> m' !! k = m !! k).
Context (Hlink : forall k, k ∈ link_words (hp :: fl) -> m' !! k = m !! k).

Lemma relinked : dlist NEXT PREV m' hp fl hp.
Proof using All.
  destruct Hlay as (_ & _ & _ & Hl & _). clear -Hl Hlink.
  eapply dlist_ext; [..|exact Hl]; intros x Hx; apply Hlink, elem_of_link_words; exists x; set_solver.
Qed.

Lemma layout_above c' r : page_size c' = page_size c -> min_block_size c' = min_block_size c ->
  first_block c' = first -> tail_seg r (last_block c') m' last (lastu true bs) new ->
  mapped_area first (last_block c') m' -> ring_layout hp c' r m' (bs ++ new) fl.
Proof using All.
  intros Eps Emb Ef Ht Hm. pose proof Hlay as (Hgb & (Hs & Hall & _) & Hp & _).
  unfold ring_layout. rewrite Eps, Emb, Ef. split_and!; [by apply good_app| | |exact relinked|done].
  - apply tail_app. rewrite Hall. split; [|done]. by eapply seg_ext.
  - rewrite free_addrs_app, (free_addrs_used _ new) by done. by rewrite app_nil_r.
Qed.

Lemma layout_below c' : page_size c' = page_size c -> min_block_size c' = min_block_size c ->
  last_block c' = last -> first_block c' + sizes new = first -> seg m' (first_block c') true new ->
  lastu true new = true -> m' !! (last + SIZE_AND_FLAG) = m !! (last + SIZE_AND_FLAG) ->
  mapped_area (first_block c') last m' -> ring_layout hp c' first m' (new ++ bs) fl.
Proof using All.
  intros Eps Emb El Ef Hsn Hlu Hla Hm. pose proof Hlay as (Hgb & (Hs & Hall & Hl) & Hp & _).
  unfold ring_layout. rewrite Eps, Emb, El. split_and!; [by apply good_app| | |exact relinked|done].
  - apply tail_app. rewrite Ef, Hlu. split; [done|]. split_and!; [by eapply seg_ext|done|by rewrite Hla].
  - rewrite free_addrs_app, (free_addrs_used _ new), Ef by done. done.
Qed.
End blocks.

(** * Extending *)

(** A new area from [b] to [ee] with the first and last block [ef] and [el]. *)
Record new_area (c : Heap_Control) (b ee ef el : Z) : Prop := {
  na_begin : 0 <= b <= ef;
  na_first : (ef + HEAP_BLOCK_HEADER_SIZE) mod page_size c = 0;
  na_align : ef = _Heap_Align_up (b +! HEAP_BLOCK_HEADER_SIZE) (page_size c) -! HEAP_BLOCK_HEADER_SIZE;
  na_size : ef + min_block_size c <= el;
  na_last : (el + HEAP_BLOCK_HEADER_SIZE) mod page_size c = 0;
  na_end : el + HEAP_BLOCK_HEADER_SIZE <= ee < el + HEAP_BLOCK_HEADER_SIZE + page_size c /\ ee < 2 ^ 64;
}.

Definition mapped_range (m : mem) (lo hi : Z) : Prop :=
  forall k, k mod 8 = 0 -> lo <= k -> k + 8 <= hi -> is_Some (m !! k).

Definition ctl_above (c : Heap_Control) (ee el : Z) : Heap_Control :=
  {| page_size := page_size c; min_block_size := min_block_size c; area_begin := area_begin c;
     area_end := ee; first_block := first_block c; last_block := el; stats := stats c |}.

Definition ctl_below (c : Heap_Control) (b ef : Z) : Heap_Control :=
  {| page_size := page_size c; min_block_size := min_block_size c; area_begin := b;
     area_end := area_end c; first_block := ef; last_block := last_block c; stats := stats c |}.

(** The headers of the new area. *)
Definition entered (m : mem) (ee ef el : Z) : mem :=
  <[el + SIZE_AND_FLAG := 0]> (<[el + PREV_SIZE := el - ef]>
    (<[ef + SIZE_AND_FLAG := el - ef + flag true]> (<[ef + PREV_SIZE := ee]> m))).

Section extend.
Context (hp : Z) (c : Heap_Control) (HP : ctl_params hp c) (g : gaps).
Context (m : mem) (t : Heap_Statistics) (bs : list block) (fl : list Z) (l0 : list (Z * Z)) (sl e : Z).
Context (Hlay : ctl_layout hp c m bs fl) (Hst : stats_inv g t bs) (Har : heap_areas c m bs l0 sl e).
Context (b ee ef el : Z) (Hna : new_area c b ee ef el).
Context (Hgs : 0 <= gap_size g <= sizes bs).
Abbreviation ps := (page_size c).
Abbreviation mbs := (min_block_size c).
Abbreviation first := (first_block c).
Abbreviation last := (last_block c).
Abbreviation St m t := {| hmem := m; ctl := with_stats c t |}.

Lemma new_facts : 0 < ps /\ 32 <= mbs /\ ef mod 8 = 0 /\ el mod 8 = 0 /\ (el - ef) mod ps = 0 /\
  Z.even (el - ef) = true /\ 0 <= b <= ef /\ ef + mbs <= el /\ el + 16 <= ee < el + 16 + ps /\ ee < 2 ^ 64.
Proof using HP Hna.
  destruct Hna as [? H1 _ ? H2 [? ?]]. pose proof (ps_pos hp c HP). pose proof (mbs_min hp c HP).
  unfold HEAP_BLOCK_HEADER_SIZE in *.
  assert (Hm : (el - ef) mod ps = 0).
  { replace (el - ef) with (el + (2 * 8 + 0) - (ef + (2 * 8 + 0))) by lia. by apply mod_sub. }
  split_and!; try lia; try done; [by eapply header_mod8; [exact HP|]..|by eapply mult_even; [exact HP|]].
Qed.

Lemma enter_words m0 lo hi : mapped_range m0 lo hi -> lo <= ef -> ee <= hi ->
  is_Some (m0 !! (ef + PREV_SIZE)) /\ is_Some (m0 !! (ef + SIZE_AND_FLAG)) /\
  is_Some (m0 !! (el + PREV_SIZE)) /\ is_Some (m0 !! (el + SIZE_AND_FLAG)).
Proof using HP Hna.
  intros Hm Hlo Hhi. destruct new_facts as (? & ? & ? & ? & _ & _ & ? & ? & ? & ?).
  unfold PREV_SIZE, SIZE_AND_FLAG. split_and!; apply Hm; try lia; by apply add_mod8.
Qed.

Lemma enter_stores m0 (K : M state unit) Q (s : state) : hmem s = m0 ->
  is_Some (m0 !! (ef + PREV_SIZE)) -> is_Some (m0 !! (ef + SIZE_AND_FLAG)) ->
  is_Some (m0 !! (el + PREV_SIZE)) -> is_Some (m0 !! (el + SIZE_AND_FLAG)) ->
  wp K Q {| hmem := entered m0 ee ef el; ctl := ctl s |} ->
  wp (set_prev_size ef ee;;
      set_size_and_flag ef (Z.lor (el -! ef) HEAP_PREV_BLOCK_USED);;
      set_prev_size el (el -! ef);;
      set_size_and_flag el 0;; K) Q s.
Proof using HP Hna.
  intros <- H1 H2 H3 H4 HK. destruct new_facts as (? & ? & ? & ? & ? & He & ? & ? & ? & ?).
  rewrite u64_small by lia. change HEAP_PREV_BLOCK_USED with 1. rewrite lor_1 by done.
  do 4 (apply wp_bind, wp_store; [cbn; repeat apply is_Some_insert; done|]). exact HK.
Qed.

Lemma enter_above_spec m0 Q lo hi : mapped_range m0 lo hi -> lo <= ef -> ee <= hi ->
  area_begin c <= b -> area_end c < ee -> first <= ef -> last < el ->
  Q tt {| hmem := entered m0 ee ef el; ctl := with_stats (ctl_above c ee el) t |} ->
  wp (extend_enter b ee ef el) Q (St m0 t).
Proof using HP Hna.
  intros Hm Hlo Hhi Hb He Hf Hl HQ. destruct (enter_words m0 lo hi Hm Hlo Hhi) as (? & ? & ? & ?).
  unfold extend_enter. do 2 apply wp_bind, wp_gets. cbv zeta. cbn [ctl area_begin area_end with_stats].
  destruct (Z.ltb_spec b (area_begin c)); [lia|]. destruct (Z.ltb_spec (area_end c) ee); [|lia].
  apply wp_bind, wp_modify. eapply enter_stores; [reflexivity|done..|].
  do 2 apply wp_bind, wp_gets. cbn [ctl first_block last_block with_stats hmem].
  destruct (Z.ltb_spec ef first); [lia|]. destruct (Z.ltb_spec last el); [|lia]. apply wp_modify. exact HQ.
Qed.

Lemma enter_below_spec m0 Q lo hi : mapped_range m0 lo hi -> lo <= ef -> ee <= hi ->
  b < area_begin c -> ef < first ->
  Q tt {| hmem := entered m0 ee ef el; ctl := with_stats (ctl_below c b ef) t |} ->
  wp (extend_enter b ee ef el) Q (St m0 t).
Proof using HP Hna.
  intros Hm Hlo Hhi Hb Hf HQ. destruct (enter_words m0 lo hi Hm Hlo Hhi) as (? & ? & ? & ?).
  unfold extend_enter. do 2 apply wp_bind, wp_gets. cbv zeta. cbn [ctl area_begin area_end with_stats].
  destruct (Z.ltb_spec b (area_begin c)); [|lia].
  apply wp_bind, wp_modify. eapply enter_stores; [reflexivity|done..|].
  do 2 apply wp_bind, wp_gets. cbn [ctl first_block last_block with_stats hmem].
  destruct (Z.ltb_spec ef first); [|lia]. apply wp_modify. exact HQ.
Qed.

(** Freeing the new block, between the blocks [l1] and [l2] that are those of
    the heap and the gap. *)
Lemma grown_spec c' ring l1 n l2 gap m1 Q : ctl_params hp c' -> ring mod 8 = 0 -> 0 <= n ->
  ring_layout hp c' ring m1 (l1 ++ Blk n true :: l2) fl ->
  l1 ++ Blk n true :: l2 ≡ₚ bs ++ Blk n true :: gap -> Forall (fun b => bused b = true) gap -> 0 <= sizes gap ->
  (forall m' t' fl', heap_inv hp (add_gap g gap) {| hmem := m'; ctl := with_stats c' t' |} (freed l1 n l2) fl' ->
    uframe hp c' (freed l1 n l2) m1 m' -> Q n {| hmem := m'; ctl := with_stats c' t' |}) ->
  wp (_Heap_Free_block hp (first_block c' + sizes l1))
    (fun _ s' => wp (_Heap_Set_last_block_size;;
      fs' ← get_stat free_size;
      set_stats (fun t1 => set_size (size t1 +! (fs' -! free_size t)) t1);;
      mret (fs' -! free_size t)) Q s') {| hmem := m1; ctl := with_stats c' t |}.
Proof using All.
  intros HP' Hring Hn Hlay' Hperm Hgap Hgap0 HQ. pose proof (mbs_min hp c HP).
  assert (Hfs : free_size t = sizes_of false bs) by (destruct Hst as (mf & Ha & _); by destruct Ha).
  assert (Hb0 : 0 <= sizes_of false bs <= sizes bs) by (eapply free_sizes_bound; [exact HP|apply Hlay]).
  destruct (freed_free_size l1 n l2) as [Ef Es].
  assert (Hperm' : forall l l' : list block, l ≡ₚ l' -> sizes l = sizes l') by (induction 1; cbn; lia).
  assert (Hfl : sizes_of false (l1 ++ Blk n true :: l2) = sizes_of false bs).
  { unfold sizes_of at 1. erewrite Hperm' by (by rewrite Hperm). fold (sizes_of false (bs ++ Blk n true :: gap)).
    destruct (used_sums gap Hgap) as (E & _). rewrite sizes_of_app, sizes_of_cons, E. cbn. lia. }
  assert (Hsz : sizes (l1 ++ Blk n true :: l2) = sizes bs + n + sizes gap).
  { rewrite (Hperm' _ _ Hperm), sizes_app. cbn. lia. }
  pose proof (stats_new g t bs _ gap n Hst Hgap Hperm) as Hst'.
  eapply (free_block_spec hp c' HP' ring Hring); [exact Hlay'|exact Hst'|].
  intros m2 t2 fl2 Hlay2 Hst2 Hfr2. rewrite Hfs.
  eapply (extend_finish_spec hp c' HP' ring Hring); [exact Hlay2|exact Hst2| |done|by rewrite Ef, Hfl|lia|].
  { rewrite Es, Hsz. cbn [add_gap gap_size]. lia. }
  intros m3 t3 Hinv Hfr3. eapply HQ; [exact Hinv|]. intros k Hk. rewrite Hfr3 by done. by apply Hfr2.
Qed.

(** The words of the blocks of the heap in the new one. *)
Lemma user_word_freed first' l1 n l2 k :
  (exists b x, used_at first' (l1 ++ Blk n true :: l2) b x /\ b <> first' + sizes l1 /\ b + 16 <= k <= b + x) ->
  user_word first' (freed l1 n l2) k.
Proof using.
  intros (b' & x & Hu & Hne & Hk). eapply used_at_user; [|exact Hk].
  set (c' := Build_Heap_Control 0 0 0 0 first' 0 zero_statistics).
  by apply (freed_used c' l1 n l2 b' x).
Qed.

Lemma start_kept : sl = first \/ user_word first bs sl.
Proof using HP Hlay Har.
  destruct Har as [Hc _ _ _]. clear Har. revert Hc. generalize (first_block c) at 2 3 as start.
  induction l0 as [|[b' e'] l IH]; intros start; cbn; [by left|].
  intros (-> & _ & eb & x & ? & ? & ? & Hu & Hc). destruct (IH _ Hc) as [->|?]; [right|by right].
  destruct (used_facts hp c HP m bs fl Hlay eb x Hu) as (_ & _ & _ & ? & _).
  eapply used_at_user; [exact Hu|]. pose proof (mbs_min hp c HP). lia.
Qed.

(** ** Above the heap *)

Section above.
Context (Hab : e <= b) (Hmap : mapped_range m first ee) (Hhp : hp + 32 <= first \/ ee <= hp).
Abbreviation c' := (ctl_above c ee el).
Abbreviation St' m t := {| hmem := m; ctl := with_stats c' t |}.

Lemma above_facts : 0 <= first /\ first <= sl /\ sl < last /\ last + 16 <= e /\ e <= b /\ first mod 8 = 0 /\
  last mod 8 = 0 /\ first + sizes bs = last /\ area_begin c <= first /\ area_end c = e /\ m !! (sl + PREV_SIZE) = Some e.
Proof using All.
  destruct Har as [Hc [Hsl ?] [? _] [? ?]]. pose proof (bounds hp c HP). unfold HEAP_BLOCK_HEADER_SIZE in *.
  pose proof (gap_chain_le hp c HP m bs fl sl Hlay _ _ Hc). pose proof (first_mod8 hp c HP).
  assert (last mod 8 = 0) by (destruct HP as [_ _ _ [_ [_ ?]] _]; by eapply header_mod8; [exact HP|]).
  assert (first + sizes bs = last) by apply Hlay. split_and!; try lia; done.
Qed.

Lemma above_params : ctl_params hp c'.
Proof using All.
  destruct above_facts as (? & ? & ? & ? & ? & _). destruct new_facts as (? & ? & _ & _ & _ & _ & ? & ? & ? & ?).
  destruct HP as [? ? ? [? _] [? _]]. destruct Hna. unfold HEAP_BLOCK_HEADER_SIZE in *.
  split; cbn [page_size min_block_size first_block last_block ctl_above]; unfold HEAP_BLOCK_HEADER_SIZE; try done;
    split_and!; try done; lia.
Qed.

(** The words the extension writes before the new block is freed. *)
Definition above_words : list Z :=
  [sl + PREV_SIZE; last + SIZE_AND_FLAG; ef + PREV_SIZE; ef + SIZE_AND_FLAG; el + PREV_SIZE; el + SIZE_AND_FLAG].

Lemma above_frame m' : changes above_words m m' ->
  (forall k, tag first bs k -> m' !! k = m !! k) /\
  (forall k, k ∈ link_words (hp :: fl) -> m' !! k = m !! k) /\
  (forall k, k = first \/ user_word first bs k -> k <> sl -> m' !! k = m !! k) /\
  mapped_area first el m'.
Proof using All.
  intros [Hc Hm']. destruct above_facts as (? & ? & ? & ? & ? & _ & _ & Hall & _).
  destruct new_facts as (? & ? & _ & _ & _ & _ & ? & ? & ? & ?).
  pose proof Hlay as (Hg & Ht & Hp & _). pose proof start_kept as Hsk.
  assert (Hk : kept hp first last bs (sl + PREV_SIZE)).
  { unfold PREV_SIZE. rewrite Z.add_0_r. destruct Hsk as [->|?]; [right|by left].
    unfold outside, SIZE_AND_FLAG, NEXT, PREV. destruct HP as [_ _ _ _ [_ ?]]. unfold HEAP_BLOCK_HEADER_SIZE in *. lia. }
  unfold above_words, PREV_SIZE, SIZE_AND_FLAG in *. split_and!.
  - intros k Hkt. apply Hc. intros Hin. pose proof (tag_range ps mbs ltac:(lia) _ _ _ Hg Hkt).
    set_unfold in Hin. destruct Hin as [->|Hin]; [|lia].
    apply (kept_not_tag HP Hg Hall Hk). by left.
  - intros k Hkl. apply Hc. intros Hin. set_unfold in Hin.
    destruct Hin as [->|Hin]; [by apply (kept_not_link_word HP Hg Hall Hp Hk)|].
    apply (link_word_cases hp ps mbs first last HP bs fl Hall Hp) in Hkl as [Hl|[Hl|(x & Hx & Hl)]]; unfold NEXT, PREV in Hl; [lia|lia|].
    apply (free_addrs_range ps mbs) in Hx; [lia|lia|done].
  - intros k Hku Hne. apply Hc. intros Hin. assert (Hr : first <= k <= last).
    { destruct Hku as [->|Hku]; [lia|]. apply (user_word_range ps mbs) in Hku; [lia|lia|done]. }
    set_unfold in Hin. lia.
  - intros k Hk8 Hr. apply Hm', Hmap; [done|unfold SIZE_AND_FLAG in Hr; lia..].
Qed.

(** What is left of the old words when the new block was freed. *)
Lemma above_kept gap n m' m'' k : changes above_words m m' -> sizes gap = ef - last \/ gap = [] ->
  uframe hp c' (freed (bs ++ gap) n []) m' m'' -> k = first \/ user_word first bs k ->
  m'' !! k = m' !! k /\ (k <> sl -> m'' !! k = m !! k).
Proof using All.
  intros Hc Hgap Hfr Hk. destruct (above_frame m' Hc) as (_ & _ & Hu & _). pose proof (mbs_min hp c HP).
  destruct above_facts as (? & ? & ? & ? & ? & _ & _ & Hall & _). destruct new_facts as (_ & _ & _ & _ & _ & _ & ? & ? & ? & _).
  assert (E : m'' !! k = m' !! k).
  { apply Hfr. cbn [first_block last_block ctl_above]. destruct Hk as [->|Hk]; [right|left].
    - unfold outside, SIZE_AND_FLAG, NEXT, PREV. lia.
    - apply user_word_freed. apply user_word_used in Hk as (b' & x & Hus & Hk). exists b', x.
      rewrite <- app_assoc, used_at_app. split_and!; [by left| |lia..].
      destruct (used_facts hp c HP m bs fl Hlay b' x Hus) as (_ & ? & ? & ? & _).
      rewrite sizes_app. destruct Hgap as [->| ->]; cbn; lia. }
  split; [done|]. intros Hne. rewrite E. by apply Hu.
Qed.

Lemma above_chain gap n m' m'' : changes above_words m m' -> sizes gap = ef - last \/ gap = [] ->
  uframe hp c' (freed (bs ++ gap) n []) m' m'' ->
  gap_chain ps first m'' (freed (bs ++ gap) n []) first l0 sl.
Proof using All.
  intros Hc Hgap Hfr. pose proof (mbs_min hp c HP).
  destruct above_facts as (? & ? & ? & ? & ? & _ & _ & Hall & _). destruct new_facts as (_ & _ & _ & _ & _ & _ & ? & ? & ? & _).
  eapply (gap_chain_mono ps first (fun k => k = first \/ user_word first bs k) m m'' bs); [apply Har|..].
  - intros eb x Hu _. apply (freed_used c); [rewrite <- app_assoc, used_at_app; by left|].
    destruct (used_facts hp c HP m bs fl Hlay eb x Hu) as (_ & ? & ? & ? & _).
    rewrite sizes_app. destruct Hgap as [->| ->]; cbn; lia.
  - by left.
  - intros eb x Hu. right. destruct (used_facts hp c HP m bs fl Hlay eb x Hu) as (_ & ? & ? & ? & _).
    eapply used_at_user; [exact Hu|lia].
  - intros k Hk Hlt. unfold PREV_SIZE. rewrite Z.add_0_r. apply (above_kept gap n m' m'' k); try done. lia.
  - intros eb x Hu. destruct (used_facts hp c HP m bs fl Hlay eb x Hu) as (_ & ? & ? & ? & _). lia.
Qed.

Abbreviation rest := (_Heap_Set_last_block_size;;
  fs' ← get_stat free_size;
  set_stats (fun t1 => set_size (size t1 +! (fs' -! free_size t)) t1);;
  mret (fs' -! free_size t)).

Lemma above_areas sl' l' m'' bs'' : gap_chain ps first m'' bs'' first l' sl' ->
  m'' !! (sl' + PREV_SIZE) = Some ee -> sl' < el -> heap_areas c' m'' bs'' l' sl' ee.
Proof using All.
  intros Hc Hs Hl. destruct above_facts as (? & ? & ? & ? & ? & _ & _ & _ & ? & _).
  destruct new_facts as (? & ? & _ & _ & _ & _ & ? & ? & ? & ?). destruct Har as [_ _ _ [_ ?]].
  split; cbn [page_size first_block last_block area_begin area_end ctl_above]; unfold HEAP_BLOCK_HEADER_SIZE; try done.
Qed.

Lemma merge_above_spec la Q : e = b ->
  (forall m'' t'' fl'', let n := el - last in let bs'' := freed bs n [] in
    heap_inv hp (add_gap g []) (St' m'' t'') bs'' fl'' -> heap_areas c' m'' bs'' l0 sl ee ->
    (forall k, user_word first bs k -> k <> sl -> m'' !! k = m !! k) -> Q n (St' m'' t'')) ->
  wp (extend_connect hp b ee ef el {| merge_below_block := NULL; merge_above_block := last;
        link_below_block := NULL; link_above_block := la |})
    (fun _ s' => wp rest Q s') (St' (entered (<[sl + PREV_SIZE := ee]> m) ee ef el) t).
Proof using All.
  intros Eb HQ. destruct above_facts as (? & ? & ? & ? & ? & Hf8 & Hl8 & Hall & ? & ? & Hsl).
  destruct new_facts as (Hps & ? & ? & ? & ? & ? & ? & ? & ? & ?). pose proof above_params as HP'.
  unfold extend_connect. cbn [merge_below_block merge_above_block link_below_block link_above_block].
  destruct (Z.eqb_spec last NULL) as [E|_]; [unfold NULL in E; lia|]. rewrite Z.eqb_refl. cbn [negb andb].
  apply wp_bind, wp_ret, wp_bind.
  unfold _Heap_Merge_above. apply wp_bind, wp_gets. cbv zeta. cbn [ctl page_size with_stats ctl_above].
  unfold HEAP_BLOCK_HEADER_SIZE. change (2 * 8 + 0) with 16.
  rewrite (u64_small (ee - last)), (u64_small (ee - last - 16)) by lia.
  destruct (align_down_spec (ee - last - 16) ps) as (Hd1 & Hd2 & Hd3); [lia|lia|].
  assert (Hlm : (el - last) mod ps = 0).
  { destruct HP as [_ _ _ [_ [_ Hlm]] _]. destruct Hna as [_ _ _ _ Hem _].
    replace (el - last) with (el + HEAP_BLOCK_HEADER_SIZE - (last + HEAP_BLOCK_HEADER_SIZE)) by lia. by apply mod_sub. }
  assert (En : _Heap_Align_down (ee - last - 16) ps = el - last).
  { apply Z.le_antisymm; apply (mult_le_step _ _ ps); try done; lia. }
  rewrite En. clear Hd1 Hd2 Hd3 En. set (n := el - last) in *.
  assert (Hne : Z.even n = true) by by eapply mult_even; [exact HP|].
  unfold _Heap_Block_at. rewrite (u64_small (last + n)) by lia. replace (last + n) with el by lia.
  pose proof Hlay as (Hg & (Hs & _ & Hl) & _).
  set (m1 := entered (<[sl + PREV_SIZE := ee]> m) ee ef el).
  assert (Hlast : m1 !! (last + SIZE_AND_FLAG) = Some (u64 (first - last) + flag (lastu true bs))).
  { unfold m1, entered, PREV_SIZE, SIZE_AND_FLAG. rewrite !lookup_insert_ne by lia. exact Hl. }
  apply wp_bind. eapply wp_load; [exact Hlast|].
  assert (Hring : u64 (first - last) = first - last + 2 ^ 64).
  { unfold u64. rewrite <- (Z_mod_plus_full _ 1). rewrite Z.mod_small; lia. }
  assert (Hring' : u64 (first - el) = first - el + 2 ^ 64).
  { unfold u64. rewrite <- (Z_mod_plus_full _ 1). rewrite Z.mod_small; lia. }
  assert (Hre : Z.even (u64 (first - el)) = true).
  { apply (head_size_ok hp ps mbs first first el HP' []); [done|constructor|cbn; lia]. }
  assert (Hflag : 0 <= flag (lastu true bs) <= 1) by (destruct (lastu true bs); cbn; lia).
  rewrite Hring, (u64_small (_ - n)) by lia.
  replace (first - last + 2 ^ 64 + flag (lastu true bs) - n) with (u64 (first - el) + flag (lastu true bs)) by lia.
  change HEAP_PREV_BLOCK_USED with 1. rewrite (lor_flag_1 _ _ Hre). apply wp_bind, wp_store.
  { unfold m1, entered. cbn. by rewrite lookup_insert_eq. }
  cbn [get_mem set_mem state_HasMem hmem ctl]. apply wp_bind.
  apply (block_set_size_spec c' _ (u64 (first - last)) n (lastu true bs)); [|rewrite Hring; by rewrite Z.even_add, Z.even_sub, (even_mod8 first), (even_mod8 last)|done|].
  { rewrite lookup_insert_ne by (unfold SIZE_AND_FLAG; lia). exact Hlast. }
  set (m3 := <[last + SIZE_AND_FLAG := _]> (<[el + SIZE_AND_FLAG := _]> m1)).
  assert (Hc : changes above_words m m3).
  { unfold m3, m1, entered, above_words. repeat (apply changes_insert; [set_solver|]). apply changes_refl. }
  destruct (above_frame m3 Hc) as (Ht & Hlk & Hus & Hma).
  apply (wp_mono _ (fun _ s' => wp rest Q s')); [|intros [] s' HW; exact HW].
  replace last with (first_block c' + sizes bs) at 1 by exact Hall.
  apply (grown_spec c' first bs n [] [] m3); [done|done|lia| |done|constructor|done|].
  - eapply (layout_above hp c HP m bs fl Hlay m3 [Blk n true]); try done.
    + apply Forall_cons. split; [|constructor]. split; [done|cbn; lia].
    + by constructor.
    + apply tail_cons. cbn [bsize bused]. split_and!.
      * unfold m3. by rewrite lookup_insert_eq.
      * done.
      * replace (last + n) with el by lia. split_and!; [done|cbn; lia|].
        unfold m3. rewrite lookup_insert_ne by (cbn; unfold SIZE_AND_FLAG; lia). by rewrite lookup_insert_eq.
  - intros m'' t'' fl'' Hinv Hfr. rewrite <- (app_nil_r bs) in Hfr. eapply HQ; [done| |].
    + apply above_areas; [|..].
      * rewrite <- (app_nil_r bs). by eapply above_chain; [exact Hc|right|].
      * unfold PREV_SIZE. rewrite Z.add_0_r.
        destruct (above_kept [] n m3 m'' sl Hc (or_intror eq_refl) Hfr start_kept) as [-> _].
        unfold m3, m1, entered, SIZE_AND_FLAG, PREV_SIZE. rewrite !lookup_insert_ne by lia.
        by rewrite Z.add_0_r, lookup_insert_eq.
      * lia.
    + intros k Hk Hne'. by apply (above_kept [] n m3 m'' k Hc (or_intror eq_refl) Hfr (or_intror Hk)).
Qed.

Lemma link_above_spec Q : e < b -> last + mbs <= ef ->
  (forall m'' t'' fl'', let n := el - ef in let gap := [Blk (ef - last) true] in
    let bs'' := freed (bs ++ gap) n [] in
    heap_inv hp (add_gap g gap) (St' m'' t'') bs'' fl'' -> heap_areas c' m'' bs'' (l0 ++ [(sl, e)]) ef ee ->
    (forall k, user_word first bs k -> m'' !! k = m !! k) -> Q n (St' m'' t'')) ->
  wp (extend_connect hp b ee ef el {| merge_below_block := NULL; merge_above_block := NULL;
        link_below_block := NULL; link_above_block := last |})
    (fun _ s' => wp rest Q s') (St' (entered m ee ef el) t).
Proof using All.
  intros Eb Hgapm HQ. destruct above_facts as (? & ? & ? & ? & ? & Hf8 & Hl8 & Hall & ? & ? & Hsl).
  destruct new_facts as (Hps & ? & ? & ? & Hnm & ? & ? & ? & ? & ?). pose proof above_params as HP'.
  unfold extend_connect. cbn [merge_below_block merge_above_block link_below_block link_above_block].
  destruct (Z.eqb_spec last NULL) as [E|_]; [unfold NULL in E; lia|]. rewrite Z.eqb_refl. cbn [negb andb whenM].
  apply wp_bind, wp_ret, wp_bind. unfold _Heap_Link_above. rewrite (u64_small (ef - last)) by lia.
  pose proof Hlay as (Hg & (Hs & _ & Hl) & _). set (gp := ef - last) in *. set (n := el - ef) in *.
  assert (Hgm : gp mod ps = 0).
  { destruct HP as [_ _ _ [_ [_ Hlm]] _]. destruct Hna as [_ Hem _ _ _ _]. unfold gp.
    replace (ef - last) with (ef + HEAP_BLOCK_HEADER_SIZE - (last + HEAP_BLOCK_HEADER_SIZE)) by lia. by apply mod_sub. }
  apply wp_bind. apply (block_set_size_spec c' _ (u64 (first - last)) gp (lastu true bs)).
  { unfold entered, PREV_SIZE, SIZE_AND_FLAG. rewrite !lookup_insert_ne by lia. exact Hl. }
  { apply (head_size_ok hp ps mbs first first last HP []); [done|constructor|cbn; lia]. }
  { by eapply mult_even; [exact HP|]. }
  apply (set_prev_used_spec c' _ 0 false); [|done|].
  { rewrite lookup_insert_ne by (unfold SIZE_AND_FLAG; lia). unfold entered. by rewrite lookup_insert_eq. }
  set (m3 := <[el + SIZE_AND_FLAG := _]> _).
  assert (Hc : changes above_words m m3).
  { unfold m3, entered, above_words. repeat (apply changes_insert; [set_solver|]). apply changes_refl. }
  assert (Hsl3 : m3 !! sl = Some e).
  { unfold m3, entered, SIZE_AND_FLAG, PREV_SIZE in *. rewrite Z.add_0_r in Hsl. rewrite !lookup_insert_ne by lia. done. }
  destruct (above_frame m3 Hc) as (Ht & Hlk & Hus & Hma).
  apply (wp_mono _ (fun _ s' => wp rest Q s')); [|intros [] s' HW; exact HW].
  assert (Hbl : first + sizes (bs ++ [Blk gp true]) = ef) by (rewrite sizes_app; cbn; lia).
  rewrite <- Hbl at 1.
  apply (grown_spec c' el (bs ++ [Blk gp true]) n [] [Blk gp true] m3); [done|done|lia| | |by constructor|cbn; lia|].
  - rewrite <- app_assoc. eapply (layout_above hp c HP m bs fl Hlay m3 [Blk gp true; Blk n true]); try done.
    + repeat (apply Forall_cons; split); [split; [done|cbn; lia]..|constructor].
    + by repeat constructor.
    + rewrite !tail_cons. cbn [bsize bused]. unfold m3, entered, SIZE_AND_FLAG, PREV_SIZE. split_and!; try done.
      * mem_lookup. done.
      * replace (last + gp) with ef by lia. mem_lookup. done.
      * replace (last + gp + n) with el by lia. split_and!; [done|cbn; lia|].
        unfold SIZE_AND_FLAG. cbn [last_block ctl_above]. mem_lookup. rewrite Z.sub_diag. done.
  - rewrite <- app_assoc. cbn [app]. apply Permutation_app_head. by rewrite Permutation_swap.
  - intros m'' t'' fl'' Hinv Hfr.
    assert (Hold : forall k, k = first \/ user_word first bs k -> m'' !! k = m !! k).
    { intros k Hk. destruct (above_kept [Blk gp true] n m3 m'' k Hc) as [E1 E2]; [left; cbn; lia|done|done|].
      destruct (Z.eq_dec k sl) as [->|Hne]; [|by apply E2].
      unfold PREV_SIZE in Hsl. rewrite Z.add_0_r in Hsl. by rewrite E1, Hsl3, Hsl. }
    eapply HQ; [done| |by auto]. assert (Hug : forall b' x, used_at first (bs ++ [Blk gp true]) b' x ->
      b' <> ef -> used_at first (freed (bs ++ [Blk gp true]) n []) b' x).
    { intros b' x Hu Hne. apply (freed_used c); [rewrite used_at_app; by left|by rewrite Hbl]. }
    apply above_areas; [|..|lia].
    + eapply gap_chain_app; [eapply above_chain; [exact Hc|left; cbn; lia|exact Hfr]|]. cbn. split_and!; [done| |].
      * unfold PREV_SIZE in *. rewrite Z.add_0_r in *. rewrite Hold; [done|exact start_kept].
      * exists last, gp. destruct Har as [_ _ [? _] _]. split_and!; try done; try lia.
        apply Hug; [|lia]. rewrite used_at_app. right. cbn. left. split_and!; [done|lia|done].
    + unfold PREV_SIZE. rewrite Z.add_0_r. rewrite Hfr.
      * unfold m3, entered, SIZE_AND_FLAG, PREV_SIZE. mem_lookup. rewrite Z.add_0_r. mem_lookup. done.
      * left. cbn [first_block ctl_above]. eapply used_at_user; [apply Hug with (b' := last) (x := gp); [|lia]|lia].
        rewrite used_at_app. right. cbn. left. split_and!; [done|lia|done].
Qed.
End above.

(** ** Below the only area of the heap *)

Section below.
Context (Hl0 : l0 = []) (Hbe : ee <= area_begin c) (Hmap : mapped_range m b e).
Context (Hhp : hp + 32 <= b \/ e <= hp).
Abbreviation c' := (ctl_below c b ef).
Abbreviation St' m t := {| hmem := m; ctl := with_stats c' t |}.
Abbreviation rest := (_Heap_Set_last_block_size;;
  fs' ← get_stat free_size;
  set_stats (fun t1 => set_size (size t1 +! (fs' -! free_size t)) t1);;
  mret (fs' -! free_size t)).

Lemma below_facts : 0 <= first /\ sl = first /\ first + mbs <= last /\ last + 16 <= e < last + 16 + ps /\ e < 2 ^ 64 /\
  first mod 8 = 0 /\ last mod 8 = 0 /\ first + sizes bs = last /\ area_begin c <= first /\ area_end c = e /\
  m !! first = Some e /\ ee <= first.
Proof using All.
  destruct Har as [Hc [Hsl ?] [? ?] [? ?]]. rewrite Hl0 in Hc. cbn in Hc. pose proof (bounds hp c HP).
  unfold HEAP_BLOCK_HEADER_SIZE, PREV_SIZE in *. rewrite Z.add_0_r in Hsl. subst sl. pose proof (first_mod8 hp c HP).
  assert (last mod 8 = 0) by (destruct HP as [_ _ _ [_ [_ ?]] _]; by eapply header_mod8; [exact HP|]).
  assert (first + sizes bs = last) by apply Hlay. split_and!; try lia; done.
Qed.

Lemma below_params : ctl_params hp c'.
Proof using All.
  destruct below_facts as (? & ? & ? & ? & ? & _ & _ & _ & _ & _ & _ & ?).
  destruct new_facts as (? & ? & _ & _ & _ & _ & ? & ? & ? & ?).
  destruct HP as [? ? ? [? [? ?]] [? _]]. destruct Hna. unfold HEAP_BLOCK_HEADER_SIZE in *.
  split; cbn [page_size min_block_size first_block last_block ctl_below]; unfold HEAP_BLOCK_HEADER_SIZE; try done;
    split_and!; try done; lia.
Qed.

Definition below_words : list Z :=
  [ef + PREV_SIZE; ef + SIZE_AND_FLAG; el + PREV_SIZE; el + SIZE_AND_FLAG].

Lemma below_frame m' : changes below_words m m' ->
  (forall k, first <= k -> m' !! k = m !! k) /\
  (forall k, k ∈ link_words (hp :: fl) -> m' !! k = m !! k) /\ mapped_area ef last m'.
Proof using All.
  intros [Hc Hm']. destruct below_facts as (? & ? & ? & ? & ? & _ & _ & Hall & _ & _ & _ & ?).
  destruct new_facts as (? & ? & _ & _ & _ & _ & ? & ? & ? & ?). pose proof Hlay as (Hg & Ht & Hp & _).
  unfold below_words, PREV_SIZE, SIZE_AND_FLAG in *. split_and!.
  - intros k Hk. apply Hc. intros Hin. set_unfold in Hin. lia.
  - intros k Hkl. apply Hc. intros Hin. set_unfold in Hin.
    apply (link_word_cases hp ps mbs first last HP bs fl Hall Hp) in Hkl as [Hl|[Hl|(x & Hx & Hl)]];
      unfold NEXT, PREV in Hl; [lia|lia|].
    apply (free_addrs_range ps mbs) in Hx; [lia|lia|done].
  - intros k Hk8 Hr. apply Hm', Hmap; [done|unfold SIZE_AND_FLAG in Hr; lia..].
Qed.

(** The words of the heap when the new block was freed. *)
Lemma below_kept gap n m' m'' k : changes below_words m m' -> 0 < n -> ef + n + sizes gap = first ->
  uframe hp c' (freed [] n (gap ++ bs)) m' m'' -> user_word first bs k -> m'' !! k = m !! k.
Proof using All.
  intros Hc Hn Hsum Hfr Hk. destruct (below_frame m' Hc) as (Hu & _). pose proof (mbs_min hp c HP).
  pose proof Hk as Hk'. apply user_word_used in Hk' as (b' & x & Hus & Hkb).
  destruct (used_facts hp c HP m bs fl Hlay b' x Hus) as (_ & ? & ? & ? & _).
  rewrite Hfr; [apply Hu; lia|]. left. cbn [first_block ctl_below]. apply user_word_freed. exists b', x.
  split_and!; [|destruct new_facts as (_ & _ & _ & _ & _ & _ & ? & ? & ? & _); destruct below_facts as (? & _ & _ & _ & _ & _ & _ & _ & _ & _ & _ & ?); cbn; lia|lia|lia].
  cbn [app used_at bsize]. right. rewrite used_at_app. right. by rewrite Hsum.
Qed.

Lemma merge_below_spec Q : ee = area_begin c ->
  (forall m'' t'' fl'', let n := first - ef in let bs'' := freed [] n bs in
    heap_inv hp (add_gap g []) (St' m'' t'') bs'' fl'' -> heap_areas c' m'' bs'' [] ef e ->
    (forall k, user_word first bs k -> m'' !! k = m !! k) -> Q n (St' m'' t'')) ->
  wp (extend_connect hp b ee ef el {| merge_below_block := first; merge_above_block := NULL;
        link_below_block := NULL; link_above_block := NULL |})
    (fun _ s' => wp rest Q s') (St' (entered m ee ef el) t).
Proof using All.
  intros _ HQ. destruct below_facts as (? & Esl & ? & ? & ? & Hf8 & Hl8 & Hall & ? & ? & Hsl & ?).
  destruct new_facts as (Hps & ? & Hef8 & ? & ? & ? & ? & ? & ? & ?). pose proof below_params as HP'.
  unfold extend_connect. cbn [merge_below_block merge_above_block link_below_block link_above_block].
  destruct (Z.eqb_spec first NULL) as [E|_]; [unfold NULL in E; lia|]. rewrite Z.eqb_refl. cbn [negb andb whenM].
  apply wp_bind. unfold _Heap_Merge_below. apply wp_bind, wp_gets. cbv zeta. cbn [ctl page_size with_stats ctl_below].
  rewrite <- (na_align _ _ _ _ _ Hna). rewrite (u64_small (first - ef)) by lia. set (n := first - ef) in *.
  assert (Hnm : n mod ps = 0).
  { destruct HP as [_ _ [_ Hfm] _ _]. destruct Hna as [_ Hem _ _ _ _]. unfold n.
    replace (first - ef) with (first + HEAP_BLOCK_HEADER_SIZE - (ef + HEAP_BLOCK_HEADER_SIZE)) by lia. by apply mod_sub. }
  assert (Hne : Z.even n = true) by by eapply mult_even; [exact HP|].
  set (m1 := entered m ee ef el). apply wp_bind. eapply (wp_load (first + PREV_SIZE) e).
  { unfold m1, entered, PREV_SIZE, SIZE_AND_FLAG. cbn. rewrite Z.add_0_r. rewrite !lookup_insert_ne by lia. done. }
  change HEAP_PREV_BLOCK_USED with 1. rewrite (lor_1 n) by done.
  assert (Hw : is_Some (m1 !! (ef + PREV_SIZE)) /\ is_Some (m1 !! (ef + SIZE_AND_FLAG))).
  { destruct (enter_words m b e Hmap) as (? & ? & _); [lia|lia|]. unfold m1, entered.
    split; repeat apply is_Some_insert; done. }
  destruct Hw as [Hw1 Hw2]. apply wp_bind, wp_store; [exact Hw1|]. apply wp_bind, wp_store; [by apply is_Some_insert|].
  cbn [get_mem set_mem state_HasMem hmem ctl]. set (m3 := <[ef + SIZE_AND_FLAG := _]> _).
  assert (Hc : changes below_words m m3).
  { unfold m3, m1, entered, below_words. repeat (apply changes_insert; [set_solver|]). apply changes_refl. }
  destruct (below_frame m3 Hc) as (Hus & Hlk & Hma). pose proof Hlay as (Hg & _).
  apply (wp_mono _ (fun _ s' => wp rest Q s')); [|intros [] s' HW; exact HW].
  replace ef with (first_block c' + sizes []) at 1 by (cbn; lia).
  apply (grown_spec c' first [] n bs [] m3); [done|done|lia| | |constructor|done|].
  - apply (layout_below hp c HP m bs fl Hlay m3 [Blk n true]); try done.
    + apply Forall_cons. split; [|constructor]. split; [done|cbn; lia].
    + by constructor.
    + intros k Hk. apply Hus. apply (tag_range ps mbs) in Hk; [lia|lia|done].
    + cbn. lia.
    + cbn. unfold m3. by rewrite lookup_insert_eq.
    + apply Hus. unfold SIZE_AND_FLAG. lia.
  - cbn [app]. by rewrite Permutation_cons_append.
  - intros m'' t'' fl'' Hinv Hfr. eapply HQ; [exact Hinv| |].
    + split; cbn [page_size first_block last_block area_begin area_end ctl_below gap_chain]; [done| |done|lia].
      split; [|lia]. unfold PREV_SIZE. rewrite Z.add_0_r. rewrite Hfr.
      * unfold m3, m1, SIZE_AND_FLAG, PREV_SIZE. mem_lookup. rewrite Z.add_0_r. mem_lookup. done.
      * right. unfold outside, SIZE_AND_FLAG, NEXT, PREV. cbn [first_block last_block ctl_below].
        destruct HP as [_ _ _ _ [_ ?]]. unfold HEAP_BLOCK_HEADER_SIZE in *. lia.
    + intros k Hk. apply (below_kept [] n m3 m'' k); [done|lia|cbn; lia|done|done].
Qed.

Lemma link_below_spec Q : ee < area_begin c -> el + mbs <= first ->
  (forall m'' t'' fl'', let n := el - ef in let gap := [Blk (first - el) true] in
    let bs'' := freed [] n (gap ++ bs) in
    heap_inv hp (add_gap g gap) (St' m'' t'') bs'' fl'' -> heap_areas c' m'' bs'' [(ef, ee)] first e ->
    (forall k, user_word first bs k -> m'' !! k = m !! k) -> Q n (St' m'' t'')) ->
  wp (extend_connect hp b ee ef el {| merge_below_block := NULL; merge_above_block := NULL;
        link_below_block := first; link_above_block := NULL |})
    (fun _ s' => wp rest Q s') (St' (entered m ee ef el) t).
Proof using All.
  intros _ Hgapm HQ. destruct below_facts as (? & Esl & ? & ? & ? & Hf8 & Hl8 & Hall & ? & ? & Hsl & ?).
  destruct new_facts as (Hps & ? & Hef8 & ? & Hnm & Hne & ? & ? & ? & ?). pose proof below_params as HP'.
  unfold extend_connect. cbn [merge_below_block merge_above_block link_below_block link_above_block].
  destruct (Z.eqb_spec first NULL) as [E|_]; [unfold NULL in E; lia|]. rewrite Z.eqb_refl. cbn [negb andb whenM].
  apply wp_bind. unfold _Heap_Link_below. rewrite (u64_small (first - el)) by lia.
  set (gp := first - el) in *. set (n := el - ef) in *.
  assert (Hgm : gp mod ps = 0).
  { destruct HP as [_ _ [_ Hfm] _ _]. destruct Hna as [_ _ _ _ Hem _]. unfold gp.
    replace (first - el) with (first + HEAP_BLOCK_HEADER_SIZE - (el + HEAP_BLOCK_HEADER_SIZE)) by lia. by apply mod_sub. }
  change HEAP_PREV_BLOCK_USED with 1. rewrite (lor_1 gp) by (by eapply mult_even; [exact HP|]).
  apply wp_store; [unfold entered; cbn; by rewrite lookup_insert_eq|]. apply wp_bind, wp_ret.
  cbn [get_mem set_mem state_HasMem hmem ctl]. set (m3 := <[el + SIZE_AND_FLAG := _]> _).
  assert (Hc : changes below_words m m3).
  { unfold m3, entered, below_words. repeat (apply changes_insert; [set_solver|]). apply changes_refl. }
  destruct (below_frame m3 Hc) as (Hus & Hlk & Hma). pose proof Hlay as (Hg & _).
  replace ef with (first_block c' + sizes []) at 1 by (cbn; lia).
  apply (grown_spec c' first [] n (Blk gp true :: bs) [Blk gp true] m3); [done|done|lia| | |by constructor|cbn; lia|].
  - apply (layout_below hp c HP m bs fl Hlay m3 [Blk n true; Blk gp true]); try done.
    + repeat (apply Forall_cons; split); [split; [done|cbn; lia]..|constructor].
    + by repeat constructor.
    + intros k Hk. apply Hus. apply (tag_range ps mbs) in Hk; [lia|lia|done].
    + cbn. lia.
    + cbn. unfold m3, entered, SIZE_AND_FLAG, PREV_SIZE. replace (ef + n) with el by lia.
      split_and!; try done; mem_lookup; done.
    + apply Hus. unfold SIZE_AND_FLAG. lia.
  - cbn [app]. change (Blk n true :: Blk gp true :: bs) with ([Blk n true; Blk gp true] ++ bs).
    by rewrite Permutation_app_comm.
  - intros m'' t'' fl'' Hinv Hfr. eapply HQ; [exact Hinv| |].
    + assert (Hug : used_at ef (freed [] n (Blk gp true :: bs)) el gp).
      { apply (freed_used c' [] n (Blk gp true :: bs) el gp); [|cbn; lia]. cbn. right. left. split_and!; [done|lia|done]. }
      split; cbn [page_size first_block last_block area_begin area_end ctl_below gap_chain]; [| |done|lia].
      * split_and!; [done| |].
        -- unfold PREV_SIZE. rewrite Z.add_0_r. rewrite Hfr.
           ++ unfold m3, entered, SIZE_AND_FLAG, PREV_SIZE. mem_lookup. rewrite Z.add_0_r. mem_lookup. done.
           ++ right. unfold outside, SIZE_AND_FLAG, NEXT, PREV. cbn [first_block last_block ctl_below].
              destruct HP as [_ _ _ _ [_ ?]]. unfold HEAP_BLOCK_HEADER_SIZE in *. lia.
        -- exists el, gp. unfold HEAP_BLOCK_HEADER_SIZE. split_and!; try done; try lia.
      * split; [|lia]. unfold PREV_SIZE. rewrite Z.add_0_r. rewrite Hfr; [by rewrite Hus by lia|].
        left. eapply used_at_user; [exact Hug|lia].
    + intros k Hk. apply (below_kept [Blk gp true] n m3 m'' k); [done|lia|cbn; lia|done|done].
Qed.
End below.
End extend.

(** * The contract *)

(** The heap [s'] with the blocks [bs'] and the areas [l0'] and [sl', e']; the
    used blocks of [s] kept their contents, except for the word at [sl] when
    the area there grew. *)
Definition grown (hp : Z) (g : gaps) (s : state) (bs : list block) (except : Z -> Prop) (s' : state)
    (bs' : list block) (l0' : list (Z * Z)) (sl' e' : Z) : Prop :=
  (exists fl', heap_inv hp g s' bs' fl') /\ heap_areas (ctl s') (hmem s') bs' l0' sl' e' /\
  forall k, user_word (first_block (ctl s)) bs k -> ~ except k -> hmem s' !! k = hmem s !! k.

(** What [_Heap_Extend] of the heap [s] by the area of [sz] bytes at [b]
    returns and leaves. *)
Definition extended (hp : Z) (g : gaps) (s : state) (bs : list block) (l0 : list (Z * Z)) (sl e b sz r : Z)
    (s' : state) : Prop :=
  let c := ctl s in
  let first := first_block c in
  let last := last_block c in
  let never := fun _ => False in
  match _Heap_Get_first_and_last_block b sz (page_size c) (min_block_size c) with
  | None => r = 0 /\ s' = s
  | Some (ef, el) =>
      if e <? b then
        let gap := [Blk (ef - last) true] in
        r = el - ef /\ grown hp (add_gap g gap) s bs never s' (freed (bs ++ gap) r []) (l0 ++ [(sl, e)]) ef (b + sz)
      else if e =? b then
        r = el - last /\ grown hp g s bs (fun k => k = sl) s' (freed bs r []) l0 sl (b + sz)
      else if area_begin c <? b + sz then r = 0 /\ s' = s
      else if area_begin c =? b + sz then
        r = first - ef /\ grown hp g s bs never s' (freed [] r bs) [] ef e
      else
        let gap := [Blk (first - el) true] in
        r = el - ef /\ grown hp (add_gap g gap) s bs never s' (freed [] r (gap ++ bs)) [(ef, b + sz)] first e
  end.

Lemma add_no_gap g : add_gap g [] = g.
Proof. destruct g. unfold add_gap. cbn. f_equal; lia. Qed.

Section contract.
Context (hp : Z) (g : gaps) (s : state) (bs : list block) (fl : list Z) (l0 : list (Z * Z)) (sl e b ee ef el : Z).
Abbreviation c := (ctl s).
Context (HP : ctl_params hp c) (Hlay : ctl_layout hp c (hmem s) bs fl) (Hst : stats_inv g (stats c) bs).
Context (Har : heap_areas c (hmem s) bs l0 sl e) (Hgs : 0 <= gap_size g <= sizes bs).
Context (Hna : new_area c b ee ef el) (He : 0 <= b < ee).
Context (Hmap : mapped_range (hmem s) (Z.min b (first_block c)) (Z.max e ee)).
Context (Hhp : hp + 32 <= Z.min b (first_block c) \/ Z.max e ee <= hp).
Abbreviation never := (fun _ : Z => False).

(** The new area lies above the heap. *)
Lemma extend_area_above Q : e <= b -> (e < b -> last_block c + min_block_size c <= b) ->
  (forall s', let gap := [Blk (ef - last_block c) true] in e < b ->
    grown hp (add_gap g gap) s bs never s' (freed (bs ++ gap) (el - ef) []) (l0 ++ [(sl, e)]) ef ee -> Q (el - ef) s') ->
  (forall s', e = b ->
    grown hp g s bs (fun k => k = sl) s' (freed bs (el - last_block c) []) l0 sl ee -> Q (el - last_block c) s') ->
  wp (extend_area hp b ee ef el (free_size (stats c))) Q s.
Proof using All.
  intros Hle Hgap Hlink Hmerge. pose proof (mbs_min hp c HP). pose proof (bounds hp c HP).
  assert (Hna' := Hna). destruct Hna'. unfold HEAP_BLOCK_HEADER_SIZE in *.
  assert (Har' := Har). destruct Har' as [_ [_ Hsll] [Hend He64] [Hce Hab]]. unfold HEAP_BLOCK_HEADER_SIZE in Hend.
  assert (Hm1 : mapped_range (hmem s) (first_block c) ee) by (intros k ???; apply Hmap; lia || done).
  assert (Hh1 : hp + 32 <= first_block c \/ ee <= hp) by lia.
  apply wp_bind, wp_gets, wp_bind, wp_eta.
  apply (search_above_spec hp c HP (hmem s) (stats c) bs fl l0 sl e Hlay Har b ee He); [done|..].
  - intros la Ee. apply wp_bind.
    eapply (enter_above_spec hp c HP (stats c) b ee ef el Hna) with (lo := first_block c) (hi := ee); [|lia|lia|lia|lia|lia|lia|].
    { intros k ???. apply is_Some_insert, Hm1; done. }
    apply wp_bind.
    apply (merge_above_spec hp c HP g (hmem s) (stats c) bs fl l0 sl e Hlay Hst Har b ee ef el Hna Hgs Hle Hm1 Hh1); [done|].
    intros m'' t'' fl'' n bs'' Hinv Har'' Hk. rewrite add_no_gap in Hinv. apply Hmerge; [lia|].
    split_and!; [by eexists| |done]. destruct Har''. by split.
  - intros Hlt. apply wp_bind.
    eapply (enter_above_spec hp c HP (stats c) b ee ef el Hna); [exact Hm1|lia|reflexivity|lia|lia|lia|lia|].
    apply wp_bind.
    apply (link_above_spec hp c HP g (hmem s) (stats c) bs fl l0 sl e Hlay Hst Har b ee ef el Hna Hgs Hle Hm1 Hh1); [done|lia|].
    intros m'' t'' fl'' n gap bs'' Hinv Har'' Hk. apply Hlink; [lia|].
    split_and!; [by eexists| |by auto]. destruct Har''. by split.
Qed.

(** The new area lies below the only area of the heap or overlaps it. *)
Lemma extend_area_below Q : b < e -> l0 = [] ->
  (ee < area_begin c -> ee + min_block_size c <= first_block c) ->
  (area_begin c < ee -> Q 0 s) ->
  (forall s', area_begin c = ee ->
    grown hp g s bs never s' (freed [] (first_block c - ef) bs) [] ef e -> Q (first_block c - ef) s') ->
  (forall s', let gap := [Blk (first_block c - el) true] in ee < area_begin c ->
    grown hp (add_gap g gap) s bs never s' (freed [] (el - ef) (gap ++ bs)) [(ef, ee)] (first_block c) e -> Q (el - ef) s') ->
  wp (extend_area hp b ee ef el (free_size (stats c))) Q s.
Proof using All.
  intros Hlt El0 Hgap Hno Hmerge Hlink. pose proof (mbs_min hp c HP). pose proof (bounds hp c HP).
  assert (Hna' := Hna). destruct Hna'. unfold HEAP_BLOCK_HEADER_SIZE in *.
  assert (Har' := Har). destruct Har' as [_ [_ Hsll] [Hend He64] [Hce Hab]]. unfold HEAP_BLOCK_HEADER_SIZE in Hend.
  assert (Hm1 : mapped_range (hmem s) (Z.min b (first_block c)) e) by (intros k ???; apply Hmap; lia || done).
  apply wp_bind, wp_gets, wp_bind, wp_eta.
  apply (search_below_spec hp c HP (hmem s) (stats c) bs fl l0 sl e Hlay Har b ee He); [done|..|done].
  - intros _ Ho. apply wp_ret. rewrite <- state_eta. apply Hno. lia.
  - intros Hee. assert (Hm2 : mapped_range (hmem s) b e) by (intros k ???; apply Hmap; lia || done).
    assert (Hh1 : hp + 32 <= b \/ e <= hp) by lia. apply wp_bind.
    eapply (enter_below_spec hp c HP (stats c) b ee ef el Hna); [exact Hm2|lia|lia|lia|lia|]. apply wp_bind.
    apply (merge_below_spec hp c HP g (hmem s) (stats c) bs fl l0 sl e Hlay Hst Har b ee ef el Hna Hgs El0); [lia|done|done|done|].
    intros m'' t'' fl'' n bs'' Hinv Har'' Hk. rewrite add_no_gap in Hinv. apply Hmerge; [lia|].
    split_and!; [by eexists| |by auto]. destruct Har''. by split.
  - intros Hee. assert (Hm2 : mapped_range (hmem s) b e) by (intros k ???; apply Hmap; lia || done).
    assert (Hh1 : hp + 32 <= b \/ e <= hp) by lia. apply wp_bind.
    eapply (enter_below_spec hp c HP (stats c) b ee ef el Hna); [exact Hm2|lia|lia|lia|lia|]. apply wp_bind.
    apply (link_below_spec hp c HP g (hmem s) (stats c) bs fl l0 sl e Hlay Hst Har b ee ef el Hna Hgs El0); [lia|done|done|done|lia|].
    intros m'' t'' fl'' n gap bs'' Hinv Har'' Hk. apply Hlink; [lia|].
    split_and!; [by eexists| |by auto]. destruct Har''. by split.
Qed.
End contract.

(** C22. Extending a heap by a further memory area does not fault and its walk
    over the areas terminates, under these conditions: the new area lies above
    all areas of the heap, or the heap has only one area; where it leaves a
    gap, it begins at least a minimum block size above the last block of the
    heap, resp. ends at least a minimum block size below its first block; the
    memory between the old and the new area is mapped, and the control block
    lies outside of it.  Then an area that is too small or overlaps the heap
    is refused with 0 and no effect.  An adjoining area enlarges the heap at
    that end; another one is appended behind a gap that counts as a used
    block.  The new memory becomes one free block, merged with a free block
    at the seam, the result is its size, the heap and its list of areas are
    consistent again, and the contents of the used blocks are unchanged. *)
Theorem heap_extend_correct hp g s bs fl l0 sl e b sz :
  let c := ctl s in
  heap_inv hp g s bs fl -> heap_areas c (hmem s) bs l0 sl e -> 0 <= gap_size g <= sizes bs ->
  0 <= b -> 0 <= sz < 2 ^ 64 -> b + page_size c + 32 < 2 ^ 64 ->
  e <= b \/ l0 = [] ->
  (e < b -> last_block c + min_block_size c <= b) ->
  (b + sz < area_begin c -> b + sz + min_block_size c <= first_block c) ->
  mapped_range (hmem s) (Z.min b (first_block c)) (Z.max e (b + sz)) ->
  hp + 32 <= Z.min b (first_block c) \/ Z.max e (b + sz) <= hp ->
  wp (_Heap_Extend hp b sz) (extended hp g s bs l0 sl e b sz) s.
Proof.
  intros c (HP & Hlay & Hst) Har Hgs Hb Hsz Hbig Hpos Hgap1 Hgap2 Hmap Hhp. unfold _Heap_Extend.
  do 2 apply wp_bind, wp_gets. cbv zeta. apply wp_bind, wp_gets. fold c. unfold extended. fold c. cbv zeta.
  pose proof (ps_pos hp c HP). pose proof (mbs_min hp c HP). pose proof (bounds hp c HP).
  pose proof (get_first_and_last_block_spec b sz (page_size c) (min_block_size c) ltac:(lia) Hb Hsz Hbig ltac:(lia)) as Hfl.
  destruct (_Heap_Get_first_and_last_block b sz (page_size c) (min_block_size c)) as [[ef el]|].
  2: { by destruct (u64 (b + sz) <? b); apply wp_ret. }
  destruct Hfl as (Hf1 & Hf2 & Hf3 & Hf4 & Hf5 & Hf6 & Hf7 & Hf8).
  rewrite (u64_small (b + sz)) by lia. set (ee := b + sz) in *. destruct (Z.ltb_spec ee b); [lia|].
  assert (Hna : new_area c b ee ef el) by (split; unfold HEAP_BLOCK_HEADER_SIZE in *; try done; lia).
  assert (He : 0 <= b < ee) by lia. destruct (Z.le_gt_cases e b) as [Hle|Hgt].
  - apply (extend_area_above hp g s bs fl l0 sl e b ee ef el HP Hlay Hst Har Hgs Hna He Hmap Hhp); [done|done|..].
    + intros s' gap Hlt Hgr. destruct (Z.ltb_spec e b); [done|lia].
    + intros s' <- Hgr. by rewrite Z.ltb_irrefl, Z.eqb_refl.
  - destruct Hpos as [?|El0]; [lia|]. destruct (Z.ltb_spec e b); [lia|]. destruct (Z.eqb_spec e b); [lia|].
    apply (extend_area_below hp g s bs fl l0 sl e b ee ef el HP Hlay Hst Har Hgs Hna He Hmap Hhp); [lia|done|done|..].
    + intros Ho. change (area_begin c < ee) in Ho. by destruct (Z.ltb_spec (area_begin c) ee); [|lia].
    + intros s' E0 Hgr. change (area_begin c = ee) in E0. rewrite E0. by rewrite Z.ltb_irrefl, Z.eqb_refl.
    + intros s' gap Hlt Hgr. change (ee < area_begin c) in Hlt. destruct (Z.ltb_spec (area_begin c) ee); [lia|].
      destruct (Z.eqb_spec (area_begin c) ee); [lia|done].
Qed.

(** A heap that was just initialized has one area. *)
Lemma initialized_areas hp b sz page_size0 r s : initialized hp b sz page_size0 r s -> 0 <= b ->
  heap_areas (ctl s) (hmem s) [Blk r false] [] (first_block (ctl s)) (b + sz).
Proof.
  intros (_ & ? & ? & ? & ? & _ & ? & ? & ? & ? & ?) ?.
  split; unfold HEAP_BLOCK_HEADER_SIZE; cbn [gap_chain]; try done; try lia. split; [done|lia].
Qed.

Lemma mapped_range_check m lo n : lo mod 8 = 0 -> 0 <= n ->
  forallb (fun k => bool_decide (is_Some (m !! k))) (words lo n) = true ->
  mapped_range m lo (lo + 8 * n).
Proof.
  intros Hlo Hn Hf k Hk H1 H2. rewrite forallb_forall in Hf. specialize (Hf k).
  rewrite bool_decide_eq_true in Hf. apply Hf. apply list_elem_of_In, elem_of_words; [done|].
  split; [|lia]. rewrite Zminus_mod, Hlo, Hk. done.
Qed.

(** A control block at 512 and the memory from 1024 to 3072, of which the
    heap has the first half. *)
Definition half_start : state :=
  {| hmem := list_to_map ((fun k => (k, 0)) <$> (words 512 4 ++ words 1024 256));
     ctl := Build_Heap_Control 0 0 0 0 0 0 zero_statistics |}.

Definition half_state : state :=
  match _Heap_Initialize 512 1024 1024 0 half_start with
  | Some (_, s) => s
  | None => half_start
  end.

Lemma half_initialized : initialized 512 1024 1024 0 1008 half_state.
Proof.
  assert (Hw : wp (_Heap_Initialize 512 1024 1024 0)
    (fun r s => r = 0 \/ initialized 512 1024 1024 0 r s) half_start).
  { apply initialize_spec; try lia; [|auto]. destruct sample_area_ok as (H1 & H2 & _).
    split_and!; [exact H1| |lia|lia]. intros k ???. apply H2; [done|lia|lia]. }
  unfold wp in Hw. unfold half_state.
  assert (exists s, _Heap_Initialize 512 1024 1024 0 half_start = Some (1008, s)) as [s E].
  { eexists. vm_compute. reflexivity. }
  rewrite E in *. destruct Hw as [Hw|Hw]; [discriminate Hw|exact Hw].
Qed.

Lemma heap_extend_correct_witness :
  wp (_Heap_Extend 512 2048 1024)
     (extended 512 no_gaps half_state [Blk 1008 false] [] 1024 2048 2048 1024) half_state.
Proof.
  pose proof half_initialized as Hi.
  assert (Hf : first_block (ctl half_state) = 1024) by (vm_compute; reflexivity).
  pose proof (initialized_areas _ _ _ _ _ _ Hi ltac:(lia)) as Ha. rewrite Hf in Ha.
  assert (Hp : page_size (ctl half_state) = 8) by (vm_compute; reflexivity).
  apply (heap_extend_correct 512 no_gaps half_state [Blk 1008 false] [first_block (ctl half_state)]).
  - apply Hi.
  - exact Ha.
  - cbn. lia.
  - lia.
  - lia.
  - rewrite Hp. lia.
  - left. lia.
  - lia.
  - intros Hc. exfalso. revert Hc. vm_compute. discriminate.
  - rewrite Hf. apply (mapped_range_check _ 1024 256); [reflexivity|lia|vm_compute; reflexivity].
  - rewrite Hf. lia.
Defined.

(** * The conditions on the position of the area are needed *)

(** The addresses of the blocks [_Heap_Iterate] visits. *)
Definition visited : M state (list Z) :=
  _Heap_Iterate (fun b _ _ acc => (false, acc ++ [b])) [].

Definition two_areas_start : state :=
  {| hmem := list_to_map ((fun k => (k, 0)) <$> (words 512 4 ++ words 640 8 ++ words 1024 8 ++ words 2048 8));
     ctl := Build_Heap_Control 0 0 0 0 0 0 zero_statistics |}.

(** A heap with an area of 64 bytes at 1024 and another at 2048. *)
Definition two_areas : M state Z :=
  _Heap_Initialize 512 1024 64 8;; _Heap_Extend 512 2048 64.

(** A third area below both is linked to the last of the areas above it
    instead of the next one: the call reports success, but a walk over the
    heap skips the area in the middle.  A third area that adjoins the first
    area and overlaps the second is refused with 0, but by then the end of
    the first area was overwritten with the end of the refused area. *)
Example two_areas_linked_wrong :
  fst <$> (two_areas;; visited) two_areas_start = Some [1024; 1072; 2048] /\
  fst <$> (two_areas;; _Heap_Extend 512 640 64) two_areas_start = Some 48 /\
  fst <$> (two_areas;; _Heap_Extend 512 640 64;; visited) two_areas_start = Some [640; 688; 2048] /\
  fst <$> (two_areas;; prev_size 1024) two_areas_start = Some 1088 /\
  fst <$> (two_areas;; _Heap_Extend 512 1088 1000) two_areas_start = Some 0 /\
  fst <$> (two_areas;; _Heap_Extend 512 1088 1000;; prev_size 1024) two_areas_start = Some 2088.
Proof. vm_compute. split_and!; reflexivity. Qed.

(** An area eight bytes above the end of the heap: the call reports success,
    but the gap becomes a used block of 24 bytes, less than the minimum block
    size, which the walk over the heap rejects. *)
Example narrow_gap_rejected :
  fst <$> (_Heap_Extend 512 2056 1016;; visited) half_state = Some [1024; 2032; 2056] /\
  fst <$> (_Heap_Walk true 512) half_state = Some true /\
  fst <$> (_Heap_Extend 512 2056 1016;; _Heap_Walk true 512) half_state = Some false.
Proof. vm_compute. split_and!; reflexivity. Qed.

End HeapExtend.
