(* ===== verification/HeapGreedy.v ===== *)
(** Greedy allocation (score/heapgreedy.c), with which tests and the shell
    exhaust a heap and give its memory back.

    The blocks that were taken are linked through the first word of their
    allocation areas.  The proofs use that the used blocks determine all
    blocks of a heap, since free blocks are never adjacent. *)

From S2P Require Import Prelude DList Heap HeapInv HeapAlloc HeapInit HeapFree HeapCorrect.
Import Heap HeapInv HeapAlloc HeapInit HeapFree HeapCorrect.
Open Scope width_scope.

Module HeapGreedy.

(** * heapgreedy.c *)

(** The first loop: allocate the sizes that shall stay available. *)
Definition greedy_reserve_step (heap block_size allocated_blocks : Z) : M state Z :=
  next ← _Heap_Allocate heap block_size;
  if negb (next =? NULL) then
    page_size ← get page_size;
    let next_block := _Heap_Block_of_alloc_area next page_size in
    set_next next_block allocated_blocks;;
    mret next_block
  else mret allocated_blocks.

Fixpoint greedy_reserve_loop (heap : Z) (block_sizes : list Z) (allocated_blocks : Z) : M state Z :=
  match block_sizes with
  | [] => mret allocated_blocks
  | block_size :: block_sizes =>
      allocated_blocks ← greedy_reserve_step heap block_size allocated_blocks;
      greedy_reserve_loop heap block_sizes allocated_blocks
  end.

(** The second loop: take all free blocks. *)
Definition greedy_take_loop (heap blocks : Z) : M state (Z + Z) :=
  let free_list_tail := _Heap_Free_list_tail heap in
  current ← _Heap_Free_list_first heap;
  if negb (current =? free_list_tail) then
    size ← _Heap_Block_size current;
    _Heap_Block_allocate heap current (_Heap_Alloc_area_of_block current)
      (size -! HEAP_BLOCK_HEADER_SIZE);;
    set_next current blocks;;
    mret (inl current)
  else mret (inr blocks).

Definition _Heap_Greedy_free (heap blocks : Z) : M state unit :=
  whileM (fun blocks =>
    if negb (blocks =? NULL) then
      let current := blocks in
      blocks ← next blocks;
      _Heap_Free heap (_Heap_Alloc_area_of_block current);;
      mret (inl blocks)
    else mret (inr tt)) blocks.

(** The third loop of the code is the loop of [_Heap_Greedy_free]. *)
Definition _Heap_Greedy_allocate (heap : Z) (block_sizes : list Z) : M state Z :=
  allocated_blocks ← greedy_reserve_loop heap block_sizes NULL;
  blocks ← whileM (greedy_take_loop heap) NULL;
  _Heap_Greedy_free heap allocated_blocks;;
  mret blocks.

(** Returns the blocks and the allocatable size. *)
Definition _Heap_Greedy_allocate_all_except_largest (heap : Z) : M state (Z * Z) :=
  info ← _Heap_Get_free_information heap;
  let allocatable_size :=
    if 0 <? largest info then largest info -! HEAP_BLOCK_HEADER_SIZE +! HEAP_ALLOC_BONUS else 0 in
  blocks ← _Heap_Greedy_allocate heap [allocatable_size];
  mret (blocks, allocatable_size).

(** * The used blocks of a heap *)

(** Addresses and sizes of the used blocks. *)
Fixpoint useds (a : Z) (bs : list block) : list (Z * Z) :=
  match bs with
  | [] => []
  | b :: bs' => (if bused b then [(a, bsize b)] else []) ++ useds (a + bsize b) bs'
  end.

Lemma elem_of_useds a bs b x : (b, x) ∈ useds a bs <-> used_at a bs b x.
Proof.
  revert a. induction bs as [|[y u] bs IH]; intros a; cbn; [set_solver|].
  rewrite elem_of_app, IH. destruct u; set_unfold; naive_solver.
Qed.

Lemma useds_app a l1 l2 : useds a (l1 ++ l2) = useds a l1 ++ useds (a + sizes l1) l2.
Proof.
  revert a. induction l1 as [|y l1 IH]; intros a; cbn; [by rewrite Z.add_0_r|].
  by rewrite IH, <- app_assoc, Z.add_assoc.
Qed.

Lemma sum_useds a bs : foldr Z.add 0 (useds a bs).*2 = sizes_of true bs.
Proof.
  revert a. induction bs as [|[y u] bs IH]; intros a; [done|]. cbn [useds]. rewrite sizes_of_cons.
  destruct u; cbn; rewrite IH; lia.
Qed.

Lemma length_useds a bs : Z.of_nat (length (useds a bs)) = count_of true bs.
Proof.
  revert a. induction bs as [|[y u] bs IH]; intros a; [done|]. cbn [useds]. rewrite count_of_cons, length_app, Nat2Z.inj_add, IH.
  by destruct u.
Qed.

Lemma sizes_split bs : sizes bs = sizes_of true bs + sizes_of false bs.
Proof.
  induction bs as [|[y u] bs IH]; [done|]. rewrite !sizes_of_cons. cbn [sizes bsize bused]. rewrite IH.
  destruct u; cbn; lia.
Qed.

Lemma count_free_addrs a bs : count_of false bs = Z.of_nat (length (free_addrs a bs)).
Proof.
  revert a. induction bs as [|[y u] bs IH]; intros a; [done|]. rewrite count_of_cons, (IH (a + y)). cbn.
  destruct u; cbn; [done|lia].
Qed.

Lemma count_of_bound ps mbs u bs : 32 <= mbs -> good ps mbs bs -> 0 <= 32 * count_of u bs <= sizes bs.
Proof.
  intros Hm. induction 1 as [|[y v] bs [_ Hy] _ IH]; [cbn; unfold count_of; cbn; lia|].
  rewrite count_of_cons. cbn in *. destruct (Bool.eqb v u); lia.
Qed.

Lemma sum_perm (l l' : list (Z * Z)) : l ≡ₚ l' -> foldr Z.add 0 l.*2 = foldr Z.add 0 l'.*2.
Proof. induction 1; cbn; lia. Qed.

Lemma sum_app (l l' : list (Z * Z)) : foldr Z.add 0 (l ++ l').*2 = foldr Z.add 0 l.*2 + foldr Z.add 0 l'.*2.
Proof. induction l; cbn in *; lia. Qed.

Lemma no_free_sizes bs : count_of false bs = 0 -> sizes_of false bs = 0.
Proof.
  unfold count_of, sizes_of. destruct (filter _ bs); cbn [length]; [done|lia].
Qed.

Lemma useds_NoDup ps mbs a bs : 32 <= mbs -> good ps mbs bs -> NoDup (useds a bs).
Proof.
  intros Hm Hg. revert a. induction Hg as [|[y u] bs [_ Hy] Hg IH]; intros a; cbn; [constructor|].
  destruct u; cbn; [|apply IH]. constructor; [|apply IH].
  intros Hin%elem_of_useds. apply (used_at_range _ _ _ _ _ _ Hm Hg) in Hin. cbn in *. lia.
Qed.

(** Two heaps on the same area with the same used blocks are equal. *)
Lemma blocks_determined ps mbs m m' a pu bs bs' : 32 <= mbs -> good ps mbs bs -> good ps mbs bs' ->
  seg m a pu bs -> seg m' a pu bs' -> sizes bs = sizes bs' ->
  (forall b x, used_at a bs b x <-> used_at a bs' b x) -> bs = bs'.
Proof.
  intros Hm Hg. revert a pu bs'.
  assert (Hfree : forall a l l' y y' m, seg m (a + y) false l -> good ps mbs l -> good ps mbs l' -> 
    y + sizes l = y' + sizes l' -> (forall b x, used_at (a + y) l b x -> used_at (a + y') l' b x) -> y' <= y).
  { intros a l l' y y' m0 Hs Hgl Hgl' Hsz Hu. destruct l as [|[z u] l].
    - pose proof (sizes_nonneg _ _ Hm l' Hgl'). cbn in Hsz. lia.
    - destruct Hs as (_ & Hf & _). destruct u; [|by destruct (Hf eq_refl)].
      specialize (Hu (a + y) z (or_introl (conj eq_refl (conj eq_refl eq_refl)))).
      apply (used_at_range _ _ _ _ _ _ Hm Hgl') in Hu. lia. }
  induction Hg as [|[y u] bs [_ Hy] Hg IH]; intros a pu bs' Hg' Hs Hs' Hsz Hu; destruct bs' as [|[y' u'] bs'].
  - done.
  - apply Forall_cons in Hg' as [[_ ?] Hg']. pose proof (sizes_nonneg _ _ Hm _ Hg'). cbn in *. lia.
  - pose proof (sizes_nonneg _ _ Hm _ Hg). cbn in *. lia.
  - apply Forall_cons in Hg' as [[_ Hy'] Hg']. cbn [bsize] in *.
    assert (Hr : forall b x, used_at (a + y) bs b x -> a < b)
      by (intros b x Hb; apply (used_at_range _ _ _ _ _ _ Hm Hg) in Hb; lia).
    assert (Hr' : forall b x, used_at (a + y') bs' b x -> a < b)
      by (intros b x Hb; apply (used_at_range _ _ _ _ _ _ Hm Hg') in Hb; lia).
    cbn [sizes used_at seg bsize bused] in *. destruct Hs as (_ & _ & Hs), Hs' as (_ & _ & Hs').
    assert (u = u') as <-.
    { destruct u, u'; try done; exfalso.
      - destruct (proj1 (Hu a y) (or_introl (conj eq_refl (conj eq_refl eq_refl)))) as [[? _]|Hb]; [done|].
        apply Hr' in Hb. lia.
      - destruct (proj2 (Hu a y') (or_introl (conj eq_refl (conj eq_refl eq_refl)))) as [[? _]|Hb]; [done|].
        apply Hr in Hb. lia. }
    assert (Ht : forall b x, a < b -> used_at (a + y) bs b x <-> used_at (a + y') bs' b x).
    { intros b x Hb. specialize (Hu b x). naive_solver lia. }
    assert (y = y') as <-.
    { destruct u.
      - destruct (proj1 (Hu a y) (or_introl (conj eq_refl (conj eq_refl eq_refl)))) as [(_ & _ & ?)|Hb]; [done|].
        apply Hr' in Hb. lia.
      - apply Z.le_antisymm; [eapply (Hfree a bs' bs)|eapply (Hfree a bs bs')]; try done;
          intros b x Hb; apply Ht; eauto. }
    f_equal. apply (IH (a + y) u); [done|done|done|lia|].
    intros b x. split; intros Hb; apply Ht; eauto.
Qed.


Section greedy.
Context (hp : Z) (c : Heap_Control) (HP : ctl_params hp c) (g : gaps) (Hfirst : 0 < first_block c).
Abbreviation ps := (page_size c).
Abbreviation mbs := (min_block_size c).
Abbreviation first := (first_block c).
Abbreviation last := (last_block c).
Abbreviation good := (good ps mbs).
Abbreviation layout := (ctl_layout hp c).
Abbreviation St m t := {| hmem := m; ctl := with_stats c t |}.

(** The words of the blocks [R] are unchanged. *)
Definition keeps (R : list (Z * Z)) (m m' : mem) : Prop :=
  forall b x k, (b, x) ∈ R -> b + 16 <= k <= b + x -> m' !! k = m !! k.

#[local] Instance keeps_Proper : Proper ((≡ₚ) ==> eq ==> eq ==> iff) keeps.
Proof. intros R R' HR m _ <- m' _ <-. unfold keeps. by setoid_rewrite HR. Qed.

Lemma keeps_trans R m m' m'' : keeps R m m' -> keeps R m' m'' -> keeps R m m''.
Proof. intros H1 H2 b x k Hb Hk. by rewrite (H2 b x), (H1 b x). Qed.

Lemma keeps_perm R R' m m' : R' ⊆+ R -> keeps R m m' -> keeps R' m m'.
Proof. intros Hs Hk b x k Hb. apply Hk. by eapply elem_of_submseteq. Qed.

Lemma uframe_keeps bs m m' : uframe hp c bs m m' -> keeps (useds first bs) m m'.
Proof. intros Hf b x k Hb%elem_of_useds Hk. apply Hf. left. by eapply used_at_user. Qed.

(** The blocks [B] are linked from [h] on. *)
Fixpoint chain (m : mem) (h : Z) (B : list (Z * Z)) : Prop :=
  match B with
  | [] => h = NULL
  | (b, _) :: B' => h = b /\ exists n, m !! (b + NEXT) = Some n /\ chain m n B'
  end.

Lemma chain_keeps R m m' h B : keeps R m m' -> B ⊆+ R -> Forall (fun y => 16 <= y.2) B ->
  chain m h B -> chain m' h B.
Proof.
  intros Hk. revert h. induction B as [|[b x] B IH]; intros h Hs Hx; [done|].
  apply Forall_cons in Hx as [Hb Hx]. cbn in Hb. intros (-> & n & Hn & Hc). split; [done|]. exists n. split.
  - rewrite (Hk b x); [done| |unfold NEXT; lia]. eapply elem_of_submseteq; [|exact Hs]. left.
  - apply IH; [|done|done]. etrans; [|exact Hs]. by apply submseteq_cons.
Qed.

(** ** Allocation and free in terms of the used blocks *)

Lemma allocated_useds bs bs' p n : 32 <= mbs -> allocated c bs bs' p n ->
  exists b x sz, useds first bs' ≡ₚ (b, x) :: useds first bs /\ b + 16 <= p < b + 16 + ps /\
    p + n <= b + x + 8 /\ Blk sz false ∈ bs /\ x <= sz.
Proof.
  intros Hm (l1 & sz & l2 & pre & x & post & -> & -> & [Hpre Hpost Hg Hs H1 H2 H3]).
  exists (first + sizes l1 + sizes pre), x, sz. split_and!; [|done..|set_solver|].
  - rewrite !useds_app, Hs. cbn [useds bused bsize app].
    assert (forall a, useds a pre = []) as -> by (by destruct Hpre as [->|[? ->]]).
    assert (forall a, useds a post = []) as -> by (by destruct Hpost as [->|[? ->]]).
    rewrite app_nil_l. by rewrite Permutation_middle.
  - apply good_app in Hg as [Hg1 Hg]. apply good_cons in Hg as [_ Hg2]. rewrite sizes_app in Hs. cbn in Hs.
    pose proof (sizes_nonneg _ _ Hm _ Hg1). pose proof (sizes_nonneg _ _ Hm _ Hg2). lia.
Qed.

Lemma freed_useds l1 x l2 : useds first (l1 ++ Blk x true :: l2) ≡ₚ
  (first + sizes l1, x) :: useds first (freed l1 x l2).
Proof.
  assert (HL : forall a, useds a (merge_left l1).1 = useds a l1 /\ sizes (merge_left l1).1 + (merge_left l1).2 = sizes l1).
  { intros a. destruct l1 as [|[y u] l1' _] using rev_ind; [done|]. rewrite merge_left_snoc.
    destruct u; cbn [bused bsize fst snd]; [split; [done|lia]|].
    rewrite useds_app, sizes_app. cbn. by rewrite app_nil_r, Z.add_0_r. }
  assert (HR : forall a, useds (a + (merge_right l2).1) (merge_right l2).2 = useds a l2).
  { intros a. destruct l2 as [|[y u] l2']; [done|]. cbn. destruct u; cbn; [by rewrite Z.add_0_r|done]. }
  unfold freed. destruct (merge_left l1) as [pre a], (merge_right l2) as [b post]. cbn [fst snd] in *.
  rewrite !useds_app. cbn [useds bused bsize app].
  replace (first + sizes pre + (a + x + b)) with (first + sizes l1 + x + b)
    by (destruct (HL 0); lia).
  rewrite HR, (proj1 (HL first)). by rewrite Permutation_middle.
Qed.

Lemma freed_count_free l1 x l2 :
  count_of false (freed l1 x l2) <= count_of false (l1 ++ Blk x true :: l2) + 1.
Proof.
  assert (HL : count_of false (merge_left l1).1 <= count_of false l1).
  { destruct l1 as [|[y u] l1' _] using rev_ind; [done|]. rewrite merge_left_snoc.
    destruct u; cbn [bused fst]; [done|]. rewrite count_of_app, count_of_cons. cbn. unfold count_of. lia. }
  assert (HR : count_of false (merge_right l2).2 <= count_of false l2).
  { destruct l2 as [|[y u] l2']; [done|]. cbn. destruct u; cbn [snd]; [done|]. rewrite count_of_cons. cbn. lia. }
  unfold freed. destruct (merge_left l1) as [pre a], (merge_right l2) as [b post]. cbn [fst snd] in *.
  rewrite !count_of_app, !count_of_cons. cbn. lia.
Qed.

Lemma useds_large m bs fl R B : layout m bs fl -> useds first bs ≡ₚ R -> B ⊆+ R -> Forall (fun y => 16 <= y.2) B.
Proof using HP Hfirst.
  intros (Hg & _) Hp Hs. pose proof (mbs_min hp c HP) as Hm. apply Forall_forall. intros [b x] Hb.
  assert (Hb' : (b, x) ∈ useds first bs) by (rewrite Hp; by eapply elem_of_submseteq).
  apply elem_of_useds, (used_at_range _ _ _ _ _ _ Hm Hg) in Hb'. cbn. lia.
Qed.

(** Writing a word of a used block. *)
Lemma layout_user_insert m bs fl k v : layout m bs fl -> user_word first bs k -> layout (<[k := v]> m) bs fl.
Proof using HP Hfirst.
  intros (Hg & Ht & Hp & Hl & Hm) Hk. assert (Hall : first + sizes bs = last) by apply Ht.
  split_and!; [done| |done| |by apply mapped_insert].
  - eapply tail_ext; [|exact Ht]. intros j Hj. apply lookup_insert_ne. intros <-.
    by apply (kept_not_tag HP Hg Hall (or_introl Hk)).
  - apply fdlist_insert; [|done]. intros x Hx.
    pose proof (user_not_link_word HP Hg Hall Hp Hk) as Hn. rewrite elem_of_link_words in Hn. naive_solver.
Qed.

(** ** The blocks taken so far *)

(** The blocks [B] were taken in addition to the used blocks [R], and are
    linked from [h] on; the contents of [R] are those of [m0]. *)
Record pushed (m0 : mem) (R : list (Z * Z)) (m : mem) (t : Heap_Statistics) (bs : list block) (fl : list Z)
    (h : Z) (B : list (Z * Z)) : Prop := {
  pu_layout : layout m bs fl;
  pu_stats : stats_inv g t bs;
  pu_useds : useds first bs ≡ₚ B ++ R;
  pu_chain : chain m h B;
  pu_keeps : keeps R m0 m;
}.

Lemma push_spec m0 R m t bs fl h B m' t' bs' fl' b x Q :
  pushed m0 R m t bs fl h B -> layout m' bs' fl' -> stats_inv g t' bs' ->
  useds first bs' ≡ₚ (b, x) :: useds first bs -> keeps (useds first bs) m m' ->
  (forall m'', pushed m0 R m'' t' bs' fl' b ((b, x) :: B) -> Q tt (St m'' t')) ->
  wp (set_next b h) Q (St m' t').
Proof using HP Hfirst.
  intros [Hlay Hst Hu Hc Hk] Hlay' Hst' Hu' Hk' HQ. pose proof (mbs_min hp c HP) as Hm.
  pose proof (proj1 Hlay') as Hg'. pose proof (useds_NoDup _ _ first _ Hm Hg') as Hnd. rewrite Hu' in Hnd.
  apply NoDup_cons in Hnd as [Hni _].
  assert (Hb : used_at first bs' b x) by (apply elem_of_useds; rewrite Hu'; left).
  pose proof (used_at_range _ _ _ _ _ _ Hm Hg' Hb) as (Hb1 & Hb2 & Hb3).
  assert (Hbu : user_word first bs' (b + NEXT)) by (eapply used_at_user; [exact Hb|unfold NEXT; lia]).
  assert (Hkb : forall v, keeps (useds first bs) m' (<[b + NEXT := v]> m')).
  { intros v b' x' k Hin Hkk. apply lookup_insert_ne. intros <-.
    assert (Hb' : used_at first bs' b' x') by (apply elem_of_useds; rewrite Hu'; by right).
    destruct (used_at_disjoint _ _ _ _ _ _ _ _ Hm Hg' Hb Hb') as [[-> ->]|Hd]; [done|].
    apply (used_at_range _ _ _ _ _ _ Hm Hg') in Hb'. unfold NEXT in *. lia. }
  apply wp_store.
  { destruct Hlay' as (_ & (_ & Hall & _) & _ & _ & Hmap).
    destruct (used_at_split _ _ _ _ Hb) as (l1 & l2 & -> & ->). apply good_app in Hg' as [Hg1 _].
    apply (mapped_word hp c HP); [done|done|lia|done|unfold NEXT; lia|unfold NEXT; lia]. }
  apply HQ. split.
  - by apply layout_user_insert.
  - done.
  - by rewrite Hu', Hu.
  - split; [done|]. exists h. split; [by rewrite lookup_insert_eq|].
    eapply (chain_keeps (B ++ R)); [|by apply submseteq_inserts_r| |exact Hc].
    + rewrite <- Hu. eapply keeps_trans; [exact Hk'|apply Hkb].
    + eapply useds_large; [exact Hlay|exact Hu|by apply submseteq_inserts_r].
  - eapply keeps_trans; [exact Hk|]. eapply (keeps_perm (useds first bs)); [rewrite Hu; by apply submseteq_inserts_l|].
    eapply keeps_trans; [exact Hk'|apply Hkb].
Qed.

(** ** The loops *)

Lemma reserve_step_spec m0 R m t bs fl h B n Q : 0 <= n < 2 ^ 64 -> pushed m0 R m t bs fl h B ->
  (forall t', pushed m0 R m t' bs fl h B -> (forall x, Blk x false ∈ bs -> x < n + 8) -> Q h (St m t')) ->
  (forall m' t' bs' fl' b x sz, pushed m0 R m' t' bs' fl' b ((b, x) :: B) -> Blk sz false ∈ bs -> n + 8 <= x <= sz ->
    Q b (St m' t')) ->
  wp (greedy_reserve_step hp n h) Q (St m t).
Proof using HP Hfirst.
  intros Hn Hpu Hnone Hsome. apply wp_bind. pose proof Hpu as [Hlay Hst _ _ _].
  pose proof (mbs_min hp c HP) as Hm. pose proof (bounds hp c HP) as (? & ? & ?).
  apply (allocate_spec hp c HP g m t bs fl); [done|done|lia|lia|lia|left; by apply Z.mod_0_l, Z.neq_sym, Z.lt_neq, (ps_pos hp)|..].
  - intros t' Hst' Hsm. cbn [Z.eqb NULL negb]. apply wp_ret, Hnone; [destruct Hpu; by split|].
    intros x Hx. exact (Hsm eq_refl eq_refl _ Hx eq_refl).
  - intros p m' t' bs' fl' Hp Hlay' Hst' Hall _ _ Hfr. destruct (Z.eqb_spec p NULL); [done|]. cbn [negb].
    pose proof (allocated_useds _ _ _ _ Hm Hall) as (b & x & sz & Hu & Hb & Hx & Hsz & Hxs).
    apply wp_bind, wp_gets. cbn [ctl page_size with_stats]. cbv zeta.
    assert (Hb0 : used_at first bs' b x) by (apply elem_of_useds; rewrite Hu; left).
    pose proof (used_at_range _ _ _ _ _ _ Hm (proj1 Hlay') Hb0) as (? & ? & ?).
    pose proof (ps_le_mbs hp c HP). assert (first + HeapInv.sizes bs' = last) by apply Hlay'.
    rewrite (block_of_alloc_area_spec c b p); [|lia|done|lia|].
    2: { destruct (used_at_split _ _ _ _ Hb0) as (l1 & l2 & E & ->). pose proof (proj1 Hlay') as Hg'.
         rewrite E in Hg'. apply good_app in Hg' as [Hg1 _]. by apply (block_page_mod hp c HP). }
    apply wp_bind. eapply (push_spec m0 R m t bs fl h B m' t' bs' fl' b x); [done|done|done|done|by apply uframe_keeps|].
    intros m'' Hpu'. apply wp_ret. eapply Hsome; [exact Hpu'|exact Hsz|lia].
Qed.

Lemma reserve_spec m0 R m t bs fl h B sizes Q : Forall (fun n => 0 <= n < 2 ^ 64) sizes ->
  pushed m0 R m t bs fl h B ->
  (forall m' t' bs' fl' h' B', pushed m0 R m' t' bs' fl' h' B' -> (length B' <= length B + length sizes)%nat ->
    Q h' (St m' t')) ->
  wp (greedy_reserve_loop hp sizes h) Q (St m t).
Proof using HP Hfirst.
  intros Hsz. revert m t bs fl h B. induction Hsz as [|n sizes Hn _ IH]; intros m t bs fl h B Hpu HQ.
  { apply wp_ret. eapply HQ; [exact Hpu|cbn; lia]. }
  cbn [greedy_reserve_loop]. apply wp_bind. eapply reserve_step_spec; [done|exact Hpu|..].
  - intros t' Hpu' _. eapply IH; [exact Hpu'|].
    intros m3 t3 bs3 fl3 h3 B3 Hpu3 Hlen. eapply HQ; [exact Hpu3|cbn in *; lia].
  - intros m' t' bs' fl' b x sz Hpu' _ _. eapply IH; [exact Hpu'|].
    intros m3 t3 bs3 fl3 h3 B3 Hpu3 Hlen. eapply HQ; [exact Hpu3|cbn in *; lia].
Qed.

(** Allocating a whole free block. *)
Lemma allocate_whole_spec m t l1 sz l2 fl Q :
  let blk := first + sizes l1 in let bs := l1 ++ Blk sz false :: l2 in
  layout m bs fl -> stats_inv g t bs ->
  (forall m' t' fl' r, let bs' := l1 ++ Blk sz true :: l2 in
    layout m' bs' fl' -> stats_inv g t' bs' -> uframe hp c bs m m' -> Q r (St m' t')) ->
  wp (_Heap_Block_allocate hp blk (blk + 16) (sz - 16)) Q (St m t).
Proof using HP Hfirst.
  intros blk bs Hlay (mf & Ha & Hmf) HQ. pose proof (mbs_min hp c HP) as Hm. pose proof (ps_pos hp c HP).
  pose proof (bounds hp c HP) as (? & ? & ?).
  pose proof (layout_block hp c HP _ _ _ _ _ _ Hlay) as (_ & _ & ? & ? & ? & ? & ?). cbn [bsize] in *.
  assert (Hfs : sz <= sizes_of false bs < 2 ^ 64).
  { pose proof (proj1 Hlay) as Hg. unfold bs in *. rewrite sizes_of_app, sizes_of_cons. cbn.
    apply good_app in Hg as [Hg1 Hg2]. apply good_cons in Hg2 as [_ Hg2].
    pose proof (free_sizes_bound hp c HP l1 Hg1). pose proof (free_sizes_bound hp c HP l2 Hg2). lia. }
  eapply (block_allocate_spec hp c HP m t l1 sz l2 fl); [done| |exact Ha|done|].
  { split_and!; [lia|lia|lia|left; lia]. }
  intros m' t' fl' pre x post Hsd bs' Hlay' Hfr Ha'. pose proof Hsd as [Hpre Hpost Hgd Hs Hb _ He].
  assert (pre = [] /\ post = []) as [-> ->].
  { apply good_app in Hgd as [Hg1 Hg2]. apply good_cons in Hg2 as [[_ ?] Hg2]. cbn [bsize] in *.
    rewrite sizes_app in Hs. cbn in Hs.
    destruct Hpre as [->|[o ->]]; [|apply good_cons in Hg1 as [[_ ?] _]; cbn in *; lia].
    destruct Hpost as [->|[o ->]]; [done|apply good_cons in Hg2 as [[_ ?] _]; cbn in *; lia]. }
  cbn in Hs. rewrite Z.add_0_r in Hs. subst x. apply (HQ m' t' fl'); [exact Hlay'| |].
  - exact (stats_subdivision c g t' l1 sz l2 blk (blk + 16) (sz - 16) [] sz [] mf Hsd Ha').
  - intros k Hk. apply Hfr. destruct Hk as [Hk|Hk]; [left; by apply (user_word_set_used c l1 sz l2 k Hk [Blk sz true] (Z.add_0_r sz))|by right].
Qed.

Lemma take_spec m0 R m t bs fl Q : pushed m0 R m t bs fl NULL [] ->
  (forall m' t' bs' fl' h' B', pushed m0 R m' t' bs' fl' h' B' -> count_of false bs' = 0 -> Q h' (St m' t')) ->
  wp (whileM (greedy_take_loop hp) NULL) Q (St m t).
Proof using HP Hfirst.
  intros Hpu HQ. pose proof (mbs_min hp c HP) as Hm. pose proof (bounds hp c HP) as (? & ? & ?).
  apply (wp_whileM (greedy_take_loop hp) (fun k h s => exists m t bs fl B, s = St m t /\
    k = count_of false bs /\ pushed m0 R m t bs fl h B) Q) with (k := count_of false bs).
  2: { by exists m, t, bs, fl, []. }
  2: { pose proof (count_of_bound _ _ false bs Hm (proj1 (pu_layout _ _ _ _ _ _ _ _ Hpu))).
       destruct (pu_layout _ _ _ _ _ _ _ _ Hpu) as (_ & (_ & ? & _) & _). lia. }
  clear m t bs fl Hpu. intros k h s (m & t & bs & fl & B & -> & -> & Hpu). unfold greedy_take_loop. cbv zeta.
  pose proof (pu_layout _ _ _ _ _ _ _ _ Hpu) as (Hg & Ht & Hp & Hl & Hmap).
  apply wp_bind. eapply wp_load; [by eapply dlist_first|]. unfold _Heap_Free_list_tail.
  destruct fl as [|f fl].
  - cbn [dsucc]. rewrite Z.eqb_refl. cbn [negb]. apply wp_ret. eapply HQ; [exact Hpu|].
    rewrite (count_free_addrs first). by rewrite <- Hp.
  - rewrite dsucc_cons. assert (Hf : f ∈ free_addrs first bs) by (rewrite <- Hp; left).
    apply (free_addr_split hp c HP) in Hf as (l1 & sz & l2 & -> & ->).
    pose proof (layout_block hp c HP _ _ _ _ _ _ (pu_layout _ _ _ _ _ _ _ _ Hpu)) as (Hb & He & ? & ? & ? & ? & ?).
    cbn [bsize] in *.
    destruct (Z.eqb_spec (first + sizes l1) hp) as [E|_].
    { exfalso. destruct HP as [_ _ _ _ [_ Hhp]]. unfold HEAP_BLOCK_HEADER_SIZE in *. lia. }
    cbn [negb]. apply wp_bind. eapply block_size_spec; [exact Hb|done|lia|].
    unfold _Heap_Alloc_area_of_block, HEAP_BLOCK_HEADER_SIZE. rewrite !u64_small by lia.
    apply wp_bind. eapply (allocate_whole_spec m t l1 sz l2); [apply Hpu|apply Hpu|].
    intros m' t' fl' r bs' Hlay' Hst' Hfr. apply wp_bind.
    eapply (push_spec m0 R m t _ _ h B m' t' bs' fl' (first + sizes l1) sz); [exact Hpu|done|done| |by apply uframe_keeps|].
    { unfold bs'. rewrite !useds_app. cbn [useds bused bsize app]. by rewrite Permutation_middle. }
    intros m'' Hpu'. apply wp_ret. exists (count_of false bs'). split.
    { unfold bs', count_of at 1. split; [lia|]. rewrite !count_of_app, !count_of_cons. cbn. lia. }
    by exists m'', t', bs', fl', ((first + sizes l1, sz) :: B).
Qed.

Lemma greedy_free_spec m0 R m t bs fl h B Q : pushed m0 R m t bs fl h B ->
  (forall m' t' bs' fl', pushed m0 R m' t' bs' fl' NULL [] ->
    count_of false bs' <= count_of false bs + Z.of_nat (length B) -> Q tt (St m' t')) ->
  wp (_Heap_Greedy_free hp h) Q (St m t).
Proof using HP Hfirst.
  intros Hpu HQ. pose proof (mbs_min hp c HP) as Hm. pose proof (bounds hp c HP) as (? & ? & ?).
  unfold _Heap_Greedy_free.
  apply (wp_whileM _ (fun k h s => exists m t bs' fl B', s = St m t /\ k = Z.of_nat (length B') /\
    pushed m0 R m t bs' fl h B' /\ count_of false bs' + Z.of_nat (length B') <= count_of false bs + Z.of_nat (length B)) Q)
    with (k := Z.of_nat (length B)).
  2: { exists m, t, bs, fl, B. split_and!; done. }
  2: { destruct Hpu as [(Hg & (_ & ? & _) & _) _ Hu _ _]. pose proof (count_of_bound _ _ true bs Hm Hg).
       rewrite <- (length_useds first), Hu, length_app in *. lia. }
  clear m t fl Hpu. intros k h' s (m & t & bs' & fl & B' & -> & -> & Hpu & Hcnt).
  destruct B' as [|[b x] B'].
  - pose proof (pu_chain _ _ _ _ _ _ _ _ Hpu) as Hc. cbn in Hc. subst h'. cbn [NULL Z.eqb negb]. apply wp_ret.
    eapply HQ; [exact Hpu|cbn in Hcnt; lia].
  - destruct Hpu as [Hlay Hst Hu (-> & n & Hn & Hc) Hk]. cbn [app] in Hu.
    assert (Hb : used_at first bs' b x) by (apply elem_of_useds; rewrite Hu; left).
    pose proof (used_at_range _ _ _ _ _ _ Hm (proj1 Hlay) Hb) as (? & ? & ?).
    assert (first + sizes bs' = last) by apply Hlay.
    destruct (Z.eqb_spec b NULL) as [E|_]; [unfold NULL in E; lia|]. cbn [negb]. cbv zeta.
    apply wp_bind. eapply wp_load; [exact Hn|]. apply wp_bind.
    unfold _Heap_Alloc_area_of_block, HEAP_BLOCK_HEADER_SIZE. rewrite u64_small by lia.
    destruct (used_at_split _ _ _ _ Hb) as (l1 & l2 & -> & ->). pose proof (ps_pos hp c HP).
    eapply (free_spec hp c HP _ (first_mod8 hp c HP) g); [exact Hlay|exact Hst|lia|].
    intros m' t' fl' bs2 Hlay' Hst' Hfr. apply wp_ret. exists (Z.of_nat (length B')). split; [cbn; lia|].
    assert (Hu2 : useds first bs2 ≡ₚ B' ++ R).
    { apply (Permutation_cons_inv (a := (first + sizes l1, x))). rewrite <- Hu. symmetry. apply freed_useds. }
    assert (Hkp : keeps (B' ++ R) m m') by (rewrite <- Hu2; by apply uframe_keeps).
    exists m', t', bs2, fl', B'. split_and!; [done|done| |].
    + split; [done|done|done| |].
      * eapply (chain_keeps (B' ++ R)); [exact Hkp|by apply submseteq_inserts_r| |exact Hc].
        eapply useds_large; [exact Hlay'|exact Hu2|by apply submseteq_inserts_r].
      * eapply keeps_trans; [exact Hk|]. eapply keeps_perm; [|exact Hkp]. by apply submseteq_inserts_l.
    + pose proof (freed_count_free l1 x l2) as Hf. fold bs2 in Hf. cbn [length] in Hcnt. lia.
Qed.

(** Taking all free blocks and giving back the reserved ones. *)
Lemma greedy_rest_spec m0 R m t bs fl h B Q : pushed m0 R m t bs fl h B ->
  (forall m' t' bs' fl' h' B', pushed m0 R m' t' bs' fl' h' B' ->
    count_of false bs' <= Z.of_nat (length B) -> sizes_of false bs' = foldr Z.add 0 B.*2 -> Q h' (St m' t')) ->
  wp (blocks ← whileM (greedy_take_loop hp) NULL; _Heap_Greedy_free hp h;; mret blocks) Q (St m t).
Proof using HP Hfirst.
  intros [Hlay Hst Hu Hc Hk] HQ. apply wp_bind. apply (take_spec m (B ++ R) m t bs fl); [by split|].
  intros m1 t1 bs1 fl1 h1 B1 [Hlay1 Hst1 Hu1 Hc1 Hk1] Hfull. apply wp_bind.
  assert (Hu1' : useds first bs1 ≡ₚ B ++ B1 ++ R) by (rewrite Hu1; apply Permutation_app_swap_app).
  apply (greedy_free_spec m1 (B1 ++ R) m1 t1 bs1 fl1 h B).
  { split; [done|done|done| |done].
    eapply (chain_keeps (B ++ R)); [exact Hk1|by apply submseteq_inserts_r| |exact Hc].
    eapply useds_large; [exact Hlay|exact Hu|by apply submseteq_inserts_r]. }
  intros m2 t2 bs2 fl2 [Hlay2 Hst2 Hu2 _ Hk2] Hcnt. cbn [app] in Hu2. apply wp_ret.
  apply (HQ m2 t2 bs2 fl2 h1 B1); [|lia|].
  - split; [done|done|done| |].
    + eapply (chain_keeps (B1 ++ R)); [exact Hk2|by apply submseteq_inserts_r| |exact Hc1].
      eapply useds_large; [exact Hlay2|exact Hu2|by apply submseteq_inserts_r].
    + eapply keeps_trans; [exact Hk|]. eapply keeps_trans.
      * eapply keeps_perm; [|exact Hk1]. by apply submseteq_inserts_l.
      * eapply keeps_perm; [|exact Hk2]. by apply submseteq_inserts_l.
  - assert (Hall1 : first + sizes bs1 = last) by apply Hlay1. assert (Hall2 : first + sizes bs2 = last) by apply Hlay2.
    rewrite sizes_split, <- (sum_useds first) in Hall1, Hall2. rewrite (sum_perm _ _ Hu1'), sum_app in Hall1.
    rewrite (sum_perm _ _ Hu2) in Hall2. rewrite (no_free_sizes bs1 Hfull) in Hall1. lia.
Qed.

Lemma free_information_spec m t bs fl Q : layout m bs fl -> (forall x, Blk x false ∈ bs -> x < 2 ^ 32) ->
  (forall info, (count_of false bs = 0 /\ largest info = 0) \/
     (Blk (largest info) false ∈ bs /\ forall x, Blk x false ∈ bs -> x <= largest info) -> Q info (St m t)) ->
  wp (_Heap_Get_free_information hp) Q (St m t).
Proof using HP Hfirst.
  intros Hlay Hs HQ. pose proof Hlay as (Hg & Ht & Hp & Hl & Hm). pose proof (mbs_min hp c HP) as Hmb.
  pose proof (bounds hp c HP) as (? & ? & ?).
  set (size_at := fun (f x : Z) => exists l1 l2, bs = l1 ++ Blk x false :: l2 /\ f = first + sizes l1).
  unfold _Heap_Get_free_information. cbv zeta. apply wp_bind. eapply wp_load; [by eapply dlist_first|].
  unfold _Heap_Free_list_tail.
  apply (wp_whileM _ (fun k '((b, info) : Z * Heap_Information) s => s = St m t /\ exists f1 f2, fl = f1 ++ f2 /\
    b = dsucc f2 hp /\ k = Z.of_nat (length f2) /\
    (forall f x, f ∈ f1 -> size_at f x -> x <= largest info) /\
    (f1 = [] /\ largest info = 0 \/ exists f, f ∈ f1 /\ size_at f (largest info))) Q) with (k := Z.of_nat (length fl)).
  3: { rewrite Hp, <- (count_free_addrs first). pose proof (count_of_bound _ _ false bs Hmb Hg).
       assert (first + sizes bs = last) by apply Ht. lia. }
  2: { split; [done|]. exists [], fl. split_and!; [done|done|done|set_solver|by left]. }
  intros k [b info] s (-> & f1 & f2 & -> & -> & -> & Hmax & Hex). destruct f2 as [|f f2].
  - cbn [dsucc]. rewrite Z.eqb_refl. apply wp_ret, HQ. rewrite app_nil_r in *.
    destruct Hex as [[-> Hz]|(f & Hf & l1 & l2 & E & ->)].
    + left. split; [|done]. by rewrite (count_free_addrs first), <- Hp.
    + right. split; [rewrite E; set_solver|]. intros x (l1' & l2' & E')%list_elem_of_split.
      apply (Hmax (first + sizes l1')); [|by exists l1', l2'].
      rewrite Hp, E', free_addrs_app. cbn. set_solver.
  - rewrite dsucc_cons. assert (Hf : f ∈ free_addrs first bs) by (rewrite <- Hp; set_solver).
    apply (free_addr_split hp c HP) in Hf as (l1 & sz & l2 & E & ->). pose proof Hlay as Hlay'. rewrite E in Hlay'.
    pose proof (layout_block hp c HP _ _ _ _ _ _ Hlay') as (Hb & He & ? & ? & ? & ? & ?). cbn [bsize] in *.
    destruct (Z.eqb_spec (first + sizes l1) hp) as [Ehp|_].
    { exfalso. destruct HP as [_ _ _ _ [_ Hhp]]. unfold HEAP_BLOCK_HEADER_SIZE in *. lia. }
    apply wp_bind. eapply block_size_spec; [exact Hb|done|lia|]. cbv zeta.
    assert (Hsz : sz < 2 ^ 32) by (apply Hs; rewrite E; set_solver). rewrite (u32_small sz) by lia.
    pose proof (dlist_split _ _ _ _ _ _ _ _ Hl) as (_ & _ & _ & [Hn _]). apply wp_bind.
    eapply wp_load; [exact Hn|]. apply wp_ret. exists (Z.of_nat (length f2)). split; [cbn; lia|]. split; [done|].
    exists (f1 ++ [first + sizes l1]), f2. rewrite <- app_assoc. split_and!; [done|done|done| |].
    + cbn [largest]. intros f' x [Hf'| ->%list_elem_of_singleton]%elem_of_app (l1' & l2' & E' & Hf2).
      * specialize (Hmax f' x Hf' (ex_intro _ l1' (ex_intro _ l2' (conj E' Hf2)))). destruct (Z.ltb_spec (largest info) sz); lia.
      * rewrite E in E'. apply (same_block hp c HP) in E' as [= ->]; [|by rewrite <- E|lia].
        destruct (Z.ltb_spec (largest info) x); lia.
    + right. cbn [largest]. destruct (Z.ltb_spec (largest info) sz).
      * exists (first + sizes l1). split; [set_solver|]. by exists l1, l2.
      * destruct Hex as [[-> Hz]|(f & Hf & Hx)]; [lia|]. exists f. split; [set_solver|done].
Qed.

(** The whole of [_Heap_Greedy_allocate]. *)
Lemma greedy_allocate_spec m t bs fl sizes Q : Forall (fun n => 0 <= n < 2 ^ 64) sizes ->
  layout m bs fl -> stats_inv g t bs ->
  (forall m' t' bs' fl' h B, pushed m (useds first bs) m' t' bs' fl' h B ->
    count_of false bs' <= Z.of_nat (length sizes) -> Q h (St m' t')) ->
  wp (_Heap_Greedy_allocate hp sizes) Q (St m t).
Proof using HP Hfirst.
  intros Hs Hlay Hst HQ. apply wp_bind.
  apply (reserve_spec m (useds first bs) m t bs fl NULL []); [done|by split|].
  intros m1 t1 bs1 fl1 h1 B1 Hpu1 Hlen. eapply greedy_rest_spec; [exact Hpu1|].
  intros m2 t2 bs2 fl2 h2 B2 Hpu2 Hcnt _. eapply HQ; [exact Hpu2|cbn in Hlen; lia].
Qed.

(** Giving all taken blocks back restores the blocks of the heap. *)
Lemma pushed_restored m0 m1 fl0 m t bs0 bs fl : layout m1 bs0 fl0 ->
  pushed m0 (useds first bs0) m t bs fl NULL [] -> bs = bs0.
Proof using HP.
  intros (Hg0 & (Hs0 & Hall0 & _) & _) [(Hg & (Hs & Hall & _) & _) _ Hu _ _].
  eapply (blocks_determined ps mbs m m1 first true); [by eapply mbs_min|done|done|done|done|lia|].
  intros b x. rewrite <- !elem_of_useds. by rewrite Hu.
Qed.
End greedy.

(** C23. Greedy allocation leaves at most one free block per requested size,
    and the words of all blocks that were in use keep their values (how large
    the remaining free blocks are is not stated).  Giving
    the blocks back restores exactly the blocks the heap had before, again
    without touching the other blocks; all loops terminate. *)
Theorem heap_greedy_roundtrip hp g s bs fl block_sizes :
  heap_inv hp g s bs fl -> 0 < first_block (ctl s) -> Forall (fun n => 0 <= n < 2 ^ 64) block_sizes ->
  wp (_Heap_Greedy_allocate hp block_sizes)
     (fun blocks s' =>
        (exists bs' fl', heap_inv hp g s' bs' fl' /\
           count_of false bs' <= Z.of_nat (length block_sizes) /\
           forall k, user_word (first_block (ctl s)) bs k -> hmem s' !! k = hmem s !! k) /\
        wp (_Heap_Greedy_free hp blocks)
           (fun _ s'' => (exists fl'', heap_inv hp g s'' bs fl'') /\
              forall k, user_word (first_block (ctl s)) bs k -> hmem s'' !! k = hmem s !! k) s') s.
Proof.
  intros (HP & Hlay & Hst) H0 Hs. apply wp_eta.
  assert (Hk : forall R m m' k, keeps R m m' -> R = useds (first_block (ctl s)) bs ->
    user_word (first_block (ctl s)) bs k -> m' !! k = m !! k).
  { intros R m m' k Hk -> (b & x & Hb & Hr)%user_word_used. eapply Hk; [by apply elem_of_useds|done]. }
  apply (greedy_allocate_spec hp (ctl s) HP g H0 (hmem s) (stats (ctl s)) bs fl); [done|done|done|].
  intros m' t' bs' fl' h B Hpu Hcnt. split.
  - exists bs', fl'. destruct Hpu. split_and!; [done|done|]. intros k. by eapply Hk.
  - eapply (greedy_free_spec hp (ctl s) HP g H0); [exact Hpu|]. intros m2 t2 bs2 fl2 Hpu2 _.
    pose proof (pushed_restored hp (ctl s) HP g _ _ _ _ _ _ _ _ Hlay Hpu2) as ->. split.
    + exists fl2. by destruct Hpu2.
    + intros k. eapply Hk; [apply Hpu2|done].
Qed.

Lemma sample_first : 0 < first_block (ctl sample_state).
Proof. vm_compute. reflexivity. Qed.

Lemma heap_greedy_roundtrip_witness :
  wp (_Heap_Greedy_allocate 512 [100; 200])
     (fun blocks s' =>
        (exists bs' fl', heap_inv 512 no_gaps s' bs' fl' /\ count_of false bs' <= 2 /\
           forall k, user_word (first_block (ctl sample_state)) [Blk 2032 false] k ->
             hmem s' !! k = hmem sample_state !! k) /\
        wp (_Heap_Greedy_free 512 blocks)
           (fun _ s'' => (exists fl'', heap_inv 512 no_gaps s'' [Blk 2032 false] fl'') /\
              forall k, user_word (first_block (ctl sample_state)) [Blk 2032 false] k ->
                hmem s'' !! k = hmem sample_state !! k) s') sample_state.
Proof.
  apply (heap_greedy_roundtrip 512 no_gaps sample_state [Blk 2032 false]
    [first_block (ctl sample_state)] [100; 200]); [exact sample_inv|exact sample_first|].
  repeat constructor; cbv; congruence.
Defined.

(** Greedy allocation of all but the largest free block: a heap without
    free blocks stays without, and the reported size is 0; otherwise exactly
    one free block is left, it has the size of the largest free block of
    before, and the reported size is what can be allocated from it.  The
    blocks must be smaller than 2^32 bytes, since the block statistics
    truncate larger sizes. *)
Lemma heap_greedy_all_except_largest hp g s bs fl :
  heap_inv hp g s bs fl -> 0 < first_block (ctl s) -> (forall x, Blk x false ∈ bs -> x < 2 ^ 32) ->
  wp (_Heap_Greedy_allocate_all_except_largest hp)
     (fun '(blocks, allocatable_size) s' => exists bs' fl', heap_inv hp g s' bs' fl' /\
        (count_of false bs = 0 /\ allocatable_size = 0 /\ count_of false bs' = 0 \/
         exists L, Blk L false ∈ bs /\ (forall x, Blk x false ∈ bs -> x <= L) /\
           allocatable_size = L - HEAP_BLOCK_HEADER_SIZE + HEAP_ALLOC_BONUS /\
           count_of false bs' = 1 /\ sizes_of false bs' = L)) s.
Proof.
  intros (HP & Hlay & Hst) H0 Hs. apply wp_eta, wp_bind. pose proof (mbs_min hp _ HP) as Hm.
  set (c := ctl s) in *. set (m := hmem s) in *.
  assert (Hpu0 : forall t, stats_inv g t bs -> pushed hp c g m (useds (first_block c) bs) m t bs fl NULL []) by by split.
  apply (free_information_spec hp c HP H0 m (stats c) bs fl); [done|done|].
  intros info Hinfo. cbv zeta. apply wp_bind. unfold _Heap_Greedy_allocate. apply wp_bind.
  cbn [greedy_reserve_loop]. apply wp_bind. destruct Hinfo as [[Hc ->]|[HL Hmax]].
  - cbn [Z.ltb Z.compare]. eapply (reserve_step_spec hp c HP g H0); [lia|by apply Hpu0|..].
    + intros t1 Hpu1 _. apply wp_ret. eapply (greedy_rest_spec hp c HP g H0); [exact Hpu1|].
      intros m2 t2 bs2 fl2 h2 B2 [Hlay2 Hst2 _ _ _] Hcnt _. apply wp_ret. exists bs2, fl2. split; [done|].
      left. split_and!; [done|done|]. cbn in Hcnt. unfold count_of in *. lia.
    + intros m1 t1 bs1 fl1 b x sz _ Hsz _. exfalso. revert Hc Hsz. clear.
      unfold count_of. intros Hc Hsz. assert (Hin : Blk sz false ∈ filter (fun b => bused b = false) bs)
        by (by apply list_elem_of_filter). destruct (filter _ bs); [set_solver|cbn in Hc; lia].
  - set (L := largest info) in *. assert (HLm : 32 <= L < 2 ^ 32).
    { split; [|by apply Hs]. pose proof (proj1 Hlay) as Hg. apply Forall_forall with (x := Blk L false) in Hg; [|done].
      destruct Hg as [_ ?]. cbn in *. lia. }
    destruct (Z.ltb_spec 0 L); [|lia]. unfold HEAP_BLOCK_HEADER_SIZE, HEAP_ALLOC_BONUS.
    change (2 * 8 + 0) with 16.
    rewrite (u64_small (L - 16)), (u64_small (L - 16 + 8)) by lia. eapply (reserve_step_spec hp c HP g H0); [lia|by apply Hpu0|..].
    + intros t1 _ Hsm. exfalso. specialize (Hsm _ HL). lia.
    + intros m1 t1 bs1 fl1 b x sz Hpu1 Hsz Hx. specialize (Hmax _ Hsz) as Hle. apply wp_ret.
      eapply (greedy_rest_spec hp c HP g H0); [exact Hpu1|].
      intros m2 t2 bs2 fl2 h2 B2 [Hlay2 Hst2 _ _ _] Hcnt Hsum. apply wp_ret. exists bs2, fl2. split; [done|].
      right. exists L. cbn in Hcnt, Hsum. split_and!; [done|done|lia| |lia].
      destruct (decide (count_of false bs2 = 0)) as [E|]; [apply no_free_sizes in E; lia|].
      unfold count_of in *. lia.
Qed.

Lemma heap_greedy_all_except_largest_witness :
  wp (_Heap_Greedy_allocate_all_except_largest 512)
     (fun '(blocks, allocatable_size) s' => allocatable_size = 2024) sample_state.
Proof.
  eapply wp_mono; [apply (heap_greedy_all_except_largest 512 no_gaps sample_state [Blk 2032 false]
    [first_block (ctl sample_state)]); [exact sample_inv|exact sample_first|]|].
  - intros x Hx. apply list_elem_of_singleton in Hx. injection Hx as ->. reflexivity.
  - intros [blocks n] s' (bs' & fl' & _ & [(Hc & _)|(L & HL & _ & -> & _)]); [discriminate Hc|].
    apply list_elem_of_singleton in HL. injection HL as ->. reflexivity.
Defined.

End HeapGreedy.
