(* ===== verification/Workspace.v ===== *)
(** The executive workspace (score/wkspace.c): the allocator that the object
    handler takes its tables and control blocks from.

    [Workspace] is the contract of the workspace towards its clients: which
    areas are live, that they are disjoint, mapped and aligned, that the
    allocator never touches their contents nor any static memory, and that
    clients may write to them.  [heap_workspace] discharges it with the heap,
    in one shared memory. *)

From S2P Require Import Prelude DList Heap HeapInv HeapAlloc HeapFree HeapCorrect.
Import HeapCorrect.
Open Scope width_scope.

Module Workspace.

(** * The contract *)

(** The word at [k] belongs to one of the areas. *)
Definition live_word (L : list (Z * Z)) (k : Z) : Prop :=
  exists p n, (p, n) ∈ L /\ p <= k /\ k + 8 <= p + n.

(** An allocator on the states [S].  [static k] says that the word at [k] is
    no part of the allocator's memory, [ws_live s L] that the areas in use
    are those of [L]. *)
Class Workspace (S : Type) `{HasMem S} := {
  _Workspace_Allocate : Z -> M S Z;
  _Workspace_Free : Z -> M S unit;
  static : Z -> Prop;
  ws_live : S -> list (Z * Z) -> Prop;
  ws_perm s L L' : L ≡ₚ L' -> ws_live s L -> ws_live s L';
  ws_allocate s L n : ws_live s L -> 0 <= n < 2 ^ 64 ->
    wp (_Workspace_Allocate n) (fun p s' =>
      (forall k, live_word L k \/ static k -> get_mem s' !! k = get_mem s !! k) /\
      (p = NULL /\ ws_live s' L \/ p <> NULL /\ ws_live s' ((p, n) :: L))) s;
  ws_free s L p n : ws_live s ((p, n) :: L) ->
    wp (_Workspace_Free p) (fun _ s' =>
      (forall k, live_word L k \/ static k -> get_mem s' !! k = get_mem s !! k) /\
      ws_live s' L) s;
  ws_free_null s : wp (_Workspace_Free NULL) (fun _ s' => s' = s) s;
  ws_disjoint s L : ws_live s L -> areas_disjoint L;
  ws_area s L p n : ws_live s L -> (p, n) ∈ L ->
    0 < p /\ p mod 8 = 0 /\ p + n < 2 ^ 64 /\
    forall k, p <= k -> k + 8 <= p + n -> ~ static k /\
      (k mod 8 = 0 -> is_Some (get_mem s !! k));
  ws_write s L W m' : ws_live s L -> changes W (get_mem s) m' ->
    (forall k, k ∈ W -> live_word L k \/ static k) -> ws_live (set_mem m' s) L;
}.

(** The live areas are a multiset. *)
#[export] Instance ws_live_proper {S} `{Workspace S} s : Proper ((≡ₚ) ==> iff) (ws_live s).
Proof. intros L L' Hp. split; apply ws_perm; [done|by symmetry]. Qed.

(** A fresh area lies apart from the live ones. *)
Lemma areas_disjoint_cons p n L p' n' : areas_disjoint ((p, n) :: L) -> (p', n') ∈ L ->
  p + n <= p' \/ p' + n' <= p.
Proof.
  intros Hd [i Hi]%list_elem_of_lookup. exact (Hd O (Datatypes.S i) p n p' n' ltac:(done) eq_refl Hi).
Qed.

(** * The heap as a workspace *)

Section heap.
Import Heap HeapInv HeapAlloc HeapFree HeapCorrect.

(** [_Workspace_Area] with its address. *)
Context (hp : Z) (c : Heap_Control) (HP : ctl_params hp c).
Abbreviation first := (first_block c).
Abbreviation last := (last_block c).
Abbreviation St m t := {| hmem := m; ctl := with_stats c t |}.

Definition heap_Workspace_Allocate (size : Z) : M state Z := _Heap_Allocate hp size.

Definition heap_Workspace_Free (block : Z) : M state unit := _Heap_Free hp block;; mret tt.

Definition heap_live (s : state) (L : list (Z * Z)) : Prop := exists m t bs fl,
  s = St m t /\ ctl_layout hp c m bs fl /\ stats_inv no_gaps t bs /\ live c bs L /\
  Forall (fun a => a.1 mod 8 = 0) L.

Definition heap_static (k : Z) : Prop := outside hp first last k.

Lemma Forall2_perm_l {A B} (P : A -> B -> Prop) l l' k : l ≡ₚ l' -> Forall2 P l k ->
  exists k', k ≡ₚ k' /\ Forall2 P l' k'.
Proof.
  intros Hp. revert k. induction Hp as [|x l l' Hp IH|x y l|l1 l2 l3 _ IH1 _ IH2]; intros k Hk.
  - exists k. by split.
  - inversion Hk as [|? b ? k1 Hb Hk1]; subst. destruct (IH _ Hk1) as (k' & ? & ?).
    exists (b :: k'). split; [by constructor|by constructor].
  - inversion Hk as [|? b ? k1 Hb Hk1]; subst. inversion Hk1 as [|? b' ? k2 Hb' Hk2]; subst.
    exists (b' :: b :: k2). split; [constructor|]. by repeat constructor.
  - destruct (IH1 _ Hk) as (k1 & Hp1 & Hk1). destruct (IH2 _ Hk1) as (k2 & Hp2 & Hk2).
    exists k2. split; [by rewrite Hp1|done].
Qed.

Lemma live_perm bs L L' : L ≡ₚ L' -> live c bs L -> live c bs L'.
Proof.
  intros Hp (Hc & B & HB & Hnd). split; [by rewrite <- Hp|].
  destruct (Forall2_perm_l _ _ _ _ Hp HB) as (B' & HpB & HB').
  exists B'. split; [done|]. by rewrite <- HpB.
Qed.

(** The words of live areas and static words are left alone. *)
Lemma live_kept bs L k : live c bs L -> live_word L k \/ heap_static k ->
  kept hp first last bs k.
Proof.
  intros (_ & B & HB & _) [(p & n & [i Hi]%list_elem_of_lookup & H1 & H2)|Hk]; [|by right].
  destruct (Forall2_lookup_l _ _ _ _ _ HB Hi) as ([b x] & _ & Hu & Hp & Hn). cbn [fst snd] in *.
  left. eapply used_at_user; [exact Hu|lia].
Qed.

Lemma heap_perm s L L' : L ≡ₚ L' -> heap_live s L -> heap_live s L'.
Proof.
  intros Hp (m & t & bs & fl & -> & Hlay & Hst & Hlv & Hal). exists m, t, bs, fl.
  split_and!; [done|done|done|by eapply live_perm|by rewrite <- Hp].
Qed.

Lemma heap_allocate s L n : heap_live s L -> 0 <= n < 2 ^ 64 ->
  wp (heap_Workspace_Allocate n) (fun p s' =>
    (forall k, live_word L k \/ heap_static k -> hmem s' !! k = hmem s !! k) /\
    (p = NULL /\ heap_live s' L \/ p <> NULL /\ heap_live s' ((p, n) :: L))) s.
Proof.
  intros (m & t & bs & fl & -> & Hlay & Hst & Hlv & Hal) Hn.
  pose proof (ps_pos hp c HP) as Hps.
  apply (allocate_spec hp c HP no_gaps m t bs fl); [done|done|done|lia|lia|left; apply Z.mod_0_l; lia|..].
  - intros t' Hst' _. split; [done|]. left. split; [done|]. by exists m, t', bs, fl.
  - intros p m' t' bs' fl' Hp Hlay' Hst' Hall Hpal _ Hfr. split.
    + intros k Hk. apply Hfr. by eapply live_kept.
    + right. split; [done|]. exists m', t', bs', fl'. split_and!; [done|done|done| |].
      * eapply live_perm; [|eapply (live_alloc hp c HP); [apply Hlay|exact Hall|exact Hlv]].
        by rewrite <- Permutation_cons_append.
      * constructor; [|done]. cbn. eapply mod_ps_8; [exact HP|exact Hpal].
Qed.

Lemma heap_free s L p n : heap_live s ((p, n) :: L) ->
  wp (heap_Workspace_Free p) (fun _ s' =>
    (forall k, live_word L k \/ heap_static k -> hmem s' !! k = hmem s !! k) /\
    heap_live s' L) s.
Proof.
  intros (m & t & bs & fl & -> & Hlay & Hst & Hlv & Hal).
  destruct (live_free c bs _ O p n Hlv eq_refl) as (l1 & x & l2 & -> & Hp & Hlv').
  apply wp_bind. eapply (free_spec hp c HP _ (first_mod8 hp c HP)); [exact Hlay|exact Hst|exact Hp|].
  intros m' t' fl' bs' Hlay' Hst' Hfr. apply wp_ret. split.
  - intros k Hk. apply Hfr. by eapply live_kept.
  - exists m', t', bs', fl'. split_and!; [done|done|done|done|]. by apply Forall_cons in Hal as [_ ?].
Qed.

Lemma heap_area s L p n : heap_live s L -> (p, n) ∈ L ->
  0 < p /\ p mod 8 = 0 /\ p + n < 2 ^ 64 /\
  forall k, p <= k -> k + 8 <= p + n -> ~ heap_static k /\
    (k mod 8 = 0 -> is_Some (hmem s !! k)).
Proof.
  intros (m & t & bs & fl & -> & Hlay & Hst & Hlv & Hal) Hpn. pose proof (bounds hp c HP).
  destruct Hlay as (Hg & (_ & Hall & _) & _ & _ & Hm).
  destruct (live_inside hp c HP bs L p n Hg Hall Hlv Hpn) as [H1 H2].
  rewrite Forall_forall in Hal. specialize (Hal _ Hpn). cbn in Hal.
  split_and!; [lia|done|lia|]. intros k Hk1 Hk2. unfold heap_static, outside, HEAP_BLOCK_HEADER_SIZE, SIZE_AND_FLAG.
  split; [lia|]. intros Hk8. apply Hm; [done|unfold SIZE_AND_FLAG; lia].
Qed.

Lemma heap_write s L W m' : heap_live s L -> changes W (hmem s) m' ->
  (forall k, k ∈ W -> live_word L k \/ heap_static k) -> heap_live (set_mem m' s) L.
Proof.
  intros (m & t & bs & fl & -> & (Hg & Ht & Hp & Hl & Hm) & Hst & Hlv & Hal) [Hc1 Hc2] HW.
  assert (Hall : first + sizes bs = last) by apply Ht.
  assert (Hkeep : forall k, ~ kept hp first last bs k -> m' !! k = m !! k).
  { intros k Hk. apply Hc1. intros Hin. by eapply Hk, live_kept, HW. }
  exists m', t, bs, fl. split_and!; [done| |done|done|done]. split_and!; [done| |done| |].
  - eapply tail_ext; [|exact Ht]. intros k Hk. apply Hkeep. intros Hkp.
    by apply (kept_not_tag HP Hg Hall Hkp).
  - eapply dlist_ext; [..|exact Hl]; intros x Hx; apply Hkeep; intros Hkp;
      apply (kept_not_link_word HP Hg Hall Hp Hkp), elem_of_link_words; exists x; set_solver.
  - intros k H1 H2. apply Hc2. by apply Hm.
Qed.

#[local, program] Instance heap_workspace : Workspace state := {|
  _Workspace_Allocate := heap_Workspace_Allocate;
  _Workspace_Free := heap_Workspace_Free;
  static := heap_static;
  ws_live := heap_live;
|}.
Next Obligation. exact heap_perm. Qed.
Next Obligation. exact heap_allocate. Qed.
Next Obligation. exact heap_free. Qed.
Next Obligation. done. Qed.
Next Obligation.
  intros s L (m & t & bs & fl & -> & Hlay & _ & Hlv & _). eapply (live_disjoint hp c HP); [apply Hlay|done].
Qed.
Next Obligation. exact heap_area. Qed.
Next Obligation. exact heap_write. Qed.
End heap.

End Workspace.
