(* ===== verification/ObjectId.v ===== *)
(** Object identifiers and names (score/object.h, score/objectimpl.h,
    score/objectapimaximumclass.c, score/objectsetname.c,
    score/objectgetnameasstring.c): the packing of API, class, node and index
    into 32 bits, and the four-character names with their text form.  The
    configuration is the one without 16-bit identifiers and without string
    names. *)

From S2P Require Import Prelude.
Open Scope width_scope.

Module ObjectId.

(** * Identifiers *)

Definition OBJECTS_INDEX_START_BIT : Z := 0.
Definition OBJECTS_NODE_START_BIT : Z := 16.
Definition OBJECTS_API_START_BIT : Z := 24.
Definition OBJECTS_CLASS_START_BIT : Z := 27.
Definition OBJECTS_INDEX_VALID_BITS : Z := 0x0000ffff.
Definition OBJECTS_NODE_VALID_BITS : Z := 0x000000ff.
Definition OBJECTS_API_VALID_BITS : Z := 0x00000007.
Definition OBJECTS_CLASS_VALID_BITS : Z := 0x0000001f.
Definition OBJECTS_UNLIMITED_OBJECTS : Z := 0x80000000.
Definition OBJECTS_ID_INITIAL_INDEX : Z := 0.
Definition OBJECTS_ID_FINAL_INDEX : Z := 0xffff.
Definition OBJECTS_ID_NONE : Z := 0.
Definition OBJECTS_ID_FINAL : Z := u32 (Z.lnot 0).

Definition OBJECTS_NO_API : Z := 0.
Definition OBJECTS_INTERNAL_API : Z := 1.
Definition OBJECTS_CLASSIC_API : Z := 2.
Definition OBJECTS_POSIX_API : Z := 3.
Definition OBJECTS_APIS_LAST : Z := OBJECTS_POSIX_API.
Definition OBJECTS_INTERNAL_CLASSES_LAST : Z := 2.
Definition OBJECTS_RTEMS_CLASSES_LAST : Z := 10.
Definition OBJECTS_POSIX_CLASSES_LAST : Z := 12.

Definition _Objects_Get_API (id : Z) : Z :=
  Z.land (Z.shiftr id OBJECTS_API_START_BIT) OBJECTS_API_VALID_BITS.

Definition _Objects_Get_class (id : Z) : Z :=
  Z.land (Z.shiftr id OBJECTS_CLASS_START_BIT) OBJECTS_CLASS_VALID_BITS.

Definition _Objects_Get_node (id : Z) : Z :=
  Z.land (Z.shiftr id OBJECTS_NODE_START_BIT) OBJECTS_NODE_VALID_BITS.

Definition _Objects_Get_index (id : Z) : Z :=
  u16 (Z.land (Z.shiftr id OBJECTS_INDEX_START_BIT) OBJECTS_INDEX_VALID_BITS).

(** The parameters are of types [Objects_APIs] (an [unsigned int]),
    [uint16_t], [uint8_t] and [uint16_t]. *)
Definition _Objects_Build_id (the_api the_class node index : Z) : Z :=
  let the_api := u32 the_api in let the_class := u16 the_class in
  let node := u8 node in let index := u16 index in
  Z.lor (Z.lor (Z.lor (u32 (Z.shiftl the_api OBJECTS_API_START_BIT))
                      (u32 (Z.shiftl the_class OBJECTS_CLASS_START_BIT)))
               (u32 (Z.shiftl node OBJECTS_NODE_START_BIT)))
        (u32 (Z.shiftl index OBJECTS_INDEX_START_BIT)).

Definition _Objects_Is_unlimited (maximum : Z) : bool :=
  negb (Z.land maximum OBJECTS_UNLIMITED_OBJECTS =? 0).

Definition _Objects_Maximum_per_allocation (maximum : Z) : Z :=
  u16 (Z.land maximum (u32 (Z.lnot OBJECTS_UNLIMITED_OBJECTS))).

Definition _Objects_API_maximum_class (api : Z) : Z :=
  if api =? OBJECTS_INTERNAL_API then OBJECTS_INTERNAL_CLASSES_LAST
  else if api =? OBJECTS_CLASSIC_API then OBJECTS_RTEMS_CLASSES_LAST
  else if api =? OBJECTS_POSIX_API then OBJECTS_POSIX_CLASSES_LAST
  else 0.

Definition _Objects_Is_api_valid (the_api : Z) : bool :=
  if (the_api =? 0) || (OBJECTS_APIS_LAST <? the_api) then false else true.

Definition _Objects_Are_ids_equal (left right : Z) : bool := left =? right.

(** * Names *)

(** A [char] of the platform is signed: the conversion to [uint32_t] extends
    the sign. *)
Definition char_to_u32 (c : Z) : Z := u32 (if c <? 128 then c else c - 256).

Definition _Objects_Build_name (c1 c2 c3 c4 : Z) : Z :=
  Z.lor (Z.lor (Z.lor (u32 (Z.shiftl (char_to_u32 c1) 24)) (u32 (Z.shiftl (char_to_u32 c2) 16)))
               (u32 (Z.shiftl (char_to_u32 c3) 8))) (char_to_u32 c4).

(** [strnlen]: the string is given by its bytes, without the terminator. *)
Definition strnlen (s : list Z) (maxlen : Z) : Z := Z.min (Z.of_nat (length s)) maxlen.

Definition SPACE : Z := 32.

(** The value stored to [name_u32]; the function returns [true]. *)
Definition _Objects_Set_name (name_length : Z) (s : list Z) : Z :=
  let length := strnlen s name_length in
  let at_ k := nth k s 0 in
  _Objects_Build_name (if negb (length =? 0) then at_ 0%nat else SPACE)
    (if 1 <? length then at_ 1%nat else SPACE)
    (if 2 <? length then at_ 2%nat else SPACE)
    (if 3 <? length then at_ 3%nat else SPACE).

(** [isprint] of the C locale. *)
Definition isprint (c : Z) : bool := (32 <=? c) && (c <=? 126).
Definition STAR : Z := 42.

(** The loop over the bytes of the name: [out] are the characters stored so
    far, in order. *)
Fixpoint name_to_string_loop (s : list Z) (i buffer_size : Z) (out : list Z) : Z * list Z :=
  match s with
  | [] => (i, out)
  | c :: s' =>
      if c =? 0 then (i, out)
      else name_to_string_loop s' (i + 1) buffer_size
             (if i <? buffer_size then out ++ [if isprint c then c else STAR] else out)
  end.

(** The bytes stored to the buffer, and the result. *)
Definition _Objects_Name_to_string (name buffer_size : Z) : list Z * Z :=
  let lname := [ Z.land (Z.shiftr name 24) 0xff; Z.land (Z.shiftr name 16) 0xff;
                 Z.land (Z.shiftr name 8) 0xff; Z.land name 0xff; 0 ] in
  let '(i, out) := name_to_string_loop lname 1 buffer_size [] in
  (if 0 <? buffer_size then out ++ [0] else out, i - 1).

(** * Packing is arithmetic *)

Lemma land_ones_mod x n m : 0 <= n -> m = Z.ones n -> Z.land x m = x mod 2 ^ n.
Proof. intros Hn ->. by apply Z.land_ones. Qed.

Lemma build_id_sum api cls node index :
  0 <= api < 8 -> 0 <= cls < 32 -> 0 <= node < 256 -> 0 <= index < 65536 ->
  _Objects_Build_id api cls node index
  = cls * 2 ^ 27 + api * 2 ^ 24 + node * 2 ^ 16 + index.
Proof.
  intros Ha Hc Hn Hi. unfold _Objects_Build_id, OBJECTS_API_START_BIT, OBJECTS_CLASS_START_BIT,
    OBJECTS_NODE_START_BIT, OBJECTS_INDEX_START_BIT, u8.
  rewrite (u32_small api), (u16_small cls), (u16_small index), (Z.mod_small node) by lia.
  cbv zeta. rewrite !Z.shiftl_mul_pow2, Z.mul_1_r by lia.
  rewrite !u32_small by lia. rewrite (Z.lor_comm (api * _)).
  rewrite (lor_fields (cls * 2 ^ 27) (api * 2 ^ 24) 27)
    by (try apply Z_mod_mult; lia).
  rewrite (lor_fields _ (node * 2 ^ 16) 24), (lor_fields _ index 16); try lia.
  - replace (cls * 2 ^ 27 + api * 2 ^ 24 + node * 2 ^ 16)
      with ((cls * 2 ^ 11 + api * 2 ^ 8 + node) * 2 ^ 16) by lia. by apply Z_mod_mult.
  - replace (cls * 2 ^ 27 + api * 2 ^ 24) with ((cls * 2 ^ 3 + api) * 2 ^ 24) by lia.
    by apply Z_mod_mult.
Qed.

Lemma get_fields id : 0 <= id < 2 ^ 32 ->
  _Objects_Get_API id = id / 2 ^ 24 mod 8 /\ _Objects_Get_class id = id / 2 ^ 27 /\
  _Objects_Get_node id = id / 2 ^ 16 mod 256 /\ _Objects_Get_index id = id mod 65536.
Proof.
  intros Hid. unfold _Objects_Get_API, _Objects_Get_class, _Objects_Get_node, _Objects_Get_index,
    OBJECTS_API_START_BIT, OBJECTS_CLASS_START_BIT, OBJECTS_NODE_START_BIT, OBJECTS_INDEX_START_BIT.
  rewrite (land_ones_mod _ 3), (land_ones_mod _ 5), (land_ones_mod _ 8), (land_ones_mod _ 16)
    by (lia || reflexivity).
  rewrite !Z.shiftr_div_pow2, Z.div_1_r by lia. split_and!; [done| |done|].
  - apply Z.mod_small. split; [apply Z.div_pos; lia|apply Z.div_lt_upper_bound; lia].
  - apply u16_small. apply Z.mod_pos_bound. lia.
Qed.

Lemma get_index_small api cls node index :
  0 <= api < 8 -> 0 <= cls < 32 -> 0 <= node < 256 -> 0 <= index < 65536 ->
  _Objects_Get_index (_Objects_Build_id api cls node index) = index.
Proof.
  intros Ha Hc Hn Hi. rewrite build_id_sum by done.
  destruct (get_fields (cls * 2 ^ 27 + api * 2 ^ 24 + node * 2 ^ 16 + index)) as (_ & _ & _ & ->); [lia|].
  replace (_ + index) with (index + (cls * 2 ^ 11 + api * 2 ^ 8 + node) * 65536) by lia.
  rewrite Z.mod_add by lia. by apply Z.mod_small.
Qed.

(** C29. An identifier and its four fields determine each other: building an
    identifier from an API below 8, a class below 32, a node below 256 and
    an index below 65536 and extracting the fields gives them back, and
    every 32-bit identifier is rebuilt from its fields. *)
Theorem object_id_roundtrip :
  (forall api cls node index,
    0 <= api < 8 -> 0 <= cls < 32 -> 0 <= node < 256 -> 0 <= index < 65536 ->
    let id := _Objects_Build_id api cls node index in
    0 <= id < 2 ^ 32 /\ _Objects_Get_API id = api /\ _Objects_Get_class id = cls /\
    _Objects_Get_node id = node /\ _Objects_Get_index id = index) /\
  (forall id, 0 <= id < 2 ^ 32 ->
    _Objects_Build_id (_Objects_Get_API id) (_Objects_Get_class id)
      (_Objects_Get_node id) (_Objects_Get_index id) = id).
Proof.
  split.
  - intros api cls node index Ha Hc Hn Hi id. pose proof (build_id_sum _ _ _ _ Ha Hc Hn Hi) as E.
    fold id in E. assert (Hid : 0 <= id < 2 ^ 32) by lia.
    destruct (get_fields id Hid) as (-> & -> & -> & ->). split; [done|].
    clearbody id. subst id. split_and!; Z.div_mod_to_equations; lia.
  - intros id Hid. destruct (get_fields id Hid) as (-> & -> & -> & ->).
    rewrite build_id_sum; Z.div_mod_to_equations; lia.
Qed.

Lemma object_id_roundtrip_witness :
  let id := _Objects_Build_id OBJECTS_CLASSIC_API 3 1 7 in
  _Objects_Get_class id = 3 /\ _Objects_Get_index id = 7 /\
  _Objects_Build_id (_Objects_Get_API 0x1a010007) (_Objects_Get_class 0x1a010007)
    (_Objects_Get_node 0x1a010007) (_Objects_Get_index 0x1a010007) = 0x1a010007.
Proof.
  destruct object_id_roundtrip as [H1 H2].
  destruct (H1 OBJECTS_CLASSIC_API 3 1 7) as (_ & _ & Hc & _ & Hi); [unfold OBJECTS_CLASSIC_API; lia..|].
  cbv zeta. split; [exact Hc|]. split; [exact Hi|]. apply H2. lia.
Defined.

(** * Names and their text *)

Lemma build_name_sum c1 c2 c3 c4 :
  0 <= c1 < 128 -> 0 <= c2 < 128 -> 0 <= c3 < 128 -> 0 <= c4 < 128 ->
  _Objects_Build_name c1 c2 c3 c4 = c1 * 2 ^ 24 + c2 * 2 ^ 16 + c3 * 2 ^ 8 + c4.
Proof.
  intros H1 H2 H3 H4. unfold _Objects_Build_name.
  assert (Hc : forall c, 0 <= c < 128 -> char_to_u32 c = c).
  { intros c Hc. unfold char_to_u32. destruct (Z.ltb_spec c 128); [apply u32_small|]; lia. }
  rewrite !Hc, !Z.shiftl_mul_pow2, !u32_small by lia.
  rewrite (lor_fields (c1 * 2 ^ 24) _ 24) by (try apply Z_mod_mult; lia).
  rewrite (lor_fields _ (c3 * 2 ^ 8) 16), (lor_fields _ c4 8); try lia.
  - replace (_ + c3 * 2 ^ 8) with ((c1 * 2 ^ 16 + c2 * 2 ^ 8 + c3) * 2 ^ 8) by lia. by apply Z_mod_mult.
  - replace (_ + c2 * 2 ^ 16) with ((c1 * 2 ^ 8 + c2) * 2 ^ 16) by lia. by apply Z_mod_mult.
Qed.

(** The bytes of a built name. *)
Lemma name_bytes c1 c2 c3 c4 :
  0 <= c1 < 128 -> 0 <= c2 < 128 -> 0 <= c3 < 128 -> 0 <= c4 < 128 ->
  let name := _Objects_Build_name c1 c2 c3 c4 in
  Z.land (Z.shiftr name 24) 0xff = c1 /\ Z.land (Z.shiftr name 16) 0xff = c2 /\
  Z.land (Z.shiftr name 8) 0xff = c3 /\ Z.land name 0xff = c4.
Proof.
  intros H1 H2 H3 H4 name. unfold name. rewrite build_name_sum by done. clear name.
  rewrite !(land_ones_mod _ 8) by (lia || reflexivity). rewrite !Z.shiftr_div_pow2 by lia.
  split_and!; Z.div_mod_to_equations; lia.
Qed.

Lemma name_to_string_loop_bound s i n out : 1 <= i -> Z.of_nat (length out) <= i - 1 ->
  (0 < n -> Z.of_nat (length out) <= n - 1) -> (n <= 0 -> out = []) ->
  let '(i', out') := name_to_string_loop s i n out in
  i <= i' /\ (0 < n -> Z.of_nat (length out') <= n - 1) /\ (n <= 0 -> out' = []).
Proof.
  revert i out. induction s as [|c s IH]; intros i out Hi Ho Hn H0; cbn; [split; [lia|done]|].
  destruct (c =? 0); [split; [lia|done]|].
  specialize (IH (i + 1) (if i <? n then out ++ [if isprint c then c else STAR] else out)).
  destruct (name_to_string_loop s _ _ _) as [i' out']. destruct (Z.ltb_spec i n).
  - rewrite length_app in IH. cbn in IH. destruct IH as (? & ? & ?); [lia..|]. split; [lia|done].
  - destruct IH as (? & ? & ?); [lia|lia|done|done|]. split; [lia|done].
Qed.

(** The text of a name never overruns the buffer: at most [buffer_size]
    bytes are stored, the last of them the terminator; and the text of a
    name that was set from at most four printable characters is these
    characters, padded with spaces to four. *)
Theorem object_name_text :
  (forall name n, 0 <= n ->
    let '(out, r) := _Objects_Name_to_string name n in
    Z.of_nat (length out) <= n /\ 0 <= r /\ (0 < n -> last out = Some 0)) /\
  (forall s n, Forall (fun c => isprint c = true) s -> (length s <= 4)%nat -> 5 <= n ->
    _Objects_Name_to_string (_Objects_Set_name 4 s) n
    = (s ++ replicate (4 - length s) SPACE ++ [0], 4)).
Proof.
  split.
  - intros name n Hn. unfold _Objects_Name_to_string.
    match goal with |- context [name_to_string_loop ?l] =>
      pose proof (name_to_string_loop_bound l 1 n [] ltac:(lia) ltac:(done) ltac:(cbn; lia) ltac:(done)) as H end.
    destruct (name_to_string_loop _ _ _ _) as [i out]. destruct H as (H1 & H2 & H3).
    destruct (Z.ltb_spec 0 n).
    + rewrite length_app. cbn. split_and!; [lia|lia|]. intros _. by rewrite last_snoc.
    + rewrite H3 by lia. cbn. split_and!; lia.
  - intros s n Hs Hl Hn.
    assert (Hset : exists c1 c2 c3 c4, s ++ replicate (4 - length s) SPACE = [c1; c2; c3; c4] /\
      Forall (fun c => isprint c = true) [c1; c2; c3; c4] /\
      _Objects_Set_name 4 s = _Objects_Build_name c1 c2 c3 c4).
    { destruct s as [|c1 [|c2 [|c3 [|c4 [|]]]]]; cbn in Hl; [..|lia]; do 4 eexists;
        (split; [cbn; reflexivity|split; [|reflexivity]]); decompose_Forall; done. }
    destruct Hset as (c1 & c2 & c3 & c4 & E & Hp & ->). rewrite app_assoc, E.
    assert (Hc : forall c, isprint c = true -> 32 <= c <= 126)
      by (intros c Hc; unfold isprint in Hc; bool_hyps; lia).
    decompose_Forall_hyps. unfold _Objects_Name_to_string.
    repeat match goal with H : isprint ?c = true |- _ => pose proof (Hc c H); revert H end. intros.
    destruct (name_bytes c1 c2 c3 c4) as (-> & -> & -> & ->); [lia..|]. cbn.
    repeat match goal with |- context [?c =? 0] => destruct (Z.eqb_spec c 0); [lia|] end.
    rewrite !(proj2 (Z.ltb_lt _ n)) by lia. cbn.
    repeat match goal with H : isprint _ = true |- _ => rewrite H; clear H end. done.
Qed.

Lemma object_name_text_witness :
  _Objects_Name_to_string (_Objects_Set_name 4 [85; 73; 49]) 5 = ([85; 73; 49; SPACE; 0], 4) /\
  (let '(out, r) := _Objects_Name_to_string 0x55493120 3 in
   Z.of_nat (length out) <= 3 /\ 0 <= r /\ (0 < 3 -> last out = Some 0)).
Proof.
  split.
  - apply (proj2 object_name_text [85; 73; 49] 5); [repeat constructor|cbn; lia|lia].
  - apply (proj1 object_name_text 0x55493120 3). lia.
Defined.

(** A character with its top bit set overwrites the characters before it,
    because it is sign-extended before it is shifted. *)
Lemma set_name_high_character :
  _Objects_Set_name 4 [97; 0xc3; 0xa9] = 0xffffa920 /\
  (_Objects_Name_to_string (_Objects_Set_name 4 [97; 0xc3; 0xa9]) 5).1 = [STAR; STAR; STAR; SPACE; 0].
Proof. split; reflexivity. Qed.

End ObjectId.
