(* ===== verification/Objects.v ===== *)
(** The object handler (score/objectimpl.h and score/object*.c): per object
    class an information block with the table of open objects, the chain of
    inactive ones and, for classes that grow on demand, the blocks of control
    blocks with their counts of inactive objects.

    Control blocks and tables live in the workspace; the chain nodes of the
    objects are words of the shared memory.  The three tables that
    [_Objects_Extend_information] carves out of one workspace area are lists
    indexed as the code indexes them (an index out of range is a fault), next
    to the address of the area; a fresh area holds [uninitialized] contents.
    A fatal error is returned as such. *)

From S2P Require Import Prelude DList Chain Workspace ObjectId.
Import Chain Workspace ObjectId.
Open Scope width_scope.

Module Objects.

Record Objects_Control := { id : Z; name_u32 : Z }.

Record Objects_Information := {
  the_api : Z;
  the_class : Z;
  minimum_id : Z;
  maximum_id : Z;
  maximum : Z;
  auto_extend : bool;
  allocation_size : Z;
  size : Z;
  local_table : list Z;
  Inactive : Z;                  (* address of the chain control *)
  inactive : Z;
  inactive_per_block : list Z;
  object_blocks : Z;             (* address of the area of the three tables *)
  object_blocks_table : list Z;
  name_length : Z;
}.

(** The core fatal errors. *)
Inductive Internal_errors_Core_list :=
  | INTERNAL_ERROR_TOO_LITTLE_WORKSPACE
  | INTERNAL_ERROR_WORKSPACE_ALLOCATION
  | INTERNAL_ERROR_INTERRUPT_STACK_TOO_SMALL
  | INTERNAL_ERROR_THREAD_EXITTED
  | INTERNAL_ERROR_INCONSISTENT_MP_INFORMATION
  | INTERNAL_ERROR_INVALID_NODE
  | INTERNAL_ERROR_NO_MPCI
  | INTERNAL_ERROR_BAD_PACKET
  | INTERNAL_ERROR_OUT_OF_PACKETS
  | INTERNAL_ERROR_OUT_OF_GLOBAL_OBJECTS
  | INTERNAL_ERROR_OUT_OF_PROXIES
  | INTERNAL_ERROR_INVALID_GLOBAL_ID
  | INTERNAL_ERROR_BAD_STACK_HOOK
  | INTERNAL_ERROR_UNLIMITED_AND_MAXIMUM_IS_0
  | INTERNAL_ERROR_GXX_KEY_ADD_FAILED
  | INTERNAL_ERROR_GXX_MUTEX_INIT_FAILED
  | INTERNAL_ERROR_NO_MEMORY_FOR_HEAP
  | INTERNAL_ERROR_CPU_ISR_INSTALL_VECTOR
  | INTERNAL_ERROR_RESOURCE_IN_USE
  | INTERNAL_ERROR_RTEMS_INIT_TASK_ENTRY_IS_NULL
  | INTERNAL_ERROR_POSIX_INIT_THREAD_ENTRY_IS_NULL
  | INTERNAL_ERROR_THREAD_QUEUE_DEADLOCK
  | INTERNAL_ERROR_THREAD_QUEUE_ENQUEUE_STICKY_FROM_BAD_STATE
  | INTERNAL_ERROR_BAD_THREAD_DISPATCH_DISABLE_LEVEL
  | INTERNAL_ERROR_BAD_THREAD_DISPATCH_ENVIRONMENT
  | INTERNAL_ERROR_RTEMS_INIT_TASK_CREATE_FAILED
  | INTERNAL_ERROR_POSIX_INIT_THREAD_CREATE_FAILED
  | INTERNAL_ERROR_LIBIO_USER_ENV_KEY_CREATE_FAILED
  | INTERNAL_ERROR_LIBIO_SEM_CREATE_FAILED
  | INTERNAL_ERROR_LIBIO_STDOUT_FD_OPEN_FAILED
  | INTERNAL_ERROR_LIBIO_STDERR_FD_OPEN_FAILED
  | INTERNAL_ERROR_ILLEGAL_USE_OF_FLOATING_POINT_UNIT
  | INTERNAL_ERROR_ARC4RANDOM_GETENTROPY_FAIL.

Definition set_tables (blocks : Z) (bt ipb lt : list Z) (i : Objects_Information)
    : Objects_Information :=
  {| the_api := the_api i; the_class := the_class i; minimum_id := minimum_id i;
     maximum_id := maximum_id i; maximum := maximum i; auto_extend := auto_extend i;
     allocation_size := allocation_size i; size := size i; local_table := lt;
     Inactive := Inactive i; inactive := inactive i; inactive_per_block := ipb;
     object_blocks := blocks; object_blocks_table := bt; name_length := name_length i |}.

Definition set_local_table (lt : list Z) (i : Objects_Information) : Objects_Information :=
  set_tables (object_blocks i) (object_blocks_table i) (inactive_per_block i) lt i.

Definition set_blocks (bt ipb : list Z) (i : Objects_Information) : Objects_Information :=
  set_tables (object_blocks i) bt ipb (local_table i) i.

Definition set_inactive (n : Z) (i : Objects_Information) : Objects_Information :=
  {| the_api := the_api i; the_class := the_class i; minimum_id := minimum_id i;
     maximum_id := maximum_id i; maximum := maximum i; auto_extend := auto_extend i;
     allocation_size := allocation_size i; size := size i; local_table := local_table i;
     Inactive := Inactive i; inactive := n; inactive_per_block := inactive_per_block i;
     object_blocks := object_blocks i; object_blocks_table := object_blocks_table i;
     name_length := name_length i |}.

Definition set_maximum (m mid : Z) (i : Objects_Information) : Objects_Information :=
  {| the_api := the_api i; the_class := the_class i; minimum_id := minimum_id i;
     maximum_id := mid; maximum := m; auto_extend := auto_extend i;
     allocation_size := allocation_size i; size := size i; local_table := local_table i;
     Inactive := Inactive i; inactive := inactive i; inactive_per_block := inactive_per_block i;
     object_blocks := object_blocks i; object_blocks_table := object_blocks_table i;
     name_length := name_length i |}.

Section objects.
Context {S : Type} `{Workspace S}.
(** What a word of a freshly allocated area contains. *)
Context (uninitialized : Z -> Z).

(** The workspace with its memory, the object control blocks, the
    information blocks by address, and [_Objects_Information_table]. *)
Record state := {
  ws : S;
  objs : gmap Z Objects_Control;
  infos : gmap Z Objects_Information;
  information_table : gmap (Z * Z) Z;
}.

#[export, program] Instance state_HasMem : HasMem state := {|
  get_mem s := get_mem (ws s);
  set_mem m s := {| ws := set_mem m (ws s); objs := objs s; infos := infos s;
                    information_table := information_table s |};
|}.
Next Obligation. intros. cbn. apply get_set_mem. Qed.
Next Obligation. intros. cbn. by rewrite set_set_mem. Qed.
Next Obligation. intros []. cbn. by rewrite set_get_mem. Qed.

(** A step of the workspace. *)
Definition lift {A} (m : M S A) : M state A := fun s =>
  match m (ws s) with
  | Some (a, w) => Some (a, {| ws := w; objs := objs s; infos := infos s;
                               information_table := information_table s |})
  | None => None
  end.

Definition get_info (information : Z) : M state Objects_Information := fun s =>
  match infos s !! information with Some i => Some (i, s) | None => None end.

Definition put_info (information : Z) (i : Objects_Information) : M state unit :=
  modify (fun s => {| ws := ws s; objs := objs s; infos := <[information := i]> (infos s);
                      information_table := information_table s |}).

Definition get_object (the_object : Z) : M state Objects_Control := fun s =>
  match objs s !! the_object with Some o => Some (o, s) | None => None end.

Definition put_object (the_object : Z) (o : Objects_Control) : M state unit :=
  modify (fun s => {| ws := ws s; objs := <[the_object := o]> (objs s); infos := infos s;
                      information_table := information_table s |}).

(** [table[index]] and [table[index] = v]. *)
Definition table_read (table : list Z) (index : Z) : M state Z := fun s =>
  match table !! Z.to_nat index with Some v => Some (v, s) | None => None end.

Definition table_write (table : list Z) (index v : Z) : M state (list Z) := fun s =>
  if decide (Z.to_nat index < length table)%nat
  then Some (<[Z.to_nat index := v]> table, s) else None.

(** [memcpy] of [n] entries to the begin of a table. *)
Definition table_copy (dst src : list Z) (n : Z) : M state (list Z) := fun s =>
  if decide (Z.to_nat n <= length src /\ Z.to_nat n <= length dst)%nat
  then Some (take (Z.to_nat n) src ++ drop (Z.to_nat n) dst, s) else None.

(** [for ( ; index < index_end; ++index ) table[ index ] = NULL] *)
Fixpoint table_clear (n : nat) (index : Z) (table : list Z) : M state (list Z) :=
  match n with
  | O => mret table
  | Datatypes.S n' => t ← table_write table index NULL; table_clear n' (index + 1) t
  end.

(** [n] entries of [w] bytes at the address [a] of a fresh area. *)
Definition fresh_table (a w : Z) (n : Z) : list Z :=
  (fun k => uninitialized (a + w * Z.of_nat k)) <$> seq 0 (Z.to_nat n).

(** [_Workspace_Allocate_or_fatal_error] *)
Definition _Workspace_Allocate_or_fatal_error (size : Z)
    : M state (Z + Internal_errors_Core_list) :=
  memory ← lift (_Workspace_Allocate size);
  if memory =? NULL then mret (inr INTERNAL_ERROR_WORKSPACE_ALLOCATION)
  else mret (inl memory).

(** * Extending a class *)

(** The first free slot of the block table: whether the tables must grow,
    the slot, the first index of its objects, and the number of slots. *)
Definition find_block (i : Objects_Information) (minimum_index : Z)
    : M state (bool * Z * Z * Z) :=
  if object_blocks i =? NULL then mret (true, 0, minimum_index, 0) else
  if allocation_size i =? 0 then fault else
  let block_count := maximum i / allocation_size i in
  '(do_extend, block, index_base) ← whileM (fun '(block, index_base) =>
    if block <? block_count then
      p ← table_read (object_blocks_table i) block;
      if p =? NULL then mret (inr (false, block, index_base))
      else mret (inl (block +. 1, index_base +. allocation_size i))
    else mret (inr (true, block, index_base))) (0, minimum_index);
  mret (do_extend, block, index_base, block_count).

Definition _Addresses_Align_up (address alignment : Z) : Z :=
  let mask := alignment -! 1 in Z.land (address +! mask) (u64 (Z.lnot mask)).

(** Breaking the new area at [p] into its three tables and filling them: the
    old contents are copied, the new entries are cleared.  [block_count] is
    the number of blocks before. *)
Definition fill_tables (i : Objects_Information) (p object_blocks_size inactive_per_block_size
    block_count minimum_index index_base index_end maximum' : Z)
    : M state (list Z * list Z * list Z) :=
  let bt := fresh_table p 8 (block_count + 1) in
  let ipb := fresh_table (p + object_blocks_size) 4 (block_count + 1) in
  let lt := fresh_table (p + object_blocks_size + inactive_per_block_size) 8
              (maximum' +. minimum_index) in
  '(bt, ipb, lt) ←
    (if minimum_index <? maximum i then
       bt ← table_copy bt (object_blocks_table i) block_count;
       ipb ← table_copy ipb (inactive_per_block i) block_count;
       lt ← table_copy lt (local_table i) (maximum i + minimum_index);
       mret (bt, ipb, lt)
     else
       lt ← table_clear (Z.to_nat minimum_index) 0 lt;
       mret (bt, ipb, lt));
  bt ← table_write bt block_count NULL;
  ipb ← table_write ipb block_count 0;
  lt ← table_clear (Z.to_nat (index_end - index_base)) index_base lt;
  mret (bt, ipb, lt).

(** Growing the tables by one block: [inl true] when it is done, [inl false]
    when the workspace is exhausted and the new object block was freed. *)
Definition grow_tables (information new_object_block block_count minimum_index
    index_base index_end maximum' : Z) : M state (bool + Internal_errors_Core_list) :=
  i ← get_info information;
  let block_count := block_count +. 1 in
  let object_blocks_size := _Addresses_Align_up (block_count * 8) 8 in
  let inactive_per_block_size := _Addresses_Align_up (block_count * 4) 8 in
  let block_size := object_blocks_size +! inactive_per_block_size
                    +! ((maximum' +. minimum_index) * 8) in
  r ← (if auto_extend i then
         p ← lift (_Workspace_Allocate block_size);
         if p =? NULL then lift (_Workspace_Free new_object_block);; mret (inl NULL)
         else mret (inl p)
       else _Workspace_Allocate_or_fatal_error block_size);
  match r with
  | inr e => mret (inr e)
  | inl p =>
    if p =? NULL then mret (inl false) else
    let block_count := block_count -. 1 in
    '(bt, ipb, lt) ← fill_tables i p object_blocks_size inactive_per_block_size
       block_count minimum_index index_base index_end maximum';
    let old_tables := object_blocks i in
    let m := u16 maximum' in
    put_info information
      (set_maximum m (_Objects_Build_id (the_api i) (the_class i) 1 m)
        (set_tables p bt ipb lt i));;
    lift (_Workspace_Free old_tables);;
    mret (inl true)
  end.

(** Initializing the objects of the new block. *)
Fixpoint append_objects (information : Z) (n : nat) (index the_object : Z) : M state unit :=
  match n with
  | O => mret tt
  | Datatypes.S n' =>
      i ← get_info information;
      s ← gets objs;
      put_object the_object
        {| id := _Objects_Build_id (the_api i) (the_class i) 1 index;
           name_u32 := match s !! the_object with
                       | Some o => name_u32 o
                       | None => uninitialized (the_object + 20)
                       end |};;
      _Chain_Initialize_node the_object;;
      _Chain_Append_unprotected (Inactive i) the_object;;
      append_objects information n' (index +. 1) (the_object +! size i)
  end.

(** The end of the function: entering the new block. *)
Definition enter_block (information new_object_block block index_base index_end : Z)
    : M state unit :=
  i ← get_info information;
  bt ← table_write (object_blocks_table i) block new_object_block;
  put_info information (set_blocks bt (inactive_per_block i) i);;
  append_objects information (Z.to_nat (index_end - index_base)) index_base new_object_block;;
  i ← get_info information;
  ipb ← table_write (inactive_per_block i) block (allocation_size i);
  put_info information (set_inactive (u16 (inactive i + allocation_size i))
    (set_blocks (object_blocks_table i) ipb i)).

(** [Some e] is the fatal error [e]. *)
Definition _Objects_Extend_information (information : Z)
    : M state (option Internal_errors_Core_list) :=
  i ← get_info information;
  let minimum_index := _Objects_Get_index (minimum_id i) in
  '(do_extend, block, index_base, block_count) ← find_block i minimum_index;
  let index_end := index_base +. allocation_size i in
  let maximum' := maximum i +. allocation_size i in
  if OBJECTS_ID_FINAL_INDEX <? maximum' then mret None else
  let block_size := u64 (allocation_size i * size i) in
  r ← (if auto_extend i then p ← lift (_Workspace_Allocate block_size); mret (inl p)
       else _Workspace_Allocate_or_fatal_error block_size);
  match r with
  | inr e => mret (Some e)
  | inl new_object_block =>
    if new_object_block =? NULL then mret None else
    g ← (if (do_extend : bool) then
           grow_tables information new_object_block block_count minimum_index
             index_base index_end maximum'
         else mret (inl true));
    match g with
    | inr e => mret (Some e)
    | inl false => mret None
    | inl true =>
        enter_block information new_object_block block index_base index_end;; mret None
    end
  end.

(** * Shrinking a class *)

(** The loop over the inactive chain that extracts the objects of a block. *)
Definition extract_block (the_chain index_base index_end : Z) : M state unit :=
  first ← _Chain_First the_chain;
  let tail := _Chain_Tail the_chain in
  whileM (fun node =>
    if node =? tail then mret (inr tt)
    else
      object ← get_object node;
      let index := _Objects_Get_index (id object) in
      nxt ← _Chain_Next node;
      whenM ((index_base <=? index) && (index <? index_end))
        (_Chain_Extract_unprotected node);;
      mret (inl nxt)) first.

(** Freeing the memory of a block and resetting its table entries. *)
Definition release_block (information block : Z) : M state unit :=
  i ← get_info information;
  p ← table_read (object_blocks_table i) block;
  lift (_Workspace_Free p);;
  bt ← table_write (object_blocks_table i) block NULL;
  ipb ← table_write (inactive_per_block i) block 0;
  put_info information (set_inactive (u16 (inactive i - allocation_size i)) (set_blocks bt ipb i)).

Definition _Objects_Shrink_information (information : Z) : M state unit :=
  i ← get_info information;
  let index_base := _Objects_Get_index (minimum_id i) in
  if allocation_size i =? 0 then fault else
  let block_count := (maximum i -. index_base) / allocation_size i in
  whileM (fun '(block, index_base) =>
    if block <? block_count then
      n ← table_read (inactive_per_block i) block;
      if n =? allocation_size i then
        extract_block (Inactive i) index_base (index_base +. allocation_size i);;
        release_block information block;;
        mret (inr tt)
      else mret (inl (block +. 1, index_base +. allocation_size i))
    else mret (inr tt)) (0, index_base).

(** * Allocation and free *)

Definition _Objects_Get_inactive (information : Z) : M state Z :=
  i ← get_info information; _Chain_Get_unprotected (Inactive i).

(** The block of an object, and the change of its inactive counts. *)
Definition count_inactive (information the_object delta : Z) : M state unit :=
  i ← get_info information;
  o ← get_object the_object;
  if allocation_size i =? 0 then fault else
  let block := (_Objects_Get_index (id o) -. _Objects_Get_index (minimum_id i))
               / allocation_size i in
  n ← table_read (inactive_per_block i) block;
  ipb ← table_write (inactive_per_block i) block (n +. delta);
  put_info information (set_inactive (u16 (inactive i + delta))
    (set_blocks (object_blocks_table i) ipb i)).

(** [inr e] is the fatal error [e]. *)
Definition _Objects_Allocate_unprotected (information : Z)
    : M state (Z + Internal_errors_Core_list) :=
  i ← get_info information;
  if size i =? 0 then mret (inl NULL) else
  the_object ← _Objects_Get_inactive information;
  if auto_extend i then
    r ← (if the_object =? NULL then
           e ← _Objects_Extend_information information;
           match e with
           | Some e => mret (inr e)
           | None => o ← _Objects_Get_inactive information; mret (inl o)
           end
         else mret (inl the_object));
    match r with
    | inr e => mret (inr e)
    | inl the_object =>
        whenM (negb (the_object =? NULL)) (count_inactive information the_object (-1));;
        mret (inl the_object)
    end
  else mret (inl the_object).

(** The allocator mutex is no part of the model. *)
Definition _Objects_Allocate (information : Z) : M state (Z + Internal_errors_Core_list) :=
  _Objects_Allocate_unprotected information.

Definition _Objects_Free (information the_object : Z) : M state unit :=
  i ← get_info information;
  let allocation_size' := allocation_size i in
  _Chain_Append_unprotected (Inactive i) the_object;;
  whenM (auto_extend i)
    (count_inactive information the_object 1;;
     i ← get_info information;
     whenM (allocation_size' + Z.shiftr allocation_size' 1 <? inactive i)
       (_Objects_Shrink_information information)).

(** * Initialization *)

Definition _Objects_Do_initialize_information (information the_api' the_class' maximum' size'
    maximum_name_length inactive_chain : Z) : M state (option Internal_errors_Core_list) :=
  let auto_extend' := _Objects_Is_unlimited maximum' in
  let maximum_per_allocation := _Objects_Maximum_per_allocation maximum' in
  modify (fun s => {| ws := ws s; objs := objs s; infos := infos s;
    information_table := <[(the_api', the_class') := information]> (information_table s) |});;
  if auto_extend' && (maximum_per_allocation =? 0)
  then mret (Some INTERNAL_ERROR_UNLIMITED_AND_MAXIMUM_IS_0) else
  let minimum_index := if maximum_per_allocation =? 0 then 0 else 1 in
  old ← gets (fun s => infos s !! information);
  put_info information
    {| the_api := the_api'; the_class := the_class';
       minimum_id := _Objects_Build_id the_api' the_class' 1 minimum_index;
       maximum_id := match old with Some i => maximum_id i | None => uninitialized information end;
       maximum := 0; auto_extend := auto_extend'; allocation_size := maximum_per_allocation;
       size := u16 size'; local_table := [NULL]; Inactive := inactive_chain; inactive := 0;
       inactive_per_block := []; object_blocks := NULL; object_blocks_table := [];
       name_length := u16 maximum_name_length |};;
  _Chain_Initialize_empty inactive_chain;;
  if negb (maximum_per_allocation =? 0) then _Objects_Extend_information information
  else mret None.

(** * Opening, closing and looking up *)

Definition _Objects_Set_local_object (information index the_object : Z) : M state unit :=
  i ← get_info information;
  lt ← table_write (local_table i) index the_object;
  put_info information (set_local_table lt i).

Definition _Objects_Invalidate_Id (information the_object : Z) : M state unit :=
  o ← get_object the_object;
  _Objects_Set_local_object information (_Objects_Get_index (id o)) NULL.

Definition _Objects_Open_u32 (information the_object name : Z) : M state unit :=
  o ← get_object the_object;
  put_object the_object {| id := id o; name_u32 := name |};;
  _Objects_Set_local_object information (_Objects_Get_index (id o)) the_object.

Definition _Objects_Namespace_remove (_ the_object : Z) : M state unit :=
  o ← get_object the_object;
  put_object the_object {| id := id o; name_u32 := 0 |}.

Definition _Objects_Close (information the_object : Z) : M state unit :=
  _Objects_Invalidate_Id information the_object;;
  _Objects_Namespace_remove information the_object.

Definition _Objects_Get_no_protection (id information : Z) : M state Z :=
  i ← get_info information;
  let index := id -. minimum_id i +. 1 in
  if index <=? maximum i then table_read (local_table i) index else mret NULL.

(** The interrupt lock that protects the lookup is no part of the model. *)
Definition _Objects_Get (id information : Z) : M state Z :=
  i ← get_info information;
  let index := id -. minimum_id i +. 1 in
  if index <=? maximum i then
    the_object ← table_read (local_table i) index;
    if negb (the_object =? NULL) then mret the_object else mret NULL
  else mret NULL.

(** The object and the value stored to [*next_id_p], if any; [next_id_p] says
    whether the pointer is not null.  The allocator mutex is no part of the
    model. *)
Definition _Objects_Get_next (id information : Z) (next_id_p : bool) : M state (Z * option Z) :=
  if information =? NULL then mret (NULL, None) else
  if negb next_id_p then mret (NULL, None) else
  i ← get_info information;
  whileM (fun next_id =>
    if maximum i <? _Objects_Get_index next_id then mret (inr (NULL, Some OBJECTS_ID_FINAL))
    else
      the_object ← _Objects_Get_no_protection next_id information;
      let next_id := next_id +. 1 in
      if the_object =? NULL then mret (inl next_id) else mret (inr (the_object, Some next_id)))
    (if _Objects_Get_index id =? OBJECTS_ID_INITIAL_INDEX then minimum_id i else id).

Definition _Objects_Active_count (information : Z) : M state Z :=
  i ← get_info information;
  n ← _Chain_Node_count_unprotected (Inactive i);
  mret (u16 (maximum i -! n)).

Definition _Objects_Extend_size (information : Z) : M state Z :=
  i ← get_info information;
  mret (if auto_extend i then allocation_size i else 0).

Inductive Objects_Name_or_id_lookup_errors :=
  | OBJECTS_NAME_OR_ID_LOOKUP_SUCCESSFUL
  | OBJECTS_INVALID_NAME
  | OBJECTS_INVALID_ADDRESS
  | OBJECTS_INVALID_ID
  | OBJECTS_INVALID_NODE.

Definition OBJECTS_SEARCH_ALL_NODES : Z := 0.
Definition OBJECTS_SEARCH_LOCAL_NODE : Z := 0x7FFFFFFF.

Definition _Objects_Is_local_node (node : Z) : bool := node =? 1.

(** The status and the value stored to [*id], if any; [id_p] says whether
    the pointer is not null. *)
Definition _Objects_Name_to_id_u32 (information name node : Z) (id_p : bool)
    : M state (Objects_Name_or_id_lookup_errors * option Z) :=
  if negb id_p then mret (OBJECTS_INVALID_ADDRESS, None) else
  if name =? 0 then mret (OBJECTS_INVALID_NAME, None) else
  i ← get_info information;
  let search_local_node :=
    negb (maximum i =? 0) &&
    ((node =? OBJECTS_SEARCH_ALL_NODES) || (node =? OBJECTS_SEARCH_LOCAL_NODE)
     || _Objects_Is_local_node node) in
  if search_local_node then
    whileM (fun index =>
      if index <=? maximum i then
        the_object ← table_read (local_table i) index;
        if the_object =? NULL then mret (inl (index +. 1)) else
        o ← get_object the_object;
        if name =? name_u32 o
        then mret (inr (OBJECTS_NAME_OR_ID_LOOKUP_SUCCESSFUL, Some (id o)))
        else mret (inl (index +. 1))
      else mret (inr (OBJECTS_INVALID_NAME, None))) 1
  else mret (OBJECTS_INVALID_NAME, None).

(** The address of the information block, [NULL] when there is none. *)
Definition _Objects_Get_information (the_api the_class : Z) : M state Z :=
  if the_class =? 0 then mret NULL else
  let the_class_api_maximum := _Objects_API_maximum_class the_api in
  if the_class_api_maximum =? 0 then mret NULL else
  if the_class_api_maximum <? the_class then mret NULL else
  if the_api =? OBJECTS_NO_API then mret NULL else
  r ← gets (fun s => information_table s !! (the_api, the_class));
  match r with
  | None => mret NULL
  | Some info => i ← get_info info; if maximum i =? 0 then mret NULL else mret info
  end.

Definition _Objects_Get_information_id (id : Z) : M state Z :=
  _Objects_Get_information (_Objects_Get_API id) (_Objects_Get_class id).

(** The status and the name; [self] is the identifier of the executing
    thread. *)
Definition _Objects_Id_to_name (self id' : Z)
    : M state (Objects_Name_or_id_lookup_errors * option Z) :=
  let tmpId := if id' =? 0 then self else id' in
  information ← _Objects_Get_information_id tmpId;
  if information =? NULL then mret (OBJECTS_INVALID_ID, None) else
  the_object ← _Objects_Get tmpId information;
  if the_object =? NULL then mret (OBJECTS_INVALID_ID, None) else
  o ← get_object the_object;
  mret (OBJECTS_NAME_OR_ID_LOOKUP_SUCCESSFUL, Some (name_u32 o)).

(** The bytes stored to the buffer, or [None] for a null result. *)
Definition _Objects_Get_name_as_string (self id' length : Z) (name_p : bool)
    : M state (option (list Z)) :=
  if length =? 0 then mret None else
  if negb name_p then mret None else
  let tmpId := if id' =? 0 then self else id' in
  information ← _Objects_Get_information_id tmpId;
  if information =? NULL then mret None else
  the_object ← _Objects_Get tmpId information;
  if the_object =? NULL then mret None else
  o ← get_object the_object;
  mret (Some (_Objects_Name_to_string (name_u32 o) length).1).

End objects.
End Objects.
