(* ===== verification/ObjectsInv.v ===== *)
(** The invariant of an object class and the operations that allocate, free,
    extend and shrink it.

    The class owns a set of object control blocks, identified by their index:
    each is inactive (on the chain), held (taken from the chain and not yet
    opened, or closed and not yet freed) or open (in the local table). *)

From S2P Require Import Prelude DList Chain Workspace ObjectId Objects.
Import Chain Workspace ObjectId Objects.
Open Scope width_scope.

Module ObjectsInv.

(** * Arrays of nodes *)

Section arrays.
Context (sz : Z).

Lemma elem_array_nodes p n y :
  y ∈ array_nodes p n sz <-> exists j, 0 <= j < Z.of_nat n /\ y = p + j * sz.
Proof.
  revert p. induction n as [|n IH]; intros p; cbn [array_nodes].
  - split; [set_solver|]. intros (j & ? & _). lia.
  - rewrite elem_of_cons, IH. split.
    + intros [->|(j & ? & ->)]; [exists 0|exists (j + 1)]; split; lia.
    + intros (j & ? & ->). destruct (Z.eq_dec j 0) as [->|]; [left; lia|].
      right. exists (j - 1). split; lia.
Qed.

Lemma length_array_nodes p n : length (array_nodes p n sz) = n.
Proof. revert p. induction n; intros p; cbn; auto. Qed.

Lemma NoDup_array_nodes p n : 0 < sz -> NoDup (array_nodes p n sz).
Proof.
  intros Hsz. revert p. induction n as [|n IH]; intros p; cbn; constructor; [|apply IH].
  rewrite elem_array_nodes. intros (j & ? & ?). nia.
Qed.

End arrays.

Section class.
Context {S : Type} {HM : HasMem S} {WS : Workspace S}.
Context (uninitialized : Z -> Z).
(** The class: the address of its information block and of its inactive
    chain, its API and class numbers, the objects per block and their size,
    and whether it grows. *)
Context (information c api cls a sz : Z) (auto : bool).
Context (Hapi : 0 <= api < 8) (Hcls : 0 <= cls < 32) (Ha : 1 <= a < 65536).
Context (Hauto : auto = true -> 2 <= a).
Context (Hsz : 24 <= sz < 65536) (Hsz8 : sz mod 8 = 0).
Context (Hstatic : forall k, k ∈ chain_words c [] -> static k).

Abbreviation state := (Objects.state (S := S)).

Definition mkid (x : Z) : Z := _Objects_Build_id api cls 1 x.

Lemma mkid_sum x : 0 <= x < 65536 -> mkid x = mkid 0 + x /\ 0 <= mkid x < 2 ^ 32.
Proof.
  intros Hx. unfold mkid. rewrite !build_id_sum by lia. lia.
Qed.

Lemma mkid_index x : 0 <= x < 65536 -> _Objects_Get_index (mkid x) = x.
Proof. intros Hx. by apply get_index_small. Qed.

(** The object with index [x] is at address [p]. *)
Definition is_obj (bt : list Z) (x p : Z) : Prop := exists (k : nat) (j q : Z),
  bt !! k = Some q /\ q <> NULL /\ 0 <= j < a /\ x = 1 + Z.of_nat k * a + j /\ p = q + j * sz.

Definition areas (bt : list Z) : list (Z * Z) :=
  (fun q => (q, a * sz)) <$> filter (fun q => q <> NULL) bt.

(** The objects of [ns] in the block at [q]. *)
Definition in_block (q p : Z) : Prop := q <= p < q + a * sz.
#[local] Instance in_block_dec q p : Decision (in_block q p).
Proof. unfold in_block. apply _. Defined.
Definition cnt (q : Z) (ns : list Z) : Z :=
  Z.of_nat (length (filter (in_block q) ns)).

#[local] Arguments areas : simpl never.
#[local] Arguments cnt : simpl never.
#[local] Arguments mkid : simpl never.

(** The part of the information block that never changes. *)
Record fixed (i : Objects_Information) : Prop := {
  f_api : the_api i = api;
  f_class : the_class i = cls;
  f_min : minimum_id i = mkid 1;
  f_auto : auto_extend i = auto;
  f_alloc : allocation_size i = a;
  f_size : size i = sz;
  f_chain : Inactive i = c;
}.

(** The area of the tables. *)
Definition table_area (i : Objects_Information) (n : Z) : list (Z * Z) :=
  if object_blocks i =? NULL then [] else [(object_blocks i, n)].

(** The tables agree with the inactive objects [ns] and the held objects
    [hs]; the counters of inactive objects count [cs], which differs from
    [ns] for the short time between a chain operation and its accounting. *)
Record tables (i : Objects_Information) (ns hs cs : list Z) : Prop := {
  t_max : maximum i = Z.of_nat (length (object_blocks_table i)) * a;
  t_limit : maximum i <= OBJECTS_ID_FINAL_INDEX;
  t_null : object_blocks i = NULL <-> object_blocks_table i = [];
  t_ipb : length (inactive_per_block i) = length (object_blocks_table i);
  t_lt : Z.of_nat (length (local_table i)) = maximum i + 1;
  t_lt0 : local_table i !! O = Some NULL;
  t_nodup : NoDup (ns ++ hs);
  t_obj : forall p, p ∈ ns ++ hs -> exists x, is_obj (object_blocks_table i) x p;
  t_open : forall x p, local_table i !! Z.to_nat x = Some p -> 0 <= x -> p <> NULL ->
    is_obj (object_blocks_table i) x p /\ p ∉ ns ++ hs;
  t_closed : forall x p, is_obj (object_blocks_table i) x p ->
    local_table i !! Z.to_nat x = Some p \/
    local_table i !! Z.to_nat x = Some NULL /\ p ∈ ns ++ hs;
  t_count : auto = true -> inactive i = u16 (Z.of_nat (length cs)) /\
    forall k q, object_blocks_table i !! k = Some q ->
      inactive_per_block i !! k = Some (if q =? NULL then 0 else cnt q cs);
}.

(** [A] holds the names of the open objects by identifier. *)
Definition open_names (i : Objects_Information) (ob : gmap Z Objects_Control) (A : gmap Z Z) : Prop :=
  forall z nm, A !! z = Some nm <-> exists x p o, 0 <= x <= maximum i /\ z = mkid x /\
    local_table i !! Z.to_nat x = Some p /\ p <> NULL /\ ob !! p = Some o /\ name_u32 o = nm.

(** [L] are the areas of the workspace that belong to others. *)
Record inv (i : Objects_Information) (ns hs cs : list Z) (L : list (Z * Z)) (A : gmap Z Z)
    (s : state) : Prop := {
  i_info : infos s !! information = Some i;
  i_fixed : fixed i;
  i_tables : tables i ns hs cs;
  i_live : exists n, ws_live (ws s) (table_area i n ++ areas (object_blocks_table i) ++ L);
  i_chain : chain (get_mem s) c ns;
  i_objs : forall x p, is_obj (object_blocks_table i) x p ->
    exists o, objs s !! p = Some o /\ id o = mkid x;
  i_open : open_names i (objs s) A;
}.

(** * Objects and their addresses *)

Lemma is_obj_range bt x p : is_obj bt x p -> 1 <= x <= Z.of_nat (length bt) * a.
Proof. intros (k & j & q & Hk & _ & Hj & -> & _). apply lookup_lt_Some in Hk. nia. Qed.

Lemma areas_take bt k q : bt !! k = Some q -> q <> NULL ->
  areas bt ≡ₚ (q, a * sz) :: areas (<[k := NULL]> bt).
Proof.
  intros Hk Hq. unfold areas. rewrite (insert_take_drop bt k) by by eapply lookup_lt_Some.
  rewrite <- (take_drop_middle bt k q Hk) at 1. rewrite !filter_app, !fmap_app.
  rewrite filter_cons_True by done. rewrite filter_cons_False by (intros E; by apply E).
  cbn. by rewrite Permutation_middle.
Qed.

Lemma areas_elem bt k q : bt !! k = Some q -> q <> NULL -> (q, a * sz) ∈ areas bt.
Proof.
  intros Hk Hq. unfold areas. apply list_elem_of_fmap. exists q. split; [done|].
  apply list_elem_of_filter. split; [done|by eapply list_elem_of_lookup_2].
Qed.

Lemma elem_chain_words k l : k ∈ chain_words c l ->
  (k ∈ chain_words c []) \/ (exists p, p ∈ l /\ k ∈ node_words p).
Proof.
  rewrite !elem_of_chain_words. unfold node_words. intros [?|[?|[?|(p & ? & ?)]]]; [by auto..|].
  right. exists p. set_solver.
Qed.

Section spaced.
Context (bt : list Z) (R : list (Z * Z)) (w : S).
Context (Hlive : ws_live w (areas bt ++ R)).

Lemma block_apart k q k' q' : bt !! k = Some q -> bt !! k' = Some q' -> q <> NULL -> q' <> NULL ->
  k <> k' -> q + a * sz <= q' \/ q' + a * sz <= q.
Proof.
  intros Hk Hk' Hq Hq' Hne. pose proof Hlive as Hl. rewrite (areas_take bt k q Hk Hq) in Hl.
  apply ws_disjoint in Hl. apply (areas_disjoint_cons _ _ _ _ _ Hl).
  apply elem_of_app. left. eapply areas_elem; [|done]. by rewrite list_lookup_insert_ne.
Qed.

Lemma block_pos k q : bt !! k = Some q -> q <> NULL ->
  0 < q /\ q mod 8 = 0 /\ q + a * sz < 2 ^ 64.
Proof.
  intros Hk Hq. destruct (ws_area _ _ q (a * sz) Hlive) as (? & ? & ? & _); [|done].
  apply elem_of_app. left. by eapply areas_elem.
Qed.

(** Different objects do not overlap. *)
Lemma obj_spaced x p x' p' : is_obj bt x p -> is_obj bt x' p' ->
  (x = x' /\ p = p') \/ (x <> x' /\ (p + sz <= p' \/ p' + sz <= p)).
Proof.
  intros (k & j & q & Hk & Hq & Hj & -> & ->) (k' & j' & q' & Hk' & Hq' & Hj' & -> & ->).
  destruct (decide (k = k')) as [->|Hne].
  - simplify_eq. destruct (decide (j = j')) as [->|]; [by left|]. right. nia.
  - right. destruct (block_apart _ _ _ _ Hk Hk' Hq Hq' Hne); nia.
Qed.

Lemma obj_inj x x' p : is_obj bt x p -> is_obj bt x' p -> x = x'.
Proof. intros H1 H2. destruct (obj_spaced _ _ _ _ H1 H2) as [[? _]|[_ ?]]; [done|lia]. Qed.

Lemma obj_fun x p p' : is_obj bt x p -> is_obj bt x p' -> p = p'.
Proof. intros H1 H2. by destruct (obj_spaced _ _ _ _ H1 H2) as [[_ ?]|[? _]]. Qed.

Lemma obj_words x p k : is_obj bt x p -> k ∈ node_words p ->
  live_word (areas bt ++ R) k /\ k mod 8 = 0.
Proof.
  intros (b & j & q & Hb & Hq & Hj & -> & ->) Hk. destruct (block_pos _ _ Hb Hq) as (_ & H8 & _). split.
  - exists q, (a * sz). split; [apply elem_of_app; left; by eapply areas_elem|].
    unfold node_words in Hk. set_unfold in Hk. nia.
  - assert (Hp : (q + j * sz) mod 8 = 0).
    { rewrite Z.add_mod, H8, Z.mul_mod, Hsz8, Z.mul_0_r by lia. done. }
    unfold node_words in Hk. set_unfold in Hk. destruct Hk as [->|[->|[]]]; [done|].
    rewrite Z.add_mod, Hp by lia. done.
Qed.

Lemma obj_mapped x p k : is_obj bt x p -> k ∈ node_words p ->
  ~ static k /\ is_Some (get_mem w !! k).
Proof.
  intros Ho Hk. destruct (obj_words x p k Ho Hk) as [(q & n & Hq & H1 & H2) H8].
  destruct (ws_area _ _ _ _ Hlive Hq) as (_ & _ & _ & Hw). destruct (Hw k H1 H2). auto.
Qed.

(** The words of a chain of objects may be written without the workspace
    noticing. *)
Lemma chain_words_live l k : (forall p, p ∈ l -> exists x, is_obj bt x p) ->
  k ∈ chain_words c l -> live_word (areas bt ++ R) k \/ static k.
Proof.
  intros Hl [Hk|(p & Hp & Hk)]%elem_chain_words; [right; by apply Hstatic|].
  destruct (Hl p Hp) as (x & Ho). left. by eapply obj_words.
Qed.

(** An object that is not on the chain can be appended. *)
Lemma off_chain_obj l x p : (forall p, p ∈ l -> exists x, is_obj bt x p) ->
  is_obj bt x p -> p ∉ l -> off_chain (get_mem w) c l p.
Proof.
  intros Hl Ho Hp.
  assert (Hw : forall k, k ∈ node_words p -> (k ∉ chain_words c []) /\ is_Some (get_mem w !! k)).
  { intros k Hk. destruct (obj_mapped _ _ _ Ho Hk). split; [|done].
    intros Hc. by apply Hstatic in Hc. }
  destruct (Hw p) as [H1 H2]; [unfold node_words; set_solver|].
  destruct (Hw (p + 8)) as [H3 H4]; [unfold node_words; set_solver|].
  unfold chain_words in H1, H3. cbn in H1, H3. set_unfold in H1. set_unfold in H3.
  assert (Hns : forall y, y ∈ l -> y <> p /\ (p + 24 <= y \/ y + 24 <= p)).
  { intros y Hy. split; [by intros ->|]. destruct (Hl y Hy) as (x' & Ho').
    destruct (obj_spaced _ _ _ _ Ho Ho') as [[_ <-]|[_ ?]]; [done|lia]. }
  unfold off_chain, NODE_NEXT, NODE_PREVIOUS. rewrite Z.add_0_r. split_and!; [done|done|..].
  - set_solver.
  - set_solver.
  - intros y [Hy| ->%list_elem_of_singleton]%elem_of_app; [apply Hns in Hy; lia|lia].
  - intros y [->|Hy]%elem_of_cons; [lia|apply Hns in Hy; lia].
Qed.

Lemma obj_in_block k q x p : bt !! k = Some q -> q <> NULL -> is_obj bt x p ->
  in_block q p <-> 1 + Z.of_nat k * a <= x < 1 + Z.of_nat k * a + a.
Proof.
  intros Hk Hq (k' & j & q' & Hk' & Hq' & Hj & -> & ->). unfold in_block.
  destruct (decide (k = k')) as [->|Hne].
  - simplify_eq. split; intros _; nia.
  - destruct (block_apart _ _ _ _ Hk Hk' Hq Hq' Hne); split; intros; exfalso; nia.
Qed.

(** A block has at most [a] objects. *)
Lemma cnt_all k q (ns : list Z) : bt !! k = Some q -> q <> NULL -> NoDup ns ->
  (forall p, p ∈ ns -> exists x, is_obj bt x p) ->
  cnt q ns <= a /\ (cnt q ns = a -> forall j, 0 <= j < a -> q + j * sz ∈ ns).
Proof.
  intros Hk Hq Hnd Hobj.
  set (all := (fun j => q + j * sz) <$> seqZ 0 a).
  assert (Hsub : filter (in_block q) ns ⊆ all).
  { intros p [Hin Hp]%list_elem_of_filter. destruct (Hobj p Hp) as (x & Ho).
    pose proof (proj1 (obj_in_block k q x p Hk Hq Ho) Hin) as Hx.
    destruct Ho as (k' & j & q' & Hk' & Hq' & Hj & -> & ->).
    assert (k' = k) as -> by nia. simplify_eq.
    apply list_elem_of_fmap. exists j. split; [done|]. apply elem_of_seqZ. lia. }
  assert (Hlen : length all = Z.to_nat a) by (unfold all; rewrite length_fmap, length_seqZ; lia).
  assert (Hnd' : NoDup (filter (in_block q) ns)) by by apply NoDup_filter.
  pose proof (NoDup_submseteq _ _ Hnd' Hsub) as Hm. unfold cnt. split.
  - apply submseteq_length in Hm. lia.
  - intros E j Hj. pose proof (submseteq_length_Permutation _ _ Hm ltac:(lia)) as Hp.
    assert (Hin : q + j * sz ∈ filter (in_block q) ns).
    { rewrite Hp. unfold all. apply list_elem_of_fmap. exists j. split; [done|]. apply elem_of_seqZ. lia. }
    by apply list_elem_of_filter in Hin as [_ ?].
Qed.
End spaced.

(** * Writing to the chain *)

Section steps.
Context (i : Objects_Information) (ns hs cs : list Z) (L : list (Z * Z)) (A : gmap Z Z) (s : state).
Context (HI : inv i ns hs cs L A s).
Abbreviation bt := (object_blocks_table i).

Lemma inv_live : exists R, L ⊆ R /\ ws_live (ws s) (areas bt ++ R) /\
  (forall w', ws_live w' (areas bt ++ R) ->
    exists n, ws_live w' (table_area i n ++ areas bt ++ L)).
Proof.
  destruct (i_live _ _ _ _ _ _ _ HI) as [n Hn]. exists (table_area i n ++ L).
  assert (Hp : table_area i n ++ areas bt ++ L ≡ₚ areas bt ++ table_area i n ++ L)
    by (rewrite !app_assoc; f_equiv; apply Permutation_app_comm).
  split_and!; [set_solver|by rewrite <- Hp|]. intros w' Hw. exists n. by rewrite Hp.
Qed.

(** A chain operation on objects of the class is no business of the
    workspace. *)
Lemma chain_write l m' : changes (chain_words c l) (get_mem s) m' ->
  (forall p, p ∈ l -> exists x, is_obj bt x p) ->
  exists n, ws_live (set_mem m' (ws s)) (table_area i n ++ areas bt ++ L).
Proof.
  intros Hch Hl. destruct inv_live as (R & _ & Hlive & Hback). apply Hback.
  eapply ws_write; [exact Hlive|exact Hch|]. intros k Hk. by eapply chain_words_live.
Qed.

Lemma obj_nonnull x p : is_obj bt x p -> p <> NULL.
Proof.
  intros (k & j & q & Hk & Hq & Hj & _ & ->). destruct inv_live as (R & _ & Hlive & _).
  destruct (block_pos _ _ _ Hlive _ _ Hk Hq). unfold NULL. nia.
Qed.

(** After a chain operation that moved objects between the chain and the
    held ones. *)
Lemma inv_chain_step l ns' hs' m' : chain m' c ns' -> changes (chain_words c l) (get_mem s) m' ->
  (forall p, p ∈ l -> exists x, is_obj bt x p) -> ns' ++ hs' ≡ₚ ns ++ hs ->
  inv i ns' hs' cs L A (set_mem m' s).
Proof.
  intros Hc Hch Hl Hp. pose proof (chain_write l m' Hch Hl) as Hw.
  destruct HI as [H1 H2 [] H4 H5 H6 H7]. split; cbn; [done|done| |done|by rewrite get_set_mem|done|done].
  split; try done.
  - by rewrite Hp.
  - intros p. rewrite Hp. auto.
  - intros x p. rewrite Hp. auto.
  - intros x p. rewrite Hp. auto.
Qed.

Lemma chain_objs p : p ∈ ns -> exists x, is_obj bt x p.
Proof.
  intros Hp. apply (t_obj _ _ _ _ (i_tables _ _ _ _ _ _ _ HI)). apply elem_of_app. by left.
Qed.

Lemma get_info_spec Q : Q i s -> wp (get_info information) Q s.
Proof. unfold wp, get_info. by rewrite (i_info _ _ _ _ _ _ _ HI). Qed.

Lemma get_object_spec x p Q : is_obj bt x p ->
  (forall o, objs s !! p = Some o -> id o = mkid x -> Q o s) -> wp (get_object p) Q s.
Proof.
  intros Ho HQ. destruct (i_objs _ _ _ _ _ _ _ HI _ _ Ho) as (o & Eo & Hid).
  unfold wp, get_object. rewrite Eo. by apply HQ.
Qed.

Lemma get_inactive_spec Q :
  (ns = [] -> forall s', inv i [] hs cs L A s' -> Q NULL s') ->
  (forall p ns' s', ns = p :: ns' -> p <> NULL -> inv i ns' (p :: hs) cs L A s' -> Q p s') ->
  wp (_Objects_Get_inactive information) Q s.
Proof.
  intros H0 H1. apply wp_bind, get_info_spec. rewrite (f_chain _ (i_fixed _ _ _ _ _ _ _ HI)).
  eapply get_spec; [exact (i_chain _ _ _ _ _ _ _ HI)|]. intros m' Hc Hch.
  assert (Hns : ns = [] \/ exists p ns', ns = p :: ns') by (destruct ns; eauto).
  destruct Hns as [E|(p & ns' & E)]; rewrite E in Hc; cbn in Hc.
  - rewrite E. apply H0; [done|]. eapply inv_chain_step; [exact Hc|exact Hch|apply chain_objs|by rewrite E].
  - rewrite E. apply (H1 p ns'); [done| |].
    + destruct (chain_objs p) as (x & Ho); [rewrite E; set_solver|]. by eapply obj_nonnull.
    + eapply inv_chain_step; [exact Hc|exact Hch|apply chain_objs|].
      rewrite E. cbn. by rewrite <- Permutation_middle.
Qed.

Lemma append_held_spec p hs' Q : hs = p :: hs' ->
  (forall s', inv i (ns ++ [p]) hs' cs L A s' -> Q tt s') ->
  wp (_Chain_Append_unprotected c p) Q s.
Proof.
  intros Ehs HQ. pose proof (i_tables _ _ _ _ _ _ _ HI) as Ht.
  destruct (t_obj _ _ _ _ Ht p) as (x & Ho); [rewrite Ehs; set_solver|].
  assert (Hp : p ∉ ns).
  { pose proof (t_nodup _ _ _ _ Ht) as Hnd. rewrite Ehs in Hnd.
    apply NoDup_app in Hnd as (_ & Hnd & _). intros Hin. apply (Hnd p Hin). set_solver. }
  destruct inv_live as (R & _ & Hlive & _).
  eapply append_spec; [exact (i_chain _ _ _ _ _ _ _ HI)|
    by eapply off_chain_obj; [exact Hlive|exact chain_objs|..]|].
  intros m' Hc Hch. apply HQ. eapply inv_chain_step; [exact Hc|exact Hch| |].
  - intros p' [Hp'| ->%list_elem_of_singleton]%elem_of_app; [by apply chain_objs|by eauto].
  - rewrite Ehs, <- app_assoc. done.
Qed.
End steps.

(** * Counting *)

Lemma cnt_cons q p l : cnt q (p :: l) = (if decide (in_block q p) then 1 else 0) + cnt q l.
Proof. unfold cnt. rewrite filter_cons. case_decide; cbn [length]; lia. Qed.

Lemma cnt_perm q l l' : l ≡ₚ l' -> cnt q l = cnt q l'.
Proof. intros Hp. unfold cnt. by rewrite Hp. Qed.

Lemma u16_add x y : u16 (u16 x + y) = u16 (x + y).
Proof. unfold u16. by rewrite Zplus_mod_idemp_l. Qed.

Lemma table_read_spec (s : state) t k v Q : t !! Z.to_nat k = Some v -> Q v s ->
  wp (table_read t k) Q s.
Proof. unfold wp, table_read. by intros ->. Qed.

Lemma table_write_spec (s : state) t k v Q : (Z.to_nat k < length t)%nat ->
  Q (<[Z.to_nat k := v]> t) s -> wp (table_write t k v) Q s.
Proof. intros Hk. unfold wp, table_write. by rewrite decide_True. Qed.

(** Replacing the information block. *)
Definition with_info (i : Objects_Information) (s : state) : state :=
  {| ws := ws s; objs := objs s; infos := <[information := i]> (infos s);
     information_table := information_table s |}.

Lemma inv_put_info i i' ns hs cs cs' L A s : inv i ns hs cs L A s -> fixed i' ->
  tables i' ns hs cs' -> object_blocks_table i' = object_blocks_table i ->
  object_blocks i' = object_blocks i -> maximum i' = maximum i -> local_table i' = local_table i ->
  inv i' ns hs cs' L A (with_info i' s).
Proof.
  intros [H1 H2 H3 H4 H5 H6 H7] Hf Ht Eb Ep Em El. split; cbn; [|done|done| |done| |].
  - apply lookup_insert_eq.
  - unfold table_area. by rewrite Eb, Ep.
  - by rewrite Eb.
  - unfold open_names. by rewrite Em, El.
Qed.

Lemma block_index k j : 0 <= j < a ->
  (1 + Z.of_nat k * a + j - 1) / a = Z.of_nat k.
Proof. intros Hj. replace (1 + _ + j - 1) with (j + Z.of_nat k * a) by lia. rewrite Z.div_add, Z.div_small by lia. lia. Qed.

Lemma count_inactive_spec i ns hs cs cs' L A s x p delta Q : auto = true ->
  inv i ns hs cs L A s -> is_obj (object_blocks_table i) x p ->
  NoDup cs' -> (forall p, p ∈ cs' -> exists x, is_obj (object_blocks_table i) x p) ->
  (forall q, cnt q cs' = cnt q cs + if decide (in_block q p) then delta else 0) ->
  Z.of_nat (length cs') = Z.of_nat (length cs) + delta ->
  (forall i' s', inv i' ns hs cs' L A s' -> object_blocks_table i' = object_blocks_table i -> Q tt s') ->
  wp (count_inactive information p delta) Q s.
Proof.
  intros Hau HI Ho Hnd Hobj Hcnt Hlen HQ. pose proof (i_fixed _ _ _ _ _ _ _ HI) as Hf.
  pose proof (i_tables _ _ _ _ _ _ _ HI) as Ht. destruct (t_count _ _ _ _ Ht Hau) as [Hin Hipb].
  apply wp_bind. eapply get_info_spec; [exact HI|]. apply wp_bind.
  eapply get_object_spec; [exact HI|exact Ho|]. intros o _ Hid. rewrite Hid.
  rewrite (f_alloc _ Hf), (f_min _ Hf). destruct (Z.eqb_spec a 0); [lia|].
  pose proof (is_obj_range _ _ _ Ho) as Hx. rewrite <- (t_max _ _ _ _ Ht) in Hx.
  pose proof (t_limit _ _ _ _ Ht) as Hlim. unfold OBJECTS_ID_FINAL_INDEX in Hlim.
  rewrite !mkid_index by lia. rewrite u32_small by lia.
  pose proof Ho as (k & j & q & Hk & Hq & Hj & Ex & Ep). rewrite Ex, block_index by done.
  destruct (inv_live _ _ _ _ _ _ _ HI) as (R & _ & Hlive & _).
  assert (Hqp : in_block q p).
  { apply (proj2 (obj_in_block _ _ _ Hlive _ _ _ _ Hk Hq Ho)). lia. }
  destruct (cnt_all _ _ _ Hlive k q cs' Hk Hq Hnd Hobj) as [Hle _].
  pose proof (Hipb k q Hk) as Hv. destruct (Z.eqb_spec q NULL); [done|].
  pose proof (Hcnt q) as Hcq. rewrite decide_True in Hcq by done.
  cbv zeta. apply wp_bind. eapply table_read_spec; [rewrite Nat2Z.id; exact Hv|].
  apply wp_bind, table_write_spec; [rewrite Nat2Z.id; by eapply lookup_lt_Some|].
  rewrite <- Hcq, u32_small by (unfold cnt in *; lia). rewrite Nat2Z.id.
  apply wp_modify. match goal with |- Q tt (Build_state _ _ (<[_ := ?i']> _) _) => apply (HQ i') end; [|done].
  eapply (inv_put_info i); [exact HI|by destruct Hf| |done..].
  destruct Ht. split; cbn; try done.
  - by rewrite length_insert.
  - intros _. rewrite Hin, u16_add, Hlen. split; [done|]. intros k' q' Hk'.
    destruct (decide (k' = k)) as [->|Hne].
    + simplify_eq. rewrite list_lookup_insert_eq by (by eapply lookup_lt_Some). by destruct (Z.eqb_spec q NULL).
    + rewrite list_lookup_insert_ne by done. rewrite (Hipb k' q' Hk').
      destruct (Z.eqb_spec q' NULL); [done|]. rewrite Hcnt, decide_False; [by rewrite Z.add_0_r|].
      intros Hb. apply (proj1 (obj_in_block _ _ _ Hlive _ _ _ _ Hk' n1 Ho)) in Hb. nia.
Qed.

(** * The workspace below *)

Definition with_ws (w : S) (s : state) : state :=
  {| ws := w; objs := objs s; infos := infos s; information_table := information_table s |}.

Lemma lift_spec {B} (m : M S B) Q (s : state) :
  wp m (fun b w => Q b (with_ws w s)) (ws s) -> wp (lift m) Q s.
Proof. unfold wp, lift. by destruct (m (ws s)) as [[b w]|]. Qed.

Section workspace.
Context (i : Objects_Information) (ns hs cs : list Z) (L : list (Z * Z)) (A : gmap Z Z) (s : state).

Lemma chain_kept R k : inv i ns hs cs L A s -> areas (object_blocks_table i) ⊆ R ->
  k ∈ chain_words c ns -> live_word R k \/ static k.
Proof.
  intros HI HR [Hk|(p & Hp & Hk)]%elem_chain_words; [right; by apply Hstatic|]. left.
  destruct (chain_objs _ _ _ _ _ _ _ HI p Hp) as (x & Ho).
  destruct (inv_live _ _ _ _ _ _ _ HI) as (R' & _ & Hlive & _).
  destruct Ho as (b & j & q & Hb & Hq & Hj & -> & ->). exists q, (a * sz).
  split; [by eapply HR, areas_elem|]. unfold node_words in Hk. set_unfold in Hk. nia.
Qed.

Lemma inv_ws w' L' : inv i ns hs cs L A s ->
  (forall k, k ∈ chain_words c ns -> get_mem w' !! k = get_mem (ws s) !! k) ->
  (exists n, ws_live w' (table_area i n ++ areas (object_blocks_table i) ++ L')) ->
  inv i ns hs cs L' A (with_ws w' s).
Proof.
  intros [H1 H2 H3 H4 H5 H6 H7] Hk Hw. split; try done. by eapply chain_frame.
Qed.

Lemma allocate_area_spec n Q : inv i ns hs cs L A s -> 0 <= n < 2 ^ 64 ->
  (forall s', inv i ns hs cs L A s' -> Q NULL s') ->
  (forall p s', p <> NULL -> inv i ns hs cs ((p, n) :: L) A s' -> Q p s') ->
  wp (lift (_Workspace_Allocate n)) Q s.
Proof.
  intros HI Hn H0 H1. apply lift_spec. destruct (i_live _ _ _ _ _ _ _ HI) as [tn Hlive].
  eapply wp_mono; [by apply ws_allocate|]. intros p w' [Hkeep Hcase].
  assert (Hc : forall k, k ∈ chain_words c ns -> get_mem w' !! k = get_mem (ws s) !! k).
  { intros k Hk. apply Hkeep. eapply chain_kept; [exact HI| |exact Hk]. set_solver. }
  destruct Hcase as [[-> Hw]|[Hp Hw]].
  - apply H0, inv_ws; [done|done|by exists tn].
  - apply H1; [done|]. apply inv_ws; [done|done|]. exists tn.
    eapply ws_perm; [|exact Hw]. rewrite !app_assoc. apply Permutation_middle.
Qed.

Lemma free_area_spec p n L' Q : inv i ns hs cs L A s -> L ≡ₚ (p, n) :: L' ->
  (forall s', inv i ns hs cs L' A s' -> Q tt s') -> wp (lift (_Workspace_Free p)) Q s.
Proof.
  intros HI HL HQ. apply lift_spec. destruct (i_live _ _ _ _ _ _ _ HI) as [tn Hlive].
  rewrite HL, !app_assoc, <- Permutation_middle, <- !app_assoc in Hlive.
  eapply wp_mono; [exact (ws_free _ _ _ _ Hlive)|]. intros [] w' [Hkeep Hw].
  apply HQ, inv_ws; [done| |by exists tn].
  intros k Hk. apply Hkeep. eapply chain_kept; [exact HI| |exact Hk]. set_solver.
Qed.
End workspace.

(** * Growing the tables *)

Lemma table_clear_spec n k t Q (s : state) : (k + n <= length t)%nat ->
  Q (take k t ++ replicate n NULL ++ drop (k + n) t) s ->
  wp (table_clear n (Z.of_nat k) t) Q s.
Proof.
  revert k t. induction n as [|n IH]; intros k t Hk HQ; cbn [table_clear].
  - apply wp_ret. cbn in HQ. by rewrite Nat.add_0_r, take_drop in HQ.
  - apply wp_bind, table_write_spec; rewrite Nat2Z.id; [lia|].
    replace (Z.of_nat k + 1) with (Z.of_nat (Datatypes.S k)) by lia. apply IH.
    { rewrite length_insert. lia. }
    rewrite insert_take_drop by lia.
    replace (take (Datatypes.S k) _) with (take k t ++ [NULL]).
    2: { rewrite take_app, length_take. replace (Datatypes.S k - k `min` length t)%nat with 1%nat by lia.
         rewrite take_take. replace (_ `min` k)%nat with k by lia. done. }
    replace (drop (Datatypes.S k + n) _) with (drop (k + Datatypes.S n) t).
    2: { rewrite drop_app, length_take. rewrite (drop_ge (take k t)) by (rewrite length_take; lia). cbn [app].
         replace (Datatypes.S k + n - k `min` length t)%nat with (Datatypes.S n) by lia. cbn [drop].
         rewrite drop_drop. f_equal. lia. }
    rewrite <- app_assoc. exact HQ.
Qed.

Lemma length_fresh_table p w n : length (fresh_table uninitialized p w n) = Z.to_nat n.
Proof. unfold fresh_table. by rewrite length_fmap, length_seq. Qed.

Lemma table_copy_spec (s : state) dst src n Q :
  length src = Z.to_nat n -> (Z.to_nat n <= length dst)%nat -> Q (src ++ drop (Z.to_nat n) dst) s ->
  wp (table_copy dst src n) Q s.
Proof.
  intros H1 H2 HQ. unfold wp, table_copy. rewrite decide_True by lia. by rewrite take_ge by lia.
Qed.

(** Overwriting the one entry behind a copied table. *)
Lemma write_last (src dst : list Z) n v : length src = n -> length dst = (n + 1)%nat ->
  <[n := v]> (src ++ drop n dst) = src ++ [v].
Proof.
  intros H1 H2. rewrite <- H1, <- (Nat.add_0_r (length src)) at 1. rewrite insert_app_r. f_equal.
  destruct (drop n dst) as [|y [|? ?]] eqn:E; apply (f_equal length) in E;
    rewrite length_drop in E; cbn in E; [lia|done|lia].
Qed.

Lemma is_obj_snoc bt x p : is_obj (bt ++ [NULL]) x p <-> is_obj bt x p.
Proof.
  split; intros (k & j & q & Hk & Hq & H); exists k, j, q; split; try done.
  - apply lookup_app_Some in Hk as [?|[_ Hk]]; [done|].
    apply list_lookup_singleton_Some in Hk as [_ <-]. done.
  - by apply lookup_app_l_Some.
Qed.

Lemma areas_snoc bt : areas (bt ++ [NULL]) = areas bt.
Proof. unfold areas. rewrite filter_app, filter_cons_False by (intros E; by apply E). cbn. by rewrite app_nil_r. Qed.

(** The information block after the tables grew by one block. *)
Definition grown (i : Objects_Information) (p m : Z) : Objects_Information :=
  set_maximum m (_Objects_Build_id (the_api i) (the_class i) 1 m)
    (set_tables p (object_blocks_table i ++ [NULL]) (inactive_per_block i ++ [0])
       (local_table i ++ replicate (Z.to_nat a) NULL) i).

Lemma lookup_grown (t : list Z) k n v : (t ++ replicate n NULL) !! k = Some v -> v <> NULL ->
  t !! k = Some v.
Proof.
  intros [?|[_ Hk]]%lookup_app_Some Hv; [done|]. by apply lookup_replicate in Hk as [-> _].
Qed.

Lemma grown_tables i ns hs cs p : tables i ns hs cs -> p <> NULL ->
  maximum i + a <= OBJECTS_ID_FINAL_INDEX -> tables (grown i p (maximum i + a)) ns hs cs.
Proof.
  intros [] Hp Hm. split; cbn; try done.
  - rewrite length_app. cbn. lia.
  - split; [done|]. by intros [_ [=]]%app_eq_nil.
  - rewrite !length_app. cbn. lia.
  - rewrite length_app, length_replicate. lia.
  - by apply lookup_app_l_Some.
  - intros q Hq. destruct (t_obj0 q Hq) as (x & Ho). exists x. by apply is_obj_snoc.
  - intros x q Hx H0 Hq. rewrite is_obj_snoc. apply t_open0; [by eapply lookup_grown|done|done].
  - intros x q Ho. rewrite is_obj_snoc in Ho. destruct (t_closed0 x q Ho) as [H|[H ?]]; [left|right];
      [|split; [|done]]; by apply lookup_app_l_Some.
  - intros Hau. destruct (t_count0 Hau) as [H1 H2]. split; [done|]. intros k q Hk.
    apply lookup_app_Some in Hk as [Hk|[Hl Hk]].
    + apply lookup_app_l_Some. by apply H2.
    + pose proof Hk as Hk'. apply list_lookup_singleton_Some in Hk' as [Hk' <-].
      rewrite lookup_app_r by lia. by rewrite t_ipb0, Hk'.
Qed.

Lemma grown_names i ns hs cs p ob A : tables i ns hs cs -> open_names i ob A ->
  open_names (grown i p (maximum i + a)) ob A.
Proof.
  intros Ht Hn z nm. etransitivity; [apply (Hn z nm)|].
  split; intros (x & q & o & Hx & Hz & Hl & Hq & Ho); exists x, q, o; cbn in *.
  - split_and!; try done; [lia|lia|by apply lookup_app_l_Some|apply Ho|apply Ho].
  - apply lookup_grown in Hl; [|done]. pose proof Hl as Hl'.
    apply (t_open _ _ _ _ Ht) in Hl' as [Ho' _]; [|lia|done].
    apply is_obj_range in Ho'. rewrite <- (t_max _ _ _ _ Ht) in Ho'.
    split_and!; try done; [lia|lia|apply Ho|apply Ho].
Qed.

Lemma inv_grown i ns hs cs L A s p n : inv i ns hs cs ((p, n) :: L) A s -> p <> NULL ->
  maximum i + a <= OBJECTS_ID_FINAL_INDEX ->
  exists tn, inv (grown i p (maximum i + a)) ns hs cs (table_area i tn ++ L) A
    (with_info (grown i p (maximum i + a)) s).
Proof.
  intros HI Hp Hm. pose proof HI as [H1 H2 H3 [tn H4] H5 H6 H7]. exists tn. split; cbn.
  - apply lookup_insert_eq.
  - by destruct H2.
  - by apply grown_tables.
  - exists n. unfold table_area at 1. cbn. destruct (Z.eqb_spec p NULL); [done|].
    rewrite areas_snoc. eapply ws_perm; [|exact H4]. cbn.
    rewrite !app_assoc, <- Permutation_middle, <- !app_assoc. f_equiv.
    rewrite !app_assoc. f_equiv. apply Permutation_app_comm.
  - done.
  - intros x q Ho. rewrite is_obj_snoc in Ho. by apply H6.
  - by eapply grown_names.
Qed.

Section growing.
Context (i : Objects_Information) (ns hs cs : list Z) (L : list (Z * Z)) (A : gmap Z Z).
Abbreviation bt := (object_blocks_table i).
Abbreviation nb := (Z.of_nat (length (object_blocks_table i))).

(** Freeing the old tables. *)
Lemma free_tables_spec j (s : state) tn L' Q : inv j ns hs cs (table_area i tn ++ L') A s ->
  (forall s', inv j ns hs cs L' A s' -> Q tt s') ->
  wp (lift (_Workspace_Free (object_blocks i))) Q s.
Proof.
  intros HI HQ. unfold table_area in HI. destruct (Z.eqb_spec (object_blocks i) NULL) as [E|E].
  - rewrite E. apply lift_spec. eapply wp_mono; [apply ws_free_null|]. intros [] w' ->.
    apply HQ. by destruct s.
  - by apply (free_area_spec _ _ _ _ _ _ _ (object_blocks i) tn L' Q HI).
Qed.

(** The contents of the new tables. *)
Lemma fill_tables_spec p s1 s2 (s : state) Q : tables i ns hs cs -> (auto = true \/ bt = []) ->
  maximum i + a <= OBJECTS_ID_FINAL_INDEX ->
  Q (bt ++ [NULL], inactive_per_block i ++ [0], local_table i ++ replicate (Z.to_nat a) NULL) s ->
  wp (fill_tables uninitialized i p s1 s2 nb 1 (1 + nb * a) (1 + nb * a + a) (maximum i + a)) Q s.
Proof.
  intros [] Hcase Hm HQ. unfold fill_tables, OBJECTS_ID_FINAL_INDEX in *.
  rewrite (u32_small (maximum i + a + 1)) by lia. set (f := fresh_table uninitialized).
  assert (Hf : forall p w n, length (f p w n) = Z.to_nat n) by apply length_fresh_table.
  cbv zeta.
  replace (1 + nb * a + a - (1 + nb * a)) with a by lia.
  replace (1 + nb * a) with (Z.of_nat (Z.to_nat (maximum i + 1))) by nia.
  apply wp_bind. destruct (Z.ltb_spec 1 (maximum i)) as [Hmax|Hmax].
  - apply wp_bind, table_copy_spec; [lia|rewrite Hf; lia|].
    apply wp_bind, table_copy_spec; [lia|rewrite Hf; lia|].
    apply wp_bind, table_copy_spec; [lia|rewrite Hf; nia|]. apply wp_ret.
    apply wp_bind, table_write_spec; [rewrite length_app, length_drop, Hf; lia|].
    apply wp_bind, table_write_spec; [rewrite length_app, length_drop, Hf; lia|].
    rewrite !write_last by (rewrite ?Hf; lia).
    apply wp_bind, table_clear_spec; [rewrite length_app, length_drop, Hf; lia|].
    apply wp_ret. rewrite take_app_length' by lia. rewrite drop_ge by (rewrite length_app, length_drop, Hf; lia).
    by rewrite app_nil_r.
  - assert (Hb : bt = []).
    { destruct Hcase as [Hau|?]; [|done]. specialize (Hauto Hau).
      destruct (object_blocks_table i) as [|? ?]; [done|]. cbn in t_max0. nia. }
    rewrite Hb in *. cbn [length] in *. change (Z.of_nat 0) with 0 in *.
    assert (Hlt : local_table i = [NULL]).
    { destruct (local_table i) as [|y [|? ?]]; cbn in *; [lia|by simplify_eq|lia]. }
    assert (Hipb : inactive_per_block i = []) by (by apply nil_length_inv).
    rewrite Hlt, Hipb in *. replace (maximum i) with 0 in * by lia.
    apply wp_bind, (table_clear_spec 1 0); [rewrite Hf; lia|]. 
    set (lt0 := take 0 _ ++ _).
    assert (Hl0 : length lt0 = Z.to_nat (a + 1) /\ take 1 lt0 = [NULL]).
    { unfold lt0. split; [|done]. rewrite !length_app, length_take, length_replicate, length_drop, Hf. lia. }
    destruct Hl0 as [Hl0 Ht0].
    apply wp_ret, wp_bind, table_write_spec; [rewrite Hf; lia|].
    apply wp_bind, table_write_spec; [rewrite Hf; lia|]. apply wp_bind.
    apply table_clear_spec; [lia|]. apply wp_ret. rewrite (drop_ge lt0) by lia.
    change (Z.to_nat (0 + 1)) with 1%nat. rewrite Ht0, app_nil_r.
    assert (H1 : forall l v, length l = 1%nat -> <[O := v]> (l : list Z) = [v])
      by (intros [|? [|? ?]] v Hl; cbn in *; [lia|done|lia]).
    rewrite (H1 (f p _ _)), (H1 (f (p + s1) _ _)) by (rewrite Hf; lia). exact HQ.
Qed.

Lemma grow_tables_spec (s : state) q Q : inv i ns hs cs ((q, a * sz) :: L) A s ->
  (auto = true \/ bt = []) -> maximum i + a <= OBJECTS_ID_FINAL_INDEX ->
  (forall s', auto = true -> inv i ns hs cs L A s' -> Q (inl false) s') ->
  (forall s', auto = false -> Q (inr INTERNAL_ERROR_WORKSPACE_ALLOCATION) s') ->
  (forall p s', p <> NULL -> inv (grown i p (maximum i + a)) ns hs cs ((q, a * sz) :: L) A s' ->
    Q (inl true) s') ->
  wp (grow_tables uninitialized information q nb 1 (1 + nb * a) (1 + nb * a + a) (maximum i + a)) Q s.
Proof.
  intros HI Hcase Hm Hno Herr Hyes. pose proof (i_tables _ _ _ _ _ _ _ HI) as Ht.
  pose proof (t_max _ _ _ _ Ht) as Hmax. unfold OBJECTS_ID_FINAL_INDEX in Hm.
  assert (Hnb : 0 <= nb < 65536) by nia.
  apply wp_bind. eapply get_info_spec; [exact HI|]. rewrite (f_auto _ (i_fixed _ _ _ _ _ _ _ HI)).
  cbv zeta. rewrite (u32_small (nb + 1)) by lia. replace (nb + 1 -. 1) with nb by (rewrite u32_small; lia).
  rewrite (u16_small (maximum i + a)) by lia.
  match goal with |- context [lift (_Workspace_Allocate ?b)] => set (bs := b) end.
  assert (Hbs : 0 <= bs < 2 ^ 64) by apply u64_range.
  match goal with |- wp (_ ≫= ?k) _ _ => set (K := k) end.
  assert (HK : forall p s', p <> NULL -> inv i ns hs cs ((p, bs) :: (q, a * sz) :: L) A s' ->
    wp (K (inl p)) Q s').
  { intros p s' Hp HI'. unfold K. destruct (Z.eqb_spec p NULL); [done|]. apply wp_bind.
    eapply fill_tables_spec; [exact Ht|done|done|]. apply wp_bind, wp_modify, wp_bind.
    destruct (inv_grown _ _ _ _ _ _ _ _ _ HI' Hp Hm) as [tn HIg].
    eapply (free_tables_spec _ _ tn); [exact HIg|]. intros s'' HI''. apply wp_ret. by eapply Hyes. }
  destruct (Bool.bool_dec auto true) as [Hau|Hau]; [|apply not_true_is_false in Hau]; rewrite Hau; apply wp_bind.
  - apply wp_bind. eapply allocate_area_spec; [exact HI|exact Hbs|..].
    + intros s' HI'. rewrite Z.eqb_refl. apply wp_bind.
      eapply free_area_spec; [exact HI'|done|]. intros s'' HI''. apply wp_ret. unfold K.
      rewrite Z.eqb_refl. apply wp_ret. by apply Hno.
    + intros p s' Hp HI'. destruct (Z.eqb_spec p NULL); [done|]. apply wp_ret. by apply HK.
  - apply wp_bind. eapply allocate_area_spec; [exact HI|exact Hbs|..].
    + intros s' HI'. rewrite Z.eqb_refl. apply wp_ret. unfold K. apply wp_ret. by apply Herr.
    + intros p s' Hp HI'. destruct (Z.eqb_spec p NULL); [done|]. apply wp_ret. by apply HK.
Qed.
End growing.

(** * Finding a slot *)

Lemma find_block_spec i ns hs cs L A (s : state) Q : inv i ns hs cs L A s ->
  (forall k, object_blocks_table i !! k = Some NULL ->
    Q (false, Z.of_nat k, 1 + Z.of_nat k * a, Z.of_nat (length (object_blocks_table i))) s) ->
  (let nb := Z.of_nat (length (object_blocks_table i)) in Q (true, nb, 1 + nb * a, nb) s) ->
  wp (find_block i 1) Q s.
Proof.
  intros HI Hfree Hfull. pose proof (i_tables _ _ _ _ _ _ _ HI) as Ht.
  pose proof (t_max _ _ _ _ Ht) as Hmax. pose proof (t_limit _ _ _ _ Ht) as Hlim.
  unfold OBJECTS_ID_FINAL_INDEX in Hlim. set (nb := Z.of_nat _) in *. unfold find_block.
  rewrite (f_alloc _ (i_fixed _ _ _ _ _ _ _ HI)). destruct (Z.eqb_spec (object_blocks i) NULL) as [E|E].
  { apply wp_ret. apply (t_null _ _ _ _ Ht) in E. unfold nb in Hfull. by rewrite E in Hfull. }
  destruct (Z.eqb_spec a 0); [lia|]. rewrite Hmax, Z.div_mul by lia. cbv zeta. apply wp_bind.
  apply (wp_whileM _ (fun v '(block, base) s' => s' = s /\ v = nb - block /\ 0 <= block <= nb /\
    base = 1 + block * a)) with (k := nb).
  - intros v [block base] s' (-> & -> & Hb & ->). destruct (Z.ltb_spec block nb) as [Hlt|Hge].
    + destruct (lookup_lt_is_Some_2 (object_blocks_table i) (Z.to_nat block)) as [p Hp]; [lia|].
      apply wp_bind. eapply table_read_spec; [exact Hp|].
      destruct (Z.eqb_spec p NULL) as [->|Hnn]; apply wp_ret.
      * apply wp_ret. specialize (Hfree _ Hp). by rewrite Z2Nat.id in Hfree by lia.
      * exists (nb - (block + 1)). rewrite !u32_small by nia. split_and!; try done; lia.
    + apply wp_ret, wp_ret. by replace block with nb by lia.
  - split_and!; try done; lia.
  - nia.
Qed.

(** * Entering the objects of a new block *)

Lemma append_objects_spec i bt R n index p (s : state) l Q :
  infos s !! information = Some i -> fixed i -> ws_live (ws s) (areas bt ++ R) ->
  chain (get_mem s) c l -> (forall y, y ∈ l -> exists x, is_obj bt x y) ->
  (forall j, 0 <= j < Z.of_nat n -> is_obj bt (index + j) (p + j * sz) /\ p + j * sz ∉ l) ->
  0 <= index -> index + Z.of_nat n <= 65536 -> 0 <= p -> p + Z.of_nat n * sz < 2 ^ 64 ->
  (forall w ob, ws_live w (areas bt ++ R) -> chain (get_mem w) c (l ++ array_nodes p n sz) ->
    (forall j, 0 <= j < Z.of_nat n -> exists o, ob !! (p + j * sz) = Some o /\ id o = mkid (index + j)) ->
    (forall y, (forall j, 0 <= j < Z.of_nat n -> y <> p + j * sz) -> ob !! y = objs s !! y) ->
    Q tt {| ws := w; objs := ob; infos := infos s; information_table := information_table s |}) ->
  wp (append_objects uninitialized information n index p) Q s.
Proof.
  revert index p s l. induction n as [|n IH]; intros index p s l Hi Hf Hw Hc Hl Hnew Hi0 Hin Hp0 Hpn HQ.
  { apply wp_ret. specialize (HQ (ws s) (objs s)). cbn in HQ. rewrite app_nil_r in HQ.
    destruct s. apply HQ; [done|done|intros; lia|done]. }
  cbn [append_objects]. apply wp_bind. unfold wp at 1, get_info. rewrite Hi.
  apply wp_bind, wp_gets, wp_bind, wp_modify, wp_bind, wp_ret, wp_bind.
  destruct (Hnew 0) as [Ho Hp]; [lia|]. replace (p + 0 * sz) with p in Ho, Hp by lia.
  rewrite Z.add_0_r in Ho.
  rewrite (f_chain _ Hf). eapply append_spec; [exact Hc|exact (off_chain_obj bt R (ws s) Hw l index p Hl Ho Hp)|].
  intros m' Hc' Hch. assert (Hl' : forall y, y ∈ l ++ [p] -> exists x, is_obj bt x y).
  { intros y [Hy| ->%list_elem_of_singleton]%elem_of_app; [by apply Hl|by exists index]. }
  rewrite (u32_small (index + 1)), (f_size _ Hf), (u64_small (p + sz)) by lia.
  eapply (IH (index + 1) (p + sz) _ (l ++ [p])); cbn.
  - done.
  - done.
  - eapply ws_write; [exact Hw|exact Hch|]. intros k Hk. by eapply chain_words_live.
  - by rewrite get_set_mem.
  - exact Hl'.
  - intros j Hj. destruct (Hnew (j + 1)) as [Ho' Hp']; [lia|].
    replace (index + 1 + j) with (index + (j + 1)) by lia.
    replace (p + sz + j * sz) with (p + (j + 1) * sz) by lia. split; [done|].
    rewrite not_elem_of_app, list_elem_of_singleton. split; [done|nia].
  - lia.
  - lia.
  - lia.
  - lia.
  - intros w ob Hw' Hcw Hob Hoth. apply HQ; [done|by rewrite <- app_assoc in Hcw| |].
    + intros j Hj. destruct (Z.eq_dec j 0) as [->|].
      * rewrite Z.mul_0_l, !Z.add_0_r, Hoth by nia. rewrite lookup_insert_eq.
        eexists. split; [done|]. cbn. by rewrite (f_api _ Hf), (f_class _ Hf).
      * destruct (Hob (j - 1)) as (o & Eo & Hid); [lia|]. exists o.
        replace (p + sz + (j - 1) * sz) with (p + j * sz) in Eo by lia.
        replace (index + 1 + (j - 1)) with (index + j) in Hid by lia. done.
    + intros y Hy. rewrite Hoth, lookup_insert_ne; [done| |].
      * intros <-. apply (Hy 0); lia.
      * intros j Hj E. apply (Hy (j + 1)); lia.
Qed.

Section entering.
Context (i : Objects_Information) (ns hs : list Z) (k : nat) (q : Z).
Context (Hk : object_blocks_table i !! k = Some NULL) (Hq : q <> NULL).
Context (R : list (Z * Z)) (w : S) (Hlive : ws_live w (areas (<[k := q]> (object_blocks_table i)) ++ R)).
Context (Ht : tables i ns hs ns).
Abbreviation bt := (object_blocks_table i).
Abbreviation bt' := (<[k := q]> (object_blocks_table i)).
Abbreviation nodes := (array_nodes q (Z.to_nat a) sz).

Definition entered : Objects_Information :=
  set_inactive (u16 (inactive i + a)) (set_blocks bt' (<[k := a]> (inactive_per_block i)) i).

Lemma lookup_enter : bt' !! k = Some q.
Proof. clear Hlive Ht. apply list_lookup_insert_eq. by eapply lookup_lt_Some. Qed.

Lemma is_obj_old x p : is_obj bt x p -> is_obj bt' x p /\ ~ (1 + Z.of_nat k * a <= x < 1 + Z.of_nat k * a + a).
Proof. clear Hlive Ht.
  intros (k' & j & q' & Hk' & Hq' & Hj & -> & ->). destruct (decide (k' = k)) as [->|]; [congruence|].
  split; [|nia]. exists k', j, q'. by rewrite list_lookup_insert_ne.
Qed.

Lemma is_obj_new j : 0 <= j < a -> is_obj bt' (1 + Z.of_nat k * a + j) (q + j * sz).
Proof. clear Hlive Ht. intros Hj. exists k, j, q. split_and!; try done; [apply lookup_enter|lia|lia]. Qed.

Lemma is_obj_enter x p : is_obj bt' x p ->
  is_obj bt x p \/ exists j, 0 <= j < a /\ x = 1 + Z.of_nat k * a + j /\ p = q + j * sz.
Proof. clear Hlive Ht.
  intros (k' & j & q' & Hk' & Hq' & Hj & -> & ->). destruct (decide (k' = k)) as [->|Hne].
  - right. rewrite lookup_enter in Hk'. simplify_eq. by exists j.
  - left. rewrite list_lookup_insert_ne in Hk' by done. by exists k', j, q'.
Qed.

Lemma nodes_obj p : p ∈ nodes -> exists j, 0 <= j < a /\ p = q + j * sz /\
  is_obj bt' (1 + Z.of_nat k * a + j) p.
Proof.
  rewrite elem_array_nodes, Z2Nat.id by lia. intros (j & Hj & ->). exists j.
  split_and!; [lia|lia|done|by apply is_obj_new].
Qed.

(** The new objects are different from the old ones. *)
Lemma nodes_new x p : is_obj bt x p -> p ∉ nodes.
Proof.
  intros Ho Hp. apply is_obj_old in Ho as [Ho Hx]. apply nodes_obj in Hp as (j & Hj & _ & Hn).
  rewrite (obj_inj _ _ _ Hlive _ _ _ Ho Hn) in Hx. lia.
Qed.

Lemma entered_count k' q' : bt' !! k' = Some q' ->
  <[k := a]> (inactive_per_block i) !! k' = Some (if q' =? NULL then 0 else cnt q' (ns ++ nodes)) \/ auto = false.
Proof.
  intros Hk'. destruct (Bool.bool_dec auto true) as [Hau|Hau]; [left|right; by apply not_true_is_false].
  destruct (t_count _ _ _ _ Ht Hau) as [_ Hc].
  assert (Happ : cnt q' (ns ++ nodes) = cnt q' ns + cnt q' nodes)
    by (unfold cnt; rewrite filter_app, length_app; lia).
  assert (Hold : forall p, p ∈ ns -> exists x, is_obj bt x p)
    by (intros p Hp; apply (t_obj _ _ _ _ Ht), elem_of_app; by left).
  assert (Hnone : forall (l : list Z), (forall p, p ∈ l -> ~ in_block q' p) -> cnt q' l = 0).
  { intros l Hl. unfold cnt. by rewrite filter_none. }
  destruct (decide (k' = k)) as [->|Hne].
  - rewrite lookup_enter in Hk'. injection Hk' as <-. destruct (Z.eqb_spec q NULL); [done|].
    rewrite list_lookup_insert_eq by (rewrite (t_ipb _ _ _ _ Ht); by eapply lookup_lt_Some).
    f_equal. rewrite Happ, Hnone.
    + unfold cnt. rewrite filter_all; [by rewrite length_array_nodes, Z2Nat.id by lia|].
      intros p (j & Hj & -> & _)%nodes_obj. unfold in_block. nia.
    + intros p Hp Hb. destruct (Hold p Hp) as (x & Ho). apply is_obj_old in Ho as [Ho Hx].
      by apply (proj1 (obj_in_block _ _ _ Hlive _ _ _ _ lookup_enter Hq Ho)) in Hb.
  - pose proof Hk' as Hk2. rewrite list_lookup_insert_ne in Hk2 by done.
    rewrite list_lookup_insert_ne by done. rewrite (Hc _ _ Hk2).
    destruct (Z.eqb_spec q' NULL) as [|Hq']; [done|]. rewrite Happ, (Hnone nodes); [by rewrite Z.add_0_r|].
    intros p (j & Hj & _ & Ho)%nodes_obj Hb.
    apply (proj1 (obj_in_block _ _ _ Hlive _ _ _ _ Hk' Hq' Ho)) in Hb. nia.
Qed.

Lemma entered_tables : tables entered (ns ++ nodes) hs (ns ++ nodes).
Proof.
  pose proof Ht as Ht'. pose proof entered_count as Hec. destruct Ht'.
  assert (Hper : (ns ++ nodes) ++ hs ≡ₚ nodes ++ ns ++ hs)
    by (rewrite (Permutation_app_comm ns), app_assoc; done).
  split; cbn; rewrite ?length_insert; try done.
  - rewrite t_null0. split; intros E; [by rewrite E|]. apply (f_equal length) in E.
    rewrite length_insert in E. by apply nil_length_inv.
  - rewrite Hper. apply NoDup_app. split_and!; [apply NoDup_array_nodes; lia| |done].
    intros p Hp Hin. destruct (t_obj0 p Hin) as (x & Ho). by apply nodes_new in Ho.
  - intros p. rewrite Hper. intros [Hp|Hp]%elem_of_app.
    + apply nodes_obj in Hp as (j & _ & _ & Ho). eauto.
    + destruct (t_obj0 p Hp) as (x & Ho). exists x. by apply is_obj_old.
  - intros x p Hx H0 Hp. destruct (t_open0 x p Hx H0 Hp) as [Ho Hni]. split; [by apply is_obj_old|].
    rewrite Hper, not_elem_of_app. split; [by eapply nodes_new|done].
  - intros x p Ho. rewrite Hper. apply is_obj_enter in Ho as [Ho|(j & Hj & -> & ->)].
    + destruct (t_closed0 x p Ho) as [?|[? ?]]; [by left|right; split; [done|set_solver]].
    + right. assert (Hin : q + j * sz ∈ nodes) by (apply elem_array_nodes; exists j; split; [lia|done]).
      split; [|set_solver]. destruct (lookup_lt_is_Some_2 (local_table i) (Z.to_nat (1 + Z.of_nat k * a + j)))
        as [v Hv]; [apply lookup_lt_Some in Hk; nia|].
      destruct (Z.eq_dec v NULL) as [->|Hv0]; [done|]. exfalso.
      destruct (t_open0 _ v Hv) as [Ho _]; [lia|done|]. apply is_obj_old in Ho as [_ Ho]. lia.
  - intros Hau. destruct (t_count0 Hau) as [-> _]. rewrite u16_add, length_app, length_array_nodes.
    split; [f_equal; lia|]. intros k' q' Hk'. destruct (Hec k' q' Hk') as [?|?]; [done|congruence].
Qed.
End entering.

Lemma areas_enter bt k q : bt !! k = Some NULL -> q <> NULL ->
  areas (<[k := q]> bt) ≡ₚ (q, a * sz) :: areas bt.
Proof.
  intros Hk Hq. rewrite (areas_take (<[k := q]> bt) k q).
  - by rewrite list_insert_insert_eq, list_insert_id.
  - apply list_lookup_insert_eq. by eapply lookup_lt_Some.
  - done.
Qed.

(** Objects outside of the open ones may be rewritten. *)
Lemma open_names_ext i i' ns hs cs ob ob' A : tables i ns hs cs ->
  local_table i' = local_table i -> maximum i' = maximum i ->
  (forall x p, is_obj (object_blocks_table i) x p -> ob' !! p = ob !! p) ->
  open_names i ob A -> open_names i' ob' A.
Proof.
  intros Ht El Em Hob Hn z nm. etransitivity; [apply (Hn z nm)|]. rewrite El, Em.
  split; intros (x & p & o & Hx & Hz & Hl & Hp & Ho & Hm); exists x, p, o; split_and!; try done; try lia.
  all: destruct (t_open _ _ _ _ Ht x p Hl ltac:(lia) Hp) as [Hobj _].
  - by rewrite (Hob x p Hobj).
  - by rewrite <- (Hob x p Hobj).
Qed.

Lemma enter_block_spec i ns hs L A (s : state) k q Q :
  inv i ns hs ns ((q, a * sz) :: L) A s -> object_blocks_table i !! k = Some NULL -> q <> NULL ->
  (forall s', let ns' := ns ++ array_nodes q (Z.to_nat a) sz in
    inv (entered i k q) ns' hs ns' L A s' -> Q tt s') ->
  wp (enter_block uninitialized information q (Z.of_nat k) (1 + Z.of_nat k * a)
        (1 + Z.of_nat k * a + a)) Q s.
Proof.
  intros HI Hk Hq HQ. pose proof HI as [Hi Hf Ht [tn Hlive] Hc Hob Hop].
  pose proof (t_max _ _ _ _ Ht) as Hmax. pose proof (t_limit _ _ _ _ Ht) as Hlim.
  unfold OBJECTS_ID_FINAL_INDEX in Hlim. pose proof (lookup_lt_Some _ _ _ Hk) as Hkl.
  set (bt := object_blocks_table i) in *. set (bt' := <[k := q]> bt).
  set (i1 := set_blocks bt' (inactive_per_block i) i).
  assert (Hl' : ws_live (ws s) (areas bt' ++ table_area i tn ++ L)).
  { unfold bt'. rewrite areas_enter by done. eapply ws_perm; [|exact Hlive]. cbn.
    rewrite !app_assoc, <- Permutation_middle. f_equiv. f_equiv. apply Permutation_app_comm. }
  destruct (ws_area _ _ q (a * sz) Hl') as (Hq0 & _ & Hqe & _).
  { rewrite elem_of_app. left. eapply (areas_elem _ k); [|done]. by apply list_lookup_insert_eq. }
  apply wp_bind. eapply get_info_spec; [exact HI|].
  apply wp_bind, table_write_spec; [rewrite Nat2Z.id; done|]. rewrite Nat2Z.id.
  apply wp_bind, wp_modify, wp_bind. fold bt bt' i1.
  replace (1 + Z.of_nat k * a + a - (1 + Z.of_nat k * a)) with a by lia.
  eapply (append_objects_spec i1 bt' (table_area i tn ++ L) _ _ _ _ ns); cbn [infos ws objs].
  - apply lookup_insert_eq.
  - by destruct Hf.
  - done.
  - exact Hc.
  - intros y Hy. destruct (t_obj _ _ _ _ Ht y) as (x & Ho); [set_solver|]. exists x. by eapply is_obj_old.
  - intros j Hj. rewrite Z2Nat.id in Hj by lia. split; [by apply is_obj_new|]. intros Hin.
    destruct (t_obj _ _ _ _ Ht (q + j * sz)) as (x & Ho); [set_solver|].
    eapply (nodes_new i k q Hk Hq _ _ Hl'); [exact Ho|]. apply elem_array_nodes. exists j. split; [lia|done].
  - lia.
  - nia.
  - lia.
  - rewrite Z2Nat.id by lia. exact Hqe.
  - intros w ob Hw Hcw Hnew Hold. apply wp_bind. unfold wp at 1, get_info. cbn. rewrite lookup_insert_eq.
    apply wp_bind, table_write_spec; cbn [i1 inactive_per_block set_blocks set_tables].
    { rewrite Nat2Z.id, (t_ipb _ _ _ _ Ht). done. }
    apply wp_modify. rewrite Nat2Z.id. cbn [i1 inactive_per_block set_blocks set_tables allocation_size
      inactive object_blocks_table]. rewrite (f_alloc _ Hf).
    apply HQ. split; cbn [infos ws objs get_mem state_HasMem].
    + apply lookup_insert_eq.
    + by destruct Hf.
    + by eapply entered_tables.
    + exists tn. eapply ws_perm; [|exact Hw]. unfold table_area. cbn.
      rewrite !app_assoc. f_equiv. apply Permutation_app_comm.
    + done.
    + intros x p Ho. apply (is_obj_enter i k q Hk) in Ho as [Ho|(j & Hj & -> & ->)].
      * rewrite Hold; [by apply Hob|]. intros j Hj E.
        eapply (nodes_new i k q Hk Hq _ _ Hl'); [exact Ho|]. apply elem_array_nodes. eauto.
      * apply Hnew. lia.
      * exact Hq.
    + eapply open_names_ext; [exact Ht|done|done| |exact Hop]. intros x p Ho. apply Hold.
      intros j Hj E. eapply (nodes_new i k q Hk Hq _ _ Hl'); [exact Ho|]. apply elem_array_nodes. eauto.
Qed.

(** * Extension *)

(** Extending leaves the class unchanged, or adds a block of objects to the
    inactive ones. *)
Lemma extend_spec i ns hs L A (s : state) Q : inv i ns hs ns L A s ->
  (auto = true \/ object_blocks_table i = []) ->
  (forall s', inv i ns hs ns L A s' -> auto = true \/ OBJECTS_ID_FINAL_INDEX < maximum i + a -> Q None s') ->
  (forall s', auto = false -> Q (Some INTERNAL_ERROR_WORKSPACE_ALLOCATION) s') ->
  (forall i' q s', let ns' := ns ++ array_nodes q (Z.to_nat a) sz in q <> NULL ->
    (maximum i' = maximum i \/ maximum i' = maximum i + a) ->
    (object_blocks_table i = [] -> object_blocks_table i' = [q]) ->
    inv i' ns' hs ns' L A s' -> Q None s') ->
  wp (_Objects_Extend_information uninitialized information) Q s.
Proof.
  intros HI Hcase Hsame Herr Hmore. pose proof (i_tables _ _ _ _ _ _ _ HI) as Ht.
  pose proof (i_fixed _ _ _ _ _ _ _ HI) as Hf.
  pose proof (t_max _ _ _ _ Ht) as Hmax. pose proof (t_limit _ _ _ _ Ht) as Hlim.
  unfold OBJECTS_ID_FINAL_INDEX in *. set (nb := Z.of_nat (length (object_blocks_table i))) in *.
  assert (Hnb : 0 <= nb < 65536) by nia.
  apply wp_bind. eapply get_info_spec; [exact HI|]. cbv zeta.
  rewrite (f_min _ Hf), mkid_index, (f_alloc _ Hf), (f_size _ Hf), (f_auto _ Hf) by lia.
  rewrite (u32_small (maximum i + a)), (u64_small (a * sz)) by nia.
  apply wp_bind. match goal with |- wp _ ?k _ => set (K := k) end.
  assert (HK : forall (d : bool) k, d = false /\ object_blocks_table i !! k = Some NULL \/
      d = true /\ Z.of_nat k = nb -> K (d, Z.of_nat k, 1 + Z.of_nat k * a, nb) s).
  { intros d k Hd. unfold K. destruct (Z.ltb_spec OBJECTS_ID_FINAL_INDEX (maximum i + a)) as [Hm|Hm];
      unfold OBJECTS_ID_FINAL_INDEX in Hm; [apply wp_ret, Hsame; [done|by right]|].
    assert (Hkn : 0 <= Z.of_nat k <= nb).
    { destruct Hd as [[_ Hk]|[_ ?]]; [apply lookup_lt_Some in Hk|]; lia. }
    rewrite (u32_small (1 + Z.of_nat k * a + a)) by nia. apply wp_bind.
    match goal with |- wp _ ?k _ => set (K' := k) end.
    assert (HK' : forall q s', q <> NULL -> inv i ns hs ns ((q, a * sz) :: L) A s' -> K' (inl q) s').
    { intros q s' Hq HI'. unfold K'. destruct (Z.eqb_spec q NULL); [done|]. apply wp_bind.
      destruct Hd as [[-> Hk]|[-> ->]].
      - apply wp_ret, wp_bind. eapply enter_block_spec; [exact HI'|done|done|].
        intros s'' ns'' HI''. apply wp_ret. eapply Hmore; [| | |exact HI'']; [done|by left|].
        intros E. by rewrite E in Hk.
      - eapply grow_tables_spec; [exact HI'|done|done|..].
        + intros s'' Hau HI''. apply wp_ret, Hsame; [done|by left].
        + intros s'' Hau. apply wp_ret. by apply Herr.
        + intros p s'' Hp HI''. apply wp_bind. eapply enter_block_spec; [exact HI''| |done|].
          { cbn. by apply list_lookup_middle. }
          intros s3 ns3 HI3. apply wp_ret. eapply Hmore; [| | |exact HI3]; cbn; [done|by right|]. by intros ->. }
    destruct (Bool.bool_dec auto true) as [Hau|Hau]; [|apply not_true_is_false in Hau]; rewrite Hau; apply wp_bind.
    - eapply allocate_area_spec; [exact HI|nia|..].
      + intros s' HI'. apply wp_ret. unfold K'. rewrite Z.eqb_refl. apply wp_ret, Hsame; [done|by left].
      + intros q s' Hq HI'. apply wp_ret. by apply HK'.
    - eapply allocate_area_spec; [exact HI|nia|..].
      + intros s' HI'. rewrite Z.eqb_refl. apply wp_ret. unfold K'. apply wp_ret. by apply Herr.
      + intros q s' Hq HI'. destruct (Z.eqb_spec q NULL); [done|]. apply wp_ret. by apply HK'. }
  eapply find_block_spec; [exact HI|..].
  - intros k Hk. apply HK. by left.
  - cbv zeta. apply HK. by right.
Qed.

(** * Shrinking *)

Lemma chain_words_mono l l' : (forall y, y ∈ l -> y ∈ l') -> chain_words c l ⊆ chain_words c l'.
Proof.
  intros Hl k. rewrite !elem_of_chain_words. intros [?|[?|[?|(n & Hn & ?)]]]; [by auto..|].
  right; right; right. exists n. split; [by apply Hl|done].
Qed.

(** All objects of the class. *)
Definition all_objs (bt : list Z) : list Z :=
  bt ≫= fun q => if q =? NULL then [] else array_nodes q (Z.to_nat a) sz.

Lemma length_all_objs bt : (length (all_objs bt) <= length bt * Z.to_nat a)%nat.
Proof.
  unfold all_objs. induction bt as [|q bt IH]; cbn; [lia|]. rewrite length_app.
  destruct (q =? NULL); cbn [length]; rewrite ?length_array_nodes; lia.
Qed.

Lemma elem_all_objs bt x p : is_obj bt x p -> p ∈ all_objs bt.
Proof.
  intros (k & j & q & Hk & Hq & Hj & _ & ->). unfold all_objs. apply list_elem_of_bind.
  exists q. split; [|by eapply list_elem_of_lookup_2]. destruct (Z.eqb_spec q NULL); [done|].
  apply elem_array_nodes. exists j. split; [lia|done].
Qed.

Lemma inactive_bound i ns hs cs : tables i ns hs cs ->
  Z.of_nat (length (ns ++ hs)) <= maximum i.
Proof.
  intros Ht. rewrite (t_max _ _ _ _ Ht).
  assert (Hs : ns ++ hs ⊆+ all_objs (object_blocks_table i)).
  { apply NoDup_submseteq; [apply Ht|]. intros p Hp. destruct (t_obj _ _ _ _ Ht p Hp) as (x & Ho).
    by eapply elem_all_objs. }
  apply submseteq_length in Hs. pose proof (length_all_objs (object_blocks_table i)). nia.
Qed.

Section shrinking.
Context (i : Objects_Information) (ns hs : list Z) (L : list (Z * Z)) (A : gmap Z Z) (s : state).
Context (HI : inv i ns hs ns L A s).
Context (k : nat) (q : Z) (Hk : object_blocks_table i !! k = Some q) (Hq : q <> NULL).
Abbreviation bt := (object_blocks_table i).
Abbreviation rest := (filter (fun p => ~ in_block q p)).

(** The loop extracts exactly the objects of the block. *)
Lemma extract_block_spec Q :
  (forall m', chain m' c (rest ns) -> changes (chain_words c ns) (get_mem s) m' -> Q tt (set_mem m' s)) ->
  wp (extract_block c (1 + Z.of_nat k * a) (1 + Z.of_nat k * a + a)) Q s.
Proof.
  intros HQ. pose proof (i_chain _ _ _ _ _ _ _ HI) as Hc. pose proof (i_tables _ _ _ _ _ _ _ HI) as Ht.
  destruct (inv_live _ _ _ _ _ _ _ HI) as (R & _ & Hlive & _).
  pose proof (inactive_bound _ _ _ _ Ht) as Hb. rewrite length_app in Hb.
  pose proof (t_limit _ _ _ _ Ht) as Hlim. unfold OBJECTS_ID_FINAL_INDEX in Hlim.
  assert (Hf : get_mem s !! (c + NODE_NEXT) = Some (dsucc ns (c + 8))).
  { destruct Hc as (_ & Hl & _). exact (dlist_first _ _ _ _ _ _ Hl). }
  unfold extract_block. apply wp_bind. eapply wp_load; [exact Hf|].
  apply (wp_whileM _ (fun v node s' => exists m1 l0 l2, s' = set_mem m1 s /\ ns = l0 ++ l2 /\
    chain m1 c (rest l0 ++ l2) /\ node = dsucc l2 (c + 8) /\
    changes (chain_words c ns) (get_mem s) m1 /\ v = Z.of_nat (length l2)))
    with (k := Z.of_nat (length ns)).
  - intros v node s' (m1 & l0 & l2 & -> & E & Hc1 & -> & Hch & ->). destruct l2 as [|n l2].
    + rewrite dsucc_nil. unfold _Chain_Tail. rewrite Z.eqb_refl. apply wp_ret, HQ; [|done].
      by rewrite app_nil_r in *; subst l0.
    + rewrite dsucc_cons. pose proof Hc1 as (Hs1 & Hl1 & _). unfold _Chain_Tail.
      rewrite (dsep_not_tail_mid c _ _ _ Hs1).
      destruct (chain_objs _ _ _ _ _ _ _ HI n) as (x & Ho); [rewrite E; set_solver|].
      destruct (i_objs _ _ _ _ _ _ _ HI _ _ Ho) as (o & Eo & Hid).
      apply wp_bind. unfold wp at 1, get_object. change (objs (set_mem m1 s)) with (objs s). rewrite Eo, Hid.
      pose proof (is_obj_range _ _ _ Ho) as Hx. rewrite <- (t_max _ _ _ _ Ht) in Hx.
      rewrite mkid_index by lia. apply wp_bind.
      pose proof (dlist_split _ _ _ _ _ _ _ _ Hl1) as (_ & _ & _ & [Hnx _]).
      eapply wp_load; [rewrite get_set_mem; exact Hnx|].
      assert (Hin : (1 + Z.of_nat k * a <=? x) && (x <? 1 + Z.of_nat k * a + a) = bool_decide (in_block q n)).
      { apply Bool.eq_iff_eq_true. rewrite bool_decide_eq_true, andb_true_iff, Z.leb_le, Z.ltb_lt.
        symmetry. exact (obj_in_block _ _ _ Hlive _ _ _ _ Hk Hq Ho). }
      rewrite Hin. apply wp_bind, wp_whenM.
      * intros Hd%bool_decide_eq_true. eapply (extract_spec c _ (rest l0) n l2).
        { by rewrite get_set_mem. }
        rewrite get_set_mem. intros m2 Hc2 Hch2. apply wp_ret. exists (Z.of_nat (length l2)).
        cbn [length]. split; [lia|]. exists m2, (l0 ++ [n]), l2. rewrite set_set_mem.
        split_and!; [done|by rewrite <- app_assoc| |done| |done].
        { rewrite filter_app, filter_cons_False by (by intros []). by rewrite app_nil_r. }
        eapply changes_trans; [exact Hch|]. eapply changes_mono; [|exact Hch2].
        apply chain_words_mono. rewrite E. intros y [Hy|Hy]%elem_of_app; apply elem_of_app.
        { left. by apply list_elem_of_filter in Hy as [_ ?]. } { right. by right. }
      * intros Hd%bool_decide_eq_false. apply wp_ret. exists (Z.of_nat (length l2)).
        cbn [length]. split; [lia|]. exists m1, (l0 ++ [n]), l2.
        split_and!; [done|by rewrite <- app_assoc| |done|done|done].
        rewrite filter_app, filter_cons_True by done. by rewrite <- app_assoc.
  - exists (get_mem s), [], ns. rewrite set_get_mem. split_and!; try done.
  - lia.
Qed.

Definition released : Objects_Information :=
  set_inactive (u16 (inactive i - a))
    (set_blocks (<[k := NULL]> bt) (<[k := 0]> (inactive_per_block i)) i).

Lemma is_obj_release x p : is_obj (<[k := NULL]> bt) x p <-> is_obj bt x p /\ ~ in_block q p.
Proof.
  destruct (inv_live _ _ _ _ _ _ _ HI) as (R & _ & Hlive & _). split.
  - intros (k' & j & q' & Hk' & Hq' & Hj & -> & ->). destruct (decide (k' = k)) as [->|Hne].
    { rewrite list_lookup_insert_eq in Hk' by (by eapply lookup_lt_Some). by simplify_eq. }
    rewrite list_lookup_insert_ne in Hk' by done.
    assert (Ho : is_obj bt (1 + Z.of_nat k' * a + j) (q' + j * sz)) by by exists k', j, q'.
    split; [done|]. rewrite (obj_in_block _ _ _ Hlive _ _ _ _ Hk Hq Ho). nia.
  - intros [Ho Hb]. rewrite (obj_in_block _ _ _ Hlive _ _ _ _ Hk Hq Ho) in Hb.
    destruct Ho as (k' & j & q' & Hk' & Hq' & Hj & -> & ->). exists k', j, q'.
    rewrite list_lookup_insert_ne; [done|]. intros ->. lia.
Qed.

Lemma length_rest (l : list Z) : Z.of_nat (length (rest l)) = Z.of_nat (length l) - cnt q l.
Proof.
  unfold cnt. induction l as [|p l IH]; [done|]. rewrite !filter_cons.
  destruct (decide (in_block q p)), (decide (~ in_block q p)); try tauto; cbn [length]; lia.
Qed.

Lemma cnt_rest k' q' : bt !! k' = Some q' -> q' <> NULL -> k' <> k -> cnt q' (rest ns) = cnt q' ns.
Proof.
  intros Hk' Hq' Hne. destruct (inv_live _ _ _ _ _ _ _ HI) as (R & _ & Hlive & _).
  assert (Hd : forall p, p ∈ ns -> in_block q' p -> ~ in_block q p).
  { intros p Hp. destruct (chain_objs _ _ _ _ _ _ _ HI p Hp) as (x & Ho).
    rewrite (obj_in_block _ _ _ Hlive _ _ _ _ Hk Hq Ho), (obj_in_block _ _ _ Hlive _ _ _ _ Hk' Hq' Ho). nia. }
  revert Hd. clear. generalize ns as l. induction l as [|p l IH]; intros Hd; [done|].
  specialize (IH ltac:(intros y Hy; apply Hd; by right)). specialize (Hd p ltac:(by left)).
  rewrite filter_cons, cnt_cons. case_decide as H1; rewrite ?cnt_cons, IH; [done|].
  rewrite decide_False; [done|tauto].
Qed.

Hypothesis Hau : auto = true.
(** All objects of the block are inactive. *)
Hypothesis Hall : cnt q ns = a.

Lemma block_inactive x p : is_obj bt x p -> in_block q p -> p ∈ ns.
Proof.
  destruct (inv_live _ _ _ _ _ _ _ HI) as (R & _ & Hlive & _). intros Ho Hb.
  rewrite (obj_in_block _ _ _ Hlive _ _ _ _ Hk Hq Ho) in Hb.
  destruct Ho as (k' & j & q' & Hk' & Hq' & Hj & -> & ->). assert (k' = k) as -> by nia.
  assert (q' = q) as -> by congruence.
  apply (cnt_all _ _ _ Hlive k q ns Hk Hq); [|apply chain_objs with (1 := HI)|done|done].
  pose proof (t_nodup _ _ _ _ (i_tables _ _ _ _ _ _ _ HI)) as Hnd. by apply NoDup_app in Hnd as [? _].
Qed.

Lemma released_tables : tables released (rest ns) hs (rest ns).
Proof.
  pose proof (i_tables _ _ _ _ _ _ _ HI) as Ht. pose proof Ht as []. pose proof block_inactive as Hbi.
  pose proof is_obj_release as Hrel. pose proof cnt_rest as Hcr. pose proof (length_rest ns) as Hlen.
  assert (Hhs : forall x p, is_obj bt x p -> p ∈ hs -> ~ in_block q p).
  { intros x p Ho Hp Hb. apply NoDup_app in t_nodup0 as (_ & Hd & _). by eapply Hd; [eapply Hbi|]. }
  split; cbn; rewrite ?length_insert; try done.
  - rewrite t_null0. split; intros E; [by rewrite E|]. apply (f_equal length) in E.
    rewrite length_insert in E. by apply nil_length_inv.
  - apply NoDup_app in t_nodup0 as (H1 & H2 & H3). apply NoDup_app. split_and!; [by apply NoDup_filter| |done].
    intros p Hp. apply H2. by apply list_elem_of_filter in Hp as [_ ?].
  - intros p [Hp|Hp]%elem_of_app.
    + apply list_elem_of_filter in Hp as [Hb Hp]. destruct (t_obj0 p) as (x & Ho); [set_solver|].
      exists x. by apply Hrel.
    + destruct (t_obj0 p) as (x & Ho); [set_solver|]. exists x. apply Hrel. split; [done|by eapply Hhs].
  - intros x p Hx H0 Hp. destruct (t_open0 x p Hx H0 Hp) as [Ho Hni]. rewrite not_elem_of_app in Hni.
    destruct Hni as [Hn1 Hn2]. split.
    + apply Hrel. split; [done|]. intros Hb. by eapply Hn1, Hbi.
    + rewrite not_elem_of_app. split; [|done]. intros [_ ?]%list_elem_of_filter. done.
  - intros x p [Ho Hb]%Hrel. destruct (t_closed0 x p Ho) as [?|[? [Hp|Hp]%elem_of_app]]; [by left|..];
      right; (split; [done|]); apply elem_of_app; [left|by right]. by apply list_elem_of_filter.
  - intros _. destruct (t_count0 Hau) as [Hin Hc]. rewrite Hin. split.
    { rewrite <- Z.add_opp_r, u16_add, Hlen, Hall. f_equal. }
    intros k' q' Hk'. destruct (decide (k' = k)) as [->|Hne].
    + rewrite list_lookup_insert_eq in Hk' by (by eapply lookup_lt_Some). simplify_eq.
      rewrite list_lookup_insert_eq by (rewrite t_ipb0; by eapply lookup_lt_Some). by rewrite Z.eqb_refl.
    + rewrite list_lookup_insert_ne in Hk' by done. rewrite list_lookup_insert_ne by done.
      rewrite (Hc _ _ Hk'). destruct (Z.eqb_spec q' NULL); [done|]. by rewrite (Hcr k' q').
Qed.

(** Extracting and freeing the block. *)
Lemma release_block_spec {B} (K : M state B) Q :
  (forall s', inv released (rest ns) hs (rest ns) L A s' -> wp K Q s') ->
  wp (extract_block c (1 + Z.of_nat k * a) (1 + Z.of_nat k * a + a);;
      release_block information (Z.of_nat k);; K) Q s.
Proof.
  intros HQ. pose proof HI as [Hi Hf Ht [tn Hlive] Hc Hob Hop].
  apply wp_bind. apply extract_block_spec. intros m' Hc' Hch.
  destruct (chain_write _ _ _ _ _ _ _ HI ns m' Hch) as [n2 Hw]; [exact (chain_objs _ _ _ _ _ _ _ HI)|].
  do 2 apply wp_bind. unfold wp at 1, get_info. change (infos (set_mem m' s)) with (infos s). rewrite Hi.
  apply wp_bind. eapply table_read_spec; [rewrite Nat2Z.id; exact Hk|].
  rewrite (areas_take _ _ _ Hk Hq) in Hw. cbn in Hw. rewrite <- Permutation_middle in Hw.
  apply wp_bind, lift_spec. eapply wp_mono; [exact (ws_free _ _ _ _ Hw)|]. intros [] w' [Hkeep Hw'].
  apply wp_bind, table_write_spec; [rewrite Nat2Z.id; by eapply lookup_lt_Some|].
  apply wp_bind, table_write_spec; [rewrite Nat2Z.id, (t_ipb _ _ _ _ Ht); by eapply lookup_lt_Some|].
  apply wp_modify. rewrite !Nat2Z.id, (f_alloc _ Hf). apply HQ. split; cbn.
  - apply lookup_insert_eq.
  - by destruct Hf.
  - exact released_tables.
  - by exists n2.
  - eapply chain_frame; [|exact Hc']. intros w Hwd. rewrite Hkeep; [by rewrite get_set_mem|].
    apply elem_chain_words in Hwd as [Hwd|(p & Hp & Hwd)]; [right; by apply Hstatic|left].
    apply list_elem_of_filter in Hp as [Hb Hp]. destruct (chain_objs _ _ _ _ _ _ _ HI p Hp) as (x & Ho).
    destruct (proj2 (is_obj_release x p) (conj Ho Hb)) as (k' & j & q' & Hk' & Hq' & Hj & -> & ->).
    exists q', (a * sz). split; [apply elem_of_app; right; apply elem_of_app; left; by eapply areas_elem|].
    unfold node_words in Hwd. set_unfold in Hwd. nia.
  - intros x p Ho. apply is_obj_release in Ho as [Ho _]. by apply Hob.
  - exact Hop.
Qed.
End shrinking.

Lemma shrink_spec i ns hs L A (s : state) Q : auto = true -> inv i ns hs ns L A s -> 0 < maximum i ->
  (forall i' ns' s', inv i' ns' hs ns' L A s' -> Q tt s') ->
  wp (_Objects_Shrink_information information) Q s.
Proof.
  intros Hau HI H0 HQ. pose proof (i_fixed _ _ _ _ _ _ _ HI) as Hf. pose proof (i_tables _ _ _ _ _ _ _ HI) as Ht.
  pose proof (t_max _ _ _ _ Ht) as Hmax. pose proof (t_limit _ _ _ _ Ht) as Hlim.
  destruct (t_count _ _ _ _ Ht Hau) as [_ Hcnt]. unfold OBJECTS_ID_FINAL_INDEX in Hlim.
  apply wp_bind. eapply get_info_spec; [exact HI|]. cbv zeta.
  rewrite (f_min _ Hf), mkid_index, (f_alloc _ Hf), (f_chain _ Hf) by lia.
  destruct (Z.eqb_spec a 0) as [|_]; [lia|]. rewrite (u32_small (maximum i - 1)) by lia.
  set (n := (maximum i - 1) / a).
  assert (Hn : n <= Z.of_nat (length (object_blocks_table i))) by (apply Z.div_le_upper_bound; nia).
  apply (wp_whileM _ (fun v '(block, base) s' => s' = s /\ v = n - block /\ 0 <= block /\
    base = 1 + block * a)) with (k := n).
  - intros v [block base] s' (-> & -> & Hb & ->). destruct (Z.ltb_spec block n) as [Hlt|Hge].
    2: { apply wp_ret. by eapply HQ. }
    destruct (lookup_lt_is_Some_2 (object_blocks_table i) (Z.to_nat block)) as [q Hq]; [lia|].
    apply wp_bind. eapply table_read_spec; [exact (Hcnt _ _ Hq)|].
    destruct (Z.eqb_spec q NULL) as [->|Hq0].
    { destruct (Z.eqb_spec 0 a); [lia|]. apply wp_ret. exists (n - (block + 1)).
      rewrite !u32_small by nia. split_and!; try done; lia. }
    destruct (Z.eqb_spec (cnt q ns) a) as [Hall|].
    + rewrite (u32_small (1 + block * a + a)) by nia. rewrite <- (Z2Nat.id block) by lia.
      eapply release_block_spec; [exact HI|exact Hq|done|done|done|]. intros s' HI'.
      apply wp_ret. by eapply HQ.
    + apply wp_ret. exists (n - (block + 1)). rewrite !u32_small by nia. split_and!; try done; lia.
  - split_and!; try done; lia.
  - nia.
Qed.

(** * Allocation and free *)

(** A class that does not grow has one block. *)
Definition one_block (i : Objects_Information) : Prop :=
  auto = false -> exists q, q <> NULL /\ object_blocks_table i = [q].

(** The class has the open objects [A], the inactive objects [ns] and the
    held objects [hs]; [L] are the areas of other clients. *)
Definition class_ok (ns hs : list Z) (L : list (Z * Z)) (A : gmap Z Z) (s : state) : Prop :=
  exists i, inv i ns hs ns L A s /\ one_block i.

Lemma class_ok_auto i ns hs L A s : auto = true -> inv i ns hs ns L A s -> class_ok ns hs L A s.
Proof. intros Hau HI. exists i. split; [done|]. intros ?. congruence. Qed.

Lemma held_moved i ns hs cs L A s : inv i ns hs cs L A s -> NoDup ns.
Proof. intros HI. pose proof (t_nodup _ _ _ _ (i_tables _ _ _ _ _ _ _ HI)) as Hd. by apply NoDup_app in Hd as [? _]. Qed.

(** Accounting for an object taken from the chain. *)
Lemma count_taken_spec i ns p hs L A (s : state) Q : auto = true ->
  inv i ns (p :: hs) (p :: ns) L A s -> (forall s', class_ok ns (p :: hs) L A s' -> Q tt s') ->
  wp (count_inactive information p (-1)) Q s.
Proof.
  intros Hau HI HQ. destruct (t_obj _ _ _ _ (i_tables _ _ _ _ _ _ _ HI) p) as (x & Ho); [set_solver|].
  eapply (count_inactive_spec i ns (p :: hs) (p :: ns) ns); [done|exact HI|exact Ho|by eapply held_moved| | | |].
  - exact (chain_objs _ _ _ _ _ _ _ HI).
  - intros q. rewrite cnt_cons. destruct (decide (in_block q p)); lia.
  - cbn. lia.
  - intros i' s' HI' _. apply HQ. by eapply class_ok_auto.
Qed.

Lemma object_allocate_spec ns hs L A (s : state) Q : class_ok ns hs L A s ->
  (forall ns' s', class_ok ns' hs L A s' -> (auto = false -> ns = []) -> Q (inl NULL) s') ->
  (forall p ns' s', p <> NULL -> class_ok ns' (p :: hs) L A s' -> (auto = false -> ns = p :: ns') ->
    Q (inl p) s') ->
  wp (_Objects_Allocate_unprotected uninitialized information) Q s.
Proof.
  intros (i & HI & H1b) Hno Hyes. pose proof (i_fixed _ _ _ _ _ _ _ HI) as Hf.
  apply wp_bind. eapply get_info_spec; [exact HI|].
  rewrite (f_size _ Hf), (f_auto _ Hf). destruct (Z.eqb_spec sz 0); [lia|]. apply wp_bind.
  destruct (Bool.bool_dec auto true) as [Hau|Hau]; [|apply not_true_is_false in Hau]; rewrite Hau.
  - assert (Htake : forall p ns' s' i', p <> NULL -> inv i' ns' (p :: hs) (p :: ns') L A s' ->
      wp (whenM (negb (p =? NULL)) (count_inactive information p (-1));; mret (inl p)) Q s').
    { intros p ns' s' i' Hp HI'. destruct (Z.eqb_spec p NULL); [done|]. apply wp_bind. cbn.
      eapply count_taken_spec; [done|exact HI'|]. intros s'' Hok. apply wp_ret.
      eapply Hyes; [done|exact Hok|congruence]. }
    eapply get_inactive_spec; [exact HI|..].
    + intros E s' HI'. rewrite E in HI'. rewrite Z.eqb_refl. do 2 apply wp_bind.
      assert (Hget : forall i' ns' s'', inv i' ns' hs ns' L A s'' ->
        wp (o ← _Objects_Get_inactive information; mret (inl o)) (fun (r : Z + Internal_errors_Core_list) s' =>
          wp match r with
             | inl the_object => whenM (negb (the_object =? NULL))
                 (count_inactive information the_object (-1));; mret (inl the_object)
             | inr e => mret (inr e)
             end Q s') s'').
      { intros i' ns' s'' HI''. apply wp_bind. eapply get_inactive_spec; [exact HI''|..].
        - intros E' s3 HI3. apply wp_ret. rewrite Z.eqb_refl. cbn. apply wp_bind, wp_ret, wp_ret.
          apply (Hno []); [rewrite E' in HI3; by eapply class_ok_auto|congruence].
        - intros p ns3 s3 E' Hp HI3. apply wp_ret. rewrite E' in HI3. by eapply Htake. }
      eapply extend_spec; [exact HI'|by left|..].
      * intros s'' HI'' _. by eapply Hget.
      * intros s'' E'. congruence.
      * intros i' q s'' ns' _ _ _ HI''. by eapply Hget.
    + intros p ns' s' E Hp HI'. rewrite E in HI'. destruct (Z.eqb_spec p NULL); [done|].
      apply wp_bind, wp_ret. by eapply Htake.
  - assert (Hcs : forall ns' hs' cs' s', inv i ns' hs' cs' L A s' -> class_ok ns' hs' L A s').
    { intros ns' hs' cs' s' [H1 H2 [] H4 H5 H6 H7]. exists i. split; [|done]. split; try done.
      split; try done. congruence. }
    eapply get_inactive_spec; [exact HI|..].
    + intros E s' HI'. apply wp_ret. apply (Hno []); [by eapply Hcs|done].
    + intros p ns' s' E Hp HI'. apply wp_ret. eapply Hyes; [done|by eapply Hcs|done].
Qed.

Lemma object_free_spec ns p hs L A (s : state) Q : class_ok ns (p :: hs) L A s ->
  (forall ns' s', class_ok ns' hs L A s' -> (auto = false -> ns' = ns ++ [p]) -> Q tt s') ->
  wp (_Objects_Free information p) Q s.
Proof.
  intros (i & HI & H1b) HQ. pose proof (i_fixed _ _ _ _ _ _ _ HI) as Hf.
  destruct (t_obj _ _ _ _ (i_tables _ _ _ _ _ _ _ HI) p) as (x & Ho); [set_solver|].
  apply wp_bind. eapply get_info_spec; [exact HI|]. cbv zeta. rewrite (f_chain _ Hf), (f_auto _ Hf).
  apply wp_bind. eapply append_held_spec; [exact HI|reflexivity|]. intros s' HI'.
  destruct (Bool.bool_dec auto true) as [Hau|Hau]; [|apply not_true_is_false in Hau]; rewrite Hau; cbn.
  - apply wp_bind. eapply (count_inactive_spec i (ns ++ [p]) hs ns (ns ++ [p]));
      [done|exact HI'|exact Ho|by eapply held_moved| | | |].
    + exact (chain_objs _ _ _ _ _ _ _ HI').
    + intros q. rewrite (cnt_perm q (ns ++ [p]) (p :: ns)) by (by rewrite Permutation_app_comm).
      rewrite cnt_cons. destruct (decide (in_block q p)); lia.
    + rewrite length_app. cbn. lia.
    + intros i2 s2 HI2 Eb. apply wp_bind. eapply get_info_spec; [exact HI2|]. apply wp_whenM; intros _.
      * eapply shrink_spec; [done|exact HI2| |].
        { rewrite (t_max _ _ _ _ (i_tables _ _ _ _ _ _ _ HI2)), Eb. apply is_obj_range in Ho. nia. }
        intros i3 ns3 s3 HI3. eapply HQ; [by eapply class_ok_auto|congruence].
      * eapply HQ; [by eapply class_ok_auto|congruence].
  - apply wp_ret. eapply (HQ (ns ++ [p])); [|done]. exists i.
    destruct HI' as [H1 H2 [] H4 H5 H6 H7]. split; [|done]. split; try done. split; try done. congruence.
Qed.

(** * Opening, closing and looking up *)

Lemma mkid_inj x y : 0 <= x < 65536 -> 0 <= y < 65536 -> mkid x = mkid y -> x = y.
Proof. intros Hx Hy E. rewrite <- (mkid_index x), <- (mkid_index y), E by done. done. Qed.

Definition with_obj (p : Z) (o : Objects_Control) (s : state) : state :=
  {| ws := ws s; objs := <[p := o]> (objs s); infos := infos s;
     information_table := information_table s |}.

Section opening.
Context (i : Objects_Information) (ns hs : list Z) (L : list (Z * Z)) (A : gmap Z Z) (s : state).

Lemma obj_bound hs' x p : inv i ns hs' ns L A s -> is_obj (object_blocks_table i) x p ->
  1 <= x <= maximum i /\ maximum i < 65536.
Proof.
  intros HI Ho. pose proof (i_tables _ _ _ _ _ _ _ HI) as Ht. apply is_obj_range in Ho.
  rewrite <- (t_max _ _ _ _ Ht) in Ho. pose proof (t_limit _ _ _ _ Ht). unfold OBJECTS_ID_FINAL_INDEX in *. lia.
Qed.

(** A held object enters the local table. *)
Lemma inv_opened x p nm o : inv i ns (p :: hs) ns L A s -> is_obj (object_blocks_table i) x p ->
  objs s !! p = Some o ->
  let i' := set_local_table (<[Z.to_nat x := p]> (local_table i)) i in
  A !! mkid x = None /\
  inv i' ns hs ns L (<[mkid x := nm]> A) (with_info i' (with_obj p {| id := id o; name_u32 := nm |} s)).
Proof.
  intros HI Ho Eo i'. destruct (obj_bound _ _ _ HI Ho) as [Hx Hm].
  destruct (inv_live _ _ _ _ _ _ _ HI) as (R & _ & Hlive & _). pose proof HI as [H1 H2 Ht H4 H5 H6 H7].
  pose proof Ht as []. assert (Hp : p ∈ ns ++ p :: hs) by set_solver.
  assert (Hpn : p ∉ ns ++ hs) by (rewrite <- Permutation_middle in t_nodup0; by apply NoDup_cons in t_nodup0 as [? _]).
  assert (Hxl : (Z.to_nat x < length (local_table i))%nat) by lia.
  assert (Hp0 : p <> NULL) by (by eapply obj_nonnull).
  assert (Hold : forall y p', local_table i !! Z.to_nat y = Some p' -> 0 <= y -> p' <> NULL -> y <> x /\ p' <> p).
  { intros y p' Hy Hy0 Hp'. destruct (t_open0 y p' Hy Hy0 Hp') as [Ho' Hni].
    assert (p' <> p) by (by intros ->). split; [|done]. intros ->. by rewrite (obj_fun _ _ _ Hlive _ _ _ Ho Ho') in *. }
  split.
  - destruct (A !! mkid x) as [nm'|] eqn:E; [|done]. apply H7 in E as (y & p' & o' & Hy & Ey & Hl & Hp' & _).
    apply mkid_inj in Ey; [|lia|lia]. subst y. by destruct (Hold x p' Hl ltac:(lia) Hp').
  - split; cbn.
    + apply lookup_insert_eq.
    + by destruct H2.
    + split; cbn; rewrite ?length_insert; try done.
      * rewrite list_lookup_insert_ne by lia. done.
      * rewrite <- Permutation_middle in t_nodup0. by apply NoDup_cons in t_nodup0 as [_ ?].
      * intros p' Hp'. apply t_obj0. set_solver.
      * intros y p' Hy Hy0 Hp'. destruct (decide (Z.to_nat y = Z.to_nat x)) as [E|Hne].
        { rewrite E, list_lookup_insert_eq in Hy by done. simplify_eq.
          replace y with x by lia. done. }
        rewrite list_lookup_insert_ne in Hy by done. destruct (t_open0 y p' Hy Hy0 Hp') as [? Hni].
        split; [done|]. set_solver.
      * intros y p' Ho'. destruct (decide (Z.to_nat y = Z.to_nat x)) as [E|Hne].
        { left. apply is_obj_range in Ho' as Hy. replace y with x in * by lia.
          rewrite (obj_fun _ _ _ Hlive _ _ _ Ho' Ho). by apply list_lookup_insert_eq. }
        rewrite list_lookup_insert_ne by done. destruct (t_closed0 y p' Ho') as [?|[? Hin]]; [by left|].
        right. split; [done|]. rewrite <- Permutation_middle in Hin. apply elem_of_cons in Hin as [->|?]; [|done].
        exfalso. apply Hne. by rewrite (obj_inj _ _ _ Hlive _ _ _ Ho Ho').
    + done.
    + done.
    + intros y p' Ho'. destruct (H6 y p' Ho') as (o' & Eo' & Hid). destruct (decide (p' = p)) as [->|Hne].
      * rewrite lookup_insert_eq. eexists. split; [done|]. cbn. congruence.
      * rewrite lookup_insert_ne by done. by exists o'.
    + intros z nm'. cbn. rewrite lookup_insert. case_decide as Hz.
      * subst z. split.
        { intros [= <-]. exists x, p, {| id := id o; name_u32 := nm |}.
          rewrite list_lookup_insert_eq, lookup_insert_eq by done. split_and!; try done; lia. }
        intros (y & p' & o' & Hy & Ey & Hl & Hp' & Hob & <-). apply mkid_inj in Ey; [|lia|lia]. subst y.
        rewrite list_lookup_insert_eq in Hl by done. injection Hl as <-.
        rewrite lookup_insert_eq in Hob. by injection Hob as <-.
      * etransitivity; [apply (H7 z nm')|]. split; intros (y & p' & o' & Hy & Ey & Hl & Hp' & Hob & En);
          exists y, p', o'.
        { destruct (Hold y p' Hl ltac:(lia) Hp'). rewrite list_lookup_insert_ne, lookup_insert_ne by (lia || done).
          split_and!; try done; lia. }
        rewrite list_lookup_insert_ne in Hl by (intros E; apply Hz; rewrite Ey; f_equal; lia).
        destruct (Hold y p' Hl ltac:(lia) Hp'). rewrite lookup_insert_ne in Hob by done. split_and!; try done; lia.
Qed.

(** An open object leaves the local table. *)
Lemma inv_closed x p o : inv i ns hs ns L A s -> 0 <= x ->
  local_table i !! Z.to_nat x = Some p -> p <> NULL -> objs s !! p = Some o ->
  let i' := set_local_table (<[Z.to_nat x := NULL]> (local_table i)) i in
  inv i' ns (p :: hs) ns L (delete (mkid x) A)
    (with_obj p {| id := id o; name_u32 := 0 |} (with_info i' s)).
Proof.
  intros HI Hx0 Hl Hp0 Eo i'. destruct (inv_live _ _ _ _ _ _ _ HI) as (R & _ & Hlive & _).
  pose proof HI as [H1 H2 Ht H4 H5 H6 H7]. pose proof Ht as [].
  destruct (t_open0 x p Hl Hx0 Hp0) as [Ho Hni]. destruct (obj_bound _ _ _ HI Ho) as [Hx Hm].
  assert (Hxl : (Z.to_nat x < length (local_table i))%nat) by (by eapply lookup_lt_Some).
  assert (Hper : ns ++ p :: hs ≡ₚ p :: ns ++ hs) by (by rewrite Permutation_middle).
  assert (Hold : forall y p', local_table i !! Z.to_nat y = Some p' -> 0 <= y -> p' <> NULL -> y <> x -> p' <> p).
  { intros y p' Hy Hy0 Hp' Hne ->. destruct (t_open0 y p Hy Hy0 Hp') as [Ho' _].
    by apply Hne, (obj_inj _ _ _ Hlive _ _ _ Ho' Ho). }
  split; cbn.
  - apply lookup_insert_eq.
  - by destruct H2.
  - split; cbn; rewrite ?length_insert; try done.
    + by rewrite list_lookup_insert_ne by lia.
    + rewrite Hper. by constructor.
    + intros p'. rewrite Hper. intros [->|Hp']%elem_of_cons; [by exists x|by apply t_obj0].
    + intros y p' Hy Hy0 Hp'. destruct (decide (Z.to_nat y = Z.to_nat x)) as [E|Hne].
      { rewrite E, list_lookup_insert_eq in Hy by done. by simplify_eq. }
      rewrite list_lookup_insert_ne in Hy by done. destruct (t_open0 y p' Hy Hy0 Hp') as [? Hni'].
      split; [done|]. rewrite Hper, not_elem_of_cons. split; [|done]. eapply Hold; [exact Hy|done|done|lia].
    + intros y p' Ho'. rewrite Hper. destruct (decide (Z.to_nat y = Z.to_nat x)) as [E|Hne].
      { right. apply is_obj_range in Ho' as Hy. replace y with x in * by lia.
        rewrite (obj_fun _ _ _ Hlive _ _ _ Ho' Ho), list_lookup_insert_eq by done. split; [done|by left]. }
      rewrite list_lookup_insert_ne by done. destruct (t_closed0 y p' Ho') as [?|[? ?]]; [by left|].
      right. split; [done|by right].
  - done.
  - done.
  - intros y p' Ho'. destruct (H6 y p' Ho') as (o' & Eo' & Hid). destruct (decide (p' = p)) as [->|Hne].
    + rewrite lookup_insert_eq. eexists. split; [done|]. cbn. congruence.
    + rewrite lookup_insert_ne by done. by exists o'.
  - intros z nm'. cbn. rewrite lookup_delete. case_decide as Hz.
    + split; [done|]. intros (y & p' & o' & Hy & -> & Hl' & Hp' & _). apply mkid_inj in Hz; [|lia|lia]. subst y.
      rewrite list_lookup_insert_eq in Hl' by done. congruence.
    + etransitivity; [apply (H7 z nm')|]. split; intros (y & p' & o' & Hy & Ey & Hl' & Hp' & Hob & En);
        exists y, p', o'.
      * assert (y <> x) by (intros ->; by apply Hz).
        assert (p' <> p) by (eapply Hold; [exact Hl'|lia|done|done]).
        rewrite list_lookup_insert_ne, lookup_insert_ne by (lia || done). split_and!; try done; lia.
      * assert (Hne : Z.to_nat x <> Z.to_nat y) by (intros E; apply Hz; rewrite Ey; f_equal; lia).
        rewrite list_lookup_insert_ne in Hl' by done.
        assert (p' <> p) by (eapply Hold; [exact Hl'|lia|done|lia]).
        rewrite lookup_insert_ne in Hob by done. split_and!; try done; lia.
Qed.
End opening.

Lemma open_spec ns p hs L A (s : state) nm Q : class_ok ns (p :: hs) L A s ->
  (forall x s', A !! mkid x = None -> 1 <= x < 65536 -> class_ok ns hs L (<[mkid x := nm]> A) s' ->
    objs s' !! p = Some {| id := mkid x; name_u32 := nm |} -> Q tt s') ->
  wp (_Objects_Open_u32 information p nm) Q s.
Proof.
  intros (i & HI & H1b) HQ. destruct (t_obj _ _ _ _ (i_tables _ _ _ _ _ _ _ HI) p) as (x & Ho); [set_solver|].
  destruct (obj_bound _ _ _ _ _ _ _ _ HI Ho) as [Hx Hm].
  apply wp_bind. eapply get_object_spec; [exact HI|exact Ho|]. intros o Eo Hid.
  apply wp_bind, wp_modify. rewrite Hid, mkid_index by lia.
  destruct (inv_opened _ _ _ _ _ _ x p nm o HI Ho Eo) as [Hnone HI'].
  apply wp_bind. unfold wp at 1, get_info. cbn. rewrite (i_info _ _ _ _ _ _ _ HI).
  apply wp_bind, table_write_spec.
  { pose proof (t_lt _ _ _ _ (i_tables _ _ _ _ _ _ _ HI)). lia. }
  apply wp_modify. rewrite Hid in HI'. eapply (HQ x); [done|lia|eexists; split; [exact HI'|exact H1b]|]. apply lookup_insert_eq.
Qed.

(** Looking up an identifier finds the open object that has it. *)
Lemma object_get_spec i ns hs cs L A (s : state) z Q : inv i ns hs cs L A s -> 0 <= z < 2 ^ 32 ->
  (A !! z = None -> Q NULL s) ->
  (forall x p o, z = mkid x -> 1 <= x <= maximum i -> local_table i !! Z.to_nat x = Some p -> p <> NULL ->
    objs s !! p = Some o -> id o = z -> A !! z = Some (name_u32 o) -> Q p s) ->
  wp (_Objects_Get_no_protection z information) Q s.
Proof.
  intros HI Hz Hno Hyes. pose proof (i_tables _ _ _ _ _ _ _ HI) as Ht.
  pose proof (t_limit _ _ _ _ Ht) as Hlim. unfold OBJECTS_ID_FINAL_INDEX in Hlim.
  pose proof (t_lt _ _ _ _ Ht) as Hlen. pose proof (i_open _ _ _ _ _ _ _ HI) as Hop.
  assert (Hm0 : 0 <= maximum i) by (rewrite (t_max _ _ _ _ Ht); nia).
  apply wp_bind. eapply get_info_spec; [exact HI|]. cbv zeta. rewrite (f_min _ (i_fixed _ _ _ _ _ _ _ HI)).
  replace (z -. mkid 1 +. 1) with (u32 (z - mkid 0)).
  2: { destruct (mkid_sum 1) as [-> _]; [lia|]. unfold u32. rewrite Zplus_mod_idemp_l. f_equal. lia. }
  pose proof (u32_range (z - mkid 0)) as Hr. set (x := u32 (z - mkid 0)) in *.
  assert (Hzx : x < 65536 -> z = mkid x).
  { intros Hx. destruct (mkid_sum x) as [E Hb]; [lia|]. destruct (mkid_sum 0) as [_ H0]; [lia|].
    assert (Hmod : u32 z = u32 (mkid x)).
    { rewrite E. unfold x, u32. rewrite Zplus_mod_idemp_r. f_equal. lia. }
    by rewrite !u32_small in Hmod by lia. }
  assert (Hnone : (forall y p, z = mkid y -> 0 <= y <= maximum i -> local_table i !! Z.to_nat y = Some p ->
    p = NULL) -> A !! z = None).
  { intros Hall. destruct (A !! z) as [nm|] eqn:E; [|done].
    apply Hop in E as (y & p & o & Hy & Ey & Hl & Hp & _). by destruct Hp; eapply Hall. }
  destruct (Z.leb_spec x (maximum i)) as [Hle|Hgt].
  - destruct (lookup_lt_is_Some_2 (local_table i) (Z.to_nat x)) as [p Hp]; [lia|].
    eapply table_read_spec; [exact Hp|]. specialize (Hzx ltac:(lia)).
    destruct (Z.eq_dec p NULL) as [->|Hp0].
    + apply Hno, Hnone. intros y p' Ey Hy Hl. rewrite Hzx in Ey. apply mkid_inj in Ey; [|lia|lia].
      subst y. congruence.
    + destruct (t_open _ _ _ _ Ht x p Hp ltac:(lia) Hp0) as [Ho _].
      destruct (i_objs _ _ _ _ _ _ _ HI _ _ Ho) as (o & Eo & Hid).
      apply is_obj_range in Ho. eapply (Hyes x p o); try done; [lia|congruence|].
      apply Hop. exists x, p, o. split_and!; try done; lia.
  - apply wp_ret, Hno, Hnone. intros y p -> Hy Hl. exfalso.
    assert (x = y); [|lia]. unfold x. destruct (mkid_sum y) as [-> _]; [lia|].
    rewrite u32_small; lia.
Qed.

Lemma close_spec i ns hs L A (s : state) x p Q : inv i ns hs ns L A s -> one_block i -> 0 <= x ->
  local_table i !! Z.to_nat x = Some p -> p <> NULL ->
  (forall s', class_ok ns (p :: hs) L (delete (mkid x) A) s' -> Q tt s') ->
  wp (_Objects_Close information p) Q s.
Proof.
  intros HI H1b Hx Hl Hp HQ. pose proof (i_tables _ _ _ _ _ _ _ HI) as Ht.
  destruct (t_open _ _ _ _ Ht x p Hl Hx Hp) as [Ho _]. destruct (obj_bound _ _ _ _ _ _ _ _ HI Ho) as [Hxb Hm].
  destruct (i_objs _ _ _ _ _ _ _ HI _ _ Ho) as (o & Eo & Hid).
  apply wp_bind, wp_bind. eapply get_object_spec; [exact HI|exact Ho|]. intros o' Eo' Hid'.
  rewrite Hid', mkid_index by lia. apply wp_bind. eapply get_info_spec; [exact HI|].
  apply wp_bind, table_write_spec; [by eapply lookup_lt_Some|]. apply wp_modify.
  apply wp_bind. unfold wp at 1, get_object. cbn. rewrite Eo. apply wp_modify. cbn.
  apply HQ. eexists. split; [by apply (inv_closed i)|exact H1b].
Qed.

Lemma active_count_spec ns hs L A (s : state) Q : class_ok ns hs L A s ->
  (forall i, infos s !! information = Some i -> Q (maximum i - Z.of_nat (length ns)) s) ->
  wp (_Objects_Active_count information) Q s.
Proof.
  intros (i & HI & _) HQ. pose proof (i_tables _ _ _ _ _ _ _ HI) as Ht.
  pose proof (inactive_bound _ _ _ _ Ht) as Hb. rewrite length_app in Hb.
  pose proof (t_limit _ _ _ _ Ht) as Hlim. unfold OBJECTS_ID_FINAL_INDEX in Hlim.
  apply wp_bind. eapply get_info_spec; [exact HI|]. rewrite (f_chain _ (i_fixed _ _ _ _ _ _ _ HI)).
  apply wp_bind. eapply node_count_spec; [exact (i_chain _ _ _ _ _ _ _ HI)|lia|]. apply wp_ret.
  rewrite (u64_small (maximum i - _)), u16_small by lia. apply HQ. exact (i_info _ _ _ _ _ _ _ HI).
Qed.

(** * Initialization *)

Lemma object_initialize_spec L (s : state) nl mx Q :
  _Objects_Is_unlimited mx = auto -> _Objects_Maximum_per_allocation mx = a ->
  ws_live (ws s) L -> (forall k, k ∈ chain_words c [] -> is_Some (get_mem s !! k)) ->
  (forall e s', e <> None -> auto = false -> Q e s') ->
  (forall ns s', class_ok ns [] L ∅ s' -> Q None s') ->
  wp (_Objects_Do_initialize_information uninitialized information api cls mx sz nl c) Q s.
Proof.
  intros Hun Hmpa Hlive Hmap Herr HQ. apply wp_bind, wp_modify. rewrite Hun, Hmpa.
  destruct (Z.eqb_spec a 0) as [|_]; [lia|]. rewrite andb_false_r. apply wp_bind, wp_gets.
  apply wp_bind, wp_modify, wp_bind. cbn [infos ws objs].
  match goal with |- context [<[information := ?j]> (infos s)] => set (i := j) end.
  apply initialize_empty_spec.
  { intros k Hk. apply Hmap. rewrite elem_of_chain_words. set_unfold in Hk. tauto. }
  intros m' Hc Hch.
  assert (Hnone : forall x p, ~ is_obj [] x p) by (by intros x p (k & j & q & Hk & _)).
  assert (HI : inv i [] [] [] L ∅ (set_mem m' {| ws := ws s; objs := objs s;
    infos := <[information := i]> (infos s);
    information_table := <[(api, cls) := information]> (information_table s) |})).
  { split; cbn.
    - apply lookup_insert_eq.
    - split; try done. cbn. rewrite u16_small by lia. done.
    - clear HQ Herr. split; cbn; try done; try lia; try (intros ? Hnil; by apply not_elem_of_nil in Hnil).
      + constructor.
      + intros x p Hl _ Hp. destruct (Z.to_nat x) as [|[|]]; cbn in Hl; by simplify_eq.
      + intros x p Ho. by apply Hnone in Ho.
    - exists 0. eapply ws_write; [exact Hlive|exact Hch|]. intros k Hk. right. by apply Hstatic.
    - by rewrite get_set_mem.
    - intros x p Ho. by apply Hnone in Ho.
    - intros z nm. rewrite lookup_empty. split; [done|]. intros (x & p & o & Hx & _ & Hl & Hp & _). cbn in *.
      replace x with 0 in Hl by lia. injection Hl as <-. by destruct Hp. }
  eapply extend_spec; [exact HI|by right|..].
  - intros s' HI' Hcase. destruct (Bool.bool_dec auto true) as [Hau|Hau].
    + eapply HQ. by eapply class_ok_auto.
    + exfalso. destruct Hcase as [?|Hm]; [done|]. cbn in Hm. unfold OBJECTS_ID_FINAL_INDEX in Hm. lia.
  - intros s' Hau. by apply Herr.
  - intros i' q s' ns' Hq _ Hbt HI'. eapply HQ. exists i'. split; [exact HI'|]. intros _.
    exists q. by rewrite Hbt.
Qed.

(** When a class that does not grow has no inactive and no held objects, all
    its identifiers are in use. *)
Lemma class_full L A (s : state) : class_ok [] [] L A s -> auto = false ->
  forall x, 1 <= x <= a -> is_Some (A !! mkid x).
Proof.
  intros (i & HI & H1b) Hau x Hx. destruct (H1b Hau) as (q & Hq & Hbt).
  pose proof (i_tables _ _ _ _ _ _ _ HI) as Ht. pose proof (t_max _ _ _ _ Ht) as Hmax.
  rewrite Hbt in Hmax. cbn in Hmax.
  assert (Ho : is_obj (object_blocks_table i) x (q + (x - 1) * sz)).
  { rewrite Hbt. exists O, (x - 1), q. split_and!; try done; lia. }
  destruct (t_closed _ _ _ _ Ht x _ Ho) as [Hl|[_ Hin]]; [|by apply not_elem_of_nil in Hin].
  destruct (i_objs _ _ _ _ _ _ _ HI _ _ Ho) as (o & Eo & _). exists (name_u32 o).
  apply (i_open _ _ _ _ _ _ _ HI). exists x, (q + (x - 1) * sz), o.
  split_and!; try done; [lia|lia|]. by eapply obj_nonnull.
Qed.

End class.
End ObjectsInv.
