(* ===== verification/ObjectsCorrect.v ===== *)
(** What the object handler promises: creating and deleting objects behaves
    as inserting into and deleting from a finite map from identifiers to
    names, looking up an identifier or a name agrees with that map, and
    neither extension nor shrinking of the tables is visible.  The file also
    records where the handler falls short. *)

From S2P Require Import Prelude DList Chain Heap HeapInv HeapAlloc HeapCorrect Workspace ObjectId Objects ObjectsInv.
Import Chain Workspace ObjectId Objects ObjectsInv.
Open Scope width_scope.

Module ObjectsCorrect.

Section objects.
Context {S : Type} {HM : HasMem S} {WS : Workspace S}.
Context (uninitialized : Z -> Z).
Abbreviation state := (Objects.state (S := S)).

(** The two lookups differ only in the interrupt lock. *)
Lemma get_no_protection_eq z information (s : state) :
  _Objects_Get z information s = _Objects_Get_no_protection z information s.
Proof.
  unfold _Objects_Get, _Objects_Get_no_protection, mbind, M_bind.
  destruct (get_info information s) as [[i s']|]; [|done]. case_match; [|done].
  destruct (table_read _ _ s') as [[p s'']|]; [|done].
  destruct (Z.eqb_spec p NULL) as [->|]; done.
Qed.

(** * Clients that create and delete objects

    They follow the allocation and deletion patterns that the documentation
    of [_Objects_Allocate] and [_Objects_Free] prescribes. *)

Inductive op :=
  | op_create (name : Z)
  | op_delete (id : Z).

(** The result of a creation is the new identifier or [OBJECTS_ID_NONE], that
    of a deletion 1 or, for an invalid identifier, 0. *)
Definition exec (information : Z) (o : op) : M state Z :=
  match o with
  | op_create name =>
      r ← _Objects_Allocate uninitialized information;
      match r with
      | inr _ => fault
      | inl p =>
          if p =? NULL then mret OBJECTS_ID_NONE
          else _Objects_Open_u32 information p name;; o ← get_object p; mret (id o)
      end
  | op_delete z =>
      p ← _Objects_Get_no_protection z information;
      if p =? NULL then mret 0
      else _Objects_Close information p;; _Objects_Free information p;; mret 1
  end.

Fixpoint run (information : Z) (ops : list op) : M state (list Z) :=
  match ops with
  | [] => mret []
  | o :: ops' => r ← exec information o; rs ← run information ops'; mret (r :: rs)
  end.

(** The abstract class: a finite map from identifiers to names.  [full] says
    when a creation may fail. *)
Definition spec_step (full : gmap Z Z -> Prop) (A : gmap Z Z) (o : op) (r : Z) (A' : gmap Z Z) : Prop :=
  match o with
  | op_create name =>
      (r = OBJECTS_ID_NONE /\ A' = A /\ full A) \/
      (r <> OBJECTS_ID_NONE /\ A !! r = None /\ A' = <[r := name]> A)
  | op_delete z => r = (match A !! z with Some _ => 1 | None => 0 end) /\ A' = delete z A
  end.

Inductive spec_run (full : gmap Z Z -> Prop) : gmap Z Z -> list op -> list Z -> gmap Z Z -> Prop :=
  | spec_nil A : spec_run full A [] [] A
  | spec_cons A o r A' ops rs A'' : spec_step full A o r A' -> spec_run full A' ops rs A'' ->
      spec_run full A (o :: ops) (r :: rs) A''.

Section class.
Context (information c api cls a sz : Z) (auto : bool).
Context (Hapi : 0 <= api < 8) (Hcls : 0 <= cls < 32) (Ha : 1 <= a < 65536).
Context (Hauto : auto = true -> 2 <= a).
Context (Hsz : 24 <= sz < 65536) (Hsz8 : sz mod 8 = 0).
Context (Hstatic : forall k, k ∈ chain_words c [] -> static k).
Abbreviation class_ok := (class_ok information c api cls a sz auto).
Abbreviation mkid := (mkid api cls).

(** Creation may fail at any time when the class grows on demand; otherwise
    only when all identifiers of the class are in use. *)
Definition full (A : gmap Z Z) : Prop := auto = false -> forall x, 1 <= x <= a -> is_Some (A !! mkid x).

Definition op_valid (o : op) : Prop :=
  match o with op_create _ => True | op_delete z => 0 <= z < 2 ^ 32 end.

Lemma mkid_nonzero x : 1 <= x < 65536 -> mkid x <> OBJECTS_ID_NONE.
Proof.
  intros Hx. destruct (mkid_sum api cls Hapi Hcls x) as [E _]; [lia|].
  destruct (mkid_sum api cls Hapi Hcls 0) as [_ ?]; [lia|]. unfold OBJECTS_ID_NONE. lia.
Qed.

Lemma object_exec_refines ns L A (s : state) o Q : class_ok ns [] L A s -> op_valid o ->
  (forall r A' ns' s', spec_step full A o r A' -> class_ok ns' [] L A' s' -> Q r s') ->
  wp (exec information o) Q s.
Proof.
  intros Hok Hv HQ. destruct o as [nm|z]; cbn [exec].
  - apply wp_bind. eapply object_allocate_spec; try eassumption.
    + intros ns' s' Hok' Hns. rewrite Z.eqb_refl. apply wp_ret. eapply HQ; [|exact Hok'].
      left. split_and!; [done|done|]. intros Hau. rewrite (Hns Hau) in Hok. eapply class_full; eassumption.
    + intros p ns' s' Hp Hok' _. destruct (Z.eqb_spec p NULL); [done|]. apply wp_bind.
      eapply open_spec; try eassumption. intros x s'' Hnone Hx Hok'' Eo.
      apply wp_bind. unfold wp at 1, get_object. rewrite Eo. apply wp_ret. cbn.
      eapply HQ; [|exact Hok'']. right. split_and!; [by apply mkid_nonzero|done|done].
  - apply wp_bind. destruct Hok as (i & HI & H1b). eapply object_get_spec; try eassumption.
    + intros Hnone. apply wp_ret. eapply HQ; [|eexists; split; [exact HI|done]].
      cbn. rewrite Hnone. split; [done|]. by rewrite delete_id.
    + intros x p o -> Hx Hl Hp Eo Hid HA. destruct (Z.eqb_spec p NULL); [done|]. apply wp_bind.
      eapply (close_spec uninitialized information c api cls a sz auto) with (x := x); try eassumption; [lia|].
      intros s' Hok'. apply wp_bind. eapply object_free_spec; try eassumption.
      intros ns' s'' Hok'' _. apply wp_ret. eapply HQ; [|exact Hok'']. cbn. by rewrite HA.
Qed.

Lemma run_refines ops ns L A (s : state) : class_ok ns [] L A s -> Forall op_valid ops ->
  wp (run information ops) (fun rs s' => exists A' ns', spec_run full A ops rs A' /\
    class_ok ns' [] L A' s') s.
Proof.
  intros Hok Hv. revert ns A s Hok. induction Hv as [|o ops Ho _ IH]; intros ns A s Hok; cbn [run].
  - apply wp_ret. exists A, ns. split; [constructor|done].
  - apply wp_bind. eapply object_exec_refines; [exact Hok|exact Ho|]. intros r A1 ns1 s1 Hst Hok1.
    apply wp_bind. eapply wp_mono; [by eapply IH|]. intros rs s2 (A2 & ns2 & Hr & Hok2).
    apply wp_ret. exists A2, ns2. split; [by econstructor|done].
Qed.

(** ** Looking up *)

(** What a lookup of the identifier [z] returns: the open object that has
    it. *)
Definition lookup_ok (A : gmap Z Z) (s : state) (z p : Z) : Prop :=
  match A !! z with
  | None => p = NULL
  | Some nm => p <> NULL /\ objs s !! p = Some {| id := z; name_u32 := nm |}
  end.

Lemma lookup_spec ns hs L A (s : state) z : class_ok ns hs L A s -> 0 <= z < 2 ^ 32 ->
  wp (_Objects_Get z information) (fun p s' => s' = s /\ lookup_ok A s z p) s.
Proof.
  intros (i & HI & _) Hz. unfold wp. rewrite get_no_protection_eq.
  change (wp (_Objects_Get_no_protection z information) (fun p s' => s' = s /\ lookup_ok A s z p) s).
  unfold lookup_ok. eapply object_get_spec; try eassumption.
  - by intros ->.
  - intros x p o -> Hx Hl Hp Eo Hid HA. rewrite HA. split_and!; [done|done|]. rewrite Eo. f_equal.
    destruct o. cbn in *. congruence.
Qed.

(** The search by name: the lowest open index with that name. *)
Lemma name_to_id_spec ns hs L A (s : state) nm : class_ok ns hs L A s -> nm <> 0 ->
  wp (_Objects_Name_to_id_u32 information nm OBJECTS_SEARCH_ALL_NODES true)
    (fun r s' => s' = s /\
      ((exists z, r = (OBJECTS_NAME_OR_ID_LOOKUP_SUCCESSFUL, Some z) /\ A !! z = Some nm /\
        forall z', A !! z' = Some nm -> z <= z') \/
       (r = (OBJECTS_INVALID_NAME, None) /\ forall z, A !! z <> Some nm))) s.
Proof.
  intros (i & HI & _) Hnm. pose proof (i_tables _ _ _ _ _ _ _ _ _ _ _ _ _ _ HI) as Ht.
  pose proof (t_limit _ _ _ _ _ _ _ Ht) as Hlim. pose proof (t_max _ _ _ _ _ _ _ Ht) as Hmax.
  pose proof (t_lt _ _ _ _ _ _ _ Ht) as Hlen. unfold OBJECTS_ID_FINAL_INDEX in Hlim.
  pose proof (i_open _ _ _ _ _ _ _ _ _ _ _ _ _ _ HI) as Hop.
  unfold _Objects_Name_to_id_u32. cbn [negb]. destruct (Z.eqb_spec nm 0); [done|].
  apply wp_bind. eapply get_info_spec; [exact HI|]. rewrite Z.eqb_refl. cbn [orb]. rewrite andb_true_r.
  destruct (Z.eqb_spec (maximum i) 0) as [E0|Hm0]; cbn [negb].
  { apply wp_ret. split; [done|]. right. split; [done|]. intros z Hz.
    apply Hop in Hz as (x & p & o & Hx & _ & Hl & Hp & _). replace x with 0 in Hl by lia.
    change (Z.to_nat 0) with O in Hl. rewrite (t_lt0 _ _ _ _ _ _ _ Ht) in Hl. congruence. }
  apply (wp_whileM _ (fun v x s' => s' = s /\ v = maximum i + 1 - x /\ 1 <= x <= maximum i + 1 /\
    forall y p o, 0 <= y < x -> local_table i !! Z.to_nat y = Some p -> p <> NULL ->
      objs s !! p = Some o -> name_u32 o <> nm)) with (k := maximum i).
  - intros v x s' (-> & -> & Hx & Hbelow). destruct (Z.leb_spec x (maximum i)) as [Hle|Hgt].
    2: { apply wp_ret. split; [done|]. right. split; [done|]. intros z Hz.
         apply Hop in Hz as (y & p & o & Hy & _ & Hl & Hp & Eo & En). eapply Hbelow; try eassumption. lia. }
    destruct (lookup_lt_is_Some_2 (local_table i) (Z.to_nat x)) as [p Hp]; [lia|].
    apply wp_bind. eapply table_read_spec; [exact Hp|].
    assert (Hnext : (forall o, p <> NULL -> objs s !! p = Some o -> name_u32 o <> nm) ->
      exists k', 0 <= k' < maximum i + 1 - x /\ s = s /\ k' = maximum i + 1 - (x +. 1) /\
        1 <= x +. 1 <= maximum i + 1 /\ forall y p o, 0 <= y < x +. 1 ->
          local_table i !! Z.to_nat y = Some p -> p <> NULL -> objs s !! p = Some o -> name_u32 o <> nm).
    { intros Hne. rewrite u32_small by lia. exists (maximum i + 1 - (x + 1)). split_and!; try done; try lia.
      intros y p' o Hy Hl Hp' Eo. destruct (Z.eq_dec y x) as [->|]; [|eapply Hbelow; try eassumption; lia].
      assert (p' = p) as -> by congruence. by apply Hne. }
    destruct (Z.eqb_spec p NULL) as [->|Hp0]; [apply wp_ret, Hnext; congruence|].
    destruct (t_open _ _ _ _ _ _ _ Ht x p Hp ltac:(lia) Hp0) as [Ho _].
    apply wp_bind. eapply get_object_spec; [exact HI|exact Ho|]. intros o Eo Hid.
    destruct (Z.eqb_spec nm (name_u32 o)) as [En|En].
    + apply wp_ret. split; [done|]. left. exists (mkid x). rewrite Hid. split; [done|]. split.
      * apply Hop. exists x, p, o. split_and!; try done; lia.
      * intros z' Hz'. apply Hop in Hz' as (y & p' & o' & Hy & -> & Hl & Hp' & Eo' & En').
        destruct (mkid_sum api cls Hapi Hcls x) as [-> _]; [lia|].
        destruct (mkid_sum api cls Hapi Hcls y) as [-> _]; [lia|].
        destruct (Z.lt_ge_cases y x); [|lia]. exfalso. eapply Hbelow; try eassumption. lia.
    + apply wp_ret, Hnext. intros o' _ Eo'. assert (o' = o) as -> by congruence. congruence.
  - split_and!; try done; try lia. intros y p o Hy Hl Hp. replace y with 0 in Hl by lia.
    change (Z.to_nat 0) with O in Hl. rewrite (t_lt0 _ _ _ _ _ _ _ Ht) in Hl. congruence.
  - lia.
Qed.

(** ** Counting *)

Lemma NoDup_filter_nonnull (l : list Z) :
  (forall i j p, l !! i = Some p -> l !! j = Some p -> p <> NULL -> i = j) ->
  NoDup (filter (fun p => p <> NULL) l).
Proof.
  induction l as [|p l IH]; intros Hinj; [constructor|].
  assert (IH' : NoDup (filter (fun p => p <> NULL) l)).
  { apply IH. intros i j q Hi Hj Hq.
    by injection (Hinj (Datatypes.S i) (Datatypes.S j) q Hi Hj Hq). }
  rewrite filter_cons. case_decide as Hp; [|done]. constructor; [|done].
  intros [_ [i Hi]%list_elem_of_lookup]%list_elem_of_filter. by specialize (Hinj O (Datatypes.S i) p eq_refl Hi Hp).
Qed.

Lemma all_objs_obj bt p : p ∈ all_objs a sz bt -> exists x, is_obj a sz bt x p.
Proof.
  unfold all_objs. rewrite list_elem_of_bind. intros (q & Hp & [k Hk]%list_elem_of_lookup).
  destruct (Z.eqb_spec q NULL); [by apply not_elem_of_nil in Hp|].
  apply elem_array_nodes in Hp as (j & Hj & ->). exists (1 + Z.of_nat k * a + j), k, j, q.
  split_and!; try done; lia.
Qed.

Lemma NoDup_all_objs bt R w : ws_live w (areas a sz bt ++ R) -> NoDup (all_objs a sz bt).
Proof.
  intros Hlive.
  assert (Hd : forall k k' q q' p, k <> k' -> bt !! k = Some q -> bt !! k' = Some q' -> q <> NULL -> q' <> NULL ->
    p ∈ array_nodes q (Z.to_nat a) sz -> p ∉ array_nodes q' (Z.to_nat a) sz).
  { intros k k' q q' p Hne Hk Hk' Hq Hq'. rewrite !elem_array_nodes. intros (j & Hj & ->) (j' & Hj' & E).
    destruct (block_apart a sz bt R w Hlive k q k' q' Hk Hk' Hq Hq' Hne); nia. }
  clear Hlive. revert Hd. unfold all_objs. induction bt as [|q bt IH]; intros Hd; cbn; [constructor|].
  apply NoDup_app. split_and!.
  - case_match; [constructor|]. apply NoDup_array_nodes. lia.
  - intros p Hp. destruct (Z.eqb_spec q NULL); [by apply not_elem_of_nil in Hp|].
    rewrite list_elem_of_bind. intros (q' & Hp' & [k Hk]%list_elem_of_lookup).
    destruct (Z.eqb_spec q' NULL); [by apply not_elem_of_nil in Hp'|].
    by apply (Hd O (Datatypes.S k) q q' p) in Hp'.
  - apply IH. intros k k' q1 q2 p Hne Hk Hk'. apply (Hd (Datatypes.S k) (Datatypes.S k')); [congruence|done|done].
Qed.

Lemma length_all_objs_eq bt :
  Z.of_nat (length (all_objs a sz bt)) = a * Z.of_nat (length (filter (fun q => q <> NULL) bt)).
Proof.
  unfold all_objs. induction bt as [|q bt IH]; [cbn; lia|]. rewrite bind_cons, length_app, filter_cons.
  destruct (Z.eqb_spec q NULL); case_decide; try done. cbn [length]. rewrite length_array_nodes. lia.
Qed.

Lemma obj_index_inj bt R w x y p : ws_live w (areas a sz bt ++ R) ->
  is_obj a sz bt x p -> is_obj a sz bt y p -> x = y.
Proof. intros Hlive Hx Hy. eapply obj_inj; eassumption. Qed.

Lemma live_areas i ns hs cs L A (s : state) : inv information c api cls a sz auto i ns hs cs L A s ->
  exists R, ws_live (ws s) (areas a sz (object_blocks_table i) ++ R).
Proof.
  intros [_ _ _ [n Hn] _ _ _]. exists (table_area i n ++ L). eapply ws_perm; [|exact Hn].
  rewrite !app_assoc. f_equiv. apply Permutation_app_comm.
Qed.

(** Every object is inactive, held or open. *)
Lemma objs_partition i ns hs cs L A (s : state) : inv information c api cls a sz auto i ns hs cs L A s ->
  all_objs a sz (object_blocks_table i) ≡ₚ (ns ++ hs) ++ filter (fun p => p <> NULL) (local_table i).
Proof.
  intros HI. pose proof (i_tables _ _ _ _ _ _ _ _ _ _ _ _ _ _ HI) as Ht.
  destruct (live_areas _ _ _ _ _ _ _ HI) as (R & Hlive).
  pose proof Ht as []. apply NoDup_Permutation.
  - by eapply NoDup_all_objs.
  - apply NoDup_app. split_and!; [done| |].
    + intros p Hp [Hp0 [x Hx]%list_elem_of_lookup]%list_elem_of_filter.
      rewrite <- (Nat2Z.id x) in Hx. by destruct (t_open0 _ p Hx ltac:(lia) Hp0).
    + apply NoDup_filter_nonnull. intros x y p Hx Hy Hp.
      rewrite <- (Nat2Z.id x) in Hx. rewrite <- (Nat2Z.id y) in Hy.
      destruct (t_open0 _ p Hx ltac:(lia) Hp) as [H1 _]. destruct (t_open0 _ p Hy ltac:(lia) Hp) as [H2 _].
      pose proof (obj_index_inj _ _ _ _ _ _ Hlive H1 H2). lia.
  - intros p. rewrite elem_of_app, list_elem_of_filter. split.
    + intros (x & Ho)%all_objs_obj. destruct (t_closed0 x p Ho) as [Hl|[_ ?]]; [|by left]. right.
      split; [by eapply obj_nonnull|by eapply list_elem_of_lookup_2].
    + intros [Hp|[Hp0 [x Hx]%list_elem_of_lookup]].
      * destruct (t_obj0 p Hp) as (x & Ho). by eapply elem_all_objs.
      * rewrite <- (Nat2Z.id x) in Hx. destruct (t_open0 _ p Hx ltac:(lia) Hp0) as [Ho _]. by eapply elem_all_objs.
Qed.

Lemma open_count i ns hs cs L A (s : state) : inv information c api cls a sz auto i ns hs cs L A s ->
  base.size A = length (filter (fun p => p <> NULL) (local_table i)).
Proof.
  intros HI. pose proof (i_tables _ _ _ _ _ _ _ _ _ _ _ _ _ _ HI) as Ht. pose proof Ht as [].
  pose proof (i_open _ _ _ _ _ _ _ _ _ _ _ _ _ _ HI) as Hop.
  set (act := filter (fun p => p <> NULL) (local_table i)).
  set (key := fun p => match objs s !! p with Some o => (id o, name_u32 o) | None => (0, 0) end).
  assert (Hact : forall p, p ∈ act -> exists x o, 0 <= x <= maximum i /\
    local_table i !! Z.to_nat x = Some p /\ p <> NULL /\ objs s !! p = Some o /\ id o = mkid x /\
    is_obj a sz (object_blocks_table i) x p).
  { intros p [Hp0 [x Hx]%list_elem_of_lookup]%list_elem_of_filter. pose proof (lookup_lt_Some _ _ _ Hx).
    rewrite <- (Nat2Z.id x) in Hx. destruct (t_open0 _ p Hx ltac:(lia) Hp0) as [Ho _].
    destruct (i_objs _ _ _ _ _ _ _ _ _ _ _ _ _ _ HI _ _ Ho) as (o & Eo & Hid).
    exists (Z.of_nat x), o. split_and!; try done; lia. }
  assert (Hnd : NoDup (key <$> act).*1).
  { rewrite <- list_fmap_compose. apply NoDup_fmap_2_strong.
    - intros p q Hp Hq E. destruct (Hact p Hp) as (x & o & Hx & Hlx & _ & Eo & Hid & _).
      destruct (Hact q Hq) as (y & o' & Hy & Hly & _ & Eo' & Hid' & _).
      unfold key in E. cbn in E. rewrite Eo, Eo' in E. cbn in E. rewrite Hid, Hid' in E.
      unfold OBJECTS_ID_FINAL_INDEX in *. apply mkid_inj in E; [|done|done|lia|lia]. congruence.
    - assert (Hp : all_objs a sz (object_blocks_table i) ≡ₚ (ns ++ hs) ++ act) by by eapply objs_partition.
      destruct (live_areas _ _ _ _ _ _ _ HI) as (R & Hlive).
      pose proof (NoDup_all_objs _ _ _ Hlive) as Hn. rewrite Hp in Hn. by apply NoDup_app in Hn as (_ & _ & ?). }
  replace A with (list_to_map (key <$> act) : gmap Z Z).
  { rewrite map_size_list_to_map by done. by rewrite length_fmap. }
  apply map_eq. intros z. apply option_eq. intros nm. rewrite <- elem_of_list_to_map by done.
  rewrite (Hop z nm), list_elem_of_fmap. split.
  - intros (p & E & Hp). destruct (Hact p Hp) as (x & o & Hx & Hlx & Hp0 & Eo & Hid & _).
    unfold key in E. rewrite Eo in E. injection E as -> ->. by exists x, p, o.
  - intros (x & p & o & Hx & -> & Hl & Hp0 & Eo & <-). exists p. unfold key. rewrite Eo.
    assert (Hin : p ∈ act) by (apply list_elem_of_filter; split; [done|by eapply list_elem_of_lookup_2]).
    split; [|done]. destruct (Hact p Hin) as (y & o' & Hy & Hly & _ & Eo' & Hid & Ho).
    assert (o' = o) as -> by congruence. destruct (t_open0 x p Hl ltac:(lia) Hp0) as [Ho' _].
    destruct (live_areas _ _ _ _ _ _ _ HI) as (R & Hlive).
    by rewrite Hid, (obj_index_inj _ _ _ _ _ _ Hlive Ho Ho').
Qed.

(** The active count includes the objects of released blocks. *)
Lemma active_count_exact ns L A (s : state) Q : class_ok ns [] L A s ->
  (forall i, infos s !! information = Some i ->
    Q (Z.of_nat (base.size A) +
       a * Z.of_nat (length (filter (fun q => q = NULL) (object_blocks_table i)))) s) ->
  wp (_Objects_Active_count information) Q s.
Proof.
  intros Hok HQ. pose proof Hok as (i & HI & _). eapply active_count_spec; try eassumption.
  intros j Hj. rewrite (i_info _ _ _ _ _ _ _ _ _ _ _ _ _ _ HI) in Hj. injection Hj as <-.
  specialize (HQ i (i_info _ _ _ _ _ _ _ _ _ _ _ _ _ _ HI)).
  rewrite (open_count _ _ _ _ _ _ _ HI) in HQ.
  pose proof (Permutation_length (objs_partition _ _ _ _ _ _ _ HI)) as Hp.
  rewrite !length_app in Hp. cbn [length] in Hp. pose proof (length_all_objs_eq (object_blocks_table i)) as Hlen.
  pose proof (t_max _ _ _ _ _ _ _ (i_tables _ _ _ _ _ _ _ _ _ _ _ _ _ _ HI)) as Hmax.
  assert (Hsum : forall l : list Z, (length l = length (filter (fun q => q <> NULL) l)
    + length (filter (fun q => q = NULL) l))%nat).
  { clear. induction l as [|q l IH]; [done|]. rewrite !filter_cons.
    destruct (decide (q <> NULL)), (decide (q = NULL)); try done; cbn [length]; lia. }
  rewrite (Hsum (object_blocks_table i)) in Hmax.
  replace (maximum i - _) with (Z.of_nat (length (filter (fun p => p <> NULL) (local_table i))) +
    a * Z.of_nat (length (filter (fun q => q = NULL) (object_blocks_table i)))); [exact HQ|]. lia.
Qed.

Lemma get_next_spec ns hs L A (s : state) i x : class_ok ns hs L A s ->
  infos s !! information = Some i -> information <> NULL -> maximum i < OBJECTS_ID_FINAL_INDEX -> 0 <= x < 65536 ->
  let first := if x =? 0 then 1 else x in
  wp (_Objects_Get_next (mkid x) information true) (fun '(p, next) s' => s' = s /\
    ((exists y, first <= y < 65535 /\ is_Some (A !! mkid y) /\ lookup_ok A s (mkid y) p /\
       next = Some (mkid (y + 1)) /\ forall y', first <= y' < y -> A !! mkid y' = None) \/
     (p = NULL /\ next = Some OBJECTS_ID_FINAL /\ forall y, first <= y < 65536 -> A !! mkid y = None))) s.
Proof.
  intros (j & HI & _) Hi Hn0 Hm Hx first. unfold _Objects_Get_next. apply Z.eqb_neq in Hn0 as ->. cbn [negb].
  rewrite (i_info _ _ _ _ _ _ _ _ _ _ _ _ _ _ HI) in Hi. injection Hi as ->.
  unfold OBJECTS_ID_FINAL_INDEX in Hm. pose proof (i_open _ _ _ _ _ _ _ _ _ _ _ _ _ _ HI) as Hop.
  assert (Hid : forall y, 0 <= y < 65536 -> _Objects_Get_index (mkid y) = y) by (intros; by apply mkid_index).
  apply wp_bind. eapply get_info_spec; [exact HI|]. rewrite Hid by done.
  rewrite (f_min _ _ _ _ _ _ _ (i_fixed _ _ _ _ _ _ _ _ _ _ _ _ _ _ HI)). unfold OBJECTS_ID_INITIAL_INDEX.
  replace (if x =? 0 then mkid 1 else mkid x) with (mkid first) by (unfold first; by destruct (x =? 0)).
  assert (Hf : 1 <= first < 65536) by (unfold first; destruct (Z.eqb_spec x 0); lia).
  apply (wp_whileM _ (fun v z s' => s' = s /\ exists y, z = mkid y /\ first <= y < 65536 /\ v = 65536 - y /\
    forall y', first <= y' < y -> A !! mkid y' = None)) with (k := 65536 - first).
  - intros v z s' (-> & y & -> & Hy & -> & Hbelow). rewrite Hid by lia.
    destruct (Z.ltb_spec (maximum i) y) as [Hlt|Hle].
    + apply wp_ret. split; [done|]. right. split_and!; [done|done|]. intros y' Hy'.
      destruct (Z.lt_ge_cases y' y); [apply Hbelow; lia|].
      destruct (A !! mkid y') as [nm|] eqn:E; [|done]. apply Hop in E as (u & p & o & Hu & Eu & _).
      apply mkid_inj in Eu; [lia|done|done|lia|lia].
    + apply wp_bind. destruct (mkid_sum api cls Hapi Hcls y) as [Ey Hyr]; [lia|].
      destruct (mkid_sum api cls Hapi Hcls (y + 1)) as [Ey1 Hyr1]; [lia|].
      assert (En : mkid y +. 1 = mkid (y + 1)) by (rewrite u32_small; lia).
      rewrite En. eapply object_get_spec with (a := a) (sz := sz) (auto := auto) (c := c); try eassumption.
      * intros Hnone. rewrite Z.eqb_refl. apply wp_ret. exists (65536 - (y + 1)). split; [lia|]. split; [done|].
        exists (y + 1). split_and!; try done; try lia. intros y' Hy'.
        destruct (Z.eq_dec y' y) as [->|]; [done|apply Hbelow; lia].
      * intros u p o Eu Hu Hl Hp Eo Hio HA. destruct (Z.eqb_spec p NULL); [done|]. apply wp_ret.
        split; [done|]. left. exists y. split_and!; try done; try lia; try (by eexists).
        unfold lookup_ok. rewrite HA. split; [done|]. rewrite Eo. f_equal. destruct o. cbn in *. congruence.
  - split; [done|]. exists first. split_and!; try done; try lia.
  - lia.
Qed.
End class.

(** The parameters with which a class may be initialized: identifiers in
    range, objects that hold an [Objects_Control] and keep their alignment,
    at least one object per allocation, two when the class is unlimited, and
    a chain control outside of the workspace. *)
Record class_params (c api cls mx sz : Z) : Prop := {
  cp_api : 0 <= api < 8;
  cp_cls : 0 <= cls < 32;
  cp_max : 1 <= _Objects_Maximum_per_allocation mx;
  cp_unlimited : _Objects_Is_unlimited mx = true -> 2 <= _Objects_Maximum_per_allocation mx;
  cp_size : 24 <= sz < 65536 /\ sz mod 8 = 0;
  cp_static : forall k, k ∈ chain_words c [] -> static k;
}.

(** A client that initializes the class, runs [ops] and goes on with [K];
    [None] when the initialization ends in a fatal error. *)
Definition session {B} (information c api cls mx sz nl : Z) (ops : list op) (K : list Z -> M state B)
    : M state (option B) :=
  e ← _Objects_Do_initialize_information uninitialized information api cls mx sz nl c;
  match e with
  | Some _ => mret None
  | None => rs ← run information ops; b ← K rs; mret (Some b)
  end.

Section client.
Context (information c api cls mx sz nl : Z) (L : list (Z * Z)) (s : state) (ops : list op).
Context (Hp : class_params c api cls mx sz) (Hlive : ws_live (ws s) L).
Context (Hmap : forall k, k ∈ chain_words c [] -> is_Some (get_mem s !! k)).
Context (Hv : Forall op_valid ops).
Abbreviation auto := (_Objects_Is_unlimited mx).
Abbreviation a := (_Objects_Maximum_per_allocation mx).

Lemma class_params_allocation : 1 <= a < 65536.
Proof using Hp.
  destruct Hp as [_ _ Hmx _ _ _]. pose proof (u16_range (Z.land mx (u32 (Z.lnot OBJECTS_UNLIMITED_OBJECTS)))).
  unfold _Objects_Maximum_per_allocation in *. lia.
Qed.

Lemma session_spec {B} (K : list Z -> M state B) Q :
  (forall s', auto = false -> Q None s') ->
  (forall rs A ns s', spec_run (full api cls a auto) ∅ ops rs A ->
    class_ok information c api cls a sz auto ns [] L A s' -> wp (K rs) (fun b s'' => Q (Some b) s'') s') ->
  wp (session information c api cls mx sz nl ops K) Q s.
Proof using All.
  intros HN HQ. pose proof class_params_allocation as Ha. destruct Hp as [Hapi Hcls Hmx Hun [Hsz Hsz8] Hst].
  apply wp_bind. eapply (object_initialize_spec uninitialized information c api cls a sz auto); try eassumption; try done.
  - intros e s' He Hau. destruct e as [e|]; [|done]. by apply wp_ret, HN.
  - intros ns s' Hok. apply wp_bind. eapply wp_mono.
    { eapply (run_refines information c api cls a sz auto); eassumption. }
    intros rs s'' (A & ns' & Hr & Hok'). apply wp_bind. eapply wp_mono; [by eapply HQ|].
    intros b s3 HB. by apply wp_ret.
Qed.

(** C3. An object class refines a finite map from identifiers to names.
    After initialization, every sequence of creations and deletions runs
    without a fault and gives the results of the map: a creation yields an
    identifier that was not in use, a deletion succeeds exactly for the
    identifiers in use; in a class that does not grow a creation fails only
    when all its identifiers are in use.  At the end the lookup of any
    identifier returns the open object with that identifier and its name or
    null, the search by name finds the lowest identifier with that name or
    reports an invalid name, and the areas of other clients of the workspace
    are still live.  Initialization can only fail, fatally, when the class
    does not grow. *)
Theorem objects_trace_refines :
  wp (session information c api cls mx sz nl ops mret)
    (fun r s' => match r with
     | None => auto = false
     | Some rs => exists A own, spec_run (full api cls a auto) ∅ ops rs A /\
         ws_live (ws s') (own ++ L) /\
         (forall z, 0 <= z < 2 ^ 32 ->
           wp (_Objects_Get z information) (fun p s'' => s'' = s' /\ lookup_ok A s' z p) s') /\
         (forall nm, nm <> 0 ->
           wp (_Objects_Name_to_id_u32 information nm OBJECTS_SEARCH_ALL_NODES true)
             (fun r s'' => s'' = s' /\
               ((exists z, r = (OBJECTS_NAME_OR_ID_LOOKUP_SUCCESSFUL, Some z) /\ A !! z = Some nm /\
                 forall z', A !! z' = Some nm -> z <= z') \/
                (r = (OBJECTS_INVALID_NAME, None) /\ forall z, A !! z <> Some nm))) s')
     end) s.
Proof using All.
  pose proof class_params_allocation. apply session_spec; [done|]. intros rs A ns s' Hr Hok. apply wp_ret.
  destruct Hp as [Hapi Hcls _ _ [Hsz Hsz8] Hst]. pose proof Hok as (i & HI & _).
  destruct (i_live _ _ _ _ _ _ _ _ _ _ _ _ _ _ HI) as [n Hn]. rewrite app_assoc in Hn.
  eexists A, _. split_and!; [exact Hr|exact Hn|..].
  - intros z Hz. eapply lookup_spec; eassumption.
  - intros nm Hnm. eapply name_to_id_spec; eassumption.
Qed.

(** C31. What [_Objects_Active_count] returns after any sequence of creations
    and deletions: the number of objects in use, plus the objects of the
    blocks that were released when the class shrank.  It is the number of
    objects in use for a class that never released a block, and too large by
    a multiple of the allocation size otherwise. *)
Theorem objects_active_count :
  wp (session information c api cls mx sz nl ops (fun _ => _Objects_Active_count information))
    (fun r s' => match r with
     | None => auto = false
     | Some n => exists rs A i, spec_run (full api cls a auto) ∅ ops rs A /\
         infos s' !! information = Some i /\
         n = Z.of_nat (base.size A) +
             a * Z.of_nat (length (filter (fun q => q = NULL) (object_blocks_table i)))
     end) s.
Proof using All.
  pose proof class_params_allocation. apply session_spec; [done|]. intros rs A ns s' Hr Hok.
  destruct Hp as [Hapi Hcls _ Hun [Hsz Hsz8] Hst].
  eapply (active_count_exact information c api cls a sz auto); try eassumption. intros i Hi. by exists rs, A, i.
Qed.

(** C30. Iterating over a class.  From any identifier of the class, as long as
    it has fewer than 65535 objects, [_Objects_Get_next] terminates without
    changing the state.  It returns the object in use with the lowest index
    that is not below that of the identifier, and the identifier that follows
    it; when there is none, it returns null and the final identifier. *)
Theorem objects_get_next x : information <> NULL -> 0 <= x < 65536 ->
  let mkid y := _Objects_Build_id api cls 1 y in
  let first := if x =? 0 then 1 else x in
  wp (session information c api cls mx sz nl ops mret)
    (fun r s' => match r with
     | None => auto = false
     | Some rs => exists A i, spec_run (full api cls a auto) ∅ ops rs A /\
         infos s' !! information = Some i /\
         (maximum i < OBJECTS_ID_FINAL_INDEX ->
          wp (_Objects_Get_next (mkid x) information true) (fun '(p, next) s'' => s'' = s' /\
            ((exists y, first <= y < 65535 /\ is_Some (A !! mkid y) /\ lookup_ok A s' (mkid y) p /\
               next = Some (mkid (y + 1)) /\ forall y', first <= y' < y -> A !! mkid y' = None) \/
             (p = NULL /\ next = Some OBJECTS_ID_FINAL /\
              forall y, first <= y < 65536 -> A !! mkid y = None))) s')
     end) s.
Proof using All.
  intros Hn0 Hx mkid first. pose proof class_params_allocation. apply session_spec; [done|].
  intros rs A ns s' Hr Hok. apply wp_ret. destruct Hp as [Hapi Hcls _ _ [Hsz Hsz8] Hst]. pose proof Hok as (i & HI & _).
  exists A, i. split_and!; [exact Hr|apply HI|]. intros Hm.
  eapply get_next_spec; try eassumption. apply HI.
Qed.
End client.
End objects.

(** The limits on the allocation size are necessary.  In a class of one
    object per allocation the test [maximum > minimum_index] fails for the
    first extension, so that the tables of the first block, with its open
    object at address 200, are not copied: the entries of the new tables keep
    the contents that the fresh memory had, here 7. *)
Lemma extend_loses_first_block {S : Type} {HM : HasMem S} {WS : Workspace S} (s : Objects.state (S := S)) :
  let i := {| the_api := 2; the_class := 3; minimum_id := _Objects_Build_id 2 3 1 1;
              maximum_id := _Objects_Build_id 2 3 1 1; maximum := 1; auto_extend := true;
              allocation_size := 1; size := 24; local_table := [NULL; 200]; Inactive := 96; inactive := 0;
              inactive_per_block := [0]; object_blocks := 300; object_blocks_table := [200];
              name_length := 4 |} in
  fill_tables (fun _ => 7) i 400 16 8 1 1 2 3 2 s = Some ([7; NULL], [7; 0], [NULL; 7; NULL], s).
Proof. reflexivity. Qed.

(** * A class in a small workspace *)

Section sample.
Import Heap HeapInv HeapAlloc.

(** The chain control of the class is at address 96. *)
Definition sample_words (m : mem) : mem := <[96 := 0]> (<[104 := 0]> (<[112 := 0]> m)).
Definition sample_heap : Heap.state := set_mem (sample_words (hmem HeapCorrect.sample_state)) HeapCorrect.sample_state.
Lemma sample_params : ctl_params 512 (ctl HeapCorrect.sample_state).
Proof. apply HeapCorrect.sample_inv. Qed.

#[local] Instance sample_workspace : Workspace Heap.state :=
  heap_workspace 512 (ctl HeapCorrect.sample_state) sample_params.

Lemma sample_static k : k ∈ chain_words 96 [] -> static k.
Proof.
  destruct HeapCorrect.sample_initialized as (_ & _ & Hb & _). unfold chain_words. cbn.
  intros Hk. set_unfold in Hk. unfold heap_static, outside, SIZE_AND_FLAG, NEXT, PREV. split; [left|]; lia.
Qed.

Lemma sample_live : ws_live sample_heap [].
Proof.
  apply (ws_write HeapCorrect.sample_state [] [96; 104; 112] (sample_words (hmem HeapCorrect.sample_state))).
  - destruct HeapCorrect.sample_inv as (HP & Hlay & Hst). exists (hmem HeapCorrect.sample_state), (stats (ctl HeapCorrect.sample_state)),
      [Blk 2032 false], [first_block (ctl HeapCorrect.sample_state)].
    split_and!; [apply HeapCorrect.state_eta|done|done| |by constructor]. split; [done|]. exists []. split; constructor.
  - unfold sample_words. do 3 (apply changes_insert; [set_solver|]). apply changes_refl.
  - intros k Hk. right. apply sample_static. unfold chain_words. cbn. set_solver.
Qed.

Definition sample_objects : Objects.state (S := Heap.state) :=
  {| ws := sample_heap; objs := ∅; infos := ∅; information_table := ∅ |}.

Lemma sample_class mx : _Objects_Maximum_per_allocation mx = 2 -> class_params 96 2 3 mx 24.
Proof. intros E. split; try lia; [done|]. exact sample_static. Qed.

Lemma sample_mapped k : k ∈ chain_words 96 [] -> is_Some (get_mem sample_objects !! k).
Proof.
  unfold chain_words. cbn [app mbind list_bind]. intros Hk.
  change (get_mem sample_objects) with (sample_words (hmem HeapCorrect.sample_state)). unfold sample_words.
  set_unfold in Hk. destruct Hk as [->|[->|[->|[]]]]; cbn; repeat (rewrite lookup_insert; case_decide; [by eexists|]); done.
Qed.

(** A client that creates one object and deletes with an identifier that was
    never valid. *)
Definition sample_ops : list op := [op_create 0x54415331; op_delete (_Objects_Build_id 2 3 1 7)].

Lemma sample_ops_valid : Forall op_valid sample_ops.
Proof. repeat constructor. cbn. vm_compute. discriminate. Qed.

Lemma sample_unlimited : class_params 96 2 3 0x80000002 24.
Proof. apply sample_class. reflexivity. Qed.

Lemma objects_trace_refines_witness :
  wp (session (fun _ => 0) 40 96 2 3 0x80000002 24 4 sample_ops mret) (fun r _ => r <> None) sample_objects.
Proof.
  eapply wp_mono.
  - apply (objects_trace_refines (fun _ => 0) 40 96 2 3 0x80000002 24 4 [] sample_objects sample_ops
      sample_unlimited sample_live sample_mapped sample_ops_valid).
  - intros [rs|] s'; [discriminate|]. intros E. discriminate E.
Defined.

Lemma objects_active_count_witness :
  wp (session (fun _ => 0) 40 96 2 3 0x80000002 24 4 sample_ops (fun _ => _Objects_Active_count 40))
    (fun r _ => exists n, r = Some n /\ 0 <= n) sample_objects.
Proof.
  eapply wp_mono.
  - apply (objects_active_count (fun _ => 0) 40 96 2 3 0x80000002 24 4 [] sample_objects sample_ops
      sample_unlimited sample_live sample_mapped sample_ops_valid).
  - intros [n|] s'; [|intros E; discriminate E]. intros (rs & A & i & _ & _ & En).
    exists n. split; [done|]. change (_Objects_Maximum_per_allocation 0x80000002) with 2 in En. lia.
Defined.

Lemma objects_get_next_witness :
  wp (session (fun _ => 0) 40 96 2 3 0x80000002 24 4 sample_ops mret)
    (fun r s' => exists i, r <> None /\ infos s' !! 40 = Some i /\
      (maximum i < OBJECTS_ID_FINAL_INDEX ->
       wp (_Objects_Get_next (_Objects_Build_id 2 3 1 0) 40 true)
         (fun '(_, next) s'' => s'' = s' /\ next <> None) s'))
    sample_objects.
Proof.
  eapply wp_mono.
  - apply (objects_get_next (fun _ => 0) 40 96 2 3 0x80000002 24 4 [] sample_objects sample_ops
      sample_unlimited sample_live sample_mapped sample_ops_valid 0); [discriminate|lia].
  - intros [rs|] s'; [|intros E; discriminate E]. intros (A & i & _ & Hi & Hn).
    exists i. split; [discriminate|]. split; [exact Hi|]. intros Hm. eapply wp_mono; [exact (Hn Hm)|].
    intros [p next] s'' [-> [(y & Hy & _ & _ & -> & _)|(_ & -> & _)]]; by split.
Defined.
End sample.

End ObjectsCorrect.
