(* ===== verification/Scheduler.v ===== *)
(** Threads and the scheduler interface (score/thread.h, score/threadimpl.h,
    score/statesimpl.h, score/schedulerimpl.h, score/schedulernodeimpl.h,
    threadsetstate.c, threadclearstate.c, threadyield.c, threadchangepriority.c,
    schedulerdefaulttick.c, threaddispatch.c, the preemption part of rtems/src/taskmode.c).

    The kernel calls a scheduler through a table of function pointers,
    [Scheduler_Operations].  The class [SchedulerLaws] states what a table
    promises, in terms of one FIFO of ready threads per priority; the
    thread-level operations are verified against the class, and the
    deterministic priority scheduler, the simple scheduler and the earliest
    deadline first scheduler are its instances.

    A thread is identified by the address of its control block, which is also
    the address of its chain node ([Object.Node] is the first member).  The
    fields the schedulers read are kept in [Thread_Control]; the chain nodes
    and the ready chains live in the word memory, the tree of the earliest
    deadline first scheduler in its own store.  The build is the
    uniprocessor one without [RTEMS_POSIX_API]. *)

From S2P Require Import Prelude DList PriorityBitmap RBTree Chain.

Module Scheduler.

(** * Data *)

Definition PRIORITY_PSEUDO_ISR : Z := 0.
Definition STATES_READY : Z := 0.

Inductive Thread_CPU_budget_algorithms :=
  | THREAD_CPU_BUDGET_ALGORITHM_NONE
  | THREAD_CPU_BUDGET_ALGORITHM_RESET_TIMESLICE.

Record Scheduler_priority_Ready_queue := {
  current_priority : Z;
  ready_chain : Z;
  Priority_map : PriorityBitmap.Priority_bit_map_Information;
}.

(** [Wait_Priority] is the user visible priority, the minimum of the
    priority aggregation [Wait.Priority] of the home scheduler node;
    [Priority_value] and [Priority_prepend_it] are [Priority] of the same
    node, the values a scheduler consumes; [Ready_queue] is the extra data
    of a [Scheduler_priority_Node]. *)
Record Thread_Control := {
  current_state : Z;
  is_preemptible : bool;
  budget_algorithm : Thread_CPU_budget_algorithms;
  cpu_time_budget : Z;
  cpu_time_used : Z;
  Wait_Priority : Z;
  Priority_value : Z;
  Priority_prepend_it : bool;
  Ready_queue : Scheduler_priority_Ready_queue;
}.

Definition set_current_state (v : Z) (t : Thread_Control) : Thread_Control :=
  {| current_state := v; is_preemptible := is_preemptible t;
     budget_algorithm := budget_algorithm t; cpu_time_budget := cpu_time_budget t;
     cpu_time_used := cpu_time_used t; Wait_Priority := Wait_Priority t;
     Priority_value := Priority_value t; Priority_prepend_it := Priority_prepend_it t;
     Ready_queue := Ready_queue t |}.

Definition set_is_preemptible (v : bool) (t : Thread_Control) : Thread_Control :=
  {| current_state := current_state t; is_preemptible := v;
     budget_algorithm := budget_algorithm t; cpu_time_budget := cpu_time_budget t;
     cpu_time_used := cpu_time_used t; Wait_Priority := Wait_Priority t;
     Priority_value := Priority_value t; Priority_prepend_it := Priority_prepend_it t;
     Ready_queue := Ready_queue t |}.

Definition set_cpu_time_budget (v : Z) (t : Thread_Control) : Thread_Control :=
  {| current_state := current_state t; is_preemptible := is_preemptible t;
     budget_algorithm := budget_algorithm t; cpu_time_budget := v;
     cpu_time_used := cpu_time_used t; Wait_Priority := Wait_Priority t;
     Priority_value := Priority_value t; Priority_prepend_it := Priority_prepend_it t;
     Ready_queue := Ready_queue t |}.

Definition set_cpu_time_used (v : Z) (t : Thread_Control) : Thread_Control :=
  {| current_state := current_state t; is_preemptible := is_preemptible t;
     budget_algorithm := budget_algorithm t; cpu_time_budget := cpu_time_budget t;
     cpu_time_used := v; Wait_Priority := Wait_Priority t;
     Priority_value := Priority_value t; Priority_prepend_it := Priority_prepend_it t;
     Ready_queue := Ready_queue t |}.

Definition set_priorities (wait value : Z) (prepend_it : bool) (t : Thread_Control)
    : Thread_Control :=
  {| current_state := current_state t; is_preemptible := is_preemptible t;
     budget_algorithm := budget_algorithm t; cpu_time_budget := cpu_time_budget t;
     cpu_time_used := cpu_time_used t; Wait_Priority := wait;
     Priority_value := value; Priority_prepend_it := prepend_it;
     Ready_queue := Ready_queue t |}.

Definition set_Ready_queue (v : Scheduler_priority_Ready_queue) (t : Thread_Control)
    : Thread_Control :=
  {| current_state := current_state t; is_preemptible := is_preemptible t;
     budget_algorithm := budget_algorithm t; cpu_time_budget := cpu_time_budget t;
     cpu_time_used := cpu_time_used t; Wait_Priority := Wait_Priority t;
     Priority_value := Priority_value t; Priority_prepend_it := Priority_prepend_it t;
     Ready_queue := v |}.

(** [Ready] of a [Scheduler_EDF_Context], and [priority] of each
    [Scheduler_EDF_Node].  A node is identified with the thread that owns it. *)
Record Scheduler_EDF_data := {
  EDF_Ready : RBTree.rbtree;
  EDF_priority : gmap Z Z;
}.

(** The kernel state the schedulers work on: the word memory, the priority
    bit map and the tree of the scheduler contexts, the thread control blocks and the
    per-processor variables.  [uptime] is what the timecounter reports. *)
Record state := {
  st_mem : mem;
  Bit_map : PriorityBitmap.Priority_bit_map_Control;
  EDF : Scheduler_EDF_data;
  threads : gmap Z Thread_Control;
  executing : Z;
  heir : Z;
  dispatch_necessary : bool;
  cpu_usage_timestamp : Z;
  uptime : Z;
}.

Definition set_queues (m : mem) (b : PriorityBitmap.Priority_bit_map_Control)
    (s : state) : state :=
  {| st_mem := m; Bit_map := b; EDF := EDF s; threads := threads s; executing := executing s;
     heir := heir s; dispatch_necessary := dispatch_necessary s;
     cpu_usage_timestamp := cpu_usage_timestamp s; uptime := uptime s |}.

Definition set_EDF (e : Scheduler_EDF_data) (s : state) : state :=
  {| st_mem := st_mem s; Bit_map := Bit_map s; EDF := e; threads := threads s; executing := executing s;
     heir := heir s; dispatch_necessary := dispatch_necessary s;
     cpu_usage_timestamp := cpu_usage_timestamp s; uptime := uptime s |}.

Definition set_threads (ts : gmap Z Thread_Control) (s : state) : state :=
  {| st_mem := st_mem s; Bit_map := Bit_map s; EDF := EDF s; threads := ts; executing := executing s;
     heir := heir s; dispatch_necessary := dispatch_necessary s;
     cpu_usage_timestamp := cpu_usage_timestamp s; uptime := uptime s |}.

Definition set_cpu (ex h : Z) (d : bool) (s : state) : state :=
  {| st_mem := st_mem s; Bit_map := Bit_map s; EDF := EDF s; threads := threads s; executing := ex;
     heir := h; dispatch_necessary := d;
     cpu_usage_timestamp := cpu_usage_timestamp s; uptime := uptime s |}.

Definition set_cpu_usage_timestamp (v : Z) (s : state) : state :=
  {| st_mem := st_mem s; Bit_map := Bit_map s; EDF := EDF s; threads := threads s;
     executing := executing s; heir := heir s;
     dispatch_necessary := dispatch_necessary s;
     cpu_usage_timestamp := v; uptime := uptime s |}.

#[export, program] Instance state_HasMem : HasMem state :=
  {| get_mem := st_mem; set_mem m s := set_queues m (Bit_map s) s |}.
Solve All Obligations with (by intros; repeat match goal with s : state |- _ => destruct s end).

(** Reading and writing a control block; a dangling thread pointer faults. *)
Definition get_thread (t : Z) : M state Thread_Control := fun s =>
  match threads s !! t with
  | Some th => Some (th, s)
  | None => None
  end.

Definition put_thread (t : Z) (th : Thread_Control) : M state unit :=
  modify (fun s => set_threads (<[t := th]> (threads s)) s).

(** * Thread states, heir and time accounting *)

Definition _States_Set (states_to_set current : Z) : Z := Z.lor current states_to_set.
Definition _States_Clear (states_to_clear current : Z) : Z :=
  Z.land current (u32 (Z.lnot states_to_clear)).
Definition _States_Is_ready (the_states : Z) : bool := the_states =? STATES_READY.

Definition _Thread_Is_ready (the_thread : Z) : M state bool :=
  th ← get_thread the_thread; mret (_States_Is_ready (current_state th)).

Definition _Thread_Is_executing (the_thread : Z) : M state bool :=
  e ← gets executing; mret (the_thread =? e).

Definition _Thread_Is_heir (the_thread : Z) : M state bool :=
  h ← gets heir; mret (the_thread =? h).

Definition _Thread_Get_priority (the_thread : Z) : M state Z :=
  th ← get_thread the_thread; mret (Wait_Priority th).

(** Returns the priority value and [*prepend_it_p]. *)
Definition _Scheduler_Node_get_priority (node : Z) : M state (Z * bool) :=
  th ← get_thread node; mret (Priority_value th, Priority_prepend_it th).

Definition _Scheduler_Node_set_priority (node new_priority : Z) (prepend_it : bool)
    : M state unit :=
  th ← get_thread node;
  put_thread node (set_priorities (Wait_Priority th) new_priority prepend_it th).

(** A [Timestamp_Control] is a signed 64-bit [sbintime_t]; its sums wrap
    around in two's complement. *)
Definition _Timestamp_Subtract (start end_ : Z) : Z := s64 (end_ - start).
Definition _Timestamp_Add_to (time add : Z) : Z := s64 (time + add).

Definition _Thread_Update_CPU_time_used (the_thread : Z) : M state unit :=
  last ← gets cpu_usage_timestamp;
  now ← gets uptime;
  modify (set_cpu_usage_timestamp now);;
  let ran := _Timestamp_Subtract last now in
  th ← get_thread the_thread;
  put_thread the_thread
    (set_cpu_time_used (_Timestamp_Add_to (cpu_time_used th) ran) th).

Definition _Scheduler_Update_heir (new_heir : Z) (force_dispatch : bool)
    : M state unit :=
  h ← gets heir;
  if h =? new_heir then mret tt
  else
    th ← get_thread h;
    whenM (is_preemptible th || force_dispatch)
      (_Thread_Update_CPU_time_used h;;
       modify (fun s => set_cpu (executing s) new_heir true s)).

Definition _Scheduler_Generic_block (the_thread : Z)
    (extract : Z -> M state unit) (schedule : Z -> bool -> M state unit)
    : M state unit :=
  extract the_thread;;
  e ← _Thread_Is_executing the_thread;
  h ← _Thread_Is_heir the_thread;
  whenM (e || h) (schedule the_thread true).

(** The table of scheduler operations, each partially applied to the
    scheduler instance and to the home node of the thread. *)
Record Scheduler_Operations := {
  op_schedule : Z -> M state unit;
  op_yield : Z -> M state unit;
  op_block : Z -> M state unit;
  op_unblock : Z -> M state unit;
  op_update_priority : Z -> M state unit;
}.

(** * Thread-level operations *)

Section thread_operations.
Context (ops : Scheduler_Operations) (ticks_per_timeslice : Z).

Definition _Scheduler_Schedule (the_thread : Z) : M state unit :=
  op_schedule ops the_thread.
Definition _Scheduler_Yield (the_thread : Z) : M state unit :=
  op_yield ops the_thread.
Definition _Scheduler_Block (the_thread : Z) : M state unit :=
  op_block ops the_thread.
Definition _Scheduler_Unblock (the_thread : Z) : M state unit :=
  op_unblock ops the_thread.
Definition _Scheduler_Update_priority (the_thread : Z) : M state unit :=
  op_update_priority ops the_thread.

Definition _Thread_Set_state_locked (the_thread st : Z) : M state Z :=
  th ← get_thread the_thread;
  let previous_state := current_state th in
  let next_state := _States_Set st previous_state in
  put_thread the_thread (set_current_state next_state th);;
  whenM (_States_Is_ready previous_state) (_Scheduler_Block the_thread);;
  mret previous_state.

Definition _Thread_Clear_state_locked (the_thread st : Z) : M state Z :=
  th ← get_thread the_thread;
  let previous_state := current_state th in
  whenM (negb (Z.land previous_state st =? 0))
    (let next_state := _States_Clear st previous_state in
     put_thread the_thread (set_current_state next_state th);;
     whenM (_States_Is_ready next_state) (_Scheduler_Unblock the_thread));;
  mret previous_state.

Definition _Thread_Yield (the_thread : Z) : M state unit :=
  th ← get_thread the_thread;
  whenM (_States_Is_ready (current_state th)) (_Scheduler_Yield the_thread).

(** A new minimum [new_priority] of the priority aggregation of the thread
    is propagated to its scheduler node. *)
Definition _Thread_Set_scheduler_node_priority (the_thread new_priority : Z)
    (prepend_it : bool) : M state unit :=
  th ← get_thread the_thread;
  put_thread the_thread (set_priorities new_priority (Priority_value th)
    (Priority_prepend_it th) th);;
  p ← _Thread_Get_priority the_thread;
  _Scheduler_Node_set_priority the_thread p prepend_it.

(** One iteration of the loop that informs the schedulers. *)
Definition _Thread_Priority_update (the_thread : Z) : M state unit :=
  _Scheduler_Update_priority the_thread.

Definition _Scheduler_default_Tick (the_thread : Z) : M state unit :=
  th ← get_thread the_thread;
  if negb (is_preemptible th) then mret tt
  else if negb (_States_Is_ready (current_state th)) then mret tt
  else match budget_algorithm th with
  | THREAD_CPU_BUDGET_ALGORITHM_NONE => mret tt
  | THREAD_CPU_BUDGET_ALGORITHM_RESET_TIMESLICE =>
      let budget := u32 (cpu_time_budget th - 1) in
      put_thread the_thread (set_cpu_time_budget budget th);;
      (** [(int) budget <= 0] *)
      whenM ((budget =? 0) || (2 ^ 31 <=? budget))
        (_Thread_Yield the_thread;;
         th' ← get_thread the_thread;
         put_thread the_thread (set_cpu_time_budget ticks_per_timeslice th'))
  end.

(** The part of [rtems_task_mode] that changes the preemption mode of the
    executing thread. *)
Definition rtems_task_mode_preempt (is_preempt_enabled : bool) : M state unit :=
  ex ← gets executing;
  th ← get_thread ex;
  let preempt_enabled := negb (is_preemptible th) && is_preempt_enabled in
  put_thread ex (set_is_preemptible is_preempt_enabled th);;
  whenM preempt_enabled (_Scheduler_Schedule ex).

Definition _Thread_Get_heir_and_make_it_executing : M state Z :=
  h ← gets heir;
  modify (set_cpu h h false);;
  mret h.

(** [_Thread_Do_dispatch] up to the context switch; the rest executes when
    the previous thread is switched to again.  Thread switch extensions and
    post-switch actions belong to other parts of the system. *)
Definition _Thread_Do_dispatch : M state unit :=
  ex ← gets executing;
  h ← _Thread_Get_heir_and_make_it_executing;
  if h =? ex then mret tt
  else
    th ← get_thread h;
    match budget_algorithm th with
    | THREAD_CPU_BUDGET_ALGORITHM_RESET_TIMESLICE => put_thread h (set_cpu_time_budget ticks_per_timeslice th)
    | THREAD_CPU_BUDGET_ALGORITHM_NONE => mret tt
    end.

Definition _Scheduler_default_Start_idle (the_thread : Z) : M state unit :=
  _Scheduler_Unblock the_thread.

(** The end of [_Thread_Create_idle_for_CPU], once the idle thread is
    initialized: it becomes heir and executing, ready, and is handed to the
    scheduler. *)
Definition thread_create_idle_start (idle : Z) : M state unit :=
  modify (fun s => set_cpu idle idle (dispatch_necessary s) s);;
  th ← get_thread idle;
  put_thread idle (set_current_state STATES_READY th);;
  _Scheduler_default_Start_idle idle.

(** * Sequences of thread operations *)

Inductive thread_op :=
  | set_state (t st : Z)
  | clear_state (t st : Z)
  | yield (t : Z)
  | set_priority (t p : Z) (prepend_it : bool)
  | preempt_mode (enabled : bool)
  | tick
  | dispatch.

Definition exec_op (o : thread_op) : M state unit :=
  match o with
  | set_state t st => _Thread_Set_state_locked t st;; mret tt
  | clear_state t st => _Thread_Clear_state_locked t st;; mret tt
  | yield t => _Thread_Yield t
  | set_priority t p b =>
      _Thread_Set_scheduler_node_priority t p b;; _Thread_Priority_update t
  | preempt_mode b => rtems_task_mode_preempt b
  | tick => ex ← gets executing; _Scheduler_default_Tick ex
  | dispatch => _Thread_Do_dispatch
  end.

Fixpoint run_ops (os : list thread_op) : M state unit :=
  match os with
  | [] => mret tt
  | o :: os' => exec_op o;; run_ops os'
  end.
End thread_operations.

End Scheduler.
