(* ===== verification/SchedulerLaws.v ===== *)
(** What the kernel expects of a scheduler, and the thread-level operations
    proved against it.

    The abstract ready structure is one FIFO of threads per priority.
    [SchedulerLaws] is the interface: a representation predicate and a law
    for each entry of the operations table.  Every sequence of thread-level
    operations then keeps the heir correct, for any scheduler that satisfies
    the laws. *)

From S2P Require Import Prelude DList PriorityBitmap RBTree Chain Scheduler.

Module SchedulerLaws.
Import Scheduler.

(** * Ready queues *)

(** The FIFO of ready threads of each priority. *)
Definition queues : Type := Z -> list Z.

Definition q_set (p : Z) (l : list Z) (q : queues) : queues :=
  fun p' => if decide (p = p') then l else q p'.
Definition q_append (t p : Z) (q : queues) : queues := q_set p (q p ++ [t]) q.
Definition q_prepend (t p : Z) (q : queues) : queues := q_set p (t :: q p) q.
Definition q_remove (t p : Z) (q : queues) : queues :=
  q_set p (filter (.≠ t) (q p)) q.

(** The queues after thread [t] moved from priority [p] to [p']. *)
Definition q_move (t p p' : Z) (prepend_it : bool) (q : queues) : queues :=
  (if prepend_it then q_prepend t p' else q_append t p') (q_remove t p q).

(** [t] is the first thread of the most urgent non-empty FIFO. *)
Definition most_urgent (q : queues) (t : Z) : Prop :=
  exists p, head (q p) = Some t /\ forall p', p' < p -> q p' = [].

(** No thread is more urgent than [t] of priority [p], and [t] is the first
    of its FIFO.  At the pseudo interrupt priority, whose threads preempt
    even a thread that disabled preemption, only the former is promised. *)
Definition urgent (q : queues) (t p : Z) : Prop :=
  (forall p', p' < p -> q p' = []) /\
  (p <> PRIORITY_PSEUDO_ISR -> head (q p) = Some t).

Lemma elem_q_append t p q x p' :
  x ∈ q_append t p q p' <-> x ∈ q p' \/ (x = t /\ p' = p).
Proof. unfold q_append. unfold q_set. case_decide; subst; set_solver. Qed.

Lemma elem_q_prepend t p q x p' :
  x ∈ q_prepend t p q p' <-> x ∈ q p' \/ (x = t /\ p' = p).
Proof. unfold q_prepend. unfold q_set. case_decide; subst; set_solver. Qed.

Lemma elem_q_remove t p q x p' :
  x ∈ q_remove t p q p' <-> x ∈ q p' /\ ~ (x = t /\ p' = p).
Proof.
  unfold q_remove. unfold q_set. case_decide; subst; [|naive_solver].
  rewrite list_elem_of_filter. naive_solver.
Qed.

Lemma elem_q_move t p p' b q x r :
  x ∈ q_move t p p' b q r <-> (x ∈ q r /\ ~ (x = t /\ r = p)) \/ (x = t /\ r = p').
Proof.
  unfold q_move. destruct b; [rewrite elem_q_prepend|rewrite elem_q_append];
    by rewrite elem_q_remove.
Qed.

Lemma filter_head (t h : Z) (l : list Z) :
  h <> t -> head l = Some h -> head (filter (.≠ t) l) = Some h.
Proof.
  destruct l as [|x l]; [done|]. intros Hne Hh. cbn in Hh. simplify_eq.
  by rewrite filter_cons_True.
Qed.

Lemma urgent_remove q t p h ph :
  h <> t -> urgent q h ph -> urgent (q_remove t p q) h ph.
Proof.
  intros Hne [H1 H2]. unfold q_remove. split.
  - intros p' Hp'. unfold q_set. case_decide; subst; by rewrite H1.
  - intros Hp. unfold q_set. case_decide; subst; [apply filter_head|]; auto.
Qed.

Lemma urgent_append q t p h ph :
  ph <= p -> urgent q h ph -> urgent (q_append t p q) h ph.
Proof.
  intros Hle [H1 H2]. unfold q_append. split.
  - intros p' Hp'. unfold q_set. case_decide; [lia|auto].
  - intros Hp. unfold q_set. case_decide; subst; [|auto].
    specialize (H2 Hp). by destruct (q ph).
Qed.

Lemma urgent_append_new q t p :
  (forall p', p' <= p -> q p' = []) -> urgent (q_append t p q) t p.
Proof.
  intros H1. unfold q_append. split.
  - intros p' Hp'. unfold q_set. case_decide; [lia|]. apply H1. lia.
  - intros _. unfold q_set; rewrite decide_True by done. by rewrite H1.
Qed.

(** * The interface *)

(** What a scheduler leaves alone: everything of a thread but its CPU time
    and its ready queue data. *)
Definition core (t : Thread_Control) :=
  (current_state t, is_preemptible t, budget_algorithm t, cpu_time_budget t,
   Wait_Priority t, Priority_value t, Priority_prepend_it t).

(** Every FIFO holds distinct known threads of its priority. *)
Definition queued (s : state) (q : queues) : Prop :=
  (forall p, NoDup (q p)) /\
  (forall p t, t ∈ q p -> 0 <= p /\
     exists th, threads s !! t = Some th /\ Wait_Priority th = p).

(** The result of a scheduler operation: the queues are [q'], the heir is
    one that [H] allows, a dispatch is requested if the heir changed. *)
Record step_ok (repr : state -> queues -> Prop) (s : state) (q' : queues)
    (H : Z -> Prop) (s' : state) : Prop := {
  so_repr : repr s' q';
  so_core : core <$> threads s' = core <$> threads s;
  so_executing : executing s' = executing s;
  so_heir : H (heir s');
  so_dispatch : dispatch_necessary s' =
    dispatch_necessary s || negb (heir s =? heir s');
}.

(** A scheduling decision that respects a heir which is not preemptible. *)
Definition elected (s : state) (h : Thread_Control) (q : queues) (x : Z) : Prop :=
  if is_preemptible h then most_urgent q x else x = heir s.

(** A scheduler promises this for the priorities it supports. *)
Class SchedulerLaws (ops : Scheduler_Operations) (priorities : Z -> Prop) := {
  repr : state -> queues -> Prop;

  law_queued s q : repr s q -> queued s q;

  law_ext s s' q : repr s q ->
    st_mem s' = st_mem s -> Bit_map s' = Bit_map s -> EDF s' = EDF s ->
    Ready_queue <$> threads s' = Ready_queue <$> threads s ->
    (forall p t, t ∈ q p ->
      Wait_Priority <$> threads s' !! t = Wait_Priority <$> threads s !! t) ->
    repr s' q;

  law_schedule s q h t x p : repr s q -> threads s !! heir s = Some h -> x ∈ q p ->
    wp (op_schedule ops t) (fun _ => step_ok repr s q (elected s h q)) s;

  law_yield s q h t p : repr s q -> threads s !! heir s = Some h -> t ∈ q p ->
    let q' := q_move t p p false q in
    wp (op_yield ops t) (fun _ => step_ok repr s q'
      (fun x => most_urgent q' x \/ (is_preemptible h = false /\ x = heir s))) s;

  law_block s q h t p x p' : repr s q -> threads s !! heir s = Some h ->
    t ∈ q p -> x ∈ q p' -> x <> t ->
    let q' := q_remove t p q in
    wp (op_block ops t) (fun _ => step_ok repr s q'
      (fun y => if bool_decide (t = executing s \/ t = heir s)
                then most_urgent q' y else y = heir s)) s;

  law_unblock s q h t th p : repr s q -> threads s !! heir s = Some h ->
    threads s !! t = Some th -> Wait_Priority th = p -> Priority_value th = p ->
    priorities p -> (forall p', t ∉ q p') ->
    wp (op_unblock ops t) (fun _ => step_ok repr s (q_append t p q)
      (fun y => y = if (p <? Wait_Priority h) &&
                       (is_preemptible h || (p =? PRIORITY_PSEUDO_ISR))
                    then t else heir s)) s;

  law_update s q h t th p p' b : repr s q -> threads s !! heir s = Some h ->
    threads s !! t = Some th -> current_state th = STATES_READY -> t ∈ q p ->
    priorities p' ->
    let s1 := set_threads (<[t := set_priorities p' p' b th]> (threads s)) s in
    wp (op_update_priority ops t) (fun _ s' =>
      (p' = p /\ s' = s1) \/
      step_ok repr s1 (q_move t p p' b q) (elected s h (q_move t p p' b q)) s') s1;

  law_update_blocked s t th : threads s !! t = Some th ->
    current_state th <> STATES_READY ->
    wp (op_update_priority ops t) (fun _ s' => s' = s) s;
}.

(** * Electing a heir *)

Lemma wp_get_thread t th (Q : Thread_Control -> state -> Prop) s :
  threads s !! t = Some th -> Q th s -> wp (get_thread t) Q s.
Proof. unfold wp, get_thread. by intros ->. Qed.

(** [s'] is [s] with heir [x]; apart from the heir only times and the
    dispatch request changed. *)
Record heir_set (s s' : state) (x : Z) : Prop := {
  hs_mem : st_mem s' = st_mem s;
  hs_bits : Bit_map s' = Bit_map s;
  hs_edf : EDF s' = EDF s;
  hs_queue : Ready_queue <$> threads s' = Ready_queue <$> threads s;
  hs_core : core <$> threads s' = core <$> threads s;
  hs_executing : executing s' = executing s;
  hs_heir : heir s' = x;
  hs_dispatch : dispatch_necessary s' = dispatch_necessary s || negb (heir s =? x);
}.

Lemma heir_set_same s : heir_set s s (heir s).
Proof. split; try done. by rewrite Z.eqb_refl, orb_false_r. Qed.

Lemma update_heir_spec s n f h : threads s !! heir s = Some h ->
  wp (_Scheduler_Update_heir n f)
     (fun _ s' => heir_set s s' (if is_preemptible h || f then n else heir s)) s.
Proof.
  intros Hh. apply wp_bind, wp_gets.
  destruct (Z.eqb_spec (heir s) n) as [<-|Hne].
  { apply wp_ret. destruct (_ || _); apply heir_set_same. }
  apply wp_bind. eapply wp_get_thread; [done|]. apply wp_whenM.
  - intros Hc. rewrite Hc. unfold _Thread_Update_CPU_time_used. apply wp_bind. wp_steps.
    eapply wp_get_thread; [exact Hh|]. cbv beta. unfold put_thread. wp_steps.
    split; cbn; try done.
    + rewrite fmap_insert. apply insert_id. by rewrite lookup_fmap, Hh.
    + rewrite fmap_insert. apply insert_id. by rewrite lookup_fmap, Hh.
    + apply Z.eqb_neq in Hne as ->. by rewrite orb_true_r.
  - intros Hc. rewrite Hc. apply heir_set_same.
Qed.

Lemma heir_set_step repr s s1 s' q x (H : Z -> Prop) :
  heir_set s1 s' x -> repr s' q -> H x ->
  core <$> threads s1 = core <$> threads s -> executing s1 = executing s ->
  heir s1 = heir s -> dispatch_necessary s1 = dispatch_necessary s ->
  step_ok repr s q H s'.
Proof.
  intros [] ? ? ? ? ? ?. split; try congruence.
Qed.

(** The priorities [0 .. max]. *)
Definition up_to (max p : Z) : Prop := 0 <= p <= max.

(** * Queues up to pointwise equality *)

Lemma most_urgent_eq q q' t : (forall p, q p = q' p) -> most_urgent q t -> most_urgent q' t.
Proof.
  intros E (p & H1 & H2). exists p. rewrite <- E. split; [done|]. intros p' ?.
  rewrite <- E. auto.
Qed.

Lemma q_move_same t p q r :
  q_move t p p false q r = q_set p (filter (.≠ t) (q p) ++ [t]) q r.
Proof.
  unfold q_move, q_append, q_remove, q_set. destruct (decide (p = r)); [|done].
  by destruct (decide (p = p)).
Qed.

(** Every queued thread has the priority of its FIFO. *)
Definition waits (s : state) (q : queues) : Prop :=
  forall p t, t ∈ q p -> Wait_Priority <$> threads s !! t = Some p.

Lemma waits_core s s' q : core <$> threads s' = core <$> threads s -> waits s q -> waits s' q.
Proof.
  intros E H p t Ht. rewrite <- (H p t Ht). apply (f_equal (.!! t)) in E.
  rewrite !lookup_fmap in E. destruct (threads s !! t), (threads s' !! t); cbn in *;
    try discriminate E; try reflexivity.
  injection E. intros. congruence.
Qed.

Lemma waits_ext s s' q : (forall p t, t ∈ q p ->
    Wait_Priority <$> threads s' !! t = Wait_Priority <$> threads s !! t) ->
  waits s q -> waits s' q.
Proof. intros E H p t Ht. rewrite (E p t Ht). by apply H. Qed.

(** * Chain nodes of threads in memory *)

(** The chain nodes of the threads [D] are mapped, share no word, and lie
    outside the scheduler context [[lo, hi)]. *)
Definition node_layout (D : gset Z) (lo hi : Z) (m : mem) : Prop :=
  (forall t, t ∈ D -> is_Some (m !! t) /\ is_Some (m !! (t + 8)) /\
     (t + 16 <= lo \/ hi <= t)) /\
  (forall t t', t ∈ D -> t' ∈ D -> t = t' \/ t + 16 <= t' \/ t' + 16 <= t).

Lemma changes_words_mono c ns ns' m m' : (forall x, x ∈ ns -> x ∈ ns') ->
  changes (Chain.chain_words c ns) m m' -> changes (Chain.chain_words c ns') m m'.
Proof.
  intros Hns. apply changes_mono. intros k. rewrite !Chain.elem_of_chain_words. naive_solver.
Qed.

Lemma node_layout_changes D lo hi W m m' :
  changes W m m' -> node_layout D lo hi m -> node_layout D lo hi m'.
Proof. intros [_ Hc] [H1 H2]. split; [|done]. naive_solver. Qed.

Lemma node_layout_off D lo hi m c ns t : node_layout D lo hi m ->
  lo <= c -> c + 24 <= hi -> (forall x, x ∈ ns -> x ∈ D) -> t ∈ D -> t ∉ ns ->
  Chain.off_chain m c ns t.
Proof.
  intros [H1 H2] Hlo Hhi Hns Ht Hni. destruct (H1 t Ht) as (Hm1 & Hm2 & Hout).
  unfold Chain.off_chain, Chain.NODE_NEXT, Chain.NODE_PREVIOUS. rewrite Z.add_0_r.
  assert (Hsep : forall x, x ∈ ns -> t + 16 <= x \/ x + 16 <= t).
  { intros x Hx. destruct (H2 t x Ht (Hns x Hx)) as [->|?]; [done|lia]. }
  split_and!; [done|done|..].
  - intros [->|?]%elem_of_cons; [lia|done].
  - intros [?| ->%list_elem_of_singleton]%elem_of_app; [done|lia].
  - intros y [Hy| ->%list_elem_of_singleton]%elem_of_app; [|lia].
    specialize (Hsep y Hy). lia.
  - intros x [->|Hx]%elem_of_cons; [lia|]. specialize (Hsep x Hx). lia.
Qed.

(** * Ready threads in a sorted list *)

(** The user visible priority of a thread. *)
Definition wait (s : state) (t : Z) : Z :=
  default 0 (Wait_Priority <$> threads s !! t).

(** ** Sorted lists of threads *)

Section sorted_lists.
Import Chain.
Context (w : Z -> Z).
Local Abbreviation le := (fun x y => w x <= w y).
Local Abbreviation at_prio p := (filter (fun t => w t = p)).

(** Where a thread of priority [w t] goes: [b] puts it before its equals. *)
Definition goes_before (b : bool) (t x : Z) : bool :=
  if b then w t <=? w x else w t <? w x.

Lemma sorted_remove (t : Z) l : StronglySorted le l -> StronglySorted le (filter (.≠ t) l).
Proof.
  induction 1 as [|x l Hs IH Hx]; [constructor|]. rewrite filter_cons.
  case_decide; [|done]. constructor; [done|]. apply Forall_forall.
  intros y [_ Hy]%list_elem_of_filter. rewrite Forall_forall in Hx. by apply Hx.
Qed.

Lemma at_prio_none p l : (forall x, x ∈ l -> w x <> p) -> at_prio p l = [].
Proof.
  intros H. induction l as [|x l IH]; [done|]. rewrite filter_cons_False.
  - apply IH. set_solver.
  - apply H. set_solver.
Qed.

(** The position ordered insertion finds. *)
Lemma insert_position b t l : StronglySorted le l -> exists l1 l2, l = l1 ++ l2 /\
  insert_before (goes_before b t) t l = l1 ++ t :: l2 /\
  (forall x, x ∈ l1 -> w x <= w t /\ (b = true -> w x < w t)) /\
  (forall x, x ∈ l2 -> w t <= w x /\ (b = false -> w t < w x)).
Proof.
  intros Hs. destruct (insert_before_split w (goes_before b t) t l) as (l1 & l2 & -> & E & H1 & H2).
  exists l1, l2. split_and!; [done|done| |].
  - intros x Hx. specialize (H1 x Hx). unfold goes_before in H1. destruct b; bool_hyps; split; lia || done.
  - apply StronglySorted_app in Hs as (_ & _ & Hs2). destruct l2 as [|y l2]; [set_solver|].
    specialize (H2 y eq_refl). unfold goes_before in H2.
    apply StronglySorted_inv in Hs2 as [_ Hy]. rewrite Forall_forall in Hy.
    intros x [->|Hx]%elem_of_cons; [|specialize (Hy x Hx); cbn in Hy];
      destruct b; bool_hyps; split; lia || done.
Qed.

Lemma sorted_insert b t l : StronglySorted le l ->
  StronglySorted le (insert_before (goes_before b t) t l).
Proof.
  intros Hs. destruct (insert_position b t l Hs) as (l1 & l2 & -> & -> & H1 & H2).
  apply StronglySorted_app in Hs as (Hc & Hs1 & Hs2). apply StronglySorted_app. split_and!.
  - intros x y Hx [->|Hy]%elem_of_cons; [by apply H1|by apply Hc].
  - done.
  - constructor; [done|]. apply Forall_forall. intros x Hx. by apply H2.
Qed.

Lemma at_prio_insert b t l p : StronglySorted le l ->
  at_prio p (insert_before (goes_before b t) t l) =
  if decide (w t = p) then (if b then t :: at_prio p l else at_prio p l ++ [t])
  else at_prio p l.
Proof.
  intros Hs. destruct (insert_position b t l Hs) as (l1 & l2 & -> & -> & H1 & H2).
  rewrite !filter_app, filter_cons. case_decide as E; [|done]. destruct b.
  - rewrite (at_prio_none p l1); [done|]. intros x Hx. destruct (H1 x Hx) as [_ ?].
    assert (w x < w t) by auto. lia.
  - rewrite (at_prio_none p l2); [by rewrite app_nil_r|]. intros x Hx. destruct (H2 x Hx) as [_ ?].
    assert (w t < w x) by auto. lia.
Qed.

Lemma at_prio_remove (t : Z) (l : list Z) p :
  at_prio p (filter (.≠ t) l) = if decide (w t = p) then filter (.≠ t) (at_prio p l) else at_prio p l.
Proof.
  case_decide; rewrite ?list_filter_filter; apply list_filter_iff; intros x; [tauto|].
  split; [tauto|]. intros Hx. split; [done|]. by intros ->.
Qed.

Lemma insert_before_perm f t l : insert_before f t l ≡ₚ t :: l.
Proof.
  induction l as [|x l IH]; [done|]. cbn. destruct (f x); [done|]. rewrite IH. by constructor.
Qed.

Lemma at_prio_head t l : StronglySorted le (t :: l) ->
  most_urgent (fun p => at_prio p (t :: l)) t.
Proof.
  intros [_ Ht]%StronglySorted_inv. exists (w t). rewrite filter_cons_True by done. split; [done|].
  intros p Hp. apply at_prio_none. rewrite Forall_forall in Ht.
  intros x [->|Hx]%elem_of_cons; [lia|]. specialize (Ht x Hx). cbn in Ht. lia.
Qed.

(** The sorted list [ns] holds the queues [q]. *)
Definition lists (ns : list Z) (q : queues) : Prop :=
  StronglySorted le ns /\ (forall t, t ∈ ns -> 0 <= w t) /\ (forall p, q p = at_prio p ns).

Lemma lists_remove t ns q : lists ns q -> lists (filter (.≠ t) ns) (q_remove t (w t) q).
Proof.
  intros (H1 & H2 & H3). split_and!; [by apply sorted_remove| |].
  - intros x [_ Hx]%list_elem_of_filter. auto.
  - intros p. rewrite at_prio_remove. unfold q_remove, q_set. rewrite !H3.
    by case_decide; subst.
Qed.

Lemma lists_insert b t ns q : 0 <= w t -> lists ns q ->
  lists (insert_before (goes_before b t) t ns)
        ((if b then q_prepend t (w t) else q_append t (w t)) q).
Proof.
  intros Ht (H1 & H2 & H3). split_and!; [by apply sorted_insert| |].
  - intros x. rewrite insert_before_perm. intros [->|Hx]%elem_of_cons; auto.
  - intros p. rewrite at_prio_insert by done. unfold q_prepend, q_append, q_set.
    destruct b; rewrite !H3; by case_decide; subst.
Qed.

Lemma lists_elem ns q t : lists ns q -> t ∈ q (w t) <-> t ∈ ns.
Proof. intros (_ & _ & H3). rewrite H3, list_elem_of_filter. naive_solver. Qed.
End sorted_lists.

Lemma filter_agree (P Q : Z -> Prop) `{!forall x, Decision (P x), !forall x, Decision (Q x)} (l : list Z) :
  (forall x, x ∈ l -> P x <-> Q x) -> filter P l = filter Q l.
Proof.
  induction l as [|x l IH]; [done|]. intros Hl.
  assert (IH' : filter P l = filter Q l) by (apply IH; intros y Hy; apply Hl; by right).
  pose proof (Hl x (list_elem_of_here _ _)) as Hx. rewrite !filter_cons, IH'.
  repeat case_decide; naive_solver.
Qed.

(** Only the priorities of the listed threads matter. *)
Lemma lists_agree w w' ns q : (forall t, t ∈ ns -> w' t = w t) -> lists w ns q -> lists w' ns q.
Proof.
  intros E (H1 & H2 & H3). split_and!.
  - clear H2 H3. induction H1 as [|x l Hs IH Hx]; [constructor|].
    constructor; [apply IH; set_solver|]. rewrite Forall_forall in *. intros y Hy.
    rewrite !E by set_solver. by apply Hx.
  - intros t Ht. rewrite E by done. auto.
  - intros p. rewrite H3. apply filter_agree. intros x Hx. by rewrite E.
Qed.

Lemma get_priority_ok s t : t ∈ dom (threads s) ->
  _Thread_Get_priority t s = Some (wait s t, s).
Proof.
  intros [th Ht]%elem_of_dom. unfold _Thread_Get_priority, mbind, M_bind, get_thread, wait.
  by rewrite Ht.
Qed.

Lemma wp_get_priority s t (Q : Z -> state -> Prop) : t ∈ dom (threads s) ->
  Q (wait s t) s -> wp (_Thread_Get_priority t) Q s.
Proof. intros Ht HQ. unfold wp. by rewrite get_priority_ok. Qed.

Lemma wait_core s s' t : core <$> threads s' = core <$> threads s -> wait s' t = wait s t.
Proof.
  intros E. apply (f_equal (.!! t)) in E. rewrite !lookup_fmap in E. unfold wait.
  destruct (threads s !! t), (threads s' !! t); try discriminate E; [|done].
  injection E. cbn. intros. congruence.
Qed.

(** * The invariant of the thread level *)

Section threads.
Context (ops : Scheduler_Operations) (priorities : Z -> Prop).
Context `{L : !SchedulerLaws ops priorities}.
(** The idle thread never blocks. *)
Context (ticks_per_timeslice idle : Z).

(** Threads and queues agree: the ready threads are the queued ones, each in
    the FIFO of its priority, and the idle thread is ready. *)
Record attrs (ts : gmap Z Thread_Control) (q : queues) : Prop := {
  at_prio t th : ts !! t = Some th ->
    priorities (Wait_Priority th) /\ Priority_value th = Wait_Priority th;
  at_ready t th : ts !! t = Some th ->
    (current_state th = STATES_READY <-> t ∈ q (Wait_Priority th));
  at_idle : exists th, ts !! idle = Some th /\ current_state th = STATES_READY;
}.

(** [x] may be the heir: it is ready, and if it can be preempted then no
    ready thread is more urgent and it is the first of its FIFO. *)
Definition heir_ok (ts : gmap Z Thread_Control) (q : queues) (x : Z) : Prop :=
  exists h, ts !! x = Some h /\ current_state h = STATES_READY /\
    (is_preemptible h = true -> urgent q x (Wait_Priority h)).

Record wf (s : state) (q : queues) : Prop := {
  wf_repr : repr s q;
  wf_attrs : attrs (threads s) q;
  wf_heir : heir_ok (threads s) q (heir s);
  wf_executing : is_Some (threads s !! executing s);
  wf_dispatch : heir s <> executing s -> dispatch_necessary s = true;
}.

(** ** Transfer along operations that keep the core of the threads *)

Lemma core_lookup (ts ts' : gmap Z Thread_Control) t th :
  core <$> ts' = core <$> ts -> ts !! t = Some th ->
  exists th', ts' !! t = Some th' /\ current_state th' = current_state th /\
    is_preemptible th' = is_preemptible th /\ Wait_Priority th' = Wait_Priority th /\
    Priority_value th' = Priority_value th.
Proof.
  intros E Ht. apply (f_equal (.!! t)) in E. rewrite !lookup_fmap, Ht in E. cbn in E.
  destruct (ts' !! t) as [th'|]; [|done]. cbn in E. exists th'. injection E. auto.
Qed.

Lemma attrs_core ts ts' q : core <$> ts' = core <$> ts -> attrs ts q -> attrs ts' q.
Proof.
  intros E [H1 H2 (th & Hi & Hr)]. split.
  - intros t th' Ht. destruct (core_lookup _ _ _ _ (eq_sym E) Ht) as (th2 & Ht2 & ? & ? & ? & ?).
    destruct (H1 _ _ Ht2). split; congruence.
  - intros t th' Ht. destruct (core_lookup _ _ _ _ (eq_sym E) Ht) as (th2 & Ht2 & ? & ? & ? & ?).
    pose proof (H2 _ _ Ht2). congruence.
  - destruct (core_lookup _ _ _ _ E Hi) as (th2 & Ht2 & ? & ? & ? & ?). exists th2. split; congruence.
Qed.

Lemma heir_ok_core ts ts' q x :
  core <$> ts' = core <$> ts -> heir_ok ts q x -> heir_ok ts' q x.
Proof.
  intros E (h & Hh & Hr & Hu). destruct (core_lookup _ _ _ _ E Hh) as (h' & Hh' & ? & ? & ? & ?).
  exists h'. split_and!; [done|congruence|]. intros Hp. replace (Wait_Priority h') with (Wait_Priority h).
  apply Hu. congruence.
Qed.

Lemma heir_ok_most_urgent s q x :
  queued s q -> attrs (threads s) q -> most_urgent q x -> heir_ok (threads s) q x.
Proof.
  intros [_ Hq] [_ Hr _] (p & Hh & Hlow).
  assert (Hx : x ∈ q p) by (destruct (q p); [done|]; cbn in Hh; simplify_eq; set_solver).
  destruct (Hq _ _ Hx) as (_ & th & Hth & <-). exists th.
  split_and!; [done|by apply (Hr _ _ Hth)|]. by split.
Qed.

(** A scheduler operation restores the invariant when it elects a thread
    that may be the heir. *)
Lemma wf_finish s1 q' H s' :
  step_ok repr s1 q' H s' -> attrs (threads s1) q' ->
  (forall x, H x -> most_urgent q' x \/ heir_ok (threads s1) q' x) ->
  is_Some (threads s1 !! executing s1) ->
  (heir s1 <> executing s1 -> dispatch_necessary s1 = true) ->
  wf s' q'.
Proof.
  intros [Hr Hc He Hh Hd] Ha HH [th Hex] Hdi.
  pose proof (attrs_core _ _ _ Hc Ha) as Ha'.
  split; [done|done| | |].
  - destruct (HH _ Hh) as [Hu|Hok]; [|by eapply heir_ok_core].
    eapply heir_ok_most_urgent; [by apply law_queued|done|done].
  - rewrite He. destruct (core_lookup _ _ _ _ Hc Hex) as (? & ? & _). by eexists.
  - rewrite He, Hd. intros Hne. destruct (Z.eqb_spec (heir s1) (heir s')) as [E|E].
    + rewrite Hdi by congruence. done.
    + apply orb_true_r.
Qed.

Lemma core_dom s1 q' H s' :
  step_ok repr s1 q' H s' -> dom (threads s') = dom (threads s1).
Proof.
  intros [_ Hc _ _ _]. by rewrite <- (dom_fmap_L core (threads s')), Hc, dom_fmap_L.
Qed.

(** Updating the control block of one thread. *)
Definition upd (t : Z) (th : Thread_Control) (s : state) : state :=
  set_threads (<[t := th]> (threads s)) s.

Lemma upd_dom t th th' s : threads s !! t = Some th ->
  dom (threads (upd t th' s)) = dom (threads s).
Proof. intros Ht. cbn. rewrite dom_insert_L. apply elem_of_dom_2 in Ht. set_solver. Qed.

Lemma upd_waits t th th' s : threads s !! t = Some th -> Wait_Priority th' = Wait_Priority th ->
  Wait_Priority <$> threads (upd t th' s) = Wait_Priority <$> threads s.
Proof. intros Ht E. cbn. rewrite fmap_insert, E. apply insert_id. by rewrite lookup_fmap, Ht. Qed.

Lemma wp_put_thread t th (Q : unit -> state -> Prop) s :
  Q tt (upd t th s) -> wp (put_thread t th) Q s.
Proof. done. Qed.

Lemma upd_repr s q t th th' : repr s q -> threads s !! t = Some th ->
  Ready_queue th' = Ready_queue th -> (Wait_Priority th' = Wait_Priority th \/ forall p, t ∉ q p) ->
  repr (upd t th' s) q.
Proof.
  intros Hr Ht Hq Hw. eapply law_ext; [exact Hr|done|done|done| |].
  - cbn. rewrite fmap_insert, Hq. apply insert_id. by rewrite lookup_fmap, Ht.
  - intros p x Hx. cbn. destruct (decide (x = t)) as [->|].
    + rewrite lookup_insert_eq, Ht. cbn. destruct Hw as [->|Hw]; [done|].
      by destruct (Hw _ Hx).
    + by rewrite lookup_insert_ne.
Qed.

(** ... in a way that changes neither its readiness nor its priority, nor
    makes it preemptible. *)
Lemma wf_upd s q t th th' : wf s q -> threads s !! t = Some th ->
  Ready_queue th' = Ready_queue th -> Wait_Priority th' = Wait_Priority th ->
  Priority_value th' = Priority_value th ->
  (current_state th' = STATES_READY <-> current_state th = STATES_READY) ->
  (is_preemptible th' = true -> is_preemptible th = true) ->
  wf (upd t th' s) q.
Proof.
  intros [Hr [H1 H2 (i & Hi & Hir)] (h & Hh & Hhr & Hu) [e He] Hd] Ht E1 E2 E3 E4 E5.
  split; [by eapply upd_repr; eauto| | | |done]; cbn.
  - split.
    + intros x thx [[<- <-]|[_ Hx]]%lookup_insert_Some; [|eauto].
      rewrite E2, E3. eauto.
    + intros x thx [[<- <-]|[_ Hx]]%lookup_insert_Some; [|eauto].
      rewrite E2, E4. eauto.
    + destruct (decide (idle = t)) as [->|]; [|by rewrite lookup_insert_ne; eauto].
      rewrite lookup_insert_eq. exists th'. split; [done|]. naive_solver.
  - unfold heir_ok. destruct (decide (heir s = t)) as [Et|]; [|by rewrite lookup_insert_ne; eauto].
    rewrite Et, lookup_insert_eq in *. exists th'. split; [done|]. simplify_eq.
    rewrite E2. naive_solver.
  - destruct (decide (executing s = t)) as [->|]; [rewrite lookup_insert_eq|rewrite lookup_insert_ne by done]; by eexists.
Qed.

Lemma not_queued s q t th : wf s q -> threads s !! t = Some th ->
  current_state th <> STATES_READY -> forall p, t ∉ q p.
Proof.
  intros [Hr [_ H2 _] _ _ _] Ht Hs p Hp.
  destruct (law_queued _ _ Hr) as [_ Hq]. destruct (Hq _ _ Hp) as (_ & th2 & Ht2 & <-).
  simplify_eq. by apply Hs, (H2 _ _ Ht).
Qed.

Lemma queued_at s q t th p : wf s q -> threads s !! t = Some th -> t ∈ q p ->
  p = Wait_Priority th.
Proof.
  intros [Hr _ _ _ _] Ht Hp. destruct (law_queued _ _ Hr) as [_ Hq].
  destruct (Hq _ _ Hp) as (_ & th2 & Ht2 & <-). by simplify_eq.
Qed.

Lemma attrs_upd ts q q' t th' : attrs ts q ->
  priorities (Wait_Priority th') -> Priority_value th' = Wait_Priority th' ->
  (current_state th' = STATES_READY <-> t ∈ q' (Wait_Priority th')) ->
  (forall x p, x <> t -> x ∈ q' p <-> x ∈ q p) ->
  (t <> idle \/ current_state th' = STATES_READY) ->
  attrs (<[t := th']> ts) q'.
Proof.
  intros [H1 H2 (i & Hi & Hir)] Hp Hv Hst Hoth Hid. split.
  - intros x thx [[<- <-]|[_ Hx]]%lookup_insert_Some; [done|eauto].
  - intros x thx [[<- <-]|[Hne Hx]]%lookup_insert_Some; [done|].
    rewrite Hoth by done. eauto.
  - destruct (decide (idle = t)) as [->|]; [|by rewrite lookup_insert_ne; eauto].
    rewrite lookup_insert_eq. exists th'. naive_solver.
Qed.

Lemma heir_ok_upd ts q q' t th' x : x <> t -> heir_ok ts q x ->
  (forall p, urgent q x p -> urgent q' x p) -> heir_ok (<[t := th']> ts) q' x.
Proof.
  intros Hne (h & Hh & Hr & Hu) HU. exists h. rewrite lookup_insert_ne by done. auto.
Qed.

Lemma upd_executing t th s : is_Some (threads s !! executing s) ->
  is_Some (threads (upd t th s) !! executing (upd t th s)).
Proof.
  intros [e He]. cbn. rewrite lookup_insert. case_decide; by eexists.
Qed.

Lemma upd_heir t th s h : threads s !! heir s = Some h ->
  threads (upd t th s) !! heir (upd t th s) = Some (if decide (t = heir s) then th else h).
Proof. intros Hh. cbn. rewrite lookup_insert. by case_decide. Qed.

(** ** The operations *)

(** The callers' obligations: threads exist, states are 32-bit masks that
    are not empty, priorities are in range, and nobody blocks the idle
    thread. *)
Definition legal (D : gset Z) (o : thread_op) : Prop :=
  match o with
  | set_state t st => t ∈ D /\ t <> idle /\ 0 < st < 2 ^ 32
  | clear_state t _ | yield t => t ∈ D
  | set_priority t p _ => t ∈ D /\ priorities p
  | preempt_mode _ | tick | dispatch => True
  end.

(** Does the tick end the time slice of the executing thread? *)
Definition expired (th : Thread_Control) : bool :=
  is_preemptible th && _States_Is_ready (current_state th) &&
  match budget_algorithm th with
  | THREAD_CPU_BUDGET_ALGORITHM_NONE => false
  | THREAD_CPU_BUDGET_ALGORITHM_RESET_TIMESLICE =>
      let budget := u32 (cpu_time_budget th - 1) in
      (budget =? 0) || (2 ^ 31 <=? budget)
  end.

(** What each operation does to the queues. *)
Definition qstep (s : state) (q : queues) (o : thread_op) (q' : queues) : Prop :=
  match o with
  | set_state t st => forall th, threads s !! t = Some th ->
      q' = if _States_Is_ready (current_state th)
           then q_remove t (Wait_Priority th) q else q
  | clear_state t st => forall th, threads s !! t = Some th ->
      q' = if negb (Z.land (current_state th) st =? 0) &&
              _States_Is_ready (_States_Clear st (current_state th))
           then q_append t (Wait_Priority th) q else q
  | yield t => forall th, threads s !! t = Some th ->
      q' = if _States_Is_ready (current_state th)
           then q_move t (Wait_Priority th) (Wait_Priority th) false q else q
  | set_priority t p b => forall th, threads s !! t = Some th ->
      (_States_Is_ready (current_state th) = true /\
        (q' = q_move t (Wait_Priority th) p b q \/ (p = Wait_Priority th /\ q' = q))) \/
      (_States_Is_ready (current_state th) = false /\ q' = q)
  | tick => forall th, threads s !! executing s = Some th ->
      q' = if expired th
           then q_move (executing s) (Wait_Priority th) (Wait_Priority th) false q else q
  | preempt_mode _ | dispatch => q' = q
  end.

(** What the operations do to the states and the priorities of the threads. *)
Definition thread_step (s : state) (o : thread_op) (s' : state) : Prop :=
  match o with
  | set_state t st => executing s' = executing s /\ forall th, threads s !! t = Some th ->
      core <$> threads s' = core <$> <[t := set_current_state (_States_Set st (current_state th)) th]> (threads s)
  | clear_state t st => executing s' = executing s /\ forall th, threads s !! t = Some th ->
      core <$> threads s' = core <$> <[t :=
        if Z.land (current_state th) st =? 0 then th
        else set_current_state (_States_Clear st (current_state th)) th]> (threads s)
  | dispatch => executing s' = heir s /\ heir s' = heir s /\
      (fun th => (current_state th, Wait_Priority th)) <$> threads s' =
      (fun th => (current_state th, Wait_Priority th)) <$> threads s
  | yield _ | preempt_mode _ | tick => Wait_Priority <$> threads s' = Wait_Priority <$> threads s
  | set_priority t p _ => Wait_Priority <$> threads s' = <[t := p]> (Wait_Priority <$> threads s)
  end.

Lemma core_waits (ts ts' : gmap Z Thread_Control) :
  core <$> ts' = core <$> ts -> Wait_Priority <$> ts' = Wait_Priority <$> ts.
Proof.
  intros E. apply map_eq. intros t. apply (f_equal (.!! t)) in E. rewrite !lookup_fmap in *.
  destruct (ts !! t), (ts' !! t); try discriminate E; [|done]. injection E. cbn. congruence.
Qed.

Definition op_post (s : state) (q : queues) (o : thread_op) (s' : state) : Prop :=
  exists q', qstep s q o q' /\ wf s' q' /\ dom (threads s') = dom (threads s) /\ thread_step s o s'.

Lemma set_state_ok s q t st : wf s q -> legal (dom (threads s)) (set_state t st) ->
  wp (exec_op ops ticks_per_timeslice (set_state t st))
     (fun _ => op_post s q (set_state t st)) s.
Proof.
  intros Hwf ([th Ht]%elem_of_dom & Hid & Hst). pose proof Hwf as [Hr Ha Hh [e He] Hd].
  cbn [exec_op]. do 2 apply wp_bind. eapply wp_get_thread; [done|].
  apply wp_bind, wp_put_thread. set (th1 := set_current_state _ th).
  assert (Hnr : current_state th1 <> STATES_READY).
  { cbn. unfold _States_Set, STATES_READY. rewrite Z.lor_eq_0_iff. lia. }
  pose proof (upd_dom t th th1 s Ht) as Hdom.
  unfold _States_Is_ready. destruct (Z.eqb_spec (current_state th) STATES_READY) as [Hrd|Hrd]; cbn [whenM].
  - pose proof (at_ready _ _ Ha _ _ Ht) as Hq. apply Hq in Hrd as Hin.
    destruct (at_idle _ _ Ha) as (i & Hi & Hir). pose proof (at_ready _ _ Ha _ _ Hi) as Hqi.
    apply Hqi in Hir. destruct Hh as (h & Hh & Hhr & Hu).
    apply wp_bind. eapply wp_mono; [eapply (law_block (upd t th1 s) q _ t _ idle);
      [eapply upd_repr; eauto|by apply upd_heir|exact Hin|exact Hir|congruence]|].
    intros [] s' Hok. do 2 apply wp_ret. exists (q_remove t (Wait_Priority th) q). split_and!.
    + intros th' Ht'. rewrite Ht in Ht'. injection Ht' as <-. unfold _States_Is_ready. by rewrite Hrd.
    + eapply wf_finish; [exact Hok| | |apply upd_executing; by eexists|exact Hd].
      * apply (attrs_upd _ q); [done|by apply (at_prio _ _ Ha _ _ Ht)..| | |auto].
        -- rewrite elem_q_remove. cbn. naive_solver.
        -- intros x p Hne. rewrite elem_q_remove. naive_solver.
      * intros x. case_bool_decide as Hc; [auto|]. cbn. intros ->. right.
        cbn in Hc. apply (heir_ok_upd _ q); [naive_solver|by exists h|].
        intros p. apply urgent_remove. naive_solver.
    + etrans; [by eapply core_dom|done].
    + split; [apply (so_executing _ _ _ _ _ Hok)|]. intros th' Ht'. rewrite Ht in Ht'. injection Ht' as <-.
      apply (so_core _ _ _ _ _ Hok).
  - cbn. exists q. split_and!; [|by apply (wf_upd s q t th)|done|split; [done|]];
      intros th' Ht'; rewrite Ht in Ht'; injection Ht' as <-; [|done].
    unfold _States_Is_ready. by apply Z.eqb_neq in Hrd as ->.
Qed.

(** The election of [op_unblock] respects the invariant. *)
Lemma heir_ok_unblock s q t th1 h : repr s q -> heir s <> t ->
  threads s !! heir s = Some h -> current_state h = STATES_READY ->
  (is_preemptible h = true -> urgent q (heir s) (Wait_Priority h)) ->
  current_state th1 = STATES_READY ->
  let p := Wait_Priority th1 in
  heir_ok (<[t := th1]> (threads s)) (q_append t p q)
    (if (p <? Wait_Priority h) && (is_preemptible h || (p =? PRIORITY_PSEUDO_ISR))
     then t else heir s).
Proof.
  intros Hr Hne Hh Hhr Hu Hrd p. destruct ((p <? _) && _) eqn:E.
  - apply andb_true_iff in E as [Hlt Hf]. bool_hyps.
    exists th1. rewrite lookup_insert_eq. split_and!; [done|done|]. intros _. fold p.
    destruct (is_preemptible h).
    + apply urgent_append_new. intros p' ?. apply Hu; [done|lia].
    + cbn in Hf. bool_hyps. rewrite Hf. split; [|done]. intros p' Hneg.
      unfold q_append, q_set. rewrite decide_False by lia.
      destruct (law_queued _ _ Hr) as [_ Hq]. destruct (q p') as [|y l] eqn:E; [done|].
      destruct (Hq p' y); [rewrite E; set_solver|]. unfold PRIORITY_PSEUDO_ISR in *. lia.
  - exists h. rewrite lookup_insert_ne by done. split_and!; [done|done|]. intros Hp.
    rewrite Hp in E. cbn in E. rewrite andb_true_r in E. bool_hyps.
    apply urgent_append; auto.
Qed.

Lemma clear_state_ok s q t st : wf s q -> legal (dom (threads s)) (clear_state t st) ->
  wp (exec_op ops ticks_per_timeslice (clear_state t st))
     (fun _ => op_post s q (clear_state t st)) s.
Proof.
  cbn [legal]. intros Hwf [th Ht]%elem_of_dom. pose proof Hwf as [Hr Ha Hh [e He] Hd].
  cbn [exec_op]. do 2 apply wp_bind. eapply wp_get_thread; [done|]. cbv zeta.
  destruct (Z.eqb_spec (Z.land (current_state th) st) 0) as [Hz|Hz]; cbn [negb whenM].
  { apply wp_bind. do 3 apply wp_ret. apply Z.eqb_eq in Hz as Hzb.
    exists q. split_and!; [|done|done|split; [done|]]; intros th' Ht'; rewrite Ht in Ht'; injection Ht' as <-; rewrite Hzb; [done|].
    by rewrite insert_id. }
  assert (Hnr : current_state th <> STATES_READY).
  { intros E. apply Hz. rewrite E. apply Z.land_0_l. }
  do 2 apply wp_bind. apply wp_put_thread. set (th1 := set_current_state _ th).
  pose proof (upd_dom t th th1 s Ht) as Hdom. pose proof (not_queued _ _ _ _ Hwf Ht Hnr) as Hnq.
  assert (Hht : heir s <> t).
  { intros E. destruct Hh as (h & Hh & ? & _). rewrite E in Hh. by simplify_eq. }
  apply Z.eqb_neq in Hz as Hzb.
  destruct (_States_Is_ready (_States_Clear st (current_state th))) eqn:Hrd; cbn [whenM].
  - destruct (at_prio _ _ Ha _ _ Ht) as [Hp Hv]. destruct Hh as (h & Hh & Hhr & Hu).
    pose proof (upd_heir t th1 s h Hh) as Hh1. rewrite decide_False in Hh1 by congruence.
    eapply wp_mono; [eapply (law_unblock (upd t th1 s) q h t th1);
      [eapply upd_repr; eauto|exact Hh1|by apply lookup_insert_eq|reflexivity|exact Hv|exact Hp|exact Hnq]|].
    intros [] s' Hok. do 2 apply wp_ret. exists (q_append t (Wait_Priority th) q). split_and!.
    + intros th' Ht'. rewrite Ht in Ht'. injection Ht' as <-. by rewrite Hzb, Hrd.
    + eapply wf_finish; [exact Hok| | |apply upd_executing; by eexists|exact Hd].
      * apply (attrs_upd _ q); [done|done|done| | |auto].
        -- rewrite elem_q_append. unfold _States_Is_ready in Hrd. bool_hyps. cbn in *. tauto.
        -- intros x p Hne. rewrite elem_q_append. naive_solver.
        -- right. unfold _States_Is_ready in Hrd. by bool_hyps.
      * intros x ->. right. apply (heir_ok_unblock s q t th1 h); try done.
        unfold _States_Is_ready in Hrd. by bool_hyps.
    + etrans; [by eapply core_dom|done].
    + split; [apply (so_executing _ _ _ _ _ Hok)|]. intros th' Ht'. rewrite Ht in Ht'. injection Ht' as <-.
      rewrite Hzb. apply (so_core _ _ _ _ _ Hok).
  - cbn. exists q. split_and!; [|apply (wf_upd s q t th)|..]; try done.
    + intros th' Ht'. rewrite Ht in Ht'. injection Ht' as <-. by rewrite Hzb, Hrd.
    + unfold _States_Is_ready in Hrd. bool_hyps. by cbn.
    + split; [done|]. intros th' Ht'. rewrite Ht in Ht'. injection Ht' as <-. by rewrite Hzb.
Qed.

Lemma attrs_iff ts q q' : (forall x p, x ∈ q' p <-> x ∈ q p) -> attrs ts q -> attrs ts q'.
Proof. intros E [H1 H2 H3]. split; [done| |done]. intros t th Ht. rewrite E. eauto. Qed.

Lemma heir_ok_fixed ts q x h : ts !! x = Some h -> current_state h = STATES_READY ->
  is_preemptible h = false -> heir_ok ts q x.
Proof. intros. exists h. split_and!; congruence. Qed.

Definition yield_queues (t : Z) (th : Thread_Control) (q : queues) : queues :=
  if _States_Is_ready (current_state th)
  then q_move t (Wait_Priority th) (Wait_Priority th) false q else q.

Lemma thread_yield_ok s q t th : wf s q -> threads s !! t = Some th ->
  wp (_Thread_Yield ops t) (fun _ s' => wf s' (yield_queues t th q) /\
    core <$> threads s' = core <$> threads s) s.
Proof.
  intros Hwf Ht. pose proof Hwf as [Hr Ha (h & Hh & Hhr & Hu) He Hd].
  apply wp_bind. eapply wp_get_thread; [done|]. unfold yield_queues, _States_Is_ready.
  destruct (Z.eqb_spec (current_state th) STATES_READY) as [Hrd|Hrd]; cbn [whenM]; [|done].
  pose proof (at_ready _ _ Ha _ _ Ht) as Hq. apply Hq in Hrd as Hin.
  eapply wp_mono; [by eapply law_yield|]. intros [] s' Hok. split; [|by apply Hok].
  eapply wf_finish; [exact Hok| | |done|done].
  - eapply attrs_iff; [|exact Ha]. intros x p. rewrite elem_q_move. 
    destruct (decide (x = t)) as [->|]; [|naive_solver].
    destruct (decide (p = Wait_Priority th)) as [->|]; naive_solver.
  - intros x [?|[Hp ->]]; [auto|]. right. by eapply heir_ok_fixed.
Qed.

Lemma yield_ok s q t : wf s q -> legal (dom (threads s)) (yield t) ->
  wp (exec_op ops ticks_per_timeslice (yield t)) (fun _ => op_post s q (yield t)) s.
Proof.
  cbn [legal exec_op]. intros Hwf [th Ht]%elem_of_dom.
  eapply wp_mono; [by eapply thread_yield_ok|]. intros [] s' [Hwf' Hc].
  exists (yield_queues t th q). split_and!; [|done| |by apply core_waits].
  - intros th' Ht'. by simplify_eq.
  - by rewrite <- (dom_fmap_L core (threads s')), Hc, dom_fmap_L.
Qed.

Lemma tick_ok s q : wf s q ->
  wp (exec_op ops ticks_per_timeslice tick) (fun _ => op_post s q tick) s.
Proof.
  intros Hwf. destruct (wf_executing _ _ Hwf) as [th Ht]. cbn [exec_op].
  apply wp_bind, wp_gets. set (e := executing s) in *. unfold _Scheduler_default_Tick.
  apply wp_bind. eapply wp_get_thread; [done|].
  assert (Hsame : expired th = false -> op_post s q tick s).
  { intros E. exists q. split_and!; [|done|done|done]. intros th' Ht'.
    fold e in Ht'. simplify_eq. by rewrite E. }
  unfold expired in Hsame. destruct (is_preemptible th) eqn:Hp; cbn [negb]; [|by apply wp_ret, Hsame].
  destruct (_States_Is_ready (current_state th)) eqn:Hrd; cbn [negb]; [|by apply wp_ret, Hsame].
  destruct (budget_algorithm th) eqn:Hal; [by apply wp_ret, Hsame|]. cbn [andb] in Hsame. cbv zeta.
  set (b := u32 _) in *. apply wp_bind, wp_put_thread. set (th1 := set_cpu_time_budget b th).
  assert (Hwf1 : wf (upd e th1 s) q) by (by apply (wf_upd s q e th)).
  assert (Hdom : dom (threads (upd e th1 s)) = dom (threads s)) by by eapply upd_dom.
  assert (Hw1 : Wait_Priority <$> threads (upd e th1 s) = Wait_Priority <$> threads s) by by eapply upd_waits.
  destruct ((b =? 0) || (2 ^ 31 <=? b)) eqn:Hb; cbn [whenM].
  - apply wp_bind. eapply wp_mono; [eapply thread_yield_ok; [done|apply lookup_insert_eq]|].
    intros [] s2 [Hwf2 Hc2]. pose proof (lookup_insert_eq (threads s) e th1) as Hl.
    destruct (core_lookup _ _ _ _ Hc2 Hl) as (th2 & Ht2 & ? & ? & ? & ?).
    apply wp_bind. eapply wp_get_thread; [done|]. apply wp_put_thread.
    exists (yield_queues e th1 q). split_and!.
    + intros th' Ht'. fold e in Ht'. simplify_eq. unfold expired, yield_queues. cbn.
      rewrite Hp, Hrd, Hal. fold b. by rewrite Hb.
    + by apply (wf_upd s2 _ e th2).
    + rewrite (upd_dom e th2) by done. rewrite <- Hdom.
      by rewrite <- (dom_fmap_L core (threads s2)), Hc2, dom_fmap_L.
    + exact (eq_trans (upd_waits e th2 (set_cpu_time_budget ticks_per_timeslice th2) s2 Ht2 eq_refl) (eq_trans (core_waits _ _ Hc2) Hw1)).
  - apply wp_ret. exists q. split_and!; [|done|done|exact Hw1]. intros th' Ht'.
    fold e in Ht'. simplify_eq. unfold expired. rewrite Hal. fold b. by rewrite Hb, andb_false_r.
Qed.

Lemma set_node_priority_spec s t th p b : threads s !! t = Some th ->
  wp (_Thread_Set_scheduler_node_priority t p b)
     (fun _ s' => s' = upd t (set_priorities p p b th) s) s.
Proof.
  intros Ht. unfold _Thread_Set_scheduler_node_priority, _Thread_Get_priority,
    _Scheduler_Node_set_priority.
  apply wp_bind. eapply wp_get_thread; [done|]. apply wp_bind, wp_put_thread.
  do 2 apply wp_bind. eapply wp_get_thread; [apply lookup_insert_eq|]. apply wp_ret.
  apply wp_bind. eapply wp_get_thread; [apply lookup_insert_eq|]. apply wp_put_thread.
  unfold upd, set_threads; cbn. by rewrite insert_insert_eq.
Qed.

Lemma set_priority_ok s q t p b : wf s q -> legal (dom (threads s)) (set_priority t p b) ->
  wp (exec_op ops ticks_per_timeslice (set_priority t p b))
     (fun _ => op_post s q (set_priority t p b)) s.
Proof.
  cbn [legal exec_op]. intros Hwf [[th Ht]%elem_of_dom Hp].
  pose proof Hwf as [Hr Ha (h & Hh & Hhr & Hu) He Hd]. apply wp_bind.
  eapply wp_mono; [by apply set_node_priority_spec|]. intros [] s1 ->.
  set (th1 := set_priorities p p b th). assert (Hdom : dom (threads (upd t th1 s)) = dom (threads s)) by by eapply upd_dom.
  assert (Hw1 : Wait_Priority <$> threads (upd t th1 s) = <[t := p]> (Wait_Priority <$> threads s)) by apply fmap_insert.
  unfold _Thread_Priority_update, _Scheduler_Update_priority.
  destruct (decide (current_state th = STATES_READY)) as [Hrd|Hrd].
  - assert (Hb : _States_Is_ready (current_state th) = true) by (by apply Z.eqb_eq).
    pose proof (at_ready _ _ Ha _ _ Ht) as Hq. apply Hq in Hrd as Hin.
    eapply wp_mono; [by eapply law_update|]. intros [] s' [[-> ->]|Hok].
    + exists q. split_and!; [|apply (wf_upd s q t th); try done|done|exact Hw1].
      * intros th' Ht'. simplify_eq. auto.
      * symmetry. by apply (at_prio _ _ Ha _ _ Ht).
    + exists (q_move t (Wait_Priority th) p b q). split_and!.
      * intros th' Ht'. simplify_eq. auto.
      * eapply wf_finish; [exact Hok| | |by apply upd_executing|exact Hd].
        -- apply (attrs_upd _ q); [done|done|done| | |auto].
           ++ rewrite elem_q_move. cbn. naive_solver.
           ++ intros x r Hne. rewrite elem_q_move. naive_solver.
        -- intros x. unfold elected. destruct (is_preemptible h) eqn:Hph; [auto|].
           intros ->. right. eapply heir_ok_fixed; [by apply upd_heir| |];
           case_decide; subst; simplify_eq; done.
      * etrans; [by eapply core_dom|done].
      * exact (eq_trans (core_waits _ _ (so_core _ _ _ _ _ Hok)) Hw1).
  - eapply wp_mono; [eapply law_update_blocked; [apply lookup_insert_eq|done]|].
    intros [] s' ->. exists q. pose proof (not_queued _ _ _ _ Hwf Ht Hrd) as Hnq. split_and!; [| |done|exact Hw1].
    + intros th' Ht'. simplify_eq. right. split; [|done]. by apply Z.eqb_neq.
    + assert (heir s <> t) by congruence.
      split; [by eapply upd_repr; eauto| |by apply (heir_ok_upd _ q); [|exists h|]|by apply upd_executing|done].
      apply (attrs_upd _ q); [done|done|done| |done|].
      * split; [done|]. intros ?. by destruct (Hnq (Wait_Priority th1)).
      * left. intros ->. destruct (at_idle _ _ Ha) as (i & Hi & ?). by simplify_eq.
Qed.

Lemma preempt_mode_ok s q b : wf s q ->
  wp (exec_op ops ticks_per_timeslice (preempt_mode b))
     (fun _ => op_post s q (preempt_mode b)) s.
Proof.
  intros Hwf. destruct (wf_executing _ _ Hwf) as [th Ht]. cbn [exec_op].
  apply wp_bind, wp_gets. apply wp_bind. eapply wp_get_thread; [done|]. cbv zeta.
  apply wp_bind, wp_put_thread. set (e := executing s) in *.
  set (th1 := set_is_preemptible b th).
  assert (Hdom : dom (threads (upd e th1 s)) = dom (threads s)) by by eapply upd_dom.
  assert (Hw1 : Wait_Priority <$> threads (upd e th1 s) = Wait_Priority <$> threads s) by by eapply upd_waits.
  destruct (negb (is_preemptible th) && b) eqn:E; cbn [whenM].
  - pose proof Hwf as [Hr Ha (h & Hh & Hhr & Hu) He Hd].
    pose proof (at_ready _ _ Ha _ _ Hh) as Hq. apply Hq in Hhr as Hin.
    eapply wp_mono; [eapply law_schedule; [eapply upd_repr; eauto|by apply upd_heir|exact Hin]|].
    intros [] s' Hok. exists q. split_and!; [done| |etrans; [by eapply core_dom|done]|
      exact (eq_trans (core_waits _ _ (so_core _ _ _ _ _ Hok)) Hw1)].
    eapply wf_finish; [exact Hok| | |by apply upd_executing|done].
    + apply (attrs_upd _ q); [done|by apply (at_prio _ _ Ha _ _ Ht)..|by apply (at_ready _ _ Ha _ _ Ht)|done|].
      destruct (decide (e = idle)) as [->|]; [|auto]. right.
      destruct (at_idle _ _ Ha) as (i & Hi & ?). by simplify_eq.
    + pose proof (upd_heir e th1 s h Hh) as Hh1. intros x. unfold elected.
      set (h1 := if decide _ then _ else _) in *.
      assert (Hh1r : current_state h1 = STATES_READY).
      { subst h1. case_decide; [|done]. cbn. congruence. }
      destruct (is_preemptible h1) eqn:Hp; intros Hx; [auto|]. right. rewrite Hx.
      by eapply heir_ok_fixed.
  - apply wp_ret. exists q. split_and!; [done| |done|exact Hw1]. apply (wf_upd s q e th); try done.
    cbn. intros ->. destruct (is_preemptible th); done.
Qed.

Lemma dispatch_ok s q : wf s q ->
  wp (exec_op ops ticks_per_timeslice dispatch) (fun _ => op_post s q dispatch) s.
Proof.
  intros [Hr Ha (h & Hh & Hhr & Hu) He Hd]. cbn [exec_op]. apply wp_bind, wp_gets, wp_bind.
  apply wp_bind, wp_gets, wp_bind, wp_modify, wp_ret. set (s1 := set_cpu _ _ _ s).
  assert (Hwf : wf s1 q) by (split; cbn; [by eapply law_ext|done|by exists h|by eexists|done]).
  destruct (Z.eqb_spec (heir s) (executing s)); [apply wp_ret; by exists q|].
  apply wp_bind. eapply wp_get_thread; [exact Hh|]. destruct (budget_algorithm h); [apply wp_ret; by exists q|].
  apply wp_put_thread. exists q. split_and!; [done|by apply (wf_upd s1 q (heir s) h)|by eapply (upd_dom _ h _ s1)|split_and!; [done|done|]].
  cbn. rewrite fmap_insert. apply insert_id. by rewrite lookup_fmap, Hh.
Qed.

(** Every legal operation completes, moves the queues as [qstep] says and
    keeps the invariant. *)
Lemma exec_op_ok s q o : wf s q -> legal (dom (threads s)) o ->
  wp (exec_op ops ticks_per_timeslice o) (fun _ => op_post s q o) s.
Proof.
  destruct o; intros Hwf Hl.
  - by apply set_state_ok.
  - by apply clear_state_ok.
  - by apply yield_ok.
  - by apply set_priority_ok.
  - by apply preempt_mode_ok.
  - by apply tick_ok.
  - by apply dispatch_ok.
Qed.

(** ** Starting the system *)

(** No thread is ready and no queue holds one. *)
Lemma create_idle_ok s th : repr s (fun _ => []) -> threads s !! idle = Some th ->
  (forall t th', threads s !! t = Some th' ->
     priorities (Wait_Priority th') /\ Priority_value th' = Wait_Priority th' /\
     current_state th' <> STATES_READY) ->
  wp (thread_create_idle_start ops idle)
     (fun _ s' => wf s' (q_append idle (Wait_Priority th) (fun _ => [])) /\ heir s' = idle /\
       dom (threads s') = dom (threads s)) s.
Proof.
  intros Hr Hi Hall. set (q := fun _ : Z => [] : list Z) in *.
  apply wp_bind, wp_modify. apply wp_bind. eapply wp_get_thread; [exact Hi|].
  apply wp_bind, wp_put_thread. set (th1 := set_current_state STATES_READY th).
  set (s1 := upd idle th1 _). destruct (Hall _ _ Hi) as (Hp & Hv & _).
  assert (Hl : threads s1 !! idle = Some th1) by apply lookup_insert_eq.
  assert (Hr1 : repr s1 q).
  { eapply upd_repr; [by eapply (law_ext s); [exact Hr|..]|exact Hi|done|by left]. }
  eapply wp_mono; [apply (law_unblock s1 q th1 idle th1 (Wait_Priority th)); try done|].
  { intros p. apply not_elem_of_nil. }
  intros [] s' Hok. rewrite Z.ltb_irrefl in Hok. cbn [andb] in Hok. split_and!.
  - eapply wf_finish; [exact Hok| | |by eexists|done].
    + split; cbn [threads s1 upd set_threads set_cpu].
      * intros t th' [[<- <-]|[_ Ht]]%lookup_insert_Some; [done|].
        destruct (Hall _ _ Ht) as (? & ? & _). done.
      * intros t th'. rewrite elem_q_append.
        intros [[<- <-]|[Hne Ht]]%lookup_insert_Some; [naive_solver|].
        destruct (Hall _ _ Ht) as (_ & _ & Hn). split; [done|].
        intros [?%not_elem_of_nil|[-> _]]; done.
      * by exists th1.
    + intros x ->. right. exists th1. split_and!; [done|done|]. intros _.
      apply urgent_append_new. done.
  - by rewrite (so_heir _ _ _ _ _ Hok).
  - etrans; [by eapply core_dom|].
    by apply (upd_dom idle th th1 (set_cpu idle idle (dispatch_necessary s) s)).
Qed.

(** A run through states that satisfy the invariant, whose queues evolve by
    [qstep]. *)
Inductive trace : state -> queues -> list thread_op -> state -> queues -> Prop :=
  | trace_nil s q : wf s q -> trace s q [] s q
  | trace_cons s q o s1 q1 os s' q' :
      wf s q -> exec_op ops ticks_per_timeslice o s = Some (tt, s1) -> qstep s q o q1 ->
      trace s1 q1 os s' q' -> trace s q (o :: os) s' q'.

Lemma run_ops_trace os s q : wf s q -> Forall (legal (dom (threads s))) os ->
  exists s' q', run_ops ops ticks_per_timeslice os s = Some (tt, s') /\
    trace s q os s' q' /\ wf s' q'.
Proof.
  revert s q. induction os as [|o os IH]; intros s q Hwf Hl.
  - exists s, q. split_and!; [done|by constructor|done].
  - apply Forall_cons in Hl as [Ho Hl]. pose proof (exec_op_ok s q o Hwf Ho) as Hw.
    destruct (proj1 (wp_run _ _ _) Hw) as ([] & s1 & E & q1 & Hq & Hwf1 & Hdom & _).
    destruct (IH s1 q1 Hwf1) as (s' & q' & E' & Ht & Hwf'); [by rewrite Hdom|].
    exists s', q'. split_and!; [|by econstructor|done].
    cbn. unfold mbind, M_bind. by rewrite E.
Qed.

(** What a user of the kernel relies on: the heir is a ready thread; if it
    can be preempted then no ready thread has a more urgent priority and,
    unless it runs at the pseudo interrupt priority, it is the first of the
    most urgent FIFO; a dispatch is pending whenever it does not execute. *)
Definition heir_correct (s : state) (q : queues) : Prop :=
  exists h, threads s !! heir s = Some h /\ current_state h = STATES_READY /\
    (is_preemptible h = true -> forall t th, threads s !! t = Some th ->
       current_state th = STATES_READY -> Wait_Priority h <= Wait_Priority th) /\
    (is_preemptible h = true -> Wait_Priority h <> PRIORITY_PSEUDO_ISR ->
       most_urgent q (heir s)) /\
    (heir s <> executing s -> dispatch_necessary s = true).

Lemma wf_heir_correct s q : wf s q -> heir_correct s q.
Proof.
  intros [Hr Ha (h & Hh & Hhr & Hu) _ Hd]. exists h. split_and!; [done|done| | |done].
  - intros Hp t th Ht Hst. destruct (Hu Hp) as [Hlow _]. apply (at_ready _ _ Ha _ _ Ht) in Hst.
    apply Z.nlt_ge. intros Hlt. rewrite (Hlow _ Hlt) in Hst. by apply not_elem_of_nil in Hst.
  - intros Hp Hne. destruct (Hu Hp) as [Hlow Hhd]. exists (Wait_Priority h). auto.
Qed.
End threads.

(** ** A concrete kernel: an idle thread at 2000 with priority 3 and two
    threads at 2016 and 2032 with priority 1; a scheduler context of four
    chain controls at 1000 *)

Definition sample_thread (p : Z) : Thread_Control :=
  {| current_state := 0x80000000; is_preemptible := true;
     budget_algorithm := THREAD_CPU_BUDGET_ALGORITHM_NONE; cpu_time_budget := 0;
     cpu_time_used := 0; Wait_Priority := p; Priority_value := p;
     Priority_prepend_it := false;
     Ready_queue := {| current_priority := 0; ready_chain := 0;
       Priority_map := PriorityBitmap._Priority_bit_map_Initialize_information 0 |} |}.

Definition sample_words : list Z :=
  ((fun n => 1000 + 8 * Z.of_nat n) <$> seq 0 12) ++ [2000; 2008; 2016; 2024; 2032; 2040].

Definition sample_kernel : state :=
  {| st_mem := list_to_map ((fun k => (k, 77)) <$> sample_words);
     Bit_map := {| PriorityBitmap.major_bit_map := 0; PriorityBitmap.bit_map := replicate 16 0 |};
     EDF := {| EDF_Ready := {| RBTree.rb_nodes := ∅; RBTree.rbh_root := NULL |}; EDF_priority := ∅ |};
     threads := {[2000 := sample_thread 3; 2016 := sample_thread 1; 2032 := sample_thread 1]};
     executing := 0; heir := 0; dispatch_necessary := false;
     cpu_usage_timestamp := 0; uptime := 5 |}.

(** Both threads start, the first yields to the second, which then lowers
    its priority and blocks. *)
Definition sample_ops : list thread_op :=
  [clear_state 2016 0x80000000; clear_state 2032 0x80000000; dispatch; yield 2016;
   set_priority 2032 2 false; set_state 2032 0x10; dispatch].

Lemma sample_threads_elem t : t ∈ dom (threads sample_kernel) ->
  t = 2000 \/ t = 2016 \/ t = 2032.
Proof. cbn. set_solver. Qed.

Lemma sample_layout lo hi : 1000 <= lo -> hi <= 1096 ->
  node_layout (dom (threads sample_kernel)) lo hi (st_mem sample_kernel).
Proof.
  intros Hlo Hhi. split.
  - intros t Ht%sample_threads_elem.
    destruct Ht as [->|[->| ->]]; (split; [by eexists|split; [by eexists|lia]]).
  - intros t t' Ht%sample_threads_elem Ht'%sample_threads_elem. lia.
Qed.

Lemma sample_legal : Forall (legal (up_to 3) 2000 (dom (threads sample_kernel))) sample_ops.
Proof. repeat constructor; cbn; first [lia | set_solver | done]. Qed.

End SchedulerLaws.
