(* ===== verification/SchedulerPriority.v ===== *)
(** The deterministic priority scheduler (score/schedulerpriorityimpl.h,
    score/schedulernodeimpl.h, schedulerpriority.c, schedulerpriorityblock.c,
    schedulerpriorityunblock.c, schedulerpriorityyield.c,
    schedulerpriorityschedule.c, schedulerprioritychangepriority.c): one
    chain of ready threads per priority and the priority bit map, as an
    instance of the scheduler interface. *)

From S2P Require Import Prelude DList PriorityBitmap Chain Scheduler SchedulerLaws.

Module SchedulerPriority.
Import Scheduler SchedulerLaws Chain.

(** The scheduler instance: its maximum priority and the address of the
    array [Ready] of its context.  The bit map of the context is [Bit_map]
    of the state. *)
Record Scheduler_Control := {
  maximum_priority : Z;
  Ready : Z;
}.

(** [&ready_queues[ index ]]: a chain control is three words. *)
Definition ready_queue_at (ready_queues index : Z) : Z := ready_queues + 24 * index.

(** The bit map operations on the bit map of the context. *)
Definition bit_map_Add (info : PriorityBitmap.Priority_bit_map_Information)
    : M state unit := fun s =>
  match PriorityBitmap._Priority_bit_map_Add (Bit_map s) info with
  | Some b => Some (tt, set_queues (st_mem s) b s)
  | None => None
  end.

Definition bit_map_Remove (info : PriorityBitmap.Priority_bit_map_Information)
    : M state unit := fun s =>
  match PriorityBitmap._Priority_bit_map_Remove (Bit_map s) info with
  | Some b => Some (tt, set_queues (st_mem s) b s)
  | None => None
  end.

Definition bit_map_Get_highest : M state Z := fun s =>
  match PriorityBitmap._Priority_bit_map_Get_highest (Bit_map s) with
  | Some p => Some (p, s)
  | None => None
  end.

(** The loop over [index <= maximum_priority]. *)
Definition _Scheduler_priority_Ready_queue_initialize (ready_queues max : Z)
    : M state unit :=
  whileM (fun index =>
    if index <=? max then
      _Chain_Initialize_empty (ready_queue_at ready_queues index);;
      mret (inl (index + 1))
    else mret (inr tt)) 0.

Definition _Scheduler_priority_Ready_queue_enqueue (node : Z)
    (ready_queue : Scheduler_priority_Ready_queue) : M state unit :=
  _Chain_Append_unprotected (ready_chain ready_queue) node;;
  bit_map_Add (Priority_map ready_queue).

Definition _Scheduler_priority_Ready_queue_enqueue_first (node : Z)
    (ready_queue : Scheduler_priority_Ready_queue) : M state unit :=
  _Chain_Prepend_unprotected (ready_chain ready_queue) node;;
  bit_map_Add (Priority_map ready_queue).

Definition _Scheduler_priority_Ready_queue_extract (node : Z)
    (ready_queue : Scheduler_priority_Ready_queue) : M state unit :=
  one ← _Chain_Has_only_one_node (ready_chain ready_queue);
  if (one : bool) then
    _Chain_Initialize_empty (ready_chain ready_queue);;
    _Chain_Initialize_node node;;
    bit_map_Remove (Priority_map ready_queue)
  else _Chain_Extract_unprotected node.

Definition _Scheduler_priority_Extract_body (the_thread : Z) : M state unit :=
  th ← get_thread the_thread;
  _Scheduler_priority_Ready_queue_extract the_thread (Ready_queue th).

Definition _Scheduler_priority_Ready_queue_first (ready_queues : Z) : M state Z :=
  index ← bit_map_Get_highest;
  _Chain_First (ready_queue_at ready_queues index).

(** Returns the updated ready queue data. *)
Definition _Scheduler_priority_Ready_queue_update (new_priority ready_queues : Z)
    : Scheduler_priority_Ready_queue :=
  {| current_priority := u32 new_priority;
     ready_chain := ready_queue_at ready_queues new_priority;
     Priority_map := PriorityBitmap._Priority_bit_map_Initialize_information
                       (u32 new_priority) |}.

Section operations.
Context (scheduler : Scheduler_Control).

Definition _Scheduler_priority_Schedule_body (the_thread : Z) (force_dispatch : bool)
    : M state unit :=
  h ← _Scheduler_priority_Ready_queue_first (Ready scheduler);
  _Scheduler_Update_heir h force_dispatch.

(** The call of [_Priority_bit_map_Initialize] is commented out in the
    source: the context starts zeroed. *)
Definition _Scheduler_priority_Initialize : M state unit :=
  _Scheduler_priority_Ready_queue_initialize (Ready scheduler) (maximum_priority scheduler).

Definition _Scheduler_priority_Node_initialize (the_thread priority : Z)
    : M state unit :=
  th ← get_thread the_thread;
  put_thread the_thread
    (set_Ready_queue (_Scheduler_priority_Ready_queue_update priority (Ready scheduler))
      (set_priorities (Wait_Priority th) priority false th)).

Definition _Scheduler_priority_Block (the_thread : Z) : M state unit :=
  _Scheduler_Generic_block the_thread
    _Scheduler_priority_Extract_body _Scheduler_priority_Schedule_body.

Definition _Scheduler_priority_Schedule (the_thread : Z) : M state unit :=
  _Scheduler_priority_Schedule_body the_thread false.

Definition _Scheduler_priority_Update_priority (the_thread : Z) : M state unit :=
  ready ← _Thread_Is_ready the_thread;
  if negb ready then mret tt
  else
    '(value, prepend_it) ← _Scheduler_Node_get_priority the_thread;
    let priority := u32 value in
    th ← get_thread the_thread;
    if priority =? current_priority (Ready_queue th) then mret tt
    else
      _Scheduler_priority_Ready_queue_extract the_thread (Ready_queue th);;
      let rq := _Scheduler_priority_Ready_queue_update priority (Ready scheduler) in
      put_thread the_thread (set_Ready_queue rq th);;
      (if (prepend_it : bool) then _Scheduler_priority_Ready_queue_enqueue_first the_thread rq
       else _Scheduler_priority_Ready_queue_enqueue the_thread rq);;
      _Scheduler_priority_Schedule_body the_thread false.

Definition _Scheduler_priority_Unblock (the_thread : Z) : M state unit :=
  '(value, _) ← _Scheduler_Node_get_priority the_thread;
  let priority := u32 value in
  th ← get_thread the_thread;
  whenM (negb (priority =? current_priority (Ready_queue th)))
    (put_thread the_thread (set_Ready_queue
       (_Scheduler_priority_Ready_queue_update priority (Ready scheduler)) th));;
  th' ← get_thread the_thread;
  _Scheduler_priority_Ready_queue_enqueue the_thread (Ready_queue th');;
  h ← gets heir;
  hp ← _Thread_Get_priority h;
  whenM (priority <? hp)
    (_Scheduler_Update_heir the_thread (priority =? PRIORITY_PSEUDO_ISR)).

Definition _Scheduler_priority_Yield (the_thread : Z) : M state unit :=
  th ← get_thread the_thread;
  let ready_chain := ready_chain (Ready_queue th) in
  one ← _Chain_Has_only_one_node ready_chain;
  whenM (negb one)
    (_Chain_Extract_unprotected the_thread;;
     _Chain_Append_unprotected ready_chain the_thread);;
  _Scheduler_priority_Schedule_body the_thread true.

Definition SCHEDULER_PRIORITY_ENTRY_POINTS : Scheduler_Operations :=
  {| op_schedule := _Scheduler_priority_Schedule;
     op_yield := _Scheduler_priority_Yield;
     op_block := _Scheduler_priority_Block;
     op_unblock := _Scheduler_priority_Unblock;
     op_update_priority := _Scheduler_priority_Update_priority |}.
End operations.

(** * Representation *)

Section proofs.
Context (scheduler : Scheduler_Control).
Local Abbreviation max := (maximum_priority scheduler).
Local Abbreviation at_ p := (ready_queue_at (Ready scheduler) p).
Context (Hmax : 0 <= max < 256).

(** The ready queue data of a thread of priority [p]. *)
Definition rq_for (p : Z) : Scheduler_priority_Ready_queue :=
  _Scheduler_priority_Ready_queue_update p (Ready scheduler).

(** Chains, bit map and node data represent the queues [q]. *)
Record ready_ok (s : state) (q : queues) : Prop := {
  ro_layout : node_layout (dom (threads s)) (Ready scheduler) (at_ (max + 1)) (st_mem s);
  ro_chain p : 0 <= p <= max -> chain (st_mem s) (at_ p) (q p);
  ro_bits : exists P, PriorityBitmap.repr (Bit_map s) P /\ forall p, p ∈ P <-> q p <> [];
  ro_nodup p : NoDup (q p);
  ro_in p t : t ∈ q p -> 0 <= p <= max /\
    exists th, threads s !! t = Some th /\ Ready_queue th = rq_for p;
  ro_rq t th : threads s !! t = Some th ->
    exists p, 0 <= p <= max /\ Ready_queue th = rq_for p;
}.

Lemma rq_for_inj p p' : 0 <= p <= max -> 0 <= p' <= max -> rq_for p = rq_for p' -> p = p'.
Proof.
  intros ? ? E. apply (f_equal current_priority) in E. cbn in E.
  by rewrite !u32_small in E by lia.
Qed.

Lemma ready_ok_same_queue s q t p p' : ready_ok s q -> t ∈ q p -> t ∈ q p' -> p = p'.
Proof.
  intros H H1 H2. destruct (ro_in _ _ H _ _ H1) as (? & th & Ht & E).
  destruct (ro_in _ _ H _ _ H2) as (? & th' & Ht' & E'). simplify_eq.
  apply rq_for_inj; congruence.
Qed.

Lemma ready_ok_ext s s' q : ready_ok s q ->
  st_mem s' = st_mem s -> Bit_map s' = Bit_map s ->
  Ready_queue <$> threads s' = Ready_queue <$> threads s -> ready_ok s' q.
Proof.
  intros [H1 H2 H3 H4 H5 H6] Em Eb Er.
  assert (Hl : forall t, Ready_queue <$> threads s' !! t = Ready_queue <$> threads s !! t).
  { intros t. by rewrite <- !lookup_fmap, Er. }
  split; rewrite ?Em, ?Eb; try done.
  - by rewrite <- (dom_fmap_L Ready_queue), Er, dom_fmap_L.
  - intros p t Hp. destruct (H5 _ _ Hp) as (? & th & Ht & E). split; [done|].
    specialize (Hl t). rewrite Ht in Hl. destruct (threads s' !! t) as [th'|]; [|done].
    cbn in Hl. exists th'. split; [done|]. congruence.
  - intros t th Ht. specialize (Hl t). rewrite Ht in Hl.
    destruct (threads s !! t) as [th'|] eqn:E; [|done]. cbn in Hl.
    destruct (H6 _ _ E) as (p & ? & ?). exists p. split; [done|]. congruence.
Qed.

Lemma at_range p : 0 <= p <= max -> Ready scheduler <= at_ p /\ at_ p + 24 <= at_ (max + 1).
Proof. unfold ready_queue_at. lia. Qed.

(** Words of one queue are not words of another. *)
Lemma words_disjoint s p p' ns ns' k :
  node_layout (dom (threads s)) (Ready scheduler) (at_ (max + 1)) (st_mem s) ->
  0 <= p <= max -> 0 <= p' <= max -> p <> p' ->
  (forall x, x ∈ ns -> x ∈ dom (threads s)) -> (forall x, x ∈ ns' -> x ∈ dom (threads s)) ->
  (forall x, x ∈ ns -> x ∉ ns') ->
  k ∈ chain_words (at_ p) ns -> k ∉ chain_words (at_ p') ns'.
Proof.
  intros [H1 H2] Hp Hp' Hne Hd Hd' Hdis Hk Hk'.
  destruct (at_range p Hp), (at_range p' Hp').
  assert (Hctl : at_ p + 24 <= at_ p' \/ at_ p' + 24 <= at_ p) by (unfold ready_queue_at; lia).
  apply elem_of_chain_words in Hk, Hk'.
  assert (Hn : forall x, x ∈ ns -> x + 16 <= Ready scheduler \/ at_ (max + 1) <= x)
    by (intros x Hx; apply H1; auto).
  assert (Hn' : forall x, x ∈ ns' -> x + 16 <= Ready scheduler \/ at_ (max + 1) <= x)
    by (intros x Hx; apply H1; auto).
  destruct Hk as [?|[?|[?|(x & Hx & Ex)]]], Hk' as [?|[?|[?|(y & Hy & Ey)]]];
    try (specialize (Hn _ Hx)); try (specialize (Hn' _ Hy)); try lia.
  destruct (H2 x y) as [->|?]; auto; [|lia]. by destruct (Hdis _ Hx).
Qed.

(** Replacing the FIFO of priority [p] by [l], a rearrangement of it that
    may gain or lose the thread [t]. *)
Lemma ready_ok_replace s q p t th l m' b' : ready_ok s q -> 0 <= p <= max ->
  threads s !! t = Some th -> Ready_queue th = rq_for p ->
  chain m' (at_ p) l -> changes (chain_words (at_ p) (t :: q p)) (st_mem s) m' ->
  NoDup l -> (forall x, x ∈ l -> x = t \/ x ∈ q p) ->
  (exists P, PriorityBitmap.repr b' P /\ forall p', p' ∈ P <-> q_set p l q p' <> []) ->
  ready_ok (set_queues m' b' s) (q_set p l q).
Proof.
  intros [H1 H2 H3 H4 H5 H6] Hp Ht Hrq Hc Hch Hnd Hl Hb.
  assert (Hin : forall p' x, x ∈ q p' -> x ∈ dom (threads s)).
  { intros p' x Hx. destruct (H5 _ _ Hx) as (_ & thx & Hx' & _). by apply elem_of_dom. }
  split; cbn; [by eapply node_layout_changes| |done| | |done].
  - intros p' Hp'. unfold q_set. case_decide as E; [by subst|].
    eapply chain_frame; [|by apply H2]. intros k Hk. apply Hch. intros Hk'. revert Hk.
    eapply (words_disjoint s p p' (t :: q p)); [done|done|done|done| |by apply Hin| |exact Hk'].
    + intros x [->|Hx]%elem_of_cons; [by apply elem_of_dom|by eapply Hin].
    + intros x Hx Hx'. destruct (H5 _ _ Hx') as (_ & thx & Htx & Ex).
      assert (Ready_queue thx = rq_for p) as Ex'.
      { apply elem_of_cons in Hx as [->|Hx]; [by simplify_eq|].
        destruct (H5 _ _ Hx) as (_ & th2 & ? & ?). by simplify_eq. }
      apply E, rq_for_inj; congruence.
  - intros p'. unfold q_set. by case_decide.
  - intros p' x. unfold q_set. case_decide as E; [|by apply H5]. subst p'. intros Hx.
    destruct (Hl x Hx) as [->|Hx']; [|by apply H5]. split; [done|]. eauto.
Qed.

(** ** The bit map and the queues *)

(** The priorities that are ready after the FIFO of [p] became [l]. *)
Lemma bits_add b q p l P : 0 <= p <= max -> l <> [] ->
  PriorityBitmap.repr b P -> (forall p', p' ∈ P <-> q p' <> []) ->
  exists b', PriorityBitmap._Priority_bit_map_Add b (Priority_map (rq_for p)) = Some b' /\
    exists P', PriorityBitmap.repr b' P' /\ forall p', p' ∈ P' <-> q_set p l q p' <> [].
Proof.
  intros Hp Hl Hb HP. cbn. rewrite u32_small by lia.
  destruct (PriorityBitmap.bit_map_add_refines b P Hb p) as (b' & E & Hb'); [lia|].
  exists b'. split; [done|]. eexists. split; [exact Hb'|]. intros p'.
  unfold q_set. rewrite elem_of_union, elem_of_singleton, HP. case_decide; naive_solver.
Qed.

Lemma bits_remove b q p P : 0 <= p <= max ->
  PriorityBitmap.repr b P -> (forall p', p' ∈ P <-> q p' <> []) ->
  exists b', PriorityBitmap._Priority_bit_map_Remove b (Priority_map (rq_for p)) = Some b' /\
    exists P', PriorityBitmap.repr b' P' /\ forall p', p' ∈ P' <-> q_set p [] q p' <> [].
Proof.
  intros Hp Hb HP. cbn. rewrite u32_small by lia.
  destruct (PriorityBitmap.bit_map_remove_refines b P Hb p) as (b' & E & Hb'); [lia|].
  exists b'. split; [done|]. eexists. split; [exact Hb'|]. intros p'.
  unfold q_set. rewrite elem_of_difference, elem_of_singleton, HP. case_decide; naive_solver.
Qed.

Lemma bits_keep b q p l P : (forall p', p' ∈ P <-> q p' <> []) -> (q p <> [] <-> l <> []) ->
  PriorityBitmap.repr b P ->
  exists P', PriorityBitmap.repr b P' /\ forall p', p' ∈ P' <-> q_set p l q p' <> [].
Proof.
  intros HP Hl Hb. exists P. split; [done|]. intros p'. rewrite HP. unfold q_set.
  by case_decide; subst.
Qed.

(** ** Ready queue operations *)

(** Only the chains and the bit map change. *)
Definition queues_set (s : state) (q' : queues) (s' : state) : Prop :=
  exists m b, s' = set_queues m b s /\ ready_ok s' q'.

Section one_thread.
Context (s : state) (q : queues) (t p : Z) (th : Thread_Control).
Context (Hok : ready_ok s q) (Hp : 0 <= p <= max).
Context (Ht : threads s !! t = Some th) (Hrq : Ready_queue th = rq_for p).

Lemma insert_off : (forall p', t ∉ q p') -> off_chain (st_mem s) (at_ p) (q p) t.
Proof.
  intros Hni. destruct (at_range p Hp). eapply node_layout_off; [by apply Hok|done|done| | |done].
  - intros x Hx. destruct (ro_in _ _ Hok _ _ Hx) as (_ & thx & ? & _). by apply elem_of_dom.
  - by apply elem_of_dom.
Qed.

(** The common end of both enqueue operations. *)
Lemma enqueue_finish l m' : (forall p', t ∉ q p') ->
  chain m' (at_ p) l -> changes (chain_words (at_ p) l) (st_mem s) m' ->
  l ≡ₚ t :: q p ->
  wp (bit_map_Add (Priority_map (rq_for p)))
     (fun _ => queues_set s (q_set p l q)) (set_queues m' (Bit_map s) s).
Proof.
  intros Hni Hc Hch Hl. destruct (ro_bits _ _ Hok) as (P & Hb & HP).
  assert (Hne : l <> []) by (intros ->; by apply Permutation_nil_cons in Hl).
  destruct (bits_add (Bit_map s) q p l P Hp Hne Hb HP) as (b' & E & HP').
  unfold wp, bit_map_Add. cbn [Bit_map set_queues]. rewrite E.
  exists m', b'. split; [done|]. change (set_queues _ _ (set_queues m' (Bit_map s) s)) with (set_queues m' b' s).
  eapply ready_ok_replace; eauto.
  - eapply changes_words_mono; [|exact Hch]. intros x. by rewrite Hl.
  - rewrite Hl. apply NoDup_cons. split; [done|by apply Hok].
  - intros x. rewrite Hl. by rewrite elem_of_cons.
Qed.

Lemma enqueue_spec : (forall p', t ∉ q p') ->
  wp (_Scheduler_priority_Ready_queue_enqueue t (rq_for p))
     (fun _ => queues_set s (q_append t p q)) s.
Proof.
  intros Hni. apply wp_bind. cbn [ready_chain rq_for].
  eapply append_spec; [by apply Hok|by apply insert_off|].
  intros m' Hc Hch. apply enqueue_finish; [done|done|done|].
  by rewrite Permutation_app_comm.
Qed.

Lemma enqueue_first_spec : (forall p', t ∉ q p') ->
  wp (_Scheduler_priority_Ready_queue_enqueue_first t (rq_for p))
     (fun _ => queues_set s (q_prepend t p q)) s.
Proof.
  intros Hni. apply wp_bind. cbn [ready_chain rq_for].
  eapply prepend_spec; [by apply Hok|by apply insert_off|].
  intros m' Hc Hch. by apply enqueue_finish.
Qed.

Lemma chain_mapped m c ns : chain m c ns ->
  forall k, k ∈ [c; c + 8; c + 16] -> is_Some (m !! k).
Proof.
  intros (_ & Hl & Hn) k Hk. pose proof (dlist_first _ _ _ _ _ _ Hl) as H1.
  pose proof (dlist_last _ _ _ _ _ _ Hl) as H2. unfold NODE_NEXT, NODE_PREVIOUS in *.
  rewrite Z.add_0_r in H1. replace (c + 8 + 8) with (c + 16) in H2 by lia.
  set_unfold in Hk. naive_solver.
Qed.

Lemma queue_extract_spec : t ∈ q p ->
  wp (_Scheduler_priority_Ready_queue_extract t (rq_for p))
     (fun _ => queues_set s (q_remove t p q)) s.
Proof.
  intros Hin. apply wp_bind. cbn [ready_chain rq_for].
  pose proof (ro_chain _ _ Hok p Hp) as Hc. pose proof (ro_nodup _ _ Hok p) as Hnd.
  eapply has_only_one_node_spec; [exact Hc|]. destruct (ro_bits _ _ Hok) as (P & Hb & HP).
  case_bool_decide as Hlen.
  - assert (Hq : q p = [t]).
    { destruct (q p) as [|y [|z l]]; [done| |done]. set_solver. }
    assert (Hrm : q_remove t p q = q_set p [] q).
    { unfold q_remove. rewrite Hq. by rewrite filter_cons_False by naive_solver. }
    rewrite Hrm. apply wp_bind. apply initialize_empty_spec; [by eapply chain_mapped|].
    intros m' Hc' Hch. unfold _Chain_Initialize_node. apply wp_bind, wp_ret.
    destruct (bits_remove (Bit_map s) q p P Hp Hb HP) as (b' & E & HP').
    unfold wp, bit_map_Remove. cbn [Bit_map set_queues set_mem state_HasMem]. rewrite E.
    exists m', b'. split; [done|].
    change (set_queues _ _ (set_queues m' (Bit_map s) s)) with (set_queues m' b' s).
    eapply ready_ok_replace; eauto.
    + eapply changes_words_mono; [|exact Hch]. set_solver.
    + apply NoDup_nil_2.
    + set_solver.
  - unfold q_remove. apply list_elem_of_split in Hin as (l1 & l2 & Hq). rewrite Hq in *.
    rewrite filter_ne_split by done. eapply extract_spec; [exact Hc|].
    intros m' Hc' Hch. exists m', (Bit_map s). split; [done|].
    eapply ready_ok_replace; eauto.
    + eapply changes_words_mono; [|exact Hch]. intros x. rewrite Hq. clear. set_solver.
    + eapply sublist_NoDup; [exact Hnd|]. apply sublist_app; [done|]. by apply sublist_cons.
    + intros x. rewrite Hq. clear. set_solver.
    + eapply bits_keep; [done| |done]. rewrite Hq. destruct l1, l2; cbn in *; naive_solver.
Qed.
End one_thread.

Lemma queue_first_spec s q x p : ready_ok s q -> x ∈ q p ->
  wp (_Scheduler_priority_Ready_queue_first (Ready scheduler))
     (fun r s' => s' = s /\ most_urgent q r) s.
Proof.
  intros Hok Hx. destruct (ro_bits _ _ Hok) as (P & Hb & HP).
  assert (HxP : p ∈ P) by (apply HP; intros E; rewrite E in Hx; set_solver).
  destruct (PriorityBitmap.bit_map_highest_minimal _ _ Hb _ HxP) as (h & E & Hh & Hmin).
  apply wp_bind. unfold wp at 1, bit_map_Get_highest. rewrite E.
  apply HP in Hh. destruct (q h) as [|y l] eqn:Eq; [done|].
  assert (Hr : 0 <= h <= max) by (apply (ro_in _ _ Hok h y); rewrite Eq; set_solver).
  pose proof (ro_chain _ _ Hok h Hr) as (_ & Hl & _). rewrite Eq in Hl.
  apply dlist_first in Hl. unfold _Chain_First, next, _Chain_Head.
  eapply wp_load; [exact Hl|]. split; [done|]. exists h. rewrite Eq. split; [done|].
  intros p' Hp'. destruct (q p') eqn:E'; [done|]. assert (p' ∈ P) by (apply HP; by rewrite E').
  specialize (Hmin p' ltac:(done)). lia.
Qed.

Lemma schedule_body_spec s q h t x p f : ready_ok s q ->
  threads s !! heir s = Some h -> x ∈ q p ->
  wp (_Scheduler_priority_Schedule_body scheduler t f) (fun _ s' => exists r,
    most_urgent q r /\ heir_set s s' (if is_preemptible h || f then r else heir s)) s.
Proof.
  intros Hok Hh Hx. apply wp_bind. eapply wp_mono; [by eapply queue_first_spec|].
  intros r s' [-> Hr]. eapply wp_mono; [by apply update_heir_spec|]. eauto.
Qed.

(** * The interface *)

Definition priority_repr (s : state) (q : queues) : Prop := ready_ok s q /\ waits s q.

Lemma ready_ok_eq s q q' : (forall p, q p = q' p) -> ready_ok s q -> ready_ok s q'.
Proof.
  intros E [H1 H2 (P & Hb & HP) H4 H5 H6]. split; try done.
  - intros p. rewrite <- E. auto.
  - exists P. split; [done|]. intros p. by rewrite <- E.
  - intros p. by rewrite <- E.
  - intros p t. rewrite <- E. auto.
Qed.

Lemma priority_queued s q : priority_repr s q -> queued s q.
Proof.
  intros [Hok Hw]. split; [apply Hok|]. intros p t Ht. split; [by apply (ro_in _ _ Hok _ _ Ht)|].
  specialize (Hw _ _ Ht). destruct (threads s !! t) as [th|]; [|done]. cbn in Hw.
  exists th. by simplify_eq.
Qed.

Lemma priority_ext s s' q : priority_repr s q ->
  st_mem s' = st_mem s -> Bit_map s' = Bit_map s -> EDF s' = EDF s ->
  Ready_queue <$> threads s' = Ready_queue <$> threads s ->
  (forall p t, t ∈ q p ->
    Wait_Priority <$> threads s' !! t = Wait_Priority <$> threads s !! t) ->
  priority_repr s' q.
Proof.
  intros [Hok Hw] ? ? _ ? ?. split; [by eapply ready_ok_ext|by eapply waits_ext].
Qed.

Lemma heir_set_ready s s' q x : heir_set s s' x -> priority_repr s q -> priority_repr s' q.
Proof.
  intros [] [Hok Hw]. split; [by eapply ready_ok_ext|by eapply waits_core].
Qed.

Lemma priority_schedule s q h t x p : priority_repr s q ->
  threads s !! heir s = Some h -> x ∈ q p ->
  wp (_Scheduler_priority_Schedule scheduler t)
     (fun _ => step_ok priority_repr s q (elected s h q)) s.
Proof.
  intros Hr Hh Hx. eapply wp_mono; [by eapply schedule_body_spec; [apply Hr|..]|].
  intros [] s' (r & Hu & Hs). rewrite orb_false_r in Hs.
  eapply heir_set_step; [exact Hs|by eapply heir_set_ready| |done..].
  unfold elected. by destruct (is_preemptible h).
Qed.

(** The rotation of a FIFO by yield. *)
Lemma rotate_spec s q t p th : ready_ok s q -> threads s !! t = Some th -> t ∈ q p ->
  wp (_Chain_Extract_unprotected t;; _Chain_Append_unprotected (at_ p) t)
     (fun _ => queues_set s (q_move t p p false q)) s.
Proof.
  intros Hok Ht Hin. destruct (ro_in _ _ Hok _ _ Hin) as (Hp & th' & Ht' & Hrq).
  rewrite Ht in Ht'. injection Ht' as <-.
  pose proof (ro_chain _ _ Hok p Hp) as Hc. pose proof (ro_nodup _ _ Hok p) as Hnd.
  destruct (list_elem_of_split _ _ Hin) as (l1 & l2 & Hq). rewrite Hq in Hc, Hnd.
  assert (Hf : filter (.≠ t) (q p) = l1 ++ l2) by (rewrite Hq; by apply filter_ne_split).
  assert (Hni : t ∉ l1 ++ l2).
  { rewrite <- Permutation_middle in Hnd. by apply NoDup_cons in Hnd as [? _]. }
  apply wp_bind. eapply extract_spec; [exact Hc|]. intros m1 Hc1 Hch1. destruct (at_range p Hp).
  eapply append_spec; [exact Hc1| |].
  { eapply node_layout_off; [eapply node_layout_changes; [exact Hch1|by apply Hok]|done|done| |by apply elem_of_dom|done].
    intros x Hx. destruct (ro_in _ _ Hok p x) as (_ & thx & ? & _); [rewrite Hq; clear -Hx; set_solver|].
    by apply elem_of_dom. }
  intros m2 Hc2 Hch2. exists m2, (Bit_map s). split; [done|].
  apply (ready_ok_eq _ (q_set p ((l1 ++ l2) ++ [t]) q)).
  { intros r. by rewrite q_move_same, Hf. }
  destruct (ro_bits _ _ Hok) as (P & Hb & HP).
  eapply (ready_ok_replace s q p t th); try done.
  - eapply changes_trans; [eapply changes_words_mono; [|exact Hch1]|eapply changes_words_mono; [|exact Hch2]];
      intros x; rewrite Hq; clear; set_solver.
  - rewrite Permutation_app_comm. apply NoDup_cons. split; [done|].
    eapply sublist_NoDup; [exact Hnd|]. apply sublist_app; [done|]. by apply sublist_cons.
  - intros x. rewrite Hq. clear. set_solver.
  - eapply bits_keep; [done| |done]. rewrite Hq. destruct l1, l2; cbn; naive_solver.
Qed.

Lemma priority_yield s q h t p : priority_repr s q ->
  threads s !! heir s = Some h -> t ∈ q p ->
  let q' := q_move t p p false q in
  wp (_Scheduler_priority_Yield scheduler t) (fun _ => step_ok priority_repr s q'
    (fun x => most_urgent q' x \/ (is_preemptible h = false /\ x = heir s))) s.
Proof.
  intros [Hok Hw] Hh Hin q'. destruct (ro_in _ _ Hok _ _ Hin) as (Hp & th & Ht & Hrq).
  apply wp_bind. eapply wp_get_thread; [done|]. cbv zeta. rewrite Hrq. cbn [ready_chain rq_for].
  apply wp_bind. eapply has_only_one_node_spec; [by apply Hok|].
  assert (Hin' : t ∈ q' p) by (apply elem_q_move; auto).
  assert (Hw' : waits s q').
  { intros r x. unfold q'. rewrite elem_q_move. intros [[? _]|[-> ->]]; by apply Hw. }
  apply wp_bind. eapply (wp_mono _ (fun _ => queues_set s q')).
  - apply wp_whenM; [intros _; by eapply rotate_spec|].
    intros Hb. bool_hyps. exists (st_mem s), (Bit_map s). split; [by destruct s|].
    eapply ready_ok_eq; [|exact Hok]. intros r. unfold q'. rewrite q_move_same.
    unfold q_set. destruct (decide (p = r)) as [<-|]; [|done]. revert Hb Hin. clear. destruct (q p) as [|y [|z l]]; [done| |done].
    intros _ Hin. apply list_elem_of_singleton in Hin as ->.
    by rewrite filter_cons_False by naive_solver.
  - intros [] s1 (m & b & -> & Hok'). eapply wp_mono; [by eapply schedule_body_spec|].
    intros [] s' (r & Hu & Hs). rewrite orb_true_r in Hs.
    eapply heir_set_step; [exact Hs|by eapply heir_set_ready|by left|done..].
Qed.

Lemma priority_block s q h t p x p' : priority_repr s q -> threads s !! heir s = Some h ->
  t ∈ q p -> x ∈ q p' -> x <> t ->
  let q' := q_remove t p q in
  wp (_Scheduler_priority_Block scheduler t) (fun _ => step_ok priority_repr s q'
    (fun y => if bool_decide (t = executing s \/ t = heir s)
              then most_urgent q' y else y = heir s)) s.
Proof.
  intros [Hok Hw] Hh Hin Hx Hne q'. destruct (ro_in _ _ Hok _ _ Hin) as (Hp & th & Ht & Hrq).
  assert (Hw' : waits s q') by (intros r y; unfold q'; rewrite elem_q_remove; intros [? _]; by apply Hw).
  do 2 apply wp_bind. eapply wp_get_thread; [done|]. rewrite Hrq.
  eapply wp_mono; [by eapply queue_extract_spec|]. intros [] s1 (m & b & -> & Hok').
  unfold _Thread_Is_executing, _Thread_Is_heir. wp_steps. cbn [executing heir set_queues].
  apply wp_whenM; intros Hc.
  - rewrite bool_decide_eq_true_2 by (apply orb_true_iff in Hc as [?|?]; bool_hyps; auto).
    eapply wp_mono; [eapply (schedule_body_spec _ q' h t x p'); [done|done|]|].
    { apply elem_q_remove. naive_solver. }
    intros [] s' (r & Hu & Hs). rewrite orb_true_r in Hs.
    by eapply heir_set_step; [exact Hs|eapply heir_set_ready|..].
  - apply orb_false_iff in Hc as [? ?]. bool_hyps. rewrite bool_decide_eq_false_2 by naive_solver.
    by eapply heir_set_step; [apply heir_set_same|..].
Qed.

(** Giving a thread that is on no queue the data of priority [p]. *)
Lemma ready_ok_upd s q t th th' p : ready_ok s q -> threads s !! t = Some th ->
  0 <= p <= max -> (forall p', t ∉ q p') -> Ready_queue th' = rq_for p ->
  ready_ok (upd t th' s) q.
Proof.
  intros [H1 H2 H3 H4 H5 H6] Ht Hp Hni Hrq. split; try done.
  - by rewrite (upd_dom t th).
  - intros p' x Hx. cbn. rewrite lookup_insert_ne; [by apply H5|]. intros ->. by destruct (Hni p').
  - cbn. intros x thx [[<- <-]|[_ Hx]]%lookup_insert_Some; eauto.
Qed.

Lemma upd_core s t th th' : threads s !! t = Some th -> core th' = core th ->
  core <$> threads (upd t th' s) = core <$> threads s.
Proof.
  intros Ht E. cbn. rewrite fmap_insert, E. apply insert_id. by rewrite lookup_fmap, Ht.
Qed.

Lemma upd_same s t th : threads s !! t = Some th -> upd t th s = s.
Proof. intros Ht. unfold upd. rewrite insert_id by done. by destruct s. Qed.

Lemma rq_current p : 0 <= p <= max -> current_priority (rq_for p) = p.
Proof. intros. cbn. apply u32_small. lia. Qed.

Lemma priority_unblock s q h t th p : priority_repr s q -> threads s !! heir s = Some h ->
  threads s !! t = Some th -> Wait_Priority th = p -> Priority_value th = p ->
  0 <= p <= max -> (forall p', t ∉ q p') ->
  wp (_Scheduler_priority_Unblock scheduler t) (fun _ => step_ok priority_repr s (q_append t p q)
    (fun y => y = if (p <? Wait_Priority h) &&
                     (is_preemptible h || (p =? PRIORITY_PSEUDO_ISR))
                  then t else heir s)) s.
Proof.
  intros [Hok Hw] Hh Ht Hwp Hpv Hp Hni. unfold _Scheduler_priority_Unblock, _Scheduler_Node_get_priority.
  do 2 apply wp_bind. eapply wp_get_thread; [done|]. apply wp_ret. rewrite Hpv. cbv zeta.
  rewrite (u32_small p) by lia. apply wp_bind. eapply wp_get_thread; [done|].
  set (th1 := set_Ready_queue (rq_for p) th).
  assert (Hok1 : ready_ok (upd t th1 s) q) by by eapply ready_ok_upd.
  assert (Hc1 : core <$> threads (upd t th1 s) = core <$> threads s) by by eapply upd_core.
  assert (Hl : threads (upd t th1 s) !! t = Some th1) by apply lookup_insert_eq.
  apply wp_bind. eapply (wp_mono _ (fun _ s' => s' = upd t th1 s)).
  { apply wp_whenM; [done|]. intros Hc. bool_hyps. symmetry.
    destruct (ro_rq _ _ Hok _ _ Ht) as (c & Hcr & Hrq). rewrite Hrq, rq_current in Hc by done.
    subst c. replace th1 with th; [by apply upd_same|]. unfold th1. rewrite <- Hrq. by destruct th. }
  intros [] s1 ->. apply wp_bind. eapply wp_get_thread; [exact Hl|].
  apply wp_bind. eapply wp_mono; [by eapply enqueue_spec|]. intros [] s2 (m & b & -> & Hok2).
  destruct (core_lookup _ _ _ _ Hc1 Hh) as (h1 & Hh1 & _ & Hpre & Hwait & _).
  apply wp_bind, wp_gets. do 2 apply wp_bind. eapply wp_get_thread; [exact Hh1|]. apply wp_ret.
  assert (Hw2 : waits (set_queues m b (upd t th1 s)) (q_append t p q)).
  { eapply (waits_core s); [done|]. intros r x. rewrite elem_q_append.
    intros [?|[-> ->]]; [by apply Hw|]. rewrite Ht. cbn. congruence. }
  rewrite Hwait. destruct (p <? Wait_Priority h) eqn:Hlt; cbn [andb whenM].
  - eapply wp_mono; [by eapply update_heir_spec|]. intros [] s' Hs. rewrite Hpre in Hs.
    by eapply heir_set_step; [exact Hs|eapply heir_set_ready|..].
  - apply wp_ret. by eapply heir_set_step; [apply heir_set_same|..].
Qed.

Lemma priority_update s q h t th p p' b : priority_repr s q -> threads s !! heir s = Some h ->
  threads s !! t = Some th -> current_state th = STATES_READY -> t ∈ q p ->
  0 <= p' <= max ->
  let s1 := upd t (set_priorities p' p' b th) s in
  wp (_Scheduler_priority_Update_priority scheduler t) (fun _ s' =>
    (p' = p /\ s' = s1) \/
    step_ok priority_repr s1 (q_move t p p' b q) (elected s h (q_move t p p' b q)) s') s1.
Proof.
  intros [Hok Hw] Hh Ht Hst Hin Hp' s1. destruct (ro_in _ _ Hok _ _ Hin) as (Hp & th0 & Ht0 & Hrq).
  rewrite Ht in Ht0. injection Ht0 as <-. set (th1 := set_priorities p' p' b th) in *.
  assert (Hl : threads s1 !! t = Some th1) by apply lookup_insert_eq.
  assert (Hok1 : ready_ok s1 q).
  { eapply ready_ok_ext; [exact Hok|done|done|]. cbn. rewrite fmap_insert. apply insert_id.
    by rewrite lookup_fmap, Ht. }
  assert (Hni : forall r, t ∉ q_remove t p q r).
  { intros r. rewrite elem_q_remove. intros [Hr Hn]. apply Hn.
    split; [done|]. by eapply ready_ok_same_queue. }
  unfold _Scheduler_priority_Update_priority, _Thread_Is_ready, _Scheduler_Node_get_priority.
  do 2 apply wp_bind. eapply wp_get_thread; [exact Hl|]. apply wp_ret.
  unfold _States_Is_ready. cbn [current_state th1 set_priorities]. rewrite Hst, Z.eqb_refl. cbn [negb].
  do 2 apply wp_bind. eapply wp_get_thread; [exact Hl|]. apply wp_ret. cbv zeta.
  apply wp_bind. eapply wp_get_thread; [exact Hl|]. cbn [Priority_value Priority_prepend_it th1 set_priorities].
  rewrite (u32_small p') by lia. change (Ready_queue th1) with (Ready_queue th). rewrite Hrq, rq_current by done.
  destruct (Z.eqb_spec p' p) as [->|Hne]; [by left|].
  apply wp_bind. eapply wp_mono; [by eapply queue_extract_spec|]. intros [] s2 (m & bm & -> & Hok2).
  apply wp_bind. set (th2 := set_Ready_queue _ _).
  set (s3 := upd t th2 (set_queues m bm s1)).
  assert (Hok3 : ready_ok s3 (q_remove t p q)) by by apply (ready_ok_upd _ _ t th1 th2 p').
  assert (Hc3 : core <$> threads s3 = core <$> threads s1)
    by (by apply (upd_core (set_queues m bm s1) t th1)).
  assert (Hl3 : threads s3 !! t = Some th2) by apply lookup_insert_eq.
  change (wp (put_thread t th2) ?Q _) with (Q tt s3). cbv beta.
  apply wp_bind. eapply (wp_mono _ (fun _ => queues_set s3 (q_move t p p' b q))).
  { destruct b; [by eapply enqueue_first_spec|by eapply enqueue_spec]. }
  intros [] s4 (m4 & b4 & -> & Hok4).
  assert (Hh1 : threads s1 !! heir s1 = Some (if decide (t = heir s) then th1 else h)) by by apply upd_heir.
  destruct (core_lookup _ _ _ _ Hc3 Hh1) as (h3 & Hh3 & _ & Hpre & _).
  eapply wp_mono; [eapply (schedule_body_spec _ _ h3 t t p'); [exact Hok4|exact Hh3|]|].
  { apply elem_q_move. auto. }
  intros [] s' (r & Hu & Hs). right. rewrite orb_false_r in Hs.
  assert (Hpre' : is_preemptible h3 = is_preemptible h).
  { rewrite Hpre. case_decide; [|done]. subst t. simplify_eq. done. }
  eapply heir_set_step; [exact Hs| | |exact Hc3|done..].
  - eapply heir_set_ready; [exact Hs|]. split; [done|]. eapply (waits_core s1); [exact Hc3|].
    intros p2 x. rewrite elem_q_move. cbn. intros [[Hx Hn]|[-> ->]]; [|by rewrite lookup_insert_eq].
    rewrite lookup_insert_ne; [by apply Hw|]. intros <-. apply Hn. split; [done|].
    exact (ready_ok_same_queue s q _ _ _ Hok Hx Hin).
  - unfold elected. rewrite Hpre'. by destruct (is_preemptible h).
Qed.

Lemma priority_update_blocked s t th : threads s !! t = Some th ->
  current_state th <> STATES_READY ->
  wp (_Scheduler_priority_Update_priority scheduler t) (fun _ s' => s' = s) s.
Proof.
  intros Ht Hn. unfold _Scheduler_priority_Update_priority, _Thread_Is_ready.
  do 2 apply wp_bind. eapply wp_get_thread; [done|]. apply wp_ret.
  unfold _States_Is_ready. apply Z.eqb_neq in Hn as ->. done.
Qed.

#[export] Instance priority_laws
    : SchedulerLaws (SCHEDULER_PRIORITY_ENTRY_POINTS scheduler) (up_to max) :=
  Build_SchedulerLaws (SCHEDULER_PRIORITY_ENTRY_POINTS scheduler) (up_to max) priority_repr
    priority_queued priority_ext priority_schedule priority_yield priority_block
    priority_unblock priority_update priority_update_blocked.

(** * Initialization *)

(** The control blocks of the ready chains are mapped. *)
Definition context_mapped (m : mem) : Prop :=
  forall p k, 0 <= p <= max -> k ∈ [at_ p; at_ p + 8; at_ p + 16] -> is_Some (m !! k).

Lemma priority_initialize_spec s : context_mapped (st_mem s) ->
  wp (_Scheduler_priority_Initialize scheduler) (fun _ s' => exists m,
    s' = set_queues m (Bit_map s) s /\
    (forall p, 0 <= p <= max -> chain m (at_ p) []) /\
    (forall k, is_Some (st_mem s !! k) -> is_Some (m !! k))) s.
Proof.
  intros Hmap. unfold _Scheduler_priority_Initialize, _Scheduler_priority_Ready_queue_initialize.
  eapply (wp_whileM _ (fun k i s' => 0 <= i <= max + 1 /\ k = max + 1 - i /\ exists m,
    s' = set_queues m (Bit_map s) s /\
    (forall p, 0 <= p < i -> chain m (at_ p) []) /\
    (forall k, is_Some (st_mem s !! k) -> is_Some (m !! k)))).
  - intros k i s' (Hi & -> & m & -> & Hc & Hm). destruct (Z.leb_spec i max).
    + apply wp_bind, initialize_empty_spec.
      { intros k Hk. apply Hm, (Hmap i); [lia|done]. }
      intros m' Hc' Hch. apply wp_ret. exists (max - i). split; [lia|].
      split_and!; [lia..|]. exists m'. split_and!; [done| |].
      * intros p Hp. destruct (decide (p = i)) as [->|]; [done|].
        eapply chain_frame; [|apply Hc; lia]. intros k Hk. apply Hch. intros Hk'.
        apply elem_of_chain_words in Hk, Hk'. unfold ready_queue_at in *.
        destruct Hk as [?|[?|[?|(? & ?%not_elem_of_nil & _)]]],
          Hk' as [?|[?|[?|(? & ?%not_elem_of_nil & _)]]]; done || lia.
      * intros k Hk. apply Hch, Hm, Hk.
    + apply wp_ret. exists m. split_and!; [done| |done]. intros p Hp. apply Hc. lia.
  - split_and!; [lia|lia|reflexivity|]. exists (st_mem s). split_and!; [by destruct s|intros; lia|done].
  - lia.
Qed.

(** [_Scheduler_priority_Node_initialize] for each thread and priority. *)
Fixpoint init_nodes (l : list (Z * Z)) : M state unit :=
  match l with
  | [] => mret tt
  | (t, p) :: l' => _Scheduler_priority_Node_initialize scheduler t p;; init_nodes l'
  end.

(** What the node initialization makes of a thread. *)
Definition node_initialized (p : Z) (th : Thread_Control) : Thread_Control :=
  set_Ready_queue (rq_for p) (set_priorities (Wait_Priority th) p false th).

Lemma init_nodes_spec s l : NoDup l.*1 -> (forall t p, (t, p) ∈ l -> is_Some (threads s !! t)) ->
  wp (init_nodes l) (fun _ s' => exists ts, s' = set_threads ts s /\
    dom ts = dom (threads s) /\
    (forall t, t ∉ l.*1 -> ts !! t = threads s !! t) /\
    (forall t p, (t, p) ∈ l -> ts !! t = node_initialized p <$> threads s !! t)) s.
Proof.
  revert s. induction l as [|[t p] l IH]; intros s Hnd Hin; cbn [init_nodes].
  - apply wp_ret. exists (threads s). split_and!; [by destruct s|done|done|set_solver].
  - cbn in Hnd. apply NoDup_cons in Hnd as [Hni Hnd]. destruct (Hin t p) as [th Ht]; [set_solver|].
    do 2 apply wp_bind. eapply wp_get_thread; [done|].
    change (wp (put_thread t ?x) ?Q s) with (Q tt (upd t x s)). cbv beta.
    pose proof (upd_dom t th (node_initialized p th) s Ht) as Hdom.
    eapply wp_mono; [apply (IH (upd t (node_initialized p th) s)); [done|]|].
    { intros x r Hx. apply elem_of_dom. rewrite Hdom. apply elem_of_dom, (Hin x r). set_solver. }
    intros [] s' (ts & -> & Hd & Ho & Hl). cbn in Ho, Hl. exists ts. split_and!; [done|congruence| |].
    + intros x Hx. cbn in Hx. rewrite Ho by set_solver. rewrite lookup_insert_ne; [done|set_solver].
    + intros x r [[= -> ->]|Hx]%elem_of_cons.
      * rewrite Ho by done. by rewrite lookup_insert_eq, Ht.
      * rewrite (Hl _ _ Hx). rewrite lookup_insert_ne; [done|]. intros <-. apply Hni.
        apply list_elem_of_fmap. by exists (t, r).
Qed.

(** ** Boot *)

Definition priority_boot (idle : Z) (l : list (Z * Z)) : M state unit :=
  _Scheduler_priority_Initialize scheduler;;
  init_nodes l;;
  thread_create_idle_start (SCHEDULER_PRIORITY_ENTRY_POINTS scheduler) idle.

(** The kernel memory before the scheduler starts: the context is mapped and
    its bit map zeroed, the threads [l] with their priorities exist, none of
    them is ready, and their chain nodes share no word with the context or
    with each other. *)
Record bootable (idle : Z) (l : list (Z * Z)) (s : state) : Prop := {
  b_layout : node_layout (dom (threads s)) (Ready scheduler) (at_ (max + 1)) (st_mem s);
  b_mapped : context_mapped (st_mem s);
  b_bits : Bit_map s = PriorityBitmap._Priority_bit_map_Initialize (Bit_map s);
  b_nodup : NoDup l.*1;
  b_in t p : (t, p) ∈ l -> is_Some (threads s !! t);
  b_all t th : threads s !! t = Some th ->
    (t, Wait_Priority th) ∈ l /\ 0 <= Wait_Priority th <= max /\ current_state th <> STATES_READY;
  b_idle : is_Some (threads s !! idle);
}.

Lemma priority_boot_spec idle l s : bootable idle l s ->
  wp (priority_boot idle l) (fun _ s' => heir s' = idle /\ dom (threads s') = dom (threads s) /\
    exists p, wf (SCHEDULER_PRIORITY_ENTRY_POINTS scheduler) (up_to max) (L := priority_laws) idle s'
      (q_append idle p (fun _ => []))) s.
Proof.
  intros [H1 H2 H3 H4 H5 H6 [ith Hi]]. apply wp_bind. eapply wp_mono; [by apply priority_initialize_spec|].
  intros [] s1 (m & -> & Hc & Hm). apply wp_bind. eapply wp_mono; [by apply init_nodes_spec|].
  intros [] s2 (ts & -> & Hd & _ & Hl). cbn in Hd, Hl.
  assert (Hts : forall t th, ts !! t = Some th -> exists th0, threads s !! t = Some th0 /\
    th = node_initialized (Wait_Priority th0) th0).
  { intros t th Ht. destruct (threads s !! t) as [th0|] eqn:E.
    - exists th0. split; [done|]. destruct (H6 _ _ E) as [Hin _]. specialize (Hl _ _ Hin).
      rewrite E, Ht in Hl. cbn in Hl. by simplify_eq.
    - apply elem_of_dom_2 in Ht. rewrite Hd in Ht. apply elem_of_dom in Ht as [? ?]. congruence. }
  assert (Hi2 : ts !! idle = Some (node_initialized (Wait_Priority ith) ith)).
  { rewrite (Hl idle (Wait_Priority ith)), Hi by by apply H6. done. }
  eapply wp_mono; [eapply (create_idle_ok _ _ (L := priority_laws)); [|exact Hi2|]|].
  - split; [|by intros p t ?%not_elem_of_nil]. split; cbn.
    + rewrite Hd. destruct H1 as [Ha Hb]. split; [|done]. intros t Ht.
      destruct (Ha t Ht) as (? & ? & ?). auto.
    + done.
    + exists ∅. split; [rewrite H3; apply PriorityBitmap.bit_map_initialize_empty|set_solver].
    + intros _. apply NoDup_nil_2.
    + by intros p t ?%not_elem_of_nil.
    + intros t th Ht. destruct (Hts _ _ Ht) as (th0 & Ht0 & ->). exists (Wait_Priority th0).
      split; [|done]. by apply (H6 _ _ Ht0).
  - cbn. intros t th Ht. destruct (Hts _ _ Ht) as (th0 & Ht0 & ->). cbn.
    destruct (H6 _ _ Ht0) as (_ & ? & ?). done.
  - intros [] s' (Hwf & Hh & Hdom). split_and!; [done| |eauto]. cbn in Hdom. congruence.
Qed.

End proofs.

(** C2. From boot on, the deterministic priority scheduler elects the right
    thread.  For every scheduler instance, every set of threads whose chain
    nodes lie apart, and every sequence of state changes, yields, priority
    changes, preemption mode changes, clock ticks and dispatches that respects
    the callers' contract, no step touches unmapped memory or scans an empty
    bit map, the ready chains evolve as one FIFO per priority (the relation
    [qstep]), every state on the way satisfies the invariant, and in the end
    the heir is ready, has the most urgent priority of all ready threads and
    is the first of its FIFO, unless it disabled preemption.  At the pseudo
    interrupt priority, whose threads preempt even a heir that disabled
    preemption, the heir need not be the first of its FIFO. *)
Theorem priority_scheduler_correct scheduler (Hmax : 0 <= maximum_priority scheduler < 256)
    ticks idle l s os :
  let ops := SCHEDULER_PRIORITY_ENTRY_POINTS scheduler in
  bootable scheduler idle l s ->
  Forall (legal (up_to (maximum_priority scheduler)) idle (dom (threads s))) os ->
  exists s0 p0 s' q', priority_boot scheduler idle l s = Some (tt, s0) /\
    heir s0 = idle /\ run_ops ops ticks os s0 = Some (tt, s') /\
    trace ops (up_to (maximum_priority scheduler)) (L := priority_laws scheduler Hmax) ticks idle
      s0 (q_append idle p0 (fun _ => [])) os s' q' /\
    heir_correct s' q'.
Proof.
  intros ops Hb Hl. destruct (proj1 (wp_run _ _ _) (priority_boot_spec scheduler Hmax idle l s Hb))
    as ([] & s0 & E & Hh & Hd & p & Hwf).
  destruct (run_ops_trace _ _ ticks idle os s0 _ Hwf) as (s' & q' & E' & Ht & Hwf'); [by rewrite Hd|].
  exists s0, p, s', q'. split_and!; try done. by eapply wf_heir_correct.
Qed.

Definition sample_scheduler : Scheduler_Control := {| maximum_priority := 3; Ready := 1000 |}.

Definition sample_nodes : list (Z * Z) := [(2000, 3); (2016, 1); (2032, 1)].

Lemma sample_bootable : bootable sample_scheduler 2000 sample_nodes sample_kernel.
Proof.
  split.
  - by apply sample_layout.
  - intros p k Hp Hk. unfold ready_queue_at in Hk. cbn in Hp, Hk.
    assert (p = 0 \/ p = 1 \/ p = 2 \/ p = 3) as Hp' by lia. set_unfold in Hk.
    destruct Hp' as [->|[->|[->| ->]]]; destruct Hk as [->|[->|[->|[]]]]; by eexists.
  - done.
  - apply (bool_decide_unpack _). vm_compute. reflexivity.
  - intros t p Hin. unfold sample_nodes in Hin. set_unfold in Hin.
    destruct Hin as [[= -> ->]|[[= -> ->]|[[= -> ->]|[]]]]; by eexists.
  - intros t th Ht. pose proof (elem_of_dom_2 _ _ _ Ht) as Hd. apply sample_threads_elem in Hd.
    destruct Hd as [->|[->| ->]]; vm_compute in Ht; injection Ht as <-;
      (split; [unfold sample_nodes; set_solver|split; [cbn; lia|done]]).
  - by eexists.
Qed.

Lemma priority_scheduler_correct_witness : exists s0 p0 s' q',
  priority_boot sample_scheduler 2000 sample_nodes sample_kernel = Some (tt, s0) /\
  run_ops (SCHEDULER_PRIORITY_ENTRY_POINTS sample_scheduler) 10 sample_ops s0 = Some (tt, s') /\
  trace (SCHEDULER_PRIORITY_ENTRY_POINTS sample_scheduler) (up_to 3)
    (L := priority_laws sample_scheduler ltac:(cbn; lia)) 10 2000
    s0 (q_append 2000 p0 (fun _ => [])) sample_ops s' q' /\ heir_correct s' q'.
Proof.
  destruct (priority_scheduler_correct sample_scheduler ltac:(cbn; lia) 10 2000 sample_nodes
    sample_kernel sample_ops sample_bootable sample_legal)
    as (s0 & p0 & s' & q' & H1 & _ & H3 & H4 & H5).
  exists s0, p0, s', q'. exact (conj H1 (conj H3 (conj H4 H5))).
Defined.

(** The sample run ends with the first thread as heir and executing. *)
Example sample_run_heir :
  (heir ∘ snd) <$> (priority_boot sample_scheduler 2000 sample_nodes;;
    run_ops (SCHEDULER_PRIORITY_ENTRY_POINTS sample_scheduler) 10 sample_ops) sample_kernel
  = Some 2016.
Proof. vm_compute. reflexivity. Qed.

End SchedulerPriority.
