(* ===== verification/SchedulerSimple.v ===== *)
(** The simple priority scheduler (score/schedulersimpleimpl.h,
    schedulersimple.c, schedulersimpleblock.c, schedulersimpleunblock.c,
    schedulersimpleyield.c, schedulersimpleschedule.c,
    schedulersimplechangepriority.c): one chain of all ready threads, kept
    sorted by priority, as an instance of the scheduler interface.  It also
    serves as the reference the deterministic priority scheduler is compared
    with. *)

From S2P Require Import Prelude DList PriorityBitmap Chain Scheduler SchedulerLaws.

Module SchedulerSimple.
Import Scheduler SchedulerLaws Chain.

Definition _Scheduler_simple_Insert_priority_lifo_order (priority_to_insert next : Z)
    : M state bool :=
  p ← _Thread_Get_priority next; mret (priority_to_insert <=? p).

Definition _Scheduler_simple_Insert_priority_fifo_order (priority_to_insert next : Z)
    : M state bool :=
  p ← _Thread_Get_priority next; mret (priority_to_insert <? p).

Definition _Scheduler_simple_Insert_priority_lifo (chain to_insert : Z) : M state unit :=
  p ← _Thread_Get_priority to_insert;
  _Chain_Insert_ordered_unprotected chain to_insert
    (_Scheduler_simple_Insert_priority_lifo_order p).

Definition _Scheduler_simple_Insert_priority_fifo (chain to_insert : Z) : M state unit :=
  p ← _Thread_Get_priority to_insert;
  _Chain_Insert_ordered_unprotected chain to_insert
    (_Scheduler_simple_Insert_priority_fifo_order p).

Definition _Scheduler_simple_Extract (the_thread : Z) : M state unit :=
  _Chain_Extract_unprotected the_thread.

Section operations.
(** The address of [Ready] of the scheduler context. *)
Context (Ready : Z).

Definition _Scheduler_simple_Schedule_body (the_thread : Z) (force_dispatch : bool)
    : M state unit :=
  h ← _Chain_First Ready;
  _Scheduler_Update_heir h force_dispatch.

Definition _Scheduler_simple_Initialize : M state unit :=
  _Chain_Initialize_empty Ready.

Definition _Scheduler_simple_Block (the_thread : Z) : M state unit :=
  _Scheduler_Generic_block the_thread
    _Scheduler_simple_Extract _Scheduler_simple_Schedule_body.

Definition _Scheduler_simple_Schedule (the_thread : Z) : M state unit :=
  _Scheduler_simple_Schedule_body the_thread false.

Definition _Scheduler_simple_Update_priority (the_thread : Z) : M state unit :=
  ready ← _Thread_Is_ready the_thread;
  if negb ready then mret tt
  else
    '(_, prepend_it) ← _Scheduler_Node_get_priority the_thread;
    _Scheduler_simple_Extract the_thread;;
    (if (prepend_it : bool) then _Scheduler_simple_Insert_priority_lifo Ready the_thread
     else _Scheduler_simple_Insert_priority_fifo Ready the_thread);;
    _Scheduler_simple_Schedule_body the_thread false.

Definition _Scheduler_simple_Unblock (the_thread : Z) : M state unit :=
  _Scheduler_simple_Insert_priority_fifo Ready the_thread;;
  priority ← _Thread_Get_priority the_thread;
  h ← gets heir;
  hp ← _Thread_Get_priority h;
  whenM (priority <? hp)
    (_Scheduler_Update_heir the_thread (priority =? PRIORITY_PSEUDO_ISR)).

Definition _Scheduler_simple_Yield (the_thread : Z) : M state unit :=
  _Chain_Extract_unprotected the_thread;;
  _Scheduler_simple_Insert_priority_fifo Ready the_thread;;
  _Scheduler_simple_Schedule_body the_thread false.

Definition SCHEDULER_SIMPLE_ENTRY_POINTS : Scheduler_Operations :=
  {| op_schedule := _Scheduler_simple_Schedule;
     op_yield := _Scheduler_simple_Yield;
     op_block := _Scheduler_simple_Block;
     op_unblock := _Scheduler_simple_Unblock;
     op_update_priority := _Scheduler_simple_Update_priority |}.
End operations.

(** * Representation *)

Section proofs.
Context (Ready : Z).

(** The chain is [ns], apart from its order. *)
Record list_ok (s : state) (ns : list Z) : Prop := {
  lo_layout : node_layout (dom (threads s)) Ready (Ready + 24) (st_mem s);
  lo_size : Z.of_nat (size (threads s)) < 2 ^ 64;
  lo_chain : chain (st_mem s) Ready ns;
  lo_nodup : NoDup ns;
  lo_in t : t ∈ ns -> t ∈ dom (threads s);
}.

(** The chain is sorted and its threads of each priority are the FIFOs. *)
Definition simple_repr (s : state) (q : queues) : Prop :=
  exists ns, list_ok s ns /\ lists (wait s) ns q.

Lemma list_ok_set s ns ns' m t : list_ok s ns -> chain m Ready ns' -> t ∈ dom (threads s) ->
  changes (chain_words Ready (t :: ns)) (st_mem s) m -> NoDup ns' ->
  (forall x, x ∈ ns' -> x = t \/ x ∈ ns) ->
  list_ok (set_queues m (Bit_map s) s) ns'.
Proof.
  intros [H1 H2 H3 H4 H5] Hc Ht Hch Hnd Hin. split; cbn; try done.
  - by eapply node_layout_changes.
  - intros x Hx. destruct (Hin x Hx) as [->|?]; auto.
Qed.

Lemma list_ok_length s ns : list_ok s ns -> Z.of_nat (length ns) < 2 ^ 64.
Proof.
  intros [_ H2 _ H4 H5]. rewrite <- size_dom in H2.
  rewrite <- (size_list_to_set (C := gset Z) ns) by done.
  assert (size (list_to_set ns : gset Z) <= size (dom (threads s)))%nat; [|lia].
  apply subseteq_size. intros x. rewrite elem_of_list_to_set. auto.
Qed.

Lemma extract_ok s ns t : list_ok s ns -> t ∈ ns ->
  wp (_Chain_Extract_unprotected t) (fun _ s' => exists m,
    s' = set_queues m (Bit_map s) s /\ list_ok s' (filter (.≠ t) ns)) s.
Proof.
  intros Hok Hin. pose proof Hok as [_ _ Hc Hnd Hd].
  destruct (list_elem_of_split _ _ Hin) as (l1 & l2 & ->).
  rewrite filter_ne_split by done. eapply extract_spec; [exact Hc|].
  intros m Hc' Hch. exists m. split; [done|]. eapply (list_ok_set s _ _ m t); try done; [by auto|..].
  - eapply changes_words_mono; [|exact Hch]. clear. set_solver.
  - eapply sublist_NoDup; [exact Hnd|]. apply sublist_app; [done|]. by apply sublist_cons.
  - clear. set_solver.
Qed.

(** Ordered insertion of a thread that is not on the chain. *)
Lemma insert_ok s ns t (b : bool) : list_ok s ns -> t ∈ dom (threads s) -> t ∉ ns ->
  wp (if b then _Scheduler_simple_Insert_priority_lifo Ready t
      else _Scheduler_simple_Insert_priority_fifo Ready t)
     (fun _ s' => exists m, s' = set_queues m (Bit_map s) s /\
        list_ok s' (insert_before (goes_before (wait s) b t) t ns)) s.
Proof.
  intros Hok Ht Hni. pose proof Hok as [Hl _ Hc Hnd Hd].
  set (f := goes_before (wait s) b t). pose proof (insert_before_perm f t ns) as Hp.
  assert (Hoff : off_chain (st_mem s) Ready ns t) by (eapply node_layout_off; eauto; lia).
  assert (Hfin : forall m', chain m' Ready (insert_before f t ns) ->
    changes (chain_words Ready (insert_before f t ns)) (st_mem s) m' ->
    exists m, set_queues m' (Bit_map s) s = set_queues m (Bit_map s) s /\
      list_ok (set_queues m' (Bit_map s) s) (insert_before f t ns)).
  { intros m' Hc' Hch. exists m'. split; [done|]. eapply (list_ok_set s ns _ m' t); try done.
    - eapply changes_words_mono; [|exact Hch]. intros x. by rewrite Hp.
    - rewrite Hp. by apply NoDup_cons.
    - intros x. rewrite Hp. by rewrite elem_of_cons. }
  destruct b; (apply wp_bind, wp_get_priority; [done|];
    apply (insert_ordered_spec Ready s ns t _ f); [done|done| |by eapply list_ok_length|exact Hfin];
    intros x Hx).
  - unfold _Scheduler_simple_Insert_priority_lifo_order, mbind, M_bind. by rewrite get_priority_ok by auto.
  - unfold _Scheduler_simple_Insert_priority_fifo_order, mbind, M_bind. by rewrite get_priority_ok by auto.
Qed.

Lemma simple_queued s q : simple_repr s q -> queued s q.
Proof.
  intros (ns & [_ _ _ Hnd Hd] & _ & H2 & H3). split.
  - intros p. rewrite H3. by apply NoDup_filter.
  - intros p t. rewrite H3, list_elem_of_filter. intros [<- Ht]. split; [auto|].
    apply Hd, elem_of_dom in Ht as [th Ht]. exists th. unfold wait. by rewrite Ht.
Qed.

Lemma simple_ext s s' q : simple_repr s q ->
  st_mem s' = st_mem s -> Bit_map s' = Bit_map s -> EDF s' = EDF s ->
  Ready_queue <$> threads s' = Ready_queue <$> threads s ->
  (forall p t, t ∈ q p ->
    Wait_Priority <$> threads s' !! t = Wait_Priority <$> threads s !! t) ->
  simple_repr s' q.
Proof.
  intros (ns & [H1 H2 H3 H4 H5] & Hq) Em _ _ Er Ew.
  assert (Hdom : dom (threads s') = dom (threads s))
    by (by rewrite <- (dom_fmap_L Ready_queue), Er, dom_fmap_L).
  exists ns. split.
  - split; rewrite ?Em, ?Hdom; try done. by rewrite <- size_dom, Hdom, size_dom.
  - eapply lists_agree; [|exact Hq]. intros t Ht. unfold wait.
    by rewrite (Ew (wait s t)) by by apply (lists_elem (wait s) ns).
Qed.

Lemma heir_set_simple s s' q x : heir_set s s' x -> simple_repr s q -> simple_repr s' q.
Proof.
  intros [Hm Hb He Hr Hc _ _ _] H. eapply simple_ext; eauto. intros p t _.
  apply (f_equal (.!! t)) in Hc. rewrite !lookup_fmap in Hc.
  destruct (threads s !! t), (threads s' !! t); try discriminate Hc; [|done].
  injection Hc. cbn. intros. congruence.
Qed.

(** The first node of the chain is the most urgent thread. *)
Lemma simple_schedule_body s q h t x p f : simple_repr s q ->
  threads s !! heir s = Some h -> x ∈ q p ->
  wp (_Scheduler_simple_Schedule_body Ready t f) (fun _ s' => exists r,
    most_urgent q r /\ heir_set s s' (if is_preemptible h || f then r else heir s)) s.
Proof.
  intros (ns & Hok & Hq) Hh Hx. pose proof Hq as (Hs & _ & H3).
  rewrite H3, list_elem_of_filter in Hx. destruct Hx as [_ Hx].
  destruct ns as [|y ns]; [by apply not_elem_of_nil in Hx|].
  pose proof (lo_chain _ _ Hok) as (_ & Hl & _). apply dlist_first in Hl.
  apply wp_bind. eapply wp_load; [exact Hl|]. rewrite dsucc_cons.
  eapply wp_mono; [by apply update_heir_spec|]. intros [] s' Hs'. exists y. split; [|done].
  eapply most_urgent_eq; [|by eapply at_prio_head]. intros r. by rewrite H3.
Qed.

Lemma simple_schedule s q h t x p : simple_repr s q ->
  threads s !! heir s = Some h -> x ∈ q p ->
  wp (_Scheduler_simple_Schedule Ready t)
     (fun _ => step_ok simple_repr s q (elected s h q)) s.
Proof.
  intros Hr Hh Hx. eapply wp_mono; [by eapply simple_schedule_body|].
  intros [] s' (r & Hu & Hs). rewrite orb_false_r in Hs.
  eapply heir_set_step; [exact Hs|by eapply heir_set_simple| |done..].
  unfold elected. by destruct (is_preemptible h).
Qed.

(** Taking a queued thread off the chain and inserting it again by its
    current priority, which may differ from the one it was queued with. *)
Lemma move_ok s ns t (b : bool) : list_ok s ns -> t ∈ ns ->
  wp (_Chain_Extract_unprotected t;;
      (if b then _Scheduler_simple_Insert_priority_lifo Ready t
       else _Scheduler_simple_Insert_priority_fifo Ready t))
     (fun _ s' => exists m, s' = set_queues m (Bit_map s) s /\
        list_ok s' (insert_before (goes_before (wait s) b t) t (filter (.≠ t) ns))) s.
Proof.
  intros Hok Hin. apply wp_bind. eapply wp_mono; [by eapply extract_ok|].
  intros [] s1 (m & -> & Hok1). eapply wp_mono; [apply (insert_ok _ (filter (.≠ t) ns) t b); [done| |]|].
  - cbn. by apply (lo_in _ _ Hok).
  - rewrite list_elem_of_filter. naive_solver.
  - intros [] s2 (m' & -> & Hok2). by exists m'.
Qed.

Lemma repr_wait s q t p : simple_repr s q -> t ∈ q p -> p = wait s t.
Proof. intros (ns & _ & _ & _ & H3). rewrite H3, list_elem_of_filter. by intros [<- _]. Qed.

Lemma simple_yield s q h t p : simple_repr s q ->
  threads s !! heir s = Some h -> t ∈ q p ->
  let q' := q_move t p p false q in
  wp (_Scheduler_simple_Yield Ready t) (fun _ => step_ok simple_repr s q'
    (fun x => most_urgent q' x \/ (is_preemptible h = false /\ x = heir s))) s.
Proof.
  intros Hr Hh Hin q'. pose proof (repr_wait _ _ _ _ Hr Hin) as ->.
  destruct Hr as (ns & Hok & Hq). apply (lists_elem _ _ _ _ Hq) in Hin as Hns.
  pose proof (move_ok s ns t false Hok Hns) as Hw.
  destruct (proj1 (wp_run _ _ _) Hw) as ([] & s1 & E & m & -> & Hok1).
  unfold _Scheduler_simple_Yield, mbind, M_bind, wp in E |- *.
  destruct (_Chain_Extract_unprotected t s) as [[[] s0]|]; [|done]. rewrite E.
  assert (Hr1 : simple_repr (set_queues m (Bit_map s) s) q').
  { eexists. split; [exact Hok1|]. eapply (lists_agree (wait s)); [done|].
    apply (lists_insert _ false); [by apply Hq|]. by apply lists_remove. }
  assert (Hin' : t ∈ q' (wait s t)) by (apply elem_q_move; auto).
  eapply wp_mono; [by eapply simple_schedule_body|]. intros [] s' (r & Hu & Hs).
  rewrite orb_false_r in Hs. eapply heir_set_step; [exact Hs|by eapply heir_set_simple| |done..].
  destruct (is_preemptible h); auto.
Qed.

Lemma simple_block s q h t p x p' : simple_repr s q -> threads s !! heir s = Some h ->
  t ∈ q p -> x ∈ q p' -> x <> t ->
  let q' := q_remove t p q in
  wp (_Scheduler_simple_Block Ready t) (fun _ => step_ok simple_repr s q'
    (fun y => if bool_decide (t = executing s \/ t = heir s)
              then most_urgent q' y else y = heir s)) s.
Proof.
  intros Hr Hh Hin Hx Hne q'. pose proof (repr_wait _ _ _ _ Hr Hin) as ->.
  destruct Hr as (ns & Hok & Hq). apply (lists_elem _ _ _ _ Hq) in Hin as Hns.
  apply wp_bind. unfold _Scheduler_simple_Extract.
  eapply wp_mono; [by eapply extract_ok|]. intros [] s1 (m & -> & Hok1).
  assert (Hr1 : simple_repr (set_queues m (Bit_map s) s) q').
  { eexists. split; [exact Hok1|]. eapply (lists_agree (wait s)); [done|]. by apply lists_remove. }
  unfold _Thread_Is_executing, _Thread_Is_heir. wp_steps. cbn [executing heir set_queues].
  apply wp_whenM; intros Hc.
  - rewrite bool_decide_eq_true_2 by (apply orb_true_iff in Hc as [?|?]; bool_hyps; auto).
    eapply wp_mono; [eapply (simple_schedule_body _ q' h t x p'); [done|done|]|].
    { apply elem_q_remove. naive_solver. }
    intros [] s' (r & Hu & Hs). rewrite orb_true_r in Hs.
    by eapply heir_set_step; [exact Hs|eapply heir_set_simple|..].
  - apply orb_false_iff in Hc as [? ?]. bool_hyps. rewrite bool_decide_eq_false_2 by naive_solver.
    by eapply heir_set_step; [apply heir_set_same|..].
Qed.

Lemma simple_unblock (max : Z) s q h t th p : simple_repr s q -> threads s !! heir s = Some h ->
  threads s !! t = Some th -> Wait_Priority th = p -> Priority_value th = p ->
  0 <= p <= max -> (forall p', t ∉ q p') ->
  wp (_Scheduler_simple_Unblock Ready t) (fun _ => step_ok simple_repr s (q_append t p q)
    (fun y => y = if (p <? Wait_Priority h) &&
                     (is_preemptible h || (p =? PRIORITY_PSEUDO_ISR))
                  then t else heir s)) s.
Proof.
  intros (ns & Hok & Hq) Hh Ht Hwp _ Hp Hni.
  assert (Hwt : wait s t = p) by (unfold wait; by rewrite Ht).
  assert (Htd : t ∈ dom (threads s)) by by apply elem_of_dom.
  apply wp_bind. eapply wp_mono; [apply (insert_ok s ns t false); [done|done|]|].
  { rewrite <- (lists_elem _ _ _ _ Hq). apply Hni. }
  intros [] s1 (m & -> & Hok1).
  assert (Hr1 : simple_repr (set_queues m (Bit_map s) s) (q_append t p q)).
  { eexists. split; [exact Hok1|]. eapply (lists_agree (wait s)); [done|]. rewrite <- Hwt.
    apply (lists_insert _ false); [lia|done]. }
  apply wp_bind, wp_get_priority; [done|]. apply wp_bind, wp_gets.
  apply wp_bind, wp_get_priority; [by apply elem_of_dom|].
  change (wait (set_queues m (Bit_map s) s)) with (wait s). rewrite Hwt.
  replace (wait s (heir (set_queues m (Bit_map s) s))) with (Wait_Priority h)
    by (unfold wait; cbn; by rewrite Hh).
  destruct (p <? Wait_Priority h) eqn:Hlt; cbn [andb whenM].
  - eapply wp_mono; [by eapply update_heir_spec|]. intros [] s' Hs.
    by eapply heir_set_step; [exact Hs|eapply heir_set_simple|..].
  - apply wp_ret. by eapply heir_set_step; [apply heir_set_same|..].
Qed.

Lemma simple_update (max : Z) s q h t th p p' b : simple_repr s q -> threads s !! heir s = Some h ->
  threads s !! t = Some th -> current_state th = STATES_READY -> t ∈ q p ->
  0 <= p' <= max ->
  let s1 := upd t (set_priorities p' p' b th) s in
  wp (_Scheduler_simple_Update_priority Ready t) (fun _ s' =>
    (p' = p /\ s' = s1) \/
    step_ok simple_repr s1 (q_move t p p' b q) (elected s h (q_move t p p' b q)) s') s1.
Proof.
  intros Hr Hh Ht Hst Hin Hp' s1. pose proof (repr_wait _ _ _ _ Hr Hin) as ->.
  destruct Hr as (ns & Hok & Hq). apply (lists_elem _ _ _ _ Hq) in Hin as Hns.
  set (th1 := set_priorities p' p' b th) in *.
  assert (Hl : threads s1 !! t = Some th1) by apply lookup_insert_eq.
  assert (Hdom : dom (threads s1) = dom (threads s)) by by eapply upd_dom.
  assert (Hok1 : list_ok s1 ns).
  { destruct Hok. split; rewrite ?Hdom; try done. by rewrite <- size_dom, Hdom, size_dom. }
  assert (Hw1 : forall x, x <> t -> wait s1 x = wait s x).
  { intros x Hx. unfold wait. cbn. by rewrite lookup_insert_ne. }
  assert (Hwt : wait s1 t = p') by (unfold wait; by rewrite Hl).
  unfold _Scheduler_simple_Update_priority, _Thread_Is_ready, _Scheduler_Node_get_priority.
  do 2 apply wp_bind. eapply wp_get_thread; [exact Hl|]. apply wp_ret.
  unfold _States_Is_ready. cbn [current_state th1 set_priorities]. rewrite Hst, Z.eqb_refl. cbn [negb].
  do 2 apply wp_bind. eapply wp_get_thread; [exact Hl|]. apply wp_ret.
  cbn [Priority_prepend_it th1 set_priorities]. fold th1.
  pose proof (move_ok s1 ns t b Hok1 Hns) as Hw.
  destruct (proj1 (wp_run _ _ _) Hw) as ([] & s2 & E & m & -> & Hok2).
  unfold _Scheduler_simple_Extract, mbind, M_bind, wp in E |- *.
  destruct (_Chain_Extract_unprotected t s1) as [[[] s0]|]; [|done]. rewrite E.
  set (q' := q_move t (wait s t) p' b q).
  assert (Hr2 : simple_repr (set_queues m (Bit_map s1) s1) q').
  { eexists. split; [exact Hok2|]. eapply (lists_agree (wait s1)); [done|].
    unfold q', q_move. rewrite <- Hwt. apply lists_insert; [lia|].
    eapply lists_agree; [|apply lists_remove; exact Hq].
    intros x [Hx _]%list_elem_of_filter. by apply Hw1. }
  assert (Hh1 : threads s1 !! heir s1 = Some (if decide (t = heir s) then th1 else h)) by by apply upd_heir.
  eapply wp_mono; [eapply (simple_schedule_body _ q' _ t t p'); [exact Hr2|exact Hh1|]|].
  { apply elem_q_move. auto. }
  intros [] s' (r & Hu & Hs). right. rewrite orb_false_r in Hs.
  eapply heir_set_step; [exact Hs|by eapply heir_set_simple| |done..].
  unfold elected. replace (is_preemptible h) with (is_preemptible (if decide (t = heir s) then th1 else h)).
  - by destruct (is_preemptible _).
  - case_decide; [|done]. subst t. simplify_eq. done.
Qed.

Lemma simple_update_blocked s t th : threads s !! t = Some th ->
  current_state th <> STATES_READY ->
  wp (_Scheduler_simple_Update_priority Ready t) (fun _ s' => s' = s) s.
Proof.
  intros Ht Hn. unfold _Scheduler_simple_Update_priority, _Thread_Is_ready.
  do 2 apply wp_bind. eapply wp_get_thread; [done|]. apply wp_ret.
  unfold _States_Is_ready. apply Z.eqb_neq in Hn as ->. done.
Qed.

#[export] Instance simple_laws (max : Z)
    : SchedulerLaws (SCHEDULER_SIMPLE_ENTRY_POINTS Ready) (up_to max) :=
  Build_SchedulerLaws (SCHEDULER_SIMPLE_ENTRY_POINTS Ready) (up_to max) simple_repr
    simple_queued simple_ext simple_schedule simple_yield simple_block
    (simple_unblock max) (simple_update max) simple_update_blocked.

(** * Boot *)

Definition simple_boot (idle : Z) : M state unit :=
  _Scheduler_simple_Initialize Ready;;
  thread_create_idle_start (SCHEDULER_SIMPLE_ENTRY_POINTS Ready) idle.

(** The kernel memory before the scheduler starts. *)
Record simple_bootable (max idle : Z) (s : state) : Prop := {
  b_layout : node_layout (dom (threads s)) Ready (Ready + 24) (st_mem s);
  b_mapped k : k ∈ [Ready; Ready + 8; Ready + 16] -> is_Some (st_mem s !! k);
  b_size : Z.of_nat (size (threads s)) < 2 ^ 64;
  b_all t th : threads s !! t = Some th -> 0 <= Wait_Priority th <= max /\
    Priority_value th = Wait_Priority th /\ current_state th <> STATES_READY;
  b_idle : is_Some (threads s !! idle);
}.

Lemma simple_boot_spec max idle s : simple_bootable max idle s ->
  wp (simple_boot idle) (fun _ s' => heir s' = idle /\ dom (threads s') = dom (threads s) /\
    exists p, wf (SCHEDULER_SIMPLE_ENTRY_POINTS Ready) (up_to max) (L := simple_laws max) idle s'
      (q_append idle p (fun _ => []))) s.
Proof.
  intros [H1 H2 H3 H4 [ith Hi]]. apply wp_bind. apply initialize_empty_spec; [exact H2|].
  intros m Hc Hch. eapply wp_mono; [eapply (create_idle_ok _ _ (L := simple_laws max)); [|exact Hi|exact H4]|].
  - exists []. split; [split; cbn; try done|].
    + by eapply node_layout_changes.
    + apply NoDup_nil_2.
    + by intros t ?%not_elem_of_nil.
    + split_and!; [constructor|by intros t ?%not_elem_of_nil|done].
  - intros [] s' (Hwf & Hh & Hdom). split_and!; [done|done|eauto].
Qed.
End proofs.

(** C18. From boot on, the simple scheduler, a single chain sorted by
    priority, satisfies the same contract as the deterministic priority
    scheduler: for every sequence of legal operations each step completes,
    the chain behaves as one FIFO per priority, and the heir is a ready
    thread of the most urgent priority and the first of its FIFO, unless it
    disabled preemption. *)
Theorem simple_scheduler_correct Ready max ticks idle s os :
  let ops := SCHEDULER_SIMPLE_ENTRY_POINTS Ready in
  simple_bootable Ready max idle s -> Forall (legal (up_to max) idle (dom (threads s))) os ->
  exists s0 p0 s' q', simple_boot Ready idle s = Some (tt, s0) /\
    heir s0 = idle /\ run_ops ops ticks os s0 = Some (tt, s') /\
    trace ops (up_to max) (L := simple_laws Ready max) ticks idle
      s0 (q_append idle p0 (fun _ => [])) os s' q' /\
    heir_correct s' q'.
Proof.
  intros ops Hb Hl. destruct (proj1 (wp_run _ _ _) (simple_boot_spec Ready max idle s Hb))
    as ([] & s0 & E & Hh & Hd & p & Hwf).
  destruct (run_ops_trace _ _ ticks idle os s0 _ Hwf) as (s' & q' & E' & Ht & Hwf'); [by rewrite Hd|].
  exists s0, p, s', q'. split_and!; try done. by eapply wf_heir_correct.
Qed.

Lemma sample_simple_bootable : simple_bootable 1000 3 2000 sample_kernel.
Proof.
  split.
  - by apply sample_layout.
  - intros k Hk. set_unfold in Hk. destruct Hk as [->|[->|[->|[]]]]; by eexists.
  - by vm_compute.
  - intros t th Ht. pose proof (elem_of_dom_2 _ _ _ Ht) as Hd. apply sample_threads_elem in Hd.
    destruct Hd as [->|[->| ->]]; vm_compute in Ht; injection Ht as <-;
      (split; [cbn; lia|done]).
  - by eexists.
Qed.

Lemma simple_scheduler_correct_witness : exists s0 p0 s' q',
  simple_boot 1000 2000 sample_kernel = Some (tt, s0) /\
  run_ops (SCHEDULER_SIMPLE_ENTRY_POINTS 1000) 10 sample_ops s0 = Some (tt, s') /\
  trace (SCHEDULER_SIMPLE_ENTRY_POINTS 1000) (up_to 3) (L := simple_laws 1000 3) 10 2000
    s0 (q_append 2000 p0 (fun _ => [])) sample_ops s' q' /\ heir_correct s' q'.
Proof.
  destruct (simple_scheduler_correct 1000 3 10 2000 sample_kernel sample_ops
    sample_simple_bootable sample_legal) as (s0 & p0 & s' & q' & H1 & _ & H3 & H4 & H5).
  exists s0, p0, s', q'. exact (conj H1 (conj H3 (conj H4 H5))).
Defined.

(** On the sample run both schedulers elect the same thread. *)
Example sample_simple_heir :
  (heir ∘ snd) <$> (simple_boot 1000 2000;;
    run_ops (SCHEDULER_SIMPLE_ENTRY_POINTS 1000) 10 sample_ops) sample_kernel
  = Some 2016.
Proof. vm_compute. reflexivity. Qed.

End SchedulerSimple.
