(* ===== verification/SchedulerEDF.v ===== *)
(** The earliest deadline first scheduler (score/scheduleredfimpl.h,
    scheduleredf.c, scheduleredfblock.c, scheduleredfunblock.c,
    scheduleredfyield.c, scheduleredfschedule.c, scheduleredfchangepriority.c,
    scheduleredfnodeinit.c, scheduleredfreleasejob.c): the ready threads are
    in a red-black tree ordered by deadline, as a third instance of the
    scheduler interface.

    The most significant bit of a priority tells the background threads from
    the threads that have a deadline.  The interface holds for every priority
    but two: the deadline 0, and the mapped pseudo interrupt priority, with
    which a thread can become heir although a thread with a deadline is
    ready. *)

From S2P Require Import Prelude DList PriorityBitmap RBTree Chain Scheduler SchedulerLaws.

Module SchedulerEDF.
Import Scheduler SchedulerLaws RBTree.

Definition SCHEDULER_EDF_PRIO_MSB : Z := 0x8000000000000000.

#[export, program] Instance state_HasTree : HasTree state :=
  {| get_tree s := EDF_Ready (EDF s);
     set_tree t s := set_EDF {| EDF_Ready := t; EDF_priority := EDF_priority (EDF s) |} s |}.
Solve All Obligations with (by intros; repeat match goal with s : state |- _ => destruct s end).

(** * Operations *)

(** [node->priority] and its assignment. *)
Definition edf_priority (node : Z) : M state Z := fun s =>
  match EDF_priority (EDF s) !! node with
  | Some p => Some (p, s)
  | None => None
  end.

Definition set_edf_priority (node priority : Z) : M state unit :=
  get_thread node;;
  modify (fun s => set_EDF {| EDF_Ready := EDF_Ready (EDF s);
                              EDF_priority := <[node := priority]> (EDF_priority (EDF s)) |} s).

(** [node->Base.owner] *)
Definition edf_owner (node : Z) : M state Z := get_thread node;; mret node.

Definition _Scheduler_EDF_Less (left right : Z) : M state bool :=
  prio_right ← edf_priority right; mret (left <? prio_right).

Definition _Scheduler_EDF_Less_or_equal (left right : Z) : M state bool :=
  prio_right ← edf_priority right; mret (left <=? prio_right).

(** A deadline is below the bit, a background priority has it set. *)
Definition _Scheduler_EDF_Map_priority (priority : Z) : Z := Z.lor SCHEDULER_EDF_PRIO_MSB priority.
Definition _Scheduler_EDF_Unmap_priority (priority : Z) : Z :=
  Z.land priority (u64 (Z.lnot SCHEDULER_EDF_PRIO_MSB)).

Section operations.
Context {RB : RB_Macros}.

Definition _Scheduler_EDF_Enqueue (node priority : Z) : M state unit :=
  _RBTree_Insert_inline node (_Scheduler_EDF_Less priority);; mret tt.

Definition _Scheduler_EDF_Enqueue_first (node priority : Z) : M state unit :=
  _RBTree_Insert_inline node (_Scheduler_EDF_Less_or_equal priority);; mret tt.

Definition _Scheduler_EDF_Extract (node : Z) : M state unit := _RBTree_Extract node.

Definition _Scheduler_EDF_Extract_body (the_thread : Z) : M state unit :=
  _Scheduler_EDF_Extract the_thread.

Definition _Scheduler_EDF_Schedule_body (the_thread : Z) (force_dispatch : bool) : M state unit :=
  first ← _RBTree_Minimum;
  owner ← edf_owner first;
  _Scheduler_Update_heir owner force_dispatch.

Definition _Scheduler_EDF_Initialize : M state unit := _RBTree_Initialize_empty.

Definition _Scheduler_Node_do_initialize (the_thread priority : Z) : M state unit :=
  th ← get_thread the_thread;
  put_thread the_thread (set_priorities (Wait_Priority th) priority false th).

Definition _Scheduler_EDF_Node_initialize (the_thread priority : Z) : M state unit :=
  _Scheduler_Node_do_initialize the_thread priority;;
  _RBTree_Initialize_node the_thread;;
  set_edf_priority the_thread priority.

Definition _Scheduler_EDF_Schedule (the_thread : Z) : M state unit :=
  _Scheduler_EDF_Schedule_body the_thread false.

Definition _Scheduler_EDF_Yield (the_thread : Z) : M state unit :=
  _Scheduler_EDF_Extract the_thread;;
  p ← edf_priority the_thread;
  _Scheduler_EDF_Enqueue the_thread p;;
  _Scheduler_EDF_Schedule_body the_thread true.

Definition _Scheduler_EDF_Block (the_thread : Z) : M state unit :=
  _Scheduler_Generic_block the_thread _Scheduler_EDF_Extract_body _Scheduler_EDF_Schedule_body.

Definition _Scheduler_EDF_Unblock (the_thread : Z) : M state unit :=
  '(priority, _) ← _Scheduler_Node_get_priority the_thread;
  set_edf_priority the_thread priority;;
  _Scheduler_EDF_Enqueue the_thread priority;;
  h ← gets heir;
  hp ← _Thread_Get_priority h;
  whenM (priority <? hp)
    (_Scheduler_Update_heir the_thread (priority =? Z.lor SCHEDULER_EDF_PRIO_MSB PRIORITY_PSEUDO_ISR)).

Definition _Scheduler_EDF_Update_priority (the_thread : Z) : M state unit :=
  ready ← _Thread_Is_ready the_thread;
  if negb ready then mret tt
  else
    '(priority, prepend_it) ← _Scheduler_Node_get_priority the_thread;
    p ← edf_priority the_thread;
    if priority =? p then mret tt
    else
      set_edf_priority the_thread priority;;
      _Scheduler_EDF_Extract the_thread;;
      (if (prepend_it : bool) then _Scheduler_EDF_Enqueue_first the_thread priority
       else _Scheduler_EDF_Enqueue the_thread priority);;
      _Scheduler_EDF_Schedule_body the_thread false.

Definition SCHEDULER_EDF_ENTRY_POINTS : Scheduler_Operations :=
  {| op_schedule := _Scheduler_EDF_Schedule;
     op_yield := _Scheduler_EDF_Yield;
     op_block := _Scheduler_EDF_Block;
     op_unblock := _Scheduler_EDF_Unblock;
     op_update_priority := _Scheduler_EDF_Update_priority |}.
End operations.

(** * Mapped priorities *)

Lemma map_priority_add p : 0 <= p < 2 ^ 63 -> _Scheduler_EDF_Map_priority p = 2 ^ 63 + p.
Proof. intros Hp. by apply lor_fields with (n := 63). Qed.

Lemma unmap_priority_mod p : _Scheduler_EDF_Unmap_priority p = p mod 2 ^ 63.
Proof. unfold _Scheduler_EDF_Unmap_priority. by apply (Z.land_ones p 63). Qed.

(** Mapping keeps the order of the background priorities, puts them behind
    every deadline, and unmapping undoes it. *)
Theorem edf_map_priority_order p p' d : 0 <= p < 2 ^ 63 -> 0 <= p' < 2 ^ 63 -> 0 <= d < 2 ^ 63 ->
  _Scheduler_EDF_Unmap_priority (_Scheduler_EDF_Map_priority p) = p /\
  d < _Scheduler_EDF_Map_priority p < 2 ^ 64 /\
  (_Scheduler_EDF_Map_priority p < _Scheduler_EDF_Map_priority p' <-> p < p').
Proof.
  intros Hp Hp' Hd. rewrite unmap_priority_mod, !map_priority_add by done. split_and!; [|lia..].
  symmetry. apply (Z.mod_unique _ _ 1); lia.
Qed.

(** The priorities for which the interface holds: deadlines, and mapped
    priorities other than the pseudo interrupt priority. *)
Definition edf_priorities (p : Z) : Prop := 0 < p < 2 ^ 64 /\ p <> SCHEDULER_EDF_PRIO_MSB.

(** * Representation *)

Lemma insert_by_before lt n l : insert_by lt n l = Chain.insert_before lt n l.
Proof. induction l as [|x l IH]; cbn; [done|]. destruct (lt x); [done|]. by rewrite IH. Qed.

Lemma goes_before_partitioned w b t l : StronglySorted (fun x y => w x <= w y) l ->
  partitioned (goes_before w b t) l.
Proof.
  intros Hs. induction Hs as [|x l Hs IH Hf]; constructor; [done|]. eapply Forall_impl; [exact Hf|].
  cbn. intros y Hy. unfold goes_before. destruct b; rewrite ?Z.ltb_lt, ?Z.leb_le; lia.
Qed.

Section proofs.
Context {RB : RB_Macros}.

(** The tree holds the nodes [ns] in this order. *)
Record tree_ok (s : state) (ns : list Z) : Prop := {
  eo_tree : exists tr, balanced (get_tree s) /\ tree_rep (get_tree s) tr /\ inorder tr = ns;
  eo_size : Z.of_nat (size (threads s)) < 2 ^ 64;
  eo_node t : t ∈ dom (threads s) -> t <> NULL /\ is_Some (rb_nodes (get_tree s) !! t);
  eo_in t : t ∈ ns -> t ∈ dom (threads s);
}.

(** The nodes carry the priorities of their threads. *)
Definition keys (s : state) (ns : list Z) : Prop :=
  forall t, t ∈ ns -> EDF_priority (EDF s) !! t = Some (wait s t).

(** The tree is sorted and its threads of each priority are the FIFOs. *)
Definition edf_repr (s : state) (q : queues) : Prop :=
  exists ns, tree_ok s ns /\ keys s ns /\ lists (wait s) ns q.

Lemma tree_ok_NoDup s ns : tree_ok s ns -> NoDup ns.
Proof. intros [(tr & _ & [_ H] & <-) _ _ _]. done. Qed.

Lemma tree_ok_length s ns : tree_ok s ns -> Z.of_nat (length ns) < 2 ^ 64.
Proof.
  intros Hok. pose proof (tree_ok_NoDup _ _ Hok) as Hnd. destruct Hok as [_ H2 _ H4]. rewrite <- size_dom in H2.
  rewrite <- (size_list_to_set (C := gset Z) ns) by done.
  assert (size (list_to_set ns : gset Z) <= size (dom (threads s)))%nat; [|lia].
  apply subseteq_size. intros x. rewrite elem_of_list_to_set. auto.
Qed.

Lemma tree_ok_set s ns tr t' : tree_ok s ns -> balanced t' -> tree_rep t' tr ->
  (forall x, x ∈ inorder tr -> x ∈ dom (threads s)) ->
  same_outside (inorder tr) (get_tree s) t' \/ same_outside ns (get_tree s) t' ->
  tree_ok (set_tree t' s) (inorder tr).
Proof.
  intros [_ H2 H3 _] Hb Ht Hin Hso. split; [exists tr; by rewrite get_set_tree|done| |done].
  intros t Htd. destruct (H3 t Htd) as [? ?]. split; [done|]. rewrite get_set_tree.
  by destruct Hso as [[_ Hso]|[_ Hso]]; apply Hso.
Qed.

Lemma tree_extract_ok s ns t : tree_ok s ns -> t ∈ ns ->
  wp (_RBTree_Extract t) (fun _ s' => exists t',
    s' = set_tree t' s /\ tree_ok s' (filter (.≠ t) ns)) s.
Proof.
  intros Hok Hin. pose proof Hok as [(tr & Hb & Ht & Hns) _ _ Hd].
  eapply rbtree_extract_spec; [exact Hb|exact Ht|by rewrite Hns|].
  intros t' tr' Hb' Ht' E Hso. exists t'. split; [done|]. rewrite Hns in E, Hso. rewrite <- E.
  eapply tree_ok_set; [exact Hok|done|done| |by right]. intros x. rewrite E, list_elem_of_filter. naive_solver.
Qed.

(** Insertion of a thread that is not in the tree, by a priority. *)
Lemma tree_enqueue_ok s ns t (b : bool) : tree_ok s ns -> keys s ns ->
  StronglySorted (fun x y => wait s x <= wait s y) ns -> t ∈ dom (threads s) -> t ∉ ns ->
  wp (if b then _Scheduler_EDF_Enqueue_first t (wait s t) else _Scheduler_EDF_Enqueue t (wait s t))
     (fun _ s' => exists t', s' = set_tree t' s /\
        tree_ok s' (Chain.insert_before (goes_before (wait s) b t) t ns)) s.
Proof.
  intros Hok Hk Hs Htd Hni. pose proof Hok as [(tr & Hb & Ht & Hns) _ Hnode Hd].
  destruct (Hnode t Htd) as [Hn0 Hnd].
  assert (Hfin : forall t' tr', balanced t' -> tree_rep t' tr' ->
    inorder tr' = insert_by (goes_before (wait s) b t) t (inorder tr) ->
    same_outside (inorder tr') (get_tree s) t' -> exists t'', set_tree t' s = set_tree t'' s /\
      tree_ok (set_tree t' s) (Chain.insert_before (goes_before (wait s) b t) t ns)).
  { intros t' tr' Hb' Ht' E Hso. exists t'. split; [done|]. rewrite insert_by_before, Hns in E. rewrite <- E.
    eapply tree_ok_set; [exact Hok|done|done| |by left]. intros x. rewrite E, insert_before_perm.
    intros [->|Hx]%elem_of_cons; auto. }
  assert (Hless : forall m, m ∈ ns ->
    (if b then _Scheduler_EDF_Less_or_equal else _Scheduler_EDF_Less) (wait s t) m s = Some (goes_before (wait s) b t m, s)).
  { intros m Hm. destruct b; unfold _Scheduler_EDF_Less_or_equal, _Scheduler_EDF_Less, edf_priority, mbind, M_bind;
      by rewrite (Hk m Hm). }
  assert (Hwp : wp (_RBTree_Insert_inline t ((if b then _Scheduler_EDF_Less_or_equal else _Scheduler_EDF_Less) (wait s t)))
    (fun _ s' => exists t', s' = set_tree t' s /\ tree_ok s' (Chain.insert_before (goes_before (wait s) b t) t ns)) s).
  { subst ns. apply (insert_inline_by_spec _ (goes_before (wait s) b t) _ tr); try done;
      [by apply goes_before_partitioned|by eapply tree_ok_length]. }
  destruct b; by apply wp_bind.
Qed.

Lemma wp_edf_priority t p (Q : Z -> state -> Prop) s : EDF_priority (EDF s) !! t = Some p -> Q p s ->
  wp (edf_priority t) Q s.
Proof. unfold wp, edf_priority. by intros ->. Qed.

(** ** The laws *)

Lemma edf_queued s q : edf_repr s q -> queued s q.
Proof.
  intros (ns & Hok & _ & _ & H2 & H3). pose proof (tree_ok_NoDup _ _ Hok) as Hnd. split.
  - intros p. rewrite H3. by apply NoDup_filter.
  - intros p t. rewrite H3, list_elem_of_filter. intros [<- Ht]. split; [auto|].
    apply (eo_in _ _ Hok), elem_of_dom in Ht as [th Ht]. exists th. unfold wait. by rewrite Ht.
Qed.

Lemma edf_ext s s' q : edf_repr s q ->
  st_mem s' = st_mem s -> Bit_map s' = Bit_map s -> EDF s' = EDF s ->
  Ready_queue <$> threads s' = Ready_queue <$> threads s ->
  (forall p t, t ∈ q p ->
    Wait_Priority <$> threads s' !! t = Wait_Priority <$> threads s !! t) ->
  edf_repr s' q.
Proof.
  intros (ns & [H1 H2 H3 H4] & Hk & Hq) _ _ Ee Er Ew.
  assert (Hdom : dom (threads s') = dom (threads s))
    by (by rewrite <- (dom_fmap_L Ready_queue), Er, dom_fmap_L).
  assert (Hw : forall t, t ∈ ns -> wait s' t = wait s t).
  { intros t Ht. unfold wait. by rewrite (Ew (wait s t)) by by apply (lists_elem (wait s) ns). }
  exists ns. split_and!.
  - split; cbn [get_tree state_HasTree] in *; rewrite ?Ee, ?Hdom; try done. by rewrite <- size_dom, Hdom, size_dom.
  - intros t Ht. rewrite Ee, Hw by done. by apply Hk.
  - by eapply lists_agree; [|exact Hq].
Qed.

Lemma heir_set_edf s s' q x : heir_set s s' x -> edf_repr s q -> edf_repr s' q.
Proof.
  intros [Hm Hb He Hr Hc _ _ _] H. eapply edf_ext; eauto. intros p t _.
  apply (f_equal (.!! t)) in Hc. rewrite !lookup_fmap in Hc.
  destruct (threads s !! t), (threads s' !! t); try discriminate Hc; [|done].
  injection Hc. cbn. intros. congruence.
Qed.

(** The minimum of the tree is the most urgent thread. *)
Lemma edf_schedule_body s q h t x p f : edf_repr s q ->
  threads s !! heir s = Some h -> x ∈ q p ->
  wp (_Scheduler_EDF_Schedule_body t f) (fun _ s' => exists r,
    most_urgent q r /\ heir_set s s' (if is_preemptible h || f then r else heir s)) s.
Proof.
  intros (ns & Hok & _ & Hq) Hh Hx. pose proof Hq as (Hs & _ & H3).
  rewrite H3, list_elem_of_filter in Hx. destruct Hx as [_ Hx].
  destruct ns as [|y ns]; [by apply not_elem_of_nil in Hx|].
  destruct (eo_tree _ _ Hok) as (tr & _ & Ht & Hns).
  apply wp_bind. eapply minimum_spec; [exact Ht|]. rewrite Hns. cbn [head default from_option id].
  assert (Hy : y ∈ dom (threads s)) by (apply (eo_in _ _ Hok); set_solver).
  apply elem_of_dom in Hy as [yh Hy]. apply wp_bind, wp_bind. eapply wp_get_thread; [exact Hy|]. apply wp_ret.
  eapply wp_mono; [by apply update_heir_spec|]. intros [] s' Hs'. exists y. split; [|done].
  eapply most_urgent_eq; [|by eapply at_prio_head]. intros r. by rewrite H3.
Qed.

Lemma edf_schedule s q h t x p : edf_repr s q ->
  threads s !! heir s = Some h -> x ∈ q p ->
  wp (_Scheduler_EDF_Schedule t) (fun _ => step_ok edf_repr s q (elected s h q)) s.
Proof.
  intros Hr Hh Hx. eapply wp_mono; [by eapply edf_schedule_body|].
  intros [] s' (r & Hu & Hs). rewrite orb_false_r in Hs.
  eapply heir_set_step; [exact Hs|by eapply heir_set_edf| |done..].
  unfold elected. by destruct (is_preemptible h).
Qed.

Lemma edf_repr_wait s q t p : edf_repr s q -> t ∈ q p -> p = wait s t.
Proof. intros (ns & _ & _ & _ & _ & H3). rewrite H3, list_elem_of_filter. by intros [<- _]. Qed.

(** A thread that left the tree, of any priority, joins it again. *)
Lemma rejoin_ok s ns t (b : bool) q : tree_ok s (filter (.≠ t) ns) -> t ∈ dom (threads s) ->
  EDF_priority (EDF s) !! t = Some (wait s t) -> keys s (filter (.≠ t) ns) -> 0 <= wait s t ->
  lists (wait s) (filter (.≠ t) ns) q ->
  wp (if b then _Scheduler_EDF_Enqueue_first t (wait s t) else _Scheduler_EDF_Enqueue t (wait s t))
     (fun _ s' => exists t', s' = set_tree t' s /\
        edf_repr s' ((if b then q_prepend t (wait s t) else q_append t (wait s t)) q)) s.
Proof.
  intros Hok Htd Ht Hk Hw Hq. eapply wp_mono; [apply (tree_enqueue_ok s (filter (.≠ t) ns) t b); try done|].
  { by apply Hq. }
  { rewrite list_elem_of_filter. naive_solver. }
  intros [] s' (t' & -> & Hok'). exists t'. split; [done|]. eexists. split_and!; [exact Hok'| |].
  - intros x. rewrite insert_before_perm. intros [->|Hx]%elem_of_cons; [exact Ht|by apply Hk].
  - by apply (lists_insert (wait s) b).
Qed.

Lemma edf_yield s q h t p : edf_repr s q ->
  threads s !! heir s = Some h -> t ∈ q p ->
  let q' := q_move t p p false q in
  wp (_Scheduler_EDF_Yield t) (fun _ => step_ok edf_repr s q'
    (fun x => most_urgent q' x \/ (is_preemptible h = false /\ x = heir s))) s.
Proof.
  intros Hr Hh Hin q'. pose proof (edf_repr_wait _ _ _ _ Hr Hin) as ->.
  destruct Hr as (ns & Hok & Hk & Hq). apply (lists_elem _ _ _ _ Hq) in Hin as Hns.
  apply wp_bind. eapply wp_mono; [by apply tree_extract_ok|]. intros [] s1 (t1 & -> & Hok1).
  apply wp_bind. eapply wp_edf_priority; [exact (Hk t Hns)|]. apply wp_bind.
  change (wait s t) with (wait (set_tree t1 s) t).
  eapply wp_mono; [apply (rejoin_ok (set_tree t1 s) ns t false (q_remove t (wait s t) q))|].
  { exact Hok1. }
  { exact (eo_in _ _ Hok _ Hns). }
  { exact (Hk _ Hns). }
  { intros x [_ Hx]%list_elem_of_filter. exact (Hk _ Hx). }
  { destruct Hq as (_ & Hq0 & _). exact (Hq0 _ Hns). }
  { exact (lists_remove (wait s) t ns q Hq). }
  intros [] s2 (t2 & -> & Hr2). change (wait (set_tree t1 s)) with (wait s) in Hr2.
  assert (Hin' : t ∈ q' (wait s t)) by (apply elem_q_move; auto).
  eapply wp_mono; [by eapply (edf_schedule_body _ q')|]. intros [] s' (r & Hu & Hs).
  rewrite orb_true_r in Hs. eapply heir_set_step; [exact Hs|by eapply heir_set_edf|by left|done..].
Qed.

Lemma edf_block s q h t p x p' : edf_repr s q -> threads s !! heir s = Some h ->
  t ∈ q p -> x ∈ q p' -> x <> t ->
  let q' := q_remove t p q in
  wp (_Scheduler_EDF_Block t) (fun _ => step_ok edf_repr s q'
    (fun y => if bool_decide (t = executing s \/ t = heir s)
              then most_urgent q' y else y = heir s)) s.
Proof.
  intros Hr Hh Hin Hx Hne q'. pose proof (edf_repr_wait _ _ _ _ Hr Hin) as ->.
  destruct Hr as (ns & Hok & Hk & Hq). apply (lists_elem _ _ _ _ Hq) in Hin as Hns.
  apply wp_bind. unfold _Scheduler_EDF_Extract_body, _Scheduler_EDF_Extract.
  eapply wp_mono; [by apply tree_extract_ok|]. intros [] s1 (t1 & -> & Hok1).
  assert (Hr1 : edf_repr (set_tree t1 s) q').
  { eexists. split_and!; [exact Hok1| |exact (lists_remove (wait s) t ns q Hq)].
    intros y [_ Hy]%list_elem_of_filter. exact (Hk _ Hy). }
  unfold _Thread_Is_executing, _Thread_Is_heir. wp_steps.
  change (executing (set_tree t1 s)) with (executing s). change (heir (set_tree t1 s)) with (heir s).
  apply wp_whenM; intros Hc.
  - rewrite bool_decide_eq_true_2 by (apply orb_true_iff in Hc as [?|?]; bool_hyps; auto).
    eapply wp_mono; [eapply (edf_schedule_body _ q' h t x p'); [done|done|]|].
    { apply elem_q_remove. naive_solver. }
    intros [] s' (r & Hu & Hs). rewrite orb_true_r in Hs.
    by eapply heir_set_step; [exact Hs|eapply heir_set_edf|..].
  - apply orb_false_iff in Hc as [? ?]. bool_hyps. rewrite bool_decide_eq_false_2 by naive_solver.
    by eapply heir_set_step; [apply heir_set_same|..].
Qed.

Definition with_key (t p : Z) (s : state) : state :=
  set_EDF {| EDF_Ready := EDF_Ready (EDF s); EDF_priority := <[t := p]> (EDF_priority (EDF s)) |} s.

Lemma wp_set_key t p (Q : unit -> state -> Prop) s : t ∈ dom (threads s) -> Q tt (with_key t p s) ->
  wp (set_edf_priority t p) Q s.
Proof. intros [th Ht]%elem_of_dom HQ. apply wp_bind. eapply wp_get_thread; [exact Ht|]. by apply wp_modify. Qed.

Lemma keys_with_key s ns t p : t ∉ ns -> keys s ns -> keys (with_key t p s) ns.
Proof. intros Hni Hk x Hx. cbn. rewrite lookup_insert_ne by (by intros ->). by apply Hk. Qed.

(** For every priority: the mapped pseudo interrupt priority makes the thread
    heir even where the heir disabled preemption. *)
Lemma edf_unblock_any s q h t th p : edf_repr s q -> threads s !! heir s = Some h ->
  threads s !! t = Some th -> Wait_Priority th = p -> Priority_value th = p ->
  0 <= p -> (forall p', t ∉ q p') ->
  wp (_Scheduler_EDF_Unblock t) (fun _ => step_ok edf_repr s (q_append t p q)
    (fun y => y = if (p <? Wait_Priority h) &&
                     (is_preemptible h || (p =? _Scheduler_EDF_Map_priority PRIORITY_PSEUDO_ISR))
                  then t else heir s)) s.
Proof.
  intros (ns & Hok & Hk & Hq) Hh Ht Hwp Hpv Hp Hni.
  assert (Hwt : wait s t = p) by (unfold wait; by rewrite Ht).
  assert (Htd : t ∈ dom (threads s)) by by apply elem_of_dom.
  assert (Hns : t ∉ ns) by (rewrite <- (lists_elem _ _ _ _ Hq); apply Hni).
  assert (Ef : filter (.≠ t) ns = ns) by (by apply Chain.filter_ne_id).
  apply wp_bind, wp_bind. eapply wp_get_thread; [exact Ht|]. apply wp_ret. rewrite Hpv.
  apply wp_bind, wp_set_key; [done|]. set (s1 := with_key t p s).
  assert (Hw1 : wait s1 t = p) by exact Hwt. apply wp_bind. rewrite <- Hw1 at 1.
  eapply wp_mono; [apply (rejoin_ok s1 ns t false q); rewrite ?Ef|].
  { by destruct Hok. }
  { done. }
  { cbn. rewrite Hw1. by apply lookup_insert_eq. }
  { by apply keys_with_key. }
  { lia. }
  { done. }
  intros [] s2 (t2 & -> & Hr2). rewrite Hw1 in Hr2. apply wp_bind, wp_gets.
  apply wp_bind, wp_get_priority; [by apply elem_of_dom|].
  replace (wait (set_tree t2 s1) (heir (set_tree t2 s1))) with (Wait_Priority h)
    by (unfold wait; cbn; by rewrite Hh).
  fold (_Scheduler_EDF_Map_priority PRIORITY_PSEUDO_ISR).
  destruct (p <? Wait_Priority h) eqn:Hlt; cbn [andb whenM].
  - eapply wp_mono; [by eapply update_heir_spec|]. intros [] s' Hs.
    by eapply heir_set_step; [exact Hs|eapply heir_set_edf|..].
  - apply wp_ret. by eapply heir_set_step; [apply heir_set_same|..].
Qed.

Lemma edf_unblock s q h t th p : edf_repr s q -> threads s !! heir s = Some h ->
  threads s !! t = Some th -> Wait_Priority th = p -> Priority_value th = p ->
  edf_priorities p -> (forall p', t ∉ q p') ->
  wp (_Scheduler_EDF_Unblock t) (fun _ => step_ok edf_repr s (q_append t p q)
    (fun y => y = if (p <? Wait_Priority h) &&
                     (is_preemptible h || (p =? PRIORITY_PSEUDO_ISR))
                  then t else heir s)) s.
Proof.
  intros Hr Hh Ht Hw Hpv [Hp Hpm] Hni. eapply wp_mono; [by eapply edf_unblock_any; try done; lia|].
  replace (p =? PRIORITY_PSEUDO_ISR) with false by (symmetry; apply Z.eqb_neq; unfold PRIORITY_PSEUDO_ISR; lia).
  by replace (p =? _Scheduler_EDF_Map_priority _) with false by (symmetry; by apply Z.eqb_neq).
Qed.

Lemma edf_update s q h t th p p' b : edf_repr s q -> threads s !! heir s = Some h ->
  threads s !! t = Some th -> current_state th = STATES_READY -> t ∈ q p ->
  edf_priorities p' ->
  let s1 := upd t (set_priorities p' p' b th) s in
  wp (_Scheduler_EDF_Update_priority t) (fun _ s' =>
    (p' = p /\ s' = s1) \/
    step_ok edf_repr s1 (q_move t p p' b q) (elected s h (q_move t p p' b q)) s') s1.
Proof.
  intros Hr Hh Ht Hst Hin [Hp' _] s1. pose proof (edf_repr_wait _ _ _ _ Hr Hin) as ->.
  destruct Hr as (ns & Hok & Hk & Hq). apply (lists_elem _ _ _ _ Hq) in Hin as Hns.
  set (th1 := set_priorities p' p' b th) in *.
  assert (Hl : threads s1 !! t = Some th1) by apply lookup_insert_eq.
  assert (Hdom : dom (threads s1) = dom (threads s)) by by eapply upd_dom.
  assert (Hw1 : forall x, x ∈ filter (.≠ t) ns -> wait s1 x = wait s x).
  { intros x [Hx _]%list_elem_of_filter. unfold wait. cbn. by rewrite lookup_insert_ne. }
  assert (Hwt : wait s1 t = p') by (unfold wait; by rewrite Hl).
  unfold _Scheduler_EDF_Update_priority, _Thread_Is_ready, _Scheduler_Node_get_priority.
  do 2 apply wp_bind. eapply wp_get_thread; [exact Hl|]. apply wp_ret.
  unfold _States_Is_ready. cbn [current_state th1 set_priorities]. rewrite Hst, Z.eqb_refl. cbn [negb].
  do 2 apply wp_bind. eapply wp_get_thread; [exact Hl|]. apply wp_ret.
  cbn [Priority_value Priority_prepend_it th1 set_priorities]. fold th1.
  apply wp_bind. eapply wp_edf_priority; [exact (Hk t Hns)|].
  destruct (Z.eqb_spec p' (wait s t)) as [E|Hne]; [apply wp_ret; by left|].
  apply wp_bind, wp_set_key; [rewrite Hdom; by apply (eo_in _ _ Hok)|]. set (s2 := with_key t p' s1).
  assert (Hok2 : tree_ok s2 ns).
  { destruct Hok as [H1 H2 H3 H4]. split; try done; cbn [threads s2 with_key set_EDF]; rewrite ?Hdom; try done.
    by rewrite <- size_dom, Hdom, size_dom. }
  apply wp_bind. unfold _Scheduler_EDF_Extract. eapply wp_mono; [by apply tree_extract_ok|].
  intros [] s3 (t3 & -> & Hok3). set (s3 := set_tree t3 s2) in *.
  assert (Hw3 : wait s3 t = p') by exact Hwt. apply wp_bind.
  set (q' := q_move t (wait s t) p' b q).
  pose proof (rejoin_ok s3 ns t b (q_remove t (wait s t) q)) as Hj. rewrite Hw3 in Hj.
  eapply wp_mono; [apply Hj|].
  { exact Hok3. }
  { change (t ∈ dom (threads s1)). rewrite Hdom. by apply (eo_in _ _ Hok). }
  { apply lookup_insert_eq. }
  { intros x Hx. apply (keys_with_key s1 (filter (.≠ t) ns) t p'); [|clear x Hx; intros x Hx|done].
    - rewrite list_elem_of_filter. naive_solver.
    - rewrite Hw1 by done. apply Hk. by apply list_elem_of_filter in Hx as [_ Hx]. }
  { lia. }
  { eapply lists_agree; [|exact (lists_remove (wait s) t ns q Hq)]. exact Hw1. }
  intros [] s4 (t4 & -> & Hr4).
  assert (Hr4' : edf_repr (set_tree t4 s3) q') by (destruct b; exact Hr4).
  assert (Hh1 : threads s1 !! heir s1 = Some (if decide (t = heir s) then th1 else h)) by by apply upd_heir.
  eapply wp_mono; [eapply (edf_schedule_body _ q' _ t t p'); [exact Hr4'|exact Hh1|]|].
  { apply elem_q_move. auto. }
  intros [] s' (r & Hu & Hs). right. rewrite orb_false_r in Hs.
  eapply heir_set_step; [exact Hs|by eapply heir_set_edf| |done..].
  unfold elected. replace (is_preemptible h) with (is_preemptible (if decide (t = heir s) then th1 else h)).
  - by destruct (is_preemptible _).
  - case_decide; [|done]. subst t. simplify_eq. done.
Qed.

Lemma edf_update_blocked s t th : threads s !! t = Some th ->
  current_state th <> STATES_READY ->
  wp (_Scheduler_EDF_Update_priority t) (fun _ s' => s' = s) s.
Proof.
  intros Ht Hn. unfold _Scheduler_EDF_Update_priority, _Thread_Is_ready.
  do 2 apply wp_bind. eapply wp_get_thread; [done|]. apply wp_ret.
  unfold _States_Is_ready. apply Z.eqb_neq in Hn as ->. done.
Qed.

#[export] Instance edf_laws : SchedulerLaws SCHEDULER_EDF_ENTRY_POINTS edf_priorities :=
  Build_SchedulerLaws SCHEDULER_EDF_ENTRY_POINTS edf_priorities edf_repr
    edf_queued edf_ext edf_schedule edf_yield edf_block edf_unblock edf_update edf_update_blocked.

(** * Boot *)

(** [_Scheduler_EDF_Node_initialize] for each thread and priority. *)
Fixpoint edf_init_nodes (l : list (Z * Z)) : M state unit :=
  match l with
  | [] => mret tt
  | (t, p) :: l' => _Scheduler_EDF_Node_initialize t p;; edf_init_nodes l'
  end.

Definition edf_boot (idle : Z) (l : list (Z * Z)) : M state unit :=
  _Scheduler_EDF_Initialize;;
  edf_init_nodes l;;
  thread_create_idle_start SCHEDULER_EDF_ENTRY_POINTS idle.

(** The kernel before the scheduler starts: the threads [l] with their
    priorities exist, none of them is ready. *)
Record edf_bootable (idle : Z) (l : list (Z * Z)) (s : state) : Prop := {
  eb_node t : t ∈ dom (threads s) -> t <> NULL /\ is_Some (rb_nodes (EDF_Ready (EDF s)) !! t);
  eb_size : Z.of_nat (size (threads s)) < 2 ^ 64;
  eb_nodup : NoDup l.*1;
  eb_in t p : (t, p) ∈ l -> is_Some (threads s !! t);
  eb_all t th : threads s !! t = Some th -> (t, Wait_Priority th) ∈ l /\
    edf_priorities (Wait_Priority th) /\ current_state th <> STATES_READY;
  eb_idle : is_Some (threads s !! idle);
}.

Definition edf_initialized (p : Z) (th : Thread_Control) : Thread_Control :=
  set_priorities (Wait_Priority th) p false th.

Lemma edf_init_nodes_spec s l : NoDup l.*1 -> (forall t p, (t, p) ∈ l -> is_Some (threads s !! t)) ->
  wp (edf_init_nodes l) (fun _ s' => get_tree s' = get_tree s /\ dom (threads s') = dom (threads s) /\
    (forall t, t ∉ l.*1 -> threads s' !! t = threads s !! t) /\
    (forall t p, (t, p) ∈ l -> threads s' !! t = edf_initialized p <$> threads s !! t)) s.
Proof.
  revert s. induction l as [|[t p] l IH]; intros s Hnd Hin; cbn [edf_init_nodes].
  - apply wp_ret. split_and!; [done|done|done|]. by intros t p ?%not_elem_of_nil.
  - cbn in Hnd. apply NoDup_cons in Hnd as [Hni Hnd]. destruct (Hin t p) as [th Ht]; [left|].
    apply wp_bind, wp_bind, wp_bind. eapply wp_get_thread; [exact Ht|]. apply wp_put_thread, wp_bind, wp_ret.
    set (s1 := upd t (edf_initialized p th) s).
    assert (Hdom : dom (threads s1) = dom (threads s)) by by eapply upd_dom.
    apply (wp_set_key t p _ s1); [rewrite Hdom; by apply elem_of_dom|].
    eapply wp_mono; [apply (IH (with_key t p s1)); [done|]|].
    { intros x r Hx. apply elem_of_dom. change (x ∈ dom (threads s1)). rewrite Hdom. apply elem_of_dom, (Hin x r). by right. }
    intros [] s' (Hg & Hd & Ho & Hl). change (threads (with_key t p s1)) with (<[t := edf_initialized p th]> (threads s)) in Ho, Hl.
    split_and!; [done|etrans; [exact Hd|exact Hdom]| |].
    + intros x [Hx Hx']%not_elem_of_cons. rewrite Ho by done. by rewrite lookup_insert_ne.
    + intros x r [[= -> ->]|Hx]%elem_of_cons.
      * rewrite Ho by done. by rewrite lookup_insert_eq, Ht.
      * rewrite (Hl _ _ Hx). rewrite lookup_insert_ne; [done|]. intros <-. apply Hni.
        apply list_elem_of_fmap. by exists (t, r).
Qed.

Lemma edf_boot_spec idle l s : edf_bootable idle l s ->
  wp (edf_boot idle l) (fun _ s' => heir s' = idle /\ dom (threads s') = dom (threads s) /\
    exists p, wf SCHEDULER_EDF_ENTRY_POINTS edf_priorities (L := edf_laws) idle s' (q_append idle p (fun _ => []))) s.
Proof.
  intros [H1 H2 H4 H5 H6 [ith Hi]]. apply wp_bind. unfold _Scheduler_EDF_Initialize, _RBTree_Initialize_empty, modify_tree.
  apply wp_modify, wp_bind. eapply wp_mono; [by apply edf_init_nodes_spec|].
  intros [] s2 (Hg & Hd & _ & Hl). rewrite get_set_tree in Hg. change (threads (set_tree _ s)) with (threads s) in Hd, Hl.
  assert (Hts : forall t th, threads s2 !! t = Some th -> exists th0, threads s !! t = Some th0 /\
    th = edf_initialized (Wait_Priority th0) th0).
  { intros t th Ht. destruct (threads s !! t) as [th0|] eqn:E.
    - exists th0. split; [done|]. destruct (H6 _ _ E) as [Hin _]. specialize (Hl _ _ Hin).
      rewrite E, Ht in Hl. cbn in Hl. by simplify_eq.
    - apply elem_of_dom_2 in Ht. rewrite Hd in Ht. apply elem_of_dom in Ht as [? ?]. congruence. }
  assert (Hi2 : threads s2 !! idle = Some (edf_initialized (Wait_Priority ith) ith)).
  { rewrite (Hl idle (Wait_Priority ith)), Hi by by apply H6. done. }
  eapply wp_mono; [eapply (create_idle_ok _ _ (L := edf_laws)); [|exact Hi2|]|].
  - exists []. split_and!.
    + split; [exists Leaf; rewrite Hg; split_and!; [apply balanced_empty|split; [done|constructor]|done]| | |].
      * by rewrite <- size_dom, Hd, size_dom.
      * rewrite Hd, Hg. exact H1.
      * by intros t ?%not_elem_of_nil.
    + by intros t ?%not_elem_of_nil.
    + split_and!; [constructor|by intros t ?%not_elem_of_nil|done].
  - intros t th Ht. destruct (Hts _ _ Ht) as (th0 & Ht0 & ->). cbn.
    destruct (H6 _ _ Ht0) as (_ & ? & ?). done.
  - intros [] s' (Hwf & Hh & Hdom). split_and!; [done|congruence|eauto].
Qed.
End proofs.

(** C17. From boot on, the earliest deadline first scheduler, a red-black tree
    of the ready threads, satisfies the contract of the schedulers: for every
    implementation of the tree macros and every sequence of legal operations
    on threads with a deadline or a mapped priority other than the pseudo
    interrupt priority, each step completes, the tree behaves as one FIFO per
    priority, and the heir is a ready thread with the earliest deadline and
    the first of those with that deadline, unless it disabled preemption. *)
Theorem edf_scheduler_correct {RB : RB_Macros} ticks idle l s os :
  let ops := SCHEDULER_EDF_ENTRY_POINTS in
  edf_bootable idle l s -> Forall (legal edf_priorities idle (dom (threads s))) os ->
  exists s0 p0 s' q', edf_boot idle l s = Some (tt, s0) /\
    heir s0 = idle /\ run_ops ops ticks os s0 = Some (tt, s') /\
    trace ops edf_priorities (L := edf_laws) ticks idle s0 (q_append idle p0 (fun _ => [])) os s' q' /\
    heir_correct s' q'.
Proof.
  intros ops Hb Hl. destruct (proj1 (wp_run _ _ _) (edf_boot_spec idle l s Hb)) as ([] & s0 & E & Hh & Hd & p & Hwf).
  destruct (run_ops_trace _ _ ticks idle os s0 _ Hwf) as (s' & q' & E' & Ht & Hwf'); [by rewrite Hd|].
  exists s0, p, s', q'. split_and!; try done. by eapply wf_heir_correct.
Qed.

(** ** A concrete kernel: the idle thread at 2000, a thread with a deadline at
    2016, a background thread at 2032 and one of pseudo interrupt priority at
    2048 *)

Definition edf_nodes : list (Z * Z) :=
  [(2000, _Scheduler_EDF_Map_priority 255); (2016, 100); (2032, _Scheduler_EDF_Map_priority 5)].

Definition edf_kernel (l : list (Z * Z)) : state :=
  {| st_mem := ∅; Bit_map := Bit_map sample_kernel;
     EDF := {| EDF_Ready := {| rb_nodes := list_to_map ((fun '(t, _) =>
         (t, {| rbe_left := 77; rbe_right := 77; rbe_parent := 77; rbe_color := 77 |})) <$> l); rbh_root := 77 |};
       EDF_priority := ∅ |};
     threads := list_to_map ((fun '(t, p) => (t, sample_thread p)) <$> l);
     executing := 0; heir := 0; dispatch_necessary := false; cpu_usage_timestamp := 0; uptime := 5 |}.

(** The background thread runs until the thread with a deadline starts,
    which then gets a later deadline and blocks. *)
Definition edf_ops : list thread_op :=
  [clear_state 2032 0x80000000; dispatch; clear_state 2016 0x80000000; dispatch;
   set_priority 2016 200 false; yield 2016; set_state 2016 0x10; dispatch].

Lemma kernel_bootable l : NoDup l.*1 -> NULL ∉ l.*1 -> 2000 ∈ l.*1 -> Forall (fun x => edf_priorities x.2) l ->
  Z.of_nat (size (threads (edf_kernel l))) < 2 ^ 64 -> edf_bootable 2000 l (edf_kernel l).
Proof.
  intros Hnd Hnull Hidle Hp Hlen.
  assert (Hts : forall {A} (f : Z -> A) (t : Z) (v : A), (list_to_map ((fun '(t, p) => (t, f p)) <$> l) : gmap Z A) !! t = Some v <->
    exists p, (t, p) ∈ l /\ v = f p).
  { intros A f t v. assert (E : ((fun '(t, p) => (t, f p)) <$> l).*1 = l.*1)
      by (clear; induction l as [|[] l IH]; cbn; by rewrite ?IH).
    rewrite <- elem_of_list_to_map by by rewrite E. rewrite list_elem_of_fmap. split.
    - intros ([t' p'] & [= -> ->] & Hin). eauto.
    - intros (p' & Hin & ->). by exists (t, p'). }
  assert (Hin : forall t, t ∈ dom (threads (edf_kernel l)) <-> exists p, (t, p) ∈ l).
  { intros t. rewrite elem_of_dom. cbn. split.
    - intros [v Hv]. apply Hts in Hv as (p & Hv & _). eauto.
    - intros [p Hin]. exists (sample_thread p). apply Hts. eauto. }
  split.
  - intros t [p Ht]%Hin. split; [intros ->; apply Hnull, list_elem_of_fmap; by exists (NULL, p)|].
    eexists. cbn. apply (Hts _ (fun _ => {| rbe_left := 77; rbe_right := 77; rbe_parent := 77; rbe_color := 77 |})). eauto.
  - done.
  - done.
  - intros t p Ht. apply elem_of_dom, Hin. by exists p.
  - intros t th Ht. apply Hts in Ht as (p & Ht & ->). cbn [Wait_Priority sample_thread]. split_and!; [done| |done].
    by eapply Forall_forall in Ht; [|exact Hp].
  - apply elem_of_dom, Hin. apply list_elem_of_fmap in Hidle as ([t p] & -> & Hin'). by exists p.
Qed.

Lemma edf_kernel_bootable : edf_bootable 2000 edf_nodes (edf_kernel edf_nodes).
Proof.
  apply kernel_bootable; [apply (bool_decide_unpack _); vm_compute; reflexivity..| |by vm_compute].
  repeat (apply Forall_cons; split); [split; [split|]; vm_compute; done..|constructor].
Qed.

Lemma edf_ops_legal : Forall (legal edf_priorities 2000 (dom (threads (edf_kernel edf_nodes)))) edf_ops.
Proof. repeat constructor; cbn; unfold SCHEDULER_EDF_PRIO_MSB; first [lia | set_solver | done]. Qed.

Lemma edf_scheduler_correct_witness : exists s0 p0 s' q',
  edf_boot (RB := Spine.macros) 2000 edf_nodes (edf_kernel edf_nodes) = Some (tt, s0) /\
  run_ops (SCHEDULER_EDF_ENTRY_POINTS (RB := Spine.macros)) 10 edf_ops s0 = Some (tt, s') /\
  trace (SCHEDULER_EDF_ENTRY_POINTS (RB := Spine.macros)) edf_priorities (L := edf_laws) 10 2000
    s0 (q_append 2000 p0 (fun _ => [])) edf_ops s' q' /\ heir_correct s' q'.
Proof.
  destruct (edf_scheduler_correct (RB := Spine.macros) 10 2000 edf_nodes (edf_kernel edf_nodes) edf_ops
    edf_kernel_bootable edf_ops_legal) as (s0 & p0 & s' & q' & H1 & _ & H3 & H4 & H5).
  exists s0, p0, s', q'. exact (conj H1 (conj H3 (conj H4 H5))).
Defined.

(** ** The pseudo interrupt priority *)

(** C35. A thread with the mapped pseudo interrupt priority, such as the timer
    server, that is unblocked while the heir is a background thread becomes
    heir itself, whatever else is ready: if a thread with a deadline is ready
    (which happens while the heir has disabled preemption), the new heir,
    although it can be preempted, is not the most urgent ready thread, and
    the contract of the schedulers is violated.  The code compares the thread
    with the heir and does not look at the minimum of its tree. *)
Theorem edf_pseudo_isr_inversion {RB : RB_Macros} s q h t th d dh :
  let p := _Scheduler_EDF_Map_priority PRIORITY_PSEUDO_ISR in
  edf_repr s q -> threads s !! heir s = Some h -> p < Wait_Priority h ->
  threads s !! t = Some th -> Wait_Priority th = p -> Priority_value th = p -> (forall p', t ∉ q p') ->
  is_preemptible th = true ->
  threads s !! d = Some dh -> current_state dh = STATES_READY -> Wait_Priority dh < p ->
  wp (_Scheduler_EDF_Unblock t) (fun _ s' => heir s' = t /\ edf_repr s' (q_append t p q) /\
    ~ heir_correct s' (q_append t p q)) s.
Proof.
  intros p Hr Hh Hlt Ht Hw Hv Hni Hpre Hd Hds Hdp.
  eapply wp_mono; [by eapply edf_unblock_any|]. intros [] s' [Hr' Hc _ Hheir _]. fold p in Hheir.
  replace (p <? Wait_Priority h) with true in Hheir by (symmetry; by apply Z.ltb_lt).
  rewrite Z.eqb_refl, orb_true_r in Hheir. cbn [andb] in Hheir. split_and!; [done|done|].
  intros (h' & Hh' & _ & Hu & _). rewrite Hheir in Hh'.
  destruct (core_lookup _ _ _ _ Hc Ht) as (th' & Ht' & _ & Ep & Ew & _).
  destruct (core_lookup _ _ _ _ Hc Hd) as (dh' & Hd' & Es & _ & Ew' & _).
  assert (h' = th') as -> by congruence. specialize (Hu ltac:(congruence) d dh' Hd' ltac:(congruence)). lia.
Qed.

(** The kernel above with a fourth thread; the background thread disables
    preemption and the thread with the deadline becomes ready. *)
Definition pseudo_nodes : list (Z * Z) := edf_nodes ++ [(2048, 300)].

Definition pseudo_ops : list thread_op :=
  [clear_state 2032 0x80000000; dispatch; preempt_mode false; clear_state 2016 0x80000000].

Definition pseudo_before : state :=
  match (edf_boot (RB := Spine.macros) 2000 pseudo_nodes;;
         run_ops (SCHEDULER_EDF_ENTRY_POINTS (RB := Spine.macros)) 10 pseudo_ops) (edf_kernel pseudo_nodes) with
  | Some (_, s) => s
  | None => edf_kernel pseudo_nodes
  end.

(** The fourth thread has the pseudo interrupt priority. *)
Definition pseudo_state : state :=
  let p := _Scheduler_EDF_Map_priority PRIORITY_PSEUDO_ISR in
  upd 2048 (set_priorities p p false (sample_thread 300)) pseudo_before.

Lemma pseudo_repr : exists q, edf_repr (RB := Spine.macros) pseudo_state q /\ forall p, 2048 ∉ q p.
Proof.
  assert (Hb : edf_bootable 2000 pseudo_nodes (edf_kernel pseudo_nodes)).
  { apply kernel_bootable; [apply (bool_decide_unpack _); vm_compute; reflexivity..| |by vm_compute].
    repeat (apply Forall_cons; split); [split; [split|]; vm_compute; done..|constructor]. }
  destruct (proj1 (wp_run _ _ _) (edf_boot_spec (RB := Spine.macros) 2000 pseudo_nodes _ Hb))
    as ([] & s0 & E0 & _ & Hd & p & Hwf).
  destruct (run_ops_trace _ _ (L := edf_laws) 10 2000 pseudo_ops s0 _ Hwf) as (s1 & q & E1 & _ & [Hr [Hp Hrd _] _ _ _]).
  { rewrite Hd. repeat constructor; cbn; unfold SCHEDULER_EDF_PRIO_MSB; first [lia | set_solver | done]. }
  assert (Es : pseudo_before = s1).
  { unfold pseudo_before, mbind, M_bind. rewrite E0, E1. done. }
  assert (Ht : Wait_Priority <$> threads s1 !! 2048 = Some 300 /\ current_state <$> threads s1 !! 2048 = Some 0x80000000 /\
    Ready_queue <$> threads s1 !! 2048 = Some (Ready_queue (sample_thread 300))).
  { rewrite <- Es. vm_compute. done. }
  destruct (threads s1 !! 2048) as [th|] eqn:E; [|by destruct Ht]. destruct Ht as ([= Ew] & [= Ec] & [= Eq]).
  assert (Hni : forall p, 2048 ∉ q p).
  { intros p' Hin. destruct (proj2 (edf_queued _ _ Hr) p' 2048 Hin) as [_ (th' & Eth & Ep)].
    assert (th' = th) as -> by congruence. rewrite <- Ep in Hin. apply (Hrd _ _ E) in Hin. by rewrite Ec in Hin. }
  exists q. split; [|done]. unfold pseudo_state. rewrite Es. eapply edf_ext; [exact Hr|done..| |].
  - cbn. rewrite fmap_insert, insert_id; [done|]. rewrite lookup_fmap, E. cbn. by rewrite Eq.
  - intros p' t Hin. cbn. rewrite lookup_insert_ne; [done|]. intros <-. by eapply Hni.
Qed.

Lemma pseudo_threads : let p := _Scheduler_EDF_Map_priority PRIORITY_PSEUDO_ISR in exists h th dh,
  threads pseudo_state !! heir pseudo_state = Some h /\ p < Wait_Priority h /\
  threads pseudo_state !! 2048 = Some th /\ Wait_Priority th = p /\ Priority_value th = p /\ is_preemptible th = true /\
  threads pseudo_state !! 2016 = Some dh /\ current_state dh = STATES_READY /\ Wait_Priority dh < p.
Proof.
  intros p.
  assert (Hh : Wait_Priority <$> threads pseudo_state !! heir pseudo_state = Some (_Scheduler_EDF_Map_priority 5)) by (vm_compute; reflexivity).
  assert (Ht : (fun th => (Wait_Priority th, Priority_value th, is_preemptible th)) <$> threads pseudo_state !! 2048 = Some (p, p, true))
    by (vm_compute; reflexivity).
  assert (Hd : (fun th => (current_state th, Wait_Priority th)) <$> threads pseudo_state !! 2016 = Some (STATES_READY, 100))
    by (vm_compute; reflexivity).
  destruct (threads pseudo_state !! heir pseudo_state) as [h|], (threads pseudo_state !! 2048) as [th|], (threads pseudo_state !! 2016) as [dh|];
    try discriminate. exists h, th, dh. cbn in Hh, Ht, Hd. injection Hh as ->. injection Ht as -> -> ->. injection Hd as -> ->. done.
Qed.

Lemma edf_pseudo_isr_inversion_witness :
  wp (_Scheduler_EDF_Unblock (RB := Spine.macros) 2048) (fun _ s' => heir s' = 2048 /\
    exists q, edf_repr (RB := Spine.macros) s' q /\ ~ heir_correct s' q) pseudo_state.
Proof.
  destruct pseudo_repr as (q & Hr & Hni), pseudo_threads as (h & th & dh & H1 & H2 & H3 & H4 & H5 & H6 & H7 & H8 & H9).
  refine (wp_mono _ _ _ _ (edf_pseudo_isr_inversion (RB := Spine.macros) pseudo_state q h 2048 th 2016 dh
    Hr H1 H2 H3 H4 H5 Hni H6 H7 H8 H9) _).
  intros [] s' (E & Hr' & Hc). split; [exact E|]. by eexists.
Defined.

End SchedulerEDF.
