(* ===== verification/Timespec.v ===== *)
(** Arithmetic on [struct timespec] (score/timespec.h, timespecaddto.c,
    timespecsubtract.c, timespeclessthan.c, timespecisvalid.c,
    timespecdivide.c, timespecdividebyinteger.c, timespecgetasnanoseconds.c,
    timespecfromticks.c, timespectoticks.c, coretodtickspersec.c).

    [time_t] and [long] are 64-bit signed; overflow of the signed sums, which
    C leaves undefined, is outside the hypotheses of the theorems.  The clock
    tick length is the configured number of microseconds. *)

From S2P Require Import Prelude.
Open Scope width_scope.

Module Timespec.

Definition TOD_MICROSECONDS_PER_SECOND : Z := 1000000.
Definition TOD_NANOSECONDS_PER_SECOND : Z := 1000000000.
Definition TOD_NANOSECONDS_PER_MICROSECOND : Z := 1000.

Record timespec := {
  tv_sec : Z;
  tv_nsec : Z;
}.

(** A null pointer is [None]. *)
Definition _Timespec_Is_valid (time : option timespec) : bool :=
  match time with
  | None => false
  | Some time =>
      if tv_sec time <? 0 then false
      else if tv_nsec time <? 0 then false
      else if TOD_NANOSECONDS_PER_SECOND <=? tv_nsec time then false
      else true
  end.

Definition _Timespec_Less_than (lhs rhs : timespec) : bool :=
  if tv_sec lhs <? tv_sec rhs then true
  else if tv_sec rhs <? tv_sec lhs then false
  else if tv_nsec lhs <? tv_nsec rhs then true
  else false.

(** Returns the new [*time] and the number of seconds time advanced by;
    [None] if the loop does not end. *)
Definition _Timespec_Add_to (time add : timespec) : option (timespec * Z) :=
  let sec := tv_sec time + tv_sec add in
  let nsec := tv_nsec time + tv_nsec add in
  fst <$> whileM (S := unit) (fun '(sec, nsec, seconds) =>
    if TOD_NANOSECONDS_PER_SECOND <=? nsec then
      mret (inl (sec + 1, nsec - TOD_NANOSECONDS_PER_SECOND, seconds +. 1))
    else mret (inr ({| tv_sec := sec; tv_nsec := nsec |}, seconds)))
    (sec, nsec, u32 (tv_sec add)) tt.

Definition _Timespec_Subtract (start end_ : timespec) : timespec :=
  if tv_nsec end_ <? tv_nsec start then
    {| tv_sec := tv_sec end_ - tv_sec start - 1;
       tv_nsec := (TOD_NANOSECONDS_PER_SECOND - tv_nsec start) + tv_nsec end_ |}
  else
    {| tv_sec := tv_sec end_ - tv_sec start;
       tv_nsec := tv_nsec end_ - tv_nsec start |}.

Definition _Timespec_Get_as_nanoseconds (time : timespec) : Z :=
  u64 (u64 (tv_sec time) * 1000000000) +! tv_nsec time.

(** Returns [*ival_percentage] and [*fval_percentage]. *)
Definition _Timespec_Divide (lhs rhs : timespec) : Z * Z :=
  let left := u64 (tv_sec lhs * TOD_NANOSECONDS_PER_SECOND) +! tv_nsec lhs in
  let right := u64 (tv_sec rhs * TOD_NANOSECONDS_PER_SECOND) +! tv_nsec rhs in
  if right =? 0 then (0, 0)
  else
    let answer := u64 (left * 100000) / right in
    (u32 (answer / 1000), u32 (answer mod 1000)).

(** [None] is the division by zero. *)
Definition _Timespec_Divide_by_integer (time : timespec) (iterations : Z)
    : option timespec :=
  let t := u64 (u64 (tv_sec time) * TOD_NANOSECONDS_PER_SECOND) +! tv_nsec time in
  if iterations =? 0 then None
  else
    let t := t / iterations in
    Some {| tv_sec := t / TOD_NANOSECONDS_PER_SECOND;
            tv_nsec := t mod TOD_NANOSECONDS_PER_SECOND |}.

Section ticks.
(** The configuration. *)
Context (microseconds_per_tick : Z).
Definition nanoseconds_per_tick : Z := u32 (microseconds_per_tick * 1000).

Definition TOD_TICKS_PER_SECOND_method : Z :=
  TOD_MICROSECONDS_PER_SECOND / microseconds_per_tick.

Definition _Timespec_From_ticks (ticks : Z) : timespec :=
  let usecs := u32 (ticks * microseconds_per_tick) in
  {| tv_sec := usecs / TOD_MICROSECONDS_PER_SECOND;
     tv_nsec := (usecs mod TOD_MICROSECONDS_PER_SECOND) * TOD_NANOSECONDS_PER_MICROSECOND |}.

Definition _Timespec_To_ticks (time : timespec) : Z :=
  if (tv_sec time =? 0) && (tv_nsec time =? 0) then 0
  else
    let ticks := u32 (tv_sec time * TOD_TICKS_PER_SECOND_method) in
    let ticks := ticks +. tv_nsec time / nanoseconds_per_tick in
    if negb (tv_nsec time mod nanoseconds_per_tick =? 0) then ticks +. 1 else ticks.
End ticks.

(** * Specification: a valid timespec is a number of nanoseconds *)

Definition ns (t : timespec) : Z := tv_sec t * 1000000000 + tv_nsec t.

Definition valid (t : timespec) : Prop := 0 <= tv_sec t /\ 0 <= tv_nsec t < 1000000000.

Lemma is_valid_spec t : _Timespec_Is_valid (Some t) = true <-> valid t.
Proof.
  unfold _Timespec_Is_valid, valid, TOD_NANOSECONDS_PER_SECOND.
  repeat case_match; bool_hyps; split; try done; lia.
Qed.

Lemma ns_inj a b : valid a -> valid b -> ns a = ns b -> a = b.
Proof.
  destruct a as [sa na], b as [sb nb]. unfold valid, ns. cbn. intros [? ?] [? ?] E.
  assert (sa = sb) by lia. f_equal; lia.
Qed.

Lemma less_than_spec a b : valid a -> valid b ->
  _Timespec_Less_than a b = (ns a <? ns b).
Proof.
  unfold valid, ns, _Timespec_Less_than. intros. symmetry.
  repeat case_match; bool_hyps; (apply Z.ltb_lt || apply Z.ltb_ge); lia.
Qed.

(** The carry loop ends and keeps the value. *)
Lemma add_to_spec time add : 0 <= tv_nsec time + tv_nsec add < 2 ^ 63 ->
  exists r secs, _Timespec_Add_to time add = Some (r, secs) /\
    ns r = ns time + ns add /\ 0 <= tv_nsec r < 1000000000 /\
    secs = u32 (tv_sec r - tv_sec time).
Proof.
  intros Hn. unfold _Timespec_Add_to.
  set (body := fun '(sec, nsec, seconds) => _).
  assert (Hw : wp (whileM (S := unit) body (tv_sec time + tv_sec add, tv_nsec time + tv_nsec add, u32 (tv_sec add)))
    (fun '(r, secs) _ => ns r = ns time + ns add /\ 0 <= tv_nsec r < 1000000000 /\
       secs = u32 (tv_sec r - tv_sec time)) tt).
  { eapply (wp_whileM body (fun k '(sec, nsec, seconds) _ => 0 <= nsec < 2 ^ 63 /\ k = nsec /\
      sec * 1000000000 + nsec = ns time + ns add /\ seconds = u32 (sec - tv_sec time))).
    - intros k [[sec nsec] seconds] [] (Hb & -> & Hv & ->). cbn [body].
      unfold TOD_NANOSECONDS_PER_SECOND. case_bool.
      + apply wp_ret. exists (nsec - 1000000000). cbn in *. split; [lia|]. split_and!; [lia|lia|done|lia|].
        unfold u32. rewrite Z.add_mod_idemp_l by lia. f_equal. lia.
      + apply wp_ret. cbn in *. split_and!; [exact Hv|lia|lia|done].
    - split_and!; [lia|lia|reflexivity|unfold ns; lia|]. f_equal. lia.
    - lia. }
  destruct (proj1 (wp_run _ _ _) Hw) as ([r secs] & [] & E & H1 & H2 & H3).
  exists r, secs. rewrite E. done.
Qed.

Lemma subtract_spec a b : valid a -> valid b ->
  let r := _Timespec_Subtract a b in ns r = ns b - ns a /\ 0 <= tv_nsec r < 1000000000.
Proof.
  unfold valid, ns, _Timespec_Subtract, TOD_NANOSECONDS_PER_SECOND. intros ? ?.
  case_bool; cbn; lia.
Qed.

(** * Properties *)

(** Subtraction and addition of valid timespecs are inverse: adding the
    difference of a later and an earlier time to the earlier one ends its
    carry loop, gives back the later one exactly, and returns the number of
    whole seconds the clock advanced. *)
Theorem timespec_subtract_add_to a b : valid a -> valid b -> ns a <= ns b ->
  _Timespec_Add_to a (_Timespec_Subtract a b) = Some (b, u32 (tv_sec b - tv_sec a)).
Proof.
  intros Ha Hb Hle. destruct (subtract_spec a b Ha Hb) as [Hs Hr].
  destruct (add_to_spec a (_Timespec_Subtract a b)) as (r & secs & -> & Hn & Hr' & ->).
  { unfold valid in Ha. lia. }
  assert (r = b) as ->; [|done]. apply ns_inj; [|done|lia].
  split; [|done]. unfold ns, valid in *. lia.
Qed.

Lemma timespec_subtract_add_to_witness :
  _Timespec_Subtract {| tv_sec := 1; tv_nsec := 900000000 |} {| tv_sec := 3; tv_nsec := 100000000 |}
    = {| tv_sec := 1; tv_nsec := 200000000 |} /\
  _Timespec_Add_to {| tv_sec := 1; tv_nsec := 900000000 |}
      (_Timespec_Subtract {| tv_sec := 1; tv_nsec := 900000000 |} {| tv_sec := 3; tv_nsec := 100000000 |})
    = Some ({| tv_sec := 3; tv_nsec := 100000000 |}, 2).
Proof.
  split; [reflexivity|].
  exact (timespec_subtract_add_to {| tv_sec := 1; tv_nsec := 900000000 |}
    {| tv_sec := 3; tv_nsec := 100000000 |} ltac:(unfold valid; cbn; lia)
    ltac:(unfold valid; cbn; lia) ltac:(unfold ns; cbn; lia)).
Defined.

Section tick_length.
(** A tick length that divides the second. *)
Context (us tps : Z) (Hus : 0 < us) (Hdiv : us * tps = 1000000).

Lemma tps_spec : TOD_TICKS_PER_SECOND_method us = tps.
Proof.
  unfold TOD_TICKS_PER_SECOND_method, TOD_MICROSECONDS_PER_SECOND. rewrite <- Hdiv.
  rewrite Z.mul_comm. apply Z.div_mul. lia.
Qed.

Lemma tps_pos : 0 < tps.
Proof. nia. Qed.

Lemma nspt_spec : nanoseconds_per_tick us = us * 1000.
Proof. unfold nanoseconds_per_tick. pose proof tps_pos. apply u32_small. nia. Qed.

(** Nanoseconds as ticks, rounded up. *)
Lemma to_ticks_ceil t : valid t -> ns t <= (2 ^ 32 - 1) * (us * 1000) ->
  let n := _Timespec_To_ticks us t in
  0 <= n /\ (n - 1) * (us * 1000) < ns t <= n * (us * 1000).
Proof.
  intros [Hs Hn] Hb. unfold _Timespec_To_ticks. rewrite tps_spec, nspt_spec.
  pose proof tps_pos. destruct t as [s n]. unfold ns in *. cbn [tv_sec tv_nsec] in *.
  set (a := us * 1000) in *. assert (Ha : 0 < a) by (unfold a; lia).
  assert (Htps : a * tps = 1000000000) by (unfold a; lia).
  pose proof (Z.div_mod n a ltac:(lia)) as Hdm.
  pose proof (Z.mod_pos_bound n a ltac:(lia)) as Hm.
  assert (Hq : 0 <= n / a < tps).
  { split; [apply Z.div_pos; lia|]. apply Z.div_lt_upper_bound; lia. }
  set (k := n / a) in *. set (r := n mod a) in *.
  assert (Hp : 0 <= s * tps) by (apply Z.mul_nonneg_nonneg; lia).
  assert (Hsec : s * 1000000000 + n = (s * tps + k) * a + r).
  { rewrite <- Htps, Hdm. ring. }
  rewrite Hsec in *. set (b := s * tps + k) in *.
  assert (Hb2 : b <= 2 ^ 32 - 1) by (apply (Z.mul_le_mono_pos_r _ _ a); lia).
  destruct ((s =? 0) && (n =? 0)) eqn:E.
  { apply andb_true_iff in E as [? ?]. bool_hyps. lia. }
  cbv zeta. rewrite (u32_small (s * tps)) by lia. fold b. rewrite (u32_small b) by lia.
  case_bool; cbn [negb].
  - rewrite Z.mul_sub_distr_r. lia.
  - assert (b < 2 ^ 32 - 1) by (apply (Z.mul_lt_mono_pos_r a); lia).
    rewrite u32_small by lia. replace (b + 1 - 1) with b by lia.
    rewrite Z.mul_add_distr_r. lia.
Qed.
End tick_length.

(** C39. With a tick length that divides the second, and for a time of at most
    2^32 - 1 ticks (beyond which the 32-bit result wraps around),
    [_Timespec_To_ticks] rounds up: the returned number of ticks lasts at least
    as long as the requested time, and one tick less would be too short. *)
Theorem timespec_to_ticks_rounds_up us tps t : 0 < us -> us * tps = 1000000 ->
  valid t -> ns t <= (2 ^ 32 - 1) * (us * 1000) ->
  let n := _Timespec_To_ticks us t in
  0 <= n /\ (n - 1) * (us * 1000) < ns t <= n * (us * 1000).
Proof. intros ? ? ? ?. by apply (to_ticks_ceil us tps). Qed.

Lemma timespec_to_ticks_rounds_up_witness :
  let n := _Timespec_To_ticks 10000 {| tv_sec := 2; tv_nsec := 10000001 |} in
  n = 202 /\ 0 <= n /\ (n - 1) * (10000 * 1000) < 2010000001 <= n * (10000 * 1000).
Proof.
  split; [reflexivity|].
  exact (timespec_to_ticks_rounds_up 10000 100 {| tv_sec := 2; tv_nsec := 10000001 |}
    ltac:(lia) ltac:(lia) ltac:(unfold valid; cbn; lia) ltac:(unfold ns; cbn; lia)).
Defined.

(** Ticks survive the conversion to a timespec and back, as long as the
    time in microseconds fits in 32 bits. *)
Lemma timespec_ticks_roundtrip us tps ticks : 0 < us -> us * tps = 1000000 ->
  0 <= ticks -> ticks * us < 2 ^ 32 ->
  _Timespec_Is_valid (Some (_Timespec_From_ticks us ticks)) = true /\
  _Timespec_To_ticks us (_Timespec_From_ticks us ticks) = ticks.
Proof.
  intros Hus Hdiv H0 Hb. pose proof (tps_pos us tps Hus Hdiv). set (t := _Timespec_From_ticks us ticks).
  assert (Ht : valid t /\ ns t = ticks * (us * 1000) /\ tv_sec t * 1000000 <= ticks * us).
  { unfold t, valid, ns, _Timespec_From_ticks, TOD_MICROSECONDS_PER_SECOND,
      TOD_NANOSECONDS_PER_MICROSECOND. rewrite u32_small by nia. cbn.
    pose proof (Z.div_mod (ticks * us) 1000000 ltac:(lia)).
    pose proof (Z.mod_pos_bound (ticks * us) 1000000 ltac:(lia)).
    pose proof (Z.div_pos (ticks * us) 1000000 ltac:(nia) ltac:(lia)). lia. }
  destruct Ht as (Hv & Hn & Hs). split; [by apply is_valid_spec|].
  assert (Hb' : ns t <= (2 ^ 32 - 1) * (us * 1000)) by (rewrite Hn; nia).
  pose proof (to_ticks_ceil us tps Hus Hdiv t Hv Hb') as Hc. cbv zeta in Hc. rewrite Hn in Hc.
  destruct Hc as (_ & Hc1 & Hc2). apply Z.mul_lt_mono_pos_r in Hc1; [|lia].
  apply Z.mul_le_mono_pos_r in Hc2; [|lia]. lia.
Qed.

Lemma timespec_ticks_roundtrip_witness :
  _Timespec_From_ticks 10000 150 = {| tv_sec := 1; tv_nsec := 500000000 |} /\
  _Timespec_Is_valid (Some (_Timespec_From_ticks 10000 150)) = true /\
  _Timespec_To_ticks 10000 (_Timespec_From_ticks 10000 150) = 150.
Proof.
  split; [reflexivity|].
  exact (timespec_ticks_roundtrip 10000 100 150 ltac:(lia) ltac:(lia) ltac:(lia) ltac:(lia)).
Defined.

(** C40. Without that divisibility the result is shorter than the request,
    against the comment in the function: for every tick length that does not
    divide the second, a positive whole number of seconds is converted to the
    truncated number of ticks per second for each of them (as long as the
    product fits in 32 bits), which last [1000000 mod us] microseconds less
    than each second. *)
Theorem timespec_to_ticks_too_short us s : 0 < us -> us * 1000 < 2 ^ 32 -> 1000000 mod us <> 0 ->
  0 < s -> s * (1000000 / us) < 2 ^ 32 ->
  let t := {| tv_sec := s; tv_nsec := 0 |} in
  let n := _Timespec_To_ticks us t in
  n = s * (1000000 / us) /\ n * nanoseconds_per_tick us = ns t - s * (1000000 mod us) * 1000 /\
  n * nanoseconds_per_tick us < ns t.
Proof.
  intros Hus Hw Hr Hs Hf. cbv zeta. pose proof (Z.div_mod 1000000 us ltac:(lia)) as Hdm.
  pose proof (Z.mod_pos_bound 1000000 us Hus) as Hm. pose proof (Z.div_pos 1000000 us ltac:(lia) Hus) as Hq.
  unfold _Timespec_To_ticks, TOD_TICKS_PER_SECOND_method, TOD_MICROSECONDS_PER_SECOND, nanoseconds_per_tick, ns.
  cbn [tv_sec tv_nsec]. rewrite (u32_small (us * 1000)) by lia. rewrite Zmod_0_l, Zdiv_0_l, Z.add_0_r.
  destruct (Z.eqb_spec s 0); [lia|]. cbn [andb]. change (0 =? 0) with true. cbn [negb].
  set (q := 1000000 / us) in *. set (r := 1000000 mod us) in *. rewrite !(u32_small (s * q)) by nia.
  assert (E : s * q * (us * 1000) = s * 1000000000 - s * r * 1000).
  { transitivity (s * 1000 * (us * q)); [ring|]. replace (us * q) with (1000000 - r) by lia. ring. }
  rewrite E. split_and!; [done|lia|]. nia.
Qed.

Lemma timespec_to_ticks_too_short_witness :
  let t := {| tv_sec := 1; tv_nsec := 0 |} in
  let n := _Timespec_To_ticks 16667 t in
  n = 59 /\ n * nanoseconds_per_tick 16667 = 983353000 /\ n * nanoseconds_per_tick 16667 < ns t.
Proof. apply (timespec_to_ticks_too_short 16667 1); [lia|lia|discriminate|lia|vm_compute; done]. Defined.

(** Dividing a valid timespec whose nanoseconds fit in 64 bits by a
    positive number of iterations gives the valid timespec of the quotient
    rounded down; [_Timespec_Get_as_nanoseconds] is exact on it. *)
Lemma timespec_divide_by_integer_exact t n : valid t -> ns t < 2 ^ 64 -> 0 < n ->
  exists r, _Timespec_Divide_by_integer t n = Some r /\ valid r /\ ns r = ns t / n /\
    _Timespec_Get_as_nanoseconds r = ns t / n.
Proof.
  intros [Hs Hn] Hb H0. assert (0 <= ns t) by (unfold ns; lia).
  assert (Hq : 0 <= ns t / n <= ns t).
  { split; [apply Z.div_pos; lia|]. apply Z.div_le_upper_bound; nia. }
  unfold _Timespec_Divide_by_integer, TOD_NANOSECONDS_PER_SECOND. cbv zeta.
  assert (Et : u64 (u64 (tv_sec t) * 1000000000) +! tv_nsec t = ns t).
  { unfold ns in *. rewrite (u64_small (tv_sec t)) by lia. rewrite (u64_small (_ * _)) by lia.
    rewrite u64_small; lia. }
  rewrite Et. destruct (Z.eqb_spec n 0); [lia|]. eexists. split; [reflexivity|].
  set (q := ns t / n) in *.
  pose proof (Z.div_mod q 1000000000 ltac:(lia)) as Hd.
  pose proof (Z.mod_pos_bound q 1000000000 ltac:(lia)).
  pose proof (Z.div_pos q 1000000000 ltac:(lia) ltac:(lia)).
  unfold valid, _Timespec_Get_as_nanoseconds, ns at 1. cbn [tv_sec tv_nsec].
  set (d := q / 1000000000) in *. set (m := q mod 1000000000) in *.
  rewrite (u64_small d) by lia. rewrite (u64_small (d * _)) by lia.
  rewrite u64_small by lia. lia.
Qed.

End Timespec.
