(* ===== verification/Watchdog.v ===== *)
(** Watchdogs (score/watchdog.h, score/watchdogimpl.h, watchdoginsert.c,
    watchdogremove.c, watchdogtick.c): functions to be called at a time in
    the future, kept in red-black trees sorted by expiration time.

    One processor.  Each processor has two headers, one for the clock tick
    and one for the time of day.  The node of a watchdog and the node of its
    tree have the same address, by which the stores of nodes and of the other
    members are indexed.  The service routines, the scheduler tick and the
    time counter belong to other components: the first two are parameters
    that act on the rest [E] of the system, the time is an argument.  The
    list [history] records the watchdogs whose routines were called. *)

From S2P Require Import Prelude RBTree Timespec.
Import RBTree Timespec.
Open Scope width_scope.

Module Watchdog.

(** * Data *)

Definition WATCHDOG_SCHEDULED_BLACK : Z := 0.
Definition WATCHDOG_SCHEDULED_RED : Z := 1.
Definition WATCHDOG_INACTIVE : Z := 2.
Definition WATCHDOG_PENDING : Z := 3.

Inductive Per_CPU_Watchdog_index :=
  | PER_CPU_WATCHDOG_MONOTONIC
  | PER_CPU_WATCHDOG_REALTIME.

#[export] Instance Per_CPU_Watchdog_index_eq_dec : EqDecision Per_CPU_Watchdog_index.
Proof. solve_decision. Defined.

(** The node of the watchdog is in the store of nodes. *)
Record Watchdog_Control := {
  routine : Z;
  expire : Z;
}.

Record Watchdog_Header := {
  Watchdogs : Z;
  first : Z;
}.

Record state (E : Type) := {
  nodes : gmap Z RBTree_Node;
  controls : gmap Z Watchdog_Control;
  monotonic : Watchdog_Header;
  realtime : Watchdog_Header;
  ticks : Z;
  _Watchdog_Ticks_since_boot : Z;
  history : list Z;
  env : E;
}.
Arguments nodes {E}. Arguments controls {E}. Arguments monotonic {E}. Arguments realtime {E}.
Arguments ticks {E}. Arguments _Watchdog_Ticks_since_boot {E}. Arguments history {E}. Arguments env {E}.
Arguments Build_state {E}.

Section watchdog.
Context {E : Type} {RB : RB_Macros}.
Abbreviation state := (state E).

Definition header_of (h : Per_CPU_Watchdog_index) (s : state) : Watchdog_Header :=
  match h with
  | PER_CPU_WATCHDOG_MONOTONIC => monotonic s
  | PER_CPU_WATCHDOG_REALTIME => realtime s
  end.

Definition with_header (h : Per_CPU_Watchdog_index) (v : Watchdog_Header) (s : state) : state :=
  Build_state (nodes s) (controls s)
    (match h with PER_CPU_WATCHDOG_MONOTONIC => v | _ => monotonic s end)
    (match h with PER_CPU_WATCHDOG_REALTIME => v | _ => realtime s end)
    (ticks s) (_Watchdog_Ticks_since_boot s) (history s) (env s).

Definition with_nodes (v : gmap Z RBTree_Node) (s : state) : state :=
  Build_state v (controls s) (monotonic s) (realtime s) (ticks s) (_Watchdog_Ticks_since_boot s) (history s) (env s).
Definition with_controls (v : gmap Z Watchdog_Control) (s : state) : state :=
  Build_state (nodes s) v (monotonic s) (realtime s) (ticks s) (_Watchdog_Ticks_since_boot s) (history s) (env s).
Definition with_ticks (v : Z) (s : state) : state :=
  Build_state (nodes s) (controls s) (monotonic s) (realtime s) v (_Watchdog_Ticks_since_boot s) (history s) (env s).
Definition with_ticks_since_boot (v : Z) (s : state) : state :=
  Build_state (nodes s) (controls s) (monotonic s) (realtime s) (ticks s) v (history s) (env s).
Definition with_history (v : list Z) (s : state) : state :=
  Build_state (nodes s) (controls s) (monotonic s) (realtime s) (ticks s) (_Watchdog_Ticks_since_boot s) v (env s).
Definition with_env (v : E) (s : state) : state :=
  Build_state (nodes s) (controls s) (monotonic s) (realtime s) (ticks s) (_Watchdog_Ticks_since_boot s) (history s) v.

(** The tree of a header. *)
#[program] Definition header_tree (h : Per_CPU_Watchdog_index) : HasTree state := {|
  get_tree s := {| rb_nodes := nodes s; rbh_root := Watchdogs (header_of h s) |};
  set_tree t s := with_nodes (rb_nodes t)
    (with_header h {| Watchdogs := rbh_root t; first := first (header_of h s) |} s) |}.
Next Obligation. by intros [] [] []. Qed.
Next Obligation. by intros [] [] [] []. Qed.

Definition control (w : Z) : M state Watchdog_Control := fun s =>
  match controls s !! w with
  | Some c => Some (c, s)
  | None => None
  end.

Definition set_expire (w v : Z) : M state unit :=
  c ← control w;
  modify (fun s => with_controls (<[w := {| routine := routine c; expire := v |}]> (controls s)) s).
Definition set_routine (w v : Z) : M state unit :=
  c ← control w;
  modify (fun s => with_controls (<[w := {| routine := v; expire := expire c |}]> (controls s)) s).

Definition get_first (h : Per_CPU_Watchdog_index) : M state Z := gets (fun s => first (header_of h s)).
Definition set_first (h : Per_CPU_Watchdog_index) (v : Z) : M state unit :=
  modify (fun s => with_header h {| Watchdogs := Watchdogs (header_of h s); first := v |} s).

(** * watchdogimpl.h *)

Definition _Watchdog_Header_initialize (header : Per_CPU_Watchdog_index) : M state unit :=
  _RBTree_Initialize_empty (HT := header_tree header);;
  set_first header NULL.

Definition _Watchdog_Header_destroy (header : Per_CPU_Watchdog_index) : M state unit := mret tt.

(** The state of a watchdog is the colour of its node. *)
Definition _Watchdog_Get_state (the_watchdog : Z) : M state Z :=
  RB_COLOR (HT := header_tree PER_CPU_WATCHDOG_MONOTONIC) the_watchdog.
Definition _Watchdog_Set_state (the_watchdog st : Z) : M state unit :=
  update_node (HT := header_tree PER_CPU_WATCHDOG_MONOTONIC) the_watchdog (set_color st).

Definition _Watchdog_Preinitialize (the_watchdog : Z) : M state unit :=
  _Watchdog_Set_state the_watchdog WATCHDOG_INACTIVE.

Definition _Watchdog_Initialize (the_watchdog r : Z) : M state unit :=
  set_routine the_watchdog r.

Definition _Watchdog_Is_scheduled (the_watchdog : Z) : M state bool :=
  st ← _Watchdog_Get_state the_watchdog;
  mret (st <? WATCHDOG_INACTIVE).

(** The loop that follows the left children. *)
Definition leftmost_loop (header : Per_CPU_Watchdog_index) (node : Z) : M state (Z + Z) :=
  left ← _RBTree_Left (HT := header_tree header) node;
  if negb (left =? NULL) then mret (inl left) else mret (inr node).

Definition _Watchdog_Next_first (header : Per_CPU_Watchdog_index) (the_watchdog : Z) : M state unit :=
  node ← _RBTree_Right (HT := header_tree header) the_watchdog;
  if negb (node =? NULL) then
    node ← whileM (leftmost_loop header) node;
    set_first header node
  else
    parent ← _RBTree_Parent (HT := header_tree header) the_watchdog;
    set_first header parent.

(** * watchdoginsert.c *)

Definition _Watchdog_Insert (header : Per_CPU_Watchdog_index) (the_watchdog expire' : Z) : M state unit :=
  old_first ← get_first header;
  set_expire the_watchdog expire';;
  '(link, parent, new_first) ←
    whileM (descend (HT := header_tree header)
      (fun parent => parent_watchdog ← control parent; mret (expire' <? expire parent_watchdog))
      (fun _ => old_first))
    (Root_reference, NULL, the_watchdog);
  set_first header new_first;;
  _RBTree_Initialize_node the_watchdog;;
  _RBTree_Add_child (HT := header_tree header) the_watchdog parent link;;
  _RBTree_Insert_color (HT := header_tree header) the_watchdog.

(** * watchdogremove.c *)

Definition _Watchdog_Remove (header : Per_CPU_Watchdog_index) (the_watchdog : Z) : M state unit :=
  scheduled ← _Watchdog_Is_scheduled the_watchdog;
  whenM scheduled
    (f ← get_first header;
     whenM (f =? the_watchdog) (_Watchdog_Next_first header the_watchdog);;
     _RBTree_Extract (HT := header_tree header) the_watchdog;;
     _Watchdog_Set_state the_watchdog WATCHDOG_INACTIVE).

Definition _Watchdog_Cancel (header : Per_CPU_Watchdog_index) (the_watchdog now : Z) : M state Z :=
  c ← control the_watchdog;
  let remaining := if now <? expire c then expire c -! now else 0 in
  _Watchdog_Remove header the_watchdog;;
  mret remaining.

(** ** The watchdogs of the processor *)

Definition _Watchdog_Per_CPU_insert_ticks (the_watchdog interval : Z) : M state Z :=
  t ← gets ticks;
  let expire' := interval +! t in
  _Watchdog_Insert PER_CPU_WATCHDOG_MONOTONIC the_watchdog expire';;
  mret expire'.

Definition _Watchdog_Per_CPU_lazy_insert_monotonic (the_watchdog expire' : Z) : M state bool :=
  t ← gets ticks;
  let insert := t <? expire' in
  whenM insert (_Watchdog_Insert PER_CPU_WATCHDOG_MONOTONIC the_watchdog expire');;
  mret insert.

Definition _Watchdog_Per_CPU_insert_realtime (the_watchdog expire' : Z) : M state Z :=
  _Watchdog_Insert PER_CPU_WATCHDOG_REALTIME the_watchdog expire';;
  mret expire'.

Definition _Watchdog_Per_CPU_remove (the_watchdog : Z) (header : Per_CPU_Watchdog_index) : M state unit :=
  _Watchdog_Remove header the_watchdog.
Definition _Watchdog_Per_CPU_remove_monotonic (the_watchdog : Z) : M state unit :=
  _Watchdog_Per_CPU_remove the_watchdog PER_CPU_WATCHDOG_MONOTONIC.
Definition _Watchdog_Per_CPU_remove_realtime (the_watchdog : Z) : M state unit :=
  _Watchdog_Per_CPU_remove the_watchdog PER_CPU_WATCHDOG_REALTIME.

(** ** Points in time *)

Definition WATCHDOG_NANOSECONDS_PER_SECOND : Z := 1000000000.
Definition WATCHDOG_BITS_FOR_1E9_NANOSECONDS : Z := 30.
Definition WATCHDOG_REALTIME_MAX_SECONDS : Z := 0x3ffffffff.

Definition _Watchdog_Is_valid_timespec (ts : option timespec) : bool :=
  match ts with
  | None => false
  | Some ts => u64 (tv_nsec ts) <? WATCHDOG_NANOSECONDS_PER_SECOND
  end.

Definition _Watchdog_Is_valid_interval_timespec (ts : option timespec) : bool :=
  _Watchdog_Is_valid_timespec ts && match ts with None => false | Some ts => 0 <=? tv_sec ts end.

(** [None] is the null pointer; otherwise the new value of [now]. *)
Definition _Watchdog_Future_timespec (now : timespec) (delta : option timespec) : option timespec :=
  match delta with
  | Some d =>
      if negb (_Watchdog_Is_valid_interval_timespec delta) then None else
      let sec := u64 (tv_sec now) +! u64 (tv_sec d) in
      let nsec := tv_nsec now + tv_nsec d in
      let '(nsec, sec) :=
        if WATCHDOG_NANOSECONDS_PER_SECOND <=? nsec
        then (nsec - WATCHDOG_NANOSECONDS_PER_SECOND, sec +! 1) else (nsec, sec) in
      Some {| tv_sec := if sec <=? 2 ^ 63 - 1 then sec else 2 ^ 63 - 1; tv_nsec := nsec |}
  | None => None
  end.

(** The ticks per second and nanoseconds per tick are configured. *)
Definition _Watchdog_Monotonic_from_timespec (ticks_per_second nanoseconds_per_tick : Z) (ts : timespec) : Z :=
  u64 (u64 (tv_sec ts) * ticks_per_second) +! u64 (tv_nsec ts) / nanoseconds_per_tick.

(** The bound is configured; the comparison is unsigned. *)
Definition _Watchdog_Is_far_future_monotonic_timespec (monotonic_max_seconds : Z) (ts : timespec) : bool :=
  monotonic_max_seconds <=? u64 (tv_sec ts).

Definition _Watchdog_Is_far_future_realtime_timespec (ts : timespec) : bool :=
  WATCHDOG_REALTIME_MAX_SECONDS <? tv_sec ts.

Definition _Watchdog_Realtime_from_seconds (seconds : Z) : Z :=
  u64 (Z.shiftl seconds WATCHDOG_BITS_FOR_1E9_NANOSECONDS).

Definition _Watchdog_Realtime_from_timespec (ts : timespec) : Z :=
  let t := u64 (tv_sec ts) in
  let t := u64 (Z.shiftl t WATCHDOG_BITS_FOR_1E9_NANOSECONDS) in
  Z.lor t (u32 (tv_nsec ts)).

(** [sbt] is signed, with 32 fractional bits. *)
Definition _Watchdog_Realtime_from_sbintime (sbt : Z) : Z :=
  let t := u64 (Z.shiftl (Z.shiftr sbt 32) WATCHDOG_BITS_FOR_1E9_NANOSECONDS) in
  Z.lor t (Z.shiftr (u64 (1000000000 * u32 sbt)) 32).

(** * watchdogtick.c *)

(** [service] is what the service routines do, [scheduler_tick] is
    [_Scheduler_Tick]. *)
Context (service : Z -> Z -> M state unit) (scheduler_tick : E -> E).

(** [ ( *routine )( the_watchdog ) ] *)
Definition call_routine (r the_watchdog : Z) : M state unit :=
  modify (fun s => with_history (history s ++ [the_watchdog]) s);;
  service r the_watchdog.

Definition tickle_loop (header : Per_CPU_Watchdog_index) (now : Z) : unit -> M state (unit + unit) := fun _ =>
  the_watchdog ← get_first header;
  if the_watchdog =? NULL then mret (inr tt) else
  c ← control the_watchdog;
  if expire c <=? now then
    _Watchdog_Next_first header the_watchdog;;
    _RBTree_Extract (HT := header_tree header) the_watchdog;;
    _Watchdog_Set_state the_watchdog WATCHDOG_INACTIVE;;
    c ← control the_watchdog;
    call_routine (routine c) the_watchdog;;
    mret (inl tt)
  else mret (inr tt).

Definition _Watchdog_Do_tickle (header : Per_CPU_Watchdog_index) (now : Z) : M state unit :=
  whileM (tickle_loop header now) tt.

Definition _Watchdog_Per_CPU_tickle_realtime (now : Z) : M state unit :=
  _Watchdog_Do_tickle PER_CPU_WATCHDOG_REALTIME now.

(** [now] is the result of [_Timecounter_Getnanotime]; the only processor is
    the boot processor. *)
Definition _Watchdog_Tick (now : timespec) : M state unit :=
  modify (fun s => with_ticks_since_boot (_Watchdog_Ticks_since_boot s +. 1) s);;
  t ← gets ticks;
  let t := t +! 1 in
  modify (with_ticks t);;
  _Watchdog_Do_tickle PER_CPU_WATCHDOG_MONOTONIC t;;
  _Watchdog_Per_CPU_tickle_realtime (_Watchdog_Realtime_from_timespec now);;
  modify (fun s => with_env (scheduler_tick (env s)) s).

End watchdog.

End Watchdog.
