(* ===== verification/WatchdogCorrect.v ===== *)
(** What the watchdogs promise: the trees behave as lists sorted by
    expiration time, first come first served among equals, and a watchdog
    fires at the tick at which it expires, once, and not before. *)

From S2P Require Import Prelude RBTree Timespec Watchdog.
Import RBTree Timespec Watchdog.
Open Scope width_scope.

Module WatchdogCorrect.

(** * Sorted lists of watchdogs *)

(** A scheduled watchdog and its expiration time. *)
Abbreviation entries := (list (Z * Z)).

Definition first_of (l : entries) : Z := default NULL (head l.*1).

Fixpoint schedule (w x : Z) (l : entries) : entries :=
  match l with
  | [] => [(w, x)]
  | (v, y) :: l' => if x <? y then (w, x) :: l else (v, y) :: schedule w x l'
  end.

Definition unschedule (w : Z) (l : entries) : entries := filter (fun p => p.1 <> w) l.

Definition by_time (l : entries) : Prop := StronglySorted (fun p q => p.2 <= q.2) l.

Lemma elem_of_schedule w x l p : p ∈ schedule w x l <-> p = (w, x) \/ p ∈ l.
Proof.
  induction l as [|[v y] l IH]; cbn; [set_solver|]. destruct (x <? y); [set_solver|].
  rewrite !elem_of_cons, IH. tauto.
Qed.

Lemma schedule_sorted w x l : by_time l -> by_time (schedule w x l).
Proof.
  intros Hs. induction Hs as [|[v y] l Hs IH Hf]; cbn; [by repeat constructor|].
  destruct (Z.ltb_spec x y).
  - constructor; [by constructor|]. constructor; [cbn; lia|]. eapply Forall_impl; [exact Hf|]. cbn. intros; lia.
  - constructor; [done|]. apply Forall_forall. intros p [->|Hp]%elem_of_schedule; [cbn; lia|].
    rewrite Forall_forall in Hf. by apply Hf.
Qed.

Lemma unschedule_sorted w l : by_time l -> by_time (unschedule w l).
Proof.
  unfold unschedule. intros Hs. induction Hs as [|p l Hs IH Hf]; [constructor|]. rewrite filter_cons. case_decide; [|done].
  constructor; [done|]. apply Forall_forall. intros q [_ Hq]%list_elem_of_filter. rewrite Forall_forall in Hf. by apply Hf.
Qed.

Lemma unschedule_fst w l : (unschedule w l).*1 = filter (fun k => k <> w) l.*1.
Proof.
  unfold unschedule. induction l as [|[v y] l IH]; [done|]. cbn [fmap list_fmap fst]. rewrite !filter_cons. cbn [fst].
  repeat case_decide; try done. cbn. by rewrite IH.
Qed.

Lemma unschedule_absent w l : w ∉ l.*1 -> unschedule w l = l.
Proof. intros Hw. apply filter_all. intros [v y] Hv E. apply Hw, list_elem_of_fmap. exists (v, y). by rewrite <- E. Qed.

Lemma unschedule_head w x l : NoDup ((w, x) :: l).*1 -> unschedule w ((w, x) :: l) = l.
Proof.
  rewrite fmap_cons. intros [Hn _]%NoDup_cons. unfold unschedule. rewrite filter_cons_False by (cbn; tauto). by apply unschedule_absent.
Qed.

Lemma schedule_fst (lt : Z -> bool) w x l : (forall v y, (v, y) ∈ l -> lt v = (x <? y)) ->
  (schedule w x l).*1 = insert_by lt w l.*1.
Proof.
  induction l as [|[v y] l IH]; intros Hl; [done|]. cbn. rewrite (Hl v y) by set_solver.
  destruct (x <? y); [done|]. cbn. rewrite IH; [done|]. intros v' y' Hv. apply Hl. set_solver.
Qed.

Lemma sorted_lt (lt : Z -> bool) x l : by_time l -> (forall v y, (v, y) ∈ l -> lt v = (x <? y)) -> partitioned lt l.*1.
Proof.
  intros Hs. induction Hs as [|[v y] l Hs IH Hf]; intros Hl; cbn; constructor.
  - apply IH. intros v' y' Hv. apply Hl. set_solver.
  - apply Forall_forall. intros v' ([v2 y'] & -> & Hin)%list_elem_of_fmap. cbn.
    rewrite (Hl v y), (Hl v2 y') by set_solver. rewrite Forall_forall in Hf. specialize (Hf _ Hin). cbn in Hf.
    rewrite !Z.ltb_lt. lia.
Qed.

(** * The first node of a tree and its successor *)

Lemma plug_snoc c f t : plug (c ++ [f]) t = plug [f] (plug c t).
Proof. revert t. induction c as [|[n r|l n] c IH]; intros t; cbn; [done|apply IH..]. Qed.

Lemma before_snoc c n r : before (c ++ [InLeft n r]) = before c.
Proof. induction c as [|[m r'|l m] c IH]; cbn; [done|done|by rewrite IH]. Qed.

Lemma after_snoc c n r : after (c ++ [InLeft n r]) = after c ++ n :: inorder r.
Proof.
  induction c as [|[m r'|l m] c IH]; cbn; [by rewrite app_nil_r| |done]. rewrite IH. by rewrite <- app_assoc.
Qed.

(** The first node has no left child; its successor is in its right subtree
    or its parent. *)
Lemma first_position t w l : inorder t = w :: l -> exists c r, t = plug c (Node Leaf w r) /\
  before c = [] /\ l = inorder r ++ after c /\ parent_of c = default NULL (head (after c)).
Proof.
  revert l. induction t as [|tl IH n tr _]; intros l; [done|]. cbn. destruct (inorder tl) as [|v l'] eqn:E.
  - intros [= -> <-]. destruct tl as [|tl m tr']; [|cbn in E; by destruct (inorder tl)].
    exists [], tr. cbn. by rewrite app_nil_r.
  - intros [= -> <-]. destruct (IH l' eq_refl) as (c & r & -> & Hb & -> & Hp).
    exists (c ++ [InLeft n tr]), r. rewrite plug_snoc, before_snoc, after_snoc. cbn. split_and!; [done|done|by rewrite <- app_assoc|].
    destruct c as [|[m r'|l m] c]; cbn in *; [done|done|]. by destruct (before c), (inorder l).
Qed.

(** * The abstract machine *)

Record astate (E : Type) := {
  amonotonic : entries;
  arealtime : entries;
  aticks : Z;
  ahistory : list Z;
  aenv : E;
}.
Arguments amonotonic {E}. Arguments arealtime {E}. Arguments aticks {E}. Arguments ahistory {E}. Arguments aenv {E}.
Arguments Build_astate {E}.

Section refinement.
Context {E : Type} {RB : RB_Macros}.
(** The header and the service routine of each watchdog. *)
Context (home : Z -> Per_CPU_Watchdog_index) (rt : Z -> Z).
Abbreviation state := (state E).
Abbreviation astate := (astate E).

Definition alist (h : Per_CPU_Watchdog_index) (a : astate) : entries :=
  match h with
  | PER_CPU_WATCHDOG_MONOTONIC => amonotonic a
  | PER_CPU_WATCHDOG_REALTIME => arealtime a
  end.

Definition with_alist (h : Per_CPU_Watchdog_index) (l : entries) (a : astate) : astate :=
  Build_astate
    (match h with PER_CPU_WATCHDOG_MONOTONIC => l | _ => amonotonic a end)
    (match h with PER_CPU_WATCHDOG_REALTIME => l | _ => arealtime a end)
    (aticks a) (ahistory a) (aenv a).

Lemma alist_with h h' l a : alist h' (with_alist h l a) = if decide (h' = h) then l else alist h' a.
Proof. by destruct h, h', a. Qed.

Definition tree_of (h : Per_CPU_Watchdog_index) (s : state) : rbtree :=
  @get_tree state (header_tree h) s.

(** The state up to the pointers to the first watchdogs. *)
Record inv0 (s : state) (a : astate) : Prop := {
  i_known w c : controls s !! w = Some c -> 0 < w < 2 ^ 64 /\ is_Some (nodes s !! w) /\ routine c = rt w;
  i_tree h : exists t, balanced (tree_of h s) /\ tree_rep (tree_of h s) t /\ inorder t = (alist h a).*1;
  i_entry h w x : (w, x) ∈ alist h a -> home w = h /\ exists c, controls s !! w = Some c /\ expire c = x;
  i_sorted h : by_time (alist h a);
  i_inactive w : is_Some (controls s !! w) -> w ∉ (alist (home w) a).*1 ->
    exists nd, nodes s !! w = Some nd /\ rbe_color nd = WATCHDOG_INACTIVE;
  i_rest : ticks s = aticks a /\ history s = ahistory a /\ env s = aenv a;
}.

Definition inv (s : state) (a : astate) : Prop :=
  inv0 s a /\ forall h, first (header_of h s) = first_of (alist h a).

Lemma header_of_with h h' v (s : state) : header_of h' (with_header h v s) = if decide (h' = h) then v else header_of h' s.
Proof. by destruct h, h', s. Qed.

Lemma fst_entry l w : w ∈ l.*1 -> exists x, (w, x) ∈ (l : entries).
Proof. intros ([v x] & -> & Hv)%list_elem_of_fmap. by exists x. Qed.

Lemma i_home s a h w : inv0 s a -> w ∈ (alist h a).*1 -> home w = h /\ is_Some (controls s !! w).
Proof. intros Hi [x Hx]%fst_entry. apply (i_entry _ _ Hi) in Hx as (? & c & ? & _). split; [done|by eexists]. Qed.

Lemma i_NoDup s a h : inv0 s a -> NoDup (alist h a).*1.
Proof. intros Hi. destruct (i_tree _ _ Hi h) as (t & _ & [_ ?] & <-). done. Qed.

Lemma i_length s a h t : inv0 s a -> tree_rep (tree_of h s) t -> inorder t = (alist h a).*1 ->
  Z.of_nat (length (inorder t)) < 2 ^ 64.
Proof.
  intros Hi Ht E0. apply addresses_bound; [apply Ht|]. apply Forall_forall. intros w Hw. rewrite E0 in Hw.
  apply (i_home _ _ _ _ Hi) in Hw as [_ [c Hc]]. by apply (i_known _ _ Hi w c).
Qed.

(** The first pointers do not matter to [inv0]. *)
Lemma inv0_set_first s a h v : inv0 s a ->
  inv0 (with_header h {| Watchdogs := Watchdogs (header_of h s); first := v |} s) a.
Proof.
  intros [? Ht ? ? ? ?]. split; try done. intros h'. specialize (Ht h') as (t & Hb & Hr & Hi). exists t.
  unfold tree_of in *. cbn [get_tree header_tree] in *. rewrite header_of_with. case_decide; [subst|]; done.
Qed.

(** The tree of the other header survives changes of the nodes of one. *)
Lemma other_tree s s' a h t : inv0 s a -> Watchdogs (header_of h s') = Watchdogs (header_of h s) ->
  (forall k, k ∈ (alist h a).*1 -> nodes s' !! k = nodes s !! k) ->
  balanced (tree_of h s) -> tree_rep (tree_of h s) t -> inorder t = (alist h a).*1 ->
  balanced (tree_of h s') /\ tree_rep (tree_of h s') t.
Proof.
  intros Hi Hr Hn Hb Ht E0. split.
  - eapply balanced_frame; [exact Hb|exact Ht|done|]. intros k Hk. cbn. rewrite E0 in Hk. auto.
  - destruct Ht as [Ht Hnd]. split; [|done]. unfold tree_of in *. cbn [get_tree header_tree rb_nodes rbh_root] in *. rewrite Hr. eapply tree_at_frame; [|exact Ht].
    intros k Hk. rewrite E0 in Hk. auto.
Qed.

(** ** The next first watchdog *)

Lemma leftmost_spec h p par r (Q : Z -> state -> Prop) s : tree_at (nodes s) p par r -> r <> Leaf ->
  Z.of_nat (length (inorder r)) < 2 ^ 64 -> Q (default NULL (head (inorder r))) s ->
  wp (whileM (leftmost_loop h) p) Q s.
Proof.
  intros Hp Hr Hl HQ.
  apply (wp_whileM _ (fun k p' s' => s' = s /\ exists par r', tree_at (nodes s) p' par r' /\ r' <> Leaf /\
    head (inorder r') = head (inorder r) /\ k = Z.of_nat (length (inorder r')))) with (k := Z.of_nat (length (inorder r)));
    [|by split; [|exists par, r]|done].
  intros k p' s' (-> & par' & r' & Hp' & Hr' & Hh & ->). destruct r' as [|l n r']; [done|].
  destruct Hp' as (-> & Hn & nd & Hnd & _ & _ & Hpl & _). unfold leftmost_loop. apply wp_bind.
  eapply (wp_left (HT := header_tree h)); [exact Hnd|]. destruct l as [|l m r2].
  - cbn in Hpl. rewrite Hpl. cbn [Z.eqb NULL negb]. apply wp_ret. cbn in Hh. rewrite <- Hh in HQ. exact HQ.
  - pose proof Hpl as (Em & Hm & _). destruct (Z.eqb_spec (rbe_left nd) NULL); [congruence|]. cbn [negb]. apply wp_ret.
    exists (Z.of_nat (length (inorder (Node l m r2)))). split; [cbn; rewrite !length_app; cbn; lia|]. split; [done|].
    exists n, (Node l m r2). split_and!; [done|done| |done]. rewrite <- Hh. cbn. by destruct (inorder l).
Qed.

Lemma next_first_spec h w x l (Q : unit -> state -> Prop) s a : inv0 s a -> alist h a = (w, x) :: l ->
  Q tt (with_header h {| Watchdogs := Watchdogs (header_of h s); first := first_of l |} s) ->
  wp (_Watchdog_Next_first h w) Q s.
Proof.
  intros Hi El HQ. destruct (i_tree _ _ Hi h) as (t & Hb & Ht & E0). pose proof (i_length _ _ _ _ Hi Ht E0) as Hlen.
  rewrite El in E0. cbn in E0. destruct (first_position t w l.*1 E0) as (c & r & -> & _ & Hl & Hp).
  destruct Ht as [Ht _]. apply tree_at_plug in Ht as (p & Hc & -> & Hw & nd & Hnd & Hpar & _ & _ & Hr). cbn in Hnd, Hr.
  assert (Hf : first_of l = default NULL (head (inorder r ++ after c))) by (unfold first_of; by rewrite Hl).
  apply wp_bind. eapply (wp_right (HT := header_tree h)); [exact Hnd|]. destruct r as [|rl m rr].
  - cbn in Hr. rewrite Hr. cbn [Z.eqb NULL negb]. apply wp_bind. eapply (wp_parent (HT := header_tree h)); [exact Hnd|].
    rewrite Hpar, Hp. cbn in Hf. rewrite <- Hf. exact HQ.
  - pose proof Hr as (Em & Hm & _). destruct (Z.eqb_spec (rbe_right nd) NULL); [congruence|]. cbn [negb]. apply wp_bind.
    eapply leftmost_spec; [exact Hr|done| |].
    + rewrite inorder_plug in Hlen. cbn in Hlen |- *. rewrite !length_app in *. cbn in *. rewrite !length_app in *. cbn in *. lia.
    + apply wp_modify. replace (default NULL (head (inorder (Node rl m rr)))) with (first_of l); [exact HQ|].
      rewrite Hf. cbn. by destruct (inorder rl).
Qed.

(** ** Taking a watchdog out *)

Lemma set_state_spec w st (Q : unit -> state -> Prop) s : is_Some (nodes s !! w) ->
  Q tt (with_nodes (alter (set_color st) w (nodes s)) s) -> wp (_Watchdog_Set_state w st) Q s.
Proof.
  intros [nd Hnd] HQ. apply wp_bind. eapply (wp_node (HT := header_tree PER_CPU_WATCHDOG_MONOTONIC)); [exact Hnd|].
  apply wp_modify. revert HQ. by destruct s as [ns cs [] [] tk tb hi en].
Qed.

(** The list of one header changes to [l]. *)
Lemma inv0_change h l s s' a : inv0 s a ->
  (forall k, is_Some (nodes s !! k) -> is_Some (nodes s' !! k)) ->
  (forall k, k ∉ (alist h a).*1 -> k ∉ l.*1 -> nodes s' !! k = nodes s !! k) ->
  (forall v d, controls s' !! v = Some d -> exists d', controls s !! v = Some d' /\ routine d = routine d') ->
  (forall v d, home v <> h -> controls s !! v = Some d -> controls s' !! v = Some d) ->
  (exists t, balanced (tree_of h s') /\ tree_rep (tree_of h s') t /\ inorder t = l.*1) ->
  (forall h', h' <> h -> Watchdogs (header_of h' s') = Watchdogs (header_of h' s)) ->
  (forall v x, (v, x) ∈ l -> home v = h /\ exists c, controls s' !! v = Some c /\ expire c = x) ->
  by_time l ->
  (forall v, v ∈ (alist h a).*1 -> v ∉ l.*1 -> exists nd, nodes s' !! v = Some nd /\ rbe_color nd = WATCHDOG_INACTIVE) ->
  ticks s' = aticks a /\ history s' = ahistory a /\ env s' = aenv a ->
  inv0 s' (with_alist h l a).
Proof.
  intros Hi Hdom Hn Hr Hc Ht Hroot Hl Hs Hin Hrest.
  assert (Hout : forall k, home k <> h -> nodes s' !! k = nodes s !! k).
  { intros k Hk. apply Hn; [intros Hk'; by apply (i_home _ _ _ _ Hi) in Hk' as [? _]|].
    intros [x Hx]%fst_entry. by apply Hl in Hx as [? _]. }
  split.
  - intros v d Hd. destruct (Hr v d Hd) as (d' & Hd' & ->). destruct (i_known _ _ Hi v d' Hd') as (? & ? & ?).
    split_and!; [lia|lia|by apply Hdom|done].
  - intros h'. rewrite alist_with. case_decide as Eh; [by subst h'|].
    destruct (i_tree _ _ Hi h') as (t2 & Hb2 & Ht2 & E2). exists t2.
    destruct (other_tree s s' a h' t2 Hi) as [? ?]; [by apply Hroot| |done|done|done|done].
    intros k Hk. apply Hout. apply (i_home _ _ _ _ Hi) in Hk as [-> _]. done.
  - intros h' v x. rewrite alist_with. case_decide as Eh; [subst h'; apply Hl|].
    intros Hv. apply (i_entry _ _ Hi) in Hv as (Hh & d & Hd & Hx). split; [done|]. exists d. split; [|done].
    apply Hc; [congruence|done].
  - intros h'. rewrite alist_with. case_decide; [done|apply (i_sorted _ _ Hi)].
  - intros v [d Hd]. destruct (Hr v d Hd) as (d' & Hd' & _). rewrite alist_with. intros Hv.
    assert (Hold : v ∉ (alist (home v) a).*1 -> (home v = h -> v ∉ l.*1) ->
      exists nd, nodes s' !! v = Some nd /\ rbe_color nd = WATCHDOG_INACTIVE).
    { intros Ho Hol. destruct (i_inactive _ _ Hi v) as (nd & Hnd & ?); [by eexists|done|]. exists nd. split; [|done].
      destruct (decide (home v = h)) as [E0|]; [|by rewrite Hout]. rewrite E0 in Ho. rewrite Hn; [done|done|auto]. }
    case_decide as Eh; [|by apply Hold]. destruct (decide (v ∈ (alist h a).*1)); [by apply Hin|].
    apply Hold; [by rewrite Eh|done].
  - done.
Qed.

Lemma unlink_spec h w (Q : unit -> state -> Prop) s a : inv0 s a -> w ∈ (alist h a).*1 ->
  (forall s', inv0 s' (with_alist h (unschedule w (alist h a)) a) ->
    (forall h', first (header_of h' s') = first (header_of h' s)) -> controls s' = controls s -> Q tt s') ->
  wp (_RBTree_Extract (HT := header_tree h) w;; _Watchdog_Set_state w WATCHDOG_INACTIVE) Q s.
Proof.
  intros Hi Hw HQ. destruct (i_tree _ _ Hi h) as (t & Hb & Ht & E0). destruct (i_home _ _ _ _ Hi Hw) as [Hh [c Hc]].
  apply wp_bind. eapply (rbtree_extract_spec (HT := header_tree h) w t); [exact Hb|exact Ht|by rewrite E0|].
  intros t' tr' Hb' Ht' E' [Ho1 Ho2]. cbn in Ho1, Ho2.
  assert (Hwm : is_Some (nodes (@set_tree state (header_tree h) t' s) !! w)).
  { cbn. apply Ho2. by apply (i_known _ _ Hi w c). }
  apply set_state_spec; [done|]. set (s1 := set_tree _ s) in *. set (s2 := with_nodes _ s1).
  assert (Hnw : forall k, k <> w -> nodes s2 !! k = rb_nodes t' !! k) by (intros k Hk; cbn; by rewrite lookup_alter_ne).
  assert (Hsub : forall k, k ∉ (unschedule w (alist h a)).*1 -> k ∈ (alist h a).*1 -> k = w).
  { intros k Hk Hin. rewrite unschedule_fst, list_elem_of_filter in Hk. destruct (decide (k = w)); [done|tauto]. }
  apply HQ; [apply (inv0_change h _ s); try done| |done].
  - intros k Hk. unfold s2. cbn [nodes with_nodes]. rewrite lookup_alter_is_Some. by apply Ho2.
  - intros k Hk _. rewrite Hnw by (by intros ->). apply Ho1. by rewrite E0.
  - intros v d Hd. by exists d.
  - exists tr'. rewrite unschedule_fst, <- E0, <- E'.
    assert (Hk : forall k, k ∈ inorder tr' -> nodes s2 !! k = rb_nodes t' !! k).
    { intros k Hk. apply Hnw. rewrite E' in Hk. by apply list_elem_of_filter in Hk as [? _]. }
    assert (Hroot : Watchdogs (header_of h s2) = rbh_root t') by (by destruct h).
    split_and!; [by eapply (balanced_frame t' _ tr')| |done]. split; [|apply Ht'].
    unfold tree_of. cbn [get_tree header_tree rb_nodes rbh_root]. rewrite Hroot. by eapply tree_at_frame; [|apply Ht'].
  - intros h' Hne. by destruct h, h'.
  - intros v x [_ Hv]%list_elem_of_filter. by apply (i_entry _ _ Hi).
  - apply unschedule_sorted, (i_sorted _ _ Hi).
  - intros v Hv Hv'. rewrite (Hsub v) by done. destruct Hwm as [nd Hnd]. exists (set_color WATCHDOG_INACTIVE nd).
    split; [|done]. unfold s2. cbn [nodes with_nodes]. by rewrite lookup_alter_eq, Hnd.
  - apply (i_rest _ _ Hi).
  - intros h'. by destruct h, h'.
Qed.

Lemma scheduled_spec w (Q : bool -> state -> Prop) s a : inv0 s a -> is_Some (controls s !! w) ->
  Q (bool_decide (w ∈ (alist (home w) a).*1)) s -> wp (_Watchdog_Is_scheduled w) Q s.
Proof.
  intros Hi Hw HQ. apply wp_bind. case_bool_decide as Hin.
  - destruct (i_tree _ _ Hi (home w)) as (t & _ & [Ht _] & E0). rewrite <- E0 in Hin.
    destruct (tree_at_color _ _ _ _ _ Ht Hin) as (nd & Hnd & Hc).
    eapply (wp_color (HT := header_tree PER_CPU_WATCHDOG_MONOTONIC)); [exact Hnd|]. apply wp_ret.
    by destruct Hc as [-> | ->].
  - destruct (i_inactive _ _ Hi w Hw Hin) as (nd & Hnd & Hc).
    eapply (wp_color (HT := header_tree PER_CPU_WATCHDOG_MONOTONIC)); [exact Hnd|]. apply wp_ret. by rewrite Hc.
Qed.

Lemma first_of_unschedule w l : first_of l <> w -> first_of (unschedule w l) = first_of l.
Proof.
  destruct l as [|[v y] l]; [done|]. unfold first_of, unschedule. cbn [fmap list_fmap head fst default]. intros Hv.
  by rewrite filter_cons_True.
Qed.

Lemma first_of_head l w : first_of l = w -> w <> NULL -> exists x l', l = (w, x) :: l'.
Proof. destruct l as [|[v y] l]; cbn; [by intros <-|]. intros -> _. by exists y, l. Qed.

(** Removing a watchdog from its header. *)
Lemma remove_spec w (Q : unit -> state -> Prop) s a : let h := home w in
  inv s a -> is_Some (controls s !! w) ->
  (forall s', inv s' (with_alist h (unschedule w (alist h a)) a) -> controls s' = controls s -> Q tt s') ->
  wp (_Watchdog_Remove h w) Q s.
Proof.
  intros h [Hi Hf] Hw HQ. apply wp_bind. eapply scheduled_spec; [exact Hi|done|]. fold h.
  apply wp_whenM; intros Hs; [apply bool_decide_eq_true in Hs|apply bool_decide_eq_false in Hs].
  - apply wp_bind, wp_gets. pose proof Hw as [c Hc]. destruct (i_known _ _ Hi w c Hc) as (Hpos & _).
    apply wp_bind, wp_whenM; intros E0; [apply Z.eqb_eq in E0|apply Z.eqb_neq in E0]; rewrite Hf in E0.
    + destruct (first_of_head _ _ E0) as (x & l & El); [unfold NULL; lia|].
      eapply next_first_spec; [exact Hi|exact El|]. eapply unlink_spec; [by apply inv0_set_first|done|].
      intros s' Hi' Hf' Hc'. apply HQ; [|done]. split; [done|]. intros h'. rewrite Hf', header_of_with, alist_with.
      case_decide as Eh; [subst h'|apply Hf]. cbn. pose proof (i_NoDup _ _ h Hi) as Hnd. rewrite El in *. by rewrite unschedule_head.
    + eapply unlink_spec; [exact Hi|done|]. intros s' Hi' Hf' Hc'. apply HQ; [|done]. split; [done|].
      intros h'. rewrite Hf', alist_with. case_decide as Eh; [subst h'|apply Hf]. rewrite Hf. symmetry. by apply first_of_unschedule.
  - apply HQ; [|done]. rewrite unschedule_absent by done. destruct a, h; cbn in *; by split.
Qed.

(** ** Scheduling a watchdog *)

Lemma first_of_schedule (lt : Z -> bool) w x l c : (forall v y, (v, y) ∈ l -> lt v = (x <? y)) ->
  followed lt c -> by_time l -> inorder (plug c Leaf) = l.*1 ->
  first_of (schedule w x l) = if bool_decide (before c = []) then w else first_of l.
Proof.
  intros Hlt Hc Hs E0. unfold first_of. rewrite (schedule_fst lt w x l Hlt).
  pose proof (sorted_lt lt x l Hs Hlt) as Hp. rewrite <- E0 in *. rewrite <- followed_insert by done.
  rewrite !inorder_plug. cbn. by destruct (before c).
Qed.

Lemma watchdog_insert_spec w x (Q : unit -> state -> Prop) s a : let h := home w in
  inv s a -> is_Some (controls s !! w) -> w ∉ (alist h a).*1 ->
  (forall s', inv s' (with_alist h (schedule w x (alist h a)) a) ->
    (forall v, is_Some (controls s' !! v) <-> is_Some (controls s !! v)) -> Q tt s') ->
  wp (_Watchdog_Insert h w x) Q s.
Proof.
  intros h [Hi Hf] [c Hc] Hw HQ. destruct (i_known _ _ Hi w c Hc) as (Hpos & Hwn & Hrt).
  apply wp_bind, wp_gets, wp_bind, wp_bind. unfold wp at 1, control. rewrite Hc. apply wp_modify.
  set (cs := <[w := _]> (controls s)). set (s1 := with_controls cs s).
  assert (Hc1 : forall v y, v <> w -> controls s !! v = Some y -> cs !! v = Some y)
    by (intros v y Hv Hy; unfold cs; by rewrite lookup_insert_ne).
  assert (Hdom : forall v, is_Some (cs !! v) <-> is_Some (controls s !! v)).
  { intros v. unfold cs. rewrite lookup_insert_is_Some'. split; [intros [<-|?]; [by exists c|done]|by right]. }
  destruct (i_tree _ _ Hi h) as (t & Hb & Ht & E0).
  set (lt := fun n => match cs !! n with Some y => x <? expire y | None => false end).
  assert (Hlt : forall v y, (v, y) ∈ alist h a -> lt v = (x <? y) /\ exists d, cs !! v = Some d /\ expire d = y).
  { intros v y Hv. apply (i_entry _ _ Hi) in Hv as Hv'. destruct Hv' as (_ & d & Hd & <-).
    assert (v <> w) by (intros ->; apply Hw, list_elem_of_fmap; by exists (w, expire d)).
    unfold lt. rewrite (Hc1 v d) by done. split; [done|by exists d]. }
  pose proof (fun v y Hv => proj1 (Hlt v y Hv)) as Hlt1.
  apply wp_bind. apply (descend_spec (HT := header_tree h) _ _ lt w t).
  { exact Ht. }
  { by eapply i_length. }
  { intros n Hn. rewrite E0 in Hn. apply fst_entry in Hn as [y Hy]. destruct (Hlt n y Hy) as (E1 & d & Hd & <-).
    unfold mbind, M_bind, control, mret, M_ret. cbn [controls s1 with_controls]. by rewrite Hd, E1. }
  intros pc -> Hfol. rewrite recall_first. apply wp_bind, wp_modify, wp_bind, wp_ret.
  set (nf := if bool_decide (before pc = []) then w else first (header_of h s)).
  set (s2 := with_header h _ s1).
  assert (Htree : tree_of h s2 = tree_of h s) by (by destruct h).
  eapply (insert_with_parent_spec (HT := header_tree h) pc w _ s2).
  { change (balanced (tree_of h s2)). by rewrite Htree. }
  { change (tree_rep (tree_of h s2) (plug pc Leaf)). by rewrite Htree. }
  { unfold NULL. lia. }
  { by rewrite E0. }
  { destruct h; exact Hwn. }
  intros t' tr Hb' Ht' E' Hout. change (same_outside (inorder tr) (tree_of h s2) t') in Hout. rewrite Htree in Hout.
  destruct Hout as [Ho1 Ho2]. cbn in Ho1, Ho2.
  pose proof (sorted_lt lt x _ (i_sorted _ _ Hi h) Hlt1) as Hpart. rewrite <- E0 in Hpart.
  rewrite (followed_insert lt pc w Hfol Hpart), E0, <- (schedule_fst lt w x _ Hlt1) in E'.
  set (s3 := set_tree t' s2). assert (Hn3 : nodes s3 = rb_nodes t') by (by destruct h).
  assert (Hc3 : controls s3 = cs) by (by destruct h). apply HQ; [|by rewrite Hc3]. split.
  - apply (inv0_change h _ s); try done; rewrite ?Hn3, ?Hc3.
    + intros k _ Hk. apply Ho1. by rewrite E'.
    + intros v d Hd. destruct (decide (v = w)) as [->|Hne]; unfold cs in Hd.
      * rewrite lookup_insert_eq in Hd. exists c. by simplify_eq.
      * rewrite lookup_insert_ne in Hd by done. by exists d.
    + intros v d Hv Hd. apply Hc1; [by intros ->|done].
    + exists tr. assert (tree_of h s3 = t') as -> by (unfold s3, tree_of; apply get_set_tree). done.
    + intros h' Hne. by destruct h, h'.
    + intros v y [[= -> ->]|Hv]%elem_of_schedule.
      * split; [done|]. eexists. split; [apply lookup_insert_eq|done].
      * split; [by destruct (i_entry _ _ Hi _ _ _ Hv)|]. by apply Hlt.
    + apply schedule_sorted, (i_sorted _ _ Hi).
    + intros v Hv Hv'. exfalso. apply Hv'. apply fst_entry in Hv as [y Hy]. apply list_elem_of_fmap. exists (v, y).
      split; [done|]. apply elem_of_schedule. by right.
    + unfold s3, s2, s1. destruct h; apply (i_rest _ _ Hi).
  - intros h'. rewrite alist_with. case_decide as Eh.
    + subst h'. rewrite (first_of_schedule lt w x _ pc) by (done || apply (i_sorted _ _ Hi)). rewrite <- Hf. by destruct h.
    + rewrite <- Hf. by destruct h, h'.
Qed.

(** * Clients *)

(** What a client does with a watchdog: schedule it for a number of ticks
    from now on, or for a time of day, or cancel it; a scheduled watchdog is
    removed first. *)
Inductive op :=
  | op_insert_ticks (w interval : Z)
  | op_insert_realtime (w expire : Z)
  | op_remove (w : Z).

Definition exec (o : op) : M state unit :=
  match o with
  | op_insert_ticks w interval =>
      _Watchdog_Per_CPU_remove_monotonic w;; _Watchdog_Per_CPU_insert_ticks w interval;; mret tt
  | op_insert_realtime w x =>
      _Watchdog_Per_CPU_remove_realtime w;; _Watchdog_Per_CPU_insert_realtime w x;; mret tt
  | op_remove w =>
      match home w with
      | PER_CPU_WATCHDOG_MONOTONIC => _Watchdog_Per_CPU_remove_monotonic w
      | PER_CPU_WATCHDOG_REALTIME => _Watchdog_Per_CPU_remove_realtime w
      end
  end.

Fixpoint exec_all (ops : list op) : M state unit :=
  match ops with
  | [] => mret tt
  | o :: ops => exec o;; exec_all ops
  end.

Definition watchdog_of (o : op) : Z :=
  match o with
  | op_insert_ticks w _ | op_insert_realtime w _ | op_remove w => w
  end.

(** The effect on the lists. *)
Definition aexec (o : op) (a : astate) : astate :=
  let w := watchdog_of o in
  let h := home w in
  let l := unschedule w (alist h a) in
  with_alist h
    (match o with
     | op_insert_ticks _ interval => schedule w (interval + aticks a) l
     | op_insert_realtime _ x => schedule w x l
     | op_remove _ => l
     end) a.

Definition aexec_all (ops : list op) (a : astate) : astate := foldl (fun a o => aexec o a) a ops.

(** A client uses known watchdogs [W] on their headers, with a positive
    interval or for a time of day, which may be in the past. *)
Definition op_ok (W : gset Z) (o : op) : Prop :=
  watchdog_of o ∈ W /\
  match o with
  | op_insert_ticks w interval => home w = PER_CPU_WATCHDOG_MONOTONIC /\ 0 < interval < 2 ^ 32
  | op_insert_realtime w x => home w = PER_CPU_WATCHDOG_REALTIME /\ 0 <= x < 2 ^ 64
  | op_remove w => True
  end.

(** The operation schedules no watchdog for the time of day [clock] or
    earlier. *)
Definition after (clock : Z) (o : op) : Prop :=
  match o with
  | op_insert_realtime _ x => clock < x
  | _ => True
  end.

Definition known (W : gset Z) (s : state) : Prop := forall w, w ∈ W -> is_Some (controls s !! w).

Lemma aticks_with h l a : aticks (with_alist h l a) = aticks a.
Proof. by destruct h. Qed.

Lemma with_alist_twice h l l' a : with_alist h l (with_alist h l' a) = with_alist h l a.
Proof. by destruct h. Qed.

Lemma reschedule_spec w x (Q : unit -> state -> Prop) s a : inv s a -> is_Some (controls s !! w) ->
  (forall s', inv s' (with_alist (home w) (schedule w x (unschedule w (alist (home w) a))) a) ->
    (forall v, is_Some (controls s' !! v) <-> is_Some (controls s !! v)) -> Q tt s') ->
  wp (_Watchdog_Remove (home w) w) (fun _ s' => wp (_Watchdog_Insert (home w) w x) Q s') s.
Proof.
  intros Hi Hw HQ. eapply remove_spec; [exact Hi|done|]. intros s1 Hi1 Hc1.
  eapply watchdog_insert_spec; [exact Hi1|by rewrite Hc1| |].
  - rewrite alist_with. case_decide; [|done]. rewrite unschedule_fst. rewrite list_elem_of_filter. tauto.
  - intros s2 Hi2 Hc2. rewrite alist_with, decide_True in Hi2 by done. rewrite with_alist_twice in Hi2.
    apply HQ; [done|]. by rewrite <- Hc1.
Qed.

Lemma exec_spec W o (Q : unit -> state -> Prop) s a : inv s a -> known W s -> op_ok W o ->
  0 <= aticks a -> aticks a + 2 ^ 32 < 2 ^ 64 ->
  (forall s', inv s' (aexec o a) -> known W s' -> Q tt s') -> wp (exec o) Q s.
Proof.
  intros Hi HW [Hw Ho] Ht Ht' HQ. pose proof (HW _ Hw) as Hws. pose proof (i_rest _ _ (proj1 Hi)) as (Etk & _).
  destruct o as [w k|w x|w]; cbn [exec watchdog_of] in *.
  - destruct Ho as [Hh Hk]. apply wp_bind. unfold _Watchdog_Per_CPU_remove_monotonic, _Watchdog_Per_CPU_remove,
      _Watchdog_Per_CPU_insert_ticks. rewrite <- Hh.
    eapply remove_spec; [exact Hi|done|]. intros s1 Hi1 Hc1. apply wp_bind, wp_bind, wp_gets. pose proof (i_rest _ _ (proj1 Hi1)) as (Etk1 & _).
    rewrite Etk1, aticks_with. rewrite (u64_small (k + aticks a)) by lia. apply wp_bind.
    eapply watchdog_insert_spec; [exact Hi1|by rewrite Hc1| |].
    + rewrite alist_with. case_decide; [|done]. rewrite unschedule_fst, list_elem_of_filter. tauto.
    + intros s2 Hi2 Hc2. do 2 apply wp_ret. rewrite alist_with, decide_True, with_alist_twice in Hi2 by done.
      apply HQ; [done|]. intros v Hv. apply Hc2. rewrite Hc1. by apply HW.
  - destruct Ho as [Hh Hk]. apply wp_bind. unfold _Watchdog_Per_CPU_remove_realtime, _Watchdog_Per_CPU_remove,
      _Watchdog_Per_CPU_insert_realtime. rewrite <- Hh.
    eapply wp_mono; [apply (reschedule_spec w x (fun _ s2 => inv s2 (aexec (op_insert_realtime w x) a) /\ known W s2) s a); [done|done|]|].
    + intros s2 Hi2 Hc2. split; [done|]. intros v Hv. by apply Hc2, HW.
    + intros [] s1 Hw1. apply wp_bind, wp_bind. eapply wp_mono; [exact Hw1|]. intros [] s2 [Hi2 HW2]. do 2 apply wp_ret. by apply HQ.
  - assert (Hr : wp (_Watchdog_Remove (home w) w) Q s).
    { eapply remove_spec; [exact Hi|done|]. intros s1 Hi1 Hc1. apply HQ; [done|]. intros v Hv. rewrite Hc1. by apply HW. }
    unfold _Watchdog_Per_CPU_remove_realtime, _Watchdog_Per_CPU_remove_monotonic, _Watchdog_Per_CPU_remove.
    destruct (home w); exact Hr.
Qed.

Lemma aticks_exec o a : aticks (aexec o a) = aticks a.
Proof. unfold aexec. apply aticks_with. Qed.

Lemma aticks_exec_all ops a : aticks (aexec_all ops a) = aticks a.
Proof.
  revert a. induction ops as [|o ops IH]; intros a; [done|].
  change (aexec_all (o :: ops) a) with (aexec_all ops (aexec o a)). by rewrite IH, aticks_exec.
Qed.

Lemma exec_all_spec W ops (Q : unit -> state -> Prop) s a : inv s a -> known W s -> Forall (op_ok W) ops ->
  0 <= aticks a -> aticks a + 2 ^ 32 < 2 ^ 64 ->
  (forall s', inv s' (aexec_all ops a) -> known W s' -> Q tt s') -> wp (exec_all ops) Q s.
Proof.
  intros Hi HW Hops Ht Ht'. revert s a Hi HW Ht Ht'. induction Hops as [|o ops Ho _ IH]; intros s a Hi HW Ht Ht' HQ.
  { apply wp_ret. by apply HQ. }
  apply wp_bind. eapply exec_spec; [exact Hi|done|done|done|done|]. intros s1 Hi1 HW1.
  eapply IH; [exact Hi1|done|rewrite aticks_exec; lia|rewrite aticks_exec; lia|]. done.
Qed.

(** * Ticks *)

(** The service routine [r] of the watchdog [w], called by a tick at the time
    of day [clock], may schedule and cancel watchdogs and act on the rest of
    the system. *)
Context (react : Z -> Z -> Z -> E -> list op * E) (scheduler_tick : E -> E).

Definition service (clock r w : Z) : M state unit :=
  e ← gets env;
  modify (with_env (react clock r w e).2);;
  exec_all (react clock r w e).1.

(** The first watchdog [w] of a list fires; [l] are the others. *)
Definition afire (clock : Z) (h : Per_CPU_Watchdog_index) (w : Z) (l : entries) (a : astate) : astate :=
  let r := react clock (rt w) w (aenv a) in
  let a1 := with_alist h l a in
  aexec_all r.1 (Build_astate (amonotonic a1) (arealtime a1) (aticks a) (ahistory a ++ [w]) r.2).

(** All watchdogs that expired until [now] fire, the earliest first. *)
Inductive tickled (clock : Z) (h : Per_CPU_Watchdog_index) (now : Z) : astate -> astate -> Prop :=
  | tickled_done a : (forall w x l, alist h a = (w, x) :: l -> now < x) -> tickled clock h now a a
  | tickled_fire a a' w x l : alist h a = (w, x) :: l -> x <= now ->
      tickled clock h now (afire clock h w l a) a' -> tickled clock h now a a'.

Definition with_aticks (t : Z) (a : astate) : astate :=
  Build_astate (amonotonic a) (arealtime a) t (ahistory a) (aenv a).
Definition with_aenv (e : E) (a : astate) : astate :=
  Build_astate (amonotonic a) (arealtime a) (aticks a) (ahistory a) e.

Definition aticked (now : timespec) (a a' : astate) : Prop := exists a1 a2,
  let clock := _Watchdog_Realtime_from_timespec now in
  tickled clock PER_CPU_WATCHDOG_MONOTONIC (aticks a + 1) (with_aticks (aticks a + 1) a) a1 /\
  tickled clock PER_CPU_WATCHDOG_REALTIME clock a1 a2 /\
  a' = with_aenv (scheduler_tick (aenv a2)) a2.

(** ** Termination *)

Definition due (h : Per_CPU_Watchdog_index) (now : Z) (a : astate) : Z :=
  Z.of_nat (length (filter (fun p => p.2 <= now) (alist h a))).

(** No operation of a routine schedules a watchdog for [now] or earlier. *)
Definition not_before (h : Per_CPU_Watchdog_index) (now clock : Z) (a : astate) : Prop :=
  match h with
  | PER_CPU_WATCHDOG_MONOTONIC => now <= aticks a
  | PER_CPU_WATCHDOG_REALTIME => now <= clock
  end.

Lemma due_schedule now w x l : now < x ->
  filter (fun p => p.2 <= now) (schedule w x l) = filter (fun p : Z * Z => p.2 <= now) l.
Proof.
  intros Hx. induction l as [|[v y] l IH]; cbn [schedule].
  - by rewrite filter_cons_False by (cbn; lia).
  - destruct (x <? y); [by rewrite filter_cons_False by (cbn; lia)|]. by rewrite !filter_cons, IH.
Qed.

Lemma due_unschedule (now w : Z) l : Z.of_nat (length (filter (fun p => p.2 <= now) (unschedule w l))) <=
  Z.of_nat (length (filter (fun p : Z * Z => p.2 <= now) l)).
Proof.
  unfold unschedule. induction l as [|p l IH]; [done|]. rewrite !filter_cons. repeat case_decide; rewrite ?filter_cons;
    repeat case_decide; cbn; lia || done.
Qed.

Lemma due_exec W clock h now o a : op_ok W o -> after clock o -> not_before h now clock a -> due h now (aexec o a) <= due h now a.
Proof.
  intros [_ Ho] Ha Hn. unfold due, aexec. rewrite alist_with. case_decide as Eh; [|lia]. subst h.
  destruct o as [w k|w x|w]; cbn [watchdog_of] in *; [destruct Ho as [Hh ?]|destruct Ho as [Hh ?]|];
    try (rewrite Hh in *; cbn in Hn, Ha; rewrite due_schedule by lia);
    match goal with |- context [unschedule ?w ?l] => pose proof (due_unschedule now w l) end; lia.
Qed.

Lemma due_exec_all W clock h now ops a : Forall (fun o => op_ok W o /\ after clock o) ops -> not_before h now clock a ->
  due h now (aexec_all ops a) <= due h now a.
Proof.
  intros Hops. revert a. induction Hops as [|o ops [Ho Ha] _ IH]; intros a Hn; [done|].
  change (aexec_all (o :: ops) a) with (aexec_all ops (aexec o a)). etrans; [apply IH|by eapply due_exec].
  unfold not_before in *. by rewrite aticks_exec.
Qed.

Context (W : gset Z).
Hypothesis react_ok : forall clock r w e, Forall (fun o => op_ok W o /\ after clock o) (react clock r w e).1.

Lemma due_fire clock h now w x l a : alist h a = (w, x) :: l -> x <= now -> not_before h now clock a ->
  due h now (afire clock h w l a) < due h now a.
Proof.
  intros El Hx Hn. unfold afire. cbv zeta. eapply Z.le_lt_trans; [eapply due_exec_all; [apply react_ok|by destruct h]|].
  unfold due. rewrite El, filter_cons_True by (cbn; lia). destruct h; cbn; lia.
Qed.

(** ** The loop *)

Lemma aticks_fire clock h w l a : aticks (afire clock h w l a) = aticks a.
Proof. unfold afire. cbv zeta. by rewrite aticks_exec_all. Qed.

Lemma fire_spec {A} (r : A) clock h w x l (Q : A -> state -> Prop) s a : inv s a -> known W s ->
  0 <= aticks a -> aticks a + 2 ^ 32 < 2 ^ 64 -> alist h a = (w, x) :: l ->
  (forall s', inv s' (afire clock h w l a) -> known W s' -> Q r s') ->
  wp (_Watchdog_Next_first h w;;
      _RBTree_Extract (HT := header_tree h) w;;
      _Watchdog_Set_state w WATCHDOG_INACTIVE;;
      c ← control w;
      call_routine (service clock) (routine c) w;;
      mret r) Q s.
Proof using react_ok.
  intros [Hi Hf] HW Ht Ht' El HQ. assert (Hw : w ∈ (alist h a).*1) by (rewrite El; left).
  apply wp_bind. eapply next_first_spec; [exact Hi|exact El|].
  apply wp_assoc, wp_bind. eapply unlink_spec; [by apply inv0_set_first|done|]. intros s1 Hi1 Hf1 Hc1.
  destruct (i_home _ _ _ _ Hi Hw) as [_ [c Hc]]. apply wp_bind. unfold wp at 1, control. rewrite Hc1. cbn [controls with_header].
  rewrite Hc. destruct (i_known _ _ Hi w c Hc) as (_ & _ & ->). apply wp_bind, wp_bind, wp_modify, wp_bind, wp_gets, wp_bind, wp_modify.
  pose proof (i_NoDup _ _ h Hi) as Hnd. rewrite El in *. rewrite unschedule_head in Hi1 by done.
  destruct (i_rest _ _ Hi) as (E1 & E2 & E3). destruct (i_rest _ _ Hi1) as (E1' & E2' & E3').
  eapply (exec_all_spec W _ _ _ (Build_astate (amonotonic (with_alist h l a)) (arealtime (with_alist h l a))
    (aticks a) (ahistory a ++ [w]) (react clock (rt w) w (aenv a)).2)).
  - split.
    + destruct Hi1 as [? Htr ? ? ? ?]. split; try done. split_and!; cbn; [by rewrite E1', aticks_with|rewrite E2'; by destruct h|].
      rewrite E3'. by destruct h.
    + intros h'. change (first (header_of h' s1) = first_of (alist h' (with_alist h l a))).
      rewrite Hf1, header_of_with, alist_with. case_decide; [done|apply Hf].
  - intros v Hv. change (is_Some (controls s1 !! v)). rewrite Hc1. by apply HW.
  - eapply Forall_impl; [apply react_ok|]. by intros o [? _].
  - done.
  - done.
  - cbn [env with_history]. rewrite E3'. intros s' Hi' HW'. apply wp_ret, HQ; [|done]. unfold afire. cbv zeta.
    replace (aenv (with_alist h l a)) with (aenv a) in Hi' by (by destruct h). done.
Qed.

Lemma tickle_spec clock h now (Q : unit -> state -> Prop) s a : inv s a -> known W s ->
  0 <= aticks a -> aticks a + 2 ^ 32 < 2 ^ 64 -> not_before h now clock a ->
  (forall s' a', tickled clock h now a a' -> inv s' a' -> known W s' -> aticks a' = aticks a -> Q tt s') ->
  wp (_Watchdog_Do_tickle (service clock) h now) Q s.
Proof using react_ok.
  intros Hi HW Ht Ht' Hn HQ.
  apply (wp_whileM _ (fun k (_ : unit) s1 => exists a1, inv s1 a1 /\ known W s1 /\ aticks a1 = aticks a /\
    k = due h now a1 /\ forall a', tickled clock h now a1 a' -> tickled clock h now a a')) with (k := due h now a).
  3: { destruct (i_tree _ _ (proj1 Hi) h) as (t & _ & Htr & E0). pose proof (i_length _ _ _ _ (proj1 Hi) Htr E0) as Hl.
       rewrite E0, length_fmap in Hl. unfold due. pose proof (length_filter (fun p => p.2 <= now) (alist h a)). lia. }
  2: { exists a. auto. }
  intros k [] s1 (a1 & Hi1 & HW1 & Ea & -> & Htk). unfold tickle_loop. apply wp_bind, wp_gets.
  rewrite (proj2 Hi1 h). destruct (alist h a1) as [|[w x] l] eqn:El.
  - change (first_of []) with NULL. rewrite Z.eqb_refl. apply wp_ret. apply (HQ s1 a1); [|done|done|done].
    apply Htk. constructor. by rewrite El.
  - destruct (i_entry _ _ (proj1 Hi1) h w x) as (_ & c & Hc & Hx); [rewrite El; left|].
    destruct (i_known _ _ (proj1 Hi1) w c Hc) as (Hw & _). change (first_of ((w, x) :: l)) with w.
    destruct (Z.eqb_spec w NULL); [unfold NULL in *; lia|]. apply wp_bind. unfold wp at 1, control. rewrite Hc, Hx.
    destruct (Z.leb_spec x now) as [Hle|Hlt].
    + eapply fire_spec; [exact Hi1|done|lia|lia|exact El|]. intros s2 Hi2 HW2.
      exists (due h now (afire clock h w l a1)). split.
      { split; [unfold due; lia|]. eapply due_fire; [exact El|done|]. destruct h; cbn in *; lia. }
      exists (afire clock h w l a1). split_and!; [done|done|by rewrite aticks_fire|done|].
      intros a' Ha'. apply Htk. by eapply tickled_fire.
    + apply wp_ret. apply (HQ s1 a1); [|done|done|done]. apply Htk. constructor. intros w' x' l'. rewrite El. by intros [= <- <- <-].
Qed.

Lemma inv_ticks s a t : inv s a -> inv (with_ticks t s) (with_aticks t a).
Proof. intros [[? ? ? ? ? (? & ? & ?)] Hf]. split; [by split|done]. Qed.

Lemma inv_ticks_since_boot s a v : inv s a -> inv (with_ticks_since_boot v s) a.
Proof. intros [[? ? ? ? ? (? & ? & ?)] Hf]. split; [by split|done]. Qed.

Lemma inv_env s a e : inv s a -> inv (with_env e s) (with_aenv e a).
Proof. intros [[? ? ? ? ? (? & ? & ?)] Hf]. split; [by split|done]. Qed.

Lemma tick_spec now (Q : unit -> state -> Prop) s a : inv s a -> known W s ->
  0 <= aticks a -> aticks a + 1 + 2 ^ 32 < 2 ^ 64 ->
  (forall s' a', aticked now a a' -> inv s' a' -> known W s' -> aticks a' = aticks a + 1 -> Q tt s') ->
  wp (_Watchdog_Tick (service (_Watchdog_Realtime_from_timespec now)) scheduler_tick now) Q s.
Proof using react_ok.
  intros Hi HW Ht Ht' HQ. destruct (i_rest _ _ (proj1 Hi)) as (E1 & _).
  apply wp_bind, wp_modify, wp_bind, wp_gets. cbv zeta. cbn [ticks with_ticks_since_boot]. rewrite E1, u64_small by lia.
  apply wp_bind, wp_modify, wp_bind. eapply tickle_spec;
    [by apply inv_ticks, inv_ticks_since_boot|exact HW|cbn; lia|cbn; lia|cbn; lia|].
  intros s1 a1 Ha1 Hi1 HW1 Et1. cbn in Et1. apply wp_bind. eapply tickle_spec; [exact Hi1|done|lia|lia|cbn; lia|].
  intros s2 a2 Ha2 Hi2 HW2 Et2. apply wp_modify. destruct (i_rest _ _ (proj1 Hi2)) as (_ & _ & ->).
  apply (HQ _ (with_aenv (scheduler_tick (aenv a2)) a2)); [|by apply inv_env|done|cbn; lia].
  by exists a1, a2.
Qed.

(** * Sequences of events *)

Inductive event :=
  | ev_op (o : op)
  | ev_tick (now : timespec).

Fixpoint run (evs : list event) : M state unit :=
  match evs with
  | [] => mret tt
  | ev_op o :: evs => exec o;; run evs
  | ev_tick now :: evs => _Watchdog_Tick (service (_Watchdog_Realtime_from_timespec now)) scheduler_tick now;; run evs
  end.

Inductive arun : list event -> astate -> astate -> Prop :=
  | arun_nil a : arun [] a a
  | arun_op o evs a a' : arun evs (aexec o a) a' -> arun (ev_op o :: evs) a a'
  | arun_tick now evs a a1 a' : aticked now a a1 -> arun evs a1 a' -> arun (ev_tick now :: evs) a a'.

Definition event_ok (ev : event) : Prop :=
  match ev with
  | ev_op o => op_ok W o
  | ev_tick now => True
  end.

Lemma run_spec evs (Q : unit -> state -> Prop) s a : inv s a -> known W s -> Forall event_ok evs ->
  0 <= aticks a -> aticks a + Z.of_nat (length evs) + 2 ^ 32 < 2 ^ 64 ->
  (forall s' a', arun evs a a' -> inv s' a' -> known W s' -> Q tt s') -> wp (run evs) Q s.
Proof using react_ok.
  intros Hi HW Hevs. revert s a Q Hi HW. induction Hevs as [|[o|now] evs Hev _ IH]; intros s a Q Hi HW Ht Ht' HQ; cbn [length] in *.
  - apply wp_ret. apply (HQ s a); [constructor|done|done].
  - apply wp_bind. eapply exec_spec; [exact Hi|done|exact Hev|lia|lia|]. intros s1 Hi1 HW1.
    eapply IH; [exact Hi1|done|rewrite aticks_exec; lia|rewrite aticks_exec; lia|].
    intros s' a' Ha'. apply HQ. by constructor.
  - apply wp_bind. eapply tick_spec; [exact Hi|done|lia|lia|]. intros s1 a1 Ha1 Hi1 HW1 Et.
    eapply IH; [exact Hi1|done|lia|lia|]. intros s' a' Ha'. apply HQ. by econstructor.
Qed.

(** ** Initialization *)

Fixpoint preinitialize (ws : list Z) : M state unit :=
  match ws with
  | [] => mret tt
  | w :: ws => _Watchdog_Preinitialize w;; preinitialize ws
  end.

Definition boot : M state unit :=
  _Watchdog_Header_initialize PER_CPU_WATCHDOG_MONOTONIC;;
  _Watchdog_Header_initialize PER_CPU_WATCHDOG_REALTIME;;
  preinitialize (elements W).

Lemma preinitialize_spec ws (Q : unit -> state -> Prop) s : Forall (fun w => is_Some (nodes s !! w)) ws ->
  (forall ns, (forall w, is_Some (nodes s !! w) -> is_Some (ns !! w)) ->
    (forall w, w ∈ ws -> exists nd, ns !! w = Some nd /\ rbe_color nd = WATCHDOG_INACTIVE) ->
    (forall w, w ∉ ws -> ns !! w = nodes s !! w) -> Q tt (with_nodes ns s)) ->
  wp (preinitialize ws) Q s.
Proof.
  revert s. induction ws as [|w ws IH]; intros s Hws HQ.
  { apply wp_ret. specialize (HQ (nodes s)). destruct s. apply HQ; [done|set_solver|done]. }
  apply Forall_cons in Hws as [[nd Hw] Hws]. apply wp_bind, set_state_spec; [by eexists|].
  assert (Hmono : forall v, is_Some (nodes s !! v) -> is_Some (alter (set_color WATCHDOG_INACTIVE) w (nodes s) !! v))
    by (intros v; by rewrite lookup_alter_is_Some).
  apply IH.
  { eapply Forall_impl; [exact Hws|]. intros v. apply Hmono. }
  intros ns Hns Hin Hout. cbn in Hns, Hout. apply (HQ ns).
  - intros v Hv. by apply Hns, Hmono.
  - intros v [->|Hv]%elem_of_cons; [|by apply Hin]. destruct (decide (w ∈ ws)) as [|Hn]; [by apply Hin|].
    rewrite Hout by done. rewrite lookup_alter_eq, Hw. by eexists.
  - intros v Hv. rewrite Hout by set_solver. apply lookup_alter_ne. set_solver.
Qed.

Definition ainit (s : state) : astate := Build_astate [] [] (ticks s) (history s) (env s).

Lemma boot_spec (Q : unit -> state -> Prop) s :
  (forall w c, controls s !! w = Some c -> w ∈ W /\ routine c = rt w) ->
  (forall w, w ∈ W -> 0 < w < 2 ^ 64 /\ is_Some (controls s !! w) /\ is_Some (nodes s !! w)) ->
  (forall s', inv s' (ainit s) -> known W s' -> Q tt s') -> wp boot Q s.
Proof.
  intros Hc HW HQ. do 2 apply wp_bind, wp_bind, wp_modify, wp_modify.
  set (s1 := with_header _ _ _). assert (Hn : nodes s1 = nodes s) by done.
  apply preinitialize_spec.
  { apply Forall_forall. intros w Hw%elem_of_elements. by apply HW. }
  intros ns Hmono Hin Hout. apply HQ.
  - split; [split|].
    + intros w c Hwc. apply Hc in Hwc as [Hw ?]. apply HW in Hw as (? & ? & ?). split_and!; [lia|lia|by apply Hmono|done].
    + intros h. exists Leaf. assert (Ht : tree_of h (with_nodes ns s1) = {| rb_nodes := ns; rbh_root := NULL |}) by (by destruct h).
      rewrite Ht. split_and!; [apply balanced_empty| |by destruct h]. split; [done|constructor].
    + intros h w x Hx. destruct h; set_solver.
    + intros h. destruct h; constructor.
    + intros w [c Hwc] _. apply Hin. apply elem_of_elements. by apply (Hc w c).
    + done.
    + intros h. by destruct h.
  - intros w Hw. by apply HW.
Qed.

(** * The life of one watchdog *)

Section life.
Context (w : Z).
Hypothesis untouched : forall clock r v e, Forall (fun o => watchdog_of o <> w) (react clock r v e).1.

Definition entries_of (l : entries) : entries := filter (fun p => p.1 = w) l.
Definition calls (f : list Z) : nat := length (filter (fun v => v = w) f).

Record awf (a : astate) : Prop := {
  awf_sorted h : by_time (alist h a);
  awf_home h p : p ∈ alist h a -> home p.1 = h;
}.

Lemma awf_inv s a : inv s a -> awf a.
Proof.
  intros [Hi _]. split; [apply (i_sorted _ _ Hi)|]. intros h [v x] Hp. by destruct (i_entry _ _ Hi h v x Hp).
Qed.

Lemma awf_same a a' : amonotonic a' = amonotonic a -> arealtime a' = arealtime a -> awf a -> awf a'.
Proof.
  intros E1 E2 [Hs Hm]. split; intros []; cbn; rewrite ?E1, ?E2;
    [apply (Hs PER_CPU_WATCHDOG_MONOTONIC)|apply (Hs PER_CPU_WATCHDOG_REALTIME)
    |apply (Hm PER_CPU_WATCHDOG_MONOTONIC)|apply (Hm PER_CPU_WATCHDOG_REALTIME)].
Qed.

Lemma awf_exec o a : awf a -> awf (aexec o a).
Proof.
  intros [Hs Hh]. unfold aexec. cbv zeta. set (h := home (watchdog_of o)).
  assert (Hu : forall p, p ∈ unschedule (watchdog_of o) (alist h a) -> home p.1 = h)
    by (intros p [_ Hp]%list_elem_of_filter; by apply Hh).
  split; intros h'; rewrite alist_with; case_decide as Eh; auto; rewrite ?Eh.
  - destruct o; auto using schedule_sorted, unschedule_sorted.
  - destruct o as [v k|v x|v]; intros p Hp; [apply elem_of_schedule in Hp as [->|Hp]..|]; auto.
Qed.

Lemma awf_exec_all ops a : awf a -> awf (aexec_all ops a).
Proof.
  revert a. induction ops as [|o ops IH]; intros a Ha; [done|].
  change (aexec_all (o :: ops) a) with (aexec_all ops (aexec o a)). by apply IH, awf_exec.
Qed.

Lemma awf_fire clock h v x l a : awf a -> alist h a = (v, x) :: l -> awf (afire clock h v l a).
Proof.
  intros [Hs Hh] El. apply awf_exec_all. split.
  - intros h'. change (by_time (alist h' (with_alist h l a))). rewrite alist_with. case_decide; [|auto].
    specialize (Hs h). rewrite El in Hs. by apply StronglySorted_inv in Hs as [? _].
  - intros h' p. change (p ∈ alist h' (with_alist h l a) -> home p.1 = h'). rewrite alist_with. case_decide; [|auto].
    subst h'. intros Hp. apply Hh. rewrite El. by right.
Qed.

Lemma entries_schedule v x l : v <> w -> entries_of (schedule v x l) = entries_of l.
Proof.
  intros Hv. unfold entries_of. induction l as [|[u y] l IH]; cbn [schedule].
  - by rewrite filter_cons_False.
  - destruct (x <? y); [by rewrite filter_cons_False|]. by rewrite !filter_cons, IH.
Qed.

Lemma entries_unschedule v l : v <> w -> entries_of (unschedule v l) = entries_of l.
Proof.
  intros Hv. unfold entries_of, unschedule. induction l as [|[u y] l IH]; [done|]. rewrite !filter_cons. cbn [fst].
  repeat case_decide; subst; rewrite ?filter_cons; cbn [fst]; repeat case_decide; subst; try done. by rewrite IH.
Qed.

Lemma entries_scheduled x l : w ∉ l.*1 -> entries_of (schedule w x l) = [(w, x)].
Proof.
  unfold entries_of. induction l as [|[v y] l IH]; cbn [schedule]; intros Hni.
  - by rewrite filter_cons_True.
  - destruct (x <? y).
    + rewrite filter_cons_True by done. f_equal. apply filter_none. intros [u z] Hu Eu. cbn in Eu. subst u.
      apply Hni, list_elem_of_fmap. by exists (w, z).
    + rewrite filter_cons_False; [apply IH|]; cbn in *; set_solver.
Qed.

Lemma entries_exec h o a : watchdog_of o <> w -> entries_of (alist h (aexec o a)) = entries_of (alist h a).
Proof.
  intros Ho. unfold aexec. rewrite alist_with. case_decide; [subst|done].
  destruct o; cbn [watchdog_of] in *; by rewrite ?entries_schedule, entries_unschedule by done.
Qed.

Lemma entries_fire clock h h' v l a : entries_of (alist h' (afire clock h v l a)) = entries_of (alist h' (with_alist h l a)) /\
  ahistory (afire clock h v l a) = ahistory a ++ [v].
Proof using react_ok untouched.
  unfold afire. cbv zeta. set (a1 := Build_astate _ _ _ _ _).
  change (alist h' (with_alist h l a)) with (alist h' a1). change (ahistory a ++ [v]) with (ahistory a1).
  generalize a1. clear a1. induction (untouched clock (rt v) v (aenv a)) as [|o ops Ho _ IH]; intros a1; [done|].
  change (aexec_all (o :: ops) a1) with (aexec_all ops (aexec o a1)). destruct (IH (aexec o a1)) as [-> ->].
  by rewrite entries_exec.
Qed.

(** During a tickle the watchdog fires if it has expired. *)
Lemma tickled_life clock h now a a' : tickled clock h now a a' -> awf a ->
  let e := entries_of (alist (home w) a) in (length e <= 1)%nat ->
  let e' := if decide (h = home w) then filter (fun p => now < p.2) e else e in
  entries_of (alist (home w) a') = e' /\ awf a' /\ aticks a' = aticks a /\
  exists f, ahistory a' = ahistory a ++ f /\ (calls f + length e' = length e)%nat.
Proof using react_ok untouched.
  induction 1 as [a Hd|a a' v x l El Hx _ IH]; intros Hwf e He e'.
  - assert (e' = e) as ->.
    { unfold e'. case_decide as Eh; [|done]. apply filter_all. intros p [_ Hp]%list_elem_of_filter. rewrite <- Eh in Hp.
      destruct (alist h a) as [|[v x] l] eqn:El; [set_solver|]. specialize (Hd v x l eq_refl).
      pose proof (awf_sorted _ Hwf h) as Hs. rewrite El in Hs. apply StronglySorted_inv in Hs as [_ Hs]. rewrite Forall_forall in Hs.
      apply elem_of_cons in Hp as [->|Hp]; [done|]. specialize (Hs p Hp). cbn in Hs. lia. }
    split_and!; [done|done|done|]. exists []. by rewrite app_nil_r.
  - destruct (entries_fire clock h (home w) v l a) as [Ee Eh]. pose proof (awf_home _ Hwf h (v, x)) as Hhv.
    rewrite El in Hhv. specialize (Hhv ltac:(left)). cbn in Hhv.
    specialize (IH (awf_fire _ _ _ _ _ _ Hwf El)). cbv zeta in IH. rewrite Ee, alist_with in IH.
    destruct (decide (v = w)) as [->|Hne].
    + subst h. unfold e', e in *. rewrite !decide_True in * by done. rewrite El in He |- *.
      assert (Hel : entries_of ((w, x) :: l) = (w, x) :: entries_of l) by (unfold entries_of; by rewrite filter_cons_True).
      rewrite Hel in He |- *.
      destruct (entries_of l) as [|q l'] eqn:Eq; [|cbn in He; lia]. cbn in IH. rewrite filter_cons_False by (cbn; lia).
      destruct (IH ltac:(lia)) as (-> & ? & Et & f & Ef & Hf). split_and!; [done|done|by rewrite Et, aticks_fire|].
      exists (w :: f). rewrite Ef, Eh, <- app_assoc. split; [done|]. unfold calls. rewrite filter_cons_True by done. cbn in *.
      unfold calls in Hf. lia.
    + assert (Hsame : entries_of (if decide (home w = h) then l else alist (home w) a) = e).
      { unfold e. case_decide as E2; [|done]. rewrite E2, El. unfold entries_of. by rewrite filter_cons_False. }
      rewrite Hsame in IH. destruct (IH He) as (-> & ? & Et & f & Ef & Hf). split_and!; [done|done|by rewrite Et, aticks_fire|].
      exists (v :: f). rewrite Ef, Eh, <- app_assoc. split; [done|]. unfold calls. rewrite filter_cons_False by done. exact Hf.
Qed.

Lemma ticked_life now a a' : aticked now a a' -> home w = PER_CPU_WATCHDOG_MONOTONIC -> awf a ->
  let e := entries_of (amonotonic a) in (length e <= 1)%nat ->
  let e' := filter (fun p => aticks a + 1 < p.2) e in
  entries_of (amonotonic a') = e' /\ awf a' /\ aticks a' = aticks a + 1 /\
  exists f, ahistory a' = ahistory a ++ f /\ (calls f + length e' = length e)%nat.
Proof using react_ok untouched.
  intros (a1 & a2 & H1 & H2 & ->) Hh Hwf e He e'.
  assert (Hwf1 : awf (with_aticks (aticks a + 1) a)) by by apply (awf_same a).
  pose proof (tickled_life _ _ _ _ _ H1 Hwf1) as L1. cbv zeta in L1. rewrite Hh, decide_True in L1 by done.
  destruct (L1 He) as (E1 & Hwf' & T1 & f1 & F1 & C1).
  pose proof (tickled_life _ _ _ _ _ H2 Hwf') as L2. cbv zeta in L2. rewrite Hh, decide_False in L2 by done. rewrite E1 in L2.
  destruct L2 as (E2 & Hwf2 & T2 & f2 & F2 & C2).
  { etrans; [apply length_filter|exact He]. }
  split_and!; [exact E2| |cbn in *; lia|].
  - by apply (awf_same a2).
  - exists (f1 ++ f2). cbn. rewrite F2, F1, <- app_assoc. split; [done|]. unfold calls in *. rewrite filter_app, length_app.
    change (alist PER_CPU_WATCHDOG_MONOTONIC (with_aticks (aticks a + 1) a)) with (amonotonic a) in C1, C2.
    fold e in C1, C2. fold e' in C1, C2. lia.
Qed.

Lemma ticked_life_realtime now a a' : aticked now a a' -> home w = PER_CPU_WATCHDOG_REALTIME -> awf a ->
  let e := entries_of (arealtime a) in (length e <= 1)%nat ->
  let e' := filter (fun p => _Watchdog_Realtime_from_timespec now < p.2) e in
  entries_of (arealtime a') = e' /\ awf a' /\
  exists f, ahistory a' = ahistory a ++ f /\ (calls f + length e' = length e)%nat.
Proof using react_ok untouched.
  intros (a1 & a2 & H1 & H2 & ->) Hh Hwf e He e'.
  assert (Hwf1 : awf (with_aticks (aticks a + 1) a)) by by apply (awf_same a).
  pose proof (tickled_life _ _ _ _ _ H1 Hwf1) as L1. cbv zeta in L1. rewrite Hh, decide_False in L1 by done.
  destruct (L1 He) as (E1 & Hwf' & _ & f1 & F1 & C1).
  pose proof (tickled_life _ _ _ _ _ H2 Hwf') as L2. cbv zeta in L2. rewrite Hh, decide_True in L2 by done. rewrite E1 in L2.
  destruct (L2 He) as (E2 & Hwf2 & _ & f2 & F2 & C2).
  split_and!; [exact E2|by apply (awf_same a2)|].
  exists (f1 ++ f2). cbn. rewrite F2, F1, <- app_assoc. split; [done|]. unfold calls in *. rewrite filter_app, length_app.
  change (alist PER_CPU_WATCHDOG_REALTIME (with_aticks (aticks a + 1) a)) with (arealtime a) in C1, C2.
  fold e in C1, C2. fold e' in C2. lia.
Qed.

(** [fired]: the watchdog was called by an earlier tick. *)
Lemma ticks_life_realtime nows a a' x (fired : bool) : arun (ev_tick <$> nows) a a' -> home w = PER_CPU_WATCHDOG_REALTIME -> awf a ->
  entries_of (arealtime a) = (if fired then [] else [(w, x)]) ->
  exists f, ahistory a' = ahistory a ++ f /\
    calls f = if negb fired && existsb (fun now => x <=? _Watchdog_Realtime_from_timespec now) nows then 1%nat else 0%nat.
Proof using react_ok untouched.
  revert a fired. induction nows as [|now nows IH]; intros a fired Hr Hh Hwf He; inversion Hr; subst.
  { exists []. rewrite app_nil_r. by destruct fired. }
  match goal with H : aticked _ _ _ |- _ => destruct (ticked_life_realtime _ _ _ H Hh Hwf) as (E1 & Hwf1 & f1 & F1 & C1) end.
  { rewrite He. destruct fired; cbn; lia. }
  set (hit := x <=? _Watchdog_Realtime_from_timespec now).
  assert (Ef : filter (fun p : Z * Z => _Watchdog_Realtime_from_timespec now < p.2) (if fired then [] else [(w, x)]) =
    if fired || hit then [] else [(w, x)]).
  { unfold hit. destruct fired; [done|]. destruct (Z.leb_spec x (_Watchdog_Realtime_from_timespec now));
      [by rewrite filter_cons_False by (cbn; lia)|by rewrite filter_cons_True by (cbn; lia)]. }
  rewrite He, Ef in E1, C1. destruct (IH a1 (fired || hit) ltac:(done) Hh Hwf1 E1) as (f2 & F2 & C2).
  exists (f1 ++ f2). rewrite F2, F1, <- app_assoc. split; [done|]. unfold calls in *. rewrite filter_app, length_app, C2.
  cbn [existsb]. fold hit. destruct fired, hit; cbn in *; lia.
Qed.

Lemma ticks_life nows a a' x : arun (ev_tick <$> nows) a a' -> home w = PER_CPU_WATCHDOG_MONOTONIC -> awf a ->
  (forall f0, f0 = (if aticks a <? x then [(w, x)] else []) -> entries_of (amonotonic a) = f0 ->
   exists f, ahistory a' = ahistory a ++ f /\
     calls f = if (aticks a <? x) && (x <=? aticks a + Z.of_nat (length nows)) then 1%nat else 0%nat).
Proof using react_ok untouched.
  revert a. induction nows as [|now nows IH]; intros a Hr Hh Hwf f0 -> He; inversion Hr; subst.
  - exists []. rewrite app_nil_r. split; [done|].
    cbn [length]. change (Z.of_nat 0) with 0. destruct (Z.ltb_spec (aticks a') x), (Z.leb_spec x (aticks a' + 0)); done || lia.
  - match goal with H : aticked _ _ _ |- _ => destruct (ticked_life _ _ _ H Hh Hwf) as (E1 & Hwf1 & T1 & f1 & F1 & C1) end.
    { rewrite He. destruct (aticks a <? x); cbn; lia. }
    destruct (IH a1 ltac:(done) Hh Hwf1 _ eq_refl) as (f2 & F2 & C2).
    { rewrite E1, He, T1. destruct (Z.ltb_spec (aticks a) x).
      - destruct (Z.ltb_spec (aticks a + 1) x); [by rewrite filter_cons_True|by rewrite filter_cons_False by (cbn; lia)].
      - by destruct (Z.ltb_spec (aticks a + 1) x); [lia|]. }
    exists (f1 ++ f2). rewrite F2, F1, <- app_assoc. split; [done|]. unfold calls in *. rewrite filter_app, length_app, C2, T1.
    rewrite He in C1. cbn [length]. destruct (Z.ltb_spec (aticks a) x); cbn [length andb] in *.
    + destruct (decide (aticks a + 1 < x)).
      * rewrite filter_cons_True in C1 by done. cbn in C1.
        destruct (Z.ltb_spec (aticks a + 1) x); [|lia]. cbn [andb].
        destruct (Z.leb_spec x (aticks a + 1 + Z.of_nat (length nows))), (Z.leb_spec x (aticks a + Z.of_nat (S (length nows)))); lia.
      * rewrite filter_cons_False in C1 by (cbn; lia). cbn in C1.
        destruct (Z.ltb_spec (aticks a + 1) x); [lia|]. cbn [andb].
        destruct (Z.leb_spec x (aticks a + Z.of_nat (S (length nows)))); lia.
    + destruct (Z.ltb_spec (aticks a + 1) x); [lia|]. cbn in *. lia.
Qed.
End life.

(** C12. From boot on, any sequence of scheduling, rescheduling and cancelling
    watchdogs and of clock ticks runs without fault, every loop terminates,
    and the trees behave as lists sorted by expiration time with first come
    first served among equals: each tick calls the routines of exactly the
    watchdogs that have expired, in that order, where a routine may itself
    schedule and cancel watchdogs, those for the time of day for a later time
    than the current one (otherwise a tick need not end).  The watchdogs of both clocks expire: those
    for ticks by the tick count, those for the time of day by the time of day
    at the tick, which may be set back and forth.  The history of calls and the
    pointers to the first watchdogs are those of the lists. *)
Theorem watchdog_trace_refines evs s :
  (forall w c, controls s !! w = Some c -> w ∈ W /\ routine c = rt w) ->
  (forall w, w ∈ W -> 0 < w < 2 ^ 64 /\ is_Some (controls s !! w) /\ is_Some (nodes s !! w)) ->
  Forall event_ok evs -> 0 <= ticks s -> ticks s + Z.of_nat (length evs) + 2 ^ 32 < 2 ^ 64 ->
  wp (boot;; run evs) (fun _ s' => exists a', arun evs (ainit s) a' /\ inv s' a') s.
Proof using react_ok.
  intros Hc HW Hev H0 Hb. apply wp_bind, boot_spec; [done|done|]. intros s1 Hi HW1.
  eapply run_spec; [exact Hi|done|done|done|done|]. intros s' a' Ha' Hi' _. by exists a'.
Qed.

(** C13. A watchdog that is scheduled for [k] ticks from now on fires at the
    [k]-th tick, once, and not before, whatever other watchdogs are
    scheduled and whatever their routines do, as long as they leave it
    alone. *)
Theorem watchdog_fires_on_time w k nows s a :
  inv s a -> known W s -> w ∈ W -> home w = PER_CPU_WATCHDOG_MONOTONIC -> w ∉ (amonotonic a).*1 ->
  (forall clock r v e, Forall (fun o => watchdog_of o <> w) (react clock r v e).1) ->
  0 < k < 2 ^ 32 ->
  0 <= ticks s -> ticks s + Z.of_nat (length nows) + 2 ^ 32 < 2 ^ 64 ->
  wp (_Watchdog_Per_CPU_insert_ticks w k;; run (ev_tick <$> nows))
     (fun _ s' => exists called, history s' = history s ++ called /\
        calls w called = if k <=? Z.of_nat (length nows) then 1%nat else 0%nat) s.
Proof using react_ok.
  intros Hi HW Hw Hh Hni Hun Hk H0 Hb. destruct (i_rest _ _ (proj1 Hi)) as (E1 & E2 & _). rewrite E1 in *.
  apply wp_bind, wp_bind, wp_gets. cbv zeta. rewrite E1, u64_small by lia. apply wp_bind. rewrite <- Hh at 1.
  eapply watchdog_insert_spec; [exact Hi|by apply HW|by rewrite Hh|]. rewrite Hh. cbn [alist]. intros s1 Hi1 Hc1. apply wp_ret.
  set (x := k + aticks a) in *.
  eapply (run_spec _ _ _ _ Hi1); [intros v Hv; by apply Hc1, HW| |done|by rewrite length_fmap|].
  { apply Forall_fmap, Forall_forall. done. }
  intros s2 a2 Ha2 Hi2 _. destruct (i_rest _ _ (proj1 Hi2)) as (_ & -> & _).
  destruct (ticks_life w Hun nows _ a2 x Ha2 Hh (awf_inv _ _ Hi1) _ eq_refl) as (f & F & C).
  - cbn [aticks with_alist amonotonic]. destruct (Z.ltb_spec (aticks a) x); [|unfold x in *; lia].
    by apply entries_scheduled.
  - exists f. cbn in F. rewrite E2. split; [exact F|]. rewrite C. cbn [aticks with_alist].
    unfold x. destruct (Z.ltb_spec (aticks a) (k + aticks a)); [|lia]. cbn [andb].
    destruct (Z.leb_spec (k + aticks a) (aticks a + Z.of_nat (length nows))), (Z.leb_spec k (Z.of_nat (length nows))); done || lia.
Qed.

(** C14. A watchdog that is scheduled for the time of day [x] fires at the
    first tick at which the time of day has reached [x], once, and not at any
    other tick, whatever other watchdogs are scheduled and whatever their
    routines do, as long as they leave it alone.  The time of day may be set
    back and forth between the ticks. *)
Theorem watchdog_realtime_fires w x nows s a :
  inv s a -> known W s -> w ∈ W -> home w = PER_CPU_WATCHDOG_REALTIME -> w ∉ (arealtime a).*1 ->
  (forall clock r v e, Forall (fun o => watchdog_of o <> w) (react clock r v e).1) ->
  0 <= ticks s -> ticks s + Z.of_nat (length nows) + 2 ^ 32 < 2 ^ 64 ->
  wp (_Watchdog_Per_CPU_insert_realtime w x;; run (ev_tick <$> nows))
     (fun _ s' => exists called, history s' = history s ++ called /\
        calls w called = if existsb (fun now => x <=? _Watchdog_Realtime_from_timespec now) nows then 1%nat else 0%nat) s.
Proof using react_ok.
  intros Hi HW Hw Hh Hni Hun H0 Hb. destruct (i_rest _ _ (proj1 Hi)) as (E1 & E2 & _). rewrite E1 in *.
  apply wp_bind, wp_bind. rewrite <- Hh at 1.
  eapply watchdog_insert_spec; [exact Hi|by apply HW|by rewrite Hh|]. rewrite Hh. cbn [alist]. intros s1 Hi1 Hc1. apply wp_ret.
  eapply (run_spec _ _ _ _ Hi1); [intros v Hv; by apply Hc1, HW| |done|by rewrite length_fmap|].
  { apply Forall_fmap, Forall_forall. done. }
  intros s2 a2 Ha2 Hi2 _. destruct (i_rest _ _ (proj1 Hi2)) as (_ & -> & _).
  destruct (ticks_life_realtime w Hun nows _ a2 x false Ha2 Hh (awf_inv _ _ Hi1)) as (f & F & C).
  - cbn [with_alist arealtime]. by apply entries_scheduled.
  - exists f. cbn in F. rewrite E2. split; [exact F|]. by rewrite C.
Qed.
End refinement.

(** * A concrete run *)

(** Two tick watchdogs at 8 and 16 and one for the time of day at 24; the
    routine of the first schedules it again for two ticks, that of the last
    for the next second, the other one does nothing. *)
Module Sample.
Definition W : gset Z := {[ 8; 16; 24 ]}.
Definition home (w : Z) : Per_CPU_Watchdog_index :=
  if w =? 24 then PER_CPU_WATCHDOG_REALTIME else PER_CPU_WATCHDOG_MONOTONIC.
Definition rt (w : Z) : Z := w + 1000.
Definition react (clock r w : Z) (e : unit) : list op * unit :=
  (if w =? 8 then [op_insert_ticks 8 2]
   else if (w =? 24) && (0 <=? clock) && (clock <? 2 ^ 60) then [op_insert_realtime 24 (clock + 2 ^ 30)] else [], tt).
Definition silent (clock r w : Z) (e : unit) : list op * unit := ([], e).
Definition node : RBTree_Node := {| rbe_left := 0; rbe_right := 0; rbe_parent := 0; rbe_color := 0 |}.
Definition start : state unit :=
  Build_state {[ 8 := node; 16 := node; 24 := node ]}
    {[ 8 := {| routine := 1008; expire := 0 |}; 16 := {| routine := 1016; expire := 0 |}; 24 := {| routine := 1024; expire := 0 |} ]}
    {| Watchdogs := NULL; first := NULL |} {| Watchdogs := NULL; first := NULL |} 100 0 [] tt.
Definition at_second (n : Z) : timespec := {| tv_sec := n; tv_nsec := 0 |}.

Lemma react_ok clock r w e : Forall (fun o => op_ok home W o /\ after clock o) (react clock r w e).1.
Proof.
  unfold react. cbn. destruct (w =? 8); [repeat constructor; try lia; set_solver|].
  destruct ((w =? 24) && (0 <=? clock) && (clock <? 2 ^ 60)) eqn:E; [|constructor].
  repeat (apply andb_true_iff in E as [E ?]). bool_hyps. repeat constructor; cbn; try lia; set_solver.
Qed.

Lemma start_controls w c : controls start !! w = Some c -> w ∈ W /\ routine c = rt w.
Proof.
  cbn. intros [[<- <-]|[_ [[<- <-]|[_ [<- <-]%lookup_singleton_Some]]%lookup_insert_Some]]%lookup_insert_Some; (split; [set_solver|done]).
Qed.

Lemma start_known w : w ∈ W -> 0 < w < 2 ^ 64 /\ is_Some (controls start !! w) /\ is_Some (nodes start !! w).
Proof.
  intros [[->%elem_of_singleton | ->%elem_of_singleton]%elem_of_union | ->%elem_of_singleton]%elem_of_union;
    (split_and!; [lia|lia|by eexists|by eexists]).
Qed.

Lemma booted : exists s, inv (RB := Spine.macros) home rt s (ainit start) /\ known W s.
Proof.
  assert (Hb : wp (boot W) (fun _ s' => inv (RB := Spine.macros) home rt s' (ainit start) /\ known W s') start).
  { apply (boot_spec (RB := Spine.macros) home rt react W react_ok); [exact start_controls|exact start_known|auto]. }
  apply wp_run in Hb as ([] & s & _ & Hi & HW). eauto.
Qed.

(** The watchdog for the time of day 5 s fires at the third tick and
    schedules itself for 7 s, and fires again at the last one. *)
Definition events : list event :=
  [ev_op (op_insert_ticks 8 1); ev_op (op_insert_realtime 24 (5 * 2 ^ 30)); ev_tick (at_second 3); ev_op (op_insert_ticks 16 1);
   ev_tick (at_second 4); ev_tick (at_second 6); ev_tick (at_second 7)].
End Sample.

Lemma watchdog_trace_refines_witness :
  wp (boot Sample.W;; run (RB := Spine.macros) Sample.home Sample.react (fun e => e) Sample.events)
     (fun _ s' => exists a',
        arun Sample.home Sample.rt Sample.react (fun e => e) Sample.events (ainit Sample.start) a' /\
        inv (RB := Spine.macros) Sample.home Sample.rt s' a') Sample.start.
Proof.
  apply (watchdog_trace_refines (RB := Spine.macros) Sample.home Sample.rt Sample.react (fun e => e)
    Sample.W Sample.react_ok Sample.events Sample.start Sample.start_controls Sample.start_known).
  - repeat constructor; cbn; try lia; set_solver.
  - cbn. lia.
  - cbn. lia.
Defined.

(** The calls of that run. *)
Example sample_calls :
  (fun r : unit * state unit => history r.2) <$> (boot Sample.W;; run (RB := Spine.macros) Sample.home Sample.react (fun e => e) Sample.events) Sample.start
  = Some [8; 16; 8; 24; 24].
Proof. vm_compute. reflexivity. Qed.

Lemma watchdog_fires_on_time_witness : exists s a,
  inv (RB := Spine.macros) Sample.home Sample.rt s a /\
  wp (_Watchdog_Per_CPU_insert_ticks (RB := Spine.macros) 16 2;;
      run (RB := Spine.macros) Sample.home Sample.react (fun e => e) (ev_tick <$> [Sample.at_second 0; Sample.at_second 1; Sample.at_second 2]))
     (fun _ s' => exists called, history s' = history s ++ called /\ calls 16 called = 1%nat) s.
Proof.
  destruct Sample.booted as (s & Hi & HW). exists s, (ainit Sample.start). split; [exact Hi|].
  destruct (i_rest _ _ _ _ (proj1 Hi)) as (Et & _).
  apply (watchdog_fires_on_time (RB := Spine.macros) Sample.home Sample.rt Sample.react (fun e => e)
    Sample.W Sample.react_ok 16 2 [Sample.at_second 0; Sample.at_second 1; Sample.at_second 2] s (ainit Sample.start)).
  - exact Hi.
  - exact HW.
  - set_solver.
  - reflexivity.
  - cbn. set_solver.
  - intros clock r v e. unfold Sample.react. cbn. destruct (v =? 8); [by repeat constructor|]. destruct (_ && _); by repeat constructor.
  - lia.
  - rewrite Et. cbn. lia.
  - rewrite Et. cbn. lia.
Defined.

Lemma watchdog_realtime_fires_witness : exists s a,
  inv (RB := Spine.macros) Sample.home Sample.rt s a /\
  wp (_Watchdog_Per_CPU_insert_realtime (RB := Spine.macros) 24 (5 * 2 ^ 30);;
      run (RB := Spine.macros) Sample.home Sample.silent (fun e => e) (ev_tick <$> [Sample.at_second 4; Sample.at_second 6; Sample.at_second 7]))
     (fun _ s' => exists called, history s' = history s ++ called /\ calls 24 called = 1%nat) s.
Proof.
  destruct Sample.booted as (s & Hi & HW). exists s, (ainit Sample.start). split; [exact Hi|].
  destruct (i_rest _ _ _ _ (proj1 Hi)) as (Et & _).
  apply (watchdog_realtime_fires (RB := Spine.macros) Sample.home Sample.rt Sample.silent (fun e => e)
    Sample.W (fun _ _ _ _ => Forall_nil_2 _) 24 (5 * 2 ^ 30) [Sample.at_second 4; Sample.at_second 6; Sample.at_second 7] s (ainit Sample.start)).
  - exact Hi.
  - exact HW.
  - set_solver.
  - reflexivity.
  - cbn. set_solver.
  - intros clock r v e. constructor.
  - rewrite Et. cbn. lia.
  - rewrite Et. cbn. lia.
Defined.

(** * Points in time *)

Lemma realtime_value ts : 0 <= tv_sec ts <= WATCHDOG_REALTIME_MAX_SECONDS -> 0 <= tv_nsec ts < 2 ^ 30 ->
  _Watchdog_Realtime_from_timespec ts = tv_sec ts * 2 ^ 30 + tv_nsec ts.
Proof.
  unfold WATCHDOG_REALTIME_MAX_SECONDS. intros Hs Hn. unfold _Watchdog_Realtime_from_timespec, WATCHDOG_BITS_FOR_1E9_NANOSECONDS.
  rewrite (u64_small (tv_sec ts)), Z.shiftl_mul_pow2, u64_small, u32_small by lia.
  apply (lor_fields _ _ 30); [lia| |lia]. by apply Z.mod_mul.
Qed.

(** The 64-bit representation of the time of day (34 bits of seconds, 30
    bits of nanoseconds) is exact for every valid time that is not in the far
    future: it fits, it orders times as their seconds and nanoseconds do, and
    a full second is represented as [_Watchdog_Realtime_from_seconds]
    represents it. *)
Theorem watchdog_realtime_order ts1 ts2 :
  let valid ts := _Watchdog_Is_valid_interval_timespec (Some ts) = true /\
    _Watchdog_Is_far_future_realtime_timespec ts = false /\ - 2 ^ 63 <= tv_nsec ts < 2 ^ 63 in
  let value := _Watchdog_Realtime_from_timespec in
  valid ts1 -> valid ts2 ->
  0 <= value ts1 < 2 ^ 64 /\
  (value ts1 <= value ts2 <-> tv_sec ts1 < tv_sec ts2 \/ tv_sec ts1 = tv_sec ts2 /\ tv_nsec ts1 <= tv_nsec ts2) /\
  (tv_nsec ts1 = 0 -> tv_sec ts1 < 2 ^ 32 -> value ts1 = _Watchdog_Realtime_from_seconds (tv_sec ts1)).
Proof.
  intros valid value H1 H2.
  assert (Hv : forall ts, valid ts -> 0 <= tv_sec ts <= WATCHDOG_REALTIME_MAX_SECONDS /\ 0 <= tv_nsec ts < 10 ^ 9).
  { intros ts (Hi & Hf & Hr). unfold _Watchdog_Is_valid_interval_timespec, _Watchdog_Is_valid_timespec in Hi.
    apply andb_true_iff in Hi as [Hn Hs]. unfold _Watchdog_Is_far_future_realtime_timespec in Hf.
    apply Z.ltb_lt in Hn. apply Z.leb_le in Hs. apply Z.ltb_ge in Hf. split; [lia|].
    unfold WATCHDOG_NANOSECONDS_PER_SECOND in Hn. unfold u64 in Hn.
    destruct (Z.lt_ge_cases (tv_nsec ts) 0); [|rewrite Z.mod_small in Hn; lia].
    rewrite <- (Z.mod_add _ 1), Z.mod_small in Hn; lia. }
  apply Hv in H1 as [Hs1 Hn1]. apply Hv in H2 as [Hs2 Hn2]. unfold value. rewrite !realtime_value by lia.
  unfold WATCHDOG_REALTIME_MAX_SECONDS in *. split_and!; [lia|lia|split; lia|].
  intros -> Hs. unfold _Watchdog_Realtime_from_seconds, WATCHDOG_BITS_FOR_1E9_NANOSECONDS.
  rewrite Z.shiftl_mul_pow2, u64_small by lia. lia.
Qed.

Lemma watchdog_realtime_order_witness :
  _Watchdog_Realtime_from_timespec {| tv_sec := 5; tv_nsec := 999999999 |} <=
  _Watchdog_Realtime_from_timespec {| tv_sec := 6; tv_nsec := 0 |}.
Proof.
  apply (proj1 (proj2 (watchdog_realtime_order {| tv_sec := 5; tv_nsec := 999999999 |} {| tv_sec := 6; tv_nsec := 0 |}
    ltac:(vm_compute; repeat split; discriminate) ltac:(vm_compute; repeat split; discriminate)))).
  left. cbn. lia.
Defined.

End WatchdogCorrect.
