(* ===== verification/TimeOfDay.v ===== *)
(** The calendar of the Classic API clock manager (rtems/src/clocktodvalidate.c,
    rtems/src/clocktodtoseconds.c, rtems/src/clockgettod.c, rtems/src/clockset.c).

    The timecounter, which keeps the current time, is outside: the functions
    that read it take the [struct timeval] it reports, and [rtems_clock_set]
    returns the timespec it hands to [_TOD_Set].  The calendar is verified
    against one that counts day by day. *)

From S2P Require Import Prelude Timespec.
Open Scope width_scope.

Module TimeOfDay.
Import Timespec.

Definition TOD_SECONDS_PER_MINUTE : Z := 60.
Definition TOD_MINUTES_PER_HOUR : Z := 60.
Definition TOD_MONTHS_PER_YEAR : Z := 12.
Definition TOD_DAYS_PER_YEAR : Z := 365.
Definition TOD_HOURS_PER_DAY : Z := 24.
Definition TOD_SECONDS_PER_DAY : Z := 86400.
Definition TOD_SECONDS_1970_THROUGH_1988 : Z :=
  (1987 - 1970 + 1) * (365 * TOD_SECONDS_PER_DAY) + 4 * TOD_SECONDS_PER_DAY.
Definition TOD_BASE_YEAR : Z := 1988.
Definition TOD_SECONDS_AT_2100_03_01_00_00 : Z := 4107538800.

Inductive rtems_status_code :=
  | RTEMS_SUCCESSFUL
  | RTEMS_INVALID_ADDRESS
  | RTEMS_NOT_DEFINED
  | RTEMS_INVALID_CLOCK.

Record rtems_time_of_day := {
  year : Z;
  month : Z;
  day : Z;
  hour : Z;
  minute : Z;
  second : Z;
  ticks : Z;
}.

(** The tables have a row for common years and one for leap years. *)
Definition _TOD_Days_per_month (leap : bool) : list Z :=
  if leap then [0; 31; 29; 31; 30; 31; 30; 31; 31; 30; 31; 30; 31]
  else [0; 31; 28; 31; 30; 31; 30; 31; 31; 30; 31; 30; 31].

Definition _TOD_Days_to_date (leap : bool) : list Z :=
  if leap then [0; 0; 31; 60; 91; 121; 152; 182; 213; 244; 274; 305; 335]
  else [0; 0; 31; 59; 90; 120; 151; 181; 212; 243; 273; 304; 334].

Definition _TOD_Days_since_last_leap_year : list Z := [0; 366; 731; 1096].

Section configuration.
Context (microseconds_per_tick : Z).

(** [None] is an access outside a table. *)
Definition _TOD_Validate (the_tod : option rtems_time_of_day) : option bool :=
  let ticks_per_second := TOD_MICROSECONDS_PER_SECOND / microseconds_per_tick in
  match the_tod with
  | None => Some false
  | Some tod =>
      if (ticks_per_second <=? ticks tod) ||
         (TOD_SECONDS_PER_MINUTE <=? second tod) ||
         (TOD_MINUTES_PER_HOUR <=? minute tod) ||
         (TOD_HOURS_PER_DAY <=? hour tod) ||
         (month tod =? 0) ||
         (TOD_MONTHS_PER_YEAR <? month tod) ||
         (year tod <? TOD_BASE_YEAR) ||
         (day tod =? 0)
      then Some false
      else
        let leap := ((year tod mod 4 =? 0) && negb (year tod mod 100 =? 0)) ||
                    (year tod mod 400 =? 0) in
        days_in_month ← _TOD_Days_per_month leap !! Z.to_nat (month tod);
        Some (negb (days_in_month <? day tod))
  end.

Definition _TOD_To_seconds (the_tod : rtems_time_of_day) : option Z :=
  let time := day the_tod -. 1 in
  let year_mod_4 := Z.land (year the_tod) 3 in
  d ← _TOD_Days_to_date (year_mod_4 =? 0) !! Z.to_nat (month the_tod);
  let time := time +. d in
  let time := time +. ((year the_tod -. TOD_BASE_YEAR) / 4) * ((TOD_DAYS_PER_YEAR * 4) + 1) in
  l ← _TOD_Days_since_last_leap_year !! Z.to_nat year_mod_4;
  let time := time +. l in
  let time := u32 (time * TOD_SECONDS_PER_DAY) in
  let time := time +. u32 (u32 (u32 (hour the_tod * TOD_MINUTES_PER_HOUR) + minute the_tod)
                           * TOD_SECONDS_PER_MINUTE) in
  let time := time +. second the_tod in
  let time :=
    if TOD_SECONDS_AT_2100_03_01_00_00 - TOD_SECONDS_1970_THROUGH_1988 <=? time
    then time -. TOD_SECONDS_PER_DAY else time in
  Some (time +. TOD_SECONDS_1970_THROUGH_1988).

Definition _Leap_year (year : Z) : bool :=
  ((year mod 4 =? 0) && negb (year mod 100 =? 0)) || (year mod 400 =? 0).

Definition _Leap_years_before (year : Z) : Z :=
  let year := year -. 1 in
  u32 (year / 4 - year / 100 + year / 400).

Definition _Leap_years_between (from to : Z) : Z :=
  _Leap_years_before to -. _Leap_years_before (from +. 1).

(** The [while ( month < 11 )] loop; [days_to_date] is the rest of the row
    from the entry it points to. *)
Fixpoint year_day_loop (n : nat) (month d : Z) (days_to_date : list Z) : Z :=
  match n, days_to_date with
  | Datatypes.S n', e :: rest =>
      if d <? e then month else year_day_loop n' (month + 1) d rest
  | _, _ => month
  end.

(** Returns the month and the new [*day]. *)
Definition _Year_day_as_month (year d : Z) : option (Z * Z) :=
  let row := _TOD_Days_to_date (_Leap_year year) in
  let month := year_day_loop 11 0 d (drop 2 row) in
  e ← row !! Z.to_nat (month + 1);
  Some (month, d -. e).

(** [now_sec] and [now_usec] are the time the timecounter reports. *)
Definition rtems_clock_get_tod (time_buffer_is_null is_set : bool)
    (now_sec now_usec : Z) : option (rtems_status_code * option rtems_time_of_day) :=
  if time_buffer_is_null then Some (RTEMS_INVALID_ADDRESS, None)
  else if negb is_set then Some (RTEMS_NOT_DEFINED, None)
  else
    let days := u32 (now_sec / 86400) in
    let day_secs := u32 (now_sec mod 86400) in
    let year := u32 (days / 365 + 1970) in
    let leap_years := _Leap_years_between 1970 year in
    let year_days := (days -. leap_years) mod 365 in
    let '(year, year_days) :=
      if days mod 365 <? leap_years then
        let year := year -. 1 in
        (year, if _Leap_year year then year_days +. 1 else year_days)
      else (year, year_days) in
    '(m, d) ← _Year_day_as_month year year_days;
    Some (RTEMS_SUCCESSFUL, Some {|
      year := year;
      month := m +. 1;
      day := d +. 1;
      hour := day_secs / 3600;
      second := (day_secs mod 3600) mod 60;
      minute := (day_secs mod 3600) / 60;
      ticks := u32 (now_usec / microseconds_per_tick) |}).

(** The status and the timespec given to [_TOD_Set], if any. *)
Definition rtems_clock_set (tod : option rtems_time_of_day)
    : option (rtems_status_code * option timespec) :=
  match tod with
  | None => Some (RTEMS_INVALID_ADDRESS, None)
  | Some t =>
      ok ← _TOD_Validate tod;
      if (ok : bool) then
        s ← _TOD_To_seconds t;
        Some (RTEMS_SUCCESSFUL, Some {| tv_sec := s;
          tv_nsec := u32 (ticks t * nanoseconds_per_tick microseconds_per_tick) |})
      else Some (RTEMS_INVALID_CLOCK, None)
  end.
End configuration.

(** * Specification: the Gregorian calendar, day by day *)

Definition date : Type := Z * Z * Z.

Definition leap (y : Z) : bool :=
  if y mod 400 =? 0 then true else if y mod 100 =? 0 then false else y mod 4 =? 0.

Definition month_length (y m : Z) : Z :=
  if m =? 2 then (if leap y then 29 else 28)
  else if (m =? 4) || (m =? 6) || (m =? 9) || (m =? 11) then 30 else 31.

Definition next_day (x : date) : date :=
  let '(y, m, d) := x in
  if d <? month_length y m then (y, m, d + 1)
  else if m <? 12 then (y, m + 1, 1)
  else (y + 1, 1, 1).

(** The date [n] days after 1 January 1970. *)
Definition calendar (n : nat) : date := Nat.iter n next_day (1970, 1, 1).

Definition date_ok (x : date) : Prop :=
  let '(y, m, d) := x in TOD_BASE_YEAR <= y /\ 1 <= m <= 12 /\ 1 <= d <= month_length y m.

Definition date_of (t : rtems_time_of_day) : date := (year t, month t, day t).
Definition secs_of (t : rtems_time_of_day) : Z := hour t * 3600 + minute t * 60 + second t.

(** Fields of type [uint32_t], and the time of day in range. *)
Definition unsigned (t : rtems_time_of_day) : Prop :=
  0 <= year t < 2 ^ 32 /\ 0 <= month t < 2 ^ 32 /\ 0 <= day t < 2 ^ 32 /\
  0 <= hour t < 2 ^ 32 /\ 0 <= minute t < 2 ^ 32 /\ 0 <= second t < 2 ^ 32 /\ 0 <= ticks t < 2 ^ 32.

Definition clock_ok (t : rtems_time_of_day) : Prop :=
  0 <= hour t < 24 /\ 0 <= minute t < 60 /\ 0 <= second t < 60.

Lemma days_per_month_spec y m : 1 <= m <= 12 ->
  _TOD_Days_per_month (((y mod 4 =? 0) && negb (y mod 100 =? 0)) || (y mod 400 =? 0))
    !! Z.to_nat m = Some (month_length y m).
Proof.
  intros Hm. unfold month_length.
  replace (((y mod 4 =? 0) && negb (y mod 100 =? 0)) || (y mod 400 =? 0)) with (leap y).
  - assert (In m [1; 2; 3; 4; 5; 6; 7; 8; 9; 10; 11; 12]) as Hin by (cbn; lia). clear Hm.
    destruct (leap y); repeat (destruct Hin as [<-|Hin]; [reflexivity|]); done.
  - unfold leap. destruct (Z.eqb_spec (y mod 400) 0) as [E|E]; [by rewrite orb_true_r|].
    rewrite orb_false_r. destruct (Z.eqb_spec (y mod 100) 0) as [E'|E']; cbn [negb];
      [by rewrite andb_false_r|by rewrite andb_true_r].
Qed.

(** The validation accepts exactly the dates of the calendar. *)
Lemma validate_spec us t : 0 < us -> unsigned t ->
  exists b, _TOD_Validate us (Some t) = Some b /\
    (b = true <-> date_ok (date_of t) /\ clock_ok t /\ ticks t < 1000000 / us).
Proof.
  intros Hus (H1 & H2 & H3 & H4 & H5 & H6 & H7). unfold _TOD_Validate, date_ok, date_of, clock_ok,
    TOD_MICROSECONDS_PER_SECOND, TOD_SECONDS_PER_MINUTE, TOD_MINUTES_PER_HOUR,
    TOD_HOURS_PER_DAY, TOD_MONTHS_PER_YEAR.
  destruct (_ || _) eqn:E.
  - exists false. split; [done|]. split; [done|].
    rewrite !orb_true_iff in E. repeat destruct E as [E|E]; bool_hyps; lia.
  - rewrite !orb_false_iff in E. destruct E as [[[[[[[? ?] ?] ?] ?] ?] ?] ?]. bool_hyps.
    rewrite days_per_month_spec by lia. eexists. split; [reflexivity|].
    rewrite negb_true_iff, Z.ltb_ge. lia.
Qed.

(** * Years

    32-bit seconds since 1970 end in February 2106.  The facts about single
    years are checked year by year. *)

(** The leap years from 1970 up to, but not including, [y]. *)
Definition leaps (y : Z) : Z := (y - 1) / 4 - (y - 1) / 100 + (y - 1) / 400 - 477.

(** The day on which [y] starts, and its length. *)
Definition year_start (y : Z) : Z := 365 * (y - 1970) + leaps y.
Definition year_length (y : Z) : Z := if leap y then 366 else 365.

(** The days since 1988 before [y] in the count of [_TOD_To_seconds], in
    which every fourth year is a leap year. *)
Definition raw_year (y : Z) : option Z :=
  l ← _TOD_Days_since_last_leap_year !! Z.to_nat (Z.land y 3);
  Some ((y - 1988) / 4 * 1461 + l).

Definition check_year (y : Z) : bool :=
  (0 <=? leaps y) && (leaps y <=? 34) &&
  (year_start (y + 1) =? year_start y + year_length y) &&
  (_Leap_years_between 1970 y =? leaps y) &&
  Bool.eqb (_Leap_year y) (leap y) &&
  Bool.eqb (leap y) ((Z.land y 3 =? 0) && negb (y =? 2100)) &&
  ((2100 <=? y) || (year_start (y + 1) <=? 47482)) &&
  ((y <=? 2100) || (47847 <=? year_start y)) && ((y <? 1988) || (6574 <=? year_start y)) &&
  ((y <? 1988) || bool_decide (raw_year y =
     Some (year_start y - 6574 + (if 2100 <? y then 1 else 0)))).

Lemma all_years : forallb check_year (seqZ 1970 137) = true.
Proof. vm_compute. reflexivity. Qed.

Lemma year_facts y : 1970 <= y <= 2106 ->
  0 <= leaps y <= 34 /\ year_start (y + 1) = year_start y + year_length y /\
  _Leap_years_between 1970 y = leaps y /\ _Leap_year y = leap y /\
  leap y = (Z.land y 3 =? 0) && negb (y =? 2100) /\
  (y < 2100 -> year_start (y + 1) <= 47482) /\ (2100 < y -> 47847 <= year_start y) /\
  (1988 <= y -> 6574 <= year_start y) /\
  (1988 <= y -> raw_year y = Some (year_start y - 6574 + (if 2100 <? y then 1 else 0))).
Proof.
  intros Hy. pose proof all_years as H. rewrite forallb_forall in H.
  specialize (H y). rewrite <- list_elem_of_In, elem_of_seqZ in H. specialize (H ltac:(lia)).
  unfold check_year in H. rewrite !andb_true_iff in H.
  destruct H as [[[[[[[[[? ?] ?] ?] H5] H6] H7] H8] H10] H9]. apply Bool.eqb_prop in H5, H6. bool_hyps.
  rewrite !orb_true_iff in *. split_and!; try done.
  - intros ?. destruct H7; bool_hyps; lia.
  - intros ?. destruct H8; bool_hyps; lia.
  - intros ?. destruct H10; bool_hyps; lia.
  - intros ?. destruct H9 as [?|H9]; [bool_hyps; lia|]. by apply bool_decide_eq_true in H9.
Qed.

Lemma year_length_range y : 365 <= year_length y <= 366.
Proof. unfold year_length. destruct (leap y); lia. Qed.

(** Every day belongs to a year. *)
Lemma year_of_day n : 0 <= n < year_start 2107 ->
  exists y k, 1970 <= y <= 2106 /\ n = year_start y + k /\ 0 <= k < year_length y.
Proof.
  intros Hn. assert (H : forall j : nat, (j <= 136)%nat -> n < year_start (1971 + Z.of_nat j) ->
    exists y k, 1970 <= y <= 2106 /\ n = year_start y + k /\ 0 <= k < year_length y).
  { induction j as [|j IH]; intros Hj Hlt.
    - destruct (year_facts 1970) as (_ & E & _); [lia|]. change (1970 + 1) with (1971 + Z.of_nat 0) in E.
      exists 1970, n. change (year_start 1970) with 0 in *. split_and!; lia.
    - destruct (decide (n < year_start (1971 + Z.of_nat j))) as [?|Hge]; [apply IH; [lia|done]|].
      set (y := 1971 + Z.of_nat j) in *. destruct (year_facts y) as (_ & E & _); [lia|].
      replace (1971 + Z.of_nat (Datatypes.S j)) with (y + 1) in Hlt by lia.
      exists y, (n - year_start y). split_and!; lia. }
  apply (H 136%nat); [lia|]. change (1971 + Z.of_nat 136) with 2107. apply Hn.
Qed.

(** * Days within a year *)

(** Month and day, from 1, of day [k] of a leap or common year. *)
Definition month_day (l : bool) (k : Z) : Z * Z :=
  let m := year_day_loop 11 0 k (drop 2 (_TOD_Days_to_date l)) in
  (m + 1, k - default 0 (_TOD_Days_to_date l !! Z.to_nat (m + 1)) + 1).

Definition month_length' (l : bool) (m : Z) : Z :=
  if m =? 2 then (if l then 29 else 28)
  else if (m =? 4) || (m =? 6) || (m =? 9) || (m =? 11) then 30 else 31.

(** One day: it lies in a month, the next day follows in the calendar, and
    the table of days to date counts it, also with the leap year's row in a
    common year. *)
Definition check_day (l : bool) (k : Z) : bool :=
  let '(m, d) := month_day l k in
  (1 <=? m) && (m <=? 12) && (1 <=? d) && (d <=? month_length' l m) &&
  bool_decide ((_TOD_Days_to_date l !! Z.to_nat m) = Some (k - (d - 1))) &&
  bool_decide ((_TOD_Days_to_date true !! Z.to_nat m) =
    Some (k - (d - 1) + (if negb l && (3 <=? m) then 1 else 0))) &&
  Bool.eqb (3 <=? m) (59 + (if l then 1 else 0) <=? k) &&
  (if k + 1 <? (if l then 366 else 365) then
     bool_decide (month_day l (k + 1) = if d <? month_length' l m then (m, d + 1) else (m + 1, 1)) &&
     ((d <? month_length' l m) || (m <? 12))
   else (d =? month_length' l m) && (m =? 12)).

Lemma all_days : forallb (check_day true) (seqZ 0 366) && forallb (check_day false) (seqZ 0 365) = true.
Proof. vm_compute. reflexivity. Qed.

Lemma day_checked (l : bool) (k : Z) : 0 <= k < (if l then 366 else 365) -> check_day l k = true.
Proof.
  intros Hk. pose proof all_days as H. apply andb_true_iff in H as [H1 H2].
  rewrite forallb_forall in H1, H2.
  destruct l; [apply H1|apply H2]; rewrite <- list_elem_of_In, elem_of_seqZ; lia.
Qed.

Lemma month_length_leap y m : month_length y m = month_length' (leap y) m.
Proof. done. Qed.

(** What the check says, for day [k] with month [m] and day [d]. *)
Lemma day_facts (l : bool) (k m d : Z) : 0 <= k < (if l then 366 else 365) ->
  month_day l k = (m, d) ->
  1 <= m <= 12 /\ 1 <= d <= month_length' l m /\
  _TOD_Days_to_date l !! Z.to_nat m = Some (k - (d - 1)) /\
  _TOD_Days_to_date true !! Z.to_nat m =
    Some (k - (d - 1) + (if negb l && (3 <=? m) then 1 else 0)) /\
  (3 <=? m) = (59 + (if l then 1 else 0) <=? k).
Proof.
  intros Hk E. pose proof (day_checked l k Hk) as H. unfold check_day in H. rewrite E in H.
  rewrite !andb_true_iff in H. destruct H as [[[[[[[? ?] ?] ?] H5] H6] H7] _].
  apply bool_decide_eq_true in H5, H6. apply Bool.eqb_prop in H7. bool_hyps.
  split_and!; try done; lia.
Qed.

Lemma next_day_in_year y k : 0 <= k -> k + 1 < year_length y ->
  next_day (y, (month_day (leap y) k).1, (month_day (leap y) k).2) =
  (y, (month_day (leap y) (k + 1)).1, (month_day (leap y) (k + 1)).2).
Proof.
  intros Hk Hlt. unfold year_length in Hlt.
  assert (Hk' : 0 <= k < (if leap y then 366 else 365)) by (destruct (leap y); lia).
  pose proof (day_checked (leap y) k Hk') as H. unfold check_day in H.
  destruct (month_day (leap y) k) as [m d] eqn:E. cbn [fst snd]. unfold next_day.
  rewrite month_length_leap. rewrite !andb_true_iff in H. destruct H as [_ H].
  apply Z.ltb_lt in Hlt. rewrite Hlt in H. apply andb_true_iff in H as [H1 H2].
  apply bool_decide_eq_true in H1. rewrite H1. destruct (d <? _); [done|].
  cbn [orb] in H2. by rewrite H2.
Qed.

Lemma next_day_new_year y k : k + 1 = year_length y ->
  next_day (y, (month_day (leap y) k).1, (month_day (leap y) k).2) = (y + 1, 1, 1).
Proof.
  intros Hk. unfold year_length in Hk.
  assert (Hk' : 0 <= k < (if leap y then 366 else 365)) by (destruct (leap y); lia).
  pose proof (day_checked (leap y) k Hk') as H. unfold check_day in H.
  destruct (month_day (leap y) k) as [m d] eqn:E. cbn [fst snd]. unfold next_day.
  rewrite month_length_leap. rewrite !andb_true_iff in H. destruct H as [_ H].
  assert (Hge : (k + 1 <? (if leap y then 366 else 365)) = false) by (apply Z.ltb_ge; lia).
  rewrite Hge in H. apply andb_true_iff in H as [H1 H2]. bool_hyps. subst d m.
  by rewrite Z.ltb_irrefl.
Qed.

(** The calendar, counted day by day, in closed form. *)
Lemma calendar_spec (n : nat) : Z.of_nat n < year_start 2107 ->
  exists y k, 1970 <= y <= 2106 /\ Z.of_nat n = year_start y + k /\ 0 <= k < year_length y /\
    calendar n = (y, (month_day (leap y) k).1, (month_day (leap y) k).2).
Proof.
  induction n as [|n IH]; intros Hn.
  - exists 1970, 0. split_and!; done.
  - destruct IH as (y & k & Hy & E & Hk & Hc); [lia|].
    change (calendar (Datatypes.S n)) with (next_day (calendar n)). rewrite Hc.
    destruct (decide (k + 1 < year_length y)) as [Hlt|Hge].
    + exists y, (k + 1). split_and!; try lia. apply next_day_in_year; lia.
    + destruct (year_facts y Hy) as (_ & Es & _).
      assert (y <> 2106) by (intros ->; change (2106 + 1) with 2107 in Es; lia).
      pose proof (year_length_range (y + 1)). exists (y + 1), 0. split_and!; try lia.
      rewrite next_day_new_year by lia. by destruct (leap (y + 1)).
Qed.

(** * The two conversions *)

Definition tod_at (us y k sec usec : Z) : rtems_time_of_day :=
  {| year := y; month := (month_day (leap y) k).1; day := (month_day (leap y) k).2;
     hour := sec / 3600; minute := (sec mod 3600) / 60; second := (sec mod 3600) mod 60;
     ticks := u32 (usec / us) |}.

(** The year and the day of the year that the divisions find. *)
Lemma get_year y k : 1970 <= y <= 2105 -> 0 <= k < year_length y ->
  let n := year_start y + k in
  let y0 := n / 365 + 1970 in
  let l := _Leap_years_between 1970 y0 in
  let d := u32 (n - l) mod 365 in
  0 <= n < 2 ^ 32 /\ 0 <= y0 < 2 ^ 32 /\
  (if n mod 365 <? l then
     y0 - 1 = y /\ (if _Leap_year y then d + 1 else d) = k
   else y0 = y /\ d = k).
Proof.
  intros Hy Hk n y0 l d. destruct (year_facts y) as (HL & Es & Hb & Hl & _); [lia|].
  destruct (year_facts (y + 1)) as (HL1 & _ & Hb1 & _); [lia|].
  pose proof (year_length_range y) as Hyl.
  assert (En : n = 365 * (y - 1970) + (leaps y + k)) by (unfold n, year_start; lia).
  assert (Hn : 0 <= n < 2 ^ 32) by lia. split; [done|].
  destruct (decide (leaps y + k < 365)) as [Hlt|Hge].
  - assert (Hq : n / 365 = y - 1970) by (symmetry; apply (Z.div_unique _ _ _ (leaps y + k)); lia).
    assert (Hm : n mod 365 = leaps y + k) by (symmetry; apply (Z.mod_unique _ _ (y - 1970)); lia).
    assert (Hy0 : y0 = y) by lia. split; [lia|]. subst l d. rewrite Hy0, Hb, Hm.
    destruct (Z.ltb_spec (leaps y + k) (leaps y)); [lia|]. split; [done|].
    rewrite u32_small by lia. symmetry. apply (Z.mod_unique _ _ (y - 1970)); lia.
  - assert (Hq : n / 365 = y - 1970 + 1) by (symmetry; apply (Z.div_unique _ _ _ (leaps y + k - 365)); lia).
    assert (Hm : n mod 365 = leaps y + k - 365) by (symmetry; apply (Z.mod_unique _ _ (y - 1970 + 1)); lia).
    assert (Hy0 : y0 = y + 1) by lia. split; [lia|]. subst l d. rewrite Hy0, Hb1, Hm.
    assert (HL' : leaps (y + 1) = leaps y + (year_length y - 365)) by (unfold year_start in Es; lia).
    rewrite HL'. destruct (Z.ltb_spec (leaps y + k - 365) (leaps y + (year_length y - 365))); [|lia].
    split; [lia|]. rewrite u32_small by lia. rewrite Hl. unfold year_length in *.
    destruct (leap y).
    + assert (E : k - 1 = (n - (leaps y + (366 - 365))) mod 365)
        by (apply (Z.mod_unique _ _ (y - 1970)); lia).
      lia.
    + symmetry. apply (Z.mod_unique _ _ (y - 1970)); lia.
Qed.

Lemma year_day_as_month_spec y k : 1970 <= y <= 2106 -> 0 <= k < year_length y ->
  _Year_day_as_month y k =
  Some ((month_day (leap y) k).1 - 1, (month_day (leap y) k).2 - 1).
Proof.
  intros Hy Hk. destruct (year_facts y Hy) as (_ & _ & _ & Hl & _). unfold _Year_day_as_month.
  rewrite Hl. destruct (month_day (leap y) k) as [m d] eqn:E. cbn [fst snd].
  destruct (day_facts (leap y) k m d) as (Hm & Hd & Hrow & _); [by unfold year_length in Hk|done|].
  assert (Em : (month_day (leap y) k).1 = m) by (by rewrite E).
  unfold month_day in Em. cbv zeta in Em. cbn [fst] in Em.
  cbv zeta. assert (Hloop : year_day_loop 11 0 k (drop 2 (_TOD_Days_to_date (leap y))) = m - 1) by lia.
  rewrite Hloop.
  replace (m - 1 + 1) with m by lia. rewrite Hrow. cbn [mbind option_bind].
  assert (month_length' (leap y) m <= 31).
  { unfold month_length'. repeat case_match; lia. }
  rewrite u32_small by lia. do 2 f_equal. lia.
Qed.

Lemma get_tod_spec us y k sec usec : 1970 <= y <= 2105 -> 0 <= k < year_length y ->
  0 <= sec < 86400 ->
  rtems_clock_get_tod us false true ((year_start y + k) * 86400 + sec) usec =
  Some (RTEMS_SUCCESSFUL, Some (tod_at us y k sec usec)).
Proof.
  intros Hy Hk Hs. unfold rtems_clock_get_tod. cbn [negb].
  set (n := year_start y + k).
  assert (Hq : (n * 86400 + sec) / 86400 = n) by (rewrite Z.div_add_l by lia; rewrite Z.div_small; lia).
  assert (Hr : (n * 86400 + sec) mod 86400 = sec) by (rewrite Z.add_comm, Z.mod_add by lia; by apply Z.mod_small).
  rewrite Hq, Hr. destruct (get_year y k Hy Hk) as (Hn & Hy0 & Hd). fold n in Hn, Hy0, Hd.
  cbv zeta. rewrite (u32_small n) by done. rewrite (u32_small (n / 365 + 1970)) by done.
  rewrite (u32_small sec) by lia. set (l := _Leap_years_between _ _) in *.
  pose proof (year_length_range y) as Hyl.
  pose proof (year_day_as_month_spec y k ltac:(lia) Hk) as Hmd.
  destruct (day_facts (leap y) k (month_day (leap y) k).1 (month_day (leap y) k).2)
    as (Hm & Hdd & _); [by unfold year_length in Hk|by destruct (month_day (leap y) k)|].
  assert (month_length' (leap y) (month_day (leap y) k).1 <= 31).
  { unfold month_length'. repeat case_match; lia. }
  destruct (n mod 365 <? l).
  - destruct Hd as [Ey Ed]. rewrite (u32_small (_ - 1)) by lia. rewrite Ey.
    replace (if _Leap_year y then u32 (u32 (n - l) mod 365 + 1) else u32 (n - l) mod 365) with k.
    2: { destruct (_Leap_year y); [rewrite u32_small by lia|]; lia. }
    rewrite Hmd. cbn [mbind option_bind]. unfold tod_at.
    by rewrite !(u32_small (_ - 1 + 1)), !Z.sub_add by lia.
  - destruct Hd as [Ey Ed]. rewrite Ey, Ed, Hmd. cbn [mbind option_bind]. unfold tod_at.
    by rewrite !(u32_small (_ - 1 + 1)), !Z.sub_add by lia.
Qed.

(** The sum of days, with the skipped day from 1 March 2100 on. *)
Lemma to_seconds_raw y k t : 1988 <= y <= 2105 -> 0 <= k < year_length y ->
  date_of t = (y, (month_day (leap y) k).1, (month_day (leap y) k).2) -> clock_ok t ->
  let skip := if (2100 <? y) || ((y =? 2100) && (3 <=? month t)) then 1 else 0 in
  let T := (year_start y - 6574 + k + skip) * 86400 + secs_of t in
  _TOD_To_seconds t =
  Some ((if 3539545200 <=? T then T - 86400 else T) + 567993600).
Proof.
  intros Hy Hk Hd (Hh & Hmi & Hs) skip T.
  destruct (month_day (leap y) k) as [m d] eqn:E. cbn [fst snd] in Hd. injection Hd as Ey Em Ed.
  destruct (day_facts (leap y) k m d) as (Hm & Hdd & Hrow & Hrow' & _); [by unfold year_length in Hk|done|].
  destruct (year_facts y) as (HL & _ & _ & _ & Hl & Hlo & Hhi & H65 & Hraw); [lia|].
  pose proof (Hraw ltac:(lia)) as Hr. unfold raw_year in Hr.
  destruct (_TOD_Days_since_last_leap_year !! Z.to_nat (Z.land y 3)) as [l|] eqn:El; [|done].
  cbn [mbind option_bind] in Hr. injection Hr as Hr.
  assert (Hdays : exists a, _TOD_Days_to_date (Z.land y 3 =? 0) !! Z.to_nat m = Some a /\
    a = k - (d - 1) + (if (y =? 2100) && (3 <=? m) then 1 else 0)).
  { destruct (Z.land y 3 =? 0) eqn:E4; cbn [andb] in Hl.
    - eexists. split; [exact Hrow'|]. rewrite Hl, negb_involutive. done.
    - rewrite Hl in Hrow. eexists. split; [exact Hrow|]. 
      assert (y <> 2100) by (intros ->; vm_compute in E4; done).
      destruct (Z.eqb_spec y 2100); [done|]. cbn [andb]. lia. }
  destruct Hdays as (a & Ha & Ea). pose proof (year_length_range y).
  assert (month_length' (leap y) m <= 31) by (unfold month_length'; repeat case_match; lia).
  assert (Hys : 0 <= year_start y - 6574 <= 42735) by (specialize (H65 ltac:(lia)); unfold year_start in *; lia).
  assert (Hlb : 0 <= l <= 1096).
  { assert (Hf : Forall (fun x => 0 <= x <= 1096) _TOD_Days_since_last_leap_year) by (repeat constructor; lia).
    by eapply Forall_lookup_1 in Hf. }
  assert (Hqb : 0 <= (y - 1988) / 4 < 30).
  { split; [apply Z.div_pos; lia|]. apply Z.div_lt_upper_bound; lia. }
  unfold _TOD_To_seconds. rewrite Ey, Em, Ed, Ha. cbn [mbind option_bind]. rewrite El. cbn [mbind option_bind].
  unfold TOD_BASE_YEAR, TOD_DAYS_PER_YEAR, TOD_SECONDS_PER_DAY, TOD_MINUTES_PER_HOUR,
    TOD_SECONDS_PER_MINUTE, TOD_SECONDS_AT_2100_03_01_00_00, TOD_SECONDS_1970_THROUGH_1988,
    TOD_SECONDS_PER_DAY. change (365 * 4 + 1) with 1461.
  assert (Hb : (if (y =? 2100) && (3 <=? m) then 1 else 0) + (if 2100 <? y then 1 else 0) = skip).
  { unfold skip. rewrite Em. destruct (Z.ltb_spec 2100 y); cbn [orb]; [|apply Z.add_0_r].
    destruct (Z.eqb_spec y 2100); [lia|]. done. }
  assert (Hsk : 0 <= skip <= 1) by (unfold skip; destruct (_ || _); lia).
  set (q := (y - 1988) / 4 * 1461) in *. assert (0 <= a <= 335).
  { assert (Hf : forall b, Forall (fun x => 0 <= x <= 335) (_TOD_Days_to_date b))
      by (intros []; repeat constructor; lia).
    exact (Forall_lookup_1 _ _ _ _ (Hf _) Ha). }
  rewrite (u32_small (d - 1)), (u32_small (d - 1 + a)), (u32_small (y - 1988)) by lia.
  fold q. rewrite (u32_small (d - 1 + a + q)), (u32_small (d - 1 + a + q + l)) by lia.
  assert (Hsum : d - 1 + a + q + l = year_start y - 6574 + k + skip) by lia. rewrite Hsum.
  set (D := year_start y - 6574 + k + skip) in *.
  rewrite (u32_small (D * 86400)), (u32_small (hour t * 60)), (u32_small (hour t * 60 + minute t)),
    (u32_small ((hour t * 60 + minute t) * 60)) by lia.
  assert (Hsecs : 0 <= secs_of t < 86400) by (unfold secs_of; lia).
  rewrite (u32_small (D * 86400 + _)) by lia.
  replace (D * 86400 + (hour t * 60 + minute t) * 60 + second t) with T by (unfold T, secs_of; lia).
  rewrite (u32_small T) by (unfold T; lia).
  change (4107538800 - _) with 3539545200. change ((1987 - 1970 + 1) * (365 * 86400) + 4 * 86400) with 567993600.
  destruct (Z.leb_spec 3539545200 T); rewrite ?(u32_small (T - 86400)), u32_small by (unfold T in *; lia); done.
Qed.

(** The hour in which the conversion is wrong: its constant for 1 March 2100
    is one hour early. *)
Definition bad_hour (t : rtems_time_of_day) : Prop := date_of t = (2100, 2, 28) /\ hour t = 23.

Lemma to_seconds_exact y k t : 1988 <= y <= 2105 -> 0 <= k < year_length y ->
  date_of t = (y, (month_day (leap y) k).1, (month_day (leap y) k).2) -> clock_ok t ->
  ~ bad_hour t ->
  _TOD_To_seconds t = Some ((year_start y + k) * 86400 + secs_of t).
Proof.
  intros Hy Hk Hd Hc Hbad. rewrite (to_seconds_raw y k) by done.
  assert (Hsecs : 0 <= secs_of t < 86400) by (destruct Hc; unfold secs_of; lia).
  destruct (year_facts y) as (_ & Es & _ & _ & _ & Hlo & Hhi & _); [lia|].
  destruct (day_facts (leap y) k (month_day (leap y) k).1 (month_day (leap y) k).2)
    as (_ & _ & _ & _ & Hm3); [by unfold year_length in Hk|by destruct (month_day (leap y) k)|].
  assert (Em : month t = (month_day (leap y) k).1) by (unfold date_of in Hd; congruence).
  rewrite <- Em in Hm3. pose proof (year_length_range y).
  destruct (Z.ltb_spec 2100 y) as [Hgt|Hle]; cbn [orb].
  { specialize (Hhi Hgt). case_bool; f_equal; lia. }
  destruct (Z.eqb_spec y 2100) as [->|Hne]; cbn [andb].
  - change (leap 2100) with false in *. change (year_start 2100) with 47482 in *.
    destruct (3 <=? month t) eqn:E3; symmetry in Hm3.
    + bool_hyps. case_bool; f_equal; lia.
    + bool_hyps. case_bool; f_equal; [|lia]. destruct Hbad.
      assert (k = 58) as -> by lia. unfold bad_hour. rewrite Hd. split; [done|].
      unfold secs_of, clock_ok in *. lia.
  - specialize (Hlo ltac:(lia)). case_bool; f_equal; lia.
Qed.

(** Every valid date is a day of its year. *)
Definition check_month (l : bool) (m : Z) : bool :=
  forallb (fun d => let k := default 0 (_TOD_Days_to_date l !! Z.to_nat m) + d - 1 in
    bool_decide (month_day l k = (m, d)) && (0 <=? k) && (k <? (if l then 366 else 365)))
    (seqZ 1 (month_length' l m)).

Lemma all_months : forallb (check_month true) (seqZ 1 12) && forallb (check_month false) (seqZ 1 12) = true.
Proof. vm_compute. reflexivity. Qed.

Lemma date_is_day y m d : 1 <= m <= 12 -> 1 <= d <= month_length y m ->
  exists k, 0 <= k < year_length y /\ month_day (leap y) k = (m, d).
Proof.
  intros Hm Hd. rewrite month_length_leap in Hd. unfold year_length.
  assert (Hc : check_month (leap y) m = true).
  { pose proof all_months as H. apply andb_true_iff in H as [H1 H2]. rewrite forallb_forall in H1, H2.
    destruct (leap y); [apply H1|apply H2]; rewrite <- list_elem_of_In, elem_of_seqZ; lia. }
  unfold check_month in Hc. rewrite forallb_forall in Hc. specialize (Hc d).
  rewrite <- list_elem_of_In, elem_of_seqZ in Hc. specialize (Hc ltac:(lia)). cbv zeta in Hc.
  eexists. rewrite !andb_true_iff in Hc. destruct Hc as [[H1 H2] H3].
  apply bool_decide_eq_true in H1. bool_hyps. split; [|exact H1]. lia.
Qed.

Lemma hms_digits sec : 0 <= sec < 86400 ->
  0 <= sec / 3600 < 24 /\ 0 <= (sec mod 3600) / 60 < 60 /\ 0 <= (sec mod 3600) mod 60 < 60 /\
  sec / 3600 * 3600 + (sec mod 3600) / 60 * 60 + (sec mod 3600) mod 60 = sec.
Proof.
  intros Hs. pose proof (Z.div_mod sec 3600 ltac:(lia)). pose proof (Z.mod_pos_bound sec 3600 ltac:(lia)).
  set (r := sec mod 3600) in *. pose proof (Z.div_mod r 60 ltac:(lia)).
  pose proof (Z.mod_pos_bound r 60 ltac:(lia)). lia.
Qed.

(** Reading the second and the microseconds of a time of day gives it back. *)
Lemma tod_at_exact us y k t : 0 < us ->
  date_of t = (y, (month_day (leap y) k).1, (month_day (leap y) k).2) -> clock_ok t -> 0 <= ticks t < 2 ^ 32 ->
  tod_at us y k (secs_of t) (ticks t * us) = t.
Proof.
  intros Hus Hd (Hh & Hmi & Hse) Ht. unfold tod_at. rewrite Z.div_mul by lia. rewrite u32_small by lia.
  assert (Hq : secs_of t / 3600 = hour t)
    by (symmetry; apply (Z.div_unique _ _ _ (minute t * 60 + second t)); unfold secs_of; lia).
  assert (Hr : secs_of t mod 3600 = minute t * 60 + second t)
    by (symmetry; apply (Z.mod_unique _ _ (hour t)); unfold secs_of; lia).
  rewrite Hq, Hr. rewrite <- (Z.div_unique (minute t * 60 + second t) 60 (minute t) (second t)) by lia.
  rewrite <- (Z.mod_unique (minute t * 60 + second t) 60 (minute t) (second t)) by lia.
  destruct t. injection Hd as -> -> ->. done.
Qed.

(** * Properties *)

(** C33. For every second from 1970 to the end of 2105, [rtems_clock_get_tod]
    succeeds, its year, month and day are those of the Gregorian calendar
    counted day by day from 1 January 1970, and its hour, minute and second
    are those of the second within the day. *)
Theorem clock_get_tod_calendar us s usec : 0 <= s < year_start 2106 * 86400 ->
  exists t, rtems_clock_get_tod us false true s usec = Some (RTEMS_SUCCESSFUL, Some t) /\
    date_of t = calendar (Z.to_nat (s / 86400)) /\
    clock_ok t /\ secs_of t = s mod 86400.
Proof.
  intros Hs. pose proof (Z.div_mod s 86400 ltac:(lia)) as E.
  pose proof (Z.mod_pos_bound s 86400 ltac:(lia)) as Hm.
  assert (Hq : 0 <= s / 86400 < year_start 2106)
    by (split; [apply Z.div_pos|apply Z.div_lt_upper_bound]; lia).
  change (year_start 2106) with 49673 in *.
  destruct (calendar_spec (Z.to_nat (s / 86400))) as (y & k & Hy & En & Hk & Hc).
  { change (year_start 2107) with 50038. lia. }
  rewrite Z2Nat.id in En by lia. rewrite Hc. exists (tod_at us y k (s mod 86400) usec).
  assert (Hy' : y <> 2106).
  { intros ->. change (year_start 2106) with 49673 in En. lia. }
  split_and!.
  - rewrite <- (get_tod_spec us y k (s mod 86400) usec) by (done || lia). f_equal. lia.
  - done.
  - destruct (hms_digits (s mod 86400) Hm) as (? & ? & ? & _).
    unfold clock_ok. cbn [hour minute second tod_at]. lia.
  - by destruct (hms_digits (s mod 86400) Hm) as (_ & _ & _ & ?).
Qed.

Lemma clock_get_tod_calendar_witness :
  exists t, rtems_clock_get_tod 10000 false true 951782400 0 = Some (RTEMS_SUCCESSFUL, Some t) /\
    date_of t = calendar (Z.to_nat (951782400 / 86400)) /\ clock_ok t /\ secs_of t = 951782400 mod 86400.
Proof.
  apply (clock_get_tod_calendar 10000 951782400 0). change (year_start 2106) with 49673. lia.
Defined.

(** 951782400 is 29 February 2000. *)
Example leap_day_2000 :
  option_map (fun x => option_map date_of (snd x)) (rtems_clock_get_tod 10000 false true 951782400 0)
  = Some (Some (2000, 2, 29)).
Proof. vm_compute. reflexivity. Qed.

(** C34. [_TOD_Validate] never reads outside its table and accepts exactly the
    dates of the Gregorian calendar from 1988 on with a time of day and a
    number of ticks in range. *)
Theorem tod_validate_exact us t : 0 < us -> unsigned t ->
  exists b, _TOD_Validate us (Some t) = Some b /\
    (b = true <-> date_ok (date_of t) /\ clock_ok t /\ ticks t < 1000000 / us).
Proof. apply validate_spec. Qed.

Definition sample_tod : rtems_time_of_day :=
  {| year := 2016; month := 2; day := 29; hour := 13; minute := 59; second := 1; ticks := 99 |}.

Lemma tod_validate_exact_witness :
  exists b, _TOD_Validate 10000 (Some sample_tod) = Some b /\
    (b = true <-> date_ok (date_of sample_tod) /\ clock_ok sample_tod /\ 99 < 1000000 / 10000).
Proof. apply (tod_validate_exact 10000 sample_tod); [lia|]. unfold unsigned. cbn. lia. Defined.

(** C32. Setting the clock and reading it back gives the same time of day: for
    a tick that divides the second, every valid time of day up to the end of
    2105, outside the last hour of 28 February 2100, is accepted by
    [rtems_clock_set], the timespec handed to the timecounter is valid, and
    [rtems_clock_get_tod] at that time returns it unchanged. *)
Theorem clock_set_get_roundtrip us tps t : 0 < us -> us * tps = 1000000 ->
  unsigned t -> _TOD_Validate us (Some t) = Some true -> year t <= 2105 -> ~ bad_hour t ->
  exists ts, rtems_clock_set us (Some t) = Some (RTEMS_SUCCESSFUL, Some ts) /\ valid ts /\
    rtems_clock_get_tod us false true (tv_sec ts) (tv_nsec ts / 1000)
    = Some (RTEMS_SUCCESSFUL, Some t).
Proof.
  intros Hus Hdiv Hu Hv Hy Hbad. destruct (validate_spec us t Hus Hu) as (b & Hv' & Hiff).
  assert (b = true) as Hb by congruence. apply Hiff in Hb as ((Hy0 & Hm & Hd) & Hc & Ht).
  unfold TOD_BASE_YEAR in Hy0.
  destruct (date_is_day (year t) (month t) (day t) Hm Hd) as (k & Hk & Ek).
  assert (Hdate : date_of t = (year t, (month_day (leap (year t)) k).1, (month_day (leap (year t)) k).2))
    by (by rewrite Ek).
  assert (Hs : 0 <= secs_of t < 86400) by (destruct Hc; unfold secs_of; lia).
  unfold rtems_clock_set. rewrite Hv. cbn [mbind option_bind].
  rewrite (to_seconds_exact (year t) k) by (done || lia). cbn [mbind option_bind].
  eexists. split; [reflexivity|]. cbn [tv_sec tv_nsec]. rewrite (nspt_spec us tps) by done.
  assert (Htps : 1000000 / us = tps) by (rewrite <- Hdiv, Z.mul_comm; apply Z.div_mul; lia).
  rewrite Htps in Ht. pose proof (tps_pos us tps Hus Hdiv) as Hpos.
  destruct Hu as (_ & _ & _ & _ & _ & _ & Hticks).
  assert (Htu : 0 <= ticks t * us < 1000000) by nia.
  rewrite u32_small by lia. split.
  - split; cbn; [|lia]. pose proof (year_length_range (year t)).
    destruct (year_facts (year t)) as (HL & _); [lia|]. unfold year_start. lia.
  - replace (ticks t * (us * 1000)) with (ticks t * us * 1000) by ring. rewrite Z.div_mul by lia.
    rewrite get_tod_spec by (done || lia). do 2 f_equal. f_equal. by apply tod_at_exact; [..|lia].
Qed.

Lemma clock_set_get_roundtrip_witness :
  exists ts, rtems_clock_set 10000 (Some sample_tod) = Some (RTEMS_SUCCESSFUL, Some ts) /\ valid ts /\
    rtems_clock_get_tod 10000 false true (tv_sec ts) (tv_nsec ts / 1000)
    = Some (RTEMS_SUCCESSFUL, Some sample_tod).
Proof.
  apply (clock_set_get_roundtrip 10000 100 sample_tod); [lia|lia|unfold unsigned; cbn; lia|
    reflexivity|cbn; lia|]. intros [H _]. discriminate H.
Defined.

(** Times of day of the last hour of 28 February 2100 and of the day before. *)
Definition late (d mi s tk : Z) : rtems_time_of_day :=
  {| year := 2100; month := 2; day := d; hour := 23; minute := mi; second := s; ticks := tk |}.

(** C38. The whole last hour of 28 February 2100 is converted to seconds one
    day early: for every minute, second and tick of it, with a tick that
    divides the second, the time of day is accepted as valid, but
    [_TOD_To_seconds] gives the second that it also gives for the same time on
    27 February, and [rtems_clock_get_tod] reads it as that time on 27
    February.  The right second is one day later: read back by
    [rtems_clock_get_tod] it gives the time of day on 28 February.  The
    constant for 1 March 2100 in the conversion is an hour too small. *)
Theorem tod_to_seconds_2100_wrong us tps mi s tk : 0 < us -> us * tps = 1000000 ->
  0 <= mi < 60 -> 0 <= s < 60 -> 0 <= tk < tps ->
  exists x, _TOD_Validate us (Some (late 28 mi s tk)) = Some true /\
    _TOD_To_seconds (late 28 mi s tk) = Some x /\ _TOD_To_seconds (late 27 mi s tk) = Some x /\
    rtems_clock_get_tod us false true x (tk * us) = Some (RTEMS_SUCCESSFUL, Some (late 27 mi s tk)) /\
    rtems_clock_get_tod us false true (x + 86400) (tk * us) = Some (RTEMS_SUCCESSFUL, Some (late 28 mi s tk)).
Proof.
  intros Hus Hdiv Hmi Hs Htk. exists (47539 * 86400 + (82800 + mi * 60 + s)).
  assert (Hc : forall d, clock_ok (late d mi s tk)) by (intros d; unfold clock_ok; cbn; lia).
  assert (Hsec : forall d, secs_of (late d mi s tk) = 82800 + mi * 60 + s) by (intros d; unfold secs_of; cbn; lia).
  assert (Htk' : 0 <= tk < 2 ^ 32) by nia.
  assert (Htps : 1000000 / us = tps) by (rewrite <- Hdiv, Z.mul_comm; apply Z.div_mul; lia).
  assert (Hread : forall k d, 0 <= k < year_length 2100 -> month_day (leap 2100) k = (2, d) ->
    rtems_clock_get_tod us false true ((year_start 2100 + k) * 86400 + (82800 + mi * 60 + s)) (tk * us)
    = Some (RTEMS_SUCCESSFUL, Some (late d mi s tk))).
  { intros k d Hk Ed. rewrite get_tod_spec by lia. rewrite <- (Hsec d). do 2 f_equal. f_equal.
    apply (tod_at_exact us 2100 k (late d mi s tk)); [done|by rewrite Ed|apply Hc|done]. }
  change (year_start 2100) with 47482 in Hread. split_and!.
  - destruct (validate_spec us (late 28 mi s tk) Hus) as (b & -> & Hb); [unfold unsigned; cbn; lia|].
    f_equal. apply Hb. split_and!; [vm_compute; split; [done|split; split; done]|apply Hc|cbn; lia].
  - rewrite (to_seconds_raw 2100 58) by (done || lia || apply Hc). rewrite Hsec.
    change (year_start 2100) with 47482. cbn. case_bool; f_equal; lia.
  - rewrite (to_seconds_raw 2100 57) by (done || lia || apply Hc). rewrite Hsec.
    change (year_start 2100) with 47482. cbn. case_bool; f_equal; lia.
  - apply (Hread 57 27); [vm_compute; split; done|reflexivity].
  - replace (_ + 86400) with ((47482 + 58) * 86400 + (82800 + mi * 60 + s)) by lia.
    apply (Hread 58 28); [vm_compute; split; done|reflexivity].
Qed.

Lemma tod_to_seconds_2100_wrong_witness :
  exists x, _TOD_Validate 10000 (Some (late 28 59 30 99)) = Some true /\
    _TOD_To_seconds (late 28 59 30 99) = Some x /\ _TOD_To_seconds (late 27 59 30 99) = Some x /\
    rtems_clock_get_tod 10000 false true x (99 * 10000) = Some (RTEMS_SUCCESSFUL, Some (late 27 59 30 99)) /\
    rtems_clock_get_tod 10000 false true (x + 86400) (99 * 10000)
    = Some (RTEMS_SUCCESSFUL, Some (late 28 59 30 99)).
Proof. apply (tod_to_seconds_2100_wrong 10000 100 59 30 99); lia. Defined.

(** The clock manager reports its errors without touching the buffer or
    the clock: a null buffer and an unset clock when reading; a null pointer
    and a time of day that is not valid when setting. *)
Theorem clock_errors us t s usec : 0 < us -> unsigned t ->
  rtems_clock_get_tod us true true s usec = Some (RTEMS_INVALID_ADDRESS, None) /\
  rtems_clock_get_tod us false false s usec = Some (RTEMS_NOT_DEFINED, None) /\
  rtems_clock_set us None = Some (RTEMS_INVALID_ADDRESS, None) /\
  (~ (date_ok (date_of t) /\ clock_ok t /\ ticks t < 1000000 / us) ->
   rtems_clock_set us (Some t) = Some (RTEMS_INVALID_CLOCK, None)).
Proof.
  intros Hus Hu. split_and!; [done..|]. intros Hn. destruct (validate_spec us t Hus Hu) as (b & E & Hb).
  unfold rtems_clock_set. rewrite E. cbn [mbind option_bind]. destruct b; [|done]. destruct Hn. by apply Hb.
Qed.

Lemma clock_errors_witness :
  let t := {| year := 2015; month := 2; day := 29; hour := 0; minute := 0; second := 0; ticks := 0 |} in
  rtems_clock_set 10000 (Some t) = Some (RTEMS_INVALID_CLOCK, None).
Proof.
  intros t. apply (clock_errors 10000 t 0 0); [lia|unfold unsigned; cbn; lia|].
  intros [(_ & _ & _ & Hd) _]. vm_compute in Hd. by apply Hd.
Defined.
End TimeOfDay.
