(* ===== verification/ThreadQueue.v ===== *)
(** Thread queues (score/threadq.h, score/threadqimpl.h, threadq.c,
    threadqops.c, threadqenqueue.c, threadqfirst.c, threadqflush.c,
    threadqtimeout.c) with what they use of the threads: the wait
    information, the priority aggregations and their propagation along the
    owners (score/threadimpl.h, threadchangepriority.c, threadtimeout.c).

    A thread queue holds the threads that wait for an object, in FIFO or
    priority order, or in priority order with priority inheritance by the
    owner of the object.  One processor: a queue has one priority queue, a
    thread one scheduler node, an action list at most one element, and the
    locks disable interrupts.

    The word memory holds the chains: the heads of the queues with their
    free chains, and the chain nodes of the waiting threads.  Red-black tree
    nodes, aggregations and the remaining structures are in stores indexed by
    their addresses; the members of the unions that overlay chains and trees
    are never live at the same time, because each use initializes them. *)

From S2P Require Import Prelude DList Chain RBTree Priority Scheduler.

Module ThreadQueue.
Import RBTree Priority Scheduler.

(** * Data *)

(** The scheduler node of a thread is part of the allocation of its control
    block, at an offset that depends on the configuration. *)
Class ThreadLayout := {
  home_node : Z -> Z;
  node_owner : Z -> Z;
  node_owner_home t : node_owner (home_node t) = t;
}.

(** The thread timers: a watchdog per thread, kept by another component with
    the state [T]. *)
Class ThreadTimers (T : Type) := {
  timer_add_ticks : Z -> Z -> M T unit;
  timer_remove : Z -> M T unit;
  timer_active : Z -> T -> bool;
}.

Inductive Status_Control :=
  | STATUS_BARRIER_AUTOMATICALLY_RELEASED
  | STATUS_DEADLOCK
  | STATUS_FLUSHED
  | STATUS_INCORRECT_STATE
  | STATUS_INTERRUPTED
  | STATUS_INVALID_NUMBER
  | STATUS_INVALID_PRIORITY
  | STATUS_MAXIMUM_COUNT_EXCEEDED
  | STATUS_MESSAGE_INVALID_SIZE
  | STATUS_MESSAGE_QUEUE_WAIT_IN_ISR
  | STATUS_MESSAGE_QUEUE_WAS_DELETED
  | STATUS_MINUS_ONE
  | STATUS_MUTEX_CEILING_VIOLATED
  | STATUS_NESTING_NOT_ALLOWED
  | STATUS_NO_MEMORY
  | STATUS_NOT_DEFINED
  | STATUS_NOT_OWNER
  | STATUS_OBJECT_WAS_DELETED
  | STATUS_RESOURCE_IN_USE
  | STATUS_RESULT_TOO_LARGE
  | STATUS_SUCCESSFUL
  | STATUS_TIMEOUT
  | STATUS_TOO_MANY
  | STATUS_UNAVAILABLE
  | STATUS_UNSATISFIED.

(** The tables of operations; their entries are selected below. *)
Inductive Thread_queue_Operations :=
  | Operations_default
  | Operations_FIFO
  | Operations_priority
  | Operations_priority_inherit.

Definition THREAD_WAIT_FLAGS_INITIAL : Z := 0.
Definition THREAD_WAIT_STATE_INTEND_TO_BLOCK : Z := 0x1.
Definition THREAD_WAIT_STATE_BLOCKED : Z := 0x2.
Definition THREAD_WAIT_STATE_READY_AGAIN : Z := 0x4.
Definition THREAD_WAIT_CLASS_MASK : Z := 0xff00.
Definition THREAD_WAIT_CLASS_OBJECT : Z := 0x400.

Definition THREAD_QUEUE_INTEND_TO_BLOCK : Z := Z.lor THREAD_WAIT_CLASS_OBJECT THREAD_WAIT_STATE_INTEND_TO_BLOCK.
Definition THREAD_QUEUE_BLOCKED : Z := Z.lor THREAD_WAIT_CLASS_OBJECT THREAD_WAIT_STATE_BLOCKED.
Definition THREAD_QUEUE_READY_AGAIN : Z := Z.lor THREAD_WAIT_CLASS_OBJECT THREAD_WAIT_STATE_READY_AGAIN.

Definition STATES_WAITING_FOR_MUTEX : Z := 0x1.
Definition STATES_WAITING_FOR_SEMAPHORE : Z := 0x2.
Definition STATES_WAITING_FOR_MESSAGE : Z := 0x10.
Definition STATES_WAITING_FOR_BARRIER : Z := 0x800.
(** The states that [_Thread_Unblock] clears. *)
Definition STATES_LOCALLY_BLOCKED : Z := 0x15cf3.
Definition STATES_BLOCKED : Z := 0x30015fff.

(** [Thread_Wait_information] *)
Record Thread_Wait_information := {
  wait_queue : Z;
  wait_operations : Thread_queue_Operations;
  wait_flags : Z;
  wait_return_code : Status_Control;
  spare_heads : Z;
}.

Record Thread_queue_Queue := {
  heads : Z;
  owner : Z;
}.

(** Offsets of the members of [Thread_queue_Heads]: the union of the FIFO
    and the priority queue, the free chain, the free node. *)
Definition FREE_CHAIN : Z := 72.
Definition FREE_NODE : Z := 96.

(** [Thread_queue_Context]: the state to wait in, the timeout of the enqueue
    callout, the action list and the threads whose priorities changed, at
    most two. *)
Record Thread_queue_Context := {
  thread_state : Z;
  timeout_ticks : option Z;
  Priority_Actions : Z;
  Priority_update : list Z;
}.

Definition set_actions (v : Z) (c : Thread_queue_Context) : Thread_queue_Context :=
  {| thread_state := thread_state c; timeout_ticks := timeout_ticks c; Priority_Actions := v;
     Priority_update := Priority_update c |}.
Definition set_updates (v : list Z) (c : Thread_queue_Context) : Thread_queue_Context :=
  {| thread_state := thread_state c; timeout_ticks := timeout_ticks c; Priority_Actions := Priority_Actions c;
     Priority_update := v |}.

(** The members of [CORE_barrier_Control] but its wait queue. *)
Inductive CORE_barrier_Disciplines :=
  | CORE_BARRIER_AUTOMATIC_RELEASE
  | CORE_BARRIER_MANUAL_RELEASE.

Record CORE_barrier_Attributes := {
  discipline : CORE_barrier_Disciplines;
  maximum_count : Z;
}.

Record CORE_barrier_Control := {
  Attributes : CORE_barrier_Attributes;
  number_of_waiting_threads : Z;
}.

(** The members of [CORE_message_queue_Control] but its wait queue and its
    chains, which are in memory. *)
Record CORE_message_queue_Control := {
  operations : Thread_queue_Operations;
  maximum_pending_messages : Z;
  number_of_pending_messages : Z;
  maximum_message_size : Z;
  message_buffers : Z;
}.

(** The members of [Thread_Wait_information] by which a call that blocks
    returns more than a status. *)
Record Thread_Wait_arguments := {
  wait_count : Z;
  return_argument : Z;
  return_argument_second : Z;
}.

(** Message queues, variables of type [size_t], arrays of bytes by their
    addresses, and the arguments of the threads. *)
Record messages := {
  ms_queue : gmap Z CORE_message_queue_Control;
  ms_size : gmap Z Z;
  ms_bytes : gmap Z (list Z);
  ms_arguments : gmap Z Thread_Wait_arguments;
}.

(** [k_prio] holds the priorities of the nodes that are not the node of a
    thread's aggregation, which is the [Wait_Priority] of the thread;
    [k_pq_node] the member [scheduler_node] of the priority queue of heads;
    [k_object] the count of a semaphore and [k_barrier] the members of a
    barrier, objects that start with a queue, [k_messages] what belongs to
    message queues; [k_disable_level] the thread dispatch disable level. *)
Record kernel (T : Type) := {
  k_sched : Scheduler.state;
  k_mem : mem;
  k_store : Priority.store;
  k_prio : gmap Z Z;
  k_wait : gmap Z Thread_Wait_information;
  k_queue : gmap Z Thread_queue_Queue;
  k_pq_node : gmap Z Z;
  k_object : gmap Z Z;
  k_barrier : gmap Z CORE_barrier_Control;
  k_messages : messages;
  k_disable_level : Z;
  k_timers : T;
}.
#[global] Arguments k_sched {T}.
#[global] Arguments k_mem {T}.
#[global] Arguments k_store {T}.
#[global] Arguments k_prio {T}.
#[global] Arguments k_wait {T}.
#[global] Arguments k_queue {T}.
#[global] Arguments k_pq_node {T}.
#[global] Arguments k_object {T}.
#[global] Arguments k_barrier {T}.
#[global] Arguments k_messages {T}.
#[global] Arguments k_disable_level {T}.
#[global] Arguments k_timers {T}.
#[global] Arguments Build_kernel {T}.

Section setters.
Context {T : Type}.
Implicit Type k : kernel T.
Definition with_sched v k := Build_kernel v (k_mem k) (k_store k) (k_prio k) (k_wait k) (k_queue k) (k_pq_node k) (k_object k) (k_barrier k) (k_messages k) (k_disable_level k) (k_timers k).
Definition with_mem v k := Build_kernel (k_sched k) v (k_store k) (k_prio k) (k_wait k) (k_queue k) (k_pq_node k) (k_object k) (k_barrier k) (k_messages k) (k_disable_level k) (k_timers k).
Definition with_store v k := Build_kernel (k_sched k) (k_mem k) v (k_prio k) (k_wait k) (k_queue k) (k_pq_node k) (k_object k) (k_barrier k) (k_messages k) (k_disable_level k) (k_timers k).
Definition with_prio v k := Build_kernel (k_sched k) (k_mem k) (k_store k) v (k_wait k) (k_queue k) (k_pq_node k) (k_object k) (k_barrier k) (k_messages k) (k_disable_level k) (k_timers k).
Definition with_wait v k := Build_kernel (k_sched k) (k_mem k) (k_store k) (k_prio k) v (k_queue k) (k_pq_node k) (k_object k) (k_barrier k) (k_messages k) (k_disable_level k) (k_timers k).
Definition with_queue v k := Build_kernel (k_sched k) (k_mem k) (k_store k) (k_prio k) (k_wait k) v (k_pq_node k) (k_object k) (k_barrier k) (k_messages k) (k_disable_level k) (k_timers k).
Definition with_pq_node v k := Build_kernel (k_sched k) (k_mem k) (k_store k) (k_prio k) (k_wait k) (k_queue k) v (k_object k) (k_barrier k) (k_messages k) (k_disable_level k) (k_timers k).
Definition with_object v k := Build_kernel (k_sched k) (k_mem k) (k_store k) (k_prio k) (k_wait k) (k_queue k) (k_pq_node k) v (k_barrier k) (k_messages k) (k_disable_level k) (k_timers k).
Definition with_barrier v k := Build_kernel (k_sched k) (k_mem k) (k_store k) (k_prio k) (k_wait k) (k_queue k) (k_pq_node k) (k_object k) v (k_messages k) (k_disable_level k) (k_timers k).
Definition with_messages v k := Build_kernel (k_sched k) (k_mem k) (k_store k) (k_prio k) (k_wait k) (k_queue k) (k_pq_node k) (k_object k) (k_barrier k) v (k_disable_level k) (k_timers k).
Definition with_disable_level v k := Build_kernel (k_sched k) (k_mem k) (k_store k) (k_prio k) (k_wait k) (k_queue k) (k_pq_node k) (k_object k) (k_barrier k) (k_messages k) v (k_timers k).
Definition with_timers (v : T) k := Build_kernel (k_sched k) (k_mem k) (k_store k) (k_prio k) (k_wait k) (k_queue k) (k_pq_node k) (k_object k) (k_barrier k) (k_messages k) (k_disable_level k) v.
End setters.

#[export, program] Instance kernel_HasMem T : HasMem (kernel T) := {| get_mem := k_mem; set_mem := with_mem |}.
Solve All Obligations with (by intros; repeat match goal with k : kernel _ |- _ => destruct k end).

(** ** The scheduler node of a thread *)

(** [Wait.Priority] follows the member [owner] of a [Scheduler_Node]. *)
Definition WAIT_PRIORITY : Z := 8.
Definition SCHEDULER_NODE_OF_WAIT_PRIORITY_NODE (n : Z) : Z := n - WAIT_PRIORITY.

Section layout.
Context {TL : ThreadLayout}.

Definition _Thread_Scheduler_get_home_node (the_thread : Z) : Z := home_node the_thread.
Definition _Scheduler_Node_get_owner (node : Z) : Z := node_owner node.

(** [&scheduler_node->Wait.Priority.Node] of a thread. *)
Definition wait_node (t : Z) : Z := _Thread_Scheduler_get_home_node t + WAIT_PRIORITY.

Lemma wait_node_owner t : _Scheduler_Node_get_owner (SCHEDULER_NODE_OF_WAIT_PRIORITY_NODE (wait_node t)) = t.
Proof.
  unfold wait_node, SCHEDULER_NODE_OF_WAIT_PRIORITY_NODE, _Scheduler_Node_get_owner, _Thread_Scheduler_get_home_node.
  rewrite Z.add_simpl_r. apply node_owner_home.
Qed.

#[export] Instance wait_node_inj : Inj (=) (=) wait_node.
Proof. intros t t' E. by rewrite <- (wait_node_owner t), E, wait_node_owner. Qed.

(** The thread whose wait node has the address [n]. *)
Definition thread_of_node (n : Z) : option Z :=
  let t := node_owner (n - WAIT_PRIORITY) in if n =? wait_node t then Some t else None.

Lemma thread_of_wait_node t : thread_of_node (wait_node t) = Some t.
Proof.
  unfold thread_of_node. pose proof (wait_node_owner t) as E. unfold _Scheduler_Node_get_owner, SCHEDULER_NODE_OF_WAIT_PRIORITY_NODE in E.
  rewrite E. by rewrite Z.eqb_refl.
Qed.

Lemma thread_of_node_Some n t : thread_of_node n = Some t -> n = wait_node t.
Proof. unfold thread_of_node. destruct (Z.eqb_spec n (wait_node (node_owner (n - WAIT_PRIORITY)))); [|done]. by intros [= <-]. Qed.

Context {T : Type}.

Definition set_Wait_Priority (p : Z) (th : Thread_Control) : Thread_Control :=
  set_priorities p (Priority_value th) (Priority_prepend_it th) th.

(** The control block whose aggregation has the node [n]. *)
Definition node_thread (k : kernel T) (n : Z) : option (Z * Thread_Control) :=
  t ← thread_of_node n; th ← threads (k_sched k) !! t; mret (t, th).

Definition kernel_get_prio (k : kernel T) (n : Z) : option Z :=
  match node_thread k n with
  | Some (_, th) => Some (Wait_Priority th)
  | None => k_prio k !! n
  end.

Definition kernel_set_prio (n p : Z) (k : kernel T) : kernel T :=
  match node_thread k n with
  | Some (t, th) =>
      with_sched (set_threads (<[t := set_Wait_Priority p th]> (threads (k_sched k))) (k_sched k)) k
  | None => with_prio (<[n := p]> (k_prio k)) k
  end.

#[export, program] Instance kernel_HasPriority : HasPriority (kernel T) := {|
  get_store := k_store;
  set_store := with_store;
  get_prio := kernel_get_prio;
  set_prio := kernel_set_prio |}.
Next Obligation. by intros t []. Qed.
Next Obligation. by intros t t' []. Qed.
Next Obligation. by intros []. Qed.
Next Obligation. done. Qed.
Next Obligation. intros n p k. cbv beta. unfold kernel_set_prio. by destruct (node_thread k n) as [[]|]. Qed.
Next Obligation.
  intros n p k _. cbv beta. unfold kernel_set_prio, kernel_get_prio, node_thread.
  destruct (thread_of_node n) as [t|]; cbn; [|by rewrite lookup_insert_eq].
  destruct (threads (k_sched k) !! t) as [th|] eqn:E; cbn; [by rewrite lookup_insert_eq|].
  rewrite E. cbn. by rewrite lookup_insert_eq.
Qed.
Next Obligation.
  intros n n' p k Hne. cbv beta. unfold kernel_set_prio, kernel_get_prio, node_thread.
  destruct (thread_of_node n) as [t|] eqn:En; cbn.
  - destruct (threads (k_sched k) !! t) as [th|] eqn:E; cbn.
    + destruct (thread_of_node n') as [t'|] eqn:En'; cbn; [|done].
      rewrite lookup_insert_ne; [done|]. intros <-. apply thread_of_node_Some in En, En'. congruence.
    + destruct (thread_of_node n') as [t'|]; cbn; [|by rewrite lookup_insert_ne].
      destruct (threads (k_sched k) !! t'); cbn; [done|by rewrite lookup_insert_ne].
  - destruct (thread_of_node n') as [t'|]; cbn; [|by rewrite lookup_insert_ne].
    destruct (threads (k_sched k) !! t'); cbn; [done|by rewrite lookup_insert_ne].
Qed.

End layout.

(** * Operations *)

Section operations.
Context {TL : ThreadLayout} {RB : RB_Macros} {T : Type} {TT : ThreadTimers T}.
Context (ops : Scheduler_Operations) (ticks_per_timeslice : Z).
Abbreviation K := (kernel T).

(** Calls of the scheduler and of the timers. *)
Definition on_sched {A} (m : M Scheduler.state A) : M K A := fun k =>
  match m (k_sched k) with
  | Some (a, s) => Some (a, with_sched s k)
  | None => None
  end.

Definition on_timers {A} (m : M T A) : M K A := fun k =>
  match m (k_timers k) with
  | Some (a, t) => Some (a, with_timers t k)
  | None => None
  end.

Definition get_wait (t : Z) : M K Thread_Wait_information := fun k =>
  match k_wait k !! t with
  | Some w => Some (w, k)
  | None => None
  end.

Definition put_wait (t : Z) (w : Thread_Wait_information) : M K unit :=
  modify (fun k => with_wait (<[t := w]> (k_wait k)) k).

Definition get_queue (q : Z) : M K Thread_queue_Queue := fun k =>
  match k_queue k !! q with
  | Some v => Some (v, k)
  | None => None
  end.

Definition put_queue (q : Z) (v : Thread_queue_Queue) : M K unit :=
  modify (fun k => with_queue (<[q := v]> (k_queue k)) k).

Definition set_heads (q h : Z) : M K unit :=
  v ← get_queue q; put_queue q {| heads := h; owner := owner v |}.
Definition set_owner (q t : Z) : M K unit :=
  v ← get_queue q; put_queue q {| heads := heads v; owner := t |}.

Definition set_spare_heads (t h : Z) : M K unit :=
  w ← get_wait t;
  put_wait t {| wait_queue := wait_queue w; wait_operations := wait_operations w; wait_flags := wait_flags w;
                wait_return_code := wait_return_code w; spare_heads := h |}.

Definition set_return_code (t : Z) (st : Status_Control) : M K unit :=
  w ← get_wait t;
  put_wait t {| wait_queue := wait_queue w; wait_operations := wait_operations w; wait_flags := wait_flags w;
                wait_return_code := st; spare_heads := spare_heads w |}.

(** [priority_queue->scheduler_node] *)
Definition set_pq_node (h node : Z) : M K unit := modify (fun k => with_pq_node (<[h := node]> (k_pq_node k)) k).
Definition get_pq_node (h : Z) : M K Z := fun k =>
  match k_pq_node k !! h with
  | Some v => Some (v, k)
  | None => None
  end.

(** ** Dispatching (score/threaddispatch.h, threaddispatch.c) *)

Definition _Thread_Dispatch_disable : M K unit :=
  modify (fun k => with_disable_level (u32 (k_disable_level k + 1)) k).

(** Dispatches, and enables dispatching for the thread that executes then. *)
Definition do_dispatch : M K unit :=
  on_sched (_Thread_Do_dispatch ticks_per_timeslice);;
  modify (with_disable_level 0).

Definition _Thread_Dispatch_enable : M K unit :=
  disable_level ← gets k_disable_level;
  if disable_level =? 1 then
    b ← gets (fun k => dispatch_necessary (k_sched k));
    if (b : bool) then do_dispatch
    else modify (with_disable_level 0)
  else modify (with_disable_level (u32 (disable_level - 1))).

Definition _Thread_Dispatch : M K unit :=
  b ← gets (fun k => dispatch_necessary (k_sched k));
  whenM b (modify (with_disable_level 1);; do_dispatch).

(** A disable level other than one is a fatal error. *)
Definition _Thread_Dispatch_direct : M K unit :=
  disable_level ← gets k_disable_level;
  if negb (disable_level =? 1) then fault else do_dispatch.

(** ** Thread wait information (score/threadimpl.h) *)

Definition _Thread_Wait_claim (the_thread queue : Z) : M K unit :=
  w ← get_wait the_thread;
  put_wait the_thread {| wait_queue := queue; wait_operations := wait_operations w; wait_flags := wait_flags w;
                         wait_return_code := wait_return_code w; spare_heads := spare_heads w |}.

Definition _Thread_Wait_claim_finalize (the_thread : Z) (operations : Thread_queue_Operations) : M K unit :=
  w ← get_wait the_thread;
  put_wait the_thread {| wait_queue := wait_queue w; wait_operations := operations; wait_flags := wait_flags w;
                         wait_return_code := wait_return_code w; spare_heads := spare_heads w |}.

Definition _Thread_Wait_restore_default (the_thread : Z) : M K unit :=
  w ← get_wait the_thread;
  put_wait the_thread {| wait_queue := NULL; wait_operations := Operations_default; wait_flags := wait_flags w;
                         wait_return_code := wait_return_code w; spare_heads := spare_heads w |}.

Definition _Thread_Wait_flags_set (the_thread flags : Z) : M K unit :=
  w ← get_wait the_thread;
  put_wait the_thread {| wait_queue := wait_queue w; wait_operations := wait_operations w; wait_flags := flags;
                         wait_return_code := wait_return_code w; spare_heads := spare_heads w |}.

Definition _Thread_Wait_flags_get (the_thread : Z) : M K Z := w ← get_wait the_thread; mret (wait_flags w).

Definition _Thread_Wait_flags_try_change_release (the_thread expected_flags desired_flags : Z) : M K bool :=
  flags ← _Thread_Wait_flags_get the_thread;
  let success := flags =? expected_flags in
  whenM success (_Thread_Wait_flags_set the_thread desired_flags);;
  mret success.

Definition _Thread_Wait_flags_try_change_acquire (the_thread expected_flags desired_flags : Z) : M K bool :=
  _Thread_Wait_flags_try_change_release the_thread expected_flags desired_flags.

Definition _Thread_Wait_get_status (the_thread : Z) : M K Status_Control :=
  w ← get_wait the_thread; mret (wait_return_code w).

Definition _Thread_Unblock (the_thread : Z) : M K unit :=
  on_sched (_Thread_Clear_state_locked ops the_thread STATES_BLOCKED);; mret tt.

Definition _Thread_Timer_remove (the_thread : Z) : M K unit := on_timers (timer_remove the_thread).

Definition _Thread_Remove_timer_and_unblock (the_thread : Z) : M K unit :=
  _Thread_Timer_remove the_thread;;
  _Thread_Unblock the_thread.

(** ** The context *)

Definition _Thread_queue_Context_clear_priority_updates (c : Thread_queue_Context) : Thread_queue_Context :=
  set_updates [] c.
Definition _Thread_queue_Context_save_priority_updates (c : Thread_queue_Context) : nat :=
  length (Priority_update c).
Definition _Thread_queue_Context_restore_priority_updates (update_count : nat) (c : Thread_queue_Context)
    : Thread_queue_Context := set_updates (take update_count (Priority_update c)) c.

(** A third thread would not fit in the array. *)
Definition _Thread_queue_Context_add_priority_update (the_thread : Z) (c : Thread_queue_Context)
    : M K Thread_queue_Context :=
  if decide (length (Priority_update c) < 2)%nat then mret (set_updates (Priority_update c ++ [the_thread]) c)
  else fault.

(** ** Priority actions of the queues (threadqops.c) *)

Definition _Thread_queue_Do_nothing_priority_actions (queue actions : Z) : M K Z :=
  mret _Priority_Actions_initialize_empty.

(** [heads->Heads.Priority.Queue] is at the address of the heads. *)
Definition _Thread_queue_Priority_queue (h : Z) : Z := h.

(** The loop runs once; the action is a change. *)
Definition _Thread_queue_Priority_priority_actions (queue actions : Z) : M K Z :=
  v ← get_queue queue;
  let '(priority_aggregation, actions) := _Priority_Actions_move actions in
  let priority_queue := _Thread_queue_Priority_queue (heads v) in
  _Priority_Plain_changed priority_queue priority_aggregation;;
  mret actions.

(** The handlers that turn a change of a priority queue into an action on
    the owner's aggregation. *)
Definition _Thread_queue_Priority_inherit_do_priority_actions_action (scheduler_node_of_owner : Z)
    (priority_action_type : Priority_Action_type) (priority_aggregation actions : Z) : M K Z :=
  _Priority_Set_action (scheduler_node_of_owner + WAIT_PRIORITY) priority_aggregation priority_action_type;;
  mret (_Priority_Actions_add actions (scheduler_node_of_owner + WAIT_PRIORITY)).

Definition _Thread_queue_Priority_inherit_do_priority_actions_change (scheduler_node_of_owner : Z)
    (priority_aggregation : Z) (prepend_it : bool) (actions : Z) : M K Z :=
  _Thread_queue_Priority_inherit_do_priority_actions_action scheduler_node_of_owner PRIORITY_ACTION_CHANGE
    priority_aggregation actions.

Definition _Thread_queue_Priority_inherit_priority_actions (queue actions : Z) : M K Z :=
  v ← get_queue queue;
  let '(priority_aggregation, actions) := _Priority_Actions_move actions in
  let priority_queue := _Thread_queue_Priority_queue (heads v) in
  let scheduler_node_of_owner := _Thread_Scheduler_get_home_node (owner v) in
  _Priority_Changed priority_queue priority_aggregation false actions
    (_Thread_queue_Priority_inherit_do_priority_actions_change scheduler_node_of_owner).

(** [( *operations->priority_actions )] *)
Definition operations_priority_actions (operations : Thread_queue_Operations) : Z -> Z -> M K Z :=
  match operations with
  | Operations_default | Operations_FIFO => _Thread_queue_Do_nothing_priority_actions
  | Operations_priority => _Thread_queue_Priority_priority_actions
  | Operations_priority_inherit => _Thread_queue_Priority_inherit_priority_actions
  end.

(** ** Changes of thread priorities (threadchangepriority.c) *)

Definition _Thread_Set_scheduler_node_priority (priority_aggregation : Z) (prepend_it : bool) : M K unit :=
  p ← _Priority_Get_priority priority_aggregation;
  on_sched (_Scheduler_Node_set_priority
    (_Scheduler_Node_get_owner (SCHEDULER_NODE_OF_WAIT_PRIORITY_NODE priority_aggregation)) p prepend_it).

Definition _Thread_Priority_action_change (priority_aggregation : Z) (prepend_it : bool) (c : Thread_queue_Context)
    : M K Thread_queue_Context :=
  _Thread_Set_scheduler_node_priority priority_aggregation prepend_it;;
  mret (set_actions (_Priority_Actions_add (Priority_Actions c) priority_aggregation) c).

Definition _Thread_Priority_do_perform_actions (the_thread queue : Z) (operations : Thread_queue_Operations)
    (prepend_it : bool) (c : Thread_queue_Context) : M K Thread_queue_Context :=
  let '(priority_aggregation, actions) := _Priority_Actions_move (Priority_Actions c) in
  let c := set_actions actions c in
  g ← get_aggr priority_aggregation;
  let priority_action_node := Action_node g in
  c ← match Action_type g with
      | PRIORITY_ACTION_ADD =>
          _Priority_Non_empty_insert priority_aggregation priority_action_node c _Thread_Priority_action_change
      | PRIORITY_ACTION_REMOVE =>
          _Priority_Extract_non_empty priority_aggregation priority_action_node c _Thread_Priority_action_change
      | _ => _Priority_Changed priority_aggregation priority_action_node prepend_it c _Thread_Priority_action_change
      end;
  if negb (_Priority_Actions_is_empty (Priority_Actions c)) then
    c ← _Thread_queue_Context_add_priority_update the_thread c;
    actions ← operations_priority_actions operations queue (Priority_Actions c);
    mret (set_actions actions c)
  else mret c.

Definition _Thread_Priority_perform_actions (start_of_path : Z) (c : Thread_queue_Context) : M K Thread_queue_Context :=
  let update_count := _Thread_queue_Context_save_priority_updates c in
  whileM (fun '((the_thread, c) : Z * Thread_queue_Context) =>
    w ← get_wait the_thread;
    let queue := wait_queue w in
    c ← _Thread_Priority_do_perform_actions the_thread queue (wait_operations w) false c;
    if _Priority_Actions_is_empty (Priority_Actions c) then mret (inr c)
    else
      v ← get_queue queue;
      mret (inl (owner v, _Thread_queue_Context_restore_priority_updates update_count c))) (start_of_path, c).

Definition _Thread_Priority_apply (the_thread priority_action_node : Z) (c : Thread_queue_Context) (prepend_it : bool)
    (priority_action_type : Priority_Action_type) : M K Thread_queue_Context :=
  let scheduler_node := _Thread_Scheduler_get_home_node the_thread in
  actions ← _Priority_Actions_initialize_one (scheduler_node + WAIT_PRIORITY) priority_action_node priority_action_type;
  let c := set_actions actions c in
  w ← get_wait the_thread;
  let queue := wait_queue w in
  c ← _Thread_Priority_do_perform_actions the_thread queue (wait_operations w) prepend_it c;
  if negb (_Priority_Actions_is_empty (Priority_Actions c)) then
    v ← get_queue queue;
    _Thread_Priority_perform_actions (owner v) c
  else mret c.

Definition _Thread_Priority_add (the_thread priority_node : Z) (c : Thread_queue_Context) : M K Thread_queue_Context :=
  _Thread_Priority_apply the_thread priority_node c false PRIORITY_ACTION_ADD.
Definition _Thread_Priority_remove (the_thread priority_node : Z) (c : Thread_queue_Context) : M K Thread_queue_Context :=
  _Thread_Priority_apply the_thread priority_node c true PRIORITY_ACTION_REMOVE.
Definition _Thread_Priority_changed (the_thread priority_node : Z) (prepend_it : bool) (c : Thread_queue_Context)
    : M K Thread_queue_Context :=
  _Thread_Priority_apply the_thread priority_node c prepend_it PRIORITY_ACTION_CHANGE.

Definition _Thread_Priority_change (the_thread priority_node new_priority : Z) (prepend_it : bool)
    (c : Thread_queue_Context) : M K Thread_queue_Context :=
  _Priority_Node_set_priority priority_node new_priority;;
  _Thread_Priority_changed the_thread priority_node prepend_it c.

Definition _Thread_Priority_replace (the_thread victim_node replacement_node : Z) : M K unit :=
  _Priority_Replace (_Thread_Scheduler_get_home_node the_thread + WAIT_PRIORITY) victim_node replacement_node.

Fixpoint priority_update_loop (ts : list Z) : M K unit :=
  match ts with
  | [] => mret tt
  | the_thread :: ts' => on_sched (_Scheduler_Update_priority ops the_thread);; priority_update_loop ts'
  end.

Definition _Thread_Priority_update (c : Thread_queue_Context) : M K unit := priority_update_loop (Priority_update c).

(** ** The queues (threadqops.c) *)

Abbreviation queue_action := (Z -> Z -> Thread_queue_Context -> Z -> M K Thread_queue_Context).

Definition _Thread_queue_Queue_enqueue (queue the_thread : Z) (c : Thread_queue_Context)
    (initialize enqueue : queue_action) : M K Thread_queue_Context :=
  v ← get_queue queue;
  w ← get_wait the_thread;
  let spare := spare_heads w in
  set_spare_heads the_thread NULL;;
  if heads v =? NULL then
    set_heads queue spare;;
    Chain._Chain_Prepend_unprotected (spare + FREE_CHAIN) (spare + FREE_NODE);;
    initialize queue the_thread c spare
  else
    Chain._Chain_Prepend_unprotected (heads v + FREE_CHAIN) (spare + FREE_NODE);;
    enqueue queue the_thread c (heads v).

Definition _Thread_queue_Queue_extract (queue h current_or_previous_owner : Z) (c : Thread_queue_Context) (the_thread : Z)
    (extract : Z -> Z -> Z -> Thread_queue_Context -> Z -> M K Thread_queue_Context) : M K Thread_queue_Context :=
  node ← Chain._Chain_Get_first_unprotected (h + FREE_CHAIN);
  set_spare_heads the_thread (node - FREE_NODE);;
  empty ← Chain._Chain_Is_empty (h + FREE_CHAIN);
  whenM empty (set_heads queue NULL);;
  extract queue h current_or_previous_owner c the_thread.

Definition _Thread_queue_FIFO_do_initialize (queue the_thread : Z) (c : Thread_queue_Context) (h : Z)
    : M K Thread_queue_Context :=
  let node := wait_node the_thread in
  Chain._Chain_Initialize_node node;;
  Chain._Chain_Initialize_one h node;;
  mret c.

Definition _Thread_queue_FIFO_do_enqueue (queue the_thread : Z) (c : Thread_queue_Context) (h : Z)
    : M K Thread_queue_Context :=
  let node := wait_node the_thread in
  Chain._Chain_Initialize_node node;;
  Chain._Chain_Append_unprotected h node;;
  mret c.

Definition _Thread_queue_FIFO_do_extract (queue h current_or_previous_owner : Z) (c : Thread_queue_Context)
    (the_thread : Z) : M K Thread_queue_Context :=
  Chain._Chain_Extract_unprotected (wait_node the_thread);;
  mret c.

Definition _Thread_queue_FIFO_enqueue (queue the_thread : Z) (c : Thread_queue_Context) : M K Thread_queue_Context :=
  _Thread_queue_Queue_enqueue queue the_thread c _Thread_queue_FIFO_do_initialize _Thread_queue_FIFO_do_enqueue.

Definition _Thread_queue_FIFO_extract (queue the_thread : Z) (c : Thread_queue_Context) : M K Thread_queue_Context :=
  v ← get_queue queue;
  _Thread_queue_Queue_extract queue (heads v) NULL c the_thread _Thread_queue_FIFO_do_extract.

Definition _Thread_queue_FIFO_first (h : Z) : M K Z :=
  first ← Chain._Chain_First h;
  mret (_Scheduler_Node_get_owner (SCHEDULER_NODE_OF_WAIT_PRIORITY_NODE first)).

Definition _Thread_queue_FIFO_surrender (queue h previous_owner : Z) (c : Thread_queue_Context)
    : M K (Z * Thread_queue_Context) :=
  first ← _Thread_queue_FIFO_first h;
  c ← _Thread_queue_Queue_extract queue h NULL c first _Thread_queue_FIFO_do_extract;
  mret (first, c).

Definition _Thread_queue_Priority_do_initialize (queue the_thread : Z) (c : Thread_queue_Context) (h : Z)
    : M K Thread_queue_Context :=
  _Priority_Initialize_one (_Thread_queue_Priority_queue h) (wait_node the_thread);;
  mret c.

Definition _Thread_queue_Priority_do_enqueue (queue the_thread : Z) (c : Thread_queue_Context) (h : Z)
    : M K Thread_queue_Context :=
  let node := wait_node the_thread in
  p ← _Priority_Get_priority node;
  _Priority_Plain_insert (_Thread_queue_Priority_queue h) node p;;
  mret c.

Definition _Thread_queue_Priority_do_extract (queue h current_or_previous_owner : Z) (c : Thread_queue_Context)
    (the_thread : Z) : M K Thread_queue_Context :=
  _Priority_Plain_extract (_Thread_queue_Priority_queue h) (wait_node the_thread);;
  mret c.

(** The rotation of several priority queues does nothing on one processor. *)
Definition _Thread_queue_Priority_do_surrender (queue h current_or_previous_owner : Z) (c : Thread_queue_Context)
    (the_thread : Z) : M K Thread_queue_Context :=
  _Thread_queue_Priority_do_extract queue h current_or_previous_owner c the_thread.

Definition _Thread_queue_Priority_enqueue (queue the_thread : Z) (c : Thread_queue_Context) : M K Thread_queue_Context :=
  _Thread_queue_Queue_enqueue queue the_thread c _Thread_queue_Priority_do_initialize _Thread_queue_Priority_do_enqueue.

Definition _Thread_queue_Priority_extract (queue the_thread : Z) (c : Thread_queue_Context) : M K Thread_queue_Context :=
  v ← get_queue queue;
  _Thread_queue_Queue_extract queue (heads v) NULL c the_thread _Thread_queue_Priority_do_extract.

Definition _Thread_queue_Priority_first (h : Z) : M K Z :=
  first ← _Priority_Get_minimum_node (_Thread_queue_Priority_queue h);
  mret (_Scheduler_Node_get_owner (SCHEDULER_NODE_OF_WAIT_PRIORITY_NODE first)).

Definition _Thread_queue_Priority_surrender (queue h previous_owner : Z) (c : Thread_queue_Context)
    : M K (Z * Thread_queue_Context) :=
  first ← _Thread_queue_Priority_first h;
  c ← _Thread_queue_Queue_extract queue h NULL c first _Thread_queue_Priority_do_surrender;
  mret (first, c).

(** *** Priority inheritance *)

Definition _Thread_queue_Priority_inherit_do_initialize (queue the_thread : Z) (c : Thread_queue_Context) (h : Z)
    : M K Thread_queue_Context :=
  v ← get_queue queue;
  let priority_queue := _Thread_queue_Priority_queue h in
  let scheduler_node_of_owner := _Thread_Scheduler_get_home_node (owner v) in
  set_pq_node h scheduler_node_of_owner;;
  _Priority_Initialize_one priority_queue (wait_node the_thread);;
  actions ← _Priority_Actions_initialize_one (scheduler_node_of_owner + WAIT_PRIORITY) priority_queue PRIORITY_ACTION_ADD;
  _Thread_Priority_perform_actions (owner v) (set_actions actions c).

Definition _Thread_queue_Priority_inherit_do_enqueue_change (queue : Z) (priority_aggregation : Z) (prepend_it : bool)
    (c : Thread_queue_Context) : M K Thread_queue_Context :=
  v ← get_queue queue;
  let scheduler_node_of_owner := _Thread_Scheduler_get_home_node (owner v) in
  actions ← _Priority_Actions_initialize_one (scheduler_node_of_owner + WAIT_PRIORITY) priority_aggregation
    PRIORITY_ACTION_CHANGE;
  _Thread_Priority_perform_actions (owner v) (set_actions actions c).

Definition _Thread_queue_Priority_inherit_do_enqueue (queue the_thread : Z) (c : Thread_queue_Context) (h : Z)
    : M K Thread_queue_Context :=
  _Priority_Non_empty_insert (_Thread_queue_Priority_queue h) (wait_node the_thread) c
    (_Thread_queue_Priority_inherit_do_enqueue_change queue).

Definition _Thread_queue_Priority_inherit_enqueue (queue the_thread : Z) (c : Thread_queue_Context)
    : M K Thread_queue_Context :=
  _Thread_queue_Queue_enqueue queue the_thread c _Thread_queue_Priority_inherit_do_initialize
    _Thread_queue_Priority_inherit_do_enqueue.

Definition _Thread_queue_Priority_inherit_do_extract_action (o : Z) (priority_action_type : Priority_Action_type)
    (priority_aggregation : Z) (c : Thread_queue_Context) : M K Thread_queue_Context :=
  let scheduler_node_of_owner := _Thread_Scheduler_get_home_node o in
  actions ← _Priority_Actions_initialize_one (scheduler_node_of_owner + WAIT_PRIORITY) priority_aggregation
    priority_action_type;
  _Thread_Priority_perform_actions o (set_actions actions c).

Definition _Thread_queue_Priority_inherit_do_extract_remove (o priority_aggregation : Z) (c : Thread_queue_Context)
    : M K Thread_queue_Context :=
  _Thread_queue_Priority_inherit_do_extract_action o PRIORITY_ACTION_REMOVE priority_aggregation c.

Definition _Thread_queue_Priority_inherit_do_extract_change (o priority_aggregation : Z) (prepend_it : bool)
    (c : Thread_queue_Context) : M K Thread_queue_Context :=
  _Thread_queue_Priority_inherit_do_extract_action o PRIORITY_ACTION_CHANGE priority_aggregation c.

Definition _Thread_queue_Priority_inherit_do_extract (queue h o : Z) (c : Thread_queue_Context) (the_thread : Z)
    : M K Thread_queue_Context :=
  _Priority_Extract (_Thread_queue_Priority_queue h) (wait_node the_thread) c
    (_Thread_queue_Priority_inherit_do_extract_remove o) (_Thread_queue_Priority_inherit_do_extract_change o).

Definition _Thread_queue_Priority_inherit_extract (queue the_thread : Z) (c : Thread_queue_Context)
    : M K Thread_queue_Context :=
  v ← get_queue queue;
  _Thread_queue_Queue_extract queue (heads v) (owner v) c the_thread _Thread_queue_Priority_inherit_do_extract.

(** The thread whose aggregation changed is to be updated by the scheduler. *)
Definition _Thread_queue_Priority_inherit_do_surrender_change (t : Z) (priority_aggregation : Z) (prepend_it : bool)
    (c : Thread_queue_Context) : M K Thread_queue_Context :=
  c ← _Thread_queue_Context_add_priority_update t c;
  p ← _Priority_Get_priority priority_aggregation;
  on_sched (_Scheduler_Node_set_priority
    (_Scheduler_Node_get_owner (SCHEDULER_NODE_OF_WAIT_PRIORITY_NODE priority_aggregation)) p prepend_it);;
  mret c.

Definition _Thread_queue_Priority_inherit_do_surrender (queue h previous_owner : Z) (c : Thread_queue_Context)
    (the_thread : Z) : M K Thread_queue_Context :=
  let scheduler_node := _Thread_Scheduler_get_home_node the_thread in
  let priority_queue := _Thread_queue_Priority_queue h in
  scheduler_node_of_owner ← get_pq_node h;
  c ← _Priority_Extract_non_empty (scheduler_node_of_owner + WAIT_PRIORITY) priority_queue c
        (_Thread_queue_Priority_inherit_do_surrender_change previous_owner);
  _Priority_Extract priority_queue (scheduler_node + WAIT_PRIORITY) tt _Priority_Remove_nothing _Priority_Change_nothing;;
  empty ← _Priority_Is_empty priority_queue;
  if negb empty then
    set_pq_node h scheduler_node;;
    _Priority_Non_empty_insert (scheduler_node + WAIT_PRIORITY) priority_queue c
      (_Thread_queue_Priority_inherit_do_surrender_change the_thread)
  else mret c.

Definition _Thread_queue_Priority_inherit_surrender (queue h previous_owner : Z) (c : Thread_queue_Context)
    : M K (Z * Thread_queue_Context) :=
  first ← _Thread_queue_Priority_first h;
  c ← _Thread_queue_Queue_extract queue h previous_owner c first _Thread_queue_Priority_inherit_do_surrender;
  mret (first, c).

(** *** The tables *)

(** The default operations have no entry to enqueue, surrender or look at
    threads; extracting does nothing. *)
Definition operations_enqueue (operations : Thread_queue_Operations)
    : Z -> Z -> Thread_queue_Context -> M K Thread_queue_Context :=
  match operations with
  | Operations_default => fun _ _ _ => fault
  | Operations_FIFO => _Thread_queue_FIFO_enqueue
  | Operations_priority => _Thread_queue_Priority_enqueue
  | Operations_priority_inherit => _Thread_queue_Priority_inherit_enqueue
  end.

Definition _Thread_queue_Do_nothing_extract (queue the_thread : Z) (c : Thread_queue_Context)
    : M K Thread_queue_Context := mret c.

Definition operations_extract (operations : Thread_queue_Operations)
    : Z -> Z -> Thread_queue_Context -> M K Thread_queue_Context :=
  match operations with
  | Operations_default => _Thread_queue_Do_nothing_extract
  | Operations_FIFO => _Thread_queue_FIFO_extract
  | Operations_priority => _Thread_queue_Priority_extract
  | Operations_priority_inherit => _Thread_queue_Priority_inherit_extract
  end.

Definition operations_surrender (operations : Thread_queue_Operations)
    : Z -> Z -> Z -> Thread_queue_Context -> M K (Z * Thread_queue_Context) :=
  match operations with
  | Operations_default => fun _ _ _ _ => fault
  | Operations_FIFO => _Thread_queue_FIFO_surrender
  | Operations_priority => _Thread_queue_Priority_surrender
  | Operations_priority_inherit => _Thread_queue_Priority_inherit_surrender
  end.

Definition operations_first (operations : Thread_queue_Operations) : Z -> M K Z :=
  match operations with
  | Operations_default => fun _ => fault
  | Operations_FIFO => _Thread_queue_FIFO_first
  | Operations_priority | Operations_priority_inherit => _Thread_queue_Priority_first
  end.

(** ** Blocking and unblocking (threadqenqueue.c) *)

Definition _Thread_queue_Heads_initialize (h : Z) : M K unit :=
  Chain._Chain_Initialize_empty (h + FREE_CHAIN);;
  Chain._Chain_Initialize_node (h + FREE_NODE).

Definition _Thread_queue_Queue_initialize (queue : Z) : M K unit := put_queue queue {| heads := NULL; owner := NULL |}.

Definition _Thread_queue_Is_empty (queue : Z) : M K bool := v ← get_queue queue; mret (heads v =? NULL).

Definition _Thread_queue_First_locked (the_thread_queue : Z) (operations : Thread_queue_Operations) : M K Z :=
  v ← get_queue the_thread_queue;
  if negb (heads v =? NULL) then operations_first operations (heads v) else mret NULL.

Definition _Thread_queue_First (the_thread_queue : Z) (operations : Thread_queue_Operations) : M K Z :=
  _Thread_queue_First_locked the_thread_queue operations.

(** Follows the owners and what they wait for; [false] is a deadlock. *)
Definition _Thread_queue_Path_acquire_critical (queue the_thread : Z) : M K bool :=
  whileM (fun queue =>
    v ← get_queue queue;
    if owner v =? NULL then mret (inr true)
    else if owner v =? the_thread then mret (inr false)
    else
      w ← get_wait (owner v);
      if negb (wait_queue w =? NULL) then mret (inl (wait_queue w)) else mret (inr true)) queue.

Definition _Thread_queue_Deadlock_status (the_thread : Z) : M K unit := set_return_code the_thread STATUS_DEADLOCK.

(** The enqueue callout: no timeout, or one in ticks (threadqtimeout.c). *)
Definition WATCHDOG_NO_TIMEOUT : Z := 0.

Definition _Thread_queue_Add_timeout_ticks (the_thread ticks : Z) : M K unit :=
  whenM (negb (ticks =? WATCHDOG_NO_TIMEOUT)) (on_timers (timer_add_ticks the_thread ticks)).

Definition enqueue_callout (the_thread : Z) (c : Thread_queue_Context) : M K unit :=
  match timeout_ticks c with
  | None => mret tt
  | Some ticks => _Thread_queue_Add_timeout_ticks the_thread ticks
  end.

(** Once the lock of the queue is released, interrupts may occur: before the
    callout starts the timer ([isr0]), before the blocking state is set
    ([isr1]) and before the wait flags are changed ([isr2]).  Thread
    dispatching is disabled during all three.  The deadlock callout sets the
    status. *)
Definition _Thread_queue_Enqueue (queue : Z) (operations : Thread_queue_Operations) (the_thread : Z)
    (c : Thread_queue_Context) (isr0 isr1 isr2 : M K unit) : M K unit :=
  _Thread_Wait_claim the_thread queue;;
  acquired ← _Thread_queue_Path_acquire_critical queue the_thread;
  if negb acquired then
    _Thread_Wait_restore_default the_thread;;
    _Thread_queue_Deadlock_status the_thread
  else
    let c := _Thread_queue_Context_clear_priority_updates c in
    _Thread_Wait_claim_finalize the_thread operations;;
    c ← operations_enqueue operations queue the_thread c;
    set_return_code the_thread STATUS_SUCCESSFUL;;
    _Thread_Wait_flags_set the_thread THREAD_QUEUE_INTEND_TO_BLOCK;;
    _Thread_Dispatch_disable;;
    isr0;;
    enqueue_callout the_thread c;;
    isr1;;
    on_sched (_Thread_Set_state_locked ops the_thread (thread_state c));;
    isr2;;
    success ← _Thread_Wait_flags_try_change_acquire the_thread THREAD_QUEUE_INTEND_TO_BLOCK THREAD_QUEUE_BLOCKED;
    whenM (negb success) (_Thread_Remove_timer_and_unblock the_thread);;
    _Thread_Priority_update c;;
    _Thread_Dispatch_direct.

Definition _Thread_queue_Make_ready_again (the_thread : Z) : M K bool :=
  success ← _Thread_Wait_flags_try_change_release the_thread THREAD_QUEUE_INTEND_TO_BLOCK THREAD_QUEUE_READY_AGAIN;
  unblock ← (if (success : bool) then mret false
             else _Thread_Wait_flags_set the_thread THREAD_QUEUE_READY_AGAIN;; mret true);
  _Thread_Wait_restore_default the_thread;;
  mret unblock.

Definition _Thread_queue_Extract_locked (queue : Z) (operations : Thread_queue_Operations) (the_thread : Z)
    (c : Thread_queue_Context) : M K (bool * Thread_queue_Context) :=
  c ← operations_extract operations queue the_thread c;
  unblock ← _Thread_queue_Make_ready_again the_thread;
  mret (unblock, c).

(** The lock of the queue is released before the thread is unblocked: [isr]
    are the interrupts in this window, with thread dispatching disabled. *)
Definition _Thread_queue_Unblock_critical (unblock : bool) (queue the_thread : Z) (isr : M K unit) : M K unit :=
  whenM unblock
    (_Thread_Dispatch_disable;;
     isr;;
     _Thread_Remove_timer_and_unblock the_thread;;
     _Thread_Dispatch_enable).

Definition _Thread_queue_Extract_critical (queue : Z) (operations : Thread_queue_Operations) (the_thread : Z)
    (c : Thread_queue_Context) (isr : M K unit) : M K Thread_queue_Context :=
  '(unblock, c) ← _Thread_queue_Extract_locked queue operations the_thread c;
  _Thread_queue_Unblock_critical unblock queue the_thread isr;;
  mret c.

Definition empty_context : Thread_queue_Context :=
  {| thread_state := 0; timeout_ticks := None; Priority_Actions := NULL; Priority_update := [] |}.

Definition _Thread_queue_Extract (the_thread : Z) (isr : M K unit) : M K unit :=
  w ← get_wait the_thread;
  let queue := wait_queue w in
  if negb (queue =? NULL) then
    '(unblock, _) ← _Thread_queue_Extract_locked queue (wait_operations w) the_thread empty_context;
    _Thread_queue_Unblock_critical unblock queue the_thread isr
  else mret tt.

Definition _Thread_queue_Surrender (queue h previous_owner : Z) (c : Thread_queue_Context)
    (operations : Thread_queue_Operations) (isr : M K unit) : M K unit :=
  let c := _Thread_queue_Context_clear_priority_updates c in
  '(new_owner, c) ← operations_surrender operations queue h previous_owner c;
  set_owner queue new_owner;;
  unblock ← _Thread_queue_Make_ready_again new_owner;
  _Thread_Dispatch_disable;;
  isr;;
  _Thread_Priority_update c;;
  whenM unblock (_Thread_Remove_timer_and_unblock new_owner);;
  _Thread_Dispatch_enable.

Definition _Thread_queue_Do_dequeue (the_thread_queue : Z) (operations : Thread_queue_Operations) (isr : M K unit) : M K Z :=
  the_thread ← _Thread_queue_First_locked the_thread_queue operations;
  if negb (the_thread =? NULL) then
    _Thread_queue_Extract_critical the_thread_queue operations the_thread empty_context isr;;
    mret the_thread
  else mret the_thread.

(** ** Flushing (threadqflush.c) *)

(** A filter may stop the flush by returning [NULL]. *)
Definition _Thread_queue_Flush_default_filter (the_thread : Z) : M K Z := mret the_thread.
Definition _Thread_queue_Flush_status_object_was_deleted (the_thread : Z) : M K Z :=
  set_return_code the_thread STATUS_OBJECT_WAS_DELETED;; mret the_thread.
Definition _Thread_queue_Flush_status_unavailable (the_thread : Z) : M K Z :=
  set_return_code the_thread STATUS_UNAVAILABLE;; mret the_thread.

(** The chain of the threads to unblock is on the stack, at [unblock]. *)
Definition flush_extract_loop (queue : Z) (operations : Thread_queue_Operations) (filter : Z -> M K Z) (unblock : Z)
    (c : Thread_queue_Context) : M K (Z * Thread_queue_Context) :=
  whileM (fun '((flushed, c) : Z * Thread_queue_Context) =>
    v ← get_queue queue;
    if heads v =? NULL then mret (inr (flushed, c))
    else
      first ← operations_first operations (heads v);
      first ← filter first;
      if first =? NULL then mret (inr (flushed, c))
      else
        let c := _Thread_queue_Context_clear_priority_updates c in
        '(do_unblock, c) ← _Thread_queue_Extract_locked queue operations first c;
        whenM do_unblock (Chain._Chain_Append_unprotected unblock (wait_node first));;
        mret (inl (u64 (flushed + 1), c))) (0, c).

(** The interrupts that may occur between the unblocking of two threads are
    taken to occur after the last one. *)
Definition flush_unblock_loop (tail node : Z) : M K unit :=
  whileM (fun node =>
    next ← Chain._Chain_Next node;
    let the_thread := _Scheduler_Node_get_owner (SCHEDULER_NODE_OF_WAIT_PRIORITY_NODE node) in
    _Thread_Remove_timer_and_unblock the_thread;;
    let node := next in
    if negb (node =? tail) then mret (inl node) else mret (inr tt)) node.

Definition _Thread_queue_Flush_critical (queue : Z) (operations : Thread_queue_Operations) (filter : Z -> M K Z)
    (c : Thread_queue_Context) (unblock : Z) : M K Z :=
  Chain._Chain_Initialize_empty unblock;;
  v ← get_queue queue;
  let o := owner v in
  '(flushed, c) ← flush_extract_loop queue operations filter unblock c;
  node ← Chain._Chain_First unblock;
  let tail := Chain._Chain_Tail unblock in
  whenM (negb (node =? tail))
    (_Thread_Dispatch_disable;;
     flush_unblock_loop tail node;;
     whenM (negb (o =? NULL)) (on_sched (_Scheduler_Update_priority ops o));;
     _Thread_Dispatch_enable);;
  mret flushed.

(** ** Timeouts (threadtimeout.c) *)

Definition _Thread_Wait_cancel (the_thread : Z) (c : Thread_queue_Context) : M K Thread_queue_Context :=
  w ← get_wait the_thread;
  c ← operations_extract (wait_operations w) (wait_queue w) the_thread c;
  _Thread_Wait_restore_default the_thread;;
  mret c.

Definition _Thread_Continue (the_thread : Z) (status : Status_Control) : M K unit :=
  flags ← _Thread_Wait_flags_get the_thread;
  '(unblock, c) ←
    (if Z.land flags THREAD_WAIT_STATE_READY_AGAIN =? 0 then
       c ← _Thread_Wait_cancel the_thread empty_context;
       set_return_code the_thread status;;
       let wait_class := Z.land flags THREAD_WAIT_CLASS_MASK in
       let ready_again := Z.lor wait_class THREAD_WAIT_STATE_READY_AGAIN in
       success ← _Thread_Wait_flags_try_change_release the_thread
                   (Z.lor wait_class THREAD_WAIT_STATE_INTEND_TO_BLOCK) ready_again;
       if (success : bool) then mret (false, c)
       else _Thread_Wait_flags_set the_thread ready_again;; mret (true, c)
     else mret (false, empty_context));
  _Thread_Priority_update c;;
  whenM unblock (_Thread_Unblock the_thread).

Definition _Thread_Timeout (the_thread : Z) : M K unit := _Thread_Continue the_thread STATUS_TIMEOUT.

End operations.

(** * Steps of the kernel *)

Section steps.
Context {T : Type}.
Abbreviation K := (kernel T).

Lemma wp_get_wait t w (Q : Thread_Wait_information -> K -> Prop) k : k_wait k !! t = Some w -> Q w k -> wp (get_wait t) Q k.
Proof. unfold wp, get_wait. by intros ->. Qed.

Lemma wp_get_queue q v (Q : Thread_queue_Queue -> K -> Prop) k : k_queue k !! q = Some v -> Q v k -> wp (get_queue q) Q k.
Proof. unfold wp, get_queue. by intros ->. Qed.

Lemma wp_on_sched {A} (m : M Scheduler.state A) (Q : A -> K -> Prop) k :
  wp m (fun r s => Q r (with_sched s k)) (k_sched k) -> wp (on_sched m) Q k.
Proof. unfold wp, on_sched. by destruct (m (k_sched k)) as [[]|]. Qed.

Lemma wp_on_timers {A} (m : M T A) (Q : A -> K -> Prop) k :
  wp m (fun r s => Q r (with_timers s k)) (k_timers k) -> wp (on_timers m) Q k.
Proof. unfold wp, on_timers. by destruct (m (k_timers k)) as [[]|]. Qed.
End steps.

End ThreadQueue.
