(* ===== verification/EDFJobs.v ===== *)
(** Jobs of the earliest deadline first scheduler
    (score/scheduleredfreleasejob.c, the job operations of
    score/schedulerimpl.h).

    A thread has a priority aggregation: the node of its own priority and one
    node for each job that was released and not yet cancelled, whose priority
    is the deadline.  The minimum of the aggregation is the priority of the
    thread, which the scheduler is told when it changes.  This file composes
    the trees of the aggregations, the tree of the ready threads and the
    operations on threads. *)

From S2P Require Import Prelude DList RBTree Chain Priority Scheduler SchedulerLaws SchedulerEDF ThreadQueue.

Module EDFJobs.
Import RBTree Priority Scheduler SchedulerLaws SchedulerEDF ThreadQueue.

(** * Operations *)

Section operations.
Context {TL : ThreadLayout} {RB : RB_Macros} {T : Type}.
Abbreviation K := (kernel T).

Definition _Scheduler_EDF_Release_job (the_thread priority_node deadline : Z) (c : Thread_queue_Context)
    : M K Thread_queue_Context :=
  _Priority_Node_set_priority priority_node deadline;;
  active ← _Priority_Node_is_active priority_node;
  if (active : bool) then _Thread_Priority_changed the_thread priority_node false c
  else _Thread_Priority_add the_thread priority_node c.

Definition _Scheduler_EDF_Cancel_job (the_thread priority_node : Z) (c : Thread_queue_Context)
    : M K Thread_queue_Context :=
  c ← _Thread_Priority_remove the_thread priority_node c;
  _Priority_Node_set_inactive priority_node;;
  mret c.

Definition _Scheduler_Release_job (the_thread priority_node deadline : Z) (c : Thread_queue_Context)
    : M K Thread_queue_Context :=
  _Scheduler_EDF_Release_job the_thread priority_node deadline (_Thread_queue_Context_clear_priority_updates c).

Definition _Scheduler_Cancel_job (the_thread priority_node : Z) (c : Thread_queue_Context)
    : M K Thread_queue_Context :=
  _Scheduler_EDF_Cancel_job the_thread priority_node (_Thread_queue_Context_clear_priority_updates c).

(** ** Programs *)

(** Each job operation is followed by the update of the priorities, as in
    ratemonperiod.c and ratemoncancel.c. *)
Inductive job_op :=
  | Release (t n deadline : Z)
  | Cancel (t n : Z)
  | Thread (o : thread_op).

Context (ticks_per_timeslice : Z).

Definition job_exec (o : job_op) : M K unit :=
  match o with
  | Release t n deadline =>
      c ← _Scheduler_Release_job t n deadline empty_context;
      _Thread_Priority_update SCHEDULER_EDF_ENTRY_POINTS c
  | Cancel t n =>
      c ← _Scheduler_Cancel_job t n empty_context;
      _Thread_Priority_update SCHEDULER_EDF_ENTRY_POINTS c
  | Thread o => on_sched (exec_op SCHEDULER_EDF_ENTRY_POINTS ticks_per_timeslice o)
  end.

Fixpoint job_run (os : list job_op) : M K unit :=
  match os with
  | [] => mret tt
  | o :: os' => job_exec o;; job_run os'
  end.
End operations.

(** * The abstract jobs *)

(** The nodes of each thread with their priorities, the most urgent first. *)
Definition jobs : Type := Z -> list (Z * Z).

Definition j_set (t : Z) (l : list (Z * Z)) (j : jobs) : jobs := fun t' => if decide (t' = t) then l else j t'.

Definition j_exec (o : job_op) (j : jobs) : jobs :=
  match o with
  | Release t n deadline => j_set t (spec_insert (n, deadline) (spec_remove n (j t))) j
  | Cancel t n => j_set t (spec_remove n (j t)) j
  | Thread _ => j
  end.

Definition j_run (os : list job_op) (j : jobs) : jobs := fold_left (fun j o => j_exec o j) os j.

(** * Changes of one aggregation *)

Section change.
Context {TL : ThreadLayout} {RB : RB_Macros} {T : Type}.
Abbreviation K := (kernel T).

(** [n] is not the node of the aggregation of a thread. *)
Definition plain (k : K) (n : Z) : Prop := node_thread k n = None.

Lemma get_prio_plain (k : K) n : plain k n -> get_prio k n = k_prio k !! n.
Proof. unfold plain. intros Hn. cbn. unfold kernel_get_prio. by rewrite Hn. Qed.

Lemma set_prio_plain (k : K) n p : plain k n -> set_prio n p k = with_prio (<[n := p]> (k_prio k)) k.
Proof. unfold plain. intros Hn. cbn. unfold kernel_set_prio. by rewrite Hn. Qed.

Lemma get_prio_wait (k : K) t th : threads (k_sched k) !! t = Some th -> get_prio k (wait_node t) = Some (Wait_Priority th).
Proof. intros Ht. cbn. unfold kernel_get_prio, node_thread. rewrite thread_of_wait_node. cbn. by rewrite Ht. Qed.

Lemma set_prio_wait (k : K) t th p : threads (k_sched k) !! t = Some th ->
  set_prio (wait_node t) p k = with_sched (upd t (set_Wait_Priority p th) (k_sched k)) k.
Proof. intros Ht. cbn. unfold kernel_set_prio, node_thread. rewrite thread_of_wait_node. cbn. by rewrite Ht. Qed.

Lemma plain_intro (k : K) n : (forall t, t ∈ dom (threads (k_sched k)) -> n <> wait_node t) -> plain k n.
Proof.
  intros H. unfold plain, node_thread. destruct (thread_of_node n) as [t|] eqn:E; [|done]. apply thread_of_node_Some in E.
  cbn. destruct (threads (k_sched k) !! t) eqn:Et; [|done]. apply elem_of_dom_2 in Et. by destruct (H t Et).
Qed.

(** The thread waits, if at all, on a queue that does not order its threads
    by priority. *)
Definition unordered (w : Thread_Wait_information) : Prop :=
  wait_operations w = Operations_default \/ wait_operations w = Operations_FIFO.

Lemma unordered_actions w q x : unordered w ->
  operations_priority_actions (T := T) (wait_operations w) q x = mret NULL.
Proof. by intros [->| ->]. Qed.

Section thread.
Context (t : Z) (th : Thread_Control) (w : Thread_Wait_information).
Abbreviation a := (wait_node t).

(** A change of the minimum reaches the scheduler node. *)
Lemma action_change_ok (k : K) p b c (Q : Thread_queue_Context -> K -> Prop) :
  threads (k_sched k) !! t = Some th ->
  Q (set_actions a c) (with_sched (upd t (set_priorities p p b th) (k_sched k)) k) ->
  wp (_Thread_Priority_action_change a b c) Q (set_prio a p k).
Proof.
  intros Ht HQ. rewrite (set_prio_wait k t th p Ht). set (k1 := with_sched _ k).
  assert (Ht1 : threads (k_sched k1) !! t = Some (set_Wait_Priority p th)) by apply lookup_insert_eq.
  assert (Hp : get_prio k1 a = Some p) by by rewrite (get_prio_wait k1 t _ Ht1).
  apply wp_bind, wp_bind, wp_node_priority; [by rewrite Hp|]. unfold prio. rewrite Hp. cbn [default from_option id].
  rewrite wait_node_owner. apply wp_on_sched, wp_bind. eapply wp_get_thread; [exact Ht1|]. apply wp_put_thread, wp_ret.
  replace (with_sched _ k1) with (with_sched (upd t (set_priorities p p b th) (k_sched k)) k); [exact HQ|].
  unfold k1, with_sched, upd, set_threads. cbn. by rewrite insert_insert_eq.
Qed.

(** How a change of the aggregation of [t] from the nodes [l] to [l'] moves
    the kernel; the thread is reported when its priority changed. *)
Definition aggr_moved (l l' : list Z) (c : Thread_queue_Context) (k : K) (c' : Thread_queue_Context) (k' : K) : Prop :=
  aggr_ok k' a l' /\ exists st,
    (forall b, b <> a -> p_aggrs st !! b = p_aggrs (k_store k) !! b) /\
    (forall x, x ∉ l -> x ∉ l' -> p_nodes st !! x = p_nodes (k_store k) !! x) /\
    (forall x, is_Some (p_nodes (k_store k) !! x) -> is_Some (p_nodes st !! x)) /\
    ((c' = c /\ k' = with_store st k) \/
     exists p b, c' = set_actions a c /\ k' = with_sched (upd t (set_priorities p p b th) (k_sched k)) (with_store st k)).

Lemma touch_moved l l0 l' c (k k' : K) : touch a l0 k k' -> l0 ⊆ l ++ l' -> aggr_ok k' a l' -> aggr_moved l l' c k c k'.
Proof.
  intros (st & -> & H1 & _ & H3 & H4) Hl Hok. split; [done|]. exists st. split_and!; [done| |done|by left].
  intros x Hx Hx'. apply H3. set_solver.
Qed.

Lemma touch_changed l l0 l' c (k k' : K) p b : threads (k_sched k) !! t = Some th -> touch a l0 k k' -> l0 ⊆ l ++ l' ->
  aggr_ok (set_prio a p k') a l' ->
  wp (_Thread_Priority_action_change a b c) (aggr_moved l l' c k) (set_prio a p k').
Proof.
  intros Ht (st & -> & H1 & _ & H3 & H4) Hl Hok. apply action_change_ok; [exact Ht|]. split.
  - apply (aggr_ok_frame (set_prio a p (set_store st k))); [by rewrite get_store_set_prio|by rewrite get_store_set_prio| |exact Hok].
    intros x _. rewrite (set_prio_wait _ t th) by done. cbn. unfold kernel_get_prio, node_thread.
    destruct (thread_of_node x) as [t'|]; [|done]. cbn. destruct (decide (t = t')) as [<-|Hne].
    + by rewrite !lookup_insert_eq.
    + by rewrite !lookup_insert_ne.
  - exists st. split_and!; [done|intros x Hx Hx'; apply H3; set_solver|done|right; eauto].
Qed.

(** The kernel and the context after [_Thread_Priority_apply]. *)
Definition applied (l l' : list Z) (k : K) (c' : Thread_queue_Context) (k' : K) : Prop :=
  aggr_ok k' a l' /\ exists st s', k' = with_sched s' (with_store st k) /\
    (forall b, b <> a -> p_aggrs st !! b = p_aggrs (k_store k) !! b) /\
    (forall x, x ∉ l -> x ∉ l' -> p_nodes st !! x = p_nodes (k_store k) !! x) /\
    (forall x, is_Some (p_nodes (k_store k) !! x) -> is_Some (p_nodes st !! x)) /\
    ((s' = k_sched k /\ Priority_update c' = []) \/
     exists p b, s' = upd t (set_priorities p p b th) (k_sched k) /\ Priority_update c' = [t]).

Definition action_body (n : Z) (b : bool) (type : Priority_Action_type) (c : Thread_queue_Context) : M K Thread_queue_Context :=
  match type with
  | PRIORITY_ACTION_ADD => _Priority_Non_empty_insert a n c _Thread_Priority_action_change
  | PRIORITY_ACTION_REMOVE => _Priority_Extract_non_empty a n c _Thread_Priority_action_change
  | _ => _Priority_Changed a n b c _Thread_Priority_action_change
  end.

Lemma apply_ok (k : K) n type b c l l' : threads (k_sched k) !! t = Some th -> k_wait k !! t = Some w -> unordered w ->
  a <> NULL -> is_Some (p_aggrs (k_store k) !! a) -> Priority_update c = [] ->
  (forall k1 c1 st1, k1 = with_store st1 k -> p_nodes st1 = p_nodes (k_store k) ->
    Contributors <$> p_aggrs st1 !! a = Contributors <$> p_aggrs (k_store k) !! a ->
    wp (action_body n b type c1) (aggr_moved l l' c1 k1) k1) ->
  wp (_Thread_Priority_apply t n c b type) (applied l l' k) k.
Proof.
  intros Ht Hw Hun Hnull [g Hg] Hc Hbody. unfold _Thread_Priority_apply. cbv zeta. fold (wait_node t).
  apply wp_bind, wp_bind, wp_bind. unfold get_aggr at 1, wp at 1. cbn [get_store kernel_HasPriority]. rewrite Hg.
  apply wp_modify, wp_ret. set (k1 := set_store _ k). set (g1 := {| Contributors := _ |}) in k1.
  apply wp_bind. eapply wp_get_wait; [exact Hw|]. apply wp_bind. unfold _Thread_Priority_do_perform_actions.
  cbn [_Priority_Actions_move Priority_Actions set_actions]. apply wp_bind.
  assert (Hg1 : p_aggrs (k_store k1) !! a = Some g1) by apply lookup_insert_eq.
  unfold get_aggr, wp at 1. cbn [get_store kernel_HasPriority]. rewrite Hg1. cbv beta iota. cbn [Action_type Action_node g1].
  set (c1 := set_actions NULL (set_actions a c)). change (match type with
    | PRIORITY_ACTION_ADD => _ | PRIORITY_ACTION_REMOVE => _ | _ => _ end) with (action_body n b type c1).
  apply wp_bind. eapply wp_mono; [eapply (Hbody k1 c1); [reflexivity|done|]|].
  { cbn. by rewrite lookup_insert_eq, Hg. }
  intros c2 k2 (Hok & st & H1 & H2 & H3 & Hcase).
  assert (H1' : forall b, b <> a -> p_aggrs st !! b = p_aggrs (k_store k) !! b).
  { intros b' Hb'. rewrite H1 by done. cbn. by rewrite lookup_insert_ne. }
  destruct Hcase as [[-> ->]|(p & b' & -> & ->)].
  - cbn [Priority_Actions c1 set_actions]. change (_Priority_Actions_is_empty NULL) with true. cbn [negb].
    apply wp_ret. cbn [Priority_Actions c1 set_actions]. change (_Priority_Actions_is_empty NULL) with true. cbn [negb].
    apply wp_ret. split; [done|]. exists st, (k_sched k). split_and!; try done. by left.
  - cbn [Priority_Actions c1 set_actions]. unfold _Priority_Actions_is_empty. apply Z.eqb_neq in Hnull as ->. cbn [negb].
    unfold _Thread_queue_Context_add_priority_update. cbn [Priority_update c1 set_actions]. rewrite Hc, decide_True by (cbn; lia).
    apply wp_bind, wp_ret, wp_bind. rewrite unordered_actions by done. apply wp_ret, wp_ret.
    cbn [Priority_Actions set_actions]. cbn [Z.eqb NULL negb]. apply wp_ret.
    split; [done|]. exists st, (upd t (set_priorities p p b' th) (k_sched k)). split_and!; try done. right. by exists p, b'.
Qed.

Context (Hun : unordered w) (Hnull : a <> NULL).

(** Storing the action in the aggregation keeps its contributors. *)
Lemma action_stored (k : K) l st1 : p_nodes st1 = p_nodes (k_store k) ->
  Contributors <$> p_aggrs st1 !! a = Contributors <$> p_aggrs (k_store k) !! a ->
  aggr_ok k a l -> aggr_ok (with_store st1 k) a l.
Proof. intros En Ea. apply aggr_ok_frame; [exact Ea|by intros n _; cbn; rewrite En|done]. Qed.

Lemma priority_add_ok (k : K) n c l : threads (k_sched k) !! t = Some th -> k_wait k !! t = Some w ->
  Priority_update c = [] -> aggr_ok k a l -> l <> [] -> addable k a l n ->
  wp (_Thread_Priority_add t n c) (applied l (with_node k n l) k) k.
Proof.
  intros Ht Hw Hc Hok Hne Hadd. pose proof (as_aggr _ _ _ (proj1 (proj1 Hok))) as Ha.
  apply apply_ok; [done..|]. intros k1 c1 st1 -> En Ea. pose proof (action_stored k l st1 En Ea Hok) as Hok1.
  assert (Hadd1 : addable (with_store st1 k) a l n).
  { destruct Hadd as (? & ? & ? & ? & ?). split_and!; try done; try lia. cbn. by rewrite En. }
  assert (Hl : with_node k n l ⊆ l ++ with_node k n l) by set_solver.
  eapply non_empty_insert_spec; [exact Hok1|exact Hne|exact Hadd1|..].
  - intros k' Hok' Htc _. by eapply touch_moved.
  - intros k' k'' Hok' Htc _. by eapply touch_changed.
Qed.

Lemma priority_remove_ok (k : K) n c l : threads (k_sched k) !! t = Some th -> k_wait k !! t = Some w ->
  Priority_update c = [] -> aggr_ok k a l -> n ∈ l -> without_node n l <> [] ->
  wp (_Thread_Priority_remove t n c) (applied l (without_node n l) k) k.
Proof.
  intros Ht Hw Hc Hok Hn Hne. pose proof (as_aggr _ _ _ (proj1 (proj1 Hok))) as Ha.
  apply apply_ok; [done..|]. intros k1 c1 st1 -> En Ea. pose proof (action_stored k l st1 En Ea Hok) as Hok1.
  eapply extract_non_empty_spec; [exact Hok1|exact Hn|exact Hne|..].
  - intros k' m Hok' Htc _ _. eapply touch_moved; [exact Htc|set_solver|done].
  - intros k' m k'' Hok' Htc _ _. eapply touch_changed; [exact Ht|exact Htc|set_solver|done].
Qed.

Lemma priority_changed_ok (k0 : K) n d b c l : let k := set_prio n d k0 in plain k0 n ->
  threads (k_sched k0) !! t = Some th -> k_wait k0 !! t = Some w ->
  Priority_update c = [] -> aggr_ok k0 a l -> n ∈ l ->
  wp (_Thread_Priority_changed t n b c) (applied l (with_node k n (without_node n l)) k) k.
Proof.
  intros k Hpl Ht Hw Hc Hok Hn. pose proof (as_aggr _ _ _ (proj1 (proj1 Hok))) as Ha.
  assert (Ek : k = with_prio (<[n := d]> (k_prio k0)) k0) by by apply set_prio_plain. clearbody k.
  apply apply_ok; [by rewrite Ek|by rewrite Ek|done|done|by rewrite Ek|done|]. intros k1 c1 st1 -> En Ea.
  assert (E1 : with_store st1 k = set_prio n d (with_store st1 k0)) by (by rewrite Ek, set_prio_plain).
  rewrite Ek in En, Ea. pose proof (action_stored k0 l st1 En Ea Hok) as Hok1.
  assert (Hl : l ⊆ l ++ with_node k n (without_node n l)) by set_solver.
  rewrite E1. cbn [action_body].
  eapply changed_spec; [exact Hok1|exact Hn|..]; rewrite <- E1.
  - intros k' m Hok' Htc _ _. by eapply touch_moved.
  - intros k' m k'' Hok' Htc _ _. eapply touch_changed; [by rewrite Ek|exact Htc|exact Hl|exact Hok'].
Qed.
End thread.
End change.

(** * The jobs of all threads *)

Lemma head_fst (l : list (Z * Z)) x : x ∈ l.*1 -> exists m r, (m, r) ∈ l /\ head l.*1 = Some m.
Proof. destruct l as [|[m r] l]; [by intros ?%not_elem_of_nil|]. intros _. exists m, r. split; [left|done]. Qed.

Section jobs.
Context {TL : ThreadLayout} {RB : RB_Macros} {T : Type}.
Context (D : gset Z) (own : Z -> Z) (N : Z -> gset Z) (ticks_per_timeslice idle : Z).
Abbreviation K := (kernel T).
Abbreviation ops := SCHEDULER_EDF_ENTRY_POINTS.
Abbreviation wf := (wf ops edf_priorities idle).

(** The node [n] belongs to the thread [t]: it is the one of its own
    priority, or one for jobs. *)
Definition belongs (t n : Z) : Prop := n = own t \/ n ∈ N t.

Record job_layout : Prop := {
  jl_null t : t ∈ D -> wait_node t <> NULL;
  jl_node t n : t ∈ D -> belongs t n -> (forall t', t' ∈ D -> n <> wait_node t') /\ 0 < n < 2 ^ 64;
  jl_own t : t ∈ D -> own t ∉ N t;
  jl_apart t t' n : t ∈ D -> t' ∈ D -> belongs t n -> belongs t' n -> t = t';
}.
Context (Hly : job_layout).

Lemma layout_plain (k : K) t n : dom (threads (k_sched k)) = D -> t ∈ D -> belongs t n -> plain k n.
Proof. intros Hd Ht Hn. apply plain_intro. rewrite Hd. by apply (jl_node Hly t n Ht Hn). Qed.

(** The aggregations hold the jobs [j]; the nodes of other jobs, but for [x],
    are marked inactive. *)
Record nodes_ok (x : Z) (k : K) (j : jobs) : Prop := {
  jn_dom : dom (threads (k_sched k)) = D;
  jn_wait t : t ∈ D -> exists w, k_wait k !! t = Some w /\ unordered w;
  jn_aggr t : t ∈ D -> aggr_ok k (wait_node t) (j t).*1;
  jn_prio t n p : t ∈ D -> (n, p) ∈ j t -> k_prio k !! n = Some p /\ edf_priorities p;
  jn_in t n : t ∈ D -> n ∈ (j t).*1 -> belongs t n;
  jn_own t : t ∈ D -> own t ∈ (j t).*1;
  jn_free t n : t ∈ D -> n ∈ N t -> is_Some (k_prio k !! n) /\
    exists nd, p_nodes (k_store k) !! n = Some nd /\ (n ∉ (j t).*1 -> n <> x -> rbe_color nd = -1);
}.

Definition jobs_inv (k : K) (j : jobs) : Prop := nodes_ok NULL k j /\ exists q, wf (k_sched k) q.

Lemma prio_of_waits (k : K) s' n : Wait_Priority <$> threads s' = Wait_Priority <$> threads (k_sched k) ->
  get_prio (with_sched s' k) n = get_prio k n.
Proof.
  intros E. cbn. unfold kernel_get_prio, node_thread. destruct (thread_of_node n) as [t|]; [|done]. cbn.
  apply (f_equal (.!! t)) in E. rewrite !lookup_fmap in E.
  destruct (threads s' !! t), (threads (k_sched k) !! t); try discriminate E; [|done].
  cbn in E |- *. by injection E as ->.
Qed.

(** Only the priorities of the threads matter. *)
Lemma nodes_ok_sched x k j s' : Wait_Priority <$> threads s' = Wait_Priority <$> threads (k_sched k) ->
  nodes_ok x k j -> nodes_ok x (with_sched s' k) j.
Proof.
  intros E [H1 H2 H3 H4 H5 H6 H7]. split; try done.
  - cbn. by rewrite <- (dom_fmap_L Wait_Priority), E, dom_fmap_L.
  - intros t Ht. apply (aggr_ok_ext k); [done| |by apply H3]. intros n. by apply prio_of_waits.
Qed.

(** ** Telling the scheduler *)

(** The scheduler knows all priorities but that of [t], if the context says so. *)
Definition pending (t : Z) (s : state) (c : Thread_queue_Context) : Prop :=
  (Priority_update c = [] /\ exists q, wf s q) \/
  (Priority_update c = [t] /\ exists s0 q p b th, wf s0 q /\ threads s0 !! t = Some th /\ edf_priorities p /\
     s = upd t (set_priorities p p b th) s0).

Lemma priority_update_ok x k j t c : nodes_ok x k j -> pending t (k_sched k) c ->
  wp (_Thread_Priority_update ops c) (fun _ k' => nodes_ok x k' j /\ k_store k' = k_store k /\ exists q, wf (k_sched k') q) k.
Proof.
  intros Hn [[Hc Hq]|[Hc (s0 & q & p & b & th & Hwf & Ht & Hp & Es)]]; unfold _Thread_Priority_update; rewrite Hc;
    cbn [priority_update_loop]; [by apply wp_ret|].
  assert (Hl : legal edf_priorities idle (dom (threads s0)) (set_priority t p b)) by (split; [by eapply elem_of_dom_2|done]).
  pose proof (set_priority_ok ops edf_priorities ticks_per_timeslice idle s0 q t p b Hwf Hl) as Hw. cbn [exec_op] in Hw.
  destruct (proj1 (wp_run _ _ _) (set_node_priority_spec s0 t th p b Ht)) as ([] & s1 & E1 & ->).
  unfold mbind, M_bind, wp at 1 in Hw. rewrite E1, <- Es in Hw. apply wp_bind, wp_on_sched. apply wp_mono with (1 := Hw).
  intros [] s' (q' & _ & Hwf' & _ & Hwt). apply wp_ret. split_and!; [|done|by exists q'].
  apply nodes_ok_sched; [|done]. cbn in Hwt. rewrite Hwt, Es. symmetry. apply fmap_insert.
Qed.

(** ** A change of one aggregation *)

Section applied.
Context (k0 : K) (j : jobs) (t n : Z) (th : Thread_Control) (pr : gmap Z Z) (l2 : list (Z * Z)).
Context (c' : Thread_queue_Context) (k' : K).
Context (Hinv : jobs_inv k0 j) (HtD : t ∈ D) (Hn : n ∈ N t) (Hth : threads (k_sched k0) !! t = Some th).
Context (Hpr : forall m, m <> n -> pr !! m = k_prio k0 !! m) (Hprn : is_Some (pr !! n)).
Context (Hap : applied t th (j t).*1 l2.*1 (with_prio pr k0) c' k').
Context (Hl2 : forall m p, (m, p) ∈ l2 -> pr !! m = Some p /\ edf_priorities p) (Hown : own t ∈ l2.*1).
Context (Hsub : forall m, m ∈ l2.*1 -> m = n \/ m ∈ (j t).*1) (Hsup : forall m, m <> n -> m ∈ (j t).*1 -> m ∈ l2.*1).

Lemma applied_belongs m : m ∈ (j t).*1 \/ m ∈ l2.*1 -> belongs t m.
Proof.
  intros Hm. assert (m = n \/ m ∈ (j t).*1) as [->|Hm'] by (destruct Hm; auto); [by right|].
  by eapply jn_in; [apply Hinv|..].
Qed.

(** The nodes of other threads are not touched. *)
Lemma applied_other t' m : t' ∈ D -> t' <> t -> belongs t' m ->
  (m ∉ (j t).*1) /\ (m ∉ l2.*1) /\ m <> n.
Proof.
  intros Ht' Hne Hm. assert (Hno : forall m', m' = m -> ~ belongs t m').
  { intros m' -> Hm'. apply Hne. by eapply jl_apart. }
  split_and!; [intros H|intros H|intros ->].
  - eapply Hno; [reflexivity|]. apply applied_belongs. by left.
  - eapply Hno; [reflexivity|]. apply applied_belongs. by right.
  - eapply Hno; [reflexivity|]. by right.
Qed.

Lemma applied_nodes : nodes_ok n k' (j_set t l2 j).
Proof.
  destruct Hinv as [[H1 H2 H3 H4 H5 H6 H7] _]. destruct Hap as (Hok & st & s' & Ek & A1 & A2 & A3 & A4).
  cbn in A1, A2, A3, A4.
  assert (Hs' : forall t', t' <> t -> threads s' !! t' = threads (k_sched k0) !! t').
  { intros t' Hne. destruct A4 as [[-> _]|(p & b & -> & _)]; [done|]. cbn. by rewrite lookup_insert_ne. }
  assert (Hd' : dom (threads s') = D).
  { rewrite <- H1. destruct A4 as [[-> _]|(p & b & -> & _)]; [done|]. by eapply upd_dom. }
  assert (Hset : forall t', j_set t l2 j t' = if decide (t' = t) then l2 else j t') by done.
  split.
  - by rewrite Ek.
  - rewrite Ek. exact H2.
  - intros t' Ht'. rewrite Hset. case_decide as E; [by subst t'|].
    apply (aggr_ok_frame k0); [rewrite Ek; cbn..| |by apply H3].
    + rewrite A1; [done|]. intros Hw. by apply (inj wait_node) in Hw.
    + intros m Hm. destruct (applied_other t' m Ht' E (H5 _ _ Ht' Hm)) as (? & ? & _). by apply A2.
    + intros m [->|Hm]%elem_of_cons.
      * assert (Hd : t' ∈ dom (threads (k_sched k0))) by by rewrite H1. apply elem_of_dom in Hd as [th' Hd].
        rewrite (get_prio_wait k0 t' th' Hd). apply get_prio_wait. rewrite Ek. cbn. by rewrite Hs'.
      * pose proof (H5 _ _ Ht' Hm) as Hb. rewrite !get_prio_plain by (eapply layout_plain; [|exact Ht'|exact Hb]; by rewrite ?Ek).
        rewrite Ek. cbn. apply Hpr. apply (applied_other t' m Ht' E Hb).
  - intros t' m p Ht'. rewrite Hset, Ek. cbn. case_decide as E; [apply Hl2|]. intros Hm. rewrite Hpr; [exact (H4 _ _ _ Ht' Hm)|].
    apply (applied_other t' m Ht' E). apply H5; [done|]. apply list_elem_of_fmap. by exists (m, p).
  - intros t' m Ht'. rewrite Hset. case_decide as E; [subst t'|by apply H5]. intros Hm. apply applied_belongs. by right.
  - intros t' Ht'. rewrite Hset. case_decide as E; [by subst t'|by apply H6].
  - intros t' m Ht' Hm. rewrite Hset, Ek. cbn. destruct (H7 t' m Ht' Hm) as (Hp & nd & Hnd & Hcol).
    assert (Hp' : is_Some (pr !! m)) by (destruct (decide (m = n)) as [->|]; [done|by rewrite Hpr]).
    split; [done|]. destruct (A3 m) as [nd' Hnd']; [by rewrite Hnd|]. exists nd'. split; [done|]. intros Hni Hmn.
    assert (Hout : (m ∉ (j t).*1) /\ (m ∉ l2.*1) /\ (m ∉ (j t').*1)).
    { case_decide as E; [subst t'|].
      - split_and!; [intros ?; by apply Hni, Hsup|done|intros ?; by apply Hni, Hsup].
      - destruct (applied_other t' m Ht' E) as (? & ? & ?); [by right|]. done. }
    destruct Hout as (Ho1 & Ho2 & Ho3). rewrite A2 in Hnd' by done. rewrite Hnd in Hnd'. injection Hnd' as <-.
    apply Hcol; [done|]. unfold NULL. pose proof (jl_node Hly t' m Ht' (or_intror Hm)) as [_ ?]. lia.
Qed.

Lemma applied_pending : pending t (k_sched k') c'.
Proof.
  destruct Hinv as [_ [q Hwf]]. destruct Hap as (Hok & st & s' & -> & _ & _ & _ & [[-> Hc]|(p & b & -> & Hc)]).
  - left. split; [done|]. by exists q.
  - right. split; [done|]. exists (k_sched k0), q, p, b, th. split_and!; try done.
    destruct (head_fst l2 _ Hown) as (m & r & Hin & Hh).
    destruct Hok as [_ Hmin]. specialize (Hmin m Hh). destruct (Hl2 m r Hin) as [Hm Hr].
    set (k1 := with_sched _ _) in Hmin.
    assert (Hpl : plain k1 m).
    { apply (layout_plain k1 t m); [|done|apply applied_belongs; right; apply list_elem_of_fmap; by exists (m, r)].
      unfold k1. cbn. rewrite <- (jn_dom _ _ _ (proj1 Hinv)). by eapply upd_dom. }
    unfold prio in Hmin. rewrite (get_prio_plain _ m Hpl) in Hmin.
    erewrite (get_prio_wait _ t) in Hmin by apply lookup_insert_eq. cbn in Hmin. rewrite Hm in Hmin. by subst p.
Qed.
End applied.

Lemma nodes_ok_active k j t n : t ∈ D -> n ∈ N t -> n ∈ (j t).*1 -> nodes_ok n k j -> nodes_ok NULL k j.
Proof.
  intros Ht Hn Hin [H1 H2 H3 H4 H5 H6 H7]. split; try done. intros t' m Ht' Hm.
  destruct (H7 t' m Ht' Hm) as (? & nd & ? & Hc). split; [done|]. exists nd. split; [done|]. intros Hni _.
  apply Hc; [done|]. intros ->. assert (t' = t) as -> by (by eapply jl_apart; [..|right|right]). done.
Qed.

(** ** The operations *)

Lemma spec_remove_absent n l : n ∉ l.*1 -> spec_remove n l = l.
Proof.
  unfold spec_remove. induction l as [|[m p] l IH]; [done|]. rewrite fmap_cons. intros [Hm Hn]%not_elem_of_cons.
  rewrite filter_cons_True by (cbn in *; congruence). by rewrite IH.
Qed.

Lemma elem_of_spec_remove n l m p : (m, p) ∈ spec_remove n l <-> m <> n /\ (m, p) ∈ l.
Proof. unfold spec_remove. by rewrite list_elem_of_filter. Qed.

(** The nodes of a thread after a release. *)
Lemma release_nodes (k : K) j t n d : nodes_ok NULL k j -> t ∈ D -> n ∈ N t ->
  (spec_insert (n, d) (spec_remove n (j t))).*1 =
  with_node (with_prio (<[n := d]> (k_prio k)) k) n (without_node n (j t).*1).
Proof.
  intros Hn Ht HnN. set (k1 := with_prio _ k). unfold with_node, without_node. rewrite <- spec_remove_fst.
  assert (Hpl : forall m, belongs t m -> get_prio k1 m = <[n := d]> (k_prio k) !! m).
  { intros m Hm. rewrite get_prio_plain; [done|]. eapply layout_plain; [by apply (jn_dom _ _ _ Hn)|exact Ht|done]. }
  apply spec_insert_fst; unfold prio.
  - rewrite Hpl by by right. by rewrite lookup_insert_eq.
  - intros m p [Hne Hm]%elem_of_spec_remove. rewrite Hpl.
    + rewrite lookup_insert_ne by done. destruct (jn_prio _ _ _ Hn t m p Ht Hm) as [-> _]. done.
    + apply (jn_in _ _ _ Hn); [done|]. apply list_elem_of_fmap. by exists (m, p).
Qed.

Lemma elem_of_fst (l : list (Z * Z)) m : m ∈ l.*1 <-> exists p, (m, p) ∈ l.
Proof. rewrite list_elem_of_fmap. split; [intros ([m' p] & -> & ?); eauto|intros [p ?]; by exists (m, p)]. Qed.

Lemma release_members (k : K) j t n d : nodes_ok NULL k j -> t ∈ D -> n ∈ N t -> edf_priorities d ->
  let l2 := spec_insert (n, d) (spec_remove n (j t)) in
  (forall m p, (m, p) ∈ l2 -> <[n := d]> (k_prio k) !! m = Some p /\ edf_priorities p) /\ own t ∈ l2.*1 /\
  (forall m, m ∈ l2.*1 -> m = n \/ m ∈ (j t).*1) /\ (forall m, m <> n -> m ∈ (j t).*1 -> m ∈ l2.*1).
Proof.
  intros Hn HtD HnN Hd l2.
  assert (Hl : forall m p, (m, p) ∈ l2 <-> (m, p) = (n, d) \/ (m <> n /\ (m, p) ∈ j t)).
  { intros m p. unfold l2. by rewrite elem_of_spec_insert, elem_of_spec_remove. }
  assert (Hsup : forall m, m <> n -> m ∈ (j t).*1 -> m ∈ l2.*1).
  { intros m Hne [p Hp]%elem_of_fst. apply elem_of_fst. exists p. apply Hl. by right. }
  split_and!; [|apply Hsup|..|exact Hsup].
  - intros m p [[= -> ->]|[Hne Hm]]%Hl; [by rewrite lookup_insert_eq|]. rewrite lookup_insert_ne by done.
    exact (jn_prio _ _ _ Hn t m p HtD Hm).
  - intros E. apply (jl_own Hly t HtD). by rewrite E.
  - exact (jn_own _ _ _ Hn t HtD).
  - intros m [p Hp]%elem_of_fst. apply Hl in Hp as [[= -> ->]|[_ Hm]]; [by left|right]. apply elem_of_fst. by exists p.
Qed.

Lemma active_color (k : K) a l n nd : aggr_ok k a l -> n ∈ l -> p_nodes (k_store k) !! n = Some nd -> rbe_color nd <> -1.
Proof.
  intros [[[(tr & [Htr _] & Hin) _ _ _ _ _ _] _] _] Hn Hnd. subst l.
  destruct (tree_at_color _ _ _ _ _ Htr Hn) as (nd' & Hnd' & Hc). cbn in Hnd'. rewrite Hnd in Hnd'. injection Hnd' as <-.
  unfold RB_BLACK, RB_RED in Hc. lia.
Qed.

Lemma release_ok k j t n d : jobs_inv k j -> t ∈ D -> n ∈ N t -> edf_priorities d ->
  wp (job_exec ticks_per_timeslice (Release t n d)) (fun _ k' => jobs_inv k' (j_exec (Release t n d) j)) k.
Proof.
  intros Hinv HtD HnN Hd. pose proof Hinv as [Hn _]. destruct (jl_node Hly t n HtD (or_intror HnN)) as [Hpw Hrange].
  pose proof (layout_plain k t n (jn_dom _ _ _ Hn) HtD (or_intror HnN)) as Hpl.
  destruct (jn_free _ _ _ Hn t n HtD HnN) as (Hpn & nd & Hnd & Hcol). destruct (jn_wait _ _ _ Hn t HtD) as (w & Hw & Hun).
  pose proof (jn_aggr _ _ _ Hn t HtD) as Hok. pose proof HtD as Ht. rewrite <- (jn_dom _ _ _ Hn) in Ht.
  apply elem_of_dom in Ht as [th Hth]. set (l2 := spec_insert (n, d) (spec_remove n (j t))).
  pose proof (release_nodes k j t n d Hn HtD HnN) as El. fold l2 in El. set (k1 := with_prio _ k) in El.
  cbn [job_exec]. apply wp_bind. unfold _Scheduler_Release_job, _Scheduler_EDF_Release_job.
  apply wp_bind, wp_set_priority; [by rewrite get_prio_plain|]. rewrite (set_prio_plain k n d Hpl). fold k1.
  apply wp_bind, wp_bind. unfold node_links, wp at 1. cbn [get_store kernel_HasPriority k1 k_store with_prio]. rewrite Hnd.
  apply wp_ret. fold k1.
  assert (Hap : wp (if negb (rbe_color nd =? -1) then _Thread_Priority_changed t n false (_Thread_queue_Context_clear_priority_updates empty_context)
      else _Thread_Priority_add t n (_Thread_queue_Context_clear_priority_updates empty_context)) (applied t th (j t).*1 l2.*1 k1) k1).
  { destruct (decide (n ∈ (j t).*1)) as [Hin|Hni].
    - pose proof (active_color _ _ _ _ _ Hok Hin Hnd) as Hc. apply Z.eqb_neq in Hc as ->. cbn [negb].
      rewrite El. unfold k1. rewrite <- (set_prio_plain k n d Hpl).
      eapply priority_changed_ok; [exact Hun|by apply (jl_null Hly)|done|done|exact Hw|done|done|done].
    - rewrite Hcol by (done || (unfold NULL; lia)). cbn [Z.eqb negb].
      assert (Ef : without_node n (j t).*1 = (j t).*1) by (unfold without_node; by rewrite <- spec_remove_fst, spec_remove_absent).
      rewrite El, Ef. eapply priority_add_ok; [exact Hun|by apply (jl_null Hly)|done|exact Hw|done| | |].
      + apply (aggr_ok_frame k); [done|done| |exact Hok]. intros m Hm.
        assert (m <> n) by (apply elem_of_cons in Hm as [->|Hm]; [apply not_eq_sym; by apply Hpw|by intros ->]).
        unfold k1. rewrite <- (set_prio_plain k n d Hpl). by apply get_set_prio_ne.
      + intros E. pose proof (jn_own _ _ _ Hn t HtD) as Ho. rewrite E in Ho. by apply not_elem_of_nil in Ho.
      + split_and!; [done|by apply Hpw|lia|lia| |by exists nd].
        rewrite get_prio_plain by done. unfold k1. cbn. by rewrite lookup_insert_eq. }
  eapply wp_mono; [exact Hap|]. intros c' k' Hap'.
  assert (Hpr : forall m, m <> n -> <[n := d]> (k_prio k) !! m = k_prio k !! m) by (intros m Hm; by apply lookup_insert_ne).
  assert (Hprn : is_Some (<[n := d]> (k_prio k) !! n)) by by rewrite lookup_insert_eq.
  destruct (release_members k j t n d Hn HtD HnN Hd) as (Hl2 & Hown & Hsub & Hsup).
  assert (Hin2 : n ∈ l2.*1) by (apply list_elem_of_fmap; exists (n, d); split; [done|]; apply elem_of_spec_insert; by left).
  eapply wp_mono; [apply (priority_update_ok n k' (j_set t l2 j) t c')|].
  - by apply (applied_nodes k j t n th (<[n := d]> (k_prio k)) l2 c').
  - by apply (applied_pending k j t n th (<[n := d]> (k_prio k)) l2 c').
  - intros [] k'' (Hn'' & _ & Hq). split; [|done]. eapply nodes_ok_active; [exact HtD|exact HnN| |exact Hn''].
    cbn [j_exec]. unfold j_set. by rewrite decide_True by done.
Qed.

(** Marking a node inactive that is in no aggregation. *)
Lemma inactive_ok k j t n nd : t ∈ D -> n ∈ N t -> n ∉ (j t).*1 -> nodes_ok n k j -> rbe_color nd = -1 ->
  nodes_ok NULL (with_store {| p_nodes := <[n := nd]> (p_nodes (k_store k)); p_aggrs := p_aggrs (k_store k) |} k) j.
Proof.
  intros Ht Hn Hni [H1 H2 H3 H4 H5 H6 H7] Hc.
  assert (Hno : forall t' m, t' ∈ D -> m ∈ (j t').*1 -> m <> n).
  { intros t' m Ht' Hm ->. assert (t' = t) as -> by (by eapply jl_apart; [..|by apply H5|by right]). done. }
  split; try done.
  - intros t' Ht'. apply (aggr_ok_frame k); [done| |done|by apply H3]. intros m Hm. cbn. apply lookup_insert_ne.
    apply not_eq_sym. by eapply Hno.
  - intros t' m Ht' Hm. destruct (H7 t' m Ht' Hm) as (? & md & Hmd & Hcol). split; [done|]. cbn.
    destruct (decide (n = m)) as [<-|Hne]; [rewrite lookup_insert_eq; eauto|rewrite lookup_insert_ne by done].
    exists md. split; [done|]. intros ? _. by apply Hcol; [|apply not_eq_sym].
Qed.

Lemma cancel_ok k j t n : jobs_inv k j -> t ∈ D -> n ∈ N t -> n ∈ (j t).*1 ->
  wp (job_exec ticks_per_timeslice (Cancel t n)) (fun _ k' => jobs_inv k' (j_exec (Cancel t n) j)) k.
Proof.
  intros Hinv HtD HnN Hin. pose proof Hinv as [Hn _]. destruct (jl_node Hly t n HtD (or_intror HnN)) as [Hpw Hrange].
  pose proof (layout_plain k t n (jn_dom _ _ _ Hn) HtD (or_intror HnN)) as Hpl.
  destruct (jn_free _ _ _ Hn t n HtD HnN) as (Hpn & nd & Hnd & _). destruct (jn_wait _ _ _ Hn t HtD) as (w & Hw & Hun).
  pose proof (jn_aggr _ _ _ Hn t HtD) as Hok. pose proof HtD as Ht. rewrite <- (jn_dom _ _ _ Hn) in Ht.
  apply elem_of_dom in Ht as [th Hth]. set (l2 := spec_remove n (j t)).
  assert (El : l2.*1 = without_node n (j t).*1) by apply spec_remove_fst.
  assert (Hmem : forall m, m ∈ l2.*1 <-> m <> n /\ m ∈ (j t).*1).
  { intros m. rewrite El. unfold without_node. by rewrite list_elem_of_filter. }
  assert (Hown : own t ∈ l2.*1).
  { apply Hmem. split; [|by apply (jn_own _ _ _ Hn)]. intros E. apply (jl_own Hly t HtD). by rewrite E. }
  assert (Hl2 : forall m p, (m, p) ∈ l2 -> k_prio k !! m = Some p /\ edf_priorities p).
  { intros m p [_ Hm]%elem_of_spec_remove. exact (jn_prio _ _ _ Hn t m p HtD Hm). }
  assert (Hsub : forall m, m ∈ l2.*1 -> m = n \/ m ∈ (j t).*1) by (intros m Hm; right; by apply Hmem).
  assert (Hsup : forall m, m <> n -> m ∈ (j t).*1 -> m ∈ l2.*1) by (intros m ? ?; by apply Hmem).
  cbn [job_exec]. apply wp_bind. unfold _Scheduler_Cancel_job, _Scheduler_EDF_Cancel_job. apply wp_bind.
  assert (Ek : with_prio (k_prio k) k = k) by by destruct k.
  eapply wp_mono; [eapply (priority_remove_ok t th w Hun (jl_null Hly t HtD) k n _ (j t).*1); try done|].
  { rewrite <- El. intros E. rewrite E in Hown. by apply not_elem_of_nil in Hown. }
  intros c' k' Hap. rewrite <- El, <- Ek in Hap.
  pose proof (applied_nodes k j t n th (k_prio k) l2 c' k' Hinv HtD HnN Hth (fun _ _ => eq_refl) Hpn Hap Hl2 Hown Hsub Hsup) as Hn'.
  assert (Hpe : pending t (k_sched k') c') by by apply (applied_pending k j t n th (k_prio k) l2 c').
  destruct (jn_free _ _ _ Hn' t n HtD HnN) as (Hpn' & nd' & Hnd' & _).
  apply wp_bind, wp_bind. unfold node_links, wp at 1. cbn [get_store kernel_HasPriority]. rewrite Hnd'.
  apply wp_modify, wp_ret. set (k1 := set_store _ k').
  assert (Hn1 : nodes_ok NULL k1 (j_set t l2 j)).
  { apply (inactive_ok k' (j_set t l2 j) t n (set_color (-1) nd')); try done. unfold j_set.
    rewrite decide_True, Hmem by done. naive_solver. }
  eapply wp_mono; [apply (priority_update_ok NULL k1 (j_set t l2 j) t c' Hn1 Hpe)|].
  intros [] k2 (Hn2 & _ & Hq). by split.
Qed.

(** Operations on threads that do not set a priority. *)
Lemma thread_step_waits s o s' : (forall t p b, o <> set_priority t p b) -> legal edf_priorities idle (dom (threads s)) o ->
  thread_step s o s' -> Wait_Priority <$> threads s' = Wait_Priority <$> threads s.
Proof.
  intros Hno Hl Hs. destruct o as [t st|t st|t|t p b|e| |]; cbn in Hs; try done.
  - destruct Hl as ([th Ht]%elem_of_dom & _). destruct Hs as [_ Hc]. rewrite (core_waits _ _ (Hc th Ht)), fmap_insert.
    apply insert_id. by rewrite lookup_fmap, Ht.
  - cbn in Hl. apply elem_of_dom in Hl as [th Ht]. destruct Hs as [_ Hc]. rewrite (core_waits _ _ (Hc th Ht)), fmap_insert.
    apply insert_id. rewrite lookup_fmap, Ht. by destruct (_ =? _).
  - by destruct (Hno t p b).
  - destruct Hs as (_ & _ & E). apply map_eq. intros t. apply (f_equal (.!! t)) in E. rewrite !lookup_fmap in *.
    destruct (threads s !! t), (threads s' !! t); try discriminate E; [|done]. cbn in E |- *. by injection E as _ ->.
Qed.

Definition job_legal (o : job_op) (j : jobs) : Prop :=
  match o with
  | Release t n d => t ∈ D /\ n ∈ N t /\ edf_priorities d
  | Cancel t n => t ∈ D /\ n ∈ N t /\ n ∈ (j t).*1
  | Thread o => legal edf_priorities idle D o /\ forall t p b, o <> set_priority t p b
  end.

Fixpoint jobs_legal (os : list job_op) (j : jobs) : Prop :=
  match os with
  | [] => True
  | o :: os' => job_legal o j /\ jobs_legal os' (j_exec o j)
  end.

Lemma job_exec_ok k j o : jobs_inv k j -> job_legal o j ->
  wp (job_exec ticks_per_timeslice o) (fun _ k' => jobs_inv k' (j_exec o j)) k.
Proof.
  intros Hinv Hl. destruct o as [t n d|t n|o]; cbn [job_legal] in Hl.
  - destruct Hl as (? & ? & ?). by apply release_ok.
  - destruct Hl as (? & ? & ?). by apply cancel_ok.
  - destruct Hinv as [Hn [q Hwf]]. destruct Hl as [Hl Hno]. cbn [job_exec j_exec]. apply wp_on_sched.
    rewrite <- (jn_dom _ _ _ Hn) in Hl. eapply wp_mono; [by apply (exec_op_ok ops edf_priorities ticks_per_timeslice idle _ q)|].
    intros [] s' (q' & _ & Hwf' & _ & Hst). split; [|by exists q'].
    apply nodes_ok_sched; [|done]. by apply (thread_step_waits _ o).
Qed.

Lemma job_run_ok k j os : jobs_inv k j -> jobs_legal os j ->
  wp (job_run ticks_per_timeslice os) (fun _ k' => jobs_inv k' (j_run os j)) k.
Proof.
  revert k j. induction os as [|o os IH]; intros k j Hinv Hl; cbn [job_run]; [by apply wp_ret|].
  destruct Hl as [Ho Hl]. apply wp_bind. eapply wp_mono; [by apply job_exec_ok|]. intros [] k' Hinv'. by apply IH.
Qed.

(** [p] is the most urgent of the priorities [l]. *)
Definition earliest (l : list (Z * Z)) (p : Z) : Prop :=
  (exists n, (n, p) ∈ l) /\ forall n p', (n, p') ∈ l -> p <= p'.

(** Each thread has the priority of its most urgent job, and the heir is a
    ready thread; if it can be preempted, then no job of a ready thread is
    more urgent than its own.  A dispatch is pending if the heir does not
    execute. *)
Definition edf_elected (k : K) (j : jobs) : Prop :=
  (forall t, t ∈ D -> exists th, threads (k_sched k) !! t = Some th /\ earliest (j t) (Wait_Priority th)) /\
  exists h, threads (k_sched k) !! heir (k_sched k) = Some h /\ current_state h = STATES_READY /\
    (is_preemptible h = true -> forall t th n p, threads (k_sched k) !! t = Some th -> current_state th = STATES_READY ->
       (n, p) ∈ j t -> Wait_Priority h <= p) /\
    (heir (k_sched k) <> executing (k_sched k) -> dispatch_necessary (k_sched k) = true).

Lemma nodes_earliest k j t th : nodes_ok NULL k j -> t ∈ D -> threads (k_sched k) !! t = Some th ->
  earliest (j t) (Wait_Priority th).
Proof.
  intros Hn HtD Ht. destruct (jn_aggr _ _ _ Hn t HtD) as [[_ Hs] Hmin].
  assert (Hkey : forall m p, (m, p) ∈ j t -> prio k m = p).
  { intros m p Hm. unfold prio. rewrite get_prio_plain.
    - destruct (jn_prio _ _ _ Hn t m p HtD Hm) as [-> _]. done.
    - eapply layout_plain; [by apply (jn_dom _ _ _ Hn)|exact HtD|]. apply (jn_in _ _ _ Hn); [done|].
      apply elem_of_fst. by exists p. }
  destruct (head_fst (j t) _ (jn_own _ _ _ Hn t HtD)) as (m & r & Hin & Hh).
  specialize (Hmin m Hh). rewrite (Hkey m r Hin) in Hmin. unfold prio in Hmin. rewrite (get_prio_wait k t th Ht) in Hmin.
  cbn in Hmin. subst r. split; [by exists m|]. intros n p Hp. rewrite <- (Hkey m _ Hin), <- (Hkey n p Hp).
  eapply sorted_head_le; [exact Hs|exact Hh|]. apply elem_of_fst. by exists p.
Qed.

Lemma jobs_elected k j : jobs_inv k j -> edf_elected k j.
Proof.
  intros [Hn [q Hwf]]. split.
  - intros t Ht. pose proof Ht as Hd. rewrite <- (jn_dom _ _ _ Hn) in Hd. apply elem_of_dom in Hd as [th Hth].
    exists th. split; [done|]. by apply (nodes_earliest k).
  - destruct (wf_heir_correct _ _ _ _ _ Hwf) as (h & Hh & Hr & Hle & _ & Hd). exists h. split_and!; [done|done| |done].
    intros Hp t th n p Ht Hst Hin. pose proof (elem_of_dom_2 _ _ _ Ht) as HtD. rewrite (jn_dom _ _ _ Hn) in HtD.
    etrans; [by apply (Hle Hp t th)|]. by apply (nodes_earliest k j t th Hn HtD Ht) in Hin.
Qed.
End jobs.

(** C5. For every implementation of the tree macros, every assignment of job
    nodes to threads and every sequence of job releases, cancellations of
    released jobs and operations on threads (blocking, readying, yielding,
    changing the preemption mode, ticks, dispatches), no step faults, each
    thread has the priority of the most urgent of its own priority and the
    deadlines of its released jobs, and the heir is a ready thread such that
    no ready thread has a job with an earlier deadline, unless it disabled
    preemption.  As for the scheduler itself, no deadline is 0 and no thread
    has the mapped pseudo interrupt priority. *)
Theorem edf_jobs_correct {TL : ThreadLayout} {RB : RB_Macros} {T} (D : gset Z) (own : Z -> Z) (N : Z -> gset Z)
    (ticks idle : Z) (k : kernel T) (j : jobs) (os : list job_op) :
  job_layout D own N -> jobs_inv D own N idle k j -> jobs_legal D N idle os j ->
  exists k', job_run ticks os k = Some (tt, k') /\ jobs_inv D own N idle k' (j_run os j) /\
    edf_elected D k' (j_run os j).
Proof.
  intros Hly Hinv Hl.
  destruct (proj1 (wp_run _ _ _) (job_run_ok D own N ticks idle Hly k j os Hinv Hl)) as ([] & k' & E & Hinv').
  exists k'. split_and!; [done|done|by eapply jobs_elected].
Qed.

(** ** A concrete kernel

    The threads of [SchedulerEDF.edf_kernel], the own nodes of the threads at
    8000, 8016 and 8032 and one job node for each at 9000, 9016 and 9032. *)
Module Sample.

#[export, program] Instance layout : ThreadLayout := {| home_node t := t + 3000; node_owner n := n - 3000 |}.
Next Obligation. intros t. cbn. lia. Qed.

Definition D : gset Z := {[ 2000; 2016; 2032 ]}.
Definition own (t : Z) : Z := t + 6000.
Definition N (t : Z) : gset Z := {[ t + 7000 ]}.

Definition sched {RB : RB_Macros} : state :=
  match edf_boot 2000 edf_nodes (edf_kernel edf_nodes) with
  | Some (_, s) => s
  | None => edf_kernel edf_nodes
  end.

Definition linked : RBTree_Node := {| rbe_left := NULL; rbe_right := NULL; rbe_parent := NULL; rbe_color := RB_BLACK |}.
Definition unlinked : RBTree_Node := {| rbe_left := NULL; rbe_right := NULL; rbe_parent := NULL; rbe_color := -1 |}.
Definition aggregation (n : Z) : Priority_Aggregation :=
  {| Contributors := n; Action_node := NULL; Action_type := PRIORITY_ACTION_INVALID |}.
Definition wait_information : Thread_Wait_information :=
  {| wait_queue := NULL; wait_operations := Operations_default; wait_flags := THREAD_WAIT_FLAGS_INITIAL;
     wait_return_code := STATUS_SUCCESSFUL; spare_heads := NULL |}.
Definition no_messages : messages := {| ms_queue := ∅; ms_size := ∅; ms_bytes := ∅; ms_arguments := ∅ |}.

Definition kernel {RB : RB_Macros} : ThreadQueue.kernel unit :=
  Build_kernel sched ∅
    {| p_nodes := {[ 8000 := linked; 8016 := linked; 8032 := linked; 9000 := unlinked; 9016 := unlinked; 9032 := unlinked ]};
       p_aggrs := {[ 5008 := aggregation 8000; 5024 := aggregation 8016; 5040 := aggregation 8032 ]} |}
    {[ 8000 := _Scheduler_EDF_Map_priority 255; 8016 := 100; 8032 := _Scheduler_EDF_Map_priority 5; 9000 := 0; 9016 := 0; 9032 := 0 ]}
    {[ 2000 := wait_information; 2016 := wait_information; 2032 := wait_information ]} ∅ ∅ ∅ ∅ no_messages 0 tt.

(** No job is released. *)
Definition no_jobs : jobs := fun t =>
  if t =? 2000 then [(8000, _Scheduler_EDF_Map_priority 255)]
  else if t =? 2016 then [(8016, 100)] else [(8032, _Scheduler_EDF_Map_priority 5)].

(** A background thread releases a job; the other one gets a job with an
    earlier deadline than its own priority, which is renewed and cancelled. *)
Definition job_ops : list job_op :=
  [Thread (clear_state 2016 0x80000000); Thread (clear_state 2032 0x80000000); Thread dispatch; Release 2032 9032 50;
   Thread dispatch; Release 2016 9016 20; Thread dispatch; Thread tick; Release 2016 9016 70; Thread (yield 2016);
   Cancel 2032 9032; Thread dispatch].

Lemma job_D_elem t : t ∈ D -> t = 2000 \/ t = 2016 \/ t = 2032.
Proof. unfold D. set_solver. Qed.

Lemma job_layout_ok : job_layout D own N.
Proof.
  split; unfold belongs, own, N, wait_node, _Thread_Scheduler_get_home_node, WAIT_PRIORITY, NULL.
  - intros t Ht%job_D_elem. cbn. lia.
  - intros t n Ht%job_D_elem. rewrite elem_of_singleton. intros Hn. split; [intros t' Ht'%job_D_elem|]; cbn; lia.
  - intros t _. rewrite elem_of_singleton. lia.
  - intros t t' n Ht%job_D_elem Ht'%job_D_elem. rewrite !elem_of_singleton. lia.
Qed.

Lemma one_contributor {RB : RB_Macros} (k : ThreadQueue.kernel unit) a n p : a <> n -> 0 < n < 2 ^ 64 ->
  p_nodes (k_store k) !! n = Some linked -> p_aggrs (k_store k) !! a = Some (aggregation n) ->
  get_prio k n = Some p -> get_prio k a = Some p -> aggr_ok k a [n].
Proof.
  intros Hna Hr Hnd Ha Hp Hpa.
  assert (Et : get_tree (HasTree := aggr_tree a) k =
    {| rb_nodes := <[n := linked]> (p_nodes (k_store k)); rbh_root := n |}).
  { cbn. unfold root_of. rewrite Ha, insert_id by done. done. }
  split; [split; [split|]|].
  - exists (Node Leaf n Leaf). rewrite Et. split; [|done]. split; [|apply NoDup_singleton]. cbn.
    split_and!; [done|unfold NULL; lia|]. exists linked. rewrite lookup_insert_eq. split_and!; try done. by left.
  - rewrite Et. apply balanced_one. unfold NULL. lia.
  - intros m ->%list_elem_of_singleton. by eexists.
  - by apply Forall_singleton.
  - set_solver.
  - by eexists.
  - by eexists.
  - repeat constructor.
  - intros m [= <-]. unfold prio. by rewrite Hp, Hpa.
Qed.

(** What the boot of the scheduler makes of the threads is computed. *)
Definition booted (RB : RB_Macros) : Prop :=
  edf_boot 2000 edf_nodes (edf_kernel edf_nodes) = Some (tt, sched) /\
  Wait_Priority <$> threads sched = list_to_map edf_nodes.

Lemma kernel_inv {RB : RB_Macros} : booted RB -> jobs_inv D own N 2000 kernel no_jobs.
Proof.
  intros [Eb Ew]. destruct (proj1 (wp_run _ _ _) (edf_boot_spec 2000 edf_nodes _ edf_kernel_bootable)) as ([] & s0 & E & _ & Hd & p & Hwf).
  rewrite Eb in E. injection E as <-.
  assert (Hdom : dom (threads sched) = D) by (rewrite Hd; apply (bool_decide_unpack _); vm_compute; reflexivity).
  assert (Hth : forall t p, (list_to_map edf_nodes : gmap Z Z) !! t = Some p -> get_prio kernel (wait_node t) = Some p).
  { intros t p' Hp. rewrite <- Ew, lookup_fmap in Hp. destruct (threads sched !! t) as [th|] eqn:Et; [|done].
    injection Hp as <-. by apply get_prio_wait. }
  assert (Hpl : forall t n, t ∈ D -> belongs own N t n -> get_prio kernel n = k_prio kernel !! n).
  { intros t n Ht Hn. apply get_prio_plain. by eapply (layout_plain D own N job_layout_ok kernel). }
  split; [split|by eexists].
  - exact Hdom.
  - intros t [->|[->| ->]]%job_D_elem; exists wait_information; (split; [done|by left]).
  - intros t Ht.
    assert (Hone : forall p', p_nodes (k_store kernel) !! own t = Some linked ->
      p_aggrs (k_store kernel) !! wait_node t = Some (aggregation (own t)) -> k_prio kernel !! own t = Some p' ->
      (list_to_map edf_nodes : gmap Z Z) !! t = Some p' -> aggr_ok kernel (wait_node t) [own t]).
    { intros p' H1 H2 H3 H4. destruct (jl_node D own N job_layout_ok t (own t) Ht) as [Hw Hr]; [by left|].
      eapply one_contributor; [apply not_eq_sym; by apply Hw|done|done|done| |by apply Hth].
      by rewrite (Hpl t) by (done || by left). }
    destruct (job_D_elem t Ht) as [->|[->| ->]]; by eapply Hone.
  - intros t n p' [->|[->| ->]]%job_D_elem Hn; apply list_elem_of_singleton in Hn as [= -> ->];
      (split; [done|unfold edf_priorities, SCHEDULER_EDF_PRIO_MSB; rewrite ?map_priority_add by lia; lia]).
  - intros t n [->|[->| ->]]%job_D_elem Hn; apply list_elem_of_singleton in Hn as ->; by left.
  - intros t [->|[->| ->]]%job_D_elem; left.
  - unfold N. intros t n [->|[->| ->]]%job_D_elem ->%elem_of_singleton; (split; [by eexists|exists unlinked; by split]).
Qed.

Lemma kernel_booted : booted Spine.macros.
Proof. split; vm_compute; reflexivity. Qed.

Lemma job_ops_legal : jobs_legal D N 2000 job_ops no_jobs.
Proof.
  cbn. unfold edf_priorities, SCHEDULER_EDF_PRIO_MSB, D, N. split_and!; try done; try lia; try set_solver.
Qed.

End Sample.

Lemma edf_jobs_correct_witness : exists k',
  job_run (TL := Sample.layout) (RB := Spine.macros) 10 Sample.job_ops (Sample.kernel (RB := Spine.macros)) = Some (tt, k') /\
  edf_elected Sample.D k' (j_run Sample.job_ops Sample.no_jobs).
Proof.
  destruct (edf_jobs_correct (TL := Sample.layout) (RB := Spine.macros) Sample.D Sample.own Sample.N 10 2000 Sample.kernel Sample.no_jobs Sample.job_ops
    Sample.job_layout_ok (Sample.kernel_inv Sample.kernel_booted) Sample.job_ops_legal) as (k' & H1 & _ & H3).
  exists k'. exact (conj H1 H3).
Defined.

(** The job of the background thread makes it heir, until the other thread
    has an earlier deadline; in the end the latter has the deadline 70. *)
Example sample_jobs :
  (fun n => (heir ∘ k_sched ∘ snd) <$>
    job_run (TL := Sample.layout) (RB := Spine.macros) 10 (take n Sample.job_ops) (Sample.kernel (RB := Spine.macros))) <$> [3; 5; 7; 10; 12]%nat
  = [Some 2016; Some 2032; Some 2016; Some 2032; Some 2016].
Proof. vm_compute. reflexivity. Qed.

End EDFJobs.
