(* ===== verification/Semaphore.v ===== *)
(** Counting semaphores (score/coresem.h, score/coresemimpl.h, coresem.c): a
    count and a thread queue, the first member of the control block. *)

From S2P Require Import Prelude DList Chain RBTree Priority Scheduler ThreadQueue.

Module Semaphore.
Import RBTree Priority Scheduler ThreadQueue.

Section operations.
Context {TL : ThreadLayout} {RB : RB_Macros} {T : Type} {TT : ThreadTimers T}.
Context (ops : Scheduler_Operations) (ticks_per_timeslice : Z).
Abbreviation K := (kernel T).

Definition get_count (the_semaphore : Z) : M K Z := fun k =>
  match k_object k !! the_semaphore with
  | Some v => Some (v, k)
  | None => None
  end.

Definition set_count (the_semaphore v : Z) : M K unit :=
  modify (fun k => with_object (<[the_semaphore := v]> (k_object k)) k).

Definition _CORE_semaphore_Initialize (the_semaphore initial_value : Z) : M K unit :=
  set_count the_semaphore initial_value;;
  _Thread_queue_Queue_initialize the_semaphore.

Definition _CORE_semaphore_Destroy (the_semaphore : Z) (operations : Thread_queue_Operations)
    (c : Thread_queue_Context) (unblock : Z) : M K unit :=
  _Thread_queue_Flush_critical ops ticks_per_timeslice the_semaphore operations
    _Thread_queue_Flush_status_object_was_deleted c unblock;;
  mret tt.

Definition _CORE_semaphore_Surrender (the_semaphore : Z) (operations : Thread_queue_Operations) (maximum_count : Z)
    (c : Thread_queue_Context) (isr : M K unit) : M K Status_Control :=
  the_thread ← _Thread_queue_First_locked the_semaphore operations;
  if negb (the_thread =? NULL) then
    _Thread_queue_Extract_critical ops ticks_per_timeslice the_semaphore operations the_thread c isr;;
    mret STATUS_SUCCESSFUL
  else
    count ← get_count the_semaphore;
    if count <? maximum_count then
      set_count the_semaphore (u32 (count + 1));;
      mret STATUS_SUCCESSFUL
    else mret STATUS_MAXIMUM_COUNT_EXCEEDED.

Definition _CORE_semaphore_Get_count (the_semaphore : Z) : M K Z := get_count the_semaphore.

(** Without a result the thread waited; the function then returns its wait
    status, once it executes again. *)
Definition _CORE_semaphore_Seize (the_semaphore : Z) (operations : Thread_queue_Operations) (executing : Z) (wait : bool)
    (c : Thread_queue_Context) (isr0 isr1 isr2 : M K unit) : M K (option Status_Control) :=
  count ← get_count the_semaphore;
  if negb (count =? 0) then
    set_count the_semaphore (u32 (count - 1));;
    mret (Some STATUS_SUCCESSFUL)
  else if negb wait then mret (Some STATUS_UNSATISFIED)
  else
    let c := {| thread_state := STATES_WAITING_FOR_SEMAPHORE; timeout_ticks := timeout_ticks c;
                ThreadQueue.Priority_Actions := ThreadQueue.Priority_Actions c; Priority_update := Priority_update c |} in
    _Thread_queue_Enqueue ops ticks_per_timeslice the_semaphore operations executing c isr0 isr1 isr2;;
    mret None.

End operations.

End Semaphore.
