(* ===== verification/ThreadQueueInv.v ===== *)
(** The invariant of the thread queues and the queue disciplines proved
    against it.

    Every thread owns thread queue heads.  While it waits they are lent to
    the queue: the first thread's heads become those of the queue, the others
    are linked to the free chain of these, and a thread that leaves gets
    some heads back.  The invariant says that no heads are lost or used
    twice, and that each queue holds the waiting threads in the order of its
    discipline.  FIFO and priority order without inheritance. *)

From S2P Require Import Prelude DList Chain RBTree Priority Scheduler ThreadQueue.

Module ThreadQueueInv.
Import RBTree Priority Scheduler ThreadQueue.

(** * The interface of the timers *)

(** What the thread queues rely on: the timers of the threads [D] of which
    [A] are running. *)
Class ThreadTimersLaws (T : Type) {TT : ThreadTimers T} (D : gset Z) := {
  timers_ok : T -> gset Z -> Prop;
  timer_add_law s A t ticks : timers_ok s A -> t ∈ D -> t ∉ A -> 0 < ticks < 2 ^ 32 ->
    wp (timer_add_ticks t ticks) (fun _ s' => timers_ok s' ({[t]} ∪ A)) s;
  timer_remove_law s A t : timers_ok s A -> t ∈ D ->
    wp (timer_remove t) (fun _ s' => timers_ok s' (A ∖ {[t]})) s;
  timer_active_law s A t : timers_ok s A -> t ∈ D -> timer_active t s = bool_decide (t ∈ A);
}.

(** * The memory of the queues *)

Section inv.
Context {TL : ThreadLayout} {RB : RB_Macros} {T : Type} {TT : ThreadTimers T}.
Abbreviation K := (kernel T).

(** The heads [HS] and the wait nodes of the threads [D] are mapped and
    share no word. *)
Record layout (D HS : gset Z) (m : mem) : Prop := {
  ly_heads h : h ∈ HS -> 0 < h /\ h + 112 < 2 ^ 64 /\
    forall i, i ∈ [0; 8; 16; 72; 80; 88; 96; 104] -> is_Some (m !! (h + i));
  ly_node t : t ∈ D -> 0 < wait_node t < 2 ^ 64 /\ is_Some (m !! wait_node t) /\ is_Some (m !! (wait_node t + 8));
  ly_heads_sep h h' : h ∈ HS -> h' ∈ HS -> h = h' \/ h + 112 <= h' \/ h' + 112 <= h;
  ly_node_sep t t' : t ∈ D -> t' ∈ D -> t = t' \/ wait_node t + 16 <= wait_node t' \/ wait_node t' + 16 <= wait_node t;
  ly_mixed_sep h t : h ∈ HS -> t ∈ D -> wait_node t + 16 <= h \/ h + 112 <= wait_node t;
}.

Lemma layout_changes D HS W m m' : changes W m m' -> layout D HS m -> layout D HS m'.
Proof. intros [_ Hc] [H1 H2 H3 H4 H5]. split; try done; naive_solver. Qed.

(** The chains on the stacks, at the addresses [STK]. *)
Record stack_layout (D HS STK : gset Z) (m : mem) : Prop := {
  sl_mapped u x : u ∈ STK -> x ∈ [u; u + 8; u + 16] -> is_Some (m !! x);
  sl_heads u h : u ∈ STK -> h ∈ HS -> u + 24 <= h \/ h + 112 <= u;
  sl_node u t : u ∈ STK -> t ∈ D -> u + 24 <= wait_node t \/ wait_node t + 16 <= u;
}.

Lemma stack_changes D HS STK W m m' : changes W m m' -> stack_layout D HS STK m -> stack_layout D HS STK m'.
Proof. intros [_ Hc] [H1 H2 H3]. split; try done. naive_solver. Qed.

(** The aggregation of heads and the tree node of a thread exist. *)
Record stores (D HS : gset Z) (k : K) : Prop := {
  st_node t : t ∈ D -> is_Some (p_nodes (k_store k) !! wait_node t) /\ is_Some (get_prio k (wait_node t));
  st_heads h : h ∈ HS -> is_Some (p_aggrs (k_store k) !! h) /\ is_Some (get_prio k h);
}.

(** The user visible priority of a thread. *)
Definition thread_prio (k : K) (t : Z) : Z := prio k (wait_node t).

(** Where a thread enters a queue. *)
Definition enter (k : K) (d : Thread_queue_Operations) (t : Z) (l : list Z) : list Z :=
  match d with
  | Operations_priority => insert_by (fun m => thread_prio k t <? thread_prio k m) t l
  | _ => l ++ [t]
  end.

(** The heads [h] hold the threads [l]. *)
Definition content (k : K) (d : Thread_queue_Operations) (h : Z) (l : list Z) : Prop :=
  match d with
  | Operations_FIFO => Chain.chain (k_mem k) h (wait_node <$> l)
  | Operations_priority => aggr_sorted k h (wait_node <$> l)
  | _ => False
  end.

(** [k'] differs from [k] only in the union of the heads [h] and in the wait
    nodes of [l]. *)
Record touched (h : Z) (l : list Z) (k k' : K) : Prop := {
  tc_rest : k' = with_mem (k_mem k') (with_store (k_store k') (with_prio (k_prio k') k));
  tc_mem : changes (Chain.chain_words h (wait_node <$> l)) (k_mem k) (k_mem k');
  tc_nodes n : n ∉ wait_node <$> l -> p_nodes (k_store k') !! n = p_nodes (k_store k) !! n;
  tc_nodes_dom n : is_Some (p_nodes (k_store k) !! n) -> is_Some (p_nodes (k_store k') !! n);
  tc_aggrs a : a <> h -> p_aggrs (k_store k') !! a = p_aggrs (k_store k) !! a;
  tc_aggrs_dom : is_Some (p_aggrs (k_store k) !! h) -> is_Some (p_aggrs (k_store k') !! h);
  tc_prio n : n <> h -> get_prio k' n = get_prio k n;
  tc_prio_dom : is_Some (get_prio k h) -> is_Some (get_prio k' h);
}.

Lemma wait_node_elem t (l : list Z) : wait_node t ∈ wait_node <$> l <-> t ∈ l.
Proof. split; [|by apply list_elem_of_fmap_2]. intros (t' & ->%(inj wait_node) & ?)%list_elem_of_fmap. done. Qed.

Lemma wait_nodes_NoDup (l : list Z) : NoDup l -> NoDup (wait_node <$> l).
Proof. apply NoDup_fmap_2, _. Qed.

Lemma touched_mem h l k m' : changes (Chain.chain_words h (wait_node <$> l)) (k_mem k) m' -> touched h l k (with_mem m' k).
Proof. intros Hc. by split; [destruct k|..]. Qed.

Lemma touched_sched h l k k' : touched h l k k' -> k_sched k' = k_sched k /\ k_wait k' = k_wait k /\ k_queue k' = k_queue k /\
  k_object k' = k_object k /\ k_barrier k' = k_barrier k /\ k_messages k' = k_messages k /\ k_disable_level k' = k_disable_level k /\ k_timers k' = k_timers k /\ k_pq_node k' = k_pq_node k.
Proof. intros [-> _ _ _ _ _ _ _]. done. Qed.

(** The effect of an operation on the aggregation of the heads. *)
Lemma touched_touch h l k k' : touch h (wait_node <$> l) k k' -> touched h l k k'.
Proof.
  intros Ht. pose proof (fun n => touch_prio _ _ _ _ n Ht) as Ep. destruct Ht as (st & -> & A & B & C & D).
  split; [by destruct k|split; auto|exact C|exact D|exact A| |intros n _; apply Ep|by rewrite Ep].
  intros [g Hg]. destruct (B g Hg) as [r Hr]. exists (set_root r (Some g)). exact Hr.
Qed.

Lemma kernel_set_prio_plain (k : K) n p : (forall t, thread_of_node n = Some t -> threads (k_sched k) !! t = None) ->
  set_prio n p k = with_prio (<[n := p]> (k_prio k)) k.
Proof.
  intros H. cbn. unfold kernel_set_prio, node_thread. destruct (thread_of_node n) as [t|]; [|done]. cbn. by rewrite (H t eq_refl).
Qed.

(** Heads that are no wait node of a thread. *)
Definition plain (k : K) (h : Z) : Prop := forall t, is_Some (threads (k_sched k) !! t) -> h <> wait_node t.

Lemma touched_set_prio h l k p : plain k h -> is_Some (get_prio k h) -> touched h l k (set_prio h p k).
Proof.
  intros Hpl Hh. assert (E : set_prio h p k = with_prio (<[h := p]> (k_prio k)) k).
  { apply kernel_set_prio_plain. intros t Ht. destruct (threads (k_sched k) !! t) eqn:Et; [|done].
    apply thread_of_node_Some in Ht. destruct (Hpl t); [by eexists|done]. }
  split; [rewrite E; by destruct k|rewrite E; by split; auto|by rewrite E..| |].
  - intros n Hn. apply get_set_prio_ne. congruence.
  - intros _. rewrite get_set_prio by done. by eexists.
Qed.

Lemma touched_trans h l k1 k2 k3 : touched h l k1 k2 -> touched h l k2 k3 -> touched h l k1 k3.
Proof.
  intros [R1 A1 B1 C1 D1 E1 F1 G1] [R2 A2 B2 C2 D2 E2 F2 G2]. split; auto.
  - rewrite R2 at 1. rewrite R1 at 1. by destruct k1, k3.
  - by eapply changes_trans.
  - intros. by rewrite B2, B1.
  - intros. by rewrite D2, D1.
  - intros. by rewrite F2, F1.
Qed.

Lemma touched_mono h l l' k k' : l ⊆ l' -> touched h l k k' -> touched h l' k k'.
Proof.
  intros Hl [R A B C D E F G]. split; try done.
  - eapply changes_mono; [|exact A]. intros n. rewrite !Chain.elem_of_chain_words. intros [?|[?|[?|(x & Hx & ?)]]]; auto.
    do 3 right. exists x. split; [|done]. apply list_elem_of_fmap in Hx as (t & -> & Ht). apply list_elem_of_fmap_2. auto.
  - intros n Hn. apply B. intros (t & -> & Ht)%list_elem_of_fmap. apply Hn, list_elem_of_fmap_2. auto.
Qed.

Lemma touched_layout h l D HS k k' : touched h l k k' -> layout D HS (k_mem k) -> layout D HS (k_mem k').
Proof. intros Ht. eapply layout_changes, Ht. Qed.

Lemma touched_stores h l D HS k k' : touched h l k k' -> stores D HS k -> stores D HS k'.
Proof.
  intros [R A B C Da Ea F G] [H1 H2]. split.
  - intros t Ht. destruct (H1 t Ht) as [? Hp]. split; [auto|]. destruct (decide (wait_node t = h)) as [<-|]; [auto|by rewrite F].
  - intros a Ha. destruct (H2 a Ha) as [? Hp]. destruct (decide (a = h)) as [->|]; [auto|]. by rewrite Da, F.
Qed.

(** ** Disjointness *)

(** The words of the free chain of the heads [h] with the free nodes of [hs]. *)
Definition free_nodes (hs : list Z) : list Z := (fun h => h + FREE_NODE) <$> hs.
Definition free_words (h : Z) (hs : list Z) : list Z := Chain.chain_words (h + FREE_CHAIN) (free_nodes hs).
Definition union_words (h : Z) (l : list Z) : list Z := Chain.chain_words h (wait_node <$> l).

(** A mapped node away from the control block and the nodes of a chain. *)
Lemma off_chain_apart m c ns n : is_Some (m !! n) -> is_Some (m !! (n + 8)) -> n + 16 <= c \/ c + 24 <= n ->
  (forall x, x ∈ ns -> n + 16 <= x \/ x + 16 <= n) -> Chain.off_chain m c ns n.
Proof.
  intros Hm1 Hm2 Hs Hsep. unfold Chain.off_chain, Chain.NODE_NEXT, Chain.NODE_PREVIOUS. rewrite Z.add_0_r. split_and!; [done|done|..].
  - intros [?|Hx]%elem_of_cons; [lia|]. specialize (Hsep _ Hx). lia.
  - intros [Hx|?%list_elem_of_singleton]%elem_of_app; [specialize (Hsep _ Hx)|]; lia.
  - intros y [Hx|?%list_elem_of_singleton]%elem_of_app; [specialize (Hsep _ Hx)|]; lia.
  - intros y [?|Hx]%elem_of_cons; [lia|]. specialize (Hsep _ Hx). lia.
Qed.

Section separation.
Context (D HS : gset Z) (m : mem) (Hly : layout D HS m).

Lemma union_word h l x : h ∈ HS -> (forall t, t ∈ l -> t ∈ D) -> x ∈ union_words h l ->
  (h <= x < h + 72) \/ exists t, t ∈ l /\ wait_node t <= x < wait_node t + 16.
Proof.
  intros Hh Hl Hx. apply Chain.elem_of_chain_words in Hx as [?|[?|[?|(n & Hn & ?)]]]; [lia..|].
  apply list_elem_of_fmap in Hn as (t & -> & Ht). right. exists t. split; [done|lia].
Qed.

Lemma free_word h hs x : x ∈ free_words h hs ->
  (h + 72 <= x < h + 96) \/ exists h', h' ∈ hs /\ h' + 96 <= x < h' + 112.
Proof.
  intros Hx. unfold free_words, FREE_CHAIN in Hx. apply Chain.elem_of_chain_words in Hx as [?|[?|[?|(n & Hn & ?)]]]; [lia..|].
  apply list_elem_of_fmap in Hn as (h' & -> & Hh'). right. exists h'. unfold FREE_NODE in *. split; [done|lia].
Qed.

Lemma union_disjoint h h' l l' : h ∈ HS -> h' ∈ HS -> h <> h' ->
  (forall t, t ∈ l -> t ∈ D) -> (forall t, t ∈ l' -> t ∈ D) -> l ## l' -> union_words h l ## union_words h' l'.
Proof.
  intros Hh Hh' Hne Hl Hl' Hd x Hx Hx'. destruct (ly_heads_sep _ _ _ Hly h h' Hh Hh') as [?|Hs]; [done|].
  apply union_word in Hx as [?|(t & Ht & ?)]; [..|done|done]; apply union_word in Hx' as [?|(t' & Ht' & ?)]; try done.
  - lia.
  - destruct (ly_mixed_sep _ _ _ Hly h t'); auto; lia.
  - destruct (ly_mixed_sep _ _ _ Hly h' t); auto; lia.
  - destruct (ly_node_sep _ _ _ Hly t t') as [->|?]; auto; [set_solver|lia].
Qed.

Lemma union_free_disjoint h h' l hs : h ∈ HS -> h' ∈ HS -> (forall x, x ∈ hs -> x ∈ HS) ->
  (forall t, t ∈ l -> t ∈ D) -> union_words h l ## free_words h' hs.
Proof.
  intros Hh Hh' Hhs Hl x Hx Hx'. apply union_word in Hx as [?|(t & Ht & ?)]; [..|done|done];
    apply free_word in Hx' as [?|(g & Hg & ?)].
  - destruct (ly_heads_sep _ _ _ Hly h h'); auto; lia.
  - destruct (ly_heads_sep _ _ _ Hly h g); auto; lia.
  - destruct (ly_mixed_sep _ _ _ Hly h' t); auto; lia.
  - destruct (ly_mixed_sep _ _ _ Hly g t); auto; lia.
Qed.

Lemma free_disjoint h h' hs hs' : h ∈ HS -> h' ∈ HS -> h <> h' -> (forall x, x ∈ hs -> x ∈ HS) ->
  (forall x, x ∈ hs' -> x ∈ HS) -> hs ## hs' -> free_words h hs ## free_words h' hs'.
Proof.
  intros Hh Hh' Hne Hhs Hhs' Hd x Hx Hx'. apply free_word in Hx as [?|(g & Hg & ?)]; apply free_word in Hx' as [?|(g' & Hg' & ?)].
  - destruct (ly_heads_sep _ _ _ Hly h h'); auto; lia.
  - destruct (ly_heads_sep _ _ _ Hly h g'); auto; lia.
  - destruct (ly_heads_sep _ _ _ Hly g h'); auto; lia.
  - destruct (ly_heads_sep _ _ _ Hly g g') as [->|?]; auto; [set_solver|lia].
Qed.

(** A node that is not on a chain can be added to it. *)
Lemma union_off h l t : h ∈ HS -> (forall t, t ∈ l -> t ∈ D) -> t ∈ D -> t ∉ l ->
  Chain.off_chain m h (wait_node <$> l) (wait_node t).
Proof.
  intros Hh Hl Ht Hn. destruct (ly_node _ _ _ Hly t Ht) as (_ & Hm1 & Hm2).
  pose proof (ly_mixed_sep _ _ _ Hly h t Hh Ht) as Hs.
  assert (Hsep : forall x, x ∈ wait_node <$> l -> wait_node t + 16 <= x \/ x + 16 <= wait_node t).
  { intros x (t' & -> & Ht')%list_elem_of_fmap. destruct (ly_node_sep _ _ _ Hly t t'); auto. by subst. }
  apply off_chain_apart; [done|done|lia|done].
Qed.

Lemma free_off h hs g : h ∈ HS -> (forall x, x ∈ hs -> x ∈ HS) -> g ∈ HS -> g ∉ hs ->
  Chain.off_chain m (h + FREE_CHAIN) (free_nodes hs) (g + FREE_NODE).
Proof.
  intros Hh Hhs Hg Hn. destruct (ly_heads _ _ _ Hly g Hg) as (_ & _ & Hm).
  pose proof (Hm 96 ltac:(set_solver)) as Hm1. pose proof (Hm 104 ltac:(set_solver)) as Hm2.
  assert (Hs : g + 112 <= h \/ h + 96 <= g + 96) by (destruct (ly_heads_sep _ _ _ Hly h g); auto; lia).
  assert (Hsep : forall x, x ∈ free_nodes hs -> g + 96 + 16 <= x \/ x + 16 <= g + 96).
  { unfold free_nodes, FREE_NODE. intros x (g' & -> & Hg')%list_elem_of_fmap.
    destruct (ly_heads_sep _ _ _ Hly g g'); auto; [by subst|lia]. }
  unfold FREE_CHAIN, FREE_NODE. apply off_chain_apart; [done|by replace (g + 96 + 8) with (g + 104) by lia|lia|done].
Qed.
End separation.

(** A chain whose words were not changed. *)
Lemma chain_changes W m m' c ns : changes W m m' -> Chain.chain_words c ns ## W -> Chain.chain m c ns -> Chain.chain m' c ns.
Proof. intros [Hc _] Hd. apply Chain.chain_frame. intros n Hn. apply Hc. intros HW. exact (Hd n Hn HW). Qed.

(** ** Disciplines *)

Section discipline.
Context (D HS : gset Z).

Definition supported (d : Thread_queue_Operations) : Prop := d = Operations_FIFO \/ d = Operations_priority.

Lemma content_frame d k k' h h' l l' : layout D HS (k_mem k) -> h ∈ HS -> h' ∈ HS -> h <> h' ->
  (forall t, t ∈ l -> t ∈ D) -> (forall t, t ∈ l' -> t ∈ D) -> l ## l' ->
  touched h' l' k k' -> content k d h l -> content k' d h l.
Proof.
  intros Hly Hh Hh' Hne Hl Hl' Hd Ht. destruct d; cbn; try done.
  - eapply chain_changes; [apply Ht|]. by eapply (union_disjoint D HS).
  - apply aggr_sorted_local; cbn.
    + by apply (tc_aggrs _ _ _ _ Ht).
    + intros n (t & -> & Hin)%list_elem_of_fmap. apply (tc_nodes _ _ _ _ Ht). rewrite wait_node_elem. set_solver.
    + intros n Hn. apply (tc_prio _ _ _ _ Ht). apply elem_of_cons in Hn as [->|(t & -> & Hin)%list_elem_of_fmap]; [done|].
      destruct (ly_mixed_sep _ _ _ Hly h' t); auto; lia.
Qed.

(** Stores to the free chains do not affect the contents. *)
Lemma content_mem d k h l m' hs g : layout D HS (k_mem k) -> h ∈ HS -> g ∈ HS -> (forall x, x ∈ hs -> x ∈ HS) ->
  (forall t, t ∈ l -> t ∈ D) -> changes (free_words g hs) (k_mem k) m' -> content k d h l -> content (with_mem m' k) d h l.
Proof.
  intros Hly Hh Hg Hhs Hl Hc. destruct d; cbn; try done.
  - eapply chain_changes; [exact Hc|]. by eapply (union_free_disjoint D HS).
  - by apply aggr_sorted_local.
Qed.

(** Nor does the rest of the kernel. *)
Lemma content_ext d k k' h l : k_mem k' = k_mem k -> k_store k' = k_store k ->
  (forall n, n ∈ h :: (wait_node <$> l) -> get_prio k' n = get_prio k n) -> content k d h l -> content k' d h l.
Proof. intros Em Es Ep. destruct d; cbn; try done; [by rewrite Em|]. apply aggr_sorted_local; cbn [get_store kernel_HasPriority]; by rewrite ?Es. Qed.
End discipline.

(** ** Operations of the disciplines *)

Definition d_initialize (d : Thread_queue_Operations) : Z -> Z -> Thread_queue_Context -> Z -> M K Thread_queue_Context :=
  match d with
  | Operations_priority => _Thread_queue_Priority_do_initialize
  | _ => _Thread_queue_FIFO_do_initialize
  end.
Definition d_enqueue (d : Thread_queue_Operations) : Z -> Z -> Thread_queue_Context -> Z -> M K Thread_queue_Context :=
  match d with
  | Operations_priority => _Thread_queue_Priority_do_enqueue
  | _ => _Thread_queue_FIFO_do_enqueue
  end.
Definition d_extract (d : Thread_queue_Operations)
    : Z -> Z -> Z -> Thread_queue_Context -> Z -> M K Thread_queue_Context :=
  match d with
  | Operations_priority => _Thread_queue_Priority_do_extract
  | _ => _Thread_queue_FIFO_do_extract
  end.

Lemma insert_by_fmap (f : Z -> Z) lt t l : insert_by lt (f t) (f <$> l) = f <$> insert_by (fun m => lt (f m)) t l.
Proof. induction l as [|x l IH]; cbn; [done|]. destruct (lt (f x)); [done|]. cbn. by rewrite IH. Qed.

Lemma filter_wait_node t (l : list Z) : filter (fun n => n <> wait_node t) (wait_node <$> l) = wait_node <$> filter (fun x => x <> t) l.
Proof.
  induction l as [|x l IH]; [done|]. rewrite fmap_cons, !filter_cons. destruct (decide (x = t)) as [->|Hne].
  - rewrite !decide_False by (intros H; by apply H). done.
  - rewrite !decide_True; [by rewrite fmap_cons, IH|done|]. by intros ?%(inj wait_node).
Qed.

Lemma enter_elem k d t l x : x ∈ enter k d t l <-> x = t \/ x ∈ l.
Proof. destruct d; cbn; rewrite ?elem_of_insert_by; set_solver. Qed.

Lemma enter_length k d t l : length (enter k d t l) = S (length l).
Proof.
  destruct d; cbn; try (rewrite length_app; cbn; lia). induction l as [|x l IH]; cbn; [done|].
  destruct (_ <? _); cbn; [done|by rewrite IH].
Qed.

Lemma enter_NoDup k d t l : t ∉ l -> NoDup l -> NoDup (enter k d t l).
Proof.
  intros Ht Hnd. assert (Hp : enter k d t l ≡ₚ t :: l); [|rewrite Hp; by constructor].
  destruct d; cbn; try (rewrite Permutation_app_comm; done). apply insert_by_Permutation.
Qed.

Lemma remove_length (t : Z) l : NoDup l -> t ∈ l -> length l = S (length (filter (fun x => x <> t) l)).
Proof.
  intros Hnd (l1 & l2 & ->)%list_elem_of_split. rewrite (Chain.filter_ne_split t l1 l2 Hnd), !length_app. cbn. lia.
Qed.

Section specs.
Context (D HS : gset Z) (d : Thread_queue_Operations) (Hd : supported d).

(** The nodes of the threads [D] and the heads [HS] of [k]. *)
Record ready_memory (k : K) : Prop := {
  rm_layout : layout D HS (k_mem k);
  rm_stores : stores D HS k;
  rm_plain h : h ∈ HS -> plain k h;
}.

Lemma touched_ready h l k k' : touched h l k k' -> ready_memory k -> ready_memory k'.
Proof.
  intros Ht [H1 H2 H3]. split; [by eapply touched_layout|by eapply touched_stores|].
  intros g Hg. unfold plain. destruct (touched_sched _ _ _ _ Ht) as (-> & _). by apply H3.
Qed.

Lemma addable_wait_node k h l t : ready_memory k -> h ∈ HS -> t ∈ D -> t ∉ l -> addable k h (wait_node <$> l) (wait_node t).
Proof using Type.
  intros [Hly Hst Hpl] Hh Ht Hn. destruct (st_node _ _ _ Hst t Ht) as [Hnd Hp]. split; [by rewrite wait_node_elem|].
  split; [|split; [by apply (ly_node _ _ _ Hly)|done]]. pose proof (ly_mixed_sep _ _ _ Hly h t Hh Ht). lia.
Qed.

Lemma d_initialize_spec q t c h (Q : Thread_queue_Context -> K -> Prop) k :
  ready_memory k -> h ∈ HS -> t ∈ D ->
  (forall k', content k' d h [t] -> touched h [t] k k' -> Q c k') -> wp (d_initialize d q t c h) Q k.
Proof using Hd.
  intros Hrm Hh Ht HQ. pose proof Hrm as [Hly Hst Hpl]. destruct Hd as [->| ->]; cbn [d_initialize].
  - apply wp_bind, wp_ret, wp_bind. destruct (ly_heads _ _ _ Hly h Hh) as (_ & _ & Hm).
    destruct (ly_node _ _ _ Hly t Ht) as (_ & Hn1 & Hn2). apply Chain.initialize_one_spec.
    + cbn. pose proof (Hm 0 ltac:(set_solver)) as H0. rewrite Z.add_0_r in H0.
      pose proof (Hm 8 ltac:(set_solver)). pose proof (Hm 16 ltac:(set_solver)). set_solver.
    + pose proof (ly_mixed_sep _ _ _ Hly h t Hh Ht). lia.
    + intros m' Hc Hch. apply wp_ret, HQ; [done|]. by apply touched_mem.
  - apply wp_bind. destruct (st_heads _ _ _ Hst h Hh) as [Ha Hp].
    eapply priority_initialize_one_spec; [done|done|by apply (addable_wait_node k h [] t); [..|set_solver]|].
    intros k' k'' Hok Htc. apply wp_ret, HQ; [apply Hok|].
    eapply touched_trans; [by apply (touched_set_prio h [t] k (thread_prio k t)); [apply Hpl|]|]. by apply touched_touch.
Qed.

Lemma d_enqueue_spec q t c h l (Q : Thread_queue_Context -> K -> Prop) k :
  ready_memory k -> h ∈ HS -> t ∈ D -> t ∉ l -> (forall x, x ∈ l -> x ∈ D) -> content k d h l ->
  (forall k', content k' d h (enter k d t l) -> touched h (enter k d t l) k k' -> Q c k') -> wp (d_enqueue d q t c h) Q k.
Proof using Hd.
  intros Hrm Hh Ht Hn Hl Hc HQ. pose proof Hrm as [Hly Hst Hpl]. destruct Hd as [->| ->]; cbn [d_enqueue].
  - apply wp_bind, wp_ret, wp_bind. apply Chain.append_spec with (ns := wait_node <$> l); [exact Hc|by eapply (union_off D HS)|].
    intros m' Hc' Hch. apply wp_ret. cbn in HQ. apply HQ; [cbn; by rewrite fmap_app|]. apply touched_mem. by rewrite fmap_app.
  - destruct (addable_wait_node k h l t Hrm Hh Ht Hn) as (H1 & H2 & H3 & H4 & H5).
    apply wp_bind, wp_node_priority; [done|]. apply wp_bind. eapply plain_insert_spec; [exact Hc|done..|].
    intros k' l' Hs Htc. apply wp_ret.
    assert (El : l' = wait_node <$> enter k Operations_priority t l) by exact (insert_by_fmap wait_node (fun m => prio k (wait_node t) <? prio k m) t l).
    apply HQ; [unfold content; by rewrite <- El|]. apply touched_touch. by rewrite <- El.
Qed.

Lemma d_extract_spec q o t c h l (Q : Thread_queue_Context -> K -> Prop) k :
  NoDup l -> t ∈ l -> content k d h l ->
  (forall k', content k' d h (filter (fun x => x <> t) l) -> touched h l k k' -> Q c k') -> wp (d_extract d q h o c t) Q k.
Proof using Hd.
  intros Hnd Ht Hc HQ. destruct Hd as [->| ->]; cbn [d_extract].
  - apply wp_bind. destruct (list_elem_of_split l t Ht) as (l1 & l2 & ->).
    cbn in Hc. rewrite fmap_app, fmap_cons in Hc. eapply Chain.extract_spec; [exact Hc|].
    intros m' Hc' Hch. apply wp_ret, HQ.
    + cbn. by rewrite (Chain.filter_ne_split t l1 l2 Hnd), fmap_app.
    + apply touched_mem. eapply changes_mono; [|exact Hch]. intros n. rewrite !Chain.elem_of_chain_words, fmap_app, fmap_cons.
      intros [?|[?|[?|(x & Hx & ?)]]]; auto. do 3 right. exists x. split; [set_solver|done].
  - apply wp_bind. eapply plain_extract_spec; [apply Hc|by apply list_elem_of_fmap_2|]. intros k' Hs Htc. apply wp_ret.
    rewrite filter_wait_node in Hs. apply HQ; [|by apply touched_touch]. split; [done|].
    eapply sorted_by_ext; [intros n _; apply (touch_key _ _ _ _ n Htc)|]. rewrite <- filter_wait_node.
    apply sorted_by_filter, Hc.
Qed.

Lemma discipline_first_spec t l h (Q : Z -> K -> Prop) k : content k d h (t :: l) -> Q t k -> wp (operations_first d h) Q k.
Proof using Hd.
  intros Hc HQ. destruct Hd as [->| ->]; cbn [operations_first]; apply wp_bind.
  - eapply Chain.first_spec; [exact Hc|]. apply wp_ret. by rewrite wait_node_owner.
  - eapply wp_minimum; [apply Hc|done|]. apply wp_ret. by rewrite wait_node_owner.
Qed.
End specs.

(** * The invariant *)

(** What a queue operation on the heads [g] changes besides the wait
    information and the queue: the union of [g] and the wait nodes of [l],
    the free chain of [g] and the free nodes of [fs]. *)
Record moved (g : Z) (fs l : list Z) (k k' : K) : Prop := {
  mv_sched : k_sched k' = k_sched k;
  mv_object : k_object k' = k_object k;
  mv_barrier : k_barrier k' = k_barrier k;
  mv_messages : k_messages k' = k_messages k;
  mv_level : k_disable_level k' = k_disable_level k;
  mv_timers : k_timers k' = k_timers k;
  mv_mem : changes (free_words g fs ++ union_words g l) (k_mem k) (k_mem k');
  mv_nodes n : n ∉ wait_node <$> l -> p_nodes (k_store k') !! n = p_nodes (k_store k) !! n;
  mv_nodes_dom n : is_Some (p_nodes (k_store k) !! n) -> is_Some (p_nodes (k_store k') !! n);
  mv_aggrs a : a <> g -> p_aggrs (k_store k') !! a = p_aggrs (k_store k) !! a;
  mv_aggrs_dom : is_Some (p_aggrs (k_store k) !! g) -> is_Some (p_aggrs (k_store k') !! g);
  mv_prio n : n <> g -> get_prio k' n = get_prio k n;
  mv_prio_dom : is_Some (get_prio k g) -> is_Some (get_prio k' g);
}.

(** [k2] is [k] but for its wait information, its queues and its memory. *)
Definition bookkept (m : mem) (k k2 : K) : Prop :=
  k2 = with_wait (k_wait k2) (with_queue (k_queue k2) (with_mem m k)).

Lemma bookkept_prio m k k2 n : bookkept m k k2 -> get_prio k2 n = get_prio k n.
Proof. intros ->. by destruct k. Qed.

Lemma moved_intro g fs l k k2 k' m : changes (free_words g fs) (k_mem k) m -> bookkept m k k2 -> touched g l k2 k' ->
  moved g fs l k k' /\ k_wait k' = k_wait k2 /\ k_queue k' = k_queue k2.
Proof.
  intros Hm Hb Ht. pose proof (fun n => bookkept_prio m k k2 n Hb) as Ep.
  destruct (touched_sched _ _ _ _ Ht) as (E1 & E2 & E3 & E4 & E5 & E6 & E7 & E8 & _). destruct Ht as [_ A B C D E F G].
  unfold bookkept in Hb. rewrite Hb in A, B, C, D, E, E1, E4, E5, E6, E7, E8. cbn in A, B, C, D, E, E1, E4, E5, E6, E7, E8. split; [|done]. split; try done.
  - eapply changes_trans; (eapply changes_mono; [|first [exact Hm|exact A]]); intros x Hx; apply elem_of_app; auto.
  - intros n Hn. by rewrite F, Ep.
  - by rewrite <- Ep.
Qed.

Section moves.
Context (D HS : gset Z).

Lemma moved_ready g fs l k k' : moved g fs l k k' -> ready_memory D HS k -> ready_memory D HS k'.
Proof.
  intros [Es _ _ _ _ _ Hm Hn Hnd Ha Had Hp Hpd] [Hly [Hs1 Hs2] Hpl]. split.
  - by eapply layout_changes.
  - split.
    + intros t Ht. destruct (Hs1 t Ht) as [? Hpt]. split; [auto|]. destruct (decide (wait_node t = g)) as [<-|]; [auto|by rewrite Hp].
    + intros a Hain. destruct (Hs2 a Hain) as [? Hpa]. destruct (decide (a = g)) as [->|]; [auto|]. by rewrite Ha, Hp.
  - intros h Hh. unfold plain. rewrite Es. by apply Hpl.
Qed.

Context (k k' : K) (g : Z) (fs l : list Z).
Hypothesis Hrm : ready_memory D HS k.
Hypothesis Hmv : moved g fs l k k'.
Hypothesis Hg : g ∈ HS.
Hypothesis Hfs : forall x, x ∈ fs -> x ∈ HS.
Hypothesis Hl : forall t, t ∈ l -> t ∈ D.

Lemma moved_content d h w : h ∈ HS -> h <> g -> (forall t, t ∈ w -> t ∈ D) -> w ## l ->
  content k d h w -> content k' d h w.
Proof using All.
  intros Hh Hne Hw Hd. pose proof (rm_layout _ _ _ Hrm) as Hly. destruct d; cbn; try done.
  - eapply chain_changes; [apply Hmv|]. intros x Hx [Hf|Hu]%elem_of_app.
    + by eapply (union_free_disjoint D HS _ Hly h g w fs).
    + by eapply (union_disjoint D HS _ Hly h g w l).
  - apply aggr_sorted_local; cbn.
    + by apply (mv_aggrs _ _ _ _ _ Hmv).
    + intros n (t & -> & Hin)%list_elem_of_fmap. apply (mv_nodes _ _ _ _ _ Hmv). rewrite wait_node_elem. set_solver.
    + intros n Hn. apply (mv_prio _ _ _ _ _ Hmv). apply elem_of_cons in Hn as [->|(t & -> & Hin)%list_elem_of_fmap]; [done|].
      destruct (ly_mixed_sep _ _ _ Hly g t); auto; lia.
Qed.

Lemma moved_free h hs : h ∈ HS -> h <> g -> (forall x, x ∈ hs -> x ∈ HS) -> hs ## fs ->
  Chain.chain (k_mem k) (h + FREE_CHAIN) (free_nodes hs) -> Chain.chain (k_mem k') (h + FREE_CHAIN) (free_nodes hs).
Proof using All.
  intros Hh Hne Hhs Hd. pose proof (rm_layout _ _ _ Hrm) as Hly. eapply chain_changes; [apply Hmv|].
  intros x Hx [Hf|Hu]%elem_of_app.
  - by eapply (free_disjoint D HS _ Hly h g hs fs).
  - by eapply (union_free_disjoint D HS _ Hly g h l hs).
Qed.
End moves.

Inductive location :=
  | Spare (t : Z)
  | Lent (q : Z).

Definition fn_set {A} (f : Z -> A) (x : Z) (v : A) : Z -> A := fun y => if decide (y = x) then v else f y.

Lemma fn_set_eq {A} (f : Z -> A) x v : fn_set f x v x = v.
Proof. unfold fn_set. by rewrite decide_True. Qed.
Lemma fn_set_ne {A} (f : Z -> A) x y v : y <> x -> fn_set f x v y = f y.
Proof. intros H. unfold fn_set. by rewrite decide_False. Qed.

Section queues.
Context (D HS QS : gset Z) (disc : Z -> Thread_queue_Operations).

(** The queue [q] holds the threads [w] and borrowed the heads [hs]; the
    last of them, which came first, are its own. *)
Definition queue_rep (k : K) (q : Z) (w hs : list Z) : Prop :=
  exists v, k_queue k !! q = Some v /\ owner v = NULL /\ length hs = length w /\
    heads v = default NULL (last hs) /\
    (forall h, last hs = Some h -> content k (disc q) h w /\ Chain.chain (k_mem k) (h + FREE_CHAIN) (free_nodes hs)) /\
    (forall h, h ∈ hs -> last hs <> Some h -> Chain.chain (k_mem k) (h + FREE_CHAIN) []).

Record tq_inv (k : K) (ws hs : Z -> list Z) (place : Z -> location) : Prop := {
  ti_ready : ready_memory D HS k;
  ti_queue q : q ∈ QS -> queue_rep k q (ws q) (hs q);
  ti_ws q t : t ∈ ws q -> q ∈ QS /\ t ∈ D;
  ti_ws_nodup q : NoDup (ws q);
  ti_ws_unique q q' t : t ∈ ws q -> t ∈ ws q' -> q = q';
  ti_hs q h : h ∈ hs q -> q ∈ QS /\ h ∈ HS /\ place h = Lent q;
  ti_hs_nodup q : NoDup (hs q);
  ti_spare t : t ∈ D -> (forall q, t ∉ ws q) -> exists w, k_wait k !! t = Some w /\
    spare_heads w ∈ HS /\ place (spare_heads w) = Spare t /\ Chain.chain (k_mem k) (spare_heads w + FREE_CHAIN) [];
  ti_wait t : t ∈ D -> is_Some (k_wait k !! t);
}.

(** The words of the heads, and of the wait nodes of [l]. *)
Definition heads_word (x : Z) : Prop := exists h, h ∈ HS /\ h <= x < h + 112.
Definition node_word (l : list Z) (x : Z) : Prop := exists t, t ∈ l /\ wait_node t <= x < wait_node t + 16.

(** A queue operation of the thread [t] on a queue with the threads [l]: of
    the wait information only the spare heads of [t] change, of the queues
    only the heads. *)
Record queue_step (l : list Z) (t : Z) (k k' : K) : Prop := {
  qs_sched : k_sched k' = k_sched k;
  qs_object : k_object k' = k_object k;
  qs_barrier : k_barrier k' = k_barrier k;
  qs_messages : k_messages k' = k_messages k;
  qs_level : k_disable_level k' = k_disable_level k;
  qs_timers : k_timers k' = k_timers k;
  qs_wait : exists w sp, k_wait k !! t = Some w /\
    k_wait k' = <[t := {| wait_queue := wait_queue w; wait_operations := wait_operations w; wait_flags := wait_flags w;
                          wait_return_code := wait_return_code w; spare_heads := sp |}]> (k_wait k);
  qs_mem : exists W, changes W (k_mem k) (k_mem k') /\ forall x, x ∈ W -> heads_word x \/ node_word l x;
}.

Lemma moved_words g fs l k k' : moved g fs l k k' -> g ∈ HS -> (forall x, x ∈ fs -> x ∈ HS) -> (forall t, t ∈ l -> t ∈ D) ->
  exists W, changes W (k_mem k) (k_mem k') /\ forall x, x ∈ W -> heads_word x \/ node_word l x.
Proof.
  intros Hmv Hg Hfs Hl. eexists. split; [apply Hmv|]. intros x [Hx|Hx]%elem_of_app.
  - apply free_word in Hx as [?|(h & Hh & ?)]; left; [exists g|exists h]; (split; [auto|lia]).
  - apply (union_word D HS) in Hx as [?|(t & Ht & ?)]; [left; exists g; split; [done|lia]|right; by exists t|done|done].
Qed.

(** ** Preservation *)

(** An operation on the queue [q] by the thread [t] keeps what belongs to
    other queues and threads. *)
Section preserve.
Context (k k' : K) (ws hs : Z -> list Z) (place place' : Z -> location) (q t : Z) (w' hs' : list Z) (g : Z) (fs l : list Z).
Hypothesis Hinv : tq_inv k ws hs place.
Hypothesis Hmv : moved g fs l k k'.
Hypothesis Hg : g ∈ HS /\ (place g = Lent q \/ place g = Spare t).
Hypothesis Hfs : forall h, h ∈ fs -> h ∈ HS /\ (place h = Lent q \/ place h = Spare t).
Hypothesis Hl : forall x, x ∈ l -> x ∈ D /\ (x = t \/ x ∈ ws q).
Hypothesis Hq : q ∈ QS.
Hypothesis Ht : t ∈ D.
Hypothesis Htq : forall q', q' <> q -> t ∉ ws q'.
Hypothesis Hqueue : forall q', q' <> q -> k_queue k' !! q' = k_queue k !! q'.
Hypothesis Hwait : forall x, x <> t -> k_wait k' !! x = k_wait k !! x.
Hypothesis Hwait_t : is_Some (k_wait k' !! t).
Hypothesis Hplace : forall h q', q' <> q -> place h = Lent q' -> place' h = Lent q'.
Hypothesis Hplace_s : forall h x, x <> t -> place h = Spare x -> place' h = Spare x.

Lemma other_heads q' h : q' <> q -> h ∈ hs q' -> h <> g /\ (h ∉ fs) /\ h ∈ HS.
Proof using All.
  intros Hne Hh. destruct (ti_hs _ _ _ _ Hinv q' h Hh) as (_ & Hin & Hp). split_and!; [..|done].
  - intros ->. destruct Hg as [_ [E|E]]; congruence.
  - intros Hf. destruct (Hfs h Hf) as [_ [E|E]]; congruence.
Qed.

Lemma preserve_queue q' : q' <> q -> q' ∈ QS -> queue_rep k' q' (ws q') (hs q').
Proof using All.
  intros Hne Hq'. destruct (ti_queue _ _ _ _ Hinv q' Hq') as (v & Hv & Ho & Hlen & Hh & Hlast & Hrest).
  exists v. rewrite Hqueue by done. split_and!; [done|done|done|done|..].
  - intros h Hlh. destruct (Hlast h Hlh) as [Hc Hf].
    assert (Hin : h ∈ hs q') by (by apply last_Some_elem_of).
    destruct (other_heads q' h Hne Hin) as (H1 & H2 & H3). pose proof (ti_ready _ _ _ _ Hinv) as Hrm. split.
    + eapply (moved_content D HS); [exact Hrm|exact Hmv|apply Hg|apply Hfs|apply Hl|done|done| | |exact Hc].
      * intros x Hx. by apply (ti_ws _ _ _ _ Hinv q').
      * intros x Hx [_ [->|Hx']]%Hl; [by apply (Htq q')|]. apply Hne. by eapply (ti_ws_unique _ _ _ _ Hinv).
    + eapply (moved_free D HS); [exact Hrm|exact Hmv|apply Hg|apply Hfs|apply Hl|done|done| | |exact Hf].
      * intros x Hx. by apply (other_heads q').
      * intros x Hx Hxf. by apply (other_heads q' x Hne Hx).
  - intros h Hin Hnl. destruct (other_heads q' h Hne Hin) as (H1 & H2 & H3).
    apply (moved_free D HS k k' g fs l (ti_ready _ _ _ _ Hinv) Hmv (proj1 Hg) (fun x Hx => proj1 (Hfs x Hx)) (fun x Hx => proj1 (Hl x Hx)) h []);
      [done|done|set_solver|set_solver|]. by apply Hrest.
Qed.

Hypothesis Hrep : queue_rep k' q w' hs'.
Hypothesis Hw' : NoDup w' /\ (forall x, x ∈ w' <-> (x = t /\ t ∈ w') \/ (x <> t /\ x ∈ ws q)).
Hypothesis Hhs' : NoDup hs' /\ forall h, h ∈ hs' -> h ∈ HS /\ place' h = Lent q.
Hypothesis Hspare : t ∉ w' -> exists w, k_wait k' !! t = Some w /\
    spare_heads w ∈ HS /\ place' (spare_heads w) = Spare t /\ Chain.chain (k_mem k') (spare_heads w + FREE_CHAIN) [].

Lemma preserve_inv : tq_inv k' (fn_set ws q w') (fn_set hs q hs') place'.
Proof using All.
  destruct Hw' as [Hnd Hx']. destruct Hhs' as [Hnd' Hh'].
  assert (Hin : forall q' x, x ∈ fn_set ws q w' q' -> (q' = q /\ x ∈ w') \/ (q' <> q /\ x ∈ ws q' /\ x <> t)).
  { intros q' x. unfold fn_set. case_decide; [auto|]. intros Hx. right. split_and!; [done|done|]. intros ->. by apply (Htq q'). }
  assert (Hold : forall x, x ∈ w' -> x <> t -> x ∈ ws q) by (intros x Hx Hne; apply Hx' in Hx as [[-> _]|[_ ?]]; done).
  split.
  - eapply moved_ready; [exact Hmv|apply Hinv].
  - intros q' Hq'. destruct (decide (q' = q)) as [->|Hne]; [by rewrite !fn_set_eq|]. rewrite !fn_set_ne by done.
    by apply preserve_queue.
  - intros q' x [[-> Hx]|(Hne & Hx & _)]%Hin; [|by apply (ti_ws _ _ _ _ Hinv)]. split; [done|].
    destruct (decide (x = t)) as [->|]; [done|]. by apply (ti_ws _ _ _ _ Hinv q), Hold.
  - intros q'. unfold fn_set. case_decide; [done|]. apply (ti_ws_nodup _ _ _ _ Hinv).
  - intros q1 q2 x [[-> Hx1]|(Hn1 & Hx1 & Ht1)]%Hin [[-> Hx2]|(Hn2 & Hx2 & Ht2)]%Hin; [done|..].
    + exfalso. apply Hn2. symmetry. eapply (ti_ws_unique _ _ _ _ Hinv); [by apply Hold|done].
    + exfalso. apply Hn1. eapply (ti_ws_unique _ _ _ _ Hinv); [done|by apply Hold].
    + by eapply (ti_ws_unique _ _ _ _ Hinv).
  - intros q' h. unfold fn_set. case_decide as E; [subst; intros Hh; split; [done|by apply Hh']|].
    intros Hh. destruct (ti_hs _ _ _ _ Hinv q' h Hh) as (? & ? & ?). split_and!; auto.
  - intros q'. unfold fn_set. case_decide; [done|]. apply (ti_hs_nodup _ _ _ _ Hinv).
  - intros x Hx Hno. destruct (decide (x = t)) as [->|Hne].
    { apply Hspare. specialize (Hno q). by rewrite fn_set_eq in Hno. }
    destruct (ti_spare _ _ _ _ Hinv x Hx) as (w & Hw & Hs & Hp & Hc).
    { intros q' Hq'. apply (Hno q'). unfold fn_set. case_decide; [subst|done]. apply Hx'. auto. }
    exists w. rewrite Hwait by done. split_and!; [done|done|by apply Hplace_s|].
    apply (moved_free D HS k k' g fs l (ti_ready _ _ _ _ Hinv) Hmv (proj1 Hg) (fun x Hx => proj1 (Hfs x Hx)) (fun x Hx => proj1 (Hl x Hx)) _ []);
      [done| |set_solver|set_solver|done].
    intros E. rewrite E in Hp. destruct Hg as [_ [Hg'|Hg']]; congruence.
  - intros x Hx. destruct (decide (x = t)) as [->|Hne]; [done|]. rewrite Hwait by done. by apply (ti_wait _ _ _ _ Hinv).
Qed.
End preserve.

(** ** Entering and leaving a queue *)

Context (Hdisc : forall q, q ∈ QS -> supported (disc q)).

Lemma operations_enqueue_eq d q t c : supported d ->
  operations_enqueue d q t c = _Thread_queue_Queue_enqueue q t c (d_initialize d) (d_enqueue d).
Proof. by intros [->| ->]. Qed.

(** The wait information of [t] with other spare heads. *)
Definition with_spare (w : Thread_Wait_information) (sp : Z) : Thread_Wait_information :=
  {| wait_queue := wait_queue w; wait_operations := wait_operations w; wait_flags := wait_flags w;
     wait_return_code := wait_return_code w; spare_heads := sp |}.


Lemma bookkept_ready m W k k2 : changes W (k_mem k) m -> bookkept m k k2 -> ready_memory D HS k -> ready_memory D HS k2.
Proof.
  intros Hm Hb [R1 [S1 S2] P1]. pose proof (fun n => bookkept_prio m k k2 n Hb) as Ep. rewrite Hb. split; [by eapply layout_changes|split|done].
  - intros x Hx. rewrite <- Hb, Ep. rewrite Hb. by apply S1.
  - intros x Hx. rewrite <- Hb, Ep. rewrite Hb. by apply S2.
Qed.

Lemma bookkept_content d m k k2 h l g fs : layout D HS (k_mem k) -> h ∈ HS -> g ∈ HS -> (forall x, x ∈ fs -> x ∈ HS) ->
  (forall x, x ∈ l -> x ∈ D) -> changes (free_words g fs) (k_mem k) m -> bookkept m k k2 -> content k d h l -> content k2 d h l.
Proof.
  intros Hly Hh Hg Hfs Hl Hm Hb Hc. pose proof (fun n => bookkept_prio m k k2 n Hb) as Ep.
  eapply (content_ext d (with_mem m k)); [by rewrite Hb..| |by eapply (content_mem D HS)]. intros y _. rewrite Ep. by destruct k.
Qed.

Section enqueue.
Context (k : K) (ws hs : Z -> list Z) (place : Z -> location) (q t : Z) (v : Thread_queue_Queue) (w : Thread_Wait_information).
Abbreviation sp := (spare_heads w).
Abbreviation w' := (enter k (disc q) t (ws q)).
Abbreviation place' := (fn_set place sp (Lent q)).
Hypothesis Hinv : tq_inv k ws hs place.
Hypothesis Hq : q ∈ QS.
Hypothesis Ht : t ∈ D.
Hypothesis Hno : forall q', t ∉ ws q'.
Hypothesis Hv : k_queue k !! q = Some v.
Hypothesis Ho : owner v = NULL.
Hypothesis Hlen : length (hs q) = length (ws q).
Hypothesis Hw : k_wait k !! t = Some w.
Hypothesis Hsp : sp ∈ HS.
Hypothesis Hpl : place sp = Spare t.
Hypothesis Hfree : Chain.chain (k_mem k) (sp + FREE_CHAIN) [].

Lemma entered : NoDup w' /\ (forall x, x ∈ w' <-> (x = t /\ t ∈ w') \/ (x <> t /\ x ∈ ws q)).
Proof using Hinv Hno.
  split; [apply enter_NoDup; [done|apply Hinv]|]. intros x. rewrite !enter_elem.
  destruct (decide (x = t)) as [->|]; naive_solver.
Qed.

Lemma spare_not_lent q' : sp ∉ hs q'.
Proof using Hinv Hpl. intros Hin. destruct (ti_hs _ _ _ _ Hinv q' sp Hin) as (_ & _ & E). congruence. Qed.

Lemma lent_places : (forall h q', q' <> q -> place h = Lent q' -> place' h = Lent q') /\
  (forall h x, x <> t -> place h = Spare x -> place' h = Spare x).
Proof using Hpl. split; intros h x Hne E; unfold fn_set; case_decide; congruence. Qed.

(** What remains once the memory is in order. *)
Lemma lend_finish k' g hs' : moved g hs' w' k k' -> g ∈ hs' -> NoDup hs' -> (forall x, x ∈ hs' -> x = sp \/ x ∈ hs q) ->
  k_wait k' = <[t := with_spare w NULL]> (k_wait k) -> (forall q', q' <> q -> k_queue k' !! q' = k_queue k !! q') ->
  queue_rep k' q w' hs' ->
  queue_step w' t k k' /\ exists hs' place', tq_inv k' (fn_set ws q w') hs' place'.
Proof using All.
  intros Hmv Hg Hnd Hsub Ew Eq Hrep. destruct lent_places as [Hp1 Hp2].
  assert (Hfs : forall x, x ∈ hs' -> x ∈ HS /\ (place x = Lent q \/ place x = Spare t)).
  { intros x [->|Hx]%Hsub; [auto|]. destruct (ti_hs _ _ _ _ Hinv q x Hx) as (_ & ? & ?). auto. }
  split.
  { destruct Hmv. split; try done; [by exists w, NULL|]. eapply (moved_words g hs'); [done| | |]; [by apply Hfs|intros x Hx; by apply Hfs|].
    intros x [->|Hx]%enter_elem; [done|]. by apply (ti_ws _ _ _ _ Hinv q). }
  exists (fn_set hs q hs'), place'. eapply (preserve_inv k k' ws hs place _ q t _ _ g hs'); try done.
  - auto.
  - intros x [->|Hx]%enter_elem; [auto|]. destruct (ti_ws _ _ _ _ Hinv q x Hx). auto.
  - intros x Hne. rewrite Ew. by apply lookup_insert_ne.
  - rewrite Ew. eexists. apply lookup_insert_eq.
  - apply entered.
  - split; [done|]. intros x Hx. split; [by apply Hfs|]. unfold fn_set. case_decide; [done|].
    destruct (Hsub x Hx) as [->|Hin]; [done|]. by apply (ti_hs _ _ _ _ Hinv q).
  - intros []. apply enter_elem. auto.
Qed.

Lemma entered_D x : x ∈ w' -> x ∈ D.
Proof using Hinv Ht. intros [->|Hx]%enter_elem; [done|by apply (ti_ws _ _ _ _ Hinv q)]. Qed.

(** The free chain of the queue's heads is not part of their union. *)
Lemma free_chain_kept k2 k' h hs' : layout D HS (k_mem k) -> h ∈ HS -> (forall x, x ∈ hs' -> x ∈ HS) -> touched h w' k2 k' ->
  Chain.chain (k_mem k2) (h + FREE_CHAIN) (free_nodes hs') -> Chain.chain (k_mem k') (h + FREE_CHAIN) (free_nodes hs').
Proof using Hinv Ht.
  intros Hly Hh Hsub Htc. eapply chain_changes; [apply Htc|]. intros x Hx Hu.
  eapply (union_free_disjoint D HS _ Hly h h); [done|done|exact Hsub|exact entered_D|exact Hu|exact Hx].
Qed.

(** The queue has heads. *)
Lemma enqueue_next h c : last (hs q) = Some h -> content k (disc q) h (ws q) ->
  Chain.chain (k_mem k) (h + FREE_CHAIN) (free_nodes (hs q)) ->
  (forall h', h' ∈ hs q -> last (hs q) <> Some h' -> Chain.chain (k_mem k) (h' + FREE_CHAIN) []) -> heads v = h ->
  wp (Chain._Chain_Prepend_unprotected (h + FREE_CHAIN) (sp + FREE_NODE);; d_enqueue (disc q) q t c h)
    (fun c' k' => c' = c /\ queue_step w' t k k' /\ exists hs' place', tq_inv k' (fn_set ws q w') hs' place')
    (with_wait (<[t := with_spare w NULL]> (k_wait k)) k).
Proof using All.
  intros El Hc Hfc Hrest Hh. set (k1 := with_wait _ k).
  pose proof (ti_ready _ _ _ _ Hinv) as Hrm. pose proof (rm_layout _ _ _ Hrm) as Hly.
  assert (Hin : h ∈ hs q) by (by apply last_Some_elem_of). destruct (ti_hs _ _ _ _ Hinv q h Hin) as (_ & HhS & Hph).
  assert (Hfsub : forall x, x ∈ sp :: hs q -> x ∈ HS) by (intros x [->|Hx]%elem_of_cons; [done|by apply (ti_hs _ _ _ _ Hinv q)]).
  apply wp_bind. eapply Chain.prepend_spec with (ns := free_nodes (hs q)); [exact Hfc| |].
  { eapply (free_off D HS); [done|done| |done|apply spare_not_lent]. intros x Hx. by apply (ti_hs _ _ _ _ Hinv q). }
  intros m' Hc' Hm'. change (sp + FREE_NODE :: free_nodes (hs q)) with (free_nodes (sp :: hs q)) in Hc', Hm'.
  set (k2 := set_mem m' k1). assert (Hb : bookkept m' k k2) by (by destruct k).
  assert (Een : forall x y, enter k2 (disc q) x y = enter k (disc q) x y) by (intros x y; by destruct (disc q)).
  assert (HwD : forall x, x ∈ ws q -> x ∈ D) by (intros x Hx; by apply (ti_ws _ _ _ _ Hinv q)).
  eapply (d_enqueue_spec D HS (disc q) (Hdisc q Hq)); [exact (bookkept_ready m' _ k k2 Hm' Hb Hrm)|exact HhS|exact Ht|apply Hno|done|exact (bookkept_content _ m' k k2 h _ h _ Hly HhS HhS Hfsub HwD Hm' Hb Hc)|].
  intros k3 Hc3 Ht3. rewrite Een in *. destruct (moved_intro h (sp :: hs q) _ k k2 k3 m' Hm' Hb Ht3) as (Hmv & Ew & Eq).
  split; [done|]. eapply (lend_finish k3 h (sp :: hs q)); [done|set_solver| | |done|by rewrite Eq|].
  - constructor; [apply spare_not_lent|apply Hinv].
  - intros x Hx%elem_of_cons. done.
  - exists v. rewrite Eq, last_cons, El. split_and!; [done|done|by rewrite enter_length; cbn; lia|done| |].
    + intros h' [= <-]. split; [done|]. by eapply (free_chain_kept k2).
    + intros h' Hh' Hne'. assert (h' <> h) by congruence.
      apply (moved_free D HS k k3 h (sp :: hs q) _ Hrm Hmv HhS Hfsub entered_D) with (hs := []); [by auto|done|set_solver|set_solver|].
      apply elem_of_cons in Hh' as [->|Hh']; [done|]. apply Hrest; [done|congruence].
Qed.

(** The first thread gives its heads to the queue. *)
Lemma enqueue_first c : hs q = [] ->
  wp (set_heads q sp;; Chain._Chain_Prepend_unprotected (sp + FREE_CHAIN) (sp + FREE_NODE);; d_initialize (disc q) q t c sp)
    (fun c' k' => c' = c /\ queue_step w' t k k' /\ exists hs' place', tq_inv k' (fn_set ws q w') hs' place')
    (with_wait (<[t := with_spare w NULL]> (k_wait k)) k).
Proof using All.
  intros El. set (k1 := with_wait _ k). pose proof (ti_ready _ _ _ _ Hinv) as Hrm. pose proof (rm_layout _ _ _ Hrm) as Hly.
  assert (Ews : w' = [t]) by (rewrite El in Hlen; destruct (ws q); [by destruct (disc q)|done]).
  apply wp_bind, wp_bind. eapply wp_get_queue; [exact Hv|]. apply wp_modify. set (k2 := with_queue _ k1). apply wp_bind.
  eapply Chain.prepend_spec with (ns := []); [exact Hfree|by eapply (free_off D HS _ Hly sp []); [done|set_solver|done|set_solver]|].
  intros m' Hc' Hm'. set (k3 := set_mem m' k2). assert (Hb : bookkept m' k k3) by (by destruct k).
  change [sp + FREE_NODE] with (free_nodes [sp]) in Hc', Hm'.
  eapply (d_initialize_spec D HS (disc q) (Hdisc q Hq)); [exact (bookkept_ready m' _ k k3 Hm' Hb Hrm)|exact Hsp|exact Ht|].
  intros k4 Hc4 Ht4. rewrite <- Ews in Hc4, Ht4. destruct (moved_intro sp [sp] _ k k3 k4 m' Hm' Hb Ht4) as (Hmv & Ew & Eq).
  split; [done|]. eapply (lend_finish k4 sp [sp]); [done|set_solver|apply NoDup_singleton|set_solver|done| |].
  - intros q' Hne. rewrite Eq. by apply lookup_insert_ne.
  - exists {| heads := sp; owner := owner v |}. rewrite Eq. split_and!; [by apply lookup_insert_eq|done|by rewrite Ews|done| |].
    + intros h' [= <-]. split; [done|]. eapply (free_chain_kept k3); [done|done|set_solver|done|done].
    + intros h' ->%list_elem_of_singleton. done.
Qed.
End enqueue.

Lemma enqueue_inv k ws hs place q t c : tq_inv k ws hs place -> q ∈ QS -> t ∈ D -> (forall q', t ∉ ws q') ->
  wp (operations_enqueue (disc q) q t c) (fun c' k' => c' = c /\ queue_step (enter k (disc q) t (ws q)) t k k' /\
    exists hs' place', tq_inv k' (fn_set ws q (enter k (disc q) t (ws q))) hs' place') k.
Proof using Hdisc TT.
  intros Hinv Hq Ht Hno. rewrite operations_enqueue_eq by auto.
  destruct (ti_queue _ _ _ _ Hinv q Hq) as (v & Hv & Ho & Hlen & Hh & Hlast & Hrest).
  destruct (ti_spare _ _ _ _ Hinv t Ht Hno) as (w & Hw & Hsp & Hpl & Hfree).
  apply wp_bind. eapply wp_get_queue; [exact Hv|]. apply wp_bind. eapply wp_get_wait; [exact Hw|].
  apply wp_bind, wp_bind. eapply wp_get_wait; [exact Hw|]. apply wp_modify.
  destruct (last (hs q)) as [h|] eqn:El.
  - cbn in Hh. assert (h <> NULL).
    { destruct (ti_hs _ _ _ _ Hinv q h) as (_ & HhS & _); [by apply last_Some_elem_of|].
      destruct (ly_heads _ _ _ (rm_layout _ _ _ (ti_ready _ _ _ _ Hinv)) h HhS). unfold NULL. lia. }
    rewrite Hh. destruct (Z.eqb_spec h NULL); [done|]. destruct (Hlast h eq_refl) as [Hc Hfc]. rewrite <- El in Hrest.
    by eapply enqueue_next.
  - apply last_None in El. rewrite Hh. cbn [Z.eqb NULL default]. by eapply enqueue_first.
Qed.

(** ** Leaving a queue *)

Lemma operations_extract_eq d q t c : supported d ->
  operations_extract d q t c = v ← get_queue q; _Thread_queue_Queue_extract q (heads v) NULL c t (d_extract d).
Proof. by intros [->| ->]. Qed.

Section extract.
Context (k : K) (ws hs : Z -> list Z) (place : Z -> location) (q t : Z) (v : Thread_queue_Queue) (w : Thread_Wait_information).
Context (f h : Z) (hs0 : list Z).
Abbreviation w' := (filter (fun x => x <> t) (ws q)).
Hypothesis Hinv : tq_inv k ws hs place.
Hypothesis Hq : q ∈ QS.
Hypothesis Ht : t ∈ ws q.
Hypothesis Hv : k_queue k !! q = Some v.
Hypothesis Ho : owner v = NULL.
Hypothesis Hlen : length (hs q) = length (ws q).
Hypothesis Hw : k_wait k !! t = Some w.
Hypothesis Ehs : hs q = f :: hs0.
Hypothesis Elast : last (hs q) = Some h.
Hypothesis Hheads : heads v = h.
Hypothesis Hc : content k (disc q) h (ws q).
Hypothesis Hfc : Chain.chain (k_mem k) (h + FREE_CHAIN) (free_nodes (hs q)).
Hypothesis Hrest : forall h', h' ∈ hs q -> last (hs q) <> Some h' -> Chain.chain (k_mem k) (h' + FREE_CHAIN) [].

Lemma waiting_D x : x ∈ ws q -> x ∈ D.
Proof using Hinv. intros Hx. by apply (ti_ws _ _ _ _ Hinv q). Qed.

Lemma lent_heads x : x ∈ f :: hs0 -> x ∈ HS /\ place x = Lent q.
Proof using Hinv Ehs. rewrite <- Ehs. intros Hx. by apply (ti_hs _ _ _ _ Hinv q). Qed.

Lemma own_heads : h ∈ f :: hs0 /\ (hs0 = [] -> f = h) /\ (hs0 <> [] -> last hs0 = Some h /\ f <> h).
Proof using Hinv Ehs Elast.
  pose proof (ti_hs_nodup _ _ _ _ Hinv q) as Hnd. rewrite Ehs in Elast, Hnd. split_and!.
  - by apply last_Some_elem_of.
  - intros E. rewrite E in Elast. by injection Elast.
  - intros Hne. rewrite last_cons in Elast. destruct (last hs0) as [y|] eqn:E; [|by apply last_None in E].
    injection Elast as ->. split; [done|]. intros ->. apply NoDup_cons in Hnd as [Hn _]. apply Hn. by apply last_Some_elem_of.
Qed.

(** What remains once the memory is in order. *)
Lemma extract_finish k' : moved h hs0 (ws q) k k' -> k_wait k' = <[t := with_spare w f]> (k_wait k) ->
  (forall q', q' <> q -> k_queue k' !! q' = k_queue k !! q') -> queue_rep k' q w' hs0 ->
  Chain.chain (k_mem k') (f + FREE_CHAIN) [] ->
  queue_step (ws q) t k k' /\ exists hs' place', tq_inv k' (fn_set ws q w') hs' place'.
Proof using All.
  intros Hmv Ew Eq Hrep Hff. destruct own_heads as (Hh & _).
  pose proof (ti_hs_nodup _ _ _ _ Hinv q) as Hnd. rewrite Ehs in Hnd. apply NoDup_cons in Hnd as [Hf0 Hnd].
  split.
  { destruct Hmv. split; try done; [by exists w, f|]. eapply (moved_words h hs0); [done| | |exact waiting_D]; [by apply lent_heads|].
    intros x Hx. apply lent_heads. by right. }
  assert (HfL : place f = Lent q) by (apply lent_heads; left).
  exists (fn_set hs q hs0), (fn_set place f (Spare t)).
  eapply (preserve_inv k k' ws hs place _ q t _ _ h hs0); try done.
  - destruct (lent_heads h Hh). auto.
  - intros x Hx. destruct (lent_heads x); [by right|]. auto.
  - intros x Hx. split; [by apply waiting_D|by right].
  - by apply waiting_D.
  - intros q' Hne Hin. apply Hne. by eapply (ti_ws_unique _ _ _ _ Hinv).
  - intros x Hne. rewrite Ew. by apply lookup_insert_ne.
  - rewrite Ew. eexists. apply lookup_insert_eq.
  - intros y q' Hne E. unfold fn_set. case_decide; congruence.
  - intros y x Hne E. unfold fn_set. case_decide; congruence.
  - split; [apply NoDup_filter, Hinv|]. intros x. rewrite !list_elem_of_filter. naive_solver.
  - split; [done|]. intros x Hx. destruct (lent_heads x) as [? E]; [by right|]. split; [done|].
    rewrite fn_set_ne; [done|]. by intros ->.
  - intros _. exists (with_spare w f). rewrite Ew. split; [apply lookup_insert_eq|]. cbn.
    split; [apply lent_heads; left|]. by rewrite fn_set_eq.
Qed.

(** The thread gets the first free heads, the own heads of the queue if it is
    the last one. *)
Lemma extract_body c : wp (_Thread_queue_Queue_extract q h NULL c t (d_extract (disc q)))
    (fun c' k' => c' = c /\ queue_step (ws q) t k k' /\ exists hs' place', tq_inv k' (fn_set ws q w') hs' place') k.
Proof using All.
  pose proof (ti_ready _ _ _ _ Hinv) as Hrm. pose proof (rm_layout _ _ _ Hrm) as Hly.
  destruct own_heads as (Hh & Hone & Hmany). destruct (lent_heads h Hh) as [HhS _].
  assert (Hsub : forall x, x ∈ hs0 -> x ∈ HS) by (intros x Hx; apply lent_heads; by right).
  pose proof Hfc as Hfc'. rewrite Ehs in Hfc'. apply wp_bind. eapply Chain.get_first_spec; [exact Hfc'|]. intros m' Hc' Hm'. fold (free_nodes hs0) in Hc', Hm'.
  apply wp_bind, wp_bind. eapply wp_get_wait; [exact Hw|]. apply wp_modify.
  replace (f + FREE_NODE - FREE_NODE) with f by lia. set (k1 := with_wait _ (set_mem m' k)).
  apply wp_bind. eapply Chain.is_empty_spec; [exact Hc'|]. apply wp_bind.
  set (v' := if decide (hs0 = []) then {| heads := NULL; owner := owner v |} else v).
  apply (wp_mono _ (fun _ k2 => bookkept m' k k2 /\ k_wait k2 = k_wait k1 /\ k_queue k2 = <[q := v']> (k_queue k))).
  { subst v'. case_decide as E0.
    - rewrite bool_decide_true by (by rewrite E0). apply wp_bind. eapply wp_get_queue; [exact Hv|]. apply wp_modify. by destruct k.
    - rewrite bool_decide_false by (by destruct hs0). apply wp_ret. split; [by destruct k|]. split; [done|]. cbn. by rewrite insert_id. }
  intros [] k2 (Hb & Ew & Eq). eapply (d_extract_spec (disc q) (Hdisc q Hq)) with (l := ws q); [apply Hinv|exact Ht| |].
  { exact (bookkept_content _ m' k k2 h _ h _ Hly HhS HhS Hsub waiting_D Hm' Hb Hc). }
  intros k3 Hc3 Ht3. destruct (moved_intro h hs0 (ws q) k k2 k3 m' Hm' Hb Ht3) as (Hmv & Ew3 & Eq3).
  assert (Hfree : Chain.chain (k_mem k3) (h + FREE_CHAIN) (free_nodes hs0)).
  { eapply chain_changes; [apply Ht3| |by rewrite Hb]. intros x Hx Hu.
    eapply (union_free_disjoint D HS _ Hly h h); [done|done|exact Hsub|exact waiting_D|exact Hu|exact Hx]. }
  assert (Hother : forall x, x ∈ f :: hs0 -> x <> h -> Chain.chain (k_mem k3) (x + FREE_CHAIN) []).
  { intros x Hx Hne. apply (moved_free D HS k k3 h hs0 _ Hrm Hmv HhS Hsub waiting_D) with (hs := []); [by apply lent_heads|done|set_solver|set_solver|].
    apply Hrest; [by rewrite Ehs|congruence]. }
  split; [done|]. apply (extract_finish k3); [done|by rewrite Ew3, Ew| | |].
  - intros q' Hne. rewrite Eq3, Eq. by apply lookup_insert_ne.
  - exists v'. rewrite Eq3, Eq. split; [apply lookup_insert_eq|]. subst v'. pose proof (remove_length t (ws q) ltac:(apply Hinv) Ht) as Hl.
    assert (Hlen' : S (length hs0) = length (ws q)) by (by rewrite <- Hlen, Ehs). destruct (decide (hs0 = [])) as [E0|Hne0].
    + rewrite E0 in *. split_and!; [done|cbn in *; lia|done|by intros ? [=]|set_solver].
    + destruct (Hmany Hne0) as [Hl0 _]. rewrite Hl0.
      split_and!; [done|lia|done| |]; [intros h' [= <-]; done|]. intros h' Hh' Hne'. apply Hother; [by right|congruence].
  - destruct (decide (hs0 = [])) as [E0|Hne0]; [|apply Hother; [left|by apply Hmany]].
    rewrite (Hone E0). by rewrite E0 in Hfree.
Qed.
End extract.

Lemma extract_inv k ws hs place q t c : tq_inv k ws hs place -> q ∈ QS -> t ∈ ws q ->
  wp (operations_extract (disc q) q t c) (fun c' k' => c' = c /\ queue_step (ws q) t k k' /\
    exists hs' place', tq_inv k' (fn_set ws q (filter (fun x => x <> t) (ws q))) hs' place') k.
Proof using Hdisc TT.
  intros Hinv Hq Ht. rewrite operations_extract_eq by auto.
  destruct (ti_queue _ _ _ _ Hinv q Hq) as (v & Hv & Ho & Hlen & Hh & Hlast & Hrest).
  destruct (ti_wait _ _ _ _ Hinv t) as [w Hw]; [by apply (ti_ws _ _ _ _ Hinv q)|].
  apply wp_bind. eapply wp_get_queue; [exact Hv|].
  destruct (hs q) as [|f hs0] eqn:Ehs; [destruct (ws q); [set_solver|done]|]. rewrite <- Ehs in *.
  destruct (last (hs q)) as [h|] eqn:El; [|apply last_None in El; congruence].
  cbn in Hh. rewrite Hh. destruct (Hlast h eq_refl) as [Hc Hfc]. rewrite <- El in Hrest.
  by eapply (extract_body k ws hs place q t v w f h hs0).
Qed.

(** The heads of a queue that is empty, and of one that is not. *)
Lemma queue_heads k ws hs place q : tq_inv k ws hs place -> q ∈ QS ->
  exists v, k_queue k !! q = Some v /\ owner v = NULL /\
    match ws q with
    | [] => heads v = NULL
    | t :: _ => heads v <> NULL /\ forall Q : Z -> K -> Prop, Q t k -> wp (operations_first (disc q) (heads v)) Q k
    end.
Proof using Hdisc TT.
  intros Hinv Hq. destruct (ti_queue _ _ _ _ Hinv q Hq) as (v & Hv & Ho & Hlen & Hh & Hlast & Hrest).
  exists v. split; [done|]. split; [done|]. destruct (last (hs q)) as [h|] eqn:El; cbn in Hh; rewrite Hh.
  - destruct (ti_hs _ _ _ _ Hinv q h) as (_ & HhS & _); [by apply last_Some_elem_of|].
    destruct (ly_heads _ _ _ (rm_layout _ _ _ (ti_ready _ _ _ _ Hinv)) h HhS) as (Hpos & _).
    destruct (Hlast h eq_refl) as [Hc _]. destruct (ws q) as [|t l] eqn:Ew; [by destruct (hs q)|]. split; [unfold NULL; lia|].
    intros Q HQ. by eapply (discipline_first_spec (disc q) (Hdisc q Hq) t l).
  - apply last_None in El. rewrite El in Hlen. by destruct (ws q).
Qed.

(** The first thread of a queue, [NULL] if there is none. *)
Lemma first_locked_spec k ws hs place q (Q : Z -> K -> Prop) : tq_inv k ws hs place -> q ∈ QS ->
  Q (default NULL (head (ws q))) k -> wp (_Thread_queue_First_locked q (disc q)) Q k.
Proof using Hdisc TT.
  intros Hinv Hq HQ. destruct (queue_heads k ws hs place q Hinv Hq) as (v & Hv & _ & Hf).
  apply wp_bind. eapply wp_get_queue; [exact Hv|]. destruct (ws q) as [|t l]; [rewrite Hf; by apply wp_ret|].
  destruct Hf as [Hne Hf]. rewrite (proj2 (Z.eqb_neq _ _) Hne). by apply Hf.
Qed.

(** ** What the queues do not depend on *)

Record quiet (k k' : K) : Prop := {
  qt_mem : k_mem k' = k_mem k;
  qt_store : k_store k' = k_store k;
  qt_prio : k_prio k' = k_prio k;
  qt_queue : k_queue k' = k_queue k;
  qt_threads : Wait_Priority <$> threads (k_sched k') = Wait_Priority <$> threads (k_sched k);
  qt_wait : spare_heads <$> k_wait k' = spare_heads <$> k_wait k;
}.

Lemma quiet_thread (k k' : K) t : Wait_Priority <$> threads (k_sched k') = Wait_Priority <$> threads (k_sched k) ->
  Wait_Priority <$> threads (k_sched k') !! t = Wait_Priority <$> threads (k_sched k) !! t.
Proof. intros E. by rewrite <- !lookup_fmap, E. Qed.

Lemma quiet_get_prio k k' n : quiet k k' -> get_prio k' n = get_prio k n.
Proof.
  intros [_ _ Ep _ Et _]. cbn. unfold kernel_get_prio, node_thread. destruct (thread_of_node n) as [t|]; cbn; [|by rewrite Ep].
  pose proof (quiet_thread k k' t Et) as E. rewrite Ep.
  destruct (threads (k_sched k') !! t), (threads (k_sched k) !! t); cbn in *; congruence.
Qed.

Lemma quiet_content k k' d h l : quiet k k' -> content k d h l -> content k' d h l.
Proof. intros Hq. apply content_ext; [apply Hq..|]. intros n _. by apply quiet_get_prio. Qed.

Lemma quiet_ready k k' : quiet k k' -> ready_memory D HS k -> ready_memory D HS k'.
Proof.
  intros Hq [R1 [S1 S2] P1]. pose proof (fun n => quiet_get_prio k k' n Hq) as Ep. destruct Hq as [Em Es _ _ Et _]. split.
  - by rewrite Em.
  - split; intros x Hx; rewrite Ep, Es; [by apply S1|by apply S2].
  - intros h Hh t Ht. apply (P1 h Hh). pose proof (quiet_thread k k' t Et) as E.
    destruct Ht as [y Hy]. rewrite Hy in E. destruct (threads (k_sched k) !! t); [by eexists|done].
Qed.

Lemma tq_inv_quiet k k' ws ws' hs place : quiet k k' -> (forall q, ws' q = ws q) -> tq_inv k ws hs place -> tq_inv k' ws' hs place.
Proof.
  intros Hq Ew [I1 I2 I3 I4 I5 I6 I7 I8 I9]. split; try done.
  - by eapply quiet_ready.
  - intros q Hin. destruct (I2 q Hin) as (v & Hv & Ho & Hl & Hh & Hlast & Hrest). exists v. rewrite Ew, (qt_queue _ _ Hq), (qt_mem _ _ Hq).
    split_and!; try done. intros h E. destruct (Hlast h E). split; [by eapply quiet_content|done].
  - intros q t. rewrite Ew. apply I3.
  - intros q. rewrite Ew. apply I4.
  - intros q q' t. rewrite !Ew. apply I5.
  - intros t Ht Hno. destruct (I8 t Ht) as (w & Hw & Hs & Hp & Hc); [intros q; rewrite <- Ew; apply Hno|].
    pose proof (f_equal (lookup t) (qt_wait _ _ Hq)) as E. rewrite !lookup_fmap, Hw in E.
    destruct (k_wait k' !! t) as [w'|]; [|done]. injection E as E. exists w'. by rewrite E, (qt_mem _ _ Hq).
  - intros t Ht. destruct (I9 t Ht) as [w Hw]. pose proof (f_equal (lookup t) (qt_wait _ _ Hq)) as E.
    rewrite !lookup_fmap, Hw in E. by destruct (k_wait k' !! t).
Qed.

(** Stores to other memory. *)
Lemma tq_inv_mem k ws hs place m' W : tq_inv k ws hs place -> changes W (k_mem k) m' ->
  (forall x, x ∈ W -> ~ heads_word x /\ forall q, ~ node_word (ws q) x) -> tq_inv (with_mem m' k) ws hs place.
Proof.
  intros [I1 I2 I3 I4 I5 I6 I7 I8 I9] Hc HW.
  assert (Hfree : forall h hs, h ∈ HS -> (forall x, x ∈ hs -> x ∈ HS) -> Chain.chain (k_mem k) (h + FREE_CHAIN) (free_nodes hs) ->
    Chain.chain m' (h + FREE_CHAIN) (free_nodes hs)).
  { intros h l Hh Hl. eapply chain_changes; [exact Hc|]. intros x Hx Hw. apply HW in Hw as [Hw _]. apply Hw.
    apply free_word in Hx as [?|(g & Hg & ?)]; [exists h|exists g]; (split; [auto|lia]). }
  split; try done.
  - exact (bookkept_ready m' W k (with_mem m' k) Hc eq_refl I1).
  - intros q Hq. destruct (I2 q Hq) as (v & Hv & Ho & Hl & Hh & Hlast & Hrest). exists v. split_and!; try done.
    + intros h El. destruct (Hlast h El) as [Hcont Hf]. destruct (I6 q h) as (_ & HhS & _); [by apply last_Some_elem_of|].
      split; [|apply Hfree; [done|intros x Hx; by apply (I6 q)|done]]. destruct (disc q); cbn [content] in *; try done; [|by apply (aggr_sorted_local k)].
      eapply chain_changes; [exact Hc| |exact Hcont]. intros x Hx Hw. destruct (HW x Hw) as [Hn1 Hn2].
      apply (union_word D HS) in Hx as [?|(t & Ht & ?)]; [apply Hn1; exists h; split; [done|lia]|apply (Hn2 q); by exists t|done|intros t Ht; by apply (I3 q)].
    + intros h Hin Hne. apply (Hfree h []); [by apply (I6 q)|set_solver|by apply Hrest].
  - intros t Ht Hno. destruct (I8 t Ht Hno) as (w & Hw & Hsp & Hp & Hf). exists w. split_and!; try done. apply (Hfree _ []); [done|set_solver|done].
Qed.
End queues.
End inv.
End ThreadQueueInv.
