(* ===== verification/ThreadTimer.v ===== *)
(** The timers of the threads (score/threadimpl.h): each thread has a
    watchdog that bounds the time it waits.  The watchdogs of the threads
    satisfy what the thread queues rely on. *)

From S2P Require Import Prelude RBTree Watchdog WatchdogCorrect Chain Priority Scheduler ThreadQueue ThreadQueueInv.

Module ThreadTimer.
Import RBTree Watchdog ThreadQueue ThreadQueueInv.

Section timers.
Context {RB : RB_Macros}.
(** The watchdog of a thread, a member of its control block; the address of
    [_Thread_Timeout]. *)
Context (the_watchdog : Z -> Z) `{!Inj (=) (=) the_watchdog} (timeout_routine : Z).
Abbreviation state := (Watchdog.state unit).

Definition _Thread_Timer_initialize (the_thread : Z) : M state unit := _Watchdog_Preinitialize (the_watchdog the_thread).

(** The header of the timer is the one of the monotonic clock. *)
Definition _Thread_Add_timeout_ticks (the_thread ticks : Z) : M state unit :=
  set_routine (the_watchdog the_thread) timeout_routine;;
  _Watchdog_Per_CPU_insert_ticks (the_watchdog the_thread) ticks;;
  mret tt.

Definition _Thread_Timer_remove (the_thread : Z) : M state unit :=
  _Watchdog_Per_CPU_remove (the_watchdog the_thread) PER_CPU_WATCHDOG_MONOTONIC.

Definition timer_scheduled (the_thread : Z) (s : state) : bool :=
  match _Watchdog_Is_scheduled (the_watchdog the_thread) s with
  | Some (b, _) => b
  | None => false
  end.

#[export] Instance watchdog_timers : ThreadTimers state := {|
  timer_add_ticks := _Thread_Add_timeout_ticks;
  ThreadQueue.timer_remove := _Thread_Timer_remove;
  timer_active := timer_scheduled |}.

(** ** The laws *)

Definition home (w : Z) : Per_CPU_Watchdog_index := PER_CPU_WATCHDOG_MONOTONIC.
Definition rt (w : Z) : Z := timeout_routine.
Context (D : gset Z).

Record watchdogs_ok (s : state) (A : gset Z) : Prop := {
  wo_sub : A ⊆ D;
  wo_inv : exists a, WatchdogCorrect.inv home rt s a /\ 0 <= WatchdogCorrect.aticks a /\ WatchdogCorrect.aticks a + 2 ^ 32 < 2 ^ 64 /\
    forall t, t ∈ D -> (t ∈ A <-> the_watchdog t ∈ (WatchdogCorrect.amonotonic a).*1);
  wo_known t : t ∈ D -> is_Some (controls s !! the_watchdog t);
}.

Lemma set_routine_same w c (Q : unit -> state -> Prop) s : controls s !! w = Some c -> routine c = timeout_routine ->
  Q tt s -> wp (set_routine w timeout_routine) Q s.
Proof.
  intros Hc Hr HQ. apply wp_bind. unfold wp at 1, control. rewrite Hc. apply wp_modify.
  replace (with_controls _ s) with s; [done|]. destruct s, c as [r e]. cbn in *. subst r. unfold with_controls. cbn. by rewrite insert_id.
Qed.

Lemma start_law s A t ticks : watchdogs_ok s A -> t ∈ D -> t ∉ A -> 0 < ticks < 2 ^ 32 ->
  wp (_Thread_Add_timeout_ticks t ticks) (fun _ s' => watchdogs_ok s' ({[t]} ∪ A)) s.
Proof using All.
  intros [Hsub (a & Hi & Ht0 & Ht1 & Hat) Hk] Ht HA Htk. destruct (Hk t Ht) as [c Hc].
  apply wp_bind. eapply set_routine_same; [exact Hc|by apply (WatchdogCorrect.i_known _ _ _ _ (proj1 Hi) _ _ Hc)|].
  apply wp_bind, wp_bind, wp_gets. pose proof (WatchdogCorrect.i_rest _ _ _ _ (proj1 Hi)) as (Etk & _). rewrite Etk, u64_small by lia.
  apply wp_bind. change PER_CPU_WATCHDOG_MONOTONIC with (home (the_watchdog t)).
  eapply (WatchdogCorrect.watchdog_insert_spec home rt); [exact Hi|by eexists|by rewrite <- Hat|].
  intros s' Hi' Hc'. do 2 apply wp_ret. split.
  - set_solver.
  - eexists. split; [exact Hi'|]. split_and!; [done|done|]. intros x Hx. cbn. rewrite elem_of_union, elem_of_singleton, Hat by done.
    split.
    + intros [->|Hin]; [by eapply (list_elem_of_fmap_2 fst _ (_, _)), WatchdogCorrect.elem_of_schedule; left|].
      apply list_elem_of_fmap in Hin as ([v y] & Ev & Hin). rewrite Ev. apply list_elem_of_fmap_2, WatchdogCorrect.elem_of_schedule. by right.
    + intros ([v y] & Ev & [[= -> ->]|Hin]%WatchdogCorrect.elem_of_schedule)%list_elem_of_fmap; cbn in Ev; [left; by apply (inj the_watchdog)|].
      right. rewrite Ev. by eapply (list_elem_of_fmap_2 fst _ (_, _)).
  - intros x Hx. by apply Hc', Hk.
Qed.

Lemma stop_law s A t : watchdogs_ok s A -> t ∈ D -> wp (_Thread_Timer_remove t) (fun _ s' => watchdogs_ok s' (A ∖ {[t]})) s.
Proof using All.
  intros [Hsub (a & Hi & Ht0 & Ht1 & Hat) Hk] Ht. unfold _Thread_Timer_remove, _Watchdog_Per_CPU_remove.
  change PER_CPU_WATCHDOG_MONOTONIC with (home (the_watchdog t)).
  eapply (WatchdogCorrect.remove_spec home rt); [exact Hi|by apply Hk|]. intros s' Hi' Hc'. split.
  - set_solver.
  - eexists. split; [exact Hi'|]. split_and!; [done|done|]. intros x Hx. cbn -[WatchdogCorrect.unschedule fmap].
    rewrite elem_of_difference, elem_of_singleton, Hat, WatchdogCorrect.unschedule_fst, list_elem_of_filter by done.
    split; [intros [? ?]; split; [|done]; by intros ?%(inj the_watchdog)|intros [? ?]; split; [done|congruence]].
  - intros x Hx. rewrite Hc'. by apply Hk.
Qed.

Lemma active_law s A t : watchdogs_ok s A -> t ∈ D -> timer_scheduled t s = bool_decide (t ∈ A).
Proof.
  intros [Hsub (a & Hi & _ & _ & Hat) Hk] Ht.
  assert (Hw : wp (_Watchdog_Is_scheduled (the_watchdog t)) (fun b _ => b = bool_decide (t ∈ A)) s).
  { eapply (WatchdogCorrect.scheduled_spec home rt); [apply Hi|by apply Hk|]. apply bool_decide_ext. symmetry. by apply Hat. }
  unfold timer_scheduled. unfold wp in Hw. by destruct (_Watchdog_Is_scheduled _ _) as [[]|].
Qed.

#[export] Instance watchdog_timers_laws : ThreadTimersLaws state D := {|
  timers_ok := watchdogs_ok;
  timer_add_law := start_law;
  timer_remove_law := stop_law;
  timer_active_law := active_law |}.
End timers.
End ThreadTimer.
