(* ===== verification/Barrier.v ===== *)
(** Barriers (score/corebarrier.h, score/corebarrierimpl.h, corebarrier.c,
    corebarrierwait.c, corebarrierrelease.c): the number of threads that
    arrived and a FIFO thread queue, the first member of the control block. *)

From S2P Require Import Prelude DList Chain RBTree Priority Scheduler ThreadQueue.

Module Barrier.
Import RBTree Priority Scheduler ThreadQueue.

Section operations.
Context {TL : ThreadLayout} {RB : RB_Macros} {T : Type} {TT : ThreadTimers T}.
Context (ops : Scheduler_Operations) (ticks_per_timeslice : Z).
Abbreviation K := (kernel T).

Definition CORE_BARRIER_TQ_OPERATIONS : Thread_queue_Operations := Operations_FIFO.

Definition get_barrier (the_barrier : Z) : M K CORE_barrier_Control := fun k =>
  match k_barrier k !! the_barrier with
  | Some v => Some (v, k)
  | None => None
  end.

Definition put_barrier (the_barrier : Z) (v : CORE_barrier_Control) : M K unit :=
  modify (fun k => with_barrier (<[the_barrier := v]> (k_barrier k)) k).

Definition set_number_of_waiting_threads (the_barrier n : Z) : M K unit :=
  v ← get_barrier the_barrier;
  put_barrier the_barrier {| Attributes := Attributes v; number_of_waiting_threads := n |}.

Definition _CORE_barrier_Initialize (the_barrier : Z) (the_barrier_attributes : CORE_barrier_Attributes) : M K unit :=
  put_barrier the_barrier {| Attributes := the_barrier_attributes; number_of_waiting_threads := 0 |};;
  _Thread_queue_Queue_initialize the_barrier.

(** The number of threads is a [size_t], the result has 32 bits. *)
Definition _CORE_barrier_Do_flush (the_barrier : Z) (filter : Z -> M K Z) (c : Thread_queue_Context) (unblock : Z) : M K Z :=
  set_number_of_waiting_threads the_barrier 0;;
  flushed ← _Thread_queue_Flush_critical ops ticks_per_timeslice the_barrier CORE_BARRIER_TQ_OPERATIONS filter c unblock;
  mret (u32 flushed).

Definition _CORE_barrier_Surrender (the_barrier : Z) (c : Thread_queue_Context) (unblock : Z) : M K Z :=
  _CORE_barrier_Do_flush the_barrier _Thread_queue_Flush_default_filter c unblock.

Definition _CORE_barrier_Flush (the_barrier : Z) (c : Thread_queue_Context) (unblock : Z) : M K unit :=
  _CORE_barrier_Do_flush the_barrier _Thread_queue_Flush_status_object_was_deleted c unblock;;
  mret tt.

Definition _CORE_barrier_Is_automatic (the_attribute : CORE_barrier_Attributes) : bool :=
  match discipline the_attribute with
  | CORE_BARRIER_AUTOMATIC_RELEASE => true
  | CORE_BARRIER_MANUAL_RELEASE => false
  end.

Definition _CORE_barrier_Get_number_of_waiting_threads (the_barrier : Z) : M K Z :=
  v ← get_barrier the_barrier; mret (number_of_waiting_threads v).

(** Without a result the thread waited; the function then returns its wait
    status, once it executes again.  The parameter [wait] is not used. *)
Definition _CORE_barrier_Seize (the_barrier executing : Z) (wait : bool) (c : Thread_queue_Context) (unblock : Z)
    (isr0 isr1 isr2 : M K unit) : M K (option Status_Control) :=
  v ← get_barrier the_barrier;
  let number := u32 (number_of_waiting_threads v + 1) in
  if _CORE_barrier_Is_automatic (Attributes v) && (number =? maximum_count (Attributes v)) then
    _CORE_barrier_Surrender the_barrier c unblock;;
    mret (Some STATUS_BARRIER_AUTOMATICALLY_RELEASED)
  else
    set_number_of_waiting_threads the_barrier number;;
    let c := {| thread_state := STATES_WAITING_FOR_BARRIER; timeout_ticks := timeout_ticks c;
                ThreadQueue.Priority_Actions := ThreadQueue.Priority_Actions c; Priority_update := Priority_update c |} in
    _Thread_queue_Enqueue ops ticks_per_timeslice the_barrier CORE_BARRIER_TQ_OPERATIONS executing c isr0 isr1 isr2;;
    mret None.

End operations.

End Barrier.
