(* ===== verification/MessageQueue.v ===== *)
(** Message queues (score/coremsg.h, score/coremsgimpl.h, coremsg.c,
    coremsginsert.c, coremsgseize.c, coremsgsubmit.c, coremsgbroadcast.c,
    coremsgflush.c, coremsgclose.c), without the POSIX API: messages have no
    priorities and senders do not block.

    The message buffers of a queue are taken from the workspace; each is on
    the chain of the inactive messages or on the chain of the pending ones.
    A thread that waits for a message leaves the addresses of its buffer and
    of its size variable in its wait information, and a sender copies the
    message there. *)

From S2P Require Import Prelude DList Chain RBTree Priority Scheduler ThreadQueue.

Module MessageQueue.
Import RBTree Priority Scheduler ThreadQueue.

(** * Data *)

Inductive CORE_message_queue_Disciplines :=
  | CORE_MESSAGE_QUEUE_DISCIPLINES_FIFO
  | CORE_MESSAGE_QUEUE_DISCIPLINES_PRIORITY.

Definition CORE_MESSAGE_QUEUE_SEND_REQUEST : Z := 2 ^ 31 - 1.
Definition CORE_MESSAGE_QUEUE_URGENT_REQUEST : Z := - 2 ^ 31.

(** Offsets of the chains in a control block. *)
Definition PENDING_MESSAGES : Z := 48.
Definition INACTIVE_MESSAGES : Z := 80.

(** [CORE_message_queue_Buffer_control]: a chain node, the size and the bytes
    of the message. *)
Definition CONTENTS_SIZE : Z := 16.
Definition CONTENTS_BUFFER : Z := 24.
Definition BUFFER_CONTROL_SIZE : Z := 32.

Definition SIZE_MAX : Z := 2 ^ 64 - 1.

Section operations.
Context {TL : ThreadLayout} {RB : RB_Macros} {T : Type} {TT : ThreadTimers T}.
Context (ops : Scheduler_Operations) (ticks_per_timeslice : Z).
Abbreviation K := (kernel T).

Definition get_control (the_message_queue : Z) : M K CORE_message_queue_Control := fun k =>
  match ms_queue (k_messages k) !! the_message_queue with
  | Some v => Some (v, k)
  | None => None
  end.

Definition put_control (the_message_queue : Z) (v : CORE_message_queue_Control) : M K unit :=
  modify (fun k => with_messages {|
    ms_queue := <[the_message_queue := v]> (ms_queue (k_messages k)); ms_size := ms_size (k_messages k);
    ms_bytes := ms_bytes (k_messages k); ms_arguments := ms_arguments (k_messages k) |} k).

Definition set_number_of_pending_messages (the_message_queue n : Z) : M K unit :=
  v ← get_control the_message_queue;
  put_control the_message_queue {|
    operations := operations v; maximum_pending_messages := maximum_pending_messages v; number_of_pending_messages := n;
    maximum_message_size := maximum_message_size v; message_buffers := message_buffers v |}.

(** Variables of type [size_t]. *)
Definition get_size (p : Z) : M K Z := fun k =>
  match ms_size (k_messages k) !! p with
  | Some v => Some (v, k)
  | None => None
  end.

Definition set_size (p v : Z) : M K unit :=
  get_size p;;
  modify (fun k => with_messages {|
    ms_queue := ms_queue (k_messages k); ms_size := <[p := v]> (ms_size (k_messages k));
    ms_bytes := ms_bytes (k_messages k); ms_arguments := ms_arguments (k_messages k) |} k).

(** Arrays of bytes. *)
Definition get_bytes (p : Z) : M K (list Z) := fun k =>
  match ms_bytes (k_messages k) !! p with
  | Some v => Some (v, k)
  | None => None
  end.

Definition put_bytes (p : Z) (v : list Z) : M K unit :=
  modify (fun k => with_messages {|
    ms_queue := ms_queue (k_messages k); ms_size := ms_size (k_messages k);
    ms_bytes := <[p := v]> (ms_bytes (k_messages k)); ms_arguments := ms_arguments (k_messages k) |} k).

Definition get_arguments (t : Z) : M K Thread_Wait_arguments := fun k =>
  match ms_arguments (k_messages k) !! t with
  | Some v => Some (v, k)
  | None => None
  end.

Definition put_arguments (t : Z) (v : Thread_Wait_arguments) : M K unit :=
  modify (fun k => with_messages {|
    ms_queue := ms_queue (k_messages k); ms_size := ms_size (k_messages k);
    ms_bytes := ms_bytes (k_messages k); ms_arguments := <[t := v]> (ms_arguments (k_messages k)) |} k).

(** [the_thread->Wait.count] *)
Definition set_wait_count (t n : Z) : M K unit :=
  v ← get_arguments t;
  put_arguments t {| wait_count := n; return_argument := return_argument v; return_argument_second := return_argument_second v |}.

(** [memcpy]; an access beyond the end of an array is a fault. *)
Definition _CORE_message_queue_Copy_buffer (source destination size : Z) : M K unit :=
  s ← get_bytes source;
  d ← get_bytes destination;
  if (size <=? Z.of_nat (length s)) && (size <=? Z.of_nat (length d)) then
    put_bytes destination (take (Z.to_nat size) s ++ drop (Z.to_nat size) d)
  else fault.

(** * Initialization *)

(** [(long long) a * b] is a product of 64 bits, and is compared as an
    unsigned number. *)
Definition size_t_mult32_with_overflow (a b : Z) : option Z :=
  let x := u64 (a * b) in
  if SIZE_MAX <? u64 x then None else Some (u64 x).

Definition message_queue_operations (discipline : CORE_message_queue_Disciplines) : Thread_queue_Operations :=
  match discipline with
  | CORE_MESSAGE_QUEUE_DISCIPLINES_PRIORITY => Operations_priority
  | CORE_MESSAGE_QUEUE_DISCIPLINES_FIFO => Operations_FIFO
  end.

Definition align_message_size (maximum_message_size : Z) : Z :=
  let align_mask := 8 - 1 in
  Z.land (u64 (maximum_message_size + align_mask)) (u64 (Z.lnot align_mask)).

(** The allocation from the workspace is an argument. *)
Definition _CORE_message_queue_Initialize (workspace_allocate : Z -> M K Z) (the_message_queue : Z)
    (discipline : CORE_message_queue_Disciplines) (maximum_pending maximum_size : Z) : M K bool :=
  v ← get_control the_message_queue;
  put_control the_message_queue {|
    operations := operations v; maximum_pending_messages := maximum_pending; number_of_pending_messages := 0;
    maximum_message_size := maximum_size; message_buffers := message_buffers v |};;
  let aligned_message_size := align_message_size maximum_size in
  if aligned_message_size <? maximum_size then mret false
  else
    match size_t_mult32_with_overflow maximum_pending (u64 (aligned_message_size + BUFFER_CONTROL_SIZE)) with
    | None => mret false
    | Some message_buffering_required =>
        p ← workspace_allocate message_buffering_required;
        v ← get_control the_message_queue;
        put_control the_message_queue {|
          operations := operations v; maximum_pending_messages := maximum_pending_messages v;
          number_of_pending_messages := number_of_pending_messages v;
          maximum_message_size := maximum_message_size v; message_buffers := p |};;
        if p =? NULL then mret false
        else
          Chain._Chain_Initialize (the_message_queue + INACTIVE_MESSAGES) p (Z.to_nat maximum_pending)
            (u64 (aligned_message_size + BUFFER_CONTROL_SIZE));;
          Chain._Chain_Initialize_empty (the_message_queue + PENDING_MESSAGES);;
          _Thread_queue_Queue_initialize the_message_queue;;
          v ← get_control the_message_queue;
          put_control the_message_queue {|
            operations := message_queue_operations discipline; maximum_pending_messages := maximum_pending_messages v;
            number_of_pending_messages := number_of_pending_messages v;
            maximum_message_size := maximum_message_size v; message_buffers := message_buffers v |};;
          mret true
    end.

(** * Messages *)

Definition _CORE_message_queue_Allocate_message_buffer (the_message_queue : Z) : M K Z :=
  Chain._Chain_Get_unprotected (the_message_queue + INACTIVE_MESSAGES).

Definition _CORE_message_queue_Free_message_buffer (the_message_queue the_message : Z) : M K unit :=
  Chain._Chain_Append_unprotected (the_message_queue + INACTIVE_MESSAGES) the_message.

Definition _CORE_message_queue_Get_message_priority (the_message : Z) : Z := 0.

Definition _CORE_message_queue_Get_pending_message (the_message_queue : Z) : M K Z :=
  Chain._Chain_Get_unprotected (the_message_queue + PENDING_MESSAGES).

Definition _CORE_message_queue_Insert_message (the_message_queue the_message content_source content_size submit_type : Z)
    : M K unit :=
  set_size (the_message + CONTENTS_SIZE) content_size;;
  _CORE_message_queue_Copy_buffer content_source (the_message + CONTENTS_BUFFER) content_size;;
  let pending_messages := the_message_queue + PENDING_MESSAGES in
  v ← get_control the_message_queue;
  set_number_of_pending_messages the_message_queue (u32 (number_of_pending_messages v + 1));;
  if submit_type =? CORE_MESSAGE_QUEUE_SEND_REQUEST then Chain._Chain_Append_unprotected pending_messages the_message
  else Chain._Chain_Prepend_unprotected pending_messages the_message.

(** * Sending *)

Definition _CORE_message_queue_Dequeue_receiver (the_message_queue buffer size submit_type : Z) (c : Thread_queue_Context)
    (isr : M K unit) : M K Z :=
  v ← get_control the_message_queue;
  if negb (number_of_pending_messages v =? 0) then mret NULL
  else
    the_thread ← _Thread_queue_First_locked the_message_queue (operations v);
    if the_thread =? NULL then mret NULL
    else
      w ← get_arguments the_thread;
      set_size (return_argument w) size;;
      set_wait_count the_thread (u32 submit_type);;
      _CORE_message_queue_Copy_buffer buffer (return_argument_second w) size;;
      _Thread_queue_Extract_critical ops ticks_per_timeslice the_message_queue (operations v) the_thread c isr;;
      mret the_thread.

Definition _CORE_message_queue_Submit (the_message_queue executing buffer size submit_type : Z) (wait : bool)
    (c : Thread_queue_Context) (isr : M K unit) : M K Status_Control :=
  v ← get_control the_message_queue;
  if maximum_message_size v <? size then mret STATUS_MESSAGE_INVALID_SIZE
  else
    the_thread ← _CORE_message_queue_Dequeue_receiver the_message_queue buffer size submit_type c isr;
    if negb (the_thread =? NULL) then mret STATUS_SUCCESSFUL
    else
      the_message ← _CORE_message_queue_Allocate_message_buffer the_message_queue;
      if negb (the_message =? NULL) then
        _CORE_message_queue_Insert_message the_message_queue the_message buffer size submit_type;;
        mret STATUS_SUCCESSFUL
      else mret STATUS_TOO_MANY.

Definition _CORE_message_queue_Send (the_message_queue executing buffer size : Z) (wait : bool) (c : Thread_queue_Context)
    (isr : M K unit) : M K Status_Control :=
  _CORE_message_queue_Submit the_message_queue executing buffer size CORE_MESSAGE_QUEUE_SEND_REQUEST wait c isr.

Definition _CORE_message_queue_Urgent (the_message_queue executing buffer size : Z) (wait : bool) (c : Thread_queue_Context)
    (isr : M K unit) : M K Status_Control :=
  _CORE_message_queue_Submit the_message_queue executing buffer size CORE_MESSAGE_QUEUE_URGENT_REQUEST wait c isr.

(** The result with the number of the threads that received the message. *)
Definition _CORE_message_queue_Broadcast (the_message_queue buffer size : Z) (c : Thread_queue_Context)
    (isr : M K unit) : M K (Status_Control * option Z) :=
  v ← get_control the_message_queue;
  if maximum_message_size v <? size then mret (STATUS_MESSAGE_INVALID_SIZE, None)
  else
    number_broadcasted ← whileM (fun number_broadcasted =>
      the_thread ← _CORE_message_queue_Dequeue_receiver the_message_queue buffer size 0 c isr;
      if negb (the_thread =? NULL) then mret (inl (u32 (number_broadcasted + 1)))
      else mret (inr number_broadcasted)) 0;
    mret (STATUS_SUCCESSFUL, Some number_broadcasted).

(** * Receiving *)

(** Without a result the thread waited; the function then returns its wait
    status, once it executes again. *)
Definition _CORE_message_queue_Seize (the_message_queue executing buffer size_p : Z) (wait : bool)
    (c : Thread_queue_Context) (isr0 isr1 isr2 : M K unit) : M K (option Status_Control) :=
  the_message ← _CORE_message_queue_Get_pending_message the_message_queue;
  if negb (the_message =? NULL) then
    v ← get_control the_message_queue;
    set_number_of_pending_messages the_message_queue (u32 (number_of_pending_messages v - 1));;
    size ← get_size (the_message + CONTENTS_SIZE);
    set_size size_p size;;
    set_wait_count executing (_CORE_message_queue_Get_message_priority the_message);;
    size ← get_size size_p;
    _CORE_message_queue_Copy_buffer (the_message + CONTENTS_BUFFER) buffer size;;
    _CORE_message_queue_Free_message_buffer the_message_queue the_message;;
    mret (Some STATUS_SUCCESSFUL)
  else if negb wait then mret (Some STATUS_UNSATISFIED)
  else
    w ← get_arguments executing;
    put_arguments executing {| wait_count := wait_count w; return_argument := size_p; return_argument_second := buffer |};;
    let c := {| thread_state := STATES_WAITING_FOR_MESSAGE; timeout_ticks := timeout_ticks c;
                ThreadQueue.Priority_Actions := ThreadQueue.Priority_Actions c; Priority_update := Priority_update c |} in
    v ← get_control the_message_queue;
    _Thread_queue_Enqueue ops ticks_per_timeslice the_message_queue (operations v) executing c isr0 isr1 isr2;;
    mret None.

(** * Flushing and closing *)

(** The pending messages are spliced in front of the inactive ones. *)
Definition _CORE_message_queue_Flush (the_message_queue : Z) : M K Z :=
  v ← get_control the_message_queue;
  let count := number_of_pending_messages v in
  whenM (negb (count =? 0))
    (set_number_of_pending_messages the_message_queue 0;;
     let inactive_head := Chain._Chain_Head (the_message_queue + INACTIVE_MESSAGES) in
     inactive_first ← Chain.next inactive_head;
     message_queue_first ← Chain._Chain_First (the_message_queue + PENDING_MESSAGES);
     message_queue_last ← Chain._Chain_Last (the_message_queue + PENDING_MESSAGES);
     Chain.set_next inactive_head message_queue_first;;
     Chain.set_next message_queue_last inactive_first;;
     Chain.set_previous inactive_first message_queue_last;;
     Chain.set_previous message_queue_first inactive_head;;
     Chain._Chain_Initialize_empty (the_message_queue + PENDING_MESSAGES));;
  mret count.

Definition _CORE_message_queue_Was_deleted (the_thread : Z) : M K Z :=
  set_return_code the_thread STATUS_MESSAGE_QUEUE_WAS_DELETED;; mret the_thread.

Definition _CORE_message_queue_Close (workspace_free : Z -> M K unit) (the_message_queue : Z) (c : Thread_queue_Context)
    (unblock : Z) : M K unit :=
  v ← get_control the_message_queue;
  _Thread_queue_Flush_critical ops ticks_per_timeslice the_message_queue (operations v) _CORE_message_queue_Was_deleted c unblock;;
  v ← get_control the_message_queue;
  workspace_free (message_buffers v).

End operations.

(** The overflow check of the initialization never fails: the product was
    truncated before the comparison. *)
Lemma mult32_always (a b : Z) : size_t_mult32_with_overflow a b = Some (u64 (a * b)).
Proof.
  unfold size_t_mult32_with_overflow, SIZE_MAX. rewrite (u64_small (u64 (a * b))) by apply u64_range.
  pose proof (u64_range (a * b)). destruct (Z.ltb_spec (2 ^ 64 - 1) (u64 (a * b))); [lia|done].
Qed.

End MessageQueue.
