(* ===== verification/SyncSpec.v ===== *)
(** Semaphores, barriers and message queues: the abstract objects, and the
    programs that use the objects of the kernel.

    An abstract semaphore or barrier is a count and a list of waiting
    threads, an abstract message queue a list of messages and of waiting
    threads.  A program is a sequence of calls by the threads that execute
    and of interrupts; service routines release objects, suspend and resume
    threads, and timeouts expire, also inside the calls: in the windows of
    [_Thread_queue_Enqueue], between the moment a thread is on the queue and
    the moment it is blocked, and in the window of
    [_Thread_queue_Unblock_critical], between the moment a thread was taken
    off the queue and the moment it is unblocked. *)

From S2P Require Import Prelude DList Chain RBTree Priority Scheduler ThreadQueue ThreadQueueInv Semaphore Barrier MessageQueue.

Module SyncSpec.
Import RBTree Priority Scheduler ThreadQueue ThreadQueueInv Semaphore Barrier MessageQueue.

(** * Programs *)

(** The filters of threadqflush.c and coremsgclose.c. *)
Inductive flush_filter :=
  | Filter_default
  | Filter_object_was_deleted
  | Filter_unavailable
  | Filter_message_queue_was_deleted.

(** The calls that do not block: to surrender a semaphore, to wake all
    threads that wait for a semaphore (semflush.c), to destroy a semaphore,
    to release a barrier (barrierrelease.c) or to flush it for deletion
    (barrierdelete.c), to send a message from a buffer, also in front of the
    pending ones (msgqsend.c, msgqurgent.c), to drop the pending messages
    (msgqflush.c) or to close a message queue; and that an application fills
    a buffer.  The chain of the threads to wake is on the stack of the
    caller, at [u].  A destroyed object stays usable: its control block is
    not given back here. *)
Inductive call :=
  | Surrender (q max : Z)
  | Flush (q u : Z)
  | Destroy (q u : Z)
  | Release (q u : Z)
  | Delete (q u : Z)
  | Send (q buffer size : Z) (urgent : bool)
  | Drop (q : Z)
  | Close (q u : Z)
  | Fill (buffer : Z) (bytes : list Z).

(** What an interrupt service routine does.  A broadcast wakes threads one by
    one; in an interrupt they do not execute before it is complete. *)
Inductive isr_op :=
  | I_call (c : call)
  | I_broadcast (q buffer size : Z)
  | I_timeout (t : Z)
  | I_suspend (t : Z)
  | I_resume (t : Z).

(** The interrupts in the windows of a call that blocks: before the timer is
    started, before the blocking state is set, and before the wait flags are
    changed. *)
Record windows := Windows {
  w_callout : list isr_op;
  w_state : list isr_op;
  w_flags : list isr_op;
}.

Definition undisturbed : windows := Windows [] [] [].

(** What happens while threads execute: a call by the executing thread, with
    the interrupts in the windows of a call that blocks, or in the window in
    which a call wakes a thread, or an interrupt. *)
Inductive sync_op :=
  | Seize (q : Z) (wait : bool) (ticks : option Z) (w : windows)
  | Arrive (q : Z) (ticks : option Z) (u : Z) (w : windows)
  | Receive (q buffer size_p : Z) (wait : bool) (ticks : option Z) (w : windows)
  | Call (c : call) (w : list isr_op)
  | Interrupt (l : list isr_op).

(** The result of a call: a status, the number of threads that were woken,
    or nothing. *)
Inductive result :=
  | Status (st : Status_Control)
  | Woken (n : Z)
  | Nothing.

Definition STATES_SUSPENDED : Z := 0x8000.

(** * The abstract objects *)

(** The number of messages that a queue holds, the largest message, and the
    addresses of the message buffers. *)
Record message_config := {
  mc_pending : Z;
  mc_size : Z;
  mc_buffers : Z;
}.

Inductive object_kind :=
  | Kind_semaphore
  | Kind_barrier (the_attributes : CORE_barrier_Attributes)
  | Kind_message (c : message_config).

(** The contents of the buffers and size variables of the application, and
    the buffer and the size variable for which a thread waits. *)
Record data := {
  d_bytes : Z -> list Z;
  d_size : Z -> Z;
  d_target : Z -> Z * Z;
}.

(** [a_count] is the count of a semaphore, and the number of threads that
    arrived at a barrier since its last release; [a_messages] are the pending
    messages. *)
Record sync := {
  a_count : Z -> Z;
  a_wait : Z -> list Z;
  a_status : Z -> Status_Control;
  a_timers : gset Z;
  a_messages : Z -> list (list Z);
  a_data : data;
}.

Section abstract.
Context (disc : Z -> Thread_queue_Operations) (kind : Z -> object_kind) (prio : Z -> Z) (idle : Z).

Definition enter_by (d : Thread_queue_Operations) (t : Z) (l : list Z) : list Z :=
  match d with
  | Operations_priority => insert_by (fun m => prio t <? prio m) t l
  | _ => l ++ [t]
  end.

Definition a_set_count (q v : Z) (a : sync) : sync :=
  {| a_count := fn_set (a_count a) q v; a_wait := a_wait a; a_status := a_status a; a_timers := a_timers a;
     a_messages := a_messages a; a_data := a_data a |}.

Definition a_set_status (t : Z) (st : Status_Control) (a : sync) : sync :=
  {| a_count := a_count a; a_wait := a_wait a; a_status := fn_set (a_status a) t st; a_timers := a_timers a;
     a_messages := a_messages a; a_data := a_data a |}.

(** A thread starts to wait. *)
Definition a_enter (q t : Z) (a : sync) : sync :=
  {| a_count := a_count a;
     a_wait := fn_set (a_wait a) q (enter_by (disc q) t (a_wait a q));
     a_status := fn_set (a_status a) t STATUS_SUCCESSFUL;
     a_timers := a_timers a;
     a_messages := a_messages a;
     a_data := a_data a |}.

(** Its timeout counts from now on, if it still waits. *)
Definition timed (ticks : option Z) : bool :=
  match ticks with
  | Some n => negb (n =? WATCHDOG_NO_TIMEOUT)
  | None => false
  end.

Definition a_arm (q t : Z) (ticks : option Z) (a : sync) : sync :=
  if timed ticks && bool_decide (t ∈ a_wait a q) then
    {| a_count := a_count a; a_wait := a_wait a; a_status := a_status a; a_timers := {[t]} ∪ a_timers a;
       a_messages := a_messages a; a_data := a_data a |}
  else a.

(** A thread stops waiting, with a status. *)
Definition a_leave (t : Z) (st : Status_Control) (a : sync) : sync :=
  {| a_count := a_count a;
     a_wait := fun q => filter (fun x => x <> t) (a_wait a q);
     a_status := fn_set (a_status a) t st;
     a_timers := a_timers a ∖ {[t]};
     a_messages := a_messages a;
     a_data := a_data a |}.

Definition a_surrender (q max : Z) (a : sync) : Status_Control * sync :=
  match a_wait a q with
  | t :: _ => (STATUS_SUCCESSFUL, a_leave t (a_status a t) a)
  | [] => if a_count a q <? max then (STATUS_SUCCESSFUL, a_set_count q (a_count a q + 1) a)
          else (STATUS_MAXIMUM_COUNT_EXCEEDED, a)
  end.

(** All threads of a queue stop waiting, in the order of the queue. *)
Definition a_mark (f : flush_filter) (t : Z) (a : sync) : sync :=
  match f with
  | Filter_default => a
  | Filter_object_was_deleted => a_set_status t STATUS_OBJECT_WAS_DELETED a
  | Filter_unavailable => a_set_status t STATUS_UNAVAILABLE a
  | Filter_message_queue_was_deleted => a_set_status t STATUS_MESSAGE_QUEUE_WAS_DELETED a
  end.

Definition a_drop (f : flush_filter) (a : sync) (t : Z) : sync := a_leave t (a_status (a_mark f t a) t) (a_mark f t a).

Definition a_flush (q : Z) (f : flush_filter) (a : sync) : sync := foldl (a_drop f) a (a_wait a q).

(** Messages are stored, and copied to the application. *)
Definition a_set_messages (q : Z) (l : list (list Z)) (a : sync) : sync :=
  {| a_count := a_count a; a_wait := a_wait a; a_status := a_status a; a_timers := a_timers a;
     a_messages := fn_set (a_messages a) q l; a_data := a_data a |}.

Definition a_set_data (d : data) (a : sync) : sync :=
  {| a_count := a_count a; a_wait := a_wait a; a_status := a_status a; a_timers := a_timers a;
     a_messages := a_messages a; a_data := d |}.

Definition overwrite (m l : list Z) : list Z := m ++ drop (length m) l.

Definition d_copy (m : list Z) (buffer size_p : Z) (d : data) : data :=
  {| d_bytes := fn_set (d_bytes d) buffer (overwrite m (d_bytes d buffer)); d_size := fn_set (d_size d) size_p (Z.of_nat (length m));
     d_target := d_target d |}.

Definition d_set_target (t buffer size_p : Z) (d : data) : data :=
  {| d_bytes := d_bytes d; d_size := d_size d; d_target := fn_set (d_target d) t (buffer, size_p) |}.

Definition message_of (buffer size : Z) (a : sync) : list Z := take (Z.to_nat size) (d_bytes (a_data a) buffer).

(** A thread that waits gets a message. *)
Definition a_deliver (buffer size : Z) (a : sync) (t : Z) : sync :=
  let '(b, p) := d_target (a_data a) t in
  a_leave t (a_status a t) (a_set_data (d_copy (message_of buffer size a) b p (a_data a)) a).

Definition a_send (q buffer size : Z) (urgent : bool) (a : sync) : Status_Control * sync :=
  match kind q with
  | Kind_message c =>
      if mc_size c <? size then (STATUS_MESSAGE_INVALID_SIZE, a)
      else
        match a_messages a q, a_wait a q with
        | [], t :: _ => (STATUS_SUCCESSFUL, a_deliver buffer size a t)
        | l, _ =>
            if Z.of_nat (length l) <? mc_pending c then
              let m := message_of buffer size a in
              (STATUS_SUCCESSFUL, a_set_messages q (if urgent then m :: l else l ++ [m]) a)
            else (STATUS_TOO_MANY, a)
        end
  | _ => (STATUS_UNAVAILABLE, a)
  end.

Definition a_broadcast (q buffer size : Z) (a : sync) : sync :=
  match kind q with
  | Kind_message c =>
      if mc_size c <? size then a
      else
        match a_messages a q with
        | [] => foldl (a_deliver buffer size) a (a_wait a q)
        | _ => a
        end
  | _ => a
  end.

Definition a_call (c : call) (a : sync) : result * sync :=
  match c with
  | Surrender q max => let '(r, a') := a_surrender q max a in (Status r, a')
  | Flush q _ => (Woken (Z.of_nat (length (a_wait a q))), a_flush q Filter_unavailable a)
  | Destroy q _ => (Nothing, a_flush q Filter_object_was_deleted a)
  | Release q _ => (Woken (u32 (Z.of_nat (length (a_wait a q)))), a_flush q Filter_default (a_set_count q 0 a))
  | Delete q _ => (Nothing, a_flush q Filter_object_was_deleted (a_set_count q 0 a))
  | Send q buffer size urgent => let '(r, a') := a_send q buffer size urgent a in (Status r, a')
  | Drop q => (Woken (Z.of_nat (length (a_messages a q))), a_set_messages q [] a)
  | Close q _ => (Nothing, a_flush q Filter_message_queue_was_deleted a)
  | Fill buffer bytes =>
      (Nothing, a_set_data {| d_bytes := fn_set (d_bytes (a_data a)) buffer bytes; d_size := d_size (a_data a);
                              d_target := d_target (a_data a) |} a)
  end.

Definition a_isr (o : isr_op) (a : sync) : sync :=
  match o with
  | I_call c => (a_call c a).2
  | I_broadcast q buffer size => a_broadcast q buffer size a
  | I_timeout t => if decide (t ∈ a_timers a) then a_leave t STATUS_TIMEOUT a else a
  | I_suspend _ | I_resume _ => a
  end.

Definition a_isrs (l : list isr_op) (a : sync) : sync := foldl (fun a o => a_isr o a) a l.

(** A thread starts to wait, with interrupts in between. *)
Definition a_block (q t : Z) (ticks : option Z) (w : windows) (a : sync) : sync :=
  a_isrs (w_flags w) (a_isrs (w_state w) (a_arm q t ticks (a_isrs (w_callout w) (a_enter q t a)))).

Definition a_seize (e q : Z) (wait : bool) (ticks : option Z) (w : windows) (a : sync) : result * sync :=
  if decide (a_count a q <> 0) then (Status STATUS_SUCCESSFUL, a_set_count q (a_count a q - 1) a)
  else if wait then (Nothing, a_block q e ticks w a)
  else (Status STATUS_UNSATISFIED, a).

(** The arrival that an automatic barrier waits for releases the others. *)
Definition trips (q : Z) (a : sync) : bool :=
  match kind q with
  | Kind_barrier at_ => _CORE_barrier_Is_automatic at_ && (u32 (a_count a q + 1) =? maximum_count at_)
  | _ => false
  end.

Definition a_arrive (e q : Z) (ticks : option Z) (w : windows) (a : sync) : result * sync :=
  if trips q a then (Status STATUS_BARRIER_AUTOMATICALLY_RELEASED, a_flush q Filter_default (a_set_count q 0 a))
  else (Nothing, a_block q e ticks w (a_set_count q (u32 (a_count a q + 1)) a)).

Definition a_receive (e q buffer size_p : Z) (wait : bool) (ticks : option Z) (w : windows) (a : sync) : result * sync :=
  match a_messages a q with
  | m :: l => (Status STATUS_SUCCESSFUL, a_set_data (d_copy m buffer size_p (a_data a)) (a_set_messages q l a))
  | [] =>
      if wait then
        (Nothing, a_block q e ticks w (a_set_data (d_set_target e buffer size_p (a_data a)) a))
      else (Status STATUS_UNSATISFIED, a)
  end.

(** A call that wakes one thread takes it off the queue and then unblocks it,
    with interrupts in between. *)
Definition wakes (c : call) (a : sync) : bool :=
  match c with
  | Surrender q _ => negb (bool_decide (a_wait a q = []))
  | Send q _ size _ =>
      match kind q with
      | Kind_message c =>
          negb (mc_size c <? size) && bool_decide (a_messages a q = []) && negb (bool_decide (a_wait a q = []))
      | _ => false
      end
  | _ => false
  end.

Definition a_call_in (w : list isr_op) (c : call) (a : sync) : result * sync :=
  let '(r, a') := a_call c a in (r, if wakes c a then a_isrs w a' else a').

(** An operation while the thread [e] executes. *)
Definition a_exec (e : Z) (o : sync_op) (a : sync) : result * sync :=
  match o with
  | Seize q wait ticks w => if e =? idle then (Nothing, a) else a_seize e q wait ticks w a
  | Arrive q ticks _ w => if e =? idle then (Nothing, a) else a_arrive e q ticks w a
  | Receive q buffer size_p wait ticks w => if e =? idle then (Nothing, a) else a_receive e q buffer size_p wait ticks w a
  | Call c w => a_call_in w c a
  | Interrupt l => (Nothing, a_isrs l a)
  end.

(** A run with the executing threads and the results. *)
Inductive a_run : sync -> list sync_op -> list (Z * result) -> sync -> Prop :=
  | a_run_nil a : a_run a [] [] a
  | a_run_cons a o os e es a' : a_run (a_exec e o a).2 os es a' -> a_run a (o :: os) ((e, (a_exec e o a).1) :: es) a'.

Lemma a_run_det a os es a' a'' : a_run a os es a' -> a_run a os es a'' -> a' = a''.
Proof. intros H. revert a''. induction H as [|a o os e es a' H IH]; intros a''; inversion 1; subst; auto. Qed.

End abstract.

(** * The kernel *)

Section kernel.
Context {TL : ThreadLayout} {RB : RB_Macros} {T : Type} {TT : ThreadTimers T}.
Context (ops : Scheduler_Operations) (ticks_per_timeslice : Z) (disc : Z -> Thread_queue_Operations) (idle : Z).
Abbreviation K := (kernel T).

Definition filter_of (f : flush_filter) : Z -> M K Z :=
  match f with
  | Filter_default => _Thread_queue_Flush_default_filter
  | Filter_object_was_deleted => _Thread_queue_Flush_status_object_was_deleted
  | Filter_unavailable => _Thread_queue_Flush_status_unavailable
  | Filter_message_queue_was_deleted => _CORE_message_queue_Was_deleted
  end.

(** [isr] are the interrupts before a woken thread is unblocked. *)
Definition call_exec (c : call) (isr : M K unit) : M K result :=
  match c with
  | Surrender q max =>
      r ← _CORE_semaphore_Surrender ops ticks_per_timeslice q (disc q) max empty_context isr; mret (Status r)
  | Flush q u =>
      n ← _Thread_queue_Flush_critical ops ticks_per_timeslice q (disc q) _Thread_queue_Flush_status_unavailable empty_context u;
      mret (Woken n)
  | Destroy q u => _CORE_semaphore_Destroy ops ticks_per_timeslice q (disc q) empty_context u;; mret Nothing
  | Release q u => n ← _CORE_barrier_Surrender ops ticks_per_timeslice q empty_context u; mret (Woken n)
  | Delete q u => _CORE_barrier_Flush ops ticks_per_timeslice q empty_context u;; mret Nothing
  | Send q buffer size urgent =>
      e ← gets (fun k => executing (k_sched k));
      r ← (if urgent then _CORE_message_queue_Urgent ops ticks_per_timeslice q e buffer size false empty_context isr
           else _CORE_message_queue_Send ops ticks_per_timeslice q e buffer size false empty_context isr);
      mret (Status r)
  | Drop q => n ← _CORE_message_queue_Flush q; mret (Woken n)
  | Close q u => _CORE_message_queue_Close ops ticks_per_timeslice (fun _ => mret tt) q empty_context u;; mret Nothing
  | Fill buffer bytes => put_bytes buffer bytes;; mret Nothing
  end.

(** The watchdog of a thread expires: it is removed and the timeout routine
    is called. *)
Definition expire (t : Z) : M K unit :=
  b ← gets (fun k => timer_active t (k_timers k));
  whenM b (on_timers (timer_remove t);; _Thread_Timeout ops t).

Definition isr_exec (o : isr_op) : M K unit :=
  match o with
  | I_call c => call_exec c (mret tt);; mret tt
  | I_broadcast q buffer size => _CORE_message_queue_Broadcast ops ticks_per_timeslice q buffer size empty_context (mret tt);; mret tt
  | I_timeout t => expire t
  | I_suspend t => on_sched (_Thread_Set_state_locked ops t STATES_SUSPENDED);; mret tt
  | I_resume t => on_sched (_Thread_Clear_state_locked ops t STATES_SUSPENDED);; mret tt
  end.

Fixpoint isr_run (l : list isr_op) : M K unit :=
  match l with
  | [] => mret tt
  | o :: l => isr_exec o;; isr_run l
  end.

(** Dispatching is disabled during an interrupt. *)
Definition interrupt (l : list isr_op) : M K unit :=
  _Thread_Dispatch_disable;;
  isr_run l;;
  _Thread_Dispatch_enable ticks_per_timeslice.

Definition wait_context (ticks : option Z) : Thread_queue_Context :=
  {| thread_state := 0; timeout_ticks := ticks; ThreadQueue.Priority_Actions := NULL; Priority_update := [] |}.

Definition to_result (r : option Status_Control) : result :=
  match r with
  | Some st => Status st
  | None => Nothing
  end.

(** The idle thread makes no calls that may block. *)
Definition sync_exec (o : sync_op) : M K (Z * result) :=
  e ← gets (fun k => executing (k_sched k));
  match o with
  | Seize q wait ticks w =>
      if e =? idle then mret (e, Nothing)
      else
        r ← _CORE_semaphore_Seize ops ticks_per_timeslice q (disc q) e wait (wait_context ticks)
               (interrupt (w_callout w)) (interrupt (w_state w)) (interrupt (w_flags w));
        mret (e, to_result r)
  | Arrive q ticks u w =>
      if e =? idle then mret (e, Nothing)
      else
        r ← _CORE_barrier_Seize ops ticks_per_timeslice q e true (wait_context ticks) u
               (interrupt (w_callout w)) (interrupt (w_state w)) (interrupt (w_flags w));
        mret (e, to_result r)
  | Receive q buffer size_p wait ticks w =>
      if e =? idle then mret (e, Nothing)
      else
        r ← _CORE_message_queue_Seize ops ticks_per_timeslice q e buffer size_p wait (wait_context ticks)
               (interrupt (w_callout w)) (interrupt (w_state w)) (interrupt (w_flags w));
        mret (e, to_result r)
  | Call c w => r ← call_exec c (interrupt w); mret (e, r)
  | Interrupt l => interrupt l;; mret (e, Nothing)
  end.

Fixpoint sync_run (os : list sync_op) : M K (list (Z * result)) :=
  match os with
  | [] => mret []
  | o :: os =>
      r ← sync_exec o;
      rs ← sync_run os;
      mret (r :: rs)
  end.

(** Initialization: the spare heads of the threads, which are created before
    (threadinitialize.c), the semaphores with their initial values, the
    barriers with their attributes and the message queues, for whose buffers
    the workspace returned the given areas. *)
Fixpoint heads_initialize (ts : list Z) : M K unit :=
  match ts with
  | [] => mret tt
  | t :: ts =>
      w ← get_wait t;
      _Thread_queue_Heads_initialize (spare_heads w);;
      heads_initialize ts
  end.

Inductive object_config :=
  | Config_semaphore (initial_value : Z)
  | Config_barrier (the_attributes : CORE_barrier_Attributes)
  | Config_message (the_discipline : CORE_message_queue_Disciplines) (c : message_config).

Fixpoint objects_initialize (l : list (Z * object_config)) : M K unit :=
  match l with
  | [] => mret tt
  | (q, Config_semaphore v) :: l => _CORE_semaphore_Initialize q v;; objects_initialize l
  | (q, Config_barrier at_) :: l => _CORE_barrier_Initialize q at_;; objects_initialize l
  | (q, Config_message d c) :: l =>
      _CORE_message_queue_Initialize (fun _ => mret (mc_buffers c)) q d (mc_pending c) (mc_size c);; objects_initialize l
  end.

Definition sync_boot (ts : list Z) (l : list (Z * object_config)) : M K unit := heads_initialize ts;; objects_initialize l.
End kernel.

End SyncSpec.
