(* ===== verification/MessageQueueInv.v ===== *)
(** Message queues in memory: the buffer controls of a queue on its two
    chains, and what the operations on messages do to them.

    The lemmas are about one queue and the data of the application; that the
    other queues keep what they have follows from [mq_step]. *)

From S2P Require Import Prelude DList Chain RBTree Priority Scheduler ThreadQueue ThreadQueueInv MessageQueue SyncSpec.

Module MessageQueueInv.
Import RBTree Priority Scheduler ThreadQueue ThreadQueueInv MessageQueue SyncSpec.

(** * Chains of buffer controls *)

Lemma array_nodes_length start n size : length (Chain.array_nodes start n size) = n.
Proof. revert start. induction n as [|n IH]; intros start; cbn; [done|]. by rewrite IH. Qed.

Lemma dsep_apart c ns : NoDup ns -> (forall n, n ∈ ns -> n + 16 <= c \/ c + 24 <= n) ->
  (forall n n', n ∈ ns -> n' ∈ ns -> n' = n \/ n + 16 <= n' \/ n' + 16 <= n) ->
  dsep Chain.NODE_NEXT Chain.NODE_PREVIOUS c ns (c + 8).
Proof.
  intros Hnd Hc Hsep. unfold Chain.NODE_NEXT, Chain.NODE_PREVIOUS. split_and!.
  - apply NoDup_cons. split; [|done]. intros Hin. specialize (Hc _ Hin). lia.
  - apply NoDup_app. split_and!; [done| |apply NoDup_singleton]. intros x Hx ->%list_elem_of_singleton. specialize (Hc _ Hx). lia.
  - intros x y [->|Hx]%elem_of_cons [Hy| ->%list_elem_of_singleton]%elem_of_app; [specialize (Hc _ Hy); lia|lia| |specialize (Hc _ Hx); lia].
    destruct (Hsep _ _ Hx Hy) as [->|?]; lia.
Qed.

(** The nodes of a chain are moved in front of those of another one. *)
Lemma chain_splice m c1 c2 f p l : Chain.chain m c1 (f :: p) -> Chain.chain m c2 l ->
  dsep Chain.NODE_NEXT Chain.NODE_PREVIOUS c2 ((f :: p) ++ l) (c2 + 8) ->
  let x := dpred c1 (f :: p) in let b := dsucc l (c2 + 8) in
  Chain.chain (<[f + 8 := c2]> (<[b + 8 := x]> (<[x := b]> (<[c2 := f]> m)))) c2 ((f :: p) ++ l).
Proof.
  intros (_ & H1 & _) (_ & H2 & Hn) Hs x b.
  assert (Ex : x = dpred f p) by (unfold x, dpred; by destruct p as [|y p _] using rev_ind; [|rewrite app_comm_cons, !last_snoc]).
  assert (Hx : x ∈ f :: p) by (rewrite Ex; apply dpred_elem). pose proof (dsucc_elem l (c2 + 8)) as Hb. fold b in Hb.
  rewrite <- (app_nil_r (f :: p)) in H1. apply dlist_split_pos in H1 as (H1 & _). rewrite links_cons2 in H1. destruct H1 as [_ H1].
  change l with ([] ++ l) in H2. apply dlist_split_pos in H2 as (_ & H2 & _). cbn [app] in *.
  pose proof Hs as (Hn1 & Hn2 & Hs'). unfold Chain.NODE_NEXT, Chain.NODE_PREVIOUS in *.
  assert (Hs2 : dsep 0 8 f (p ++ l) (c2 + 8)).
  { split_and!; [by apply NoDup_cons in Hn1 as [_ ?]|by apply NoDup_cons in Hn2 as [_ ?]|]. intros y z Hy Hz. apply Hs'; set_solver. }
  pose proof (dlist_link2 0 8 m f p l (c2 + 8) Hs2 H1 H2) as H3. cbn zeta in H3. fold b in H3. rewrite <- Ex in H3.
  pose proof (dlist_link2 0 8 _ c2 [] (f :: p ++ l) (c2 + 8) Hs I H3) as H4. cbn [dpred dsucc last head default from_option id] in H4.
  rewrite !Z.add_0_r in H4. assert (c2 <> x) by (apply NoDup_cons in Hn1 as [? _]; set_solver).
  assert (c2 + 0 <> b + 8) by (apply Hs'; set_solver).
  rewrite (insert_insert_ne _ c2 (b + 8)), (insert_insert_ne _ c2 x) in H4 by lia.
  unfold Chain.chain, Chain.NODE_NEXT, Chain.NODE_PREVIOUS. split_and!; [done|exact H4|].
  clearbody x b. assert (c2 <> b).
  { intros E. apply NoDup_cons in Hn1 as [Hn1 _]. apply elem_of_app in Hb as [?|?%list_elem_of_singleton]; [set_solver|lia]. }
  assert (c2 <> f) by (apply NoDup_cons in Hn1 as [Hn1 _]; set_solver).
  assert (c2 + 8 <> x).
  { intros E. rewrite app_comm_cons in Hn2. apply NoDup_app in Hn2 as (_ & Hn2 & _). apply (Hn2 x); [set_solver|]. rewrite <- E. by left. }
  by rewrite !lookup_insert_ne by lia.
Qed.

(** * The state of a message queue *)

(** The buffer controls of a message queue, and the words of its chains. *)
Definition message_stride (c : message_config) : Z := u64 (align_message_size (mc_size c) + BUFFER_CONTROL_SIZE).
Definition message_nodes (c : message_config) : list Z :=
  Chain.array_nodes (mc_buffers c) (Z.to_nat (mc_pending c)) (message_stride c).
Definition message_word (q : Z) (c : message_config) (x : Z) : Prop :=
  q + PENDING_MESSAGES <= x < q + INACTIVE_MESSAGES + 24 \/ exists n, n ∈ message_nodes c /\ n <= x < n + 16.

(** The message [m] is in the buffer control at [n]. *)
Definition stored (ms : messages) (n : Z) (m : list Z) : Prop :=
  ms_size ms !! (n + CONTENTS_SIZE) = Some (Z.of_nat (length m)) /\
  exists d, ms_bytes ms !! (n + CONTENTS_BUFFER) = Some d /\ take (length m) d = m.

Lemma stored_ext ms ms' ns l : (forall n, n ∈ ns -> ms_size ms' !! (n + CONTENTS_SIZE) = ms_size ms !! (n + CONTENTS_SIZE) /\
    ms_bytes ms' !! (n + CONTENTS_BUFFER) = ms_bytes ms !! (n + CONTENTS_BUFFER)) ->
  Forall2 (stored ms) ns l -> Forall2 (stored ms') ns l.
Proof.
  intros H Hf. induction Hf as [|n m ns l Hnm Hf IH]; [constructor|]. constructor; [|apply IH; intros x Hx; apply H; by right].
  destruct (H n) as [E1 E2]; [by left|]. unfold stored in *. by rewrite E1, E2.
Qed.

Section messages.
Set Default Proof Using "Type".
Context {TL : ThreadLayout} {RB : RB_Macros} {T : Type} {TT : ThreadTimers T}.
Context (D HS QS STK U V : gset Z).
Context (disc : Z -> Thread_queue_Operations) (kind : Z -> object_kind) (capacity : Z -> Z).
Abbreviation K := (kernel T).

(** Message queues share no word with the queue heads, the wait nodes, the
    stacks and each other, and their variables and buffers are not those of
    the application, [V] and [U]. *)
Record message_layout : Prop := {
  ml_word q c x : q ∈ QS -> kind q = Kind_message c -> message_word q c x ->
    ~ heads_word HS x /\ (forall t, t ∈ D -> ~ (wait_node t <= x < wait_node t + 16)) /\
    (forall u, u ∈ STK -> ~ (u <= x < u + 24)) /\
    forall q' c', q' ∈ QS -> kind q' = Kind_message c' -> q' <> q -> ~ message_word q' c' x;
  ml_node q c n : q ∈ QS -> kind q = Kind_message c -> n ∈ message_nodes c ->
    0 < n < 2 ^ 64 /\ (n + 16 <= q + PENDING_MESSAGES \/ q + INACTIVE_MESSAGES + 24 <= n) /\
    (n + CONTENTS_SIZE ∉ V) /\ (n + CONTENTS_BUFFER ∉ U) /\
    forall n', n' ∈ message_nodes c -> n' = n \/ n + 16 <= n' \/ n' + 16 <= n;
  ml_config q c : q ∈ QS -> kind q = Kind_message c ->
    0 <= mc_pending c < 2 ^ 32 /\ 0 <= mc_size c < 2 ^ 64 /\ NoDup (message_nodes c);
}.

(** Where a thread that waits for a message wants it. *)
Definition target_ok (ms : messages) (tg : Z -> Z * Z) (c : message_config) (t : Z) : Prop :=
  (tg t).1 ∈ U /\ (tg t).2 ∈ V /\ mc_size c <= capacity (tg t).1 /\
  exists n, ms_arguments ms !! t = Some {| wait_count := n; return_argument := (tg t).2; return_argument_second := (tg t).1 |}.

(** A message queue with the pending messages [l] and the waiting threads
    [ts]. *)
Record message_ok (m : mem) (ms : messages) (tg : Z -> Z * Z) (l : list (list Z)) (ts : list Z) (q : Z) (c : message_config)
    : Prop := {
  mo_control : ms_queue ms !! q = Some {| operations := disc q; maximum_pending_messages := mc_pending c;
    number_of_pending_messages := Z.of_nat (length l); maximum_message_size := mc_size c; message_buffers := mc_buffers c |};
  mo_chains : exists pending inactive, Chain.chain m (q + PENDING_MESSAGES) pending /\
    Chain.chain m (q + INACTIVE_MESSAGES) inactive /\ pending ++ inactive ≡ₚ message_nodes c /\
    Forall2 (stored ms) pending l;
  mo_buffer n : n ∈ message_nodes c -> is_Some (ms_size ms !! (n + CONTENTS_SIZE)) /\
    exists d, ms_bytes ms !! (n + CONTENTS_BUFFER) = Some d /\ mc_size c <= Z.of_nat (length d);
  mo_size x : x ∈ l -> Z.of_nat (length x) <= mc_size c;
  mo_wait : l <> [] -> ts = [];
  mo_target t : t ∈ ts -> target_ok ms tg c t;
}.

(** The buffers and the size variables of the application, and the arguments
    of the threads. *)
Record data_ok (ms : messages) (d : data) : Prop := {
  do_bytes b : b ∈ U -> ms_bytes ms !! b = Some (d_bytes d b) /\ Z.of_nat (length (d_bytes d b)) = capacity b;
  do_size p : p ∈ V -> ms_size ms !! p = Some (d_size d p);
  do_arguments t : t ∈ D -> is_Some (ms_arguments ms !! t);
}.

Lemma message_mem W m m' ms tg l ts q c : changes W m m' -> (forall x, message_word q c x -> x ∉ W) ->
  message_ok m ms tg l ts q c -> message_ok m' ms tg l ts q c.
Proof.
  intros HW Hno [M1 (pend & inact & C1 & C2 & Hp & Hst) M3 M4 M5 M6]. split; try done. exists pend, inact.
  assert (Hpn : forall n, n ∈ pend \/ n ∈ inact -> n ∈ message_nodes c) by (intros n Hn; rewrite <- Hp; by apply elem_of_app).
  split_and!; [..|done|done]; (eapply chain_changes; [exact HW| |done]); intros x Hx; apply Hno; unfold message_word, PENDING_MESSAGES, INACTIVE_MESSAGES in *;
    apply Chain.elem_of_chain_words in Hx as [?|[?|[?|(n & Hin & ?)]]]; try (left; lia); right; exists n; (split; [by apply Hpn; auto|lia]).
Qed.

(** Threads stop waiting. *)
Lemma message_waits m ms tg l ts ts' q c : (forall t, t ∈ ts' -> t ∈ ts) -> (ts = [] -> ts' = []) ->
  message_ok m ms tg l ts q c -> message_ok m ms tg l ts' q c.
Proof. intros Hsub Hnil [M1 M2 M3 M4 M5 M6]. split; auto. Qed.

(** A thread starts to wait. *)
Lemma message_enters m ms tg ts ts' t q c : (forall x, x ∈ ts' -> x = t \/ x ∈ ts) -> target_ok ms tg c t ->
  message_ok m ms tg [] ts q c -> message_ok m ms tg [] ts' q c.
Proof. intros Hsub Ht [M1 M2 M3 M4 M5 M6]. split; try done. intros x [->|?]%Hsub; auto. Qed.

Hypothesis Hmsg : message_layout.

(** * Steps *)

(** The word [x] belongs to a queue of [P]. *)
Definition word_of (P : Z -> Prop) (x : Z) : Prop := exists q c, P q /\ q ∈ QS /\ kind q = Kind_message c /\ message_word q c x.
Definition node_of (P : Z -> Prop) (n : Z) : Prop := exists q c, P q /\ q ∈ QS /\ kind q = Kind_message c /\ n ∈ message_nodes c.

(** A step on the queues of [P] and the data of the application; the
    arguments of the threads in [X] may change, those of the others only in
    the count. *)
Record mq_step (P X : Z -> Prop) (k k' : K) (d d' : data) : Prop := {
  st_kernel : k' = with_messages (k_messages k') (with_mem (k_mem k') k);
  st_mem : exists W, changes W (k_mem k) (k_mem k') /\ forall x, x ∈ W -> word_of P x;
  st_queue q : ~ P q -> ms_queue (k_messages k') !! q = ms_queue (k_messages k) !! q;
  st_size p : p ∉ V -> (forall n, node_of P n -> p <> n + CONTENTS_SIZE) -> ms_size (k_messages k') !! p = ms_size (k_messages k) !! p;
  st_bytes b : b ∉ U -> (forall n, node_of P n -> b <> n + CONTENTS_BUFFER) -> ms_bytes (k_messages k') !! b = ms_bytes (k_messages k) !! b;
  st_arguments t v : ~ X t -> ms_arguments (k_messages k) !! t = Some v -> exists n, ms_arguments (k_messages k') !! t =
    Some {| wait_count := n; return_argument := return_argument v; return_argument_second := return_argument_second v |};
  st_target t : ~ X t -> d_target d' t = d_target d t;
  st_data : data_ok (k_messages k) d -> data_ok (k_messages k') d';
}.

Lemma mq_refl P X k d : mq_step P X k k d d.
Proof. split; try done; [by destruct k|exists []; split; [apply changes_refl|by intros x ?%not_elem_of_nil]|]. intros t [n a b] _ E. by exists n. Qed.

Lemma mq_trans P X k1 k2 k3 d1 d2 d3 : mq_step P X k1 k2 d1 d2 -> mq_step P X k2 k3 d2 d3 -> mq_step P X k1 k3 d1 d3.
Proof.
  intros [A1 (W1 & A2 & A3) A4 A5 A6 A7 A8 A9] [B1 (W2 & B2 & B3) B4 B5 B6 B7 B8 B9]. split.
  - rewrite B1. rewrite A1. done.
  - exists (W1 ++ W2). split; [eapply changes_trans; eapply changes_mono; [|exact A2| |exact B2]; intros x Hx; apply elem_of_app; auto|].
    intros x [?|?]%elem_of_app; auto.
  - intros q Hq. by rewrite B4, A4.
  - intros p Hp Hn. by rewrite B5, A5.
  - intros p Hp Hn. by rewrite B6, A6.
  - intros t v Ht Hv. destruct (A7 t v Ht Hv) as [n Hn]. by apply (B7 t _ Ht Hn).
  - intros t Ht. by rewrite B8, A8.
  - auto.
Qed.

(** A queue is kept by steps on other queues. *)
Lemma message_frame P X k k' d d' l ts q c : mq_step P X k k' d d' -> q ∈ QS -> kind q = Kind_message c -> ~ P q ->
  (forall t, t ∈ ts -> ~ X t) ->
  message_ok (k_mem k) (k_messages k) (d_target d) l ts q c -> message_ok (k_mem k') (k_messages k') (d_target d') l ts q c.
Proof using Hmsg.
  intros [_ (W & HW & HWx) S3 S4 S5 S6 S7 _] Hq Hk HP HX Hok. apply (message_mem W) with (m' := k_mem k') in Hok; [|done|].
  2:{ intros x Hx HxW. destruct (HWx x HxW) as (q' & c' & HP' & Hq' & Hk' & Hx'). destruct (ml_word Hmsg q c x Hq Hk Hx) as (_ & _ & _ & Hw).
      apply (Hw q' c' Hq' Hk'); [by intros ->|done]. }
  destruct Hok as [M1 (pend & inact & C1 & C2 & Hp & Hst) M3 M4 M5 M6].
  assert (Hother : forall n, n ∈ message_nodes c -> forall n', node_of P n' -> n <> n').
  { intros n Hn n' (q' & c' & HP' & Hq' & Hk' & Hn') ->. destruct (ml_word Hmsg q c n' Hq Hk) as (_ & _ & _ & Hw).
    - right. exists n'. split; [done|lia].
    - apply (Hw q' c' Hq' Hk'); [by intros ->|]. right. exists n'. split; [done|lia]. }
  assert (Esz : forall n, n ∈ message_nodes c -> ms_size (k_messages k') !! (n + CONTENTS_SIZE) = ms_size (k_messages k) !! (n + CONTENTS_SIZE)).
  { intros n Hn. destruct (ml_node Hmsg q c n Hq Hk Hn) as (_ & _ & ? & _). apply S4; [done|]. intros n' Hn'. pose proof (Hother n Hn n' Hn'). lia. }
  assert (Eby : forall n, n ∈ message_nodes c -> ms_bytes (k_messages k') !! (n + CONTENTS_BUFFER) = ms_bytes (k_messages k) !! (n + CONTENTS_BUFFER)).
  { intros n Hn. destruct (ml_node Hmsg q c n Hq Hk Hn) as (_ & _ & _ & ? & _). apply S5; [done|]. intros n' Hn'. pose proof (Hother n Hn n' Hn'). lia. }
  split.
  - by rewrite S3.
  - exists pend, inact. split_and!; [done|done|done|]. eapply stored_ext; [|exact Hst]. intros n Hn. assert (n ∈ message_nodes c) by (rewrite <- Hp; set_solver).
    by rewrite Esz, Eby.
  - intros n Hn. rewrite Esz, Eby by done. by apply M3.
  - done.
  - done.
  - intros t Ht. destruct (M6 t Ht) as (H1 & H2 & H3 & n & Hn). unfold target_ok. rewrite S7 by auto. split_and!; [done..|].
    destruct (S6 t _ (HX t Ht) Hn) as [n' Hn']. by exists n'.
Qed.

(** ** Updates *)

Definition put_ms_queue (q : Z) (v : CORE_message_queue_Control) (ms : messages) : messages :=
  {| ms_queue := <[q := v]> (ms_queue ms); ms_size := ms_size ms; ms_bytes := ms_bytes ms; ms_arguments := ms_arguments ms |}.
Definition put_ms_size (p v : Z) (ms : messages) : messages :=
  {| ms_queue := ms_queue ms; ms_size := <[p := v]> (ms_size ms); ms_bytes := ms_bytes ms; ms_arguments := ms_arguments ms |}.
Definition put_ms_bytes (b : Z) (v : list Z) (ms : messages) : messages :=
  {| ms_queue := ms_queue ms; ms_size := ms_size ms; ms_bytes := <[b := v]> (ms_bytes ms); ms_arguments := ms_arguments ms |}.
Definition put_ms_arguments (t : Z) (v : Thread_Wait_arguments) (ms : messages) : messages :=
  {| ms_queue := ms_queue ms; ms_size := ms_size ms; ms_bytes := ms_bytes ms; ms_arguments := <[t := v]> (ms_arguments ms) |}.
Abbreviation update f k := (with_messages (f (k_messages k)) k).

Lemma wp_get_control q v (Q : CORE_message_queue_Control -> K -> Prop) (k : K) : ms_queue (k_messages k) !! q = Some v -> Q v k -> wp (get_control q) Q k.
Proof. unfold wp, get_control. by intros ->. Qed.

Lemma wp_set_pending q v n (Q : unit -> K -> Prop) (k : K) : ms_queue (k_messages k) !! q = Some v ->
  Q tt (update (put_ms_queue q {| operations := operations v; maximum_pending_messages := maximum_pending_messages v;
    number_of_pending_messages := n; maximum_message_size := maximum_message_size v; message_buffers := message_buffers v |}) k) ->
  wp (set_number_of_pending_messages q n) Q k.
Proof. intros Hv HQ. apply wp_bind. eapply wp_get_control; [exact Hv|]. by apply wp_modify. Qed.

Lemma wp_get_size p v (Q : Z -> K -> Prop) (k : K) : ms_size (k_messages k) !! p = Some v -> Q v k -> wp (get_size p) Q k.
Proof. unfold wp, get_size. by intros ->. Qed.

Lemma wp_set_size p v (Q : unit -> K -> Prop) (k : K) : is_Some (ms_size (k_messages k) !! p) -> Q tt (update (put_ms_size p v) k) ->
  wp (set_size p v) Q k.
Proof. intros [x Hx] HQ. apply wp_bind. eapply wp_get_size; [exact Hx|]. by apply wp_modify. Qed.

Lemma wp_get_arguments t v (Q : Thread_Wait_arguments -> K -> Prop) (k : K) : ms_arguments (k_messages k) !! t = Some v -> Q v k -> wp (get_arguments t) Q k.
Proof. unfold wp, get_arguments. by intros ->. Qed.

Lemma wp_set_count t v n (Q : unit -> K -> Prop) (k : K) : ms_arguments (k_messages k) !! t = Some v ->
  Q tt (update (put_ms_arguments t {| wait_count := n; return_argument := return_argument v; return_argument_second := return_argument_second v |}) k) ->
  wp (set_wait_count t n) Q k.
Proof. intros Hv HQ. apply wp_bind. eapply wp_get_arguments; [exact Hv|]. by apply wp_modify. Qed.

Lemma wp_copy source destination size s d (Q : unit -> K -> Prop) (k : K) :
  ms_bytes (k_messages k) !! source = Some s -> ms_bytes (k_messages k) !! destination = Some d ->
  size <= Z.of_nat (length s) -> size <= Z.of_nat (length d) ->
  Q tt (update (put_ms_bytes destination (take (Z.to_nat size) s ++ drop (Z.to_nat size) d)) k) ->
  wp (_CORE_message_queue_Copy_buffer source destination size) Q k.
Proof.
  intros Hs Hd H1 H2 HQ. unfold wp, _CORE_message_queue_Copy_buffer, get_bytes, mbind, M_bind. rewrite Hs, Hd.
  by rewrite (proj2 (Z.leb_le _ _) H1), (proj2 (Z.leb_le _ _) H2).
Qed.

Definition d_put_size (p v : Z) (d : data) : data := {| d_bytes := d_bytes d; d_size := fn_set (d_size d) p v; d_target := d_target d |}.
Definition d_put_bytes (b : Z) (v : list Z) (d : data) : data := {| d_bytes := fn_set (d_bytes d) b v; d_size := d_size d; d_target := d_target d |}.

Lemma step_mem P X W (k : K) m' d : changes W (k_mem k) m' -> (forall x, x ∈ W -> word_of P x) -> mq_step P X k (with_mem m' k) d d.
Proof. intros HW Hx. split; try done; [by exists W|]. intros t [n a b] _ E. by exists n. Qed.

Lemma step_queue P X q v (k : K) d : P q -> mq_step P X k (update (put_ms_queue q v) k) d d.
Proof.
  intros HP. split; try done; [exists []; split; [apply changes_refl|by intros x ?%not_elem_of_nil]| |intros t [n a b] _ E; by exists n|intros [? ? ?]; by split].
  intros q' Hq. cbn. rewrite lookup_insert_ne; [done|]. by intros ->.
Qed.

Lemma step_node_size P X n v (k : K) d : node_of P n -> mq_step P X k (update (put_ms_size (n + CONTENTS_SIZE) v) k) d d.
Proof using Hmsg.
  intros Hn. split; try done; [exists []; split; [apply changes_refl|by intros x ?%not_elem_of_nil]| |intros t [x a b] _ E; by exists x|].
  - intros p Hp Hne. cbn. rewrite lookup_insert_ne; [done|]. intros <-. by apply (Hne n Hn).
  - intros [H1 H2 H3]. split; try done. intros p Hp. cbn. rewrite lookup_insert_ne; [auto|]. intros <-.
    destruct Hn as (q & c & _ & Hq & Hk & Hn). by destruct (ml_node Hmsg q c n Hq Hk Hn) as (_ & _ & ? & _).
Qed.

Lemma step_node_bytes P X n v (k : K) d : node_of P n -> mq_step P X k (update (put_ms_bytes (n + CONTENTS_BUFFER) v) k) d d.
Proof using Hmsg.
  intros Hn. split; try done; [exists []; split; [apply changes_refl|by intros x ?%not_elem_of_nil]| |intros t [x a b] _ E; by exists x|].
  - intros p Hp Hne. cbn. rewrite lookup_insert_ne; [done|]. intros <-. by apply (Hne n Hn).
  - intros [H1 H2 H3]. split; try done. intros p Hp. cbn. rewrite lookup_insert_ne; [auto|]. intros <-.
    destruct Hn as (q & c & _ & Hq & Hk & Hn). by destruct (ml_node Hmsg q c n Hq Hk Hn) as (_ & _ & _ & ? & _).
Qed.

Lemma step_size P X p v (k : K) d : p ∈ V -> mq_step P X k (update (put_ms_size p v) k) d (d_put_size p v d).
Proof.
  intros Hp. split; try done; [exists []; split; [apply changes_refl|by intros x ?%not_elem_of_nil]| |intros t [x a b] _ E; by exists x|].
  - intros p' Hp' _. cbn. rewrite lookup_insert_ne; [done|]. by intros ->.
  - intros [H1 H2 H3]. split; try done. intros p' Hp'. cbn. destruct (decide (p' = p)) as [->|Hne]; [by rewrite lookup_insert_eq, fn_set_eq|].
    rewrite lookup_insert_ne, fn_set_ne by done. auto.
Qed.

Lemma step_bytes P X b v (k : K) d : b ∈ U -> Z.of_nat (length v) = capacity b -> mq_step P X k (update (put_ms_bytes b v) k) d (d_put_bytes b v d).
Proof.
  intros Hb Hl. split; try done; [exists []; split; [apply changes_refl|by intros x ?%not_elem_of_nil]| |intros t [x a y] _ E; by exists x|].
  - intros p' Hp' _. cbn. rewrite lookup_insert_ne; [done|]. by intros ->.
  - intros [H1 H2 H3]. split; try done. intros p' Hp'. cbn. destruct (decide (p' = b)) as [->|Hne]; [by rewrite lookup_insert_eq, fn_set_eq|].
    rewrite lookup_insert_ne, fn_set_ne by done. auto.
Qed.

Lemma step_count P X t w n (k : K) d : ms_arguments (k_messages k) !! t = Some w ->
  mq_step P X k (update (put_ms_arguments t {| wait_count := n; return_argument := return_argument w; return_argument_second := return_argument_second w |}) k) d d.
Proof.
  intros Hw. split; try done; [exists []; split; [apply changes_refl|by intros x ?%not_elem_of_nil]| |].
  - intros x v _ Hv. cbn. destruct (decide (x = t)) as [->|Hne]; [rewrite lookup_insert_eq; rewrite Hw in Hv; injection Hv as <-; by exists n|].
    rewrite lookup_insert_ne by done. destruct v as [y ? ?]. by exists y.
  - intros [H1 H2 H3]. split; try done. intros x Hx. cbn. destruct (decide (x = t)) as [->|Hne]; [rewrite lookup_insert_eq; by eexists|].
    rewrite lookup_insert_ne by done. auto.
Qed.

Lemma step_arguments P (X : Z -> Prop) t w b p (k : K) d : X t -> mq_step P X k (update (put_ms_arguments t w) k) d (d_set_target t b p d).
Proof.
  intros HX. split; try done; [exists []; split; [apply changes_refl|by intros x ?%not_elem_of_nil]|..].
  - intros x v Hx Hv. cbn. rewrite lookup_insert_ne by (by intros ->). destruct v as [y ? ?]. by exists y.
  - intros x Hx. cbn. by rewrite fn_set_ne by (by intros ->).
  - intros [H1 H2 H3]. split; try done. intros x Hx. cbn. destruct (decide (x = t)) as [->|Hne]; [rewrite lookup_insert_eq; by eexists|].
    rewrite lookup_insert_ne by done. auto.
Qed.

(** ** The chains of a queue *)

Section queue.
Context (q : Z) (c : message_config).
Hypothesis Hq : q ∈ QS.
Hypothesis Hk : kind q = Kind_message c.

Lemma node_apart n n' : n ∈ message_nodes c -> n' ∈ message_nodes c -> n' = n \/ n + 16 <= n' \/ n' + 16 <= n.
Proof using Hmsg Hq Hk. intros Hn Hn'. by apply (ml_node Hmsg q c n Hq Hk Hn). Qed.

Lemma node_here n : n ∈ message_nodes c -> node_of (eq q) n.
Proof using Hq Hk. intros Hn. by exists q, c. Qed.

Lemma chain_word h ns x : q + PENDING_MESSAGES <= h <= q + INACTIVE_MESSAGES -> (forall n, n ∈ ns -> n ∈ message_nodes c) ->
  x ∈ Chain.chain_words h ns -> word_of (eq q) x.
Proof using Hq Hk.
  intros Hh Hns Hx. exists q, c. split_and!; [done|done|done|]. unfold message_word, PENDING_MESSAGES, INACTIVE_MESSAGES in *.
  apply Chain.elem_of_chain_words in Hx as [?|[?|[?|(n & Hn & ?)]]]; [left; lia..|]. right. exists n. split; [auto|lia].
Qed.

Lemma chains_apart m m' h h' ns ns' : q + PENDING_MESSAGES <= h <= q + INACTIVE_MESSAGES -> q + PENDING_MESSAGES <= h' <= q + INACTIVE_MESSAGES ->
  h + 24 <= h' \/ h' + 24 <= h -> (forall n, n ∈ ns -> n ∈ message_nodes c) -> (forall n, n ∈ ns' -> n ∈ message_nodes c) -> ns ## ns' ->
  changes (Chain.chain_words h ns) m m' -> Chain.chain m h' ns' -> Chain.chain m' h' ns'.
Proof using Hmsg Hq Hk.
  intros H1 H2 H3 Hns Hns' Hd Hch. apply (chain_changes _ _ _ _ _ Hch). intros x Hx' Hx.
  assert (Hsep : forall n, n ∈ message_nodes c -> n + 16 <= q + PENDING_MESSAGES \/ q + INACTIVE_MESSAGES + 24 <= n).
  { intros n Hn. by destruct (ml_node Hmsg q c n Hq Hk Hn) as (_ & ? & _). }
  apply Chain.elem_of_chain_words in Hx as [?|[?|[?|(n & Hn & ?)]]], Hx' as [?|[?|[?|(n' & Hn' & ?)]]];
    try (specialize (Hsep _ (Hns _ Hn))); try (specialize (Hsep _ (Hns' _ Hn'))); try lia.
  destruct (node_apart n n' (Hns _ Hn) (Hns' _ Hn')) as [->|?]; [by apply (Hd n)|lia].
Qed.

Lemma node_mapped m h ns n : Chain.chain m h ns -> n ∈ ns -> is_Some (m !! n) /\ is_Some (m !! (n + 8)).
Proof.
  intros (_ & Hl & _) (l1 & l2 & ->)%list_elem_of_split. apply dlist_split in Hl as (_ & _ & [_ H1] & [H2 _]).
  unfold Chain.NODE_NEXT, Chain.NODE_PREVIOUS in *. rewrite Z.add_0_r in H2. rewrite H1, H2. split; by eexists.
Qed.

Lemma node_off m h ns n : q + PENDING_MESSAGES <= h <= q + INACTIVE_MESSAGES -> (forall n, n ∈ ns -> n ∈ message_nodes c) -> n ∈ message_nodes c ->
  n ∉ ns -> is_Some (m !! n) -> is_Some (m !! (n + 8)) -> Chain.off_chain m h ns n.
Proof using Hmsg Hq Hk.
  intros Hh Hns Hn Hnin H1 H2. destruct (ml_node Hmsg q c n Hq Hk Hn) as (_ & Hs & _).
  apply off_chain_apart; [done|done|unfold PENDING_MESSAGES, INACTIVE_MESSAGES in *; lia|].
  intros x Hx. destruct (node_apart n x Hn (Hns _ Hx)) as [->|?]; [done|lia].
Qed.

(** What a step on this queue leaves. *)
Abbreviation here := (fun ns => forall n, n ∈ ns -> n ∈ message_nodes c).

Lemma nodes_facts pend inact : pend ++ inact ≡ₚ message_nodes c ->
  here pend /\ here inact /\ pend ## inact /\ NoDup pend /\ NoDup inact /\ Z.of_nat (length pend) + Z.of_nat (length inact) = mc_pending c.
Proof using Hmsg Hq Hk disc capacity.
  intros Hp. destruct (ml_config Hmsg q c Hq Hk) as (Hb & _ & Hnd). pose proof Hnd as Hnd'. rewrite <- Hp in Hnd'.
  apply NoDup_app in Hnd' as (N1 & N2 & N3). split_and!; [intros n Hn; rewrite <- Hp; set_solver|intros n Hn; rewrite <- Hp; set_solver| |done|done|].
  - intros n H1 H2. by apply (N2 n).
  - apply Permutation_length in Hp. unfold message_nodes in Hp. rewrite array_nodes_length, length_app in Hp. lia.
Qed.

(** A buffer control with a message was added to the pending ones. *)
Lemma pending_added X (k : K) d l m n pend inact pend' l' m' : Chain.chain (k_mem k) (q + INACTIVE_MESSAGES) inact ->
  pend ++ n :: inact ≡ₚ message_nodes c ->
  ms_queue (k_messages k) !! q = Some {| operations := disc q; maximum_pending_messages := mc_pending c;
    number_of_pending_messages := Z.of_nat (length l) + 1; maximum_message_size := mc_size c; message_buffers := mc_buffers c |} ->
  (forall n, n ∈ message_nodes c -> is_Some (ms_size (k_messages k) !! (n + CONTENTS_SIZE)) /\
    exists d, ms_bytes (k_messages k) !! (n + CONTENTS_BUFFER) = Some d /\ mc_size c <= Z.of_nat (length d)) ->
  (forall x, x ∈ m :: l -> Z.of_nat (length x) <= mc_size c) ->
  Chain.chain m' (q + PENDING_MESSAGES) pend' -> changes (Chain.chain_words (q + PENDING_MESSAGES) pend') (k_mem k) m' ->
  pend' ≡ₚ n :: pend -> l' ≡ₚ m :: l -> Forall2 (stored (k_messages k)) pend' l' ->
  mq_step (eq q) X k (with_mem m' k) d d /\ message_ok m' (k_messages k) (d_target d) l' [] q c.
Proof using Hmsg Hq Hk disc capacity.
  intros C2 Hp Hv Hbuf Hsz Hc' Hch Hpp Hll Hst'. destruct (nodes_facts _ _ Hp) as (Hpn & Hin & Hdj & Hnd1 & Hnd2 & Hcnt).
  assert (Hpn' : here pend') by (intros x; rewrite Hpp; set_solver). split.
  - eapply step_mem; [exact Hch|]. intros x. apply chain_word; [unfold PENDING_MESSAGES, INACTIVE_MESSAGES; lia|done].
  - split; [|exists pend', inact; split_and!; [done| |by rewrite <- Hp, Hpp, <- Permutation_middle|done]|done|intros x; rewrite Hll; apply Hsz|done|set_solver].
    + rewrite Hv. do 2 f_equal. apply Permutation_length in Hll. cbn in Hll. lia.
    + eapply (chains_apart _ m' (q + PENDING_MESSAGES) _ pend'); [..|exact Hch|exact C2]; unfold PENDING_MESSAGES, INACTIVE_MESSAGES; try lia;
        [done|set_solver|]. intros x. rewrite Hpp. intros [->|Hx]%elem_of_cons Hx'; [by apply NoDup_cons in Hnd2 as [? _]|]. apply (Hdj x Hx). by right.
Qed.

(** A message is written to a buffer control and added to the pending ones. *)
Lemma insert_message_ok X (k : K) d l b bs size urgent n pend inact :
  Chain.chain (k_mem k) (q + PENDING_MESSAGES) pend -> Chain.chain (k_mem k) (q + INACTIVE_MESSAGES) inact ->
  is_Some (k_mem k !! n) -> is_Some (k_mem k !! (n + 8)) ->
  pend ++ n :: inact ≡ₚ message_nodes c -> Forall2 (stored (k_messages k)) pend l ->
  ms_queue (k_messages k) !! q = Some {| operations := disc q; maximum_pending_messages := mc_pending c;
    number_of_pending_messages := Z.of_nat (length l); maximum_message_size := mc_size c; message_buffers := mc_buffers c |} ->
  (forall n, n ∈ message_nodes c -> is_Some (ms_size (k_messages k) !! (n + CONTENTS_SIZE)) /\
    exists d, ms_bytes (k_messages k) !! (n + CONTENTS_BUFFER) = Some d /\ mc_size c <= Z.of_nat (length d)) ->
  (forall x, x ∈ l -> Z.of_nat (length x) <= mc_size c) ->
  b ∈ U -> ms_bytes (k_messages k) !! b = Some bs -> 0 <= size <= mc_size c -> size <= Z.of_nat (length bs) ->
  wp (_CORE_message_queue_Insert_message q n b size
        (if urgent : bool then CORE_MESSAGE_QUEUE_URGENT_REQUEST else CORE_MESSAGE_QUEUE_SEND_REQUEST))
    (fun _ k' => mq_step (eq q) X k k' d d /\ let m := take (Z.to_nat size) bs in
       message_ok (k_mem k') (k_messages k') (d_target d) (if urgent then m :: l else l ++ [m]) [] q c) k.
Proof using Hmsg Hq Hk disc capacity.
  intros C1 C2 Hm1 Hm2 Hp Hst Hv Hbuf Hsz HbU Hb Hs1 Hs2. set (m := take (Z.to_nat size) bs).
  assert (Hn : n ∈ message_nodes c) by (rewrite <- Hp; set_solver).
  assert (Hlen : Z.of_nat (length m) = size) by (unfold m; rewrite length_take; lia).
  destruct (Hbuf n Hn) as [Hns (dn & Hdn & Hdl)]. destruct (nodes_facts _ _ Hp) as (Hpn & Hin & Hdj & Hnd1 & Hnd2 & Hcnt).
  destruct (ml_config Hmsg q c Hq Hk) as (Hcb & _ & _). destruct (ml_node Hmsg q c n Hq Hk Hn) as (_ & _ & HnV & HnU & _).
  pose proof (Forall2_length _ _ _ Hst) as Elen. cbn [length] in Hcnt.
  apply wp_bind, wp_set_size; [done|]. apply wp_bind. eapply wp_copy; [exact Hb|exact Hdn|done|lia|]. apply wp_bind.
  eapply wp_get_control; [exact Hv|]. apply wp_bind. eapply wp_set_pending; [exact Hv|].
  cbn [operations maximum_pending_messages number_of_pending_messages maximum_message_size message_buffers].
  rewrite u32_small by lia. fold m. set (k1 := with_messages _ _).
  assert (Hst1 : mq_step (eq q) X k k1 d d).
  { eapply mq_trans; [apply (step_node_size _ _ n size), node_here; done|].
    eapply mq_trans; [apply (step_node_bytes _ _ n), node_here; done|]. by apply step_queue. }
  assert (Hnp : n ∉ pend) by (intros Hx; apply (Hdj n Hx); by left).
  assert (Hold : Forall2 (stored (k_messages k1)) pend l).
  { eapply stored_ext; [|exact Hst]. intros x Hx. assert (x <> n) by (by intros ->). cbn. rewrite !lookup_insert_ne by lia. done. }
  assert (Hnew : stored (k_messages k1) n m).
  { split; [cbn; by rewrite lookup_insert_eq, Hlen|]. eexists. split; [cbn; by rewrite lookup_insert_eq|]. by apply take_app_length. }
  assert (Hoff : Chain.off_chain (k_mem k) (q + PENDING_MESSAGES) pend n).
  { apply node_off; try done. unfold PENDING_MESSAGES, INACTIVE_MESSAGES. lia. }
  assert (Hbuf1 : forall n, n ∈ message_nodes c -> is_Some (ms_size (k_messages k1) !! (n + CONTENTS_SIZE)) /\
    exists d, ms_bytes (k_messages k1) !! (n + CONTENTS_BUFFER) = Some d /\ mc_size c <= Z.of_nat (length d)).
  { intros x Hx. destruct (decide (x = n)) as [->|Hne]; cbn; [|rewrite !lookup_insert_ne by lia; by apply Hbuf].
    rewrite !lookup_insert_eq. split; [by eexists|]. eexists. split; [done|]. rewrite length_app, length_drop. unfold m in *. lia. }
  assert (Hsz1 : forall x, x ∈ m :: l -> Z.of_nat (length x) <= mc_size c) by (intros x [->|Hx]%elem_of_cons; [lia|auto]).
  assert (Hfin : forall pend' l' m', Chain.chain m' (q + PENDING_MESSAGES) pend' ->
    changes (Chain.chain_words (q + PENDING_MESSAGES) pend') (k_mem k1) m' -> pend' ≡ₚ n :: pend -> l' ≡ₚ m :: l ->
    Forall2 (stored (k_messages k1)) pend' l' ->
    mq_step (eq q) X k (with_mem m' k1) d d /\ message_ok m' (k_messages k1) (d_target d) l' [] q c).
  { intros pend' l' m' H1 H2 H3 H4 H5. destruct (pending_added X k1 d l m n pend inact pend' l' m') as [Hs Hok]; try done; [apply lookup_insert_eq|].
    split; [by eapply mq_trans|done]. }
  destruct urgent; cbn [CORE_MESSAGE_QUEUE_URGENT_REQUEST].
  - apply Chain.prepend_spec with (ns := pend); [exact C1|exact Hoff|]. intros m' Hc' Hch. by apply (Hfin (n :: pend)); [..|constructor].
  - apply Chain.append_spec with (ns := pend); [exact C1|exact Hoff|]. intros m' Hc' Hch. apply (Hfin (pend ++ [n])); [done|done| | |].
    + by rewrite <- Permutation_cons_append.
    + by rewrite <- Permutation_cons_append.
    + apply Forall2_app; [done|]. by constructor; [|constructor].
Qed.

Definition submit_type (urgent : bool) : Z :=
  if urgent then CORE_MESSAGE_QUEUE_URGENT_REQUEST else CORE_MESSAGE_QUEUE_SEND_REQUEST.

(** A message that no thread waits for is stored, if there is a buffer
    control for it. *)
Lemma store_ok X (k : K) d l b bs size urgent : message_ok (k_mem k) (k_messages k) (d_target d) l [] q c ->
  b ∈ U -> ms_bytes (k_messages k) !! b = Some bs -> 0 <= size <= mc_size c -> size <= Z.of_nat (length bs) ->
  wp (the_message ← _CORE_message_queue_Allocate_message_buffer q;
      if negb (the_message =? NULL) then
        _CORE_message_queue_Insert_message q the_message b size (submit_type urgent);; mret STATUS_SUCCESSFUL
      else mret STATUS_TOO_MANY)
    (fun r k' => mq_step (eq q) X k k' d d /\ let m := take (Z.to_nat size) bs in
       if Z.of_nat (length l) <? mc_pending c
       then r = STATUS_SUCCESSFUL /\ message_ok (k_mem k') (k_messages k') (d_target d) (if urgent then m :: l else l ++ [m]) [] q c
       else r = STATUS_TOO_MANY /\ message_ok (k_mem k') (k_messages k') (d_target d) l [] q c) k.
Proof using Hmsg Hq Hk disc capacity.
  intros [M1 (pend & inact & C1 & C2 & Hp & Hst) M3 M4 M5 M6] HbU Hb Hs1 Hs2. pose proof (Forall2_length _ _ _ Hst) as Elen.
  destruct (nodes_facts _ _ Hp) as (Hpn & Hin & Hdj & Hnd1 & Hnd2 & Hcnt).
  apply wp_bind. apply Chain.get_spec with (ns := inact); [exact C2|]. intros m' Hc' Hch.
  assert (Hstep : mq_step (eq q) X k (with_mem m' k) d d).
  { eapply step_mem; [exact Hch|]. intros x. apply chain_word; [unfold PENDING_MESSAGES, INACTIVE_MESSAGES; lia|done]. }
  assert (C1' : Chain.chain m' (q + PENDING_MESSAGES) pend).
  { eapply (chains_apart _ _ (q + INACTIVE_MESSAGES) _ inact); [..|exact Hch|exact C1]; unfold PENDING_MESSAGES, INACTIVE_MESSAGES; try lia; try done. set_solver. }
  destruct inact as [|n inact]; cbn [head default from_option id tail] in *.
  - rewrite Z.eqb_refl. cbn [negb]. apply wp_ret. split; [done|]. rewrite (proj2 (Z.ltb_ge _ _)) by (cbn in Hcnt; lia). split; [done|].
    split; try done. by exists pend, [].
  - assert (Hn : n ∈ message_nodes c) by (apply Hin; by left). destruct (ml_node Hmsg q c n Hq Hk Hn) as (Hn0 & _).
    destruct (Z.eqb_spec n NULL) as [E|_]; [unfold NULL in E; lia|]. cbn [negb]. apply wp_bind.
    destruct (node_mapped _ _ _ n C2) as [E1 E2]; [by left|]. destruct Hch as [_ Hmap].
    eapply wp_mono; [eapply (insert_message_ok X (with_mem m' k) d l b bs size urgent n pend inact); try done; by apply Hmap|].
    intros [] k' (Hstep' & Hok). apply wp_ret. split; [by eapply mq_trans|].
    rewrite (proj2 (Z.ltb_lt _ _)) by (cbn in Hcnt; lia). done.
Qed.

(** The message of a buffer control that was pending is copied to the
    receiver, and the buffer control is free again. *)
Lemma take_ok X (k : K) d m l b p e n pend inact :
  Chain.chain (k_mem k) (q + PENDING_MESSAGES) pend -> Chain.chain (k_mem k) (q + INACTIVE_MESSAGES) inact ->
  is_Some (k_mem k !! n) -> is_Some (k_mem k !! (n + 8)) ->
  n :: pend ++ inact ≡ₚ message_nodes c -> stored (k_messages k) n m -> Forall2 (stored (k_messages k)) pend l ->
  ms_queue (k_messages k) !! q = Some {| operations := disc q; maximum_pending_messages := mc_pending c;
    number_of_pending_messages := Z.of_nat (length (m :: l)); maximum_message_size := mc_size c; message_buffers := mc_buffers c |} ->
  (forall n, n ∈ message_nodes c -> is_Some (ms_size (k_messages k) !! (n + CONTENTS_SIZE)) /\
    exists d, ms_bytes (k_messages k) !! (n + CONTENTS_BUFFER) = Some d /\ mc_size c <= Z.of_nat (length d)) ->
  (forall x, x ∈ m :: l -> Z.of_nat (length x) <= mc_size c) -> data_ok (k_messages k) d ->
  b ∈ U -> mc_size c <= capacity b -> p ∈ V -> e ∈ D ->
  wp (v ← get_control q;
      set_number_of_pending_messages q (u32 (number_of_pending_messages v - 1));;
      size ← get_size (n + CONTENTS_SIZE);
      set_size p size;;
      set_wait_count e (_CORE_message_queue_Get_message_priority n);;
      size ← get_size p;
      _CORE_message_queue_Copy_buffer (n + CONTENTS_BUFFER) b size;;
      _CORE_message_queue_Free_message_buffer q n;;
      mret (Some STATUS_SUCCESSFUL))
    (fun r k' => r = Some STATUS_SUCCESSFUL /\ mq_step (eq q) X k k' d (d_copy m b p d) /\
       message_ok (k_mem k') (k_messages k') (d_target d) l [] q c) k.
Proof using Hmsg Hq Hk disc capacity.
  intros C1 C2 Hm1 Hm2 Hp (Hsn & dn & Hbn & Hmn) Hst Hv Hbuf Hsz [D1 D2 D3] HbU Hcap HpV HeD.
  assert (Hn : n ∈ message_nodes c) by (rewrite <- Hp; set_solver). assert (Hp' : pend ++ n :: inact ≡ₚ message_nodes c) by (by rewrite <- Permutation_middle).
  destruct (nodes_facts _ _ Hp') as (Hpn & Hin & Hdj & Hnd1 & Hnd2 & Hcnt). destruct (ml_config Hmsg q c Hq Hk) as (Hcb & _ & _).
  destruct (ml_node Hmsg q c n Hq Hk Hn) as (_ & _ & HnV & HnU & _). pose proof (Forall2_length _ _ _ Hst) as Elen. cbn [length] in Hcnt.
  assert (Hpne : forall x, x ∈ message_nodes c -> x + CONTENTS_SIZE <> p /\ x + CONTENTS_BUFFER <> b).
  { intros x Hx. destruct (ml_node Hmsg q c x Hq Hk Hx) as (_ & _ & ? & ? & _). split; by intros <-. }
  destruct (Hpne n Hn) as [Hp1 Hp2]. destruct (D1 b HbU) as [Eb El]. destruct (D3 e HeD) as [we Hwe].
  assert (Hml : Z.of_nat (length m) <= mc_size c) by (apply Hsz; by left).
  assert (Hdl : (length m <= length dn)%nat) by (rewrite <- Hmn at 1; rewrite length_take; lia).
  apply wp_bind. eapply wp_get_control; [exact Hv|]. apply wp_bind. eapply wp_set_pending; [exact Hv|].
  cbn [operations maximum_pending_messages number_of_pending_messages maximum_message_size message_buffers].
  rewrite u32_small by (cbn [length]; lia). apply wp_bind. eapply wp_get_size; [exact Hsn|].
  apply wp_bind, wp_set_size; [cbn; rewrite D2 by done; by eexists|]. apply wp_bind. eapply wp_set_count; [exact Hwe|].
  apply wp_bind. eapply wp_get_size; [apply lookup_insert_eq|]. apply wp_bind.
  eapply wp_copy; [exact Hbn|exact Eb|lia|lia|]. rewrite Nat2Z.id, Hmn. fold (overwrite m (d_bytes d b)). set (k1 := with_messages _ _).
  assert (Hst1 : mq_step (eq q) X k k1 d (d_copy m b p d)).
  { eapply mq_trans; [by apply step_queue|]. eapply mq_trans; [by apply (step_size _ _ p (Z.of_nat (length m)))|]. eapply mq_trans; [by apply step_count|].
    apply (step_bytes (eq q) X b (overwrite m (d_bytes d b)) _ (d_put_size p (Z.of_nat (length m)) d)); [done|]. unfold overwrite. rewrite length_app, length_drop. lia. }
  apply wp_bind. apply Chain.append_spec with (ns := inact); [exact C2| |].
  { apply node_off; try done; [unfold PENDING_MESSAGES, INACTIVE_MESSAGES; lia|intros x Hx; apply Hin; by right|by apply NoDup_cons in Hnd2 as [? _]]. }
  intros m' Hc' Hch. apply wp_ret. split; [done|]. split.
  { eapply mq_trans; [exact Hst1|]. eapply step_mem; [exact Hch|]. intros x. apply chain_word; [unfold PENDING_MESSAGES, INACTIVE_MESSAGES; lia|set_solver]. }
  split.
  - cbn. rewrite lookup_insert_eq. do 2 f_equal. lia.
  - exists pend, (inact ++ [n]). split_and!; [|done|by rewrite <- Permutation_cons_append|].
    + eapply (chains_apart _ m' (q + INACTIVE_MESSAGES) _ (inact ++ [n])); [..|exact Hch|exact C1]; unfold PENDING_MESSAGES, INACTIVE_MESSAGES; try lia; set_solver.
    + eapply stored_ext; [|exact Hst]. intros x Hx. destruct (Hpne x (Hpn x Hx)). cbn. by rewrite !lookup_insert_ne by done.
  - intros x Hx. destruct (Hpne x Hx). cbn. rewrite !lookup_insert_ne by done. by apply Hbuf.
  - intros x Hx. apply Hsz. by right.
  - done.
  - set_solver.
Qed.

Lemma get_pending_ok X (k : K) d l ts : message_ok (k_mem k) (k_messages k) (d_target d) l ts q c ->
  wp (_CORE_message_queue_Get_pending_message q) (fun n k' => k_messages k' = k_messages k /\ mq_step (eq q) X k k' d d /\
    match l with
    | [] => n = NULL /\ message_ok (k_mem k') (k_messages k') (d_target d) l ts q c
    | m :: l => n <> NULL /\ exists pend inact, Chain.chain (k_mem k') (q + PENDING_MESSAGES) pend /\
        Chain.chain (k_mem k') (q + INACTIVE_MESSAGES) inact /\ is_Some (k_mem k' !! n) /\ is_Some (k_mem k' !! (n + 8)) /\
        n :: pend ++ inact ≡ₚ message_nodes c /\ stored (k_messages k) n m /\ Forall2 (stored (k_messages k)) pend l
    end) k.
Proof using Hmsg Hq Hk disc capacity.
  intros [M1 (pend & inact & C1 & C2 & Hp & Hst) M3 M4 M5 M6]. destruct (nodes_facts _ _ Hp) as (Hpn & Hin & Hdj & Hnd1 & Hnd2 & Hcnt).
  apply Chain.get_spec with (ns := pend); [exact C1|]. intros m' Hc' Hch. split; [done|]. split.
  { eapply step_mem; [exact Hch|]. intros x. apply chain_word; [unfold PENDING_MESSAGES, INACTIVE_MESSAGES; lia|done]. }
  assert (C2' : Chain.chain m' (q + INACTIVE_MESSAGES) inact).
  { eapply (chains_apart _ _ (q + PENDING_MESSAGES) _ pend); [..|exact Hch|exact C2]; unfold PENDING_MESSAGES, INACTIVE_MESSAGES; try lia; done. }
  destruct Hst as [|n m pend l Hnm Hst].
  - split; [done|]. split; try done. by exists [], inact.
  - cbn [head default from_option id tail] in *. assert (Hn : n ∈ message_nodes c) by (apply Hpn; by left).
    destruct (ml_node Hmsg q c n Hq Hk Hn) as (Hn0 & _). split; [unfold NULL; lia|]. exists pend, inact.
    destruct (node_mapped _ _ _ n C1) as [E1 E2]; [by left|]. destruct Hch as [_ Hmap]. split_and!; try done; by apply Hmap.
Qed.

(** The memory after the pending messages were spliced in front of the
    inactive ones. *)
Definition spliced (m : mem) (f : Z) (p l : list Z) : mem :=
  let x := dpred (q + PENDING_MESSAGES) (f :: p) in let b := dsucc l (q + INACTIVE_MESSAGES + 8) in
  <[f + 8 := q + INACTIVE_MESSAGES]> (<[b + 8 := x]> (<[x := b]> (<[q + INACTIVE_MESSAGES := f]> m))).

Lemma spliced_ok m f p l : Chain.chain m (q + PENDING_MESSAGES) (f :: p) -> Chain.chain m (q + INACTIVE_MESSAGES) l ->
  (f :: p) ++ l ≡ₚ message_nodes c ->
  Chain.chain (spliced m f p l) (q + INACTIVE_MESSAGES) ((f :: p) ++ l) /\
  changes (Chain.chain_words (q + INACTIVE_MESSAGES) ((f :: p) ++ l)) m (spliced m f p l).
Proof using Hmsg Hq Hk disc capacity.
  intros C1 C2 Hp. destruct (ml_config Hmsg q c Hq Hk) as (_ & _ & Hnd).
  assert (Hns : here ((f :: p) ++ l)) by (intros n; by rewrite Hp). split.
  - apply (chain_splice m (q + PENDING_MESSAGES) (q + INACTIVE_MESSAGES) f p l); [done|done|]. apply dsep_apart.
    + by rewrite Hp.
    + intros n Hn. destruct (ml_node Hmsg q c n Hq Hk (Hns n Hn)) as (_ & Hs & _). unfold PENDING_MESSAGES, INACTIVE_MESSAGES in *. lia.
    + intros n n' Hn Hn'. by apply node_apart; apply Hns.
  - unfold spliced. pose proof (dpred_elem f p) as Hx.
    assert (Ex : dpred (q + PENDING_MESSAGES) (f :: p) = dpred f p)
      by (unfold dpred; by destruct p as [|y p _] using rev_ind; [|rewrite app_comm_cons, !last_snoc]).
    rewrite Ex. pose proof (dsucc_elem l (q + INACTIVE_MESSAGES + 8)) as Hb.
    repeat apply changes_insert; try apply changes_refl; apply Chain.elem_of_chain_words.
    + do 3 right. exists f. split; [set_solver|by right].
    + apply elem_of_app in Hb as [Hb|Hb%list_elem_of_singleton]; [do 3 right; eexists; split; [apply elem_of_app; right; exact Hb|by right]|right; right; left; lia].
    + do 3 right. eexists. split; [apply elem_of_app; left; exact Hx|by left].
    + by left.
Qed.

Lemma drop_ok X (k : K) d l ts : message_ok (k_mem k) (k_messages k) (d_target d) l ts q c ->
  wp (_CORE_message_queue_Flush q) (fun r k' => r = Z.of_nat (length l) /\ mq_step (eq q) X k k' d d /\
    message_ok (k_mem k') (k_messages k') (d_target d) [] ts q c) k.
Proof using Hmsg Hq Hk disc capacity.
  intros Hok. pose proof Hok as [M1 (pend & inact & C1 & C2 & Hp & Hst) M3 M4 M5 M6]. apply wp_bind. eapply wp_get_control; [exact M1|].
  cbn [number_of_pending_messages]. destruct l as [|m l].
  { cbn [length Z.of_nat Z.eqb negb whenM]. apply wp_bind, wp_ret, wp_ret. split_and!; [done|apply mq_refl|done]. }
  rewrite (proj2 (Z.eqb_neq _ _)) by (cbn; lia). cbn [negb whenM]. rewrite M5 in * by done.
  destruct pend as [|f p]; [by inversion Hst|]. destruct (spliced_ok _ f p inact C1 C2 Hp) as [Hc Hch].
  assert (Hns : here ((f :: p) ++ inact)) by (intros n; by rewrite Hp).
  apply wp_bind, wp_bind. eapply wp_set_pending; [exact M1|]. set (k1 := with_messages _ _).
  pose proof C1 as (_ & L1 & L1'). pose proof C2 as (_ & L2 & _).
  pose proof (dlist_first _ _ _ _ _ _ L1) as F1. pose proof (dlist_last _ _ _ _ _ _ L1) as F2. pose proof (dlist_first _ _ _ _ _ _ L2) as F3.
  change inact with ([] ++ inact) in L2. apply dlist_split_pos in L2 as (_ & _ & [_ F4]). 
  apply wp_bind. eapply wp_load; [exact F3|]. apply wp_bind. eapply wp_load; [exact F1|]. apply wp_bind. eapply wp_load; [exact F2|].
  unfold Chain.set_next, Chain.set_previous, Chain._Chain_Head, Chain.NODE_NEXT, Chain.NODE_PREVIOUS in *. rewrite !Z.add_0_r in *.
  cbn [dsucc head default from_option id]. set (x := dpred _ (f :: p)) in *. set (b := dsucc inact _) in *.
  assert (Hx : x ∈ f :: p) by (unfold x, dpred; destruct (last (f :: p)) eqn:E; [by apply last_Some_elem_of|by apply last_None in E]).
  destruct (node_mapped _ _ _ f C1) as [_ Hf]; [by left|]. destruct (node_mapped _ _ _ x C1 Hx) as [Hx1 _].
  apply wp_bind, wp_store; [by eexists|]. apply wp_bind, wp_store; [rewrite get_set_mem; by apply is_Some_insert|].
  apply wp_bind, wp_store; [rewrite !get_set_mem; do 2 apply is_Some_insert; by eexists|].
  apply wp_bind, wp_store; [rewrite !get_set_mem; by do 3 apply is_Some_insert|].
  rewrite !get_set_mem, !set_set_mem. change (<[f + 8 := _]> _) with (spliced (k_mem k) f p inact).
  apply Chain.initialize_empty_spec; rewrite ?get_set_mem.
  { intros y Hy. apply Hch. assert (Hy' : y = q + PENDING_MESSAGES \/ y = q + PENDING_MESSAGES + 8 \/ y = q + PENDING_MESSAGES + 8 + 8) by (set_unfold; lia).
    destruct Hy' as [->|[->| ->]]; [by eexists|by eexists|by eexists]. }
  intros m' Hc' Hch'. rewrite set_set_mem. apply wp_ret. split; [done|].
  split.
  - eapply mq_trans; [by apply step_queue|].
    eapply mq_trans; [eapply (step_mem _ _ _ k1); [exact Hch|]|eapply (step_mem _ _ _ (with_mem (spliced (k_mem k) f p inact) k1)); [exact Hch'|]];
      intros y; apply chain_word; try done; unfold PENDING_MESSAGES, INACTIVE_MESSAGES; (lia || set_solver).
  - split; try done.
    + cbn. by rewrite lookup_insert_eq.
    + exists [], ((f :: p) ++ inact). split_and!; [done| |by rewrite <- Hp|constructor].
      eapply (chains_apart _ m' (q + PENDING_MESSAGES) _ []); [..|exact Hch'|exact Hc]; unfold PENDING_MESSAGES, INACTIVE_MESSAGES; try lia; (done || set_solver).
    + set_solver.
Qed.
End queue.

(** A message is copied to a thread that waits for it. *)
Lemma copy_to_ok {B} P X (k : K) d c source size t n (rest : M K B) (Q : B -> K -> Prop) : data_ok (k_messages k) d ->
  source ∈ U -> 0 <= size <= mc_size c -> size <= capacity source -> target_ok (k_messages k) (d_target d) c t ->
  (forall k', mq_step P X k k' d (d_copy (take (Z.to_nat size) (d_bytes d source)) (d_target d t).1 (d_target d t).2 d) -> wp rest Q k') ->
  wp (w ← get_arguments t;
      set_size (return_argument w) size;;
      set_wait_count t n;;
      _CORE_message_queue_Copy_buffer source (return_argument_second w) size;;
      rest) Q k.
Proof.
  intros [D1 D2 D3] HsU Hs1 Hs2 (Hb & Hp & Hcap & x & Hx) HQ. destruct (D1 _ HsU) as [Es El]. destruct (D1 _ Hb) as [Eb El'].
  set (m := take (Z.to_nat size) (d_bytes d source)) in *. assert (Hm : Z.of_nat (length m) = size) by (unfold m; rewrite length_take; lia).
  apply wp_bind. eapply wp_get_arguments; [exact Hx|]. cbn [return_argument return_argument_second].
  apply wp_bind, wp_set_size; [rewrite D2 by done; by eexists|]. apply wp_bind. eapply wp_set_count; [exact Hx|].
  apply wp_bind. eapply wp_copy; [exact Es|exact Eb|lia|lia|]. apply HQ.
  eapply mq_trans; [by apply (step_size _ _ (d_target d t).2 (Z.of_nat (length m)))|]. rewrite Hm. eapply mq_trans; [by apply step_count|].
  fold m. replace (drop (Z.to_nat size) (d_bytes d (d_target d t).1)) with (drop (length m) (d_bytes d (d_target d t).1)) by (f_equal; lia).
  fold (overwrite m (d_bytes d (d_target d t).1)). unfold d_copy. rewrite Hm.
  apply (step_bytes P X _ (overwrite m (d_bytes d (d_target d t).1)) _ (d_put_size (d_target d t).2 size d)); [done|].
  unfold overwrite. rewrite length_app, length_drop. lia.
Qed.
End messages.

Arguments ml_word {TL D HS QS STK U V kind} _.
Arguments ml_node {TL D HS QS STK U V kind} _.
Arguments ml_config {TL D HS QS STK U V kind} _.

(** * Initialization *)

(** The size and the addresses of the buffers do not overflow. *)
Definition config_fits (c : message_config) : Prop :=
  0 <= mc_size c /\ mc_size c + 39 < 2 ^ 64 /\ 0 < mc_buffers c /\ mc_buffers c + mc_pending c * message_stride c < 2 ^ 64.

Lemma align_message_size_le size : 0 <= size -> size + 7 < 2 ^ 64 -> size <= align_message_size size <= size + 7.
Proof.
  intros H0 H1. unfold align_message_size. change (8 - 1) with (Z.ones 3). rewrite (u64_small (size + Z.ones 3)) by (change (Z.ones 3) with 7; lia).
  assert (E : Z.land (size + Z.ones 3) (u64 (Z.lnot (Z.ones 3))) = Z.ldiff (size + Z.ones 3) (Z.ones 3)).
  { apply Z.bits_inj'. intros i Hi. rewrite Z.land_spec, Z.ldiff_spec. unfold u64. destruct (Z.lt_ge_cases i 64) as [Hlt|Hge].
    - rewrite Z.mod_pow2_bits_low, Z.lnot_spec by lia. done.
    - rewrite (testbit_above (size + Z.ones 3) 64) by (change (Z.ones 3) with 7; lia). done. }
  rewrite E, Z.ldiff_ones_r, Z.shiftl_mul_pow2, Z.shiftr_div_pow2 by lia. change (Z.ones 3) with 7. change (2 ^ 3) with 8.
  pose proof (Z.div_mod (size + 7) 8). pose proof (Z.mod_pos_bound (size + 7) 8). lia.
Qed.

Lemma message_stride_eq c : config_fits c -> message_stride c = align_message_size (mc_size c) + BUFFER_CONTROL_SIZE.
Proof. intros (H1 & H2 & _). pose proof (align_message_size_le (mc_size c) H1 ltac:(lia)). unfold message_stride, BUFFER_CONTROL_SIZE. rewrite u64_small; lia. Qed.

(** What the initialization of a queue uses. *)
Record message_startable {T} (k : kernel T) (q : Z) (c : message_config) : Prop := {
  mi_control : is_Some (ms_queue (k_messages k) !! q);
  mi_pending x : x ∈ Chain.chain_words (q + PENDING_MESSAGES) [] -> is_Some (k_mem k !! x);
  mi_inactive x : x ∈ Chain.chain_words (q + INACTIVE_MESSAGES) (message_nodes c) -> is_Some (k_mem k !! x);
  mi_buffer n : n ∈ message_nodes c -> is_Some (ms_size (k_messages k) !! (n + CONTENTS_SIZE)) /\
    exists d, ms_bytes (k_messages k) !! (n + CONTENTS_BUFFER) = Some d /\ mc_size c <= Z.of_nat (length d);
}.

Definition control_of (ops : Thread_queue_Operations) (c : message_config) : CORE_message_queue_Control :=
  {| operations := ops; maximum_pending_messages := mc_pending c; number_of_pending_messages := 0;
     maximum_message_size := mc_size c; message_buffers := mc_buffers c |}.

Lemma initialize_ok {TL : ThreadLayout} {T} (D HS QS STK U V : gset Z) (kind : Z -> object_kind)
    (k : kernel T) q c discipline : message_layout D HS QS STK U V kind -> q ∈ QS -> kind q = Kind_message c ->
  config_fits c -> message_startable k q c ->
  wp (_CORE_message_queue_Initialize (fun _ => mret (mc_buffers c)) q discipline (mc_pending c) (mc_size c))
    (fun _ k' => exists m' W, k' = with_queue (<[q := {| heads := NULL; owner := NULL |}]> (k_queue k))
         (with_messages (put_ms_queue q (control_of (message_queue_operations discipline) c) (k_messages k)) (with_mem m' k)) /\
       changes W (k_mem k) m' /\ (forall x, x ∈ W -> message_word q c x) /\
       Chain.chain m' (q + PENDING_MESSAGES) [] /\ Chain.chain m' (q + INACTIVE_MESSAGES) (message_nodes c)) k.
Proof.
  intros Hmsg Hq Hk Hfit [[v Hv] Hpw Hiw _]. pose proof (message_stride_eq c Hfit) as Es. destruct Hfit as (F1 & F2 & F3 & F4).
  destruct (ml_config Hmsg q c Hq Hk) as (Hpb & _ & Hnd). pose proof (align_message_size_le (mc_size c) F1 ltac:(lia)) as Hal.
  apply wp_bind. eapply wp_get_control; [exact Hv|]. apply wp_bind, wp_modify.
  cbv zeta. rewrite (proj2 (Z.ltb_ge (align_message_size (mc_size c)) (mc_size c))) by lia. rewrite mult32_always. apply wp_bind, wp_ret, wp_bind.
  eapply wp_get_control; [apply lookup_insert_eq|]. apply wp_bind, wp_modify.
  destruct (Z.eqb_spec (mc_buffers c) NULL) as [E|_]; [unfold NULL in E; lia|].
  fold (message_stride c). apply wp_bind.
  apply Chain.chain_initialize_spec; [unfold BUFFER_CONTROL_SIZE in Es; lia|lia|rewrite Z2Nat.id by lia; lia| |exact Hiw|].
  { apply dsep_apart; [done| |].
    - intros n Hn. destruct (ml_node Hmsg q c n Hq Hk Hn) as (_ & Hs & _). unfold PENDING_MESSAGES, INACTIVE_MESSAGES in *. lia.
    - intros n n' Hn Hn'. by apply (ml_node Hmsg q c n Hq Hk Hn). }
  intros m1 Hc1 Hch1. apply wp_bind, Chain.initialize_empty_spec.
  { intros x Hx. apply Hch1, Hpw, Chain.elem_of_chain_words. set_unfold. tauto. }
  intros m2 Hc2 Hch2. apply wp_bind, wp_modify, wp_bind. eapply wp_get_control; [apply lookup_insert_eq|]. apply wp_bind, wp_modify, wp_ret.
  exists m2, (Chain.chain_words (q + PENDING_MESSAGES) (message_nodes c) ++ Chain.chain_words (q + INACTIVE_MESSAGES) (message_nodes c)). split_and!.
  - unfold put_ms_queue, control_of. cbn. rewrite !insert_insert_eq. done.
  - eapply changes_trans; eapply changes_mono; [|exact Hch1| |exact Hch2]; [intros x Hx; apply elem_of_app; by right|]. intros x Hx. apply elem_of_app. left.
    apply Chain.elem_of_chain_words in Hx as [?|[?|[?|(n & Hn & _)]]]; [apply Chain.elem_of_chain_words; auto..|by apply not_elem_of_nil in Hn].
  - intros x Hx. unfold message_word, PENDING_MESSAGES, INACTIVE_MESSAGES in *.
    apply elem_of_app in Hx as [Hx|Hx]; apply Chain.elem_of_chain_words in Hx as [?|[?|[?|(n & Hn & ?)]]]; try (left; lia); right; exists n; (split; [done|lia]).
  - done.
  - eapply (chains_apart D HS QS STK U V kind Hmsg q c Hq Hk _ _ (q + PENDING_MESSAGES) _ []); [..|exact Hch2|exact Hc1];
      unfold PENDING_MESSAGES, INACTIVE_MESSAGES; try lia; (done || set_solver).
Qed.


End MessageQueueInv.
