(* ===== verification/SyncInv.v ===== *)
(** The invariant of the semaphores, barriers and message queues, and that
    every step keeps it.

    A thread that is taken off the queue in a window must not block, and its
    timer must be removed; this is what the wait flags are for.  Threads keep
    their priorities. *)

From S2P Require Import Prelude DList Chain RBTree Priority Scheduler SchedulerLaws ThreadQueue ThreadQueueInv Semaphore Barrier MessageQueue SyncSpec MessageQueueInv.

Module SyncInv.
Import RBTree Priority Scheduler SchedulerLaws ThreadQueue ThreadQueueInv Semaphore Barrier MessageQueue SyncSpec MessageQueueInv.

(** * Who waits *)

Lemma drop_wait f a t q : a_wait (a_drop f a t) q = filter (fun x => x <> t) (a_wait a q).
Proof. by destruct f. Qed.

Lemma deliver_wait b size a t q : a_wait (a_deliver b size a t) q = filter (fun x => x <> t) (a_wait a q).
Proof. unfold a_deliver. by destruct (d_target (a_data a) t). Qed.

Lemma deliver_messages b size a t : a_messages (a_deliver b size a t) = a_messages a.
Proof. unfold a_deliver. by destruct (d_target (a_data a) t). Qed.

(** Interrupts do not make threads wait. *)
Lemma flush_waiting q' f a t q : t ∈ a_wait (a_flush q' f a) q -> t ∈ a_wait a q.
Proof.
  unfold a_flush. generalize (a_wait a q'). intros l. revert a. induction l as [|x l IH]; intros a; cbn; [done|].
  intros Hin%IH. rewrite drop_wait, list_elem_of_filter in Hin. tauto.
Qed.

Lemma deliver_waiting b size a x t q : t ∈ a_wait (a_deliver b size a x) q -> t ∈ a_wait a q.
Proof. rewrite deliver_wait, list_elem_of_filter. tauto. Qed.

Section waits.
Context (kind : Z -> object_kind).

Lemma call_waiting c a t q : t ∈ a_wait (a_call kind c a).2 q -> t ∈ a_wait a q.
Proof.
  destruct c as [q' max|q' u|q' u|q' u|q' u|q' b size urgent|q'|q' u|b bytes]; cbn [a_call snd]; try (apply flush_waiting); try done.
  - unfold a_surrender. destruct (a_wait a q') as [|y l]; [by destruct (_ <? _)|]. cbn. rewrite list_elem_of_filter. tauto.
  - unfold a_send. destruct (kind q') as [| |c]; [done|done|]. destruct (mc_size c <? size); [done|].
    destruct (a_messages a q'), (a_wait a q'); try (apply deliver_waiting); by destruct (_ <? _).
Qed.

Lemma isr_waiting o a t q : t ∈ a_wait (a_isr kind o a) q -> t ∈ a_wait a q.
Proof.
  destruct o as [c|q' b size|x|x|x]; cbn [a_isr]; [apply call_waiting| | |done|done].
  - unfold a_broadcast. destruct (kind q') as [| |c]; [done|done|]. destruct (_ <? _); [done|]. destruct (a_messages a q'); [|done].
    generalize (a_wait a q'). intros l. revert a. induction l as [|x l IH]; intros a; cbn; [done|]. intros Hin%IH. by eapply deliver_waiting.
  - case_decide; [|done]. cbn. rewrite list_elem_of_filter. tauto.
Qed.

Lemma isrs_waiting l a t q : t ∈ a_wait (a_isrs kind l a) q -> t ∈ a_wait a q.
Proof. revert a. induction l as [|o l IH]; intros a; [done|]. intros Hin%IH. by apply isr_waiting in Hin. Qed.

End waits.

(** * The invariant *)

Section correctness.
Context {TL : ThreadLayout} {RB : RB_Macros} {T : Type} {TT : ThreadTimers T}.
Context (D HS QS STK U V : gset Z) {TTL : ThreadTimersLaws T D}.
Context (ops : Scheduler_Operations) (priorities : Z -> Prop) {L : SchedulerLaws ops priorities}.
Context (ticks_per_timeslice idle : Z) (disc : Z -> Thread_queue_Operations).
Context (kind : Z -> object_kind) (capacity : Z -> Z) (base : Z -> Z).
Hypothesis Hdisc : forall q, q ∈ QS -> supported (disc q).
Abbreviation K := (kernel T).

Definition waiting (a : sync) (t : Z) : Prop := exists q, t ∈ a_wait a q.
Definition blocked (th : Thread_Control) : Prop := Z.land (current_state th) STATES_BLOCKED <> 0.

(** [win] holds the threads between two steps of blocking or unblocking: a
    thread that is to set its blocking state ([false]), and one that did and
    is to check if it may block, or that was taken off its queue and is to
    be unblocked ([true]). *)
Definition thread_ok (win : gmap Z bool) (a : sync) (t : Z) (w : Thread_Wait_information) (th : Thread_Control) : Prop :=
  wait_return_code w = a_status a t /\ Wait_Priority th = base t /\
  (match win !! t with Some b => blocked th <-> b = true | None => blocked th <-> waiting a t end) /\
  ((exists q, t ∈ a_wait a q /\ wait_queue w = q /\ wait_operations w = disc q /\
     wait_flags w = match win !! t with Some _ => THREAD_QUEUE_INTEND_TO_BLOCK | None => THREAD_QUEUE_BLOCKED end) \/
   (~ waiting a t /\ wait_queue w = NULL /\ wait_operations w = Operations_default /\
     (wait_flags w = THREAD_QUEUE_READY_AGAIN \/ (win !! t = None /\ wait_flags w = THREAD_WAIT_FLAGS_INITIAL)))).

Abbreviation message_layout := (MessageQueueInv.message_layout D HS QS STK U V kind).
Abbreviation message_ok := (MessageQueueInv.message_ok U V disc capacity).
Abbreviation data_ok := (MessageQueueInv.data_ok D U V capacity).
Abbreviation mq_step := (MessageQueueInv.mq_step D QS U V kind capacity).

(** The object that starts with the queue [q]. *)
Definition object_ok (k : K) (a : sync) (q : Z) : Prop :=
  match kind q with
  | Kind_semaphore => k_object k !! q = Some (a_count a q) /\ (a_count a q <> 0 -> a_wait a q = [])
  | Kind_barrier at_ => k_barrier k !! q = Some {| Attributes := at_; number_of_waiting_threads := a_count a q |}
  | Kind_message c => message_ok (k_mem k) (k_messages k) (d_target (a_data a)) (a_messages a q) (a_wait a q) q c
  end.

(** [A] are the running timers, [lv] the thread dispatch disable level. *)
Record inv (win : gmap Z bool) (A : gset Z) (lv : Z) (k : K) (a : sync) : Prop := {
  si_queues : exists hs place, tq_inv D HS QS disc k (a_wait a) hs place;
  si_sched : exists q, wf ops priorities idle (k_sched k) q;
  si_dom : dom (threads (k_sched k)) = D;
  si_stack : stack_layout D HS STK (k_mem k);
  si_data : data_ok (k_messages k) (a_data a);
  si_count q : q ∈ QS -> 0 <= a_count a q < 2 ^ 32 /\ object_ok k a q;
  si_thread t : t ∈ D -> exists w th, k_wait k !! t = Some w /\ threads (k_sched k) !! t = Some th /\ thread_ok win a t w th;
  si_timers : timers_ok (k_timers k) A /\ A ⊆ D;
  si_running t : t ∈ A -> waiting a t \/ is_Some (win !! t);
  si_a_timers t : t ∈ a_timers a <-> t ∈ A /\ waiting a t;
  si_level : k_disable_level k = lv;
  si_executing : lv = 0 -> executing (k_sched k) = heir (k_sched k);
}.

(** The invariant with at most the timers [A] running. *)
Definition within (win : gmap Z bool) (A : gset Z) (lv : Z) (k : K) (a : sync) : Prop := exists A', A' ⊆ A /\ inv win A' lv k a.

Lemma within_refl win A lv k a : inv win A lv k a -> within win A lv k a.
Proof. by exists A. Qed.

Lemma within_sub win A A' lv k a : A' ⊆ A -> within win A' lv k a -> within win A lv k a.
Proof. intros HA (B & HB & Hi). exists B. split; [set_solver|done]. Qed.

(** Memory outside of the message queues. *)
Definition no_message_word (x : Z) : Prop := forall q c, q ∈ QS -> kind q = Kind_message c -> ~ message_word q c x.

Hypothesis Hmsg : message_layout.

Lemma queue_word_no_message l x : (forall t, t ∈ l -> t ∈ D) -> heads_word HS x \/ node_word l x -> no_message_word x.
Proof using Hmsg.
  intros Hl Hx q c Hq Hk Hm. destruct (ml_word Hmsg q c x Hq Hk Hm) as (H1 & H2 & _). destruct Hx as [?|(t & Ht & ?)]; [done|].
  by apply (H2 t); [apply Hl|].
Qed.

(** An object is kept by steps that do not concern it. *)
Lemma object_frame (k k' : K) a a' q W : q ∈ QS -> changes W (k_mem k) (k_mem k') -> (forall x, x ∈ W -> no_message_word x) ->
  k_object k' = k_object k -> k_barrier k' = k_barrier k -> k_messages k' = k_messages k ->
  a_count a' q = a_count a q -> a_messages a' q = a_messages a q -> a_data a' = a_data a ->
  (forall t, t ∈ a_wait a' q -> t ∈ a_wait a q) -> object_ok k a q -> object_ok k' a' q.
Proof.
  intros Hq HW Hno E1 E2 E3 E4 E5 E6 Hsub. assert (Hnil : a_wait a q = [] -> a_wait a' q = []).
  { intros E. rewrite E in Hsub. destruct (a_wait a' q) as [|t l]; [done|]. exfalso. by eapply not_elem_of_nil, (Hsub t); left. }
  unfold object_ok. rewrite E1, E2, E4. destruct (kind q) as [|at_|c] eqn:Ek; [naive_solver|done|].
  rewrite E3, E5, E6. intros Hok. eapply message_waits; [|done|eapply message_mem; [exact HW| |exact Hok]]; [done|].
  intros x Hx HxW. by apply (Hno x HxW q c Hq).
Qed.

(** ** Steps of the scheduler *)

(** A step that changes the states of threads. *)
Lemma inv_sched win win' A lv k a s' : inv win A lv k a -> (exists q, wf ops priorities idle s' q) ->
  Wait_Priority <$> threads s' = Wait_Priority <$> threads (k_sched k) ->
  (lv = 0 -> executing s' = heir s') ->
  (forall t w th th', t ∈ D -> threads (k_sched k) !! t = Some th -> threads s' !! t = Some th' ->
     thread_ok win a t w th -> thread_ok win' a t w th') ->
  (forall t, t ∈ A -> is_Some (win !! t) -> waiting a t \/ is_Some (win' !! t)) ->
  inv win' A lv (with_sched s' k) a.
Proof.
  intros [(hs & pl & Hq) Hs Hd Hk Hda Hc Ht Htm Hr Hat Hl He] Hwf Hp He' Hth Hw.
  assert (Edom : dom (threads s') = dom (threads (k_sched k))).
  { by rewrite <- (dom_fmap_L Wait_Priority (threads s')), Hp, dom_fmap_L. }
  split; try done.
  - exists hs, pl. eapply tq_inv_quiet; [|reflexivity|exact Hq]. split; done.
  - cbn. by rewrite Edom.
  - intros t Hin. destruct (Ht t Hin) as (w & th & Hw' & Hth' & Hok).
    assert (is_Some (threads s' !! t)) as [th' E'] by (apply elem_of_dom; rewrite Edom, Hd; done).
    exists w, th'. split_and!; [done|done|]. by eapply Hth.
  - intros t Hin. destruct (Hr t Hin) as [?|?]; [by left|by apply Hw].
Qed.

(** The thread [t] changes its state to [st], as seen after a scheduler step. *)
Lemma core_state (ts ts' : gmap Z Thread_Control) t th st : ts !! t = Some th ->
  core <$> ts' = core <$> <[t := set_current_state st th]> ts ->
  Wait_Priority <$> ts' = Wait_Priority <$> ts /\
  (forall x y y', ts !! x = Some y -> ts' !! x = Some y' ->
     Wait_Priority y' = Wait_Priority y /\ current_state y' = if decide (x = t) then st else current_state y).
Proof.
  intros Ht E. assert (El : forall x, core <$> ts' !! x = core <$> <[t := set_current_state st th]> ts !! x).
  { intros x. by rewrite <- !lookup_fmap, E. }
  split.
  - apply map_eq. intros x. specialize (El x). unfold core in El. rewrite !lookup_fmap. destruct (decide (x = t)) as [->|Hne].
    + rewrite lookup_insert_eq in El. rewrite Ht. destruct (ts' !! t); [|done]. cbn in *. congruence.
    + rewrite lookup_insert_ne in El by done. destruct (ts' !! x), (ts !! x); try done. cbn in *. congruence.
  - intros x y y' Hy Hy'. specialize (El x). unfold core in El. rewrite Hy' in El. case_decide as Hx.
    + subst x. rewrite lookup_insert_eq in El. cbn in El. split; congruence.
    + rewrite lookup_insert_ne, Hy in El by done. cbn in El. split; congruence.
Qed.

Lemma wp_drop {S A} (m : M S A) (Q : unit -> S -> Prop) s : wp (m;; mret tt) Q s -> wp m (fun _ s' => Q tt s') s.
Proof. unfold wp, mbind, M_bind. by destruct (m s) as [[]|]. Qed.

Lemma thread_ok_ext win win' a t w th th' : win' !! t = win !! t -> Wait_Priority th' = Wait_Priority th ->
  current_state th' = current_state th -> thread_ok win a t w th -> thread_ok win' a t w th'.
Proof. unfold thread_ok, blocked. by intros -> -> ->. Qed.

(** The thread [t] gets the state [f st], where [st] was its state. *)
Lemma state_inv win win' A lv k a s' t f : inv win A lv k a -> t ∈ D -> lv <> 0 ->
  (exists q, wf ops priorities idle s' q) ->
  (forall th, threads (k_sched k) !! t = Some th ->
     core <$> threads s' = core <$> <[t := set_current_state (f (current_state th)) th]> (threads (k_sched k))) ->
  (forall w th, thread_ok win a t w th -> thread_ok win' a t w (set_current_state (f (current_state th)) th)) ->
  (forall x, x <> t -> win' !! x = win !! x) -> (t ∈ A -> waiting a t \/ is_Some (win' !! t)) ->
  inv win' A lv (with_sched s' k) a.
Proof.
  intros Hi Ht Hlv Hwf Hc Hok Hne HA. destruct (si_thread _ _ _ _ _ Hi t Ht) as (w & th & Hw & Hth & Hto).
  destruct (core_state _ _ t th _ Hth (Hc th Hth)) as [Hp Hst]. eapply inv_sched; [done|done|done|done| |].
  - intros x w' y y' Hx Hy Hy' Hyo. destruct (Hst x y y' Hy Hy') as [Ep Es]. case_decide as E.
    + subst x. rewrite Hth in Hy. injection Hy as <-. by apply (thread_ok_ext win' win' a t w' (set_current_state (f (current_state th)) th)), Hok.
    + by eapply thread_ok_ext; [apply Hne|..].
  - intros x Hx Hs. destruct (decide (x = t)) as [->|E]; [auto|]. right. by rewrite Hne.
Qed.

Lemma set_state_inv win win' A lv k a t st : inv win A lv k a -> t ∈ D -> t <> idle -> lv <> 0 -> 0 < st < 2 ^ 32 ->
  (forall w th, thread_ok win a t w th -> thread_ok win' a t w (set_current_state (_States_Set st (current_state th)) th)) ->
  (forall x, x <> t -> win' !! x = win !! x) -> (t ∈ A -> waiting a t \/ is_Some (win' !! t)) ->
  wp (on_sched (_Thread_Set_state_locked ops t st)) (fun _ k' => inv win' A lv k' a) k.
Proof.
  intros Hi Ht Hid Hlv Hst Hok Hne HA. apply wp_on_sched. destruct (si_sched _ _ _ _ _ Hi) as [q Hwf].
  assert (Htd : t ∈ dom (threads (k_sched k))) by (by rewrite (si_dom _ _ _ _ _ Hi)).
  eapply wp_mono; [apply wp_drop, (set_state_ok ops priorities ticks_per_timeslice idle _ q t st Hwf); done|].
  intros _ s' (q' & _ & Hwf' & _ & He & Hc). eapply (state_inv win win' _ _ _ _ _ t (_States_Set st)); try done. by exists q'.
Qed.

Lemma clear_state_inv win win' A lv k a t st : inv win A lv k a -> t ∈ D -> lv <> 0 ->
  (forall w th, thread_ok win a t w th -> thread_ok win' a t w (set_current_state
     (if Z.land (current_state th) st =? 0 then current_state th else _States_Clear st (current_state th)) th)) ->
  (forall x, x <> t -> win' !! x = win !! x) -> (t ∈ A -> waiting a t \/ is_Some (win' !! t)) ->
  wp (on_sched (_Thread_Clear_state_locked ops t st)) (fun _ k' => inv win' A lv k' a) k.
Proof.
  intros Hi Ht Hlv Hok Hne HA. apply wp_on_sched. destruct (si_sched _ _ _ _ _ Hi) as [q Hwf].
  assert (Htd : t ∈ dom (threads (k_sched k))) by (by rewrite (si_dom _ _ _ _ _ Hi)).
  eapply wp_mono; [apply wp_drop, (clear_state_ok ops priorities ticks_per_timeslice idle _ q t st Hwf); done|].
  intros _ s' (q' & _ & Hwf' & _ & He & Hc).
  eapply (state_inv win win' _ _ _ _ _ t (fun cs => if Z.land cs st =? 0 then cs else _States_Clear st cs)); try done; [by exists q'|].
  intros th Hth. rewrite (Hc th Hth). destruct (_ =? 0); [|done]. by destruct th.
Qed.

(** ** Bits of the thread states *)

Lemma blocked_set th st : blocked (set_current_state (_States_Set st (current_state th)) th) <->
  blocked th \/ Z.land st STATES_BLOCKED <> 0.
Proof. unfold blocked, _States_Set. cbn. rewrite Z.land_lor_distr_l, Z.lor_eq_0_iff. destruct (decide (Z.land st STATES_BLOCKED = 0)); tauto. Qed.

Lemma clear_blocked cs : Z.land (_States_Clear STATES_BLOCKED cs) STATES_BLOCKED = 0.
Proof.
  unfold _States_Clear. rewrite <- Z.land_assoc. replace (Z.land (u32 (Z.lnot STATES_BLOCKED)) STATES_BLOCKED) with 0 by reflexivity.
  apply Z.land_0_r.
Qed.

Lemma clear_suspended cs : Z.land (_States_Clear STATES_SUSPENDED cs) STATES_BLOCKED = Z.land cs STATES_BLOCKED.
Proof. unfold _States_Clear. rewrite <- Z.land_assoc. f_equal. Qed.

(** The states in which threads wait. *)
Definition blocking (st : Z) : Prop := 0 < st < 2 ^ 32 /\ Z.land st STATES_BLOCKED <> 0.

Lemma block_ok win A lv k a t st : inv win A lv k a -> t ∈ D -> t <> idle -> lv <> 0 -> win !! t = Some false -> blocking st ->
  wp (on_sched (_Thread_Set_state_locked ops t st)) (fun _ k' => inv (<[t := true]> win) A lv k' a) k.
Proof.
  intros Hi Ht Hid Hlv Hw [Hst Hbl]. eapply set_state_inv; [done|done|done|done|done| | |].
  - intros w th (H1 & H2 & H3 & H4). rewrite Hw in H3, H4. unfold thread_ok. rewrite lookup_insert_eq. split_and!; [done|done| |].
    + split; [done|]. intros _. apply blocked_set. by right.
    + destruct H4 as [?|(?&?&?&[?|[??]])]; [by left|right; split_and!; auto|done].
  - intros x Hne. by rewrite lookup_insert_ne.
  - rewrite lookup_insert_eq. intros _. right. by eexists.
Qed.

Lemma suspend_ok win A lv k a t : inv win A lv k a -> t ∈ D -> t <> idle -> lv <> 0 ->
  wp (on_sched (_Thread_Set_state_locked ops t STATES_SUSPENDED)) (fun _ k' => inv win A lv k' a) k.
Proof.
  intros Hi Ht Hid Hlv. eapply set_state_inv; [done|done|done|done|done| |done|apply (si_running _ _ _ _ _ Hi)].
  intros w th (H1 & H2 & H3 & H4). unfold thread_ok. split_and!; [done|done| |done].
  assert (E : Z.land STATES_SUSPENDED STATES_BLOCKED = 0) by reflexivity. destruct (win !! t); rewrite blocked_set, E; tauto.
Qed.

Lemma resume_ok win A lv k a t : inv win A lv k a -> t ∈ D -> lv <> 0 ->
  wp (on_sched (_Thread_Clear_state_locked ops t STATES_SUSPENDED)) (fun _ k' => inv win A lv k' a) k.
Proof.
  intros Hi Ht Hlv. eapply clear_state_inv; [done|done|done| |done|apply (si_running _ _ _ _ _ Hi)].
  intros w th. destruct (_ =? 0); [by destruct th|]. unfold thread_ok, blocked. cbn. by rewrite clear_suspended.
Qed.

(** A thread that is on no queue and whose timer does not run is unblocked. *)
Lemma unblock_ok win A lv k a t b : inv win A lv k a -> t ∈ D -> lv <> 0 -> win !! t = Some b -> ~ waiting a t -> t ∉ A ->
  wp (_Thread_Unblock ops t) (fun _ k' => inv (delete t win) A lv k' a) k.
Proof.
  intros Hi Ht Hlv Hw Hnw HA. apply wp_bind.
  eapply wp_mono; [eapply (clear_state_inv win (delete t win)); [done|done|done| | |done]|intros ? k' Hk'; by apply wp_ret].
  - intros w th (H1 & H2 & H3 & H4). unfold thread_ok. rewrite lookup_delete_eq. split_and!; [done|done| |].
    + unfold blocked. cbn. destruct (Z.eqb_spec (Z.land (current_state th) STATES_BLOCKED) 0) as [E|E]; [tauto|]. rewrite clear_blocked. tauto.
    + destruct H4 as [(q & Hin & _)|(?&?&?&[?|[??]])]; [destruct Hnw; by exists q|right; split_and!; auto|right; split_and!; auto].
  - intros x Hne. by rewrite lookup_delete_ne.
Qed.

(** ** Timers and dispatching *)

Definition a_untimed (t : Z) (a : sync) : sync :=
  {| a_count := a_count a; a_wait := a_wait a; a_status := a_status a; a_timers := a_timers a ∖ {[t]};
     a_messages := a_messages a; a_data := a_data a |}.

Lemma timer_remove_inv win A lv k a t : inv win A lv k a -> t ∈ D ->
  wp (on_timers (timer_remove t)) (fun _ k' => inv win (A ∖ {[t]}) lv k' (a_untimed t a)) k.
Proof.
  intros [Hq Hs Hd Hk Hda Hc Hth [Htm HA] Hr Hat Hl He] Ht. apply wp_on_timers. eapply wp_mono; [by apply timer_remove_law|].
  intros [] s' Htm'. split; try done.
  - destruct Hq as (hs & pl & Hq). exists hs, pl. by eapply tq_inv_quiet; [|reflexivity|exact Hq].
  - split; [done|]. set_solver.
  - intros x [Hx _]%elem_of_difference. by apply Hr.
  - intros x. cbn. rewrite !elem_of_difference, Hat. unfold waiting. cbn. tauto.
Qed.

(** The timer of a thread that does not wait is of no concern. *)
Lemma remove_and_unblock_ok win A lv k a t b : inv win A lv k a -> t ∈ D -> lv <> 0 -> win !! t = Some b -> ~ waiting a t ->
  wp (_Thread_Remove_timer_and_unblock ops t) (fun _ k' => inv (delete t win) (A ∖ {[t]}) lv k' a) k.
Proof.
  intros Hi Ht Hlv Hw Hnw. apply wp_bind. eapply wp_mono; [by apply timer_remove_inv|]. intros [] k1 Hi1.
  assert (Ea : a_untimed t a = a).
  { destruct a as [c w st tm]. unfold a_untimed. cbn. f_equal.
    assert (t ∉ tm); [|set_solver]. intros Hin. apply (si_a_timers _ _ _ _ _ Hi) in Hin. tauto. }
  rewrite Ea in Hi1. eapply unblock_ok; [done|done|done|done|done|set_solver].
Qed.

Lemma inv_level win A lv lv' k a : inv win A lv k a -> lv' <> 0 -> inv win A lv' (with_disable_level lv' k) a.
Proof.
  intros [(hs & pl & Hq) Hs Hd Hk Hda Hc Hth Htm Hr Hat Hl He] Hlv'. split; try done.
  exists hs, pl. by eapply tq_inv_quiet; [|reflexivity|exact Hq].
Qed.

Lemma disable_ok win A lv k a : inv win A lv k a -> 0 <= lv < 10 ->
  wp _Thread_Dispatch_disable (fun _ k' => inv win A (lv + 1) k' a) k.
Proof.
  intros Hi Hlv. apply wp_modify. rewrite (si_level _ _ _ _ _ Hi), u32_small by lia. apply (inv_level _ _ lv); [done|lia].
Qed.

(** A dispatch executes the heir. *)
Lemma do_dispatch_ok win A lv k a : inv win A lv k a -> wp (do_dispatch ticks_per_timeslice) (fun _ k' => inv win A 0 k' a) k.
Proof.
  intros Hi. pose proof Hi as [(hs & pl & Hq) [q Hwf] Hd Hk Hda Hc Hth Htm Hr Hat Hl He]. apply wp_bind, wp_on_sched.
  eapply wp_mono; [apply (dispatch_ok ops priorities ticks_per_timeslice idle _ q Hwf)|].
  intros [] s' (q' & _ & Hwf' & Hdom & Hex & Hhe & Hcs). apply wp_modify.
  assert (El : forall x, (fun th => (current_state th, Wait_Priority th)) <$> threads s' !! x =
    (fun th => (current_state th, Wait_Priority th)) <$> threads (k_sched k) !! x) by (intros x; by rewrite <- !lookup_fmap, Hcs).
  split; try done.
  - exists hs, pl. eapply tq_inv_quiet; [|reflexivity|exact Hq]. split; try done. apply map_eq. intros x. specialize (El x).
    cbn. rewrite !lookup_fmap. destruct (threads s' !! x), (threads (k_sched k) !! x); cbn in *; congruence.
  - by exists q'.
  - cbn. by rewrite Hdom.
  - intros t Ht. destruct (Hth t Ht) as (w & th & Hw & Hth' & Hok). specialize (El t). rewrite Hth' in El.
    cbn. destruct (threads s' !! t) as [th'|]; [|done]. cbn in El. exists w, th'. split_and!; [done|done|].
    eapply thread_ok_ext; [done|..|exact Hok]; congruence.
  - intros _. cbn. congruence.
Qed.

Lemma enable_ok win A lv k a : inv win A lv k a -> 0 < lv < 10 ->
  wp (_Thread_Dispatch_enable ticks_per_timeslice) (fun _ k' => inv win A (lv - 1) k' a) k.
Proof.
  intros Hi Hlv. apply wp_bind, wp_gets. rewrite (si_level _ _ _ _ _ Hi). destruct (Z.eqb_spec lv 1) as [->|Hne].
  - apply wp_bind, wp_gets. destruct (dispatch_necessary (k_sched k)) eqn:E; [by eapply do_dispatch_ok|]. apply wp_modify.
    pose proof Hi as [(hs & pl & Hq) [q Hwf] Hd Hk Hda Hc Hth Htm Hr Hat Hl He]. split; try done.
    + exists hs, pl. by eapply tq_inv_quiet; [|reflexivity|exact Hq].
    + by exists q.
    + intros _. pose proof (wf_dispatch _ _ _ _ _ Hwf) as Hn. destruct (decide (heir (k_sched k) = executing (k_sched k))) as [Eh|Eh]; [done|].
      rewrite (Hn Eh) in E. done.
  - apply wp_modify. rewrite u32_small by lia. apply (inv_level _ _ lv); [done|lia].
Qed.

(** ** Leaving a queue *)

(** A thread that was blocked is to be unblocked; one in a window does so
    itself. *)
Definition released (win : gmap Z bool) (t : Z) : gmap Z bool :=
  match win !! t with
  | Some _ => win
  | None => <[t := true]> win
  end.

Lemma released_ne win t x : x <> t -> released win t !! x = win !! x.
Proof. intros Hne. unfold released. destruct (win !! t); [done|]. by rewrite lookup_insert_ne. Qed.

Lemma released_eq win t : released win t !! t = Some (default true (win !! t)).
Proof. unfold released. destruct (win !! t) eqn:E; [done|]. by rewrite lookup_insert_eq. Qed.

Lemma filter_absent (t : Z) (l : list Z) : t ∉ l -> filter (fun x => x <> t) l = l.
Proof.
  induction l as [|x l IH]; [done|]. intros Hn. rewrite filter_cons, decide_True by set_solver. f_equal. apply IH. set_solver.
Qed.

Lemma waiting_leave a t st x : waiting (a_leave t st a) x <-> x <> t /\ waiting a x.
Proof.
  unfold waiting. cbn. split.
  - intros (q & [? ?]%list_elem_of_filter). split; [done|by exists q].
  - intros (Hne & q & Hin). exists q. by apply list_elem_of_filter.
Qed.

Lemma thread_ok_leave win a t st x w th : x <> t -> thread_ok win a x w th -> thread_ok (released win t) (a_leave t st a) x w th.
Proof.
  intros Hne. unfold thread_ok. rewrite released_ne, waiting_leave by done. cbn. rewrite fn_set_ne by done.
  intros (H1 & H2 & H3 & H4). split_and!; [done|done|clear H4; revert H3; destruct (win !! x); rewrite ?waiting_leave; tauto|].
  destruct H4 as [(q & Hin & H4)|(Hn & H4)]; [left; exists q|right; split; [tauto|done]]. split; [by apply list_elem_of_filter|done].
Qed.

(** The wait information of a thread that left its queue. *)
Definition left_wait (st : Status_Control) (sp : Z) : Thread_Wait_information :=
  {| wait_queue := NULL; wait_operations := Operations_default; wait_flags := THREAD_QUEUE_READY_AGAIN;
     wait_return_code := st; spare_heads := sp |}.

Lemma leave_ok win A lv k a q t st k1 w1 hs pl : inv win A lv k a -> t ∈ a_wait a q -> queue_step HS (a_wait a q) t k k1 ->
  tq_inv D HS QS disc k1 (fn_set (a_wait a) q (filter (fun x => x <> t) (a_wait a q))) hs pl -> k_wait k1 !! t = Some w1 ->
  inv (released win t) A lv (with_wait (<[t := left_wait st (spare_heads w1)]> (k_wait k1)) k1) (a_leave t st a).
Proof.
  intros [(hs0 & pl0 & Hq0) Hs Hd Hk Hda Hc Hth Htm Hr Hat Hl He] Ht [E1 E2 E2' E2'' E3 E4 (w & sp & Hw & Ew) (W & HW & HWx)] Hq Hw1.
  assert (HtD : t ∈ D) by (by apply (ti_ws _ _ _ _ _ _ _ _ Hq0 q)). split; try (cbn; rewrite ?E1, ?E2, ?E2'', ?E3, ?E4; done); [|by eapply stack_changes|..].
  - exists hs, pl. eapply (tq_inv_quiet D HS QS disc k1); [| |exact Hq].
    + split; try done. cbn. rewrite fmap_insert. apply insert_id. by rewrite lookup_fmap, Hw1.
    + intros q'. cbn. unfold fn_set. case_decide as E; [by rewrite E|].
      apply filter_absent. intros Hin. apply E. by eapply (ti_ws_unique _ _ _ _ _ _ _ _ Hq0).
  - intros x Hx. destruct (Hc x Hx) as [Hb Hob]. split; [done|]. eapply (object_frame k _ a _ x W); try done.
    + intros y Hy. eapply queue_word_no_message; [|by apply HWx]. intros z Hz. by apply (ti_ws _ _ _ _ _ _ _ _ Hq0 q).
    + cbn. intros z. rewrite list_elem_of_filter. tauto.
  - intros x Hx. destruct (Hth x Hx) as (w' & th & Hw' & Hth' & Hok). cbn. rewrite E1. destruct (decide (x = t)) as [->|Hne].
    + exists (left_wait st (spare_heads w1)), th. rewrite lookup_insert_eq. split_and!; [done|done|].
      destruct Hok as (_ & H2 & H3 & H4). unfold thread_ok. rewrite released_eq. cbn. rewrite fn_set_eq. split_and!; [done|done| |].
      * destruct (win !! t) as [b|]; [done|]. cbn. split; [done|]. intros _. apply H3. by exists q.
      * right. split_and!; [rewrite waiting_leave; tauto|done|done|by left].
    + exists w', th. rewrite lookup_insert_ne by done. rewrite Ew, lookup_insert_ne by done. split_and!; [done|done|].
      by apply thread_ok_leave.
  - intros x Hx. rewrite waiting_leave. destruct (decide (x = t)) as [->|Hne]; [right; rewrite released_eq; by eexists|].
    rewrite released_ne by done. destruct (Hr x Hx); tauto.
  - intros x. rewrite waiting_leave. cbn. rewrite elem_of_difference, elem_of_singleton, Hat. tauto.
Qed.

(** The parts of the wait information that the kernel updates. *)
Lemma wp_put_wait t w (Q : unit -> K -> Prop) k : Q tt (with_wait (<[t := w]> (k_wait k)) k) -> wp (put_wait t w) Q k.
Proof. apply wp_modify. Qed.

Lemma with_wait_twice (k : K) t w w' : with_wait (<[t := w']> (k_wait (with_wait (<[t := w]> (k_wait k)) k)))
  (with_wait (<[t := w]> (k_wait k)) k) = with_wait (<[t := w']> (k_wait k)) k.
Proof. unfold with_wait. cbn. by rewrite insert_insert_eq. Qed.

Definition with_flags (f : Z) (w : Thread_Wait_information) : Thread_Wait_information :=
  {| wait_queue := wait_queue w; wait_operations := wait_operations w; wait_flags := f;
     wait_return_code := wait_return_code w; spare_heads := spare_heads w |}.

(** Sequences of updates of the wait information of a thread. *)
Lemma wp_wait_update t w f (Q : unit -> K -> Prop) (k : K) : k_wait k !! t = Some w ->
  Q tt (with_wait (<[t := f w]> (k_wait k)) k) -> wp (w ← get_wait t; put_wait t (f w)) Q k.
Proof. intros Hw HQ. apply wp_bind. eapply wp_get_wait; [exact Hw|]. by apply wp_put_wait. Qed.

Lemma wp_try_change t e d w (Q : bool -> K -> Prop) (k : K) : k_wait k !! t = Some w ->
  Q (wait_flags w =? e) (if wait_flags w =? e then with_wait (<[t := with_flags d w]> (k_wait k)) k else k) ->
  wp (_Thread_Wait_flags_try_change_release t e d) Q k.
Proof.
  intros Hw HQ. apply wp_bind, wp_bind. eapply wp_get_wait; [exact Hw|]. apply wp_ret, wp_bind. destruct (wait_flags w =? e); cbn [whenM].
  - eapply wp_wait_update; [exact Hw|]. by apply wp_ret.
  - by do 2 apply wp_ret.
Qed.

Lemma wp_make_ready t w (Q : bool -> K -> Prop) (k : K) : k_wait k !! t = Some w ->
  Q (negb (wait_flags w =? THREAD_QUEUE_INTEND_TO_BLOCK))
    (with_wait (<[t := left_wait (wait_return_code w) (spare_heads w)]> (k_wait k)) k) ->
  wp (_Thread_queue_Make_ready_again t) Q k.
Proof.
  intros Hw HQ. apply wp_bind. eapply wp_try_change; [exact Hw|]. apply wp_bind. destruct (wait_flags w =? _).
  - apply wp_ret, wp_bind. eapply wp_wait_update; [apply lookup_insert_eq|]. rewrite with_wait_twice. by apply wp_ret.
  - apply wp_bind. eapply wp_wait_update; [exact Hw|]. apply wp_ret, wp_bind.
    eapply wp_wait_update; [apply lookup_insert_eq|]. rewrite with_wait_twice. by apply wp_ret.
Qed.

Lemma extract_wait (k k1 : K) l t w : queue_step HS l t k k1 -> k_wait k !! t = Some w -> exists sp, k_wait k1 !! t = Some (with_spare w sp).
Proof.
  intros [_ _ _ _ _ _ (w' & sp & Hw' & Ew) _] Hw. rewrite Hw in Hw'. injection Hw' as <-. exists sp. rewrite Ew. apply lookup_insert_eq.
Qed.

(** [_Thread_queue_Extract_locked] *)
Lemma extract_locked_ok win A lv k a q t c : inv win A lv k a -> t ∈ a_wait a q ->
  wp (_Thread_queue_Extract_locked q (disc q) t c) (fun r k' => r = (bool_decide (win !! t = None), c) /\
    inv (released win t) A lv k' (a_leave t (a_status a t) a) /\
    exists W, changes W (k_mem k) (k_mem k') /\ forall x, x ∈ W -> heads_word HS x \/ node_word (a_wait a q) x) k.
Proof using Hdisc Hmsg ticks_per_timeslice.
  intros Hi Hin. destruct (si_queues _ _ _ _ _ Hi) as (hs & pl & Hq). destruct (ti_ws _ _ _ _ _ _ _ _ Hq q t Hin) as [HqS HtD].
  destruct (si_thread _ _ _ _ _ Hi t HtD) as (w & th & Hw & Hth & Hs & _ & _ & Hfl).
  assert (Ef : wait_flags w = match win !! t with Some _ => THREAD_QUEUE_INTEND_TO_BLOCK | None => THREAD_QUEUE_BLOCKED end).
  { destruct Hfl as [(q' & _ & _ & _ & ?)|(Hn & _)]; [done|]. destruct Hn. by exists q. }
  apply wp_bind. eapply wp_mono; [by eapply (extract_inv D HS QS disc Hdisc)|]. intros c' k1 (-> & Hstep & hs' & pl' & Hq1).
  destruct (extract_wait _ _ _ _ _ Hstep Hw) as [sp Hw1].
  pose proof (leave_ok win A lv k a q t (a_status a t) k1 _ hs' pl' Hi Hin Hstep Hq1 Hw1) as Hi'.
  apply wp_bind. eapply wp_make_ready; [exact Hw1|]. apply wp_ret. cbn [wait_flags wait_return_code spare_heads with_spare] in *.
  rewrite Ef, Hs. split_and!; [by destruct (win !! t)|done|apply Hstep].
Qed.

(** ** Surrendering *)

Hypothesis Hnull : NULL ∉ D.

Lemma released_delete win t : win !! t = None -> delete t (released win t) = win.
Proof. intros E. unfold released. rewrite E. by rewrite delete_insert_id. Qed.

(** The interrupts [isr] between the moment a thread was taken off its queue
    and the moment it is unblocked have the effect [F].  There is no such
    window for a thread that is in a window itself. *)
Record window (win : gmap Z bool) (lv : Z) (isr : M K unit) (F : sync -> sync) : Prop := {
  wd_isr t A k a : t ∈ D -> win !! t = None -> ~ waiting a t -> inv (<[t := true]> win) A (lv + 1) k a ->
    wp isr (fun _ k' => within (<[t := true]> win) A (lv + 1) k' (F a)) k /\ ~ waiting (F a) t;
  wd_some t b a : win !! t = Some b -> F a = a;
}.

Lemma window_none win lv : window win lv (mret tt) id.
Proof. split; [|done]. intros t A k a _ _ Hn Hi. split; [apply wp_ret; by apply within_refl|done]. Qed.

Lemma extract_critical_ok win A lv k a q t c isr F : inv win A lv k a -> t ∈ a_wait a q -> 0 <= lv < 9 -> window win lv isr F ->
  wp (_Thread_queue_Extract_critical ops ticks_per_timeslice q (disc q) t c isr)
    (fun _ k' => within win A lv k' (F (a_leave t (a_status a t) a))) k.
Proof using Hdisc Hnull Hmsg ticks_per_timeslice.
  intros Hi Hin Hlv [Hisr Hsome]. destruct (si_queues _ _ _ _ _ Hi) as (hs & pl & Hq). destruct (ti_ws _ _ _ _ _ _ _ _ Hq q t Hin) as [_ HtD].
  apply wp_bind. eapply wp_mono; [by eapply extract_locked_ok|]. intros r k1 (-> & Hi1 & _). apply wp_bind. unfold released in Hi1. case_bool_decide as E.
  - rewrite E in Hi1. apply wp_bind. eapply wp_mono; [eapply disable_ok; [exact Hi1|lia]|]. intros [] k2 Hi2. apply wp_bind.
    assert (Hn : ~ waiting (a_leave t (a_status a t) a) t) by (rewrite waiting_leave; tauto).
    destruct (Hisr t A k2 _ HtD E Hn Hi2) as [Hw Hn']. eapply wp_mono; [exact Hw|]. intros [] k3 (A3 & HA3 & Hi3). apply wp_bind.
    eapply wp_mono; [eapply remove_and_unblock_ok; [exact Hi3|done|lia|apply lookup_insert_eq|done]|].
    intros [] k4 Hi4. rewrite delete_insert_id in Hi4 by done. eapply wp_mono; [eapply enable_ok; [exact Hi4|lia]|].
    intros [] k5 Hi5. apply wp_ret. rewrite Z.add_simpl_r in Hi5. exists (A3 ∖ {[t]}). split; [set_solver|done].
  - destruct (win !! t) as [b|] eqn:Eb; [|done]. rewrite (Hsome t b) by done. apply wp_ret, wp_ret. by apply within_refl.
Qed.

(** The count of an object changes. *)
Lemma inv_object win A lv k k' a q v : inv win A lv k a -> q ∈ QS -> 0 <= v < 2 ^ 32 ->
  k' = with_object (k_object k') (with_barrier (k_barrier k') k) ->
  (forall q', q' <> q -> k_object k' !! q' = k_object k !! q' /\ k_barrier k' !! q' = k_barrier k !! q') ->
  object_ok k' (a_set_count q v a) q -> inv win A lv k' (a_set_count q v a).
Proof.
  intros [(hs & pl & Hq) Hs Hd Hk Hda Hc Hth Htm Hr Hat Hl He] Hin Hv -> Hne Hob. split; try done.
  - exists hs, pl. by eapply tq_inv_quiet; [|reflexivity|exact Hq].
  - intros q' Hq'. destruct (decide (q' = q)) as [->|E]; [split; [cbn; by rewrite fn_set_eq|done]|].
    destruct (Hc q' Hq') as [Hb Ho]. destruct (Hne q' E) as [E1 E2]. unfold object_ok in *. cbn in *. by rewrite fn_set_ne, E1, E2.
Qed.

Lemma inv_count win A lv k a q v : inv win A lv k a -> q ∈ QS -> kind q = Kind_semaphore -> a_wait a q = [] -> 0 <= v < 2 ^ 32 ->
  inv win A lv (with_object (<[q := v]> (k_object k)) k) (a_set_count q v a).
Proof.
  intros Hi Hq Hat Hw Hv. eapply inv_object; [done|done|done|by destruct k| |].
  - intros q' Hne. cbn. by rewrite lookup_insert_ne.
  - unfold object_ok. cbn. by rewrite Hat, lookup_insert_eq, fn_set_eq.
Qed.

Lemma inv_barrier win A lv k a q at_ v : inv win A lv k a -> q ∈ QS -> kind q = Kind_barrier at_ -> 0 <= v < 2 ^ 32 ->
  inv win A lv (with_barrier (<[q := {| Attributes := at_; number_of_waiting_threads := v |}]> (k_barrier k)) k) (a_set_count q v a).
Proof.
  intros Hi Hq Hat Hv. eapply inv_object; [done|done|done|by destruct k| |].
  - intros q' Hne. cbn. by rewrite lookup_insert_ne.
  - unfold object_ok. cbn. by rewrite Hat, lookup_insert_eq, fn_set_eq.
Qed.

Lemma semaphore_count win A lv k a q : inv win A lv k a -> q ∈ QS -> kind q = Kind_semaphore ->
  k_object k !! q = Some (a_count a q) /\ 0 <= a_count a q < 2 ^ 32 /\ (a_count a q <> 0 -> a_wait a q = []).
Proof. intros Hi Hq Hat. destruct (si_count _ _ _ _ _ Hi q Hq) as [Hb Ho]. unfold object_ok in Ho. rewrite Hat in Ho. tauto. Qed.

Lemma barrier_count win A lv k a q at_ : inv win A lv k a -> q ∈ QS -> kind q = Kind_barrier at_ ->
  k_barrier k !! q = Some {| Attributes := at_; number_of_waiting_threads := a_count a q |} /\ 0 <= a_count a q < 2 ^ 32.
Proof. intros Hi Hq Hat. destruct (si_count _ _ _ _ _ Hi q Hq) as [Hb Ho]. unfold object_ok in Ho. by rewrite Hat in Ho. Qed.

Lemma wp_get_count q v (Q : Z -> K -> Prop) (k : K) : k_object k !! q = Some v -> Q v k -> wp (get_count q) Q k.
Proof. unfold wp, get_count. by intros ->. Qed.

(** The effect of a call with the interrupts [F] in its window. *)
Definition woken (F : sync -> sync) (c : call) (a : sync) : sync :=
  if wakes kind c a then F (a_call kind c a).2 else (a_call kind c a).2.

Lemma woken_none c a : woken id c a = (a_call kind c a).2.
Proof. unfold woken. by destruct (wakes kind c a). Qed.

Lemma surrender_ok win A lv k a q max c isr F : inv win A lv k a -> q ∈ QS -> kind q = Kind_semaphore -> 0 <= max < 2 ^ 32 -> 0 <= lv < 9 ->
  window win lv isr F ->
  wp (_CORE_semaphore_Surrender ops ticks_per_timeslice q (disc q) max c isr)
    (fun r k' => r = (a_surrender q max a).1 /\ within win A lv k' (woken F (Surrender q max) a)) k.
Proof using Hdisc Hnull Hmsg ticks_per_timeslice.
  intros Hi Hq Hse Hmax Hlv Hwin. destruct (si_queues _ _ _ _ _ Hi) as (hs & pl & Hqs). destruct (semaphore_count _ _ _ _ _ q Hi Hq Hse) as (Hc & Hr & _).
  apply wp_bind. eapply (first_locked_spec D HS QS disc Hdisc); [exact Hqs|done|]. unfold woken. cbn [wakes a_call]. unfold a_surrender.
  destruct (a_wait a q) as [|t l] eqn:Ew; cbn [head default id from_option].
  - rewrite bool_decide_true by done. cbn [Z.eqb negb NULL]. apply wp_bind. eapply wp_get_count; [exact Hc|]. destruct (Z.ltb_spec (a_count a q) max).
    + apply wp_bind, wp_modify, wp_ret. rewrite u32_small by lia. split; [done|]. apply within_refl, inv_count; [done|done|done|done|lia].
    + apply wp_ret. split; [done|by apply within_refl].
  - rewrite bool_decide_false by done. assert (Hin : t ∈ a_wait a q) by (rewrite Ew; left).
    destruct (ti_ws _ _ _ _ _ _ _ _ Hqs q t Hin) as [_ HtD].
    destruct (Z.eqb_spec t NULL) as [->|_]; [done|]. cbn [negb]. apply wp_bind.
    eapply wp_mono; [by eapply extract_critical_ok|]. intros ? k' Hk'. by apply wp_ret.
Qed.

(** ** Timeouts *)

Lemma wp_no_updates (Q : unit -> K -> Prop) k : Q tt k -> wp (_Thread_Priority_update ops empty_context) Q k.
Proof. done. Qed.

(** The timeout of a thread that waits and whose timer expired. *)
Lemma timeout_waiting win A lv k a q t : inv win A lv k a -> t ∈ a_wait a q -> t ∉ A -> lv <> 0 ->
  wp (_Thread_Timeout ops t) (fun _ k' => inv win A lv k' (a_leave t STATUS_TIMEOUT a)) k.
Proof using Hdisc Hnull Hmsg ticks_per_timeslice.
  intros Hi Hin HA Hlv. destruct (si_queues _ _ _ _ _ Hi) as (hs & pl & Hq). destruct (ti_ws _ _ _ _ _ _ _ _ Hq q t Hin) as [HqS HtD].
  destruct (si_thread _ _ _ _ _ Hi t HtD) as (w & th & Hw & Hth & Hs & _ & _ & Hfl).
  destruct Hfl as [(q' & Hin' & Ewq & Ewo & Ef)|(Hn & _)]; [|destruct Hn; by exists q].
  rewrite (ti_ws_unique _ _ _ _ _ _ _ _ Hq q' q t Hin' Hin) in *.
  apply wp_bind, wp_bind. eapply wp_get_wait; [exact Hw|]. apply wp_ret, wp_bind.
  assert (Hbit : Z.land (wait_flags w) THREAD_WAIT_STATE_READY_AGAIN = 0) by (rewrite Ef; by destruct (win !! t)).
  assert (Hcls : Z.land (wait_flags w) THREAD_WAIT_CLASS_MASK = THREAD_WAIT_CLASS_OBJECT) by (rewrite Ef; by destruct (win !! t)).
  rewrite Hbit, Hcls. change (0 =? 0) with true. cbv iota. do 2 apply wp_bind. eapply wp_get_wait; [exact Hw|]. rewrite Ewq, Ewo.
  apply wp_bind. eapply wp_mono; [by eapply (extract_inv D HS QS disc Hdisc)|]. intros c' k1 (-> & Hstep & hs' & pl' & Hq1).
  destruct (extract_wait _ _ _ _ _ Hstep Hw) as [sp Hw1].
  pose proof (leave_ok win A lv k a q t STATUS_TIMEOUT k1 _ hs' pl' Hi Hin Hstep Hq1 Hw1) as Hi'.
  apply wp_bind. eapply wp_wait_update; [exact Hw1|]. apply wp_ret. apply wp_bind.
  eapply wp_wait_update; [apply lookup_insert_eq|]. rewrite with_wait_twice. apply wp_bind.
  eapply wp_try_change; [apply lookup_insert_eq|]. cbn [wait_flags with_spare wait_queue wait_operations wait_return_code spare_heads] in *.
  change (Z.lor THREAD_WAIT_CLASS_OBJECT THREAD_WAIT_STATE_INTEND_TO_BLOCK) with THREAD_QUEUE_INTEND_TO_BLOCK.
  change (Z.lor THREAD_WAIT_CLASS_OBJECT THREAD_WAIT_STATE_READY_AGAIN) with THREAD_QUEUE_READY_AGAIN.
  rewrite Ef. destruct (win !! t) as [b|] eqn:Ewin.
  - change (THREAD_QUEUE_INTEND_TO_BLOCK =? THREAD_QUEUE_INTEND_TO_BLOCK) with true. cbv iota. rewrite with_wait_twice.
    apply wp_ret, wp_bind, wp_no_updates, wp_ret. unfold released in Hi'. rewrite Ewin in Hi'. exact Hi'.
  - change (THREAD_QUEUE_BLOCKED =? THREAD_QUEUE_INTEND_TO_BLOCK) with false. cbv iota.
    apply wp_bind. eapply wp_wait_update; [apply lookup_insert_eq|]. rewrite with_wait_twice. apply wp_ret, wp_bind, wp_no_updates.
    eapply wp_mono; [eapply unblock_ok; [exact Hi'|done|done|apply released_eq|rewrite waiting_leave; tauto|done]|].
    intros [] k2 Hi2. by rewrite released_delete in Hi2.
Qed.

Lemma timeout_idle win A lv k a t w : inv win A lv k a -> k_wait k !! t = Some w -> wait_flags w = THREAD_QUEUE_READY_AGAIN ->
  wp (_Thread_Timeout ops t) (fun _ k' => inv win A lv k' a) k.
Proof.
  intros Hi Hw Ef. apply wp_bind, wp_bind. eapply wp_get_wait; [exact Hw|]. rewrite Ef. by apply wp_ret, wp_bind, wp_ret.
Qed.

Lemma expire_ok win A lv k a t : inv win A lv k a -> t ∈ D -> lv <> 0 ->
  wp (expire ops t) (fun _ k' => within win A lv k' (a_isr kind (I_timeout t) a)) k.
Proof using Hdisc Hnull Hmsg ticks_per_timeslice.
  intros Hi Ht Hlv. destruct (si_timers _ _ _ _ _ Hi) as [Htm HA]. pose proof (si_a_timers _ _ _ _ _ Hi t) as Hat. cbn [a_isr].
  apply wp_bind, wp_gets. rewrite (timer_active_law _ _ _ Htm Ht). case_bool_decide as E; cbn [whenM].
  2:{ apply wp_ret. rewrite decide_False by tauto. by apply within_refl. }
  apply wp_bind. eapply wp_mono; [by apply timer_remove_inv|]. intros [] k1 Hi1.
  destruct (si_thread _ _ _ _ _ Hi1 t Ht) as (w & th & Hw & _ & _ & _ & _ & [(q & Hin & _)|(Hn & _ & _ & Hf)]).
  - rewrite decide_True by (apply Hat; split; [done|by exists q]).
    eapply wp_mono; [eapply (timeout_waiting _ _ _ _ _ q); [exact Hi1|done|set_solver|done]|]. intros [] k2 Hi2. exists (A ∖ {[t]}). split; [set_solver|].
    replace (a_leave t STATUS_TIMEOUT a) with (a_leave t STATUS_TIMEOUT (a_untimed t a)); [done|].
    unfold a_leave, a_untimed. cbn. f_equal. set_solver.
  - assert (Hnt : t ∉ a_timers a) by (rewrite Hat; tauto). rewrite decide_False by done.
    assert (Ea : a_untimed t a = a) by (destruct a; unfold a_untimed; cbn in *; f_equal; set_solver). rewrite Ea in Hi1.
    destruct Hf as [Hf|[Hwin _]]; [eapply wp_mono; [by eapply timeout_idle|intros [] k2 Hi2; exists (A ∖ {[t]}); split; [set_solver|done]]|].
    destruct (si_running _ _ _ _ _ Hi t E) as [?|[b Hb]]; [tauto|]. rewrite Hwin in Hb. done.
Qed.

(** ** Flushing *)

Lemma set_status_ok win A lv k a t st : inv win A lv k a -> t ∈ D ->
  wp (set_return_code t st) (fun _ k' => inv win A lv k' (a_set_status t st a) /\ k_mem k' = k_mem k) k.
Proof.
  intros [(hs & pl & Hq) Hs Hd Hk Hda Hc Hth Htm Hr Hat Hl He] Ht. destruct (Hth t Ht) as (w & th & Hw & Hth' & Hok).
  eapply wp_wait_update; [exact Hw|]. split; [|done]. split; try done.
  - exists hs, pl. eapply (tq_inv_quiet D HS QS disc k); [|reflexivity|exact Hq]. split; try done. cbn. rewrite fmap_insert.
    apply insert_id. by rewrite lookup_fmap, Hw.
  - intros x Hx. cbn. destruct (decide (x = t)) as [->|Hne].
    + eexists _, th. rewrite lookup_insert_eq. split_and!; [done|done|]. destruct Hok as (_ & Hok). split; [cbn; by rewrite fn_set_eq|done].
    + destruct (Hth x Hx) as (w' & th' & Hw' & Hth2 & H1 & Hok'). exists w', th'. rewrite lookup_insert_ne by done.
      split_and!; [done|done|]. split; [cbn; by rewrite fn_set_ne|done].
Qed.

Lemma filter_ok win A lv k a f t : inv win A lv k a -> t ∈ D ->
  wp (filter_of f t) (fun r k' => r = t /\ inv win A lv k' (a_mark f t a) /\ k_mem k' = k_mem k) k.
Proof.
  intros Hi Ht. destruct f; cbn [filter_of a_mark]; [by apply wp_ret|..];
    (apply wp_bind; eapply wp_mono; [by apply set_status_ok|]; intros [] k' Hk'; by apply wp_ret).
Qed.

(** Stores to memory that no queue uses. *)
Lemma inv_mem win A lv k a m' W : inv win A lv k a -> changes W (k_mem k) m' ->
  (forall x, x ∈ W -> ~ heads_word HS x /\ no_message_word x /\ forall q, ~ node_word (a_wait a q) x) -> inv win A lv (with_mem m' k) a.
Proof.
  intros [(hs & pl & Hq) Hs Hd Hk Hda Hc Hth Htm Hr Hat Hl He] HW Hx. split; try done.
  - exists hs, pl. eapply (tq_inv_mem D HS QS disc Hdisc); [exact Hq|exact HW|]. intros x Hin. destruct (Hx x Hin) as (? & _ & ?). done.
  - by eapply stack_changes.
  - intros q Hin. destruct (Hc q Hin) as [Hb Hob]. split; [done|]. eapply (object_frame k _ a a q W); try done. intros x HxW. by apply Hx.
Qed.

(** The words of the chain at [u] of the threads [us], none of which waits. *)
Lemma stack_words win A lv k a u us x : inv win A lv k a -> u ∈ STK -> (forall t, t ∈ us -> t ∈ D /\ ~ waiting a t) ->
  x ∈ Chain.chain_words u (wait_node <$> us) -> ~ heads_word HS x /\ no_message_word x /\ forall q, ~ node_word (a_wait a q) x.
Proof using Hmsg.
  intros Hi Hu Hus Hx. destruct (si_queues _ _ _ _ _ Hi) as (hs & pl & Hq). pose proof (si_stack _ _ _ _ _ Hi) as Hk.
  pose proof (rm_layout _ _ _ (ti_ready _ _ _ _ _ _ _ _ Hq)) as Hly.
  assert (Hxu : u <= x < u + 24 \/ exists t, t ∈ us /\ wait_node t <= x < wait_node t + 16).
  { apply Chain.elem_of_chain_words in Hx as [?|[?|[?|(n & (t & -> & Ht)%list_elem_of_fmap & ?)]]]; [lia..|]. right. exists t. split; [done|lia]. }
  split_and!.
  - intros (h & Hh & ?). destruct Hxu as [?|(t & Ht & ?)].
    + destruct (sl_heads _ _ _ _ Hk u h Hu Hh); lia.
    + destruct (ly_mixed_sep _ _ _ Hly h t Hh); [apply Hus; done|lia|lia].
  - intros q c Hin Hkq Hm. destruct (ml_word Hmsg q c x Hin Hkq Hm) as (_ & H1 & H2 & _). destruct Hxu as [?|(t & Ht & ?)]; [by apply (H2 u)|].
    by apply (H1 t); [apply Hus|].
  - intros q (t' & Ht' & ?). destruct (ti_ws _ _ _ _ _ _ _ _ Hq q t' Ht') as [_ HtD]. destruct Hxu as [?|(t & Ht & ?)].
    + destruct (sl_node _ _ _ _ Hk u t' Hu HtD); lia.
    + destruct (Hus t Ht) as [HtD' Hnw]. destruct (ly_node_sep _ _ _ Hly t t' HtD' HtD) as [->|?]; [|lia]. apply Hnw. by exists q.
Qed.

(** A thread that does not wait can be added to the chain. *)
Lemma stack_off win A lv k a u us t : inv win A lv k a -> u ∈ STK -> (forall t, t ∈ us -> t ∈ D) -> t ∈ D -> t ∉ us ->
  Chain.off_chain (k_mem k) u (wait_node <$> us) (wait_node t).
Proof.
  intros Hi Hu Hus Ht Hn. destruct (si_queues _ _ _ _ _ Hi) as (hs & pl & Hq). pose proof (si_stack _ _ _ _ _ Hi) as Hk.
  pose proof (rm_layout _ _ _ (ti_ready _ _ _ _ _ _ _ _ Hq)) as Hly. destruct (ly_node _ _ _ Hly t Ht) as (_ & Hm1 & Hm2).
  pose proof (sl_node _ _ _ _ Hk u t Hu Ht) as Hs.
  assert (Hsep : forall x, x ∈ wait_node <$> us -> wait_node t + 16 <= x \/ x + 16 <= wait_node t).
  { intros x (t' & -> & Ht')%list_elem_of_fmap. destruct (ly_node_sep _ _ _ Hly t t'); auto. by subst. }
  apply off_chain_apart; [done|done|lia|done].
Qed.

(** The threads [us] were taken off their queue and are to be unblocked. *)
Record pending (win0 : gmap Z bool) (A : gset Z) (lv : Z) (k : K) (a : sync) (us : list Z) (win : gmap Z bool) : Prop := {
  pe_inv : inv win A lv k a;
  pe_us t : t ∈ us -> t ∈ D /\ ~ waiting a t /\ win0 !! t = None;
  pe_nodup : NoDup us;
  pe_win t : win !! t = if decide (t ∈ us) then Some true else win0 !! t;
}.

Lemma waiting_mark f t a x : waiting (a_mark f t a) x <-> waiting a x.
Proof. by destruct f. Qed.

Lemma mark_wait f t a : a_wait (a_mark f t a) = a_wait a.
Proof. by destruct f. Qed.

Lemma waiting_drop f a t x : waiting (a_drop f a t) x <-> x <> t /\ waiting a x.
Proof. unfold a_drop. by rewrite waiting_leave, waiting_mark. Qed.

(** A thread that was taken off the queue is added to the chain if it is
    to be unblocked. *)
Lemma collect_ok win0 A lv k0 k a f u us win t : pending win0 A lv k0 a us win -> inv (released win t) A lv k (a_drop f a t) ->
  u ∈ STK -> t ∈ D -> waiting a t -> Chain.chain (k_mem k) u (wait_node <$> us) ->
  wp (whenM (bool_decide (win !! t = None)) (Chain._Chain_Append_unprotected u (wait_node t)))
    (fun _ k' => exists us' win', pending win0 A lv k' (a_drop f a t) us' win' /\ Chain.chain (k_mem k') u (wait_node <$> us')) k.
Proof.
  intros [Hi Hus Hnd Hwin] Hi1 Hu Ht Hwt Hc.
  assert (Hus1 : forall x, x ∈ us -> x ∈ D /\ ~ waiting (a_drop f a t) x /\ win0 !! x = None).
  { intros x Hx. destruct (Hus x Hx) as (? & ? & ?). rewrite waiting_drop. tauto. }
  assert (Hn : t ∉ us) by (intros Hx; by apply Hus in Hx as (_ & ? & _)).
  pose proof (Hwin t) as Ewt. rewrite decide_False in Ewt by done. case_bool_decide as E; cbn [whenM].
  - assert (Hus2 : forall x, x ∈ us ++ [t] -> x ∈ D /\ ~ waiting (a_drop f a t) x /\ win0 !! x = None).
    { intros x [Hx|E'%list_elem_of_singleton]%elem_of_app; [by apply Hus1|]. subst x. rewrite waiting_drop. split_and!; [done|tauto|congruence]. }
    eapply Chain.append_spec; [exact Hc|eapply stack_off; [exact Hi1|done|intros x Hx; by apply Hus1|done|done]|].
    intros m' Hc' Hch. replace ((wait_node <$> us) ++ [wait_node t]) with (wait_node <$> us ++ [t]) in * by (by rewrite fmap_app).
    exists (us ++ [t]), (released win t). split; [|done]. split; [|exact Hus2| |].
    + eapply inv_mem; [exact Hi1|exact Hch|]. intros x Hx. eapply (stack_words _ _ _ _ _ u (us ++ [t])); [exact Hi1|done| |exact Hx].
      intros y Hy. destruct (Hus2 y Hy) as (? & ? & _). done.
    + apply NoDup_app. split_and!; [done|set_solver|apply NoDup_singleton].
    + intros x. destruct (decide (x = t)) as [->|Hne]; [rewrite released_eq, E, decide_True by set_solver; done|].
      rewrite released_ne, Hwin by done. destruct (decide (x ∈ us)); [rewrite decide_True by set_solver|rewrite decide_False by set_solver]; done.
  - apply wp_ret. exists us, win. split; [|done]. split; [|done|done|done]. unfold released in Hi1. by destruct (win !! t).
Qed.

Lemma threads_bound win A lv k a l : inv win A lv k a -> NoDup l -> (forall t, t ∈ l -> t ∈ D) -> Z.of_nat (length l) < 2 ^ 64.
Proof.
  intros Hi Hnd Hl. destruct (si_queues _ _ _ _ _ Hi) as (hs & pl & Hq). rewrite <- (length_fmap wait_node). apply addresses_bound.
  - by apply wait_nodes_NoDup.
  - apply Forall_forall. intros n (t & -> & Ht)%list_elem_of_fmap.
    apply (ly_node _ _ _ (rm_layout _ _ _ (ti_ready _ _ _ _ _ _ _ _ Hq))). by apply Hl.
Qed.

Lemma filter_first (t : Z) l : NoDup (t :: l) -> filter (fun x => x <> t) (t :: l) = l.
Proof. intros [Hn _]%NoDup_cons. rewrite filter_cons, decide_False by naive_solver. by apply filter_absent. Qed.

(** The first loop takes all threads off the queue. *)
Lemma flush_extract_ok win0 A lv k a q u c f : inv win0 A lv k a -> Chain.chain (k_mem k) u [] -> q ∈ QS -> u ∈ STK ->
  wp (flush_extract_loop q (disc q) (filter_of f) u c) (fun r k' => r.1 = Z.of_nat (length (a_wait a q)) /\
    exists us win, pending win0 A lv k' (a_flush q f a) us win /\ Chain.chain (k_mem k') u (wait_node <$> us)) k.
Proof using Hdisc Hnull Hmsg ticks_per_timeslice.
  intros Hi Hc Hq Hu. 
  assert (Hb : Z.of_nat (length (a_wait a q)) < 2 ^ 64).
  { destruct (si_queues _ _ _ _ _ Hi) as (hs & pl & Hqs). eapply threads_bound; [exact Hi|apply Hqs|]. intros t Ht. by apply (ti_ws _ _ _ _ _ _ _ _ Hqs q). }
  apply (wp_whileM _ (fun n '(flushed, _) s => exists a' us win, pending win0 A lv s a' us win /\
    Chain.chain (k_mem s) u (wait_node <$> us) /\ n = Z.of_nat (length (a_wait a' q)) /\
    foldl (a_drop f) a' (a_wait a' q) = a_flush q f a /\ 0 <= flushed /\ flushed + n = Z.of_nat (length (a_wait a q))))
    with (k := Z.of_nat (length (a_wait a q))); [|exists a, [], win0; split_and!; try done; split; try done; [set_solver|constructor]|done].
  intros n [flushed c0] s (a' & us & win & Hp & Hch & -> & Hfl & H0 & Hn). pose proof (pe_inv _ _ _ _ _ _ _ Hp) as Hi1.
  destruct (si_queues _ _ _ _ _ Hi1) as (hs & pl & Hqs). destruct (queue_heads D HS QS disc Hdisc s _ hs pl q Hqs Hq) as (v & Hv & _ & Hf).
  apply wp_bind. eapply wp_get_queue; [exact Hv|]. pose proof (ti_ws_nodup _ _ _ _ _ _ _ _ Hqs q) as Hnd.
  assert (HwD : forall x, x ∈ a_wait a' q -> x ∈ D) by (intros x Hx; by apply (ti_ws _ _ _ _ _ _ _ _ Hqs q)).
  destruct (a_wait a' q) as [|t l] eqn:Ew.
  { rewrite Hf, Z.eqb_refl. apply wp_ret. split; [cbn in *; lia|]. exists us, win. cbn in Hfl. by rewrite <- Hfl. }
  destruct Hf as [Hne Hf]. rewrite (proj2 (Z.eqb_neq _ _) Hne). apply wp_bind, Hf, wp_bind.
  assert (Ht : t ∈ D) by (apply HwD; left). eapply wp_mono; [by eapply filter_ok|]. intros x k1 (-> & Hi2 & Em).
  destruct (Z.eqb_spec t NULL) as [->|_]; [done|]. apply wp_bind.
  assert (Hin : t ∈ a_wait (a_mark f t a') q) by (rewrite mark_wait, Ew; left).
  eapply wp_mono; [eapply extract_locked_ok; [exact Hi2|exact Hin]|]. intros r k2 (-> & Hi3 & W & HW & HWx).
  apply wp_bind. eapply wp_mono; [eapply (collect_ok win0 A lv s k2 a' f u us win t); [done|done|done|done|exists q; rewrite Ew; left|]|].
  { eapply chain_changes; [exact HW| |by rewrite Em]. intros x Hx HxW.
    destruct (stack_words _ _ _ _ _ u us x Hi1 Hu) as (Hn1 & _ & Hn2); [|done|].
    - intros y Hy. destruct (pe_us _ _ _ _ _ _ _ Hp y Hy) as (? & ? & _). done.
    - rewrite mark_wait in HWx. destruct (HWx x HxW) as [?|?]; [by apply Hn1|by apply (Hn2 q)]. }
  intros [] k3 (us' & win' & Hp' & Hc'). apply wp_ret. exists (Z.of_nat (length l)). split; [cbn; lia|].
  exists (a_drop f a' t), us', win'. rewrite drop_wait, Ew, filter_first by done. split_and!; [done|done|done|done| |];
   rewrite u64_small; cbn in *; lia.
Qed.

(** The second loop unblocks them. *)
Lemma keeps_mem_unblock t (k k' : K) r : _Thread_Remove_timer_and_unblock ops t k = Some (r, k') -> k_mem k' = k_mem k.
Proof.
  unfold _Thread_Remove_timer_and_unblock, _Thread_Timer_remove, _Thread_Unblock, on_timers, on_sched, mbind, M_bind.
  destruct (timer_remove t (k_timers k)) as [[? ?]|]; [|done]. destruct (_Thread_Clear_state_locked _ _ _ _) as [[? ?]|]; [|done].
  by intros [= <- <-].
Qed.

Lemma pending_unblock win0 A lv k a t us win : pending win0 A lv k a (t :: us) win -> lv <> 0 ->
  wp (_Thread_Remove_timer_and_unblock ops t)
    (fun _ k' => k_mem k' = k_mem k /\ pending win0 (A ∖ {[t]}) lv k' a us (delete t win)) k.
Proof.
  intros [Hi Hus Hnd Hwin] Hlv. destruct (Hus t) as (Ht & Hnw & E0); [left|]. apply NoDup_cons in Hnd as [Hn Hnd].
  assert (Hw : win !! t = Some true) by (by rewrite Hwin, decide_True by left).
  destruct (proj1 (wp_run _ _ _) (remove_and_unblock_ok _ _ _ _ _ t true Hi Ht Hlv Hw Hnw)) as ([] & k' & E & Hi').
  apply wp_run. exists tt, k'. split_and!; [done|by eapply keeps_mem_unblock|]. split; [done| |done|].
  - intros x Hx. apply Hus. by right.
  - intros x. destruct (decide (x = t)) as [->|Hne]; [by rewrite lookup_delete_eq, decide_False|]. rewrite lookup_delete_ne, Hwin by done.
    destruct (decide (x ∈ us)); [rewrite decide_True by (by right)|rewrite decide_False by set_solver]; done.
Qed.

Lemma pending_nil win0 A lv k a win : pending win0 A lv k a [] win -> inv win0 A lv k a.
Proof.
  intros [Hi _ _ Hwin]. replace win0 with win; [done|]. apply map_eq. intros x. rewrite Hwin. by rewrite decide_False by set_solver.
Qed.

Lemma flush_unblock_ok win0 A lv k a u t us win : pending win0 A lv k a (t :: us) win -> lv <> 0 -> u ∈ STK ->
  Chain.chain (k_mem k) u (wait_node <$> t :: us) ->
  wp (flush_unblock_loop ops (Chain._Chain_Tail u) (wait_node t)) (fun _ k' => within win0 A lv k' a) k.
Proof.
  intros Hp Hlv Hu Hch.
  assert (Hb : Z.of_nat (length us) < 2 ^ 64).
  { pose proof (pe_nodup _ _ _ _ _ _ _ Hp) as [_ Hnd]%NoDup_cons. eapply threads_bound; [exact (pe_inv _ _ _ _ _ _ _ Hp)|done|].
    intros x Hx. apply (pe_us _ _ _ _ _ _ _ Hp). by right. }
  apply (wp_whileM _ (fun n node s => exists A' l1 t' us' win', A' ⊆ A /\ k_mem s = k_mem k /\ node = wait_node t' /\ n = Z.of_nat (length us') /\
    t :: us = l1 ++ t' :: us' /\ pending win0 A' lv s a (t' :: us') win')) with (k := Z.of_nat (length us));
    [|by exists A, [], t, us, win|done].
  intros n node s (A' & l1 & t' & us' & win' & HA & Em & -> & -> & El & Hp').
  rewrite El, fmap_app, fmap_cons in Hch. destruct Hch as (_ & Hl & _). apply dlist_split in Hl as (_ & _ & _ & [Hnx _]).
  apply wp_bind. eapply wp_load; [cbn; rewrite Em; exact Hnx|]. apply wp_bind. rewrite wait_node_owner.
  eapply wp_mono; [by eapply pending_unblock|]. intros [] k1 [Em1 Hp1]. destruct us' as [|t2 us']; cbn [dsucc fmap list_fmap head default].
  - unfold Chain._Chain_Tail. cbn. rewrite Z.eqb_refl. apply wp_ret. exists (A' ∖ {[t']}). split; [set_solver|by eapply pending_nil].
  - destruct (pe_us _ _ _ _ _ _ _ Hp1 t2) as (Ht2 & _); [left|].
    pose proof (sl_node _ _ _ _ (si_stack _ _ _ _ _ (pe_inv _ _ _ _ _ _ _ Hp1)) u t2 Hu Ht2) as Hs. unfold Chain._Chain_Tail.
    cbn. destruct (Z.eqb_spec (wait_node t2) (u + 8)); [lia|]. apply wp_ret. exists (Z.of_nat (length us')). split; [lia|].
    exists (A' ∖ {[t']}), (l1 ++ [t']), t2, us', (delete t' win'). split_and!; [set_solver|by rewrite Em1|done|done|by rewrite <- app_assoc|done].
Qed.

Lemma flush_critical_ok win A lv k a q u c f : inv win A lv k a -> q ∈ QS -> u ∈ STK -> 0 <= lv < 9 ->
  wp (_Thread_queue_Flush_critical ops ticks_per_timeslice q (disc q) (filter_of f) c u)
    (fun r k' => r = Z.of_nat (length (a_wait a q)) /\ within win A lv k' (a_flush q f a)) k.
Proof using Hdisc Hnull Hmsg.
  intros Hi Hq Hu Hlv. apply wp_bind. apply Chain.initialize_empty_spec.
  { intros x. by apply (sl_mapped _ _ _ _ (si_stack _ _ _ _ _ Hi)). }
  intros m' Hc Hch. assert (Hi1 : inv win A lv (with_mem m' k) a).
  { eapply inv_mem; [exact Hi|exact Hch|]. intros x Hx. eapply (stack_words _ _ _ _ _ u []); [exact Hi|done|set_solver|exact Hx]. }
  destruct (si_queues _ _ _ _ _ Hi1) as (hs & pl & Hqs). destruct (queue_heads D HS QS disc Hdisc _ _ hs pl q Hqs Hq) as (v & Hv & Ho & _).
  apply wp_bind. eapply wp_get_queue; [exact Hv|]. rewrite Ho. apply wp_bind.
  eapply wp_mono; [eapply (flush_extract_ok win A lv _ a q u); [exact Hi1|exact Hc|done|done]|].
  intros [flushed c'] k1 (Efl & us & win1 & Hp & Hc1). cbn in Efl. subst flushed.
  pose proof Hc1 as (_ & Hl & _). apply dlist_first in Hl. apply wp_bind. eapply wp_load; [exact Hl|].
  fold (Chain._Chain_Tail u) in Hl |- *. destruct us as [|t us]; unfold dsucc; cbn [fmap list_fmap head default from_option id].
  - rewrite Z.eqb_refl. cbn [negb whenM]. apply wp_bind, wp_ret, wp_ret. split; [done|]. apply within_refl. by eapply pending_nil.
  - destruct (pe_us _ _ _ _ _ _ _ Hp t) as (Ht & _); [left|].
    pose proof (sl_node _ _ _ _ (si_stack _ _ _ _ _ Hi) u t Hu Ht) as Hs.
    destruct (Z.eqb_spec (wait_node t) (Chain._Chain_Tail u)) as [E|_]; [unfold Chain._Chain_Tail in E; lia|].
    cbn [negb whenM]. apply wp_bind, wp_bind. destruct Hp as [Hip Hus Hnd Hwin].
    apply wp_modify. rewrite (si_level _ _ _ _ _ Hip), u32_small by lia.
    apply wp_bind. eapply wp_mono; [eapply (flush_unblock_ok win A (lv + 1) _ _ u t us win1); [|lia|done|exact Hc1]|].
    { split; [apply (inv_level _ _ lv); [done|lia]|done..]. }
    intros [] k2 (A2 & HA2 & Hi2). apply wp_bind. change (NULL =? NULL) with true. apply wp_ret.
    eapply wp_mono; [eapply enable_ok; [exact Hi2|lia]|]. intros [] k3 Hi3. apply wp_ret. rewrite Z.add_simpl_r in Hi3. split; [done|by exists A2].
Qed.

(** ** Calls that do not block *)

Hypothesis Hbarrier : forall q at_, kind q = Kind_barrier at_ -> disc q = CORE_BARRIER_TQ_OPERATIONS.

Lemma wp_get_barrier q v (Q : CORE_barrier_Control -> K -> Prop) (k : K) : k_barrier k !! q = Some v -> Q v k -> wp (get_barrier q) Q k.
Proof. unfold wp, get_barrier. by intros ->. Qed.

Lemma barrier_flush_ok win A lv k a q at_ u c f : inv win A lv k a -> q ∈ QS -> kind q = Kind_barrier at_ -> u ∈ STK -> 0 <= lv < 9 ->
  wp (_CORE_barrier_Do_flush ops ticks_per_timeslice q (filter_of f) c u)
    (fun r k' => r = u32 (Z.of_nat (length (a_wait a q))) /\ within win A lv k' (a_flush q f (a_set_count q 0 a))) k.
Proof using Hdisc Hnull Hmsg Hbarrier.
  intros Hi Hq Hat Hu Hlv. destruct (barrier_count _ _ _ _ _ q at_ Hi Hq Hat) as [Hb _].
  apply wp_bind, wp_bind. eapply wp_get_barrier; [exact Hb|]. apply wp_modify. apply wp_bind. rewrite <- (Hbarrier q at_ Hat).
  eapply wp_mono; [eapply (flush_critical_ok win A lv _ (a_set_count q 0 a) q u c f); [|done|done|done]|].
  - by apply inv_barrier.
  - intros r k' (-> & Hi'). by apply wp_ret.
Qed.

(** ** Messages *)

Definition a_message (l : Z -> list (list Z)) (d : data) (a : sync) : sync :=
  {| a_count := a_count a; a_wait := a_wait a; a_status := a_status a; a_timers := a_timers a; a_messages := l; a_data := d |}.

(** A step on message queues. *)
Lemma inv_messages win A lv k k' a P X d l : inv win A lv k a -> mq_step P X k k' (a_data a) d -> (forall t, X t -> ~ waiting a t) ->
  (forall q c, q ∈ QS -> kind q = Kind_message c -> (~ P q /\ l q = a_messages a q) \/
     message_ok (k_mem k') (k_messages k') (d_target d) (l q) (a_wait a q) q c) ->
  inv win A lv k' (a_message l d a).
Proof using Hdisc Hmsg.
  intros [(hs & pl & Hq) Hs Hd Hk Hda Hc Hth Htm Hr Hat Hl He] Hst HX Hmo. pose proof Hst as [Ek (W & HW & HWx) _ _ _ _ _ Hdata]. rewrite Ek. split; try done.
  - exists hs, pl. eapply (tq_inv_quiet D HS QS disc (with_mem (k_mem k') k)); [done|reflexivity|].
    eapply (tq_inv_mem D HS QS disc Hdisc); [exact Hq|exact HW|]. intros x (q & c & _ & Hin & Hkq & Hx)%HWx.
    destruct (ml_word Hmsg q c x Hin Hkq Hx) as (H1 & H2 & _). split; [done|]. intros q' (t & Ht & ?).
    by apply (H2 t); [apply (ti_ws _ _ _ _ _ _ _ _ Hq q')|].
  - by eapply stack_changes.
  - by apply Hdata.
  - intros q Hin. destruct (Hc q Hin) as [Hb Hob]. split; [done|]. unfold object_ok in *. cbn in *. destruct (kind q) as [| |c] eqn:Ekq; [done|done|].
    destruct (Hmo q c Hin Ekq) as [[HP El]|?]; [|done]. rewrite El.
    eapply (message_frame D HS QS STK U V disc kind capacity Hmsg P X k k'); [done|done|done|done| |done].
    intros t Ht HXt. apply (HX t HXt). by exists q.
Qed.

Lemma message_state win A lv k a q c : inv win A lv k a -> q ∈ QS -> kind q = Kind_message c ->
  message_ok (k_mem k) (k_messages k) (d_target (a_data a)) (a_messages a q) (a_wait a q) q c.
Proof. intros Hi Hq Hkq. destruct (si_count _ _ _ _ _ Hi q Hq) as [_ Ho]. unfold object_ok in Ho. by rewrite Hkq in Ho. Qed.

(** A message goes to the first waiting thread, if there is one. *)
Lemma dequeue_receiver_ok win A lv k a q cf b size st c isr F : inv win A lv k a -> q ∈ QS -> kind q = Kind_message cf -> b ∈ U ->
  0 <= size <= mc_size cf -> size <= capacity b -> 0 <= lv < 9 -> window win lv isr F ->
  wp (_CORE_message_queue_Dequeue_receiver ops ticks_per_timeslice q b size st c isr)
    (fun r k' => match a_messages a q, a_wait a q with
       | [], t :: _ => r = t /\ r <> NULL /\ within win A lv k' (F (a_deliver b size a t))
       | _, _ => r = NULL /\ k' = k
       end) k.
Proof using Hdisc Hnull Hmsg.
  intros Hi Hq Hkq HbU Hs1 Hs2 Hlv Hwd. pose proof (message_state _ _ _ _ _ q cf Hi Hq Hkq) as [M1 _ _ _ _ M6].
  apply wp_bind. eapply wp_get_control; [exact M1|]. cbn [number_of_pending_messages operations].
  destruct (a_messages a q) as [|m l] eqn:Em.
  2:{ rewrite (proj2 (Z.eqb_neq _ _)) by (cbn; lia). by apply wp_ret. }
  cbn [length Z.of_nat Z.eqb negb]. destruct (si_queues _ _ _ _ _ Hi) as (hs & pl & Hqs).
  apply wp_bind. eapply (first_locked_spec D HS QS disc Hdisc); [exact Hqs|done|].
  destruct (a_wait a q) as [|t l] eqn:Ew; cbn [head default id from_option]; [by apply wp_ret|].
  assert (Hin : t ∈ a_wait a q) by (rewrite Ew; left). destruct (ti_ws _ _ _ _ _ _ _ _ Hqs q t Hin) as [_ HtD].
  destruct (Z.eqb_spec t NULL) as [->|Hne]; [done|].
  eapply (copy_to_ok D QS U V kind capacity (fun _ => False) (fun _ => False));
    [apply (si_data _ _ _ _ _ Hi)|done|done|done|apply M6; by left|].
  intros k1 Hst. unfold a_deliver, message_of. destruct (d_target (a_data a) t) as [b' p'] eqn:Et. cbn [fst snd] in Hst.
  pose proof (inv_messages _ _ _ _ _ _ _ _ _ (a_messages a) Hi Hst) as Hi1. apply wp_bind.
  eapply wp_mono; [eapply (extract_critical_ok win A lv k1 _ q t c); [apply Hi1; [done|by left; auto]|done|done|exact Hwd]|].
  intros ? k2 Hi2. by apply wp_ret.
Qed.

(** A step on the message queue [q] alone. *)
Lemma inv_queue win A lv k k' a q c X d l : inv win A lv k a -> q ∈ QS -> kind q = Kind_message c -> mq_step (eq q) X k k' (a_data a) d ->
  (forall t, X t -> ~ waiting a t) -> (forall q', q' <> q -> l q' = a_messages a q') ->
  message_ok (k_mem k') (k_messages k') (d_target d) (l q) (a_wait a q) q c -> inv win A lv k' (a_message l d a).
Proof using Hdisc Hmsg.
  intros Hi Hq Hkq Hst HX Hl Hok. eapply inv_messages; [done|done|done|]. intros q' c' Hq' Hkq'. destruct (decide (q' = q)) as [->|Hne].
  - right. rewrite Hkq in Hkq'. by injection Hkq' as <-.
  - left. auto.
Qed.

Lemma message_same a : a_message (a_messages a) (a_data a) a = a.
Proof. by destruct a. Qed.

Lemma submit_ok win A lv k a q cf e b size urgent wait c isr F : inv win A lv k a -> q ∈ QS -> kind q = Kind_message cf -> b ∈ U ->
  0 <= size <= capacity b -> 0 <= lv < 9 -> window win lv isr F ->
  wp (_CORE_message_queue_Submit ops ticks_per_timeslice q e b size (submit_type urgent) wait c isr)
    (fun r k' => r = (a_send kind q b size urgent a).1 /\ within win A lv k' (woken F (Send q b size urgent) a)) k.
Proof using Hdisc Hnull Hmsg.
  intros Hi Hq Hkq HbU Hs Hlv Hwd. pose proof (message_state _ _ _ _ _ q cf Hi Hq Hkq) as Hok. pose proof Hok as [M1 _ _ _ M5 _].
  unfold woken. cbn [wakes a_call]. unfold a_send. rewrite Hkq.
  apply wp_bind. eapply wp_get_control; [exact M1|]. cbn [maximum_message_size].
  destruct (Z.ltb_spec (mc_size cf) size); cbn [negb andb]; [apply wp_ret; split; [done|by apply within_refl]|].
  apply wp_bind. eapply wp_mono; [eapply dequeue_receiver_ok; [done|done|done|done| |lia|done|exact Hwd]; lia|].
  intros r k1 Hr. destruct (do_bytes _ _ _ _ _ _ (si_data _ _ _ _ _ Hi) b HbU) as [Eb El].
  assert (Hstore : a_wait a q = [] -> wp (the_message ← _CORE_message_queue_Allocate_message_buffer q;
      if negb (the_message =? NULL) then
        _CORE_message_queue_Insert_message q the_message b size (submit_type urgent);; mret STATUS_SUCCESSFUL
      else mret STATUS_TOO_MANY) (fun r k' => let a' := if Z.of_nat (length (a_messages a q)) <? mc_pending cf
         then (STATUS_SUCCESSFUL, a_set_messages q (if urgent then message_of b size a :: a_messages a q else a_messages a q ++ [message_of b size a]) a)
         else (STATUS_TOO_MANY, a) in r = a'.1 /\ inv win A lv k' a'.2) k).
  { intros Ew. rewrite Ew in Hok. eapply wp_mono; [eapply (store_ok D HS QS STK U V disc kind capacity Hmsg q cf Hq Hkq (fun _ => False)); [exact Hok|done|exact Eb|lia|lia]|].
    intros r' k' [Hst Hpost]. destruct (_ <? _) eqn:E; destruct Hpost as [-> Hok']; (split; [done|]); cbn [snd].
    - eapply (inv_queue _ _ _ _ _ _ q cf); [done|done|done|done|done|intros q'; apply fn_set_ne|by rewrite Ew, fn_set_eq].
    - rewrite <- (message_same a). eapply (inv_queue _ _ _ _ _ _ q cf); [done|done|done|done|done|done|by rewrite Ew]. }
  destruct (a_messages a q) as [|m l] eqn:Em; [destruct (a_wait a q) as [|t ts] eqn:Ew|].
  - rewrite !bool_decide_true by done. destruct Hr as [-> ->]. rewrite Z.eqb_refl. cbn [negb andb].
    eapply wp_mono; [by apply Hstore|]. intros r' k' [-> Hi']. split; [done|]. apply within_refl. by destruct (_ <? _).
  - rewrite bool_decide_true, bool_decide_false by done. destruct Hr as (-> & Hne & Hi1). rewrite (proj2 (Z.eqb_neq _ _) Hne). by apply wp_ret.
  - rewrite bool_decide_false by done. assert (a_wait a q = []) as Ew by (by apply M5). rewrite Ew in *. destruct Hr as [-> ->].
    rewrite Z.eqb_refl. cbn [negb andb].
    eapply wp_mono; [by apply Hstore|]. intros r' k' [-> Hi']. split; [done|]. apply within_refl. by destruct (_ <? _).
Qed.

Lemma broadcast_ok win A lv k a q cf b size c : inv win A lv k a -> q ∈ QS -> kind q = Kind_message cf -> b ∈ U ->
  0 <= size <= capacity b -> 0 <= lv < 9 ->
  wp (_CORE_message_queue_Broadcast ops ticks_per_timeslice q b size c (mret tt))
    (fun _ k' => within win A lv k' (a_broadcast kind q b size a)) k.
Proof using Hdisc Hnull Hmsg.
  intros Hi Hq Hkq HbU Hs Hlv. pose proof (message_state _ _ _ _ _ q cf Hi Hq Hkq) as [M1 _ _ _ _ _]. unfold a_broadcast. rewrite Hkq.
  apply wp_bind. eapply wp_get_control; [exact M1|]. cbn [maximum_message_size]. destruct (Z.ltb_spec (mc_size cf) size); [apply wp_ret; by apply within_refl|].
  assert (Hb : Z.of_nat (length (a_wait a q)) < 2 ^ 64).
  { destruct (si_queues _ _ _ _ _ Hi) as (hs & pl & Hqs). eapply threads_bound; [exact Hi|apply Hqs|]. intros t Ht. by apply (ti_ws _ _ _ _ _ _ _ _ Hqs q). }
  set (a2 := match a_messages a q with [] => _ | _ => _ end). apply wp_bind.
  eapply wp_mono with (P := fun _ k' => within win A lv k' a2); [|intros r k' Hk'; by apply wp_ret].
  apply (wp_whileM _ (fun n (_ : Z) s => exists a', within win A lv s a' /\ n = Z.of_nat (length (a_wait a' q)) /\
    match a_messages a' q with [] => foldl (a_deliver b size) a' (a_wait a' q) | _ => a' end = a2)) with (k := Z.of_nat (length (a_wait a q)));
    [|exists a; split; [by apply within_refl|done]|done].
  intros n x s (a' & (A' & HA & Hi') & -> & E2). apply wp_bind.
  eapply wp_mono; [eapply dequeue_receiver_ok; [exact Hi'|done|done|done|lia|lia|done|apply window_none]|].
  intros r s' Hr. destruct (a_messages a' q) as [|m l] eqn:Em; [destruct (a_wait a' q) as [|t l] eqn:Ew|].
  - destruct Hr as [-> ->]. rewrite Z.eqb_refl. apply wp_ret. cbn in E2. subst. by exists A'.
  - destruct Hr as (-> & Hne & Hi1). rewrite (proj2 (Z.eqb_neq _ _) Hne). apply wp_ret. exists (Z.of_nat (length l)). split; [cbn; lia|].
    exists (a_deliver b size a' t). rewrite deliver_wait, deliver_messages, Em, Ew. split; [by eapply within_sub|].
    destruct (si_queues _ _ _ _ _ Hi') as (hs & pl & Hqs). rewrite filter_first by (rewrite <- Ew; apply Hqs). done.
  - assert (r = NULL /\ s' = s) as [-> ->] by (by destruct (a_wait a' q)). rewrite Z.eqb_refl. apply wp_ret. subst. by exists A'.
Qed.

(** The callers' obligations. *)
Definition is_barrier (q : Z) : Prop := exists at_, kind q = Kind_barrier at_.
Definition is_message (q : Z) : Prop := exists c, kind q = Kind_message c.

Definition call_ok (c : call) : Prop :=
  match c with
  | Surrender q max => q ∈ QS /\ kind q = Kind_semaphore /\ 0 <= max < 2 ^ 32
  | Flush q u | Destroy q u => q ∈ QS /\ kind q = Kind_semaphore /\ u ∈ STK
  | Release q u | Delete q u => q ∈ QS /\ is_barrier q /\ u ∈ STK
  | Send q b size _ => q ∈ QS /\ is_message q /\ b ∈ U /\ 0 <= size <= capacity b
  | Drop q => q ∈ QS /\ is_message q
  | Close q u => q ∈ QS /\ is_message q /\ u ∈ STK
  | Fill b bytes => b ∈ U /\ Z.of_nat (length bytes) = capacity b
  end.

(** The calls on message queues. *)
Definition message_call (c : call) : bool :=
  match c with
  | Send _ _ _ _ | Drop _ | Close _ _ | Fill _ _ => true
  | _ => false
  end.

Lemma message_call_ok win A lv k a c isr F : inv win A lv k a -> 0 <= lv < 9 -> call_ok c -> message_call c = true -> window win lv isr F ->
  wp (call_exec ops ticks_per_timeslice disc c isr) (fun r k' => r = (a_call kind c a).1 /\ within win A lv k' (woken F c a)) k.
Proof using Hdisc Hnull Hmsg Hbarrier.
  intros Hi Hlv Hc Hm Hwd. destruct c as [q max|q u|q u|q u|q u|q b size urgent|q|q u|b bytes]; try done; cbn [call_ok call_exec] in *.
  - destruct Hc as (Hq & [cf Hkq] & HbU & Hs). apply wp_bind, wp_gets, wp_bind.
    eapply wp_mono with (P := fun r k' => r = (a_send kind q b size urgent a).1 /\ within win A lv k' (woken F (Send q b size urgent) a));
      [|intros r k' (-> & Hi'); apply wp_ret; cbn [a_call]; by destruct (a_send kind q b size urgent a)].
    by destruct urgent; [eapply (submit_ok _ _ _ _ _ _ _ _ _ _ true)|eapply (submit_ok _ _ _ _ _ _ _ _ _ _ false)].
  - destruct Hc as (Hq & [cf Hkq]). pose proof (message_state _ _ _ _ _ q cf Hi Hq Hkq) as Hok. apply wp_bind.
    eapply wp_mono; [eapply (drop_ok D HS QS STK U V disc kind capacity Hmsg q cf Hq Hkq (fun _ => False)); exact Hok|].
    intros r k' (-> & Hst & Hok'). apply wp_ret. split; [done|]. apply within_refl.
    eapply (inv_queue _ _ _ _ _ _ q cf); [done|done|done|done|done|intros q'; apply fn_set_ne|by rewrite fn_set_eq].
  - destruct Hc as (Hq & [cf Hkq] & Hu). pose proof (message_state _ _ _ _ _ q cf Hi Hq Hkq) as [M1 _ _ _ _ _]. apply wp_bind, wp_bind.
    eapply wp_get_control; [exact M1|]. apply wp_bind. cbn [operations].
    eapply wp_mono; [exact (flush_critical_ok win A lv k a q u empty_context Filter_message_queue_was_deleted Hi Hq Hu Hlv)|].
    intros r k' (_ & A' & HA & Hi'). pose proof (message_state _ _ _ _ _ q cf Hi' Hq Hkq) as [M1' _ _ _ _ _]. apply wp_bind.
    eapply wp_get_control; [exact M1'|]. do 2 apply wp_ret. split; [done|by exists A'].
  - destruct Hc as [HbU Hl]. apply wp_bind, wp_modify, wp_ret. split; [done|]. apply within_refl.
    eapply (inv_messages _ _ _ _ _ _ (fun _ => False) (fun _ => False) _ (a_messages a)); [done|by apply step_bytes|done|by left; auto].
Qed.

Lemma call_exec_ok win A lv k a c isr F : inv win A lv k a -> 0 <= lv < 9 -> call_ok c -> window win lv isr F ->
  wp (call_exec ops ticks_per_timeslice disc c isr) (fun r k' => r = (a_call kind c a).1 /\ within win A lv k' (woken F c a)) k.
Proof using Hdisc Hnull Hmsg Hbarrier.
  intros Hi Hlv Hc Hwd. destruct (message_call c) eqn:Em; [by apply message_call_ok|].
  destruct c as [q max|q u|q u|q u|q u| | | |]; try done; cbn [call_ok call_exec] in *.
  - destruct Hc as (Hq & Hat & Hm). apply wp_bind. eapply wp_mono; [by eapply surrender_ok|].
    intros r k' (-> & Hi'). apply wp_ret. cbn [a_call]. by destruct (a_surrender q max a).
  - destruct Hc as (Hq & Hat & Hu). apply wp_bind.
    eapply wp_mono; [exact (flush_critical_ok win A lv k a q u empty_context Filter_unavailable Hi Hq Hu Hlv)|]. intros r k' (-> & Hi'). by apply wp_ret.
  - destruct Hc as (Hq & Hat & Hu). apply wp_bind, wp_bind.
    eapply wp_mono; [exact (flush_critical_ok win A lv k a q u empty_context Filter_object_was_deleted Hi Hq Hu Hlv)|]. intros r k' (-> & Hi'). by do 2 apply wp_ret.
  - destruct Hc as (Hq & [at_ Hat] & Hu). apply wp_bind.
    eapply wp_mono; [exact (barrier_flush_ok win A lv k a q at_ u empty_context Filter_default Hi Hq Hat Hu Hlv)|]. intros r k' (-> & Hi'). by apply wp_ret.
  - destruct Hc as (Hq & [at_ Hat] & Hu). apply wp_bind, wp_bind.
    eapply wp_mono; [exact (barrier_flush_ok win A lv k a q at_ u empty_context Filter_object_was_deleted Hi Hq Hat Hu Hlv)|]. intros r k' (-> & Hi'). by do 2 apply wp_ret.
Qed.

(** ** Interrupts *)

Definition isr_ok (o : isr_op) : Prop :=
  match o with
  | I_call c => call_ok c
  | I_broadcast q b size => q ∈ QS /\ is_message q /\ b ∈ U /\ 0 <= size <= capacity b
  | I_timeout t | I_resume t => t ∈ D
  | I_suspend t => t ∈ D /\ t <> idle
  end.

Lemma isr_exec_ok win A lv k a o : inv win A lv k a -> 0 < lv < 9 -> isr_ok o ->
  wp (isr_exec ops ticks_per_timeslice disc o) (fun _ k' => within win A lv k' (a_isr kind o a)) k.
Proof using Hdisc Hnull Hmsg Hbarrier.
  intros Hi Hlv. destruct o as [c|q b size|t|t|t]; cbn [isr_ok isr_exec].
  - intros Hc. apply wp_bind. eapply wp_mono; [eapply call_exec_ok; [done|lia|done|apply window_none]|]. intros r k' [_ Hk']. apply wp_ret.
    by rewrite woken_none in Hk'.
  - intros (Hq & [cf Hkq] & HbU & Hs). apply wp_bind. eapply wp_mono; [eapply broadcast_ok; [done|done|done|done|done|lia]|].
    intros r k' Hk'. by apply wp_ret.
  - intros Ht. eapply expire_ok; [done|done|lia].
  - intros [Ht Hid]. apply wp_bind. eapply wp_mono; [eapply suspend_ok; [done|done|done|lia]|]. intros ? k' Hk'. apply wp_ret. by apply within_refl.
  - intros Ht. apply wp_bind. eapply wp_mono; [eapply resume_ok; [done|done|lia]|]. intros ? k' Hk'. apply wp_ret. by apply within_refl.
Qed.

Lemma isr_run_ok win A lv k a l : inv win A lv k a -> 0 < lv < 9 -> Forall isr_ok l ->
  wp (isr_run ops ticks_per_timeslice disc l) (fun _ k' => within win A lv k' (a_isrs kind l a)) k.
Proof using Hdisc Hnull Hmsg Hbarrier.
  intros Hi Hlv Hl. revert A k a Hi. induction Hl as [|o l Ho Hl IH]; intros A k a Hi; cbn [isr_run].
  - apply wp_ret. by apply within_refl.
  - apply wp_bind. eapply wp_mono; [by eapply isr_exec_ok|]. intros [] k1 (A1 & HA1 & Hi1).
    eapply wp_mono; [by eapply IH|]. intros [] k2 Hi2. by eapply within_sub.
Qed.

Lemma interrupt_ok win A lv k a l : inv win A lv k a -> 0 <= lv < 8 -> Forall isr_ok l ->
  wp (interrupt ops ticks_per_timeslice disc l) (fun _ k' => within win A lv k' (a_isrs kind l a)) k.
Proof using Hdisc Hnull Hmsg Hbarrier.
  intros Hi Hlv Hl. apply wp_bind. eapply wp_mono; [eapply disable_ok; [exact Hi|lia]|]. intros [] k1 Hi1. apply wp_bind.
  eapply wp_mono; [eapply isr_run_ok; [exact Hi1|lia|done]|]. intros [] k2 (A2 & HA2 & Hi2).
  eapply wp_mono; [eapply enable_ok; [exact Hi2|lia]|]. intros [] k3 Hi3. rewrite Z.add_simpl_r in Hi3. by exists A2.
Qed.

Lemma window_interrupt l : Forall isr_ok l -> window ∅ 0 (interrupt ops ticks_per_timeslice disc l) (a_isrs kind l).
Proof using Hdisc Hnull Hmsg Hbarrier.
  intros Hl. split; [|intros t b a Hb; by rewrite lookup_empty in Hb]. intros t A k a _ _ Hn Hi. split.
  - apply interrupt_ok; [exact Hi|lia|done].
  - intros (q & Hq%isrs_waiting). apply Hn. by exists q.
Qed.

(** ** Seizing *)

Lemma enter_base win A lv (k k1 : K) a d t l : inv win A lv k a -> k_sched k1 = k_sched k -> t ∈ D -> (forall x, x ∈ l -> x ∈ D) ->
  enter k1 d t l = enter_by base d t l.
Proof.
  intros Hi Es Ht Hl. assert (Hp : forall x, x ∈ D -> thread_prio k1 x = base x).
  { intros x Hx. destruct (si_thread _ _ _ _ _ Hi x Hx) as (w & th & _ & Hth & _ & Hb & _). unfold thread_prio, prio. cbn.
    unfold kernel_get_prio, node_thread. rewrite thread_of_wait_node. cbn. rewrite Es, Hth. done. }
  destruct d; try done. unfold enter, enter_by. rewrite Hp by done. apply insert_by_ext. intros x Hx. by rewrite Hp by auto.
Qed.

Lemma path_free q v t (Q : bool -> K -> Prop) (k : K) : k_queue k !! q = Some v -> owner v = NULL -> Q true k ->
  wp (_Thread_queue_Path_acquire_critical q t) Q k.
Proof.
  intros Hv Ho HQ. apply (wp_whileM _ (fun n x s => x = q /\ s = k /\ n = 0)) with (k := 0); [|done|lia]. intros n x s (-> & -> & ->).
  apply wp_bind. eapply wp_get_queue; [exact Hv|]. rewrite Ho. by apply wp_ret.
Qed.

Lemma waiting_enter a q t x : waiting (a_enter disc base q t a) x <-> x = t \/ waiting a x.
Proof.
  unfold waiting. cbn. assert (He : forall l, x ∈ enter_by base (disc q) t l <-> x = t \/ x ∈ l).
  { intros l. unfold enter_by. destruct (disc q); rewrite ?elem_of_insert_by; set_solver. }
  split.
  - intros (q' & Hin). unfold fn_set in Hin. case_decide; [|right; by exists q']. apply He in Hin as [?|?]; [by left|right; by exists q].
  - intros [->|(q' & Hin)]; [exists q; rewrite fn_set_eq; apply He; by left|]. exists q'. unfold fn_set. case_decide; [subst|done].
    apply He. by right.
Qed.

(** The wait information of a thread that entered a queue. *)
Definition entered_wait (q sp : Z) : Thread_Wait_information :=
  {| wait_queue := q; wait_operations := disc q; wait_flags := THREAD_QUEUE_INTEND_TO_BLOCK;
     wait_return_code := STATUS_SUCCESSFUL; spare_heads := sp |}.

Lemma thread_ok_enter a q t x w th : x <> t -> thread_ok ∅ a x w th -> thread_ok {[t := false]} (a_enter disc base q t a) x w th.
Proof.
  intros Hne. unfold thread_ok. rewrite lookup_empty, lookup_singleton_ne, waiting_enter by done. cbn. rewrite fn_set_ne by done.
  intros (H1 & H2 & H3 & H4). split_and!; [done|done|tauto|]. destruct H4 as [(q' & Hin & H4)|(Hn & H4)]; [left|right; split; [naive_solver|done]].
  exists q'. split; [|done]. unfold fn_set. case_decide; [subst q'|done]. unfold enter_by. destruct (disc q); rewrite ?elem_of_insert_by; set_solver.
Qed.

(** The executing thread is ready and waits for nothing. *)
Lemma executing_ok A k a : inv ∅ A 0 k a -> let t := executing (k_sched k) in
  t ∈ D /\ ~ waiting a t /\ exists w th, k_wait k !! t = Some w /\ threads (k_sched k) !! t = Some th /\ ~ blocked th.
Proof.
  intros Hi t. destruct (si_sched _ _ _ _ _ Hi) as [q Hwf]. destruct (wf_heir _ _ _ _ _ Hwf) as (h & Hh & Hr & _).
  rewrite <- (si_executing _ _ _ _ _ Hi eq_refl) in Hh. fold t in Hh.
  assert (Ht : t ∈ D) by (rewrite <- (si_dom _ _ _ _ _ Hi); eapply elem_of_dom_2; exact Hh).
  destruct (si_thread _ _ _ _ _ Hi t Ht) as (w & th & Hw & Hth & _ & _ & Hb & _). rewrite Hh in Hth. injection Hth as <-.
  assert (Hnb : ~ blocked h) by (unfold blocked; rewrite Hr; intros Hne; by apply Hne).
  rewrite lookup_empty in Hb. split_and!; [done|tauto|]. by exists w, h.
Qed.

(** A thread may wait for the object. *)
Definition enterable (k : K) (a : sync) (t q : Z) : Prop :=
  match kind q with
  | Kind_semaphore => a_count a q = 0
  | Kind_barrier _ => True
  | Kind_message c => a_messages a q = [] /\ target_ok U V capacity (k_messages k) (d_target (a_data a)) c t
  end.

Lemma enter_by_elem d t l x : x ∈ enter_by base d t l <-> x = t \/ x ∈ l.
Proof. unfold enter_by. destruct d; rewrite ?elem_of_insert_by; set_solver. Qed.

Lemma object_enter (k k' : K) a q t x W : x ∈ QS -> changes W (k_mem k) (k_mem k') -> (forall x, x ∈ W -> no_message_word x) ->
  k_object k' = k_object k -> k_barrier k' = k_barrier k -> k_messages k' = k_messages k -> enterable k a t q ->
  object_ok k a x -> object_ok k' (a_enter disc base q t a) x.
Proof.
  intros Hx HW Hno E1 E2 E3 He Hob. destruct (decide (x = q)) as [->|Hne].
  2:{ eapply (object_frame k k' a _ x W); try done. cbn. intros y. by rewrite fn_set_ne. }
  revert He Hob. unfold enterable, object_ok. cbn. rewrite E1, E2, E3, fn_set_eq. destruct (kind q) as [| |c] eqn:Ek; [naive_solver|done|].
  intros [-> Ht] Hok. eapply message_enters; [apply enter_by_elem|done|]. eapply message_mem; [exact HW| |exact Hok].
  intros y Hy HyW. by apply (Hno y HyW q c Hx).
Qed.

Lemma enter_ok A k a q t k1 w1 hs pl W : inv ∅ A 0 k a -> t = executing (k_sched k) -> q ∈ QS -> enterable k a t q ->
  k_sched k1 = k_sched k -> k_object k1 = k_object k -> k_barrier k1 = k_barrier k -> k_messages k1 = k_messages k ->
  changes W (k_mem k) (k_mem k1) -> (forall x, x ∈ W -> no_message_word x) ->
  k_disable_level k1 = k_disable_level k -> k_timers k1 = k_timers k ->
  (forall x, x <> t -> k_wait k1 !! x = k_wait k !! x) -> k_wait k1 !! t = Some w1 ->
  tq_inv D HS QS disc k1 (fn_set (a_wait a) q (enter_by base (disc q) t (a_wait a q))) hs pl ->
  inv {[t := false]} A 0 (with_wait (<[t := entered_wait q (spare_heads w1)]> (k_wait k1)) k1) (a_enter disc base q t a).
Proof.
  intros Hi Et Hq Hc0 E1 E2 E2' E2'' HW HWx E3 E4 Ew Hw1 Hqs. destruct (executing_ok A k a Hi) as (HtD & Hnw & w & th & Hw & Hth & Hnb).
  rewrite <- Et in HtD, Hnw, Hw, Hth. pose proof Hi as [_ Hs Hd Hk Hda Hc Htd Htm Hr Hat Hl He].
  split; try (cbn; rewrite ?E1, ?E2, ?E2'', ?E3, ?E4; done).
  - exists hs, pl. eapply (tq_inv_quiet D HS QS disc k1); [|reflexivity|exact Hqs].
    split; try done. cbn. rewrite fmap_insert. apply insert_id. by rewrite lookup_fmap, Hw1.
  - by eapply stack_changes.
  - intros x Hx. destruct (Hc x Hx) as [Hb Hob]. split; [done|]. by eapply (object_enter k).
  - intros x Hx. cbn. rewrite E1. destruct (decide (x = t)) as [->|Hne].
    + exists (entered_wait q (spare_heads w1)), th. rewrite lookup_insert_eq. split_and!; [done|done|].
      destruct (Htd t Hx) as (w' & th' & _ & Hth' & _ & Hb & _). rewrite Hth in Hth'. injection Hth' as <-.
      unfold thread_ok. rewrite lookup_singleton_eq. cbn. rewrite fn_set_eq. split_and!; [done|done|naive_solver|].
      left. exists q. split_and!; [|done..]. rewrite fn_set_eq. unfold enter_by. destruct (disc q); rewrite ?elem_of_insert_by; set_solver.
    + destruct (Htd x Hx) as (w' & th' & Hw' & Hth' & Hok). exists w', th'. rewrite lookup_insert_ne, Ew by done.
      split_and!; [done|done|]. by apply thread_ok_enter.
  - intros x Hx. rewrite waiting_enter. destruct (Hr x Hx) as [?|[b Hb]]; [auto|]. by rewrite lookup_empty in Hb.
  - intros x. rewrite waiting_enter. cbn. rewrite Hat. split; [tauto|]. intros [HxA [->|Hx]]; [|done].
    destruct (Hr t HxA) as [?|[b Hb]]; [done|]. by rewrite lookup_empty in Hb.
Qed.

(** The timer of the thread is started. *)
Definition ticks_ok (ticks : option Z) : Prop := match ticks with Some n => 0 <= n < 2 ^ 32 | None => True end.

Lemma callout_ok win A lv k a q t b c : inv win A lv k a -> t ∈ D -> t ∉ A -> win !! t = Some b ->
  (waiting a t -> t ∈ a_wait a q) -> ticks_ok (timeout_ticks c) ->
  wp (enqueue_callout t c) (fun _ k' => exists A', inv win A' lv k' (a_arm q t (timeout_ticks c) a)) k.
Proof.
  intros Hi Ht HA Hwin Hq Htk. unfold enqueue_callout, a_arm. destruct (timeout_ticks c) as [n|]; [|apply wp_ret; eauto].
  unfold _Thread_queue_Add_timeout_ticks. cbn [timed]. cbn in Htk. destruct (Z.eqb_spec n WATCHDOG_NO_TIMEOUT) as [->|Hne]; cbn [negb whenM andb].
  { apply wp_ret. eauto. }
  unfold WATCHDOG_NO_TIMEOUT in Hne. pose proof Hi as [(hs & pl & Hqs) Hs Hd Hk Hda Hc Hth [Htm HAD] Hr Hat Hl He]. apply wp_on_timers.
  eapply wp_mono; [apply timer_add_law; [exact Htm|done|done|lia]|]. intros [] s' Htm'. exists ({[t]} ∪ A).
  assert (Hqs' : exists hs place, tq_inv D HS QS disc (with_timers s' k) (a_wait a) hs place)
    by (exists hs, pl; by eapply tq_inv_quiet; [|reflexivity|exact Hqs]).
  assert (HAD' : timers_ok s' ({[t]} ∪ A) /\ {[t]} ∪ A ⊆ D) by (split; [done|set_solver]).
  assert (Hr' : forall x, x ∈ {[t]} ∪ A -> waiting a x \/ is_Some (win !! x)).
  { intros x [->%elem_of_singleton|Hx]%elem_of_union; [right; by exists b|by apply Hr]. }
  case_bool_decide as E; split; try done; intros x; rewrite !elem_of_union, elem_of_singleton.
  - cbn. rewrite elem_of_union, elem_of_singleton, Hat. split; [|tauto]. intros [->|[? ?]]; [|tauto]. split; [by left|by exists q].
  - rewrite Hat. split; [tauto|]. intros [[->|?] Hw]; [|done]. by apply Hq in Hw.
Qed.

(** The end of [_Thread_queue_Enqueue]. *)
Lemma finish_ok A k a t b w : inv {[t := true]} A 1 k a -> t ∈ D -> k_wait k !! t = Some w -> b = (wait_flags w =? THREAD_QUEUE_INTEND_TO_BLOCK) ->
  wp (whenM (negb b) (_Thread_Remove_timer_and_unblock ops t)) (fun _ k' => exists A', inv ∅ A' 1 k' a)
    (if b then with_wait (<[t := with_flags THREAD_QUEUE_BLOCKED w]> (k_wait k)) k else k).
Proof.
  intros Hi Ht Hw ->. pose proof Hi as [(hs & pl & Hq) Hs Hd Hk Hda Hc Hth Htm Hr Hat Hl He].
  destruct (Hth t Ht) as (w' & th & Hw' & Hth' & H1 & H2 & H3 & H4). rewrite Hw in Hw'. injection Hw' as <-.
  rewrite lookup_singleton_eq in H3, H4. destruct H4 as [(q & Hin & Ewq & Ewo & Ef)|(Hn & _ & _ & Hf)].
  - rewrite Ef. change (THREAD_QUEUE_INTEND_TO_BLOCK =? THREAD_QUEUE_INTEND_TO_BLOCK) with true. apply wp_ret. exists A. split; try done.
    + exists hs, pl. eapply (tq_inv_quiet D HS QS disc k); [|reflexivity|exact Hq]. split; try done. cbn. rewrite fmap_insert.
      apply insert_id. by rewrite lookup_fmap, Hw.
    + intros x Hx. cbn. destruct (decide (x = t)) as [->|Hne].
      * exists (with_flags THREAD_QUEUE_BLOCKED w), th. rewrite lookup_insert_eq. split_and!; [done|done|]. unfold thread_ok.
        rewrite lookup_empty. split_and!; [done|done| |].
        -- split; [intros _; by exists q|]. intros _. by apply H3.
        -- left. by exists q.
      * destruct (Hth x Hx) as (w' & th' & Hw' & Hth2 & Hok). exists w', th'. rewrite lookup_insert_ne by done. split_and!; [done|done|].
        eapply thread_ok_ext; [|done|done|exact Hok]. by rewrite lookup_empty, lookup_singleton_ne.
    + intros x Hx. left. destruct (Hr x Hx) as [?|[b Hb]]; [done|]. apply lookup_singleton_Some in Hb as [<- _]. by exists q.
  - assert (Ef : wait_flags w = THREAD_QUEUE_READY_AGAIN) by (by destruct Hf as [?|[? _]]). rewrite Ef.
    change (THREAD_QUEUE_READY_AGAIN =? THREAD_QUEUE_INTEND_TO_BLOCK) with false. cbn [negb whenM].
    eapply wp_mono; [eapply remove_and_unblock_ok; [exact Hi|done|done|apply lookup_singleton_eq|done]|].
    intros [] k' Hi'. rewrite delete_singleton_eq in Hi'. eauto.
Qed.

(** What happens with the queue locked. *)
Lemma enqueue_locked_ok {B} A k a q t c (deadlock : M K B) (rest : Thread_queue_Context -> M K B) (Q : B -> K -> Prop) :
  inv ∅ A 0 k a -> t = executing (k_sched k) -> q ∈ QS -> enterable k a t q ->
  (forall k', inv {[t := false]} A 0 k' (a_enter disc base q t a) -> wp (rest c) Q k') ->
  wp (_Thread_Wait_claim t q;;
      acquired ← _Thread_queue_Path_acquire_critical q t;
      if negb acquired then deadlock
      else
        _Thread_Wait_claim_finalize t (disc q);;
        c ← operations_enqueue (disc q) q t c;
        set_return_code t STATUS_SUCCESSFUL;;
        _Thread_Wait_flags_set t THREAD_QUEUE_INTEND_TO_BLOCK;;
        rest c) Q k.
Proof using Hdisc Hnull Hmsg Hbarrier ticks_per_timeslice.
  intros Hi Et Hq Hc0 HQ. destruct (executing_ok A k a Hi) as (HtD & Hnw & w & th & Hw & Hth & Hnb).
  rewrite <- Et in HtD, Hnw, Hw, Hth. destruct (si_queues _ _ _ _ _ Hi) as (hs & pl & Hqs).
  destruct (ti_queue _ _ _ _ _ _ _ _ Hqs q Hq) as (v & Hv & Ho & _).
  apply wp_bind. eapply wp_wait_update; [exact Hw|]. apply wp_bind. eapply path_free; [exact Hv|exact Ho|]. cbn [negb].
  apply wp_bind. eapply wp_wait_update; [apply lookup_insert_eq|]. rewrite with_wait_twice. cbn [wait_queue wait_operations wait_flags wait_return_code spare_heads].
  set (w1 := {| wait_queue := q |}). set (k1 := with_wait (<[t := w1]> (k_wait k)) k).
  assert (Hqs1 : tq_inv D HS QS disc k1 (a_wait a) hs pl).
  { eapply (tq_inv_quiet D HS QS disc k); [|reflexivity|exact Hqs]. split; try done. cbn. rewrite fmap_insert. apply insert_id. by rewrite lookup_fmap, Hw. }
  apply wp_bind. eapply wp_mono; [eapply (enqueue_inv D HS QS disc Hdisc); [exact Hqs1|done|done|]|].
  { intros q' Hin. apply Hnw. by exists q'. }
  intros c' k2 (-> & Hstep & hs' & pl' & Hqs2).
  assert (Een : enter k1 (disc q) t (a_wait a q) = enter_by base (disc q) t (a_wait a q)).
  { apply (enter_base ∅ A 0 k k1 a); [done|done|done|intros x Hx; by apply (ti_ws _ _ _ _ _ _ _ _ Hqs q)]. }
  rewrite Een in Hqs2, Hstep.
  destruct (extract_wait k1 k2 _ t w1 Hstep (lookup_insert_eq _ _ _)) as [sp Hw2].
  apply wp_bind. eapply wp_wait_update; [exact Hw2|]. apply wp_bind. eapply wp_wait_update; [apply lookup_insert_eq|].
  rewrite with_wait_twice. apply HQ. destruct Hstep as [E1 E2 E2' E2'' E3 E4 (w0 & sp0 & Hw0 & Ew0) (W & HW & HWx)].
  eapply (enter_ok A k a q t k2 (with_spare w1 sp) _ _ W); try done.
  { intros x Hx. eapply queue_word_no_message; [|by apply HWx]. intros y [->|Hy]%enter_by_elem; [done|]. by apply (ti_ws _ _ _ _ _ _ _ _ Hqs q). }
  intros x Hne. rewrite Ew0, lookup_insert_ne by done. by apply lookup_insert_ne.
Qed.

Definition windows_ok (w : windows) : Prop := Forall isr_ok (w_callout w) /\ Forall isr_ok (w_state w) /\ Forall isr_ok (w_flags w).

(** The thread waits for [q] only. *)
Lemma entered_waiting a q t l : ~ waiting a t -> waiting (a_isrs kind l (a_enter disc base q t a)) t ->
  t ∈ a_wait (a_isrs kind l (a_enter disc base q t a)) q.
Proof.
  intros Hn (q' & Hin). pose proof (isrs_waiting _ _ _ _ _ Hin) as Hin'. cbn in Hin'. unfold fn_set in Hin'. case_decide; [by subst q'|].
  destruct Hn. by exists q'.
Qed.

(** [_Thread_queue_Enqueue] with interrupts in all windows. *)
Lemma enqueue_ok A k a q t c w : inv ∅ A 0 k a -> t = executing (k_sched k) -> t <> idle -> q ∈ QS -> enterable k a t q ->
  blocking (thread_state c) -> ticks_ok (timeout_ticks c) -> windows_ok w ->
  wp (_Thread_queue_Enqueue ops ticks_per_timeslice q (disc q) t c (interrupt ops ticks_per_timeslice disc (w_callout w))
        (interrupt ops ticks_per_timeslice disc (w_state w)) (interrupt ops ticks_per_timeslice disc (w_flags w)))
    (fun _ k' => exists A', inv ∅ A' 0 k' (a_block disc kind base q t (timeout_ticks c) w a)) k.
Proof using Hdisc Hnull Hmsg Hbarrier.
  intros Hi Et Hid Hq Hc0 Hst Htk (Hw0 & Hw1 & Hw2). destruct (executing_ok A k a Hi) as (HtD & Hnw & _). rewrite <- Et in HtD, Hnw.
  eapply (enqueue_locked_ok A k a q t (set_updates [] c)); [done..|]. intros k1 Hi1.
  assert (HtA : t ∉ A).
  { intros Hin. destruct (si_running _ _ _ _ _ Hi t Hin) as [?|[b Hb]]; [done|]. by rewrite lookup_empty in Hb. }
  apply wp_bind. eapply wp_mono; [eapply disable_ok; [exact Hi1|lia]|]. intros [] k2 Hi2.
  apply wp_bind. eapply wp_mono; [eapply interrupt_ok; [exact Hi2|lia|exact Hw0]|]. intros [] k3 (A3 & HA3 & Hi3).
  apply wp_bind. eapply wp_mono; [eapply (callout_ok _ _ _ _ _ q t);
    [exact Hi3|done|set_solver|apply lookup_singleton_eq|by apply entered_waiting|exact Htk]|]. intros [] k4 [A4 Hi4].
  apply wp_bind. eapply wp_mono; [eapply interrupt_ok; [exact Hi4|lia|exact Hw1]|]. intros [] k5 (A5 & _ & Hi5).
  apply wp_bind. cbn [thread_state set_updates].
  eapply wp_mono; [eapply block_ok; [exact Hi5|done|done|lia|apply lookup_singleton_eq|exact Hst]|]. intros ? k6 Hi6. rewrite insert_singleton_eq in Hi6.
  apply wp_bind. eapply wp_mono; [eapply interrupt_ok; [exact Hi6|lia|exact Hw2]|]. intros [] k7 (A7 & _ & Hi7).
  destruct (si_thread _ _ _ _ _ Hi7 t HtD) as (wt & _ & Hw & _). apply wp_bind. eapply wp_try_change; [exact Hw|].
  apply wp_bind. eapply wp_mono; [by eapply finish_ok|]. intros [] k8 [A8 Hi8]. apply wp_bind, wp_ret.
  apply wp_bind, wp_gets. rewrite (si_level _ _ _ _ _ Hi8). change (negb (1 =? 1)) with false. cbv iota.
  eapply wp_mono; [by eapply do_dispatch_ok|]. intros [] k9 Hi9. eauto.
Qed.

Lemma seize_ok A k a q t wait ticks w : inv ∅ A 0 k a -> t = executing (k_sched k) -> t <> idle -> q ∈ QS -> kind q = Kind_semaphore ->
  ticks_ok ticks -> windows_ok w ->
  wp (_CORE_semaphore_Seize ops ticks_per_timeslice q (disc q) t wait (wait_context ticks)
        (interrupt ops ticks_per_timeslice disc (w_callout w)) (interrupt ops ticks_per_timeslice disc (w_state w))
        (interrupt ops ticks_per_timeslice disc (w_flags w)))
    (fun r k' => to_result r = (a_seize disc kind base t q wait ticks w a).1 /\
       exists A', inv ∅ A' 0 k' (a_seize disc kind base t q wait ticks w a).2) k.
Proof using Hdisc Hnull Hmsg Hbarrier.
  intros Hi Et Hid Hq Hse Htk Hw. destruct (semaphore_count _ _ _ _ _ q Hi Hq Hse) as (Hc & Hr & Hne). unfold a_seize.
  apply wp_bind. eapply wp_get_count; [exact Hc|]. destruct (Z.eqb_spec (a_count a q) 0) as [E0|E0]; cbn [negb].
  - rewrite decide_False by tauto. destruct wait; cbn [negb].
    + apply wp_bind. eapply wp_mono; [eapply enqueue_ok; try done; unfold enterable; by rewrite Hse|]. intros [] k' Hk'. by apply wp_ret.
    + apply wp_ret. eauto.
  - rewrite decide_True by done. apply wp_bind, wp_modify, wp_ret. rewrite u32_small by lia. split; [done|]. exists A.
    apply inv_count; [done|done|done|by apply Hne|lia].
Qed.

(** ** Arriving at a barrier *)

Lemma arrive_ok A k a q at_ t ticks u w : inv ∅ A 0 k a -> t = executing (k_sched k) -> t <> idle -> q ∈ QS -> kind q = Kind_barrier at_ ->
  u ∈ STK -> ticks_ok ticks -> windows_ok w ->
  wp (_CORE_barrier_Seize ops ticks_per_timeslice q t true (wait_context ticks) u
        (interrupt ops ticks_per_timeslice disc (w_callout w)) (interrupt ops ticks_per_timeslice disc (w_state w))
        (interrupt ops ticks_per_timeslice disc (w_flags w)))
    (fun r k' => to_result r = (a_arrive disc kind base t q ticks w a).1 /\
       exists A', inv ∅ A' 0 k' (a_arrive disc kind base t q ticks w a).2) k.
Proof using Hdisc Hnull Hmsg Hbarrier.
  intros Hi Et Hid Hq Hat Hu Htk Hw. destruct (barrier_count _ _ _ _ _ q at_ Hi Hq Hat) as [Hb Hr]. unfold a_arrive, trips. rewrite Hat.
  apply wp_bind. eapply wp_get_barrier; [exact Hb|]. cbn [Attributes number_of_waiting_threads].
  destruct (_CORE_barrier_Is_automatic at_ && (u32 (a_count a q + 1) =? maximum_count at_)).
  - apply wp_bind. eapply wp_mono; [exact (barrier_flush_ok ∅ A 0 k a q at_ u (wait_context ticks) Filter_default Hi Hq Hat Hu ltac:(lia))|].
    intros r k' (_ & A' & _ & Hi'). apply wp_ret. split; [done|by exists A'].
  - apply wp_bind, wp_bind. eapply wp_get_barrier; [exact Hb|]. apply wp_modify. apply wp_bind. rewrite <- (Hbarrier q at_ Hat).
    pose proof (inv_barrier _ _ _ _ _ q at_ (u32 (a_count a q + 1)) Hi Hq Hat (u32_range _)) as Hi1.
    eapply wp_mono; [eapply (enqueue_ok A _ _ q t); [exact Hi1|done|done|done|unfold enterable; by rewrite Hat|done|exact Htk|exact Hw]|].
    intros [] k' Hk'. by apply wp_ret.
Qed.

(** ** Receiving a message *)

Lemma receive_ok A k a q cf t b p wait ticks w : inv ∅ A 0 k a -> t = executing (k_sched k) -> t <> idle -> q ∈ QS -> kind q = Kind_message cf ->
  b ∈ U -> mc_size cf <= capacity b -> p ∈ V -> ticks_ok ticks -> windows_ok w ->
  wp (_CORE_message_queue_Seize ops ticks_per_timeslice q t b p wait (wait_context ticks)
        (interrupt ops ticks_per_timeslice disc (w_callout w)) (interrupt ops ticks_per_timeslice disc (w_state w))
        (interrupt ops ticks_per_timeslice disc (w_flags w)))
    (fun r k' => to_result r = (a_receive disc kind base t q b p wait ticks w a).1 /\
       exists A', inv ∅ A' 0 k' (a_receive disc kind base t q b p wait ticks w a).2) k.
Proof using Hdisc Hnull Hmsg Hbarrier.
  intros Hi Et Hid Hq Hkq HbU Hcap HpV Htk Hw. destruct (executing_ok A k a Hi) as (HtD & Hnw & _). rewrite <- Et in HtD, Hnw.
  pose proof (message_state _ _ _ _ _ q cf Hi Hq Hkq) as Hok. pose proof Hok as [M1 _ M3 M4 M5 _]. pose proof (si_data _ _ _ _ _ Hi) as Hda. unfold a_receive.
  apply wp_bind. eapply wp_mono; [eapply (get_pending_ok D HS QS STK U V disc kind capacity Hmsg q cf Hq Hkq (eq t)); exact Hok|].
  intros n k1 (Em & Hst & Hpost). assert (Es : k_sched k1 = k_sched k) by (by destruct Hst as [-> _ _ _ _ _ _ _]).
  destruct (a_messages a q) as [|m l] eqn:El.
  - destruct Hpost as [-> Hok1]. rewrite Z.eqb_refl. cbn [negb].
    assert (Hi1 : inv ∅ A 0 k1 a).
    { rewrite <- (message_same a). eapply (inv_queue _ _ _ _ _ _ q cf); [done|done|done|done|by intros ? <-|done|by rewrite El]. }
    destruct wait; cbn [negb]; [|apply wp_ret; eauto].
    destruct (do_arguments _ _ _ _ _ _ (si_data _ _ _ _ _ Hi1) t HtD) as [wa Hwa]. apply wp_bind. eapply wp_get_arguments; [exact Hwa|].
    apply wp_bind, wp_modify. set (k2 := with_messages _ _).
    assert (Hi2 : inv ∅ A 0 k2 (a_set_data (d_set_target t b p (a_data a)) a)).
    { eapply (inv_messages _ _ _ _ _ _ (fun _ => False) (eq t) _ (a_messages a)); [exact Hi1|by apply step_arguments|by intros ? <-|by left; auto]. }
    pose proof (message_state _ _ _ _ _ q cf Hi2 Hq Hkq) as [M1' _ _ _ _ _]. apply wp_bind. eapply wp_get_control; [exact M1'|].
    apply wp_bind. cbn [operations]. eapply wp_mono; [eapply (enqueue_ok A k2 _ q t); [exact Hi2| |done|done| |done|exact Htk|exact Hw]|].
    + by rewrite Et, <- Es.
    + unfold enterable. rewrite Hkq. split; [done|]. unfold target_ok. cbn. rewrite fn_set_eq. cbn. rewrite lookup_insert_eq. split_and!; try done. by eexists.
    + intros [] k' Hk'. by apply wp_ret.
  - destruct Hpost as (Hne & pend & inact & C1 & C2 & Hm1 & Hm2 & Hp & Hs & Hss). rewrite (proj2 (Z.eqb_neq _ _) Hne). cbn [negb].
    rewrite <- Em in *. rewrite M5 in * by done. eapply wp_mono.
    + eapply (take_ok D HS QS STK U V disc kind capacity Hmsg q cf Hq Hkq (eq t) k1 (a_data a) m l); done.
    + intros r k' (-> & Hst' & Hok'). split; [done|]. exists A.
      eapply (inv_queue ∅ A 0 k k' a q cf (eq t) (d_copy m b p (a_data a)) (fn_set (a_messages a) q l));
        [done|done|done|by eapply mq_trans|by intros ? <-|intros q'; apply fn_set_ne|]. by rewrite fn_set_eq, M5.
Qed.

(** ** Programs *)

Definition sync_op_ok (o : sync_op) : Prop :=
  match o with
  | Seize q _ ticks w => q ∈ QS /\ kind q = Kind_semaphore /\ ticks_ok ticks /\ windows_ok w
  | Arrive q ticks u w => q ∈ QS /\ is_barrier q /\ u ∈ STK /\ ticks_ok ticks /\ windows_ok w
  | Receive q b p _ ticks w => q ∈ QS /\ b ∈ U /\ p ∈ V /\ (exists c, kind q = Kind_message c /\ mc_size c <= capacity b) /\
      ticks_ok ticks /\ windows_ok w
  | Call c w => call_ok c /\ Forall isr_ok w
  | Interrupt l => Forall isr_ok l
  end.

Lemma sync_exec_ok A k a o : inv ∅ A 0 k a -> sync_op_ok o ->
  wp (sync_exec ops ticks_per_timeslice disc idle o) (fun r k' => exists e A', r = (e, (a_exec disc kind base idle e o a).1) /\
    e = executing (k_sched k) /\ inv ∅ A' 0 k' (a_exec disc kind base idle e o a).2) k.
Proof using Hdisc Hnull Hmsg Hbarrier.
  intros Hi Ho. apply wp_bind, wp_gets. set (e := executing (k_sched k)).
  destruct o as [q wait ticks w|q ticks u w|q b p wait ticks w|c w|l]; cbn [a_exec].
  - destruct Ho as (Hq & Hat & Htk & Hw).
    destruct (Z.eqb_spec e idle) as [E|E]; [apply wp_ret; exists e, A; rewrite E, Z.eqb_refl; done|].
    apply wp_bind. eapply wp_mono; [eapply (seize_ok A k a q e); done|]. intros r k' (Er & A' & Hi'). apply wp_ret. exists e, A'.
    by rewrite (proj2 (Z.eqb_neq e idle) E), Er.
  - destruct Ho as (Hq & [at_ Hat] & Hu & Htk & Hw).
    destruct (Z.eqb_spec e idle) as [E|E]; [apply wp_ret; exists e, A; rewrite E, Z.eqb_refl; done|].
    apply wp_bind. eapply wp_mono; [eapply (arrive_ok A k a q at_ e); done|]. intros r k' (Er & A' & Hi'). apply wp_ret. exists e, A'.
    by rewrite (proj2 (Z.eqb_neq e idle) E), Er.
  - destruct Ho as (Hq & HbU & HpV & (cf & Hkq & Hcap) & Htk & Hw).
    destruct (Z.eqb_spec e idle) as [E|E]; [apply wp_ret; exists e, A; rewrite E, Z.eqb_refl; done|].
    apply wp_bind. eapply wp_mono; [eapply (receive_ok A k a q cf e); done|]. intros r k' (Er & A' & Hi'). apply wp_ret. exists e, A'.
    by rewrite (proj2 (Z.eqb_neq e idle) E), Er.
  - destruct Ho as [Hc Hw]. apply wp_bind. eapply wp_mono; [eapply call_exec_ok; [done|lia|done|by apply window_interrupt]|].
    intros r k' (-> & A' & _ & Hi'). apply wp_ret. exists e, A'. unfold a_call_in, woken in *. by destruct (a_call kind c a).
  - apply wp_bind. eapply wp_mono; [eapply interrupt_ok; [done|lia|done]|]. intros [] k' (A' & _ & Hi'). apply wp_ret. by exists e, A'.
Qed.

Lemma sync_run_ok A k a os : inv ∅ A 0 k a -> Forall sync_op_ok os ->
  wp (sync_run ops ticks_per_timeslice disc idle os)
    (fun es k' => exists a' A', a_run disc kind base idle a os es a' /\ inv ∅ A' 0 k' a') k.
Proof using Hdisc Hnull Hmsg Hbarrier.
  intros Hi Hos. revert A k a Hi. induction Hos as [|o os Ho Hos IH]; intros A k a Hi; cbn [sync_run].
  - apply wp_ret. exists a, A. split; [constructor|done].
  - apply wp_bind. eapply wp_mono; [by eapply sync_exec_ok|]. intros r k1 (e & A1 & -> & _ & Hi1). apply wp_bind.
    eapply wp_mono; [by eapply IH|]. intros es k2 (a' & A' & Hrun & Hi2). apply wp_ret. exists a', A'. split; [by constructor|done].
Qed.

End correctness.

Arguments si_queues {TL RB T TT D HS QS STK U V TTL ops priorities L idle disc kind capacity base win A lv k a} _.
Arguments si_thread {TL RB T TT D HS QS STK U V TTL ops priorities L idle disc kind capacity base win A lv k a} _.
Arguments si_a_timers {TL RB T TT D HS QS STK U V TTL ops priorities L idle disc kind capacity base win A lv k a} _.
End SyncInv.
