(* ===== verification/SyncCorrect.v ===== *)
(** Semaphores, barriers and message queues implement the abstract ones.

    The theorems cover every program of [SyncSpec] from the initialization
    on: what its calls return, who waits and who executes; that waiting for
    a FIFO semaphore is bounded; and that an automatic barrier lets threads
    pass when all have arrived.  A concrete kernel on the simple scheduler
    and the watchdogs shows that the hypotheses hold. *)

From S2P Require Import Prelude DList Chain RBTree Priority Scheduler SchedulerLaws SchedulerSimple Watchdog WatchdogCorrect ThreadQueue ThreadQueueInv ThreadTimer Semaphore Barrier MessageQueue SyncSpec MessageQueueInv SyncInv.

Module SyncCorrect.
Import RBTree Priority Scheduler SchedulerLaws ThreadQueue ThreadQueueInv Semaphore Barrier MessageQueue SyncSpec MessageQueueInv SyncInv.

(** * Between two operations *)

Section correctness.
Context {TL : ThreadLayout} {RB : RB_Macros} {T : Type} {TT : ThreadTimers T}.
Context (D HS QS STK U V : gset Z) {TTL : ThreadTimersLaws T D}.
Context (ops : Scheduler_Operations) (priorities : Z -> Prop) {L : SchedulerLaws ops priorities}.
Context (ticks_per_timeslice idle : Z) (disc : Z -> Thread_queue_Operations).
Context (kind : Z -> object_kind) (capacity : Z -> Z) (base : Z -> Z).
Hypothesis Hdisc : forall q, q ∈ QS -> supported (disc q).
Hypothesis Hnull : NULL ∉ D.
Hypothesis Hbarrier : forall q at_, kind q = Kind_barrier at_ -> disc q = CORE_BARRIER_TQ_OPERATIONS.
Hypothesis Hmsg : message_layout D HS QS STK U V kind.
Abbreviation K := (kernel T).
Abbreviation inv := (SyncInv.inv D HS QS STK U V ops priorities idle disc kind capacity base).
Abbreviation sync_op_ok := (SyncInv.sync_op_ok D QS STK U V idle kind capacity).
Abbreviation a_exec := (SyncSpec.a_exec disc kind base idle).
Abbreviation sync_run := (SyncSpec.sync_run ops ticks_per_timeslice disc idle).

(** Between two operations the kernel agrees with the abstract objects: the
    counts, and the queues with the waiting threads in the order of the
    discipline; a thread is blocked if and only if it is on a queue, with the
    status that its call returns; only waiting threads have running timers;
    the executing thread is the heir, a ready thread that the scheduling
    policy elects. *)
Record agrees (k : K) (a : sync) : Prop := {
  ag_count q : q ∈ QS -> object_ok U V disc kind capacity k a q;
  ag_data : data_ok D U V capacity (k_messages k) (a_data a);
  ag_queue q : q ∈ QS -> exists v, k_queue k !! q = Some v /\
    (a_wait a q = [] -> heads v = NULL) /\ (a_wait a q <> [] -> heads v <> NULL /\ content k (disc q) (heads v) (a_wait a q));
  ag_wait q : NoDup (a_wait a q) /\ forall q' t, t ∈ a_wait a q -> t ∈ D /\ (t ∈ a_wait a q' -> q' = q);
  ag_thread t : t ∈ D -> exists w th, k_wait k !! t = Some w /\ threads (k_sched k) !! t = Some th /\
    wait_return_code w = a_status a t /\ (blocked th <-> waiting a t);
  ag_timers : timers_ok (k_timers k) (a_timers a) /\ forall t, t ∈ a_timers a -> waiting a t;
  ag_executing : executing (k_sched k) = heir (k_sched k) /\ exists q, heir_correct (k_sched k) q;
}.

Lemma inv_agrees A k a : inv ∅ A 0 k a -> agrees k a.
Proof.
  intros [(hs & pl & Hq) [q0 Hwf] Hd Hk Hda Hc Hth [Htm HA] Hr Hat Hl He]. split.
  - intros q Hin. by apply Hc.
  - done.
  - intros q Hin. destruct (ti_queue _ _ _ _ _ _ _ _ Hq q Hin) as (v & Hv & Ho & Hlen & Hh & Hlast & _). exists v. split_and!; [done| |].
    + intros E. rewrite E in Hlen. destruct (hs q); done.
    + intros Hne. destruct (last (hs q)) as [h|] eqn:El; [|apply last_None in El; rewrite El in Hlen; by destruct (a_wait a q)].
      destruct (Hlast h eq_refl) as [Hcont _]. cbn in Hh. subst h. split; [|done].
      destruct (ti_hs _ _ _ _ _ _ _ _ Hq q (heads v)) as (_ & HhS & _); [by apply last_Some_elem_of|].
      destruct (ly_heads _ _ _ (rm_layout _ _ _ (ti_ready _ _ _ _ _ _ _ _ Hq)) _ HhS). unfold NULL. lia.
  - intros q. split; [apply Hq|]. intros q' t Ht. split; [by apply (ti_ws _ _ _ _ _ _ _ _ Hq q)|].
    intros Ht'. by eapply (ti_ws_unique _ _ _ _ _ _ _ _ Hq).
  - intros t Ht. destruct (Hth t Ht) as (w & th & Hw & Hth' & H1 & _ & H3 & _). exists w, th. by rewrite lookup_empty in H3.
  - assert (E : a_timers a = A).
    { apply set_eq. intros t. rewrite Hat. split; [tauto|]. intros Ht. split; [done|]. destruct (Hr t Ht) as [?|[b Hb]]; [done|].
      by rewrite lookup_empty in Hb. }
    rewrite E. split; [done|]. intros t Ht. rewrite <- E in Ht. by apply Hat.
  - split; [by apply He|]. exists q0. by eapply wf_heir_correct.
Qed.

(** ** Waiting is bounded *)

(** The surrenders of a semaphore in an operation; those in the windows of a
    call are not counted, since the call may not block or wake. *)
Definition call_gives (q : Z) (c : call) : nat :=
  match c with
  | Surrender q' _ => if decide (q' = q) then 1 else 0
  | _ => 0
  end.
Definition isr_gives (q : Z) (o : isr_op) : nat :=
  match o with
  | I_call c => call_gives q c
  | _ => 0
  end.
Definition gives (q : Z) (o : sync_op) : nat :=
  match o with
  | Seize _ _ _ _ | Arrive _ _ _ _ | Receive _ _ _ _ _ _ => 0
  | Call c _ => call_gives q c
  | Interrupt l => sum_list_with (isr_gives q) l
  end.

(** At most [n] threads are before [t] in the queue [q]. *)
Definition waits_at (a : sync) (q t n : Z) : Prop :=
  exists l1 l2, a_wait a q = l1 ++ t :: l2 /\ Z.of_nat (length l1) <= n.

Definition served (a : sync) (q t n : Z) : Prop := t ∉ a_wait a q \/ waits_at a q t n.

Lemma served_mono a q t n n' : n <= n' -> served a q t n -> served a q t n'.
Proof. intros Hn [?|(l1 & l2 & ? & ?)]; [by left|]. right. exists l1, l2. split; [done|lia]. Qed.

Lemma leave_served a q t n x st : served a q t n -> served (a_leave x st a) q t n.
Proof.
  intros [Hn|(l1 & l2 & E & Hl)].
  - left. cbn. rewrite list_elem_of_filter. tauto.
  - destruct (decide (x = t)) as [->|Hne]; [left; cbn; rewrite list_elem_of_filter; naive_solver|]. right.
    exists (filter (fun y => y <> x) l1), (filter (fun y => y <> x) l2). cbn. rewrite E, filter_app, filter_cons, decide_True by done.
    split; [done|]. pose proof (length_filter (fun y => y <> x) l1). lia.
Qed.

Lemma surrender_served a q q' t n max : served a q t n ->
  served (a_surrender q' max a).2 q t (n - Z.of_nat (if decide (q' = q) then 1 else 0)).
Proof.
  intros Hs. unfold a_surrender. destruct (a_wait a q') as [|x l] eqn:E.
  - assert (Hn : served a q t (n - Z.of_nat (if decide (q' = q) then 1 else 0))).
    { case_decide as Eq; [|by rewrite Z.sub_0_r]. subst q'. destruct Hs as [?|(l1 & l2 & E' & _)]; [by left|]. rewrite E in E'. by destruct l1. }
    by destruct (a_count a q' <? max).
  - cbn. case_decide as Eq; [subst q'|rewrite Z.sub_0_r; by apply leave_served].
    destruct Hs as [Hn|(l1 & l2 & E' & Hl)]; [left; cbn; rewrite list_elem_of_filter; tauto|]. rewrite E in E'.
    destruct l1 as [|y l1]; injection E' as -> ->; [left; cbn; rewrite list_elem_of_filter; naive_solver|].
    destruct (decide (y = t)) as [->|Hne]; [left; cbn; rewrite list_elem_of_filter; naive_solver|]. right.
    exists (filter (fun z => z <> y) l1), (filter (fun z => z <> y) l2). cbn.
    rewrite E, filter_cons, decide_False, filter_app, filter_cons, decide_True by naive_solver. split; [done|].
    pose proof (length_filter (fun z => z <> y) l1). cbn in Hl. lia.
Qed.

Lemma flush_served a q q' t n f : served a q t n -> served (a_flush q' f a) q t n.
Proof.
  unfold a_flush. generalize (a_wait a q'). intros l. revert a. induction l as [|x l IH]; intros a Hs; cbn; [done|].
  apply IH, leave_served. by destruct f.
Qed.

Lemma deliver_served a q t n b size x : served a q t n -> served (a_deliver b size a x) q t n.
Proof. intros Hs. unfold a_deliver. destruct (d_target (a_data a) x). by apply leave_served. Qed.

Lemma send_served a q t n q' b size urgent : served a q t n -> served (a_send kind q' b size urgent a).2 q t n.
Proof.
  intros Hs. unfold a_send. destruct (kind q') as [| |c]; [done|done|]. destruct (_ <? _); [done|].
  destruct (a_messages a q'), (a_wait a q'); try (by apply deliver_served); by destruct (_ <? _).
Qed.

Lemma call_served a q t n c : served a q t n -> served (a_call kind c a).2 q t (n - Z.of_nat (call_gives q c)).
Proof.
  intros Hs. destruct c as [q' max|q' u|q' u|q' u|q' u|q' b size urgent|q'|q' u|b bytes]; cbn [a_call call_gives snd]; rewrite ?Z.sub_0_r;
    try (by apply flush_served); try done.
  - pose proof (surrender_served a q q' t n max Hs). by destruct (a_surrender q' max a).
  - pose proof (send_served a q t n q' b size urgent Hs). by destruct (a_send kind q' b size urgent a).
Qed.

Lemma broadcast_served a q t n q' b size : served a q t n -> served (a_broadcast kind q' b size a) q t n.
Proof.
  intros Hs. unfold a_broadcast. destruct (kind q') as [| |c]; [done|done|]. destruct (_ <? _); [done|]. destruct (a_messages a q'); [|done].
  generalize (a_wait a q'). intros l. revert a Hs. induction l as [|x l IH]; intros a Hs; cbn; [done|]. by apply IH, deliver_served.
Qed.

Lemma isr_served a q t n o : served a q t n -> served (a_isr kind o a) q t (n - Z.of_nat (isr_gives q o)).
Proof.
  intros Hs. destruct o as [c|q' b size|x|x|x]; cbn [a_isr isr_gives]; rewrite ?Z.sub_0_r; [by apply call_served|by apply broadcast_served| |done|done].
  case_decide; [by apply leave_served|done].
Qed.

Lemma isrs_served a q t n l : served a q t n -> served (a_isrs kind l a) q t (n - Z.of_nat (sum_list_with (isr_gives q) l)).
Proof.
  revert a n. induction l as [|o l IH]; intros a n Hs; cbn; [by rewrite Z.sub_0_r|].
  rewrite Nat2Z.inj_add, Z.sub_add_distr. by apply IH, isr_served.
Qed.

Lemma enter_served a q t n q' e : disc q = Operations_FIFO -> served a q t n -> e <> t -> served (a_enter disc base q' e a) q t n.
Proof.
  intros Hd Hs Hne. unfold served, waits_at. cbn. destruct (decide (q = q')) as [<-|Hq]; [|by rewrite fn_set_ne].
  rewrite fn_set_eq. unfold enter_by. rewrite Hd. destruct Hs as [Hn|(l1 & l2 & E & Hl)].
  - left. set_solver.
  - right. exists l1, (l2 ++ [e]). rewrite E, <- app_assoc. done.
Qed.

Lemma arm_wait q t ticks a : a_wait (a_arm q t ticks a) = a_wait a.
Proof. unfold a_arm. by destruct (_ && _). Qed.

Lemma isrs_served_mono a q t n l : served a q t n -> served (a_isrs kind l a) q t n.
Proof. intros Hs. eapply served_mono; [|by apply isrs_served]. lia. Qed.

Lemma block_served a q t n q' e ticks w : disc q = Operations_FIFO -> served a q t n -> e <> t ->
  served (a_block disc kind base q' e ticks w a) q t n.
Proof.
  intros Hd Hs Hne. apply isrs_served_mono, isrs_served_mono. unfold served, waits_at. rewrite arm_wait.
  by apply isrs_served_mono, enter_served.
Qed.

Lemma call_in_served a q t n w c : served a q t n -> served (a_call_in kind w c a).2 q t (n - Z.of_nat (call_gives q c)).
Proof.
  intros Hs. unfold a_call_in. pose proof (call_served a q t n c Hs) as Hc. destruct (a_call kind c a) as [r a']. cbn in *.
  destruct (wakes kind c a); [by apply isrs_served_mono|done].
Qed.

Lemma exec_served a q t n e o : disc q = Operations_FIFO -> served a q t n -> e <> t ->
  served (a_exec e o a).2 q t (n - Z.of_nat (gives q o)).
Proof.
  intros Hd Hs Hne. destruct o as [q' wait ticks w|q' ticks u w|q' b p wait ticks w|c w|l]; cbn [SyncSpec.a_exec gives]; rewrite ?Z.sub_0_r.
  - destruct (e =? idle); [done|]. unfold a_seize. case_decide; [done|]. destruct wait; [|done]. by apply block_served.
  - destruct (e =? idle); [done|]. unfold a_arrive. destruct (trips kind q' a); [by apply flush_served|]. by apply block_served.
  - destruct (e =? idle); [done|]. unfold a_receive. destruct (a_messages a q'); [|done]. destruct wait; [|done]. by apply block_served.
  - by apply call_in_served.
  - by apply isrs_served.
Qed.

(** Only the executing thread starts to wait. *)
Lemma block_waiting q' e ticks w a t q : e <> t -> t ∈ a_wait (a_block disc kind base q' e ticks w a) q -> t ∈ a_wait a q.
Proof.
  intros Hne Hin%isrs_waiting%isrs_waiting. rewrite arm_wait in Hin. apply isrs_waiting in Hin. revert Hin. cbn.
  destruct (decide (q = q')) as [<-|Hq]; [|by rewrite fn_set_ne].
  rewrite fn_set_eq. unfold enter_by. destruct (disc q); rewrite ?elem_of_insert_by; set_solver.
Qed.

Lemma exec_waiting e o a t q : e <> t -> t ∈ a_wait (a_exec e o a).2 q -> t ∈ a_wait a q.
Proof.
  intros Hne. destruct o as [q' wait ticks w|q' ticks u w|q' b p wait ticks w|c w|l]; cbn [SyncSpec.a_exec].
  - destruct (e =? idle); [done|]. unfold a_seize. case_decide; [done|]. destruct wait; [|done]. by apply block_waiting.
  - destruct (e =? idle); [done|]. unfold a_arrive. destruct (trips kind q' a); [apply flush_waiting|].
    intros Hin. by apply block_waiting in Hin.
  - destruct (e =? idle); [done|]. unfold a_receive. destruct (a_messages a q'); [|done]. destruct wait; [|done].
    intros Hin. by apply block_waiting in Hin.
  - unfold a_call_in. destruct (a_call kind c a) as [r a'] eqn:E. cbn [snd]. intros Hin. apply (call_waiting kind c). rewrite E.
    destruct (wakes kind c a); [by apply isrs_waiting in Hin|done].
  - apply isrs_waiting.
Qed.

Lemma bounded_wait_ok A k a os q t n : inv ∅ A 0 k a -> Forall sync_op_ok os -> disc q = Operations_FIFO -> waits_at a q t n ->
  n < Z.of_nat (sum_list_with (gives q) os) ->
  exists os1 os2 es k' a' A', os = os1 ++ os2 /\ sync_run os1 k = Some (es, k') /\
    inv ∅ A' 0 k' a' /\ ~ waiting a' t.
Proof using Hdisc Hmsg Hnull Hbarrier.
  intros Hi Hos Hd. revert A k a n Hi. induction Hos as [|o os Ho Hos IH]; intros A k a n Hi Hw Hn; cbn in Hn; [destruct Hw as (l1 & l2 & _ & ?); lia|].
  destruct (proj1 (wp_run _ _ _) (sync_exec_ok D HS QS STK U V ops priorities ticks_per_timeslice idle disc kind capacity base Hdisc Hmsg Hnull Hbarrier A k a o Hi Ho)) as (r & k1 & E & e & A1 & -> & Ee & Hi1).
  assert (Hin : t ∈ a_wait a q) by (destruct Hw as (l1 & l2 & -> & _); set_solver).
  assert (Hne : e <> t).
  { intros ->. destruct (executing_ok D HS QS STK U V ops priorities idle disc kind capacity base A k a Hi) as (_ & Hnw & _). apply Hnw. exists q. by rewrite <- Ee. }
  destruct (decide (t ∈ a_wait (a_exec e o a).2 q)) as [Hin1|Hout].
  - destruct (exec_served a q t n e o Hd (or_intror Hw) Hne) as [?|Hw1]; [done|].
    destruct (IH A1 k1 _ _ Hi1 Hw1) as (os1 & os2 & es & k' & a' & A' & -> & E' & Hi' & Hnw); [lia|].
    exists (o :: os1), os2, ((e, (a_exec e o a).1) :: es), k', a', A'. split_and!; [done| |done|done].
    cbn [SyncSpec.sync_run]. unfold mbind, M_bind. by rewrite E, E'.
  - exists [o], os, [(e, (a_exec e o a).1)], k1, (a_exec e o a).2, A1. split_and!; [done| |exact Hi1|].
    + cbn [SyncSpec.sync_run]. unfold mbind, M_bind. by rewrite E.
    + intros (q' & Hq'). assert (t ∈ a_wait a q') by (by eapply exec_waiting). destruct (si_queues Hi) as (hs & pl & Hqs).
      rewrite (ti_ws_unique _ _ _ _ _ _ _ _ Hqs q' q t) in Hq' by done. done.
Qed.

(** ** Initialization *)

(** The threads are created and none waits; their heads and the objects are
    not initialized yet. *)
Record startable (k : K) : Prop := {
  sa_memory : ready_memory D HS k;
  sa_stack : stack_layout D HS STK (k_mem k);
  sa_wait t : t ∈ D -> exists w, k_wait k !! t = Some w /\ wait_queue w = NULL /\ wait_operations w = Operations_default /\
    wait_flags w = THREAD_WAIT_FLAGS_INITIAL /\ spare_heads w ∈ HS;
  sa_spare t t' w w' : t ∈ D -> t' ∈ D -> k_wait k !! t = Some w -> k_wait k !! t' = Some w' ->
    spare_heads w = spare_heads w' -> t = t';
  sa_sched : exists q, wf ops priorities idle (k_sched k) q;
  sa_dom : dom (threads (k_sched k)) = D;
  sa_threads t th : threads (k_sched k) !! t = Some th -> ~ blocked th /\ Wait_Priority th = base t;
  sa_timers : timers_ok (k_timers k) ∅;
  sa_bytes b : b ∈ U -> exists v, ms_bytes (k_messages k) !! b = Some v /\ Z.of_nat (length v) = capacity b;
  sa_size p : p ∈ V -> is_Some (ms_size (k_messages k) !! p);
  sa_arguments t : t ∈ D -> is_Some (ms_arguments (k_messages k) !! t);
  sa_level : k_disable_level k = 0;
  sa_executing : executing (k_sched k) = heir (k_sched k);
}.

Definition free_empty (m : mem) (h : Z) : Prop := Chain.chain m (h + FREE_CHAIN) [].

Lemma heads_initialize_ok ts (k : K) : ready_memory D HS k ->
  (forall t, t ∈ ts -> exists w, k_wait k !! t = Some w /\ spare_heads w ∈ HS) ->
  wp (heads_initialize ts) (fun _ k' => exists m', k' = with_mem m' k /\ ready_memory D HS k' /\
    (forall x, is_Some (k_mem k !! x) -> is_Some (m' !! x)) /\
    (forall t w, t ∈ ts -> k_wait k !! t = Some w -> free_empty m' (spare_heads w)) /\
    (forall h, h ∈ HS -> free_empty (k_mem k) h -> free_empty m' h)) k.
Proof.
  revert k. induction ts as [|t ts IH]; intros k Hrm Hts; cbn [heads_initialize].
  { apply wp_ret. exists (k_mem k). split; [by destruct k|]. split; [done|]. split; [done|]. split; [by intros ? ? ?%not_elem_of_nil|done]. }
  destruct (Hts t) as (w & Hw & Hsp); [left|]. pose proof (rm_layout _ _ _ Hrm) as Hly.
  destruct (ly_heads _ _ _ Hly _ Hsp) as (_ & _ & Hm).
  apply wp_bind. eapply wp_get_wait; [exact Hw|]. apply wp_bind, wp_bind. apply Chain.initialize_empty_spec.
  { unfold FREE_CHAIN. intros x Hx. assert (Hx' : x = spare_heads w + 72 \/ x = spare_heads w + 80 \/ x = spare_heads w + 88) by (set_unfold; lia).
    destruct Hx' as [->|[->| ->]]; apply Hm; set_solver. }
  intros m1 Hc1 Hch1. apply wp_ret. cbn in Hch1.
  assert (Hrm1 : ready_memory D HS (with_mem m1 k)).
  { exact (bookkept_ready D HS m1 _ k (with_mem m1 k) Hch1 eq_refl Hrm). }
  assert (Hkeep : forall h, h ∈ HS -> free_empty (k_mem k) h -> free_empty m1 h).
  { intros h Hh He. destruct (decide (h = spare_heads w)) as [->|Hne]; [done|]. eapply chain_changes; [exact Hch1| |exact He].
    apply (free_disjoint D HS (k_mem k) Hly h (spare_heads w) [] []); [done|done|done|set_solver..]. }
  eapply wp_mono; [apply IH; [exact Hrm1|]|].
  { intros x Hx. apply Hts. by right. }
  intros [] k' (m' & -> & Hrm' & Hdm & Hall & Hold). exists m'. split_and!; [done|done| | |].
  - intros x Hx. apply Hdm. by apply Hch1.
  - intros x wx [->|Hx]%elem_of_cons Hwx; [|by eapply Hall]. rewrite Hw in Hwx. injection Hwx as <-. by apply Hold.
  - intros h Hh He. by apply Hold, Hkeep.
Qed.

(** What the initialization of an object leaves. *)
Definition config_ok (om : gmap Z Z) (bm : gmap Z CORE_barrier_Control) (cm : gmap Z CORE_message_queue_Control) (m : mem)
    (q : Z) (c : object_config) : Prop :=
  match c with
  | Config_semaphore v => om !! q = Some v
  | Config_barrier at_ => bm !! q = Some {| Attributes := at_; number_of_waiting_threads := 0 |}
  | Config_message d c => cm !! q = Some (control_of (message_queue_operations d) c) /\
      Chain.chain m (q + PENDING_MESSAGES) [] /\ Chain.chain m (q + INACTIVE_MESSAGES) (message_nodes c)
  end.

Definition with_controls (cm : gmap Z CORE_message_queue_Control) (ms : messages) : messages :=
  {| ms_queue := cm; ms_size := ms_size ms; ms_bytes := ms_bytes ms; ms_arguments := ms_arguments ms |}.

Definition with_objects om bm qm cm m (k : K) : K :=
  with_object om (with_barrier bm (with_queue qm (with_messages (with_controls cm (k_messages k)) (with_mem m k)))).

(** What the initialization of a message queue needs. *)
Definition message_config_ok (k : K) (q : Z) (c : message_config) : Prop :=
  q ∈ QS /\ kind q = Kind_message c /\ config_fits c /\ message_startable k q c.

(** The chains of a message queue are kept by the initialization of others. *)
Lemma config_frame om bm cm om' bm' cm' W m m' q c (P : Z -> Prop) : om' !! q = om !! q -> bm' !! q = bm !! q -> cm' !! q = cm !! q ->
  (forall d cf, c = Config_message d cf -> q ∈ QS /\ kind q = Kind_message cf) ->
  changes W m m' -> (forall x, x ∈ W -> word_of QS kind P x) -> ~ P q -> config_ok om bm cm m q c -> config_ok om' bm' cm' m' q c.
Proof using Hmsg.
  intros E1 E2 E3 Hk HW Hx HP. destruct c as [v|at_|d c]; cbn; rewrite ?E1, ?E2, ?E3; [done|done|]. destruct (Hk d c eq_refl) as [Hq Hkq].
  assert (Hno : forall x, message_word q c x -> x ∉ W).
  { intros x Hxw HxW. destruct (Hx x HxW) as (q' & c' & HP' & Hq' & Hk' & Hw'). destruct (ml_word Hmsg q c x Hq Hkq Hxw) as (_ & _ & _ & Hw).
    apply (Hw q' c' Hq' Hk'); [by intros ->|done]. }
  intros (-> & C1 & C2). split; [done|]. split; (eapply chain_changes; [exact HW| |done]); intros x Hxc; apply Hno;
    unfold message_word, PENDING_MESSAGES, INACTIVE_MESSAGES in *; apply Chain.elem_of_chain_words in Hxc as [?|[?|[?|(n & Hin & ?)]]];
    try (left; lia); [by apply not_elem_of_nil in Hin|]; right; exists n; (split; [done|lia]).
Qed.

Lemma object_initialize_ok q c (k : K) : (forall d cf, c = Config_message d cf -> message_config_ok k q cf) ->
  wp (objects_initialize [(q, c)]) (fun _ k' => exists om bm cm m' W,
    k' = with_objects om bm (<[q := {| heads := NULL; owner := NULL |}]> (k_queue k)) cm m' k /\
    changes W (k_mem k) m' /\ (forall x, x ∈ W -> word_of QS kind (eq q) x) /\ config_ok om bm cm m' q c /\
    (forall q', q' <> q -> om !! q' = k_object k !! q' /\ bm !! q' = k_barrier k !! q' /\ cm !! q' = ms_queue (k_messages k) !! q') /\
    (forall q', is_Some (ms_queue (k_messages k) !! q') -> is_Some (cm !! q'))) k.
Proof using Hmsg.
  intros Hc. cbn [objects_initialize]. destruct c as [v|at_|d c].
  - apply wp_bind, wp_bind, wp_modify, wp_modify, wp_ret.
    exists (<[q := v]> (k_object k)), (k_barrier k), (ms_queue (k_messages k)), (k_mem k), []. split; [by destruct k as [? ? ? ? ? ? ? ? ? []]|].
    split; [apply changes_refl|]. split; [by intros x ?%not_elem_of_nil|]. split; [cbn; by rewrite lookup_insert_eq|]. split; [|done].
    intros q' Hne. by rewrite lookup_insert_ne.
  - apply wp_bind, wp_bind, wp_modify, wp_modify, wp_ret.
    eexists (k_object k), (<[q := _]> (k_barrier k)), (ms_queue (k_messages k)), (k_mem k), []. split; [by destruct k as [? ? ? ? ? ? ? ? ? []]|].
    split; [apply changes_refl|]. split; [by intros x ?%not_elem_of_nil|]. split; [cbn; by rewrite lookup_insert_eq|]. split; [|done].
    intros q' Hne. by rewrite lookup_insert_ne.
  - destruct (Hc d c eq_refl) as (Hq & Hk & Hfit & Hst). apply wp_bind.
    eapply wp_mono; [by eapply (initialize_ok D HS QS STK U V kind)|]. intros r k' (m' & W & -> & HW & HWx & C1 & C2). apply wp_ret.
    exists (k_object k), (k_barrier k), (<[q := control_of (message_queue_operations d) c]> (ms_queue (k_messages k))), m', W.
    split; [done|]. split; [done|]. split; [intros x Hx; exists q, c; auto|]. split; [cbn; by rewrite lookup_insert_eq|]. split.
    + intros q' Hne. by rewrite lookup_insert_ne.
    + intros q' Hq'. destruct (decide (q' = q)) as [->|Hne]; [rewrite lookup_insert_eq; by eexists|by rewrite lookup_insert_ne].
Qed.

Lemma wp_objects_cons o l (Q : unit -> K -> Prop) k :
  wp (objects_initialize [o]) (fun _ k1 => wp (objects_initialize l) Q k1) k -> wp (objects_initialize (o :: l)) Q k.
Proof.
  destruct o as [q [v|at_|d c]]; cbn [objects_initialize]; unfold wp, mbind, M_bind; [done|done|].
  by destruct (_CORE_message_queue_Initialize _ _ _ _ _ _) as [[? ?]|].
Qed.

Lemma startable_changes (k k1 : K) q c : message_startable k q c -> (forall x, is_Some (k_mem k !! x) -> is_Some (k_mem k1 !! x)) ->
  (is_Some (ms_queue (k_messages k) !! q) -> is_Some (ms_queue (k_messages k1) !! q)) ->
  ms_size (k_messages k1) = ms_size (k_messages k) -> ms_bytes (k_messages k1) = ms_bytes (k_messages k) -> message_startable k1 q c.
Proof. intros [H1 H2 H3 H4] Hm Hq E1 E2. split; [by apply Hq|auto|auto|]. by rewrite E1, E2. Qed.

Lemma objects_initialize_ok l (k : K) : NoDup l.*1 -> (forall q d c, (q, Config_message d c) ∈ l -> message_config_ok k q c) ->
  wp (objects_initialize l) (fun _ k' => exists om bm qm cm m' W, k' = with_objects om bm qm cm m' k /\
    changes W (k_mem k) m' /\ (forall x, x ∈ W -> word_of QS kind (fun q => q ∈ l.*1) x) /\
    (forall q c, (q, c) ∈ l -> config_ok om bm cm m' q c /\ qm !! q = Some {| heads := NULL; owner := NULL |}) /\
    (forall q, q ∉ l.*1 -> om !! q = k_object k !! q /\ bm !! q = k_barrier k !! q /\ qm !! q = k_queue k !! q /\ cm !! q = ms_queue (k_messages k) !! q)) k.
Proof using Hmsg.
  revert k. induction l as [|[q c] l IH]; intros k Hnd Hc.
  { apply wp_ret. exists (k_object k), (k_barrier k), (k_queue k), (ms_queue (k_messages k)), (k_mem k), []. split; [by destruct k as [? ? ? ? ? ? ? ? ? []]|].
    split; [apply changes_refl|]. split; [by intros x ?%not_elem_of_nil|]. split; [by intros ? ? ?%not_elem_of_nil|done]. }
  cbn in Hnd. apply NoDup_cons in Hnd as [Hq Hnd]. apply wp_objects_cons.
  assert (Hc1 : forall d cf, c = Config_message d cf -> message_config_ok k q cf) by (intros d cf ->; apply (Hc q d cf); left).
  eapply wp_mono; [by apply object_initialize_ok|]. intros [] k1 (om1 & bm1 & cm1 & m1 & W1 & -> & HW1 & HWx1 & Hok1 & Hout1 & Hcm1).
  eapply wp_mono; [apply IH; [done|]|].
  { intros q' d cf Hin. destruct (Hc q' d cf) as (H1 & H2 & H3 & H4); [by right|]. split_and!; [done|done|done|].
    eapply startable_changes; [exact H4|apply HW1|apply Hcm1|done|done]. }
  intros [] k2 (om & bm & qm & cm & m' & W & -> & HW & HWx & Hin & Hout). exists om, bm, qm, cm, m', (W1 ++ W). split; [done|]. split.
  { eapply changes_trans; eapply changes_mono; [|exact HW1| |exact HW]; intros x Hx; apply elem_of_app; auto. }
  split; [|split].
  - intros x [(q' & cf & <- & Hx)%HWx1|(q' & cf & Hq' & Hx)%HWx]%elem_of_app; eexists _, cf; (split; [|exact Hx]); [left|by right].
  - intros q' c' [[= -> ->]|Hl]%elem_of_cons; [|by apply Hin]. destruct (Hout q Hq) as (E1 & E2 & -> & E4). split; [|cbn; by rewrite lookup_insert_eq].
    eapply (config_frame om1 bm1 cm1 om bm cm W m1 m' q c (fun q => q ∈ l.*1)); try done. intros d cf Ec. by destruct (Hc1 d cf Ec) as (? & ? & _).
  - intros q' [Hne Hn]%not_elem_of_cons. destruct (Hout q' Hn) as (-> & -> & -> & ->). destruct (Hout1 q' Hne) as (E1 & E2 & E3). cbn.
    by rewrite E1, E2, E3, lookup_insert_ne.
Qed.

(** The abstract state after initialization. *)
Definition config_count (c : object_config) : Z :=
  match c with
  | Config_semaphore v => v
  | _ => 0
  end.

Definition data_init (k : K) : data :=
  {| d_bytes b := default [] (ms_bytes (k_messages k) !! b); d_size p := default 0 (ms_size (k_messages k) !! p);
     d_target := fun _ => (NULL, NULL) |}.

Definition a_init (l : list (Z * object_config)) (k : K) : sync :=
  {| a_count := fun q => from_option config_count 0 ((list_to_map l : gmap Z object_config) !! q);
     a_wait := fun _ => [];
     a_status := fun t => match k_wait k !! t with Some w => wait_return_code w | None => STATUS_SUCCESSFUL end;
     a_timers := ∅;
     a_messages := fun _ => [];
     a_data := data_init k |}.

(** The thread that owns heads. *)
Definition spare_place (k : K) (h : Z) : location :=
  Spare (default 0 (head (filter (fun t => spare_heads <$> k_wait k !! t = Some h) (elements D)))).

Lemma spare_place_ok k t w : startable k -> t ∈ D -> k_wait k !! t = Some w -> spare_place k (spare_heads w) = Spare t.
Proof.
  intros Hs Ht Hw. unfold spare_place. f_equal. set (l := filter _ _).
  assert (Hin : forall x, x ∈ l -> x = t).
  { intros x [Hx HD%elem_of_elements]%list_elem_of_filter. destruct (k_wait k !! x) as [wx|] eqn:Ex; [|done]. cbn in Hx.
    injection Hx as Hx. by eapply (sa_spare _ Hs). }
  assert (Ht' : t ∈ l) by (apply list_elem_of_filter; rewrite Hw; split; [done|by apply elem_of_elements]).
  destruct l as [|x l']; [by apply not_elem_of_nil in Ht'|]. cbn. apply Hin. left.
Qed.

(** The objects of an application. *)
Definition kind_of (l : list (Z * object_config)) (q : Z) : object_kind :=
  match (list_to_map l : gmap Z object_config) !! q with
  | Some (Config_barrier at_) => Kind_barrier at_
  | Some (Config_message _ c) => Kind_message c
  | _ => Kind_semaphore
  end.

Record configured (l : list (Z * object_config)) (k : K) : Prop := {
  co_queues : QS = list_to_set l.*1;
  co_nodup : NoDup l.*1;
  co_count q v : (q, Config_semaphore v) ∈ l -> 0 <= v < 2 ^ 32;
  co_message q d c : (q, Config_message d c) ∈ l -> disc q = message_queue_operations d /\ config_fits c /\ message_startable k q c;
  co_kind q : kind q = kind_of l q;
}.

Lemma boot_data (k : K) cm : startable k -> data_ok D U V capacity (with_controls cm (k_messages k)) (data_init k).
Proof.
  intros Hs. split.
  - intros b Hb. destruct (sa_bytes _ Hs b Hb) as (v & Hv & Hl). cbn. by rewrite Hv.
  - intros p Hp. destruct (sa_size _ Hs p Hp) as [v Hv]. cbn. by rewrite Hv.
  - apply Hs.
Qed.

Lemma boot_object (k : K) l om bm qm cm m' q c : configured l k -> (q, c) ∈ l -> config_ok om bm cm m' q c ->
  object_ok U V disc kind capacity (with_objects om bm qm cm m' k) (a_init l k) q.
Proof.
  intros Hco Hin Hok. pose proof (elem_of_list_to_map_1 l q c (co_nodup _ _ Hco) Hin) as El. unfold object_ok. rewrite (co_kind _ _ Hco). unfold kind_of.
  cbn. rewrite El. cbn. destruct c as [v|at_|d c]; cbn in *; [done|done|]. destruct (co_message _ _ Hco q d c Hin) as (Hd & _ & [_ _ _ Hb]).
  destruct Hok as (Hc & C1 & C2). split; cbn; [by rewrite Hd| |done|by intros x ?%not_elem_of_nil|done|by intros x ?%not_elem_of_nil].
  exists [], (message_nodes c). split_and!; [done|done|done|constructor].
Qed.

Lemma boot_inv k l om bm qm cm m' : startable k -> configured l k -> (forall x, is_Some (k_mem k !! x) -> is_Some (m' !! x)) ->
  ready_memory D HS (with_mem m' k) -> (forall t w, t ∈ elements D -> k_wait k !! t = Some w -> free_empty m' (spare_heads w)) ->
  (forall q c, (q, c) ∈ l -> config_ok om bm cm m' q c /\ qm !! q = Some {| heads := NULL; owner := NULL |}) ->
  inv ∅ ∅ 0 (with_objects om bm qm cm m' k) (a_init l k).
Proof.
  intros Hs Hco Hdm Hrm Hfree Hin. pose proof Hco as [HQ Hnd Hl _ _]. assert (Hq : forall q, q ∈ QS -> exists c, (q, c) ∈ l).
  { intros q. rewrite HQ, elem_of_list_to_set. intros ([q' c] & -> & Hqv)%list_elem_of_fmap. by exists c. }
  assert (Hnw : forall t, ~ waiting (a_init l k) t) by (intros t (q & Hx); by apply not_elem_of_nil in Hx).
  split; try apply Hs.
  - exists (fun _ => []), (spare_place k). split.
    + destruct Hrm as [R1 [S1 S2] R3]. by split; [|split|].
    + intros q Hqs. destruct (Hq q Hqs) as (c & Hv). destruct (Hin q c Hv) as [_ Hqm].
      exists {| heads := NULL; owner := NULL |}. cbn. split_and!; [done|done|done|done|done|]. intros h Hh. by apply not_elem_of_nil in Hh.
    + intros q t Ht. by apply not_elem_of_nil in Ht.
    + intros q. constructor.
    + intros q q' t Ht. by apply not_elem_of_nil in Ht.
    + intros q h Hh. by apply not_elem_of_nil in Hh.
    + intros q. constructor.
    + intros t Ht _. destruct (sa_wait _ Hs t Ht) as (w & Hw & _ & _ & _ & Hsp). exists w. cbn. split_and!; [done|done| |].
      * by apply spare_place_ok.
      * apply (Hfree t); [by apply elem_of_elements|done].
    + intros t Ht. destruct (sa_wait _ Hs t Ht) as (w & Hw & _). by eexists.
  - destruct (sa_stack _ Hs) as [K1 K2 K3]. split; [|done|done]. intros u x Hu Hx. by apply Hdm, (K1 u).
  - by apply boot_data.
  - intros q Hqs. destruct (Hq q Hqs) as (c & Hv). destruct (Hin q c Hv) as [Hom _]. split; [|by eapply boot_object].
    cbn. rewrite (elem_of_list_to_map_1 l q c Hnd Hv). cbn. destruct c; cbn; [by eapply Hl|lia|lia].
  - intros t Ht. destruct (sa_wait _ Hs t Ht) as (w & Hw & H1 & H2 & H3 & _).
    assert (is_Some (threads (k_sched k) !! t)) as [th Hth] by (apply elem_of_dom; by rewrite (sa_dom _ Hs)).
    destruct (sa_threads _ Hs t th Hth) as [Hb Hp]. exists w, th. split_and!; [done|done|]. unfold thread_ok. cbn. rewrite Hw.
    rewrite lookup_empty. split_and!; [done|done|specialize (Hnw t); tauto|]. right. split_and!; auto.
  - split; [apply Hs|set_solver].
  - intros t Ht. set_solver.
  - intros t. cbn. specialize (Hnw t). set_solver.
  - intros _. apply Hs.
Qed.

(** The words of message queues are not those of the spare heads. *)
Lemma free_frame W m m' h : changes W m m' -> (forall x, x ∈ W -> ~ heads_word HS x) -> h ∈ HS -> free_empty m h -> free_empty m' h.
Proof.
  intros HW Hno Hh. apply (chain_changes _ _ _ _ _ HW). intros x Hx HxW. apply (Hno x HxW). exists h. split; [done|].
  unfold FREE_CHAIN in Hx. apply Chain.elem_of_chain_words in Hx as [?|[?|[?|(n & Hn & _)]]]; [lia..|by apply not_elem_of_nil in Hn].
Qed.

Lemma sync_boot_ok k l : startable k -> configured l k ->
  wp (sync_boot (elements D) l) (fun _ k' => inv ∅ ∅ 0 k' (a_init l k)) k.
Proof using Hdisc Hmsg Hnull Hbarrier.
  intros Hs Hl. apply wp_bind. eapply wp_mono; [apply heads_initialize_ok; [apply Hs|]|].
  { intros t Ht%elem_of_elements. destruct (sa_wait _ Hs t Ht) as (w & Hw & _ & _ & _ & Hsp). by exists w. }
  intros [] k1 (m1 & -> & Hrm & Hdm & Hfree & _). eapply wp_mono; [apply objects_initialize_ok; [apply Hl|]|].
  { intros q d c Hin. destruct (co_message _ _ Hl q d c Hin) as (_ & Hfit & Hst). split_and!; [..|done|by eapply startable_changes].
    - rewrite (co_queues _ _ Hl), elem_of_list_to_set. by apply (list_elem_of_fmap_2 fst _ (q, Config_message d c)).
    - rewrite (co_kind _ _ Hl). unfold kind_of. by rewrite (elem_of_list_to_map_1 l q _ (co_nodup _ _ Hl) Hin). }
  intros [] k2 (om & bm & qm & cm & m' & W & -> & HW & HWx & Hin & _). apply (boot_inv k l om bm qm cm m'); [done|done| | | |done].
  - intros x Hx. by apply HW, Hdm.
  - exact (bookkept_ready D HS m' _ (with_mem m1 k) (with_mem m' k) HW eq_refl Hrm).
  - intros t w Ht Hw. eapply free_frame; [exact HW| | |by eapply Hfree].
    + intros x (q & c & _ & Hq & Hk & Hx)%HWx. by destruct (ml_word Hmsg q c x Hq Hk Hx).
    + apply elem_of_elements in Ht. destruct (sa_wait _ Hs t Ht) as (w' & Hw' & _ & _ & _ & Hsp). rewrite Hw in Hw'. by injection Hw' as <-.
Qed.
End correctness.

(** An application: threads, a scheduler, timers, configured objects, buffers
    and size variables. *)
Record application {TL : ThreadLayout} {RB : RB_Macros} {T : Type} {TT : ThreadTimers T} (D HS QS STK U V : gset Z)
    {TTL : ThreadTimersLaws T D} (ops : Scheduler_Operations) (priorities : Z -> Prop) {L : SchedulerLaws ops priorities}
    (idle : Z) (disc : Z -> Thread_queue_Operations) (capacity base : Z -> Z) (k : kernel T) (l : list (Z * object_config)) : Prop := {
  ap_startable : startable D HS STK U V ops priorities idle capacity base k;
  ap_configured : configured QS disc (kind_of l) l k;
  ap_messages : message_layout D HS QS STK U V (kind_of l);
  ap_disc q : q ∈ QS -> supported (disc q);
  ap_barrier q at_ : kind_of l q = Kind_barrier at_ -> disc q = CORE_BARRIER_TQ_OPERATIONS;
  ap_null : NULL ∉ D;
}.

Lemma boot_run {TL : ThreadLayout} {RB : RB_Macros} {T : Type} {TT : ThreadTimers T} (D HS QS STK U V : gset Z)
    {TTL : ThreadTimersLaws T D} (ops : Scheduler_Operations) (priorities : Z -> Prop) {L : SchedulerLaws ops priorities}
    (idle : Z) (disc : Z -> Thread_queue_Operations) (capacity base : Z -> Z) (k : kernel T) l :
  application D HS QS STK U V ops priorities idle disc capacity base k l ->
  exists k0, sync_boot (elements D) l k = Some (tt, k0) /\
    inv D HS QS STK U V ops priorities idle disc (kind_of l) capacity base ∅ ∅ 0 k0 (a_init l k).
Proof.
  intros [Hs Hl Hmsg Hdisc Hbar Hnull].
  destruct (proj1 (wp_run _ _ _) (sync_boot_ok D HS QS STK U V ops priorities idle disc _ capacity base Hdisc Hnull Hbar Hmsg k l Hs Hl)) as ([] & k0 & E0 & Hi0).
  by exists k0.
Qed.

(** C4. Semaphores, barriers and message queues implement the abstract ones.
    After initialization, threads seize, surrender and flush semaphores with
    FIFO or priority queues, arrive at barriers and release them, send,
    receive and drop messages, and interrupts, which may also occur while a
    thread is about to block (before and after its timer is started) or has
    left a queue and is about to be unblocked, do the same, broadcast
    messages, let timers expire, suspend and resume threads.  For every such sequence the kernel
    does not fault, the calls return what the abstract objects return, and in
    the end the kernel agrees with them: no wake-up is lost, a thread is
    blocked if and only if it is on a queue, the queues have the order of
    their discipline, the buffers hold the messages, and the thread that
    executes is the one that the scheduler elects. *)
Theorem sync_trace_refines {TL : ThreadLayout} {RB : RB_Macros} {T : Type} {TT : ThreadTimers T}
    (D HS QS STK U V : gset Z) {TTL : ThreadTimersLaws T D} (ops : Scheduler_Operations) (priorities : Z -> Prop)
    {L : SchedulerLaws ops priorities} (ticks idle : Z) (disc : Z -> Thread_queue_Operations) (capacity base : Z -> Z)
    (k : kernel T) (l : list (Z * object_config)) (os : list sync_op) :
  application D HS QS STK U V ops priorities idle disc capacity base k l ->
  Forall (sync_op_ok D QS STK U V idle (kind_of l) capacity) os ->
  exists k0 es k' a', sync_boot (elements D) l k = Some (tt, k0) /\
    sync_run ops ticks disc idle os k0 = Some (es, k') /\
    a_run disc (kind_of l) base idle (a_init l k) os es a' /\ agrees D QS U V disc (kind_of l) capacity k' a'.
Proof.
  intros Happ Hos. destruct (boot_run D HS QS STK U V ops priorities idle disc capacity base k l Happ) as (k0 & E0 & Hi0).
  destruct Happ as [Hs Hl Hmsg Hdisc Hbar Hnull].
  destruct (proj1 (wp_run _ _ _) (sync_run_ok D HS QS STK U V ops priorities ticks idle disc _ capacity base Hdisc Hmsg Hnull Hbar ∅ k0 _ os Hi0 Hos))
    as (es & k' & E & a' & A' & Hrun & Hi'). exists k0, es, k', a'. split_and!; [done|done|done|]. by eapply inv_agrees.
Qed.

(** C8. Waiting for a FIFO semaphore is bounded.  If, after any run, at most
    [n] threads are before a thread in the queue of such a semaphore, and
    more than [n] surrenders of the semaphore follow, then there is a point
    at which the thread does not wait any more and is not blocked: its call
    succeeded, the semaphore was flushed, or the wait timed out. *)
Theorem semaphore_bounded_wait {TL : ThreadLayout} {RB : RB_Macros} {T : Type} {TT : ThreadTimers T}
    (D HS QS STK U V : gset Z) {TTL : ThreadTimersLaws T D} (ops : Scheduler_Operations) (priorities : Z -> Prop)
    {L : SchedulerLaws ops priorities} (ticks idle : Z) (disc : Z -> Thread_queue_Operations) (capacity base : Z -> Z)
    (k k1 : kernel T) (l : list (Z * object_config)) (os1 os2 : list sync_op) (es1 : list (Z * result)) (a1 : sync) (q t n : Z) :
  application D HS QS STK U V ops priorities idle disc capacity base k l ->
  Forall (sync_op_ok D QS STK U V idle (kind_of l) capacity) os1 -> Forall (sync_op_ok D QS STK U V idle (kind_of l) capacity) os2 ->
  (sync_boot (elements D) l;; sync_run ops ticks disc idle os1) k = Some (es1, k1) ->
  a_run disc (kind_of l) base idle (a_init l k) os1 es1 a1 ->
  disc q = Operations_FIFO -> waits_at a1 q t n -> n < Z.of_nat (sum_list_with (gives q) os2) ->
  exists os os' es k' a', os2 = os ++ os' /\ sync_run ops ticks disc idle os k1 = Some (es, k') /\
    agrees D QS U V disc (kind_of l) capacity k' a' /\ ~ waiting a' t /\ exists th, threads (k_sched k') !! t = Some th /\ ~ blocked th.
Proof.
  intros Happ Hos1 Hos2 E1 Hrun Hd Hw Hn. destruct (boot_run D HS QS STK U V ops priorities idle disc capacity base k l Happ) as (k0 & E0 & Hi0).
  destruct Happ as [Hs Hl Hmsg Hdisc Hbar Hnull]. unfold mbind, M_bind in E1. rewrite E0 in E1.
  pose proof (sync_run_ok D HS QS STK U V ops priorities ticks idle disc _ capacity base Hdisc Hmsg Hnull Hbar ∅ k0 _ os1 Hi0 Hos1) as Hwp.
  unfold wp in Hwp. rewrite E1 in Hwp. destruct Hwp as (a1' & A1 & Hrun' & Hi1).
  rewrite (a_run_det _ _ _ _ _ _ _ _ _ Hrun' Hrun) in Hi1.
  destruct (bounded_wait_ok D HS QS STK U V ops priorities ticks idle disc _ capacity base Hdisc Hnull Hbar Hmsg A1 k1 a1 os2 q t n Hi1 Hos2 Hd Hw Hn)
    as (os & os' & es & k' & a' & A' & E & E' & Hi' & Hnw). pose proof (inv_agrees _ _ _ _ _ _ _ _ _ _ _ _ _ _ _ _ Hi') as Ha.
  exists os, os', es, k', a'. split_and!; [done|done|done|done|].
  assert (Ht : t ∈ D).
  { destruct Hw as (l1 & l2 & Ew & _). destruct (si_queues Hi1) as (hs & pl & Hq).
    apply (ti_ws _ _ _ _ _ _ _ _ Hq q). rewrite Ew. set_solver. }
  destruct (ag_thread _ _ _ _ _ _ _ _ _ Ha t Ht) as (w & th & _ & Hth & _ & Hb). exists th. split; [done|]. tauto.
Qed.

(** ** A concrete kernel

    The threads of [SchedulerLaws.sample_kernel] on the simple scheduler:
    the idle thread at 2000 and two ready threads at 2016 and 2032; a FIFO
    semaphore at 8000 with one unit, a priority semaphore at 8100, an
    automatic barrier for two threads at 8200 and one for three at 8300, and
    a message queue at 8400 for two messages of at most four bytes, with the
    buffers at 9000; the application has buffers of eight bytes at 9500 and
    9600 and size variables at 9700 and 9708. *)
Module Sample.

#[export, program] Instance layout : ThreadLayout := {| home_node t := t + 3000; node_owner n := n - 3000 |}.
Next Obligation. intros t. cbn. lia. Qed.

#[export] Instance macros : RB_Macros := Spine.macros.

Definition watchdog_of (t : Z) : Z := t + 10000.
#[export] Instance watchdog_of_inj : Inj (=) (=) watchdog_of.
Proof. unfold watchdog_of. intros x y. lia. Qed.

#[export] Instance timers : ThreadTimers (Watchdog.state unit) := ThreadTimer.watchdog_timers watchdog_of 77.

Definition D : gset Z := {[ 2000; 2016; 2032 ]}.
Definition HS : gset Z := {[ 6000; 6200; 6400 ]}.
Definition STK : gset Z := {[ 7000; 7100 ]}.
Definition barrier_for (n : Z) : object_config :=
  Config_barrier {| discipline := CORE_BARRIER_AUTOMATIC_RELEASE; maximum_count := n |}.
Definition queue_config : message_config := {| mc_pending := 2; mc_size := 4; mc_buffers := 9000 |}.
Definition U : gset Z := {[ 9500; 9600 ]}.
Definition V : gset Z := {[ 9700; 9708 ]}.
Definition capacity (b : Z) : Z := 8.
Definition objects : list (Z * object_config) :=
  [(8000, Config_semaphore 1); (8100, Config_semaphore 0); (8200, barrier_for 2); (8300, barrier_for 3);
   (8400, Config_message CORE_MESSAGE_QUEUE_DISCIPLINES_FIFO queue_config)].
Definition QS : gset Z := list_to_set objects.*1.
Definition disc (q : Z) : Thread_queue_Operations := if q =? 8100 then Operations_priority else Operations_FIFO.
Definition base (t : Z) : Z := if t =? 2000 then 3 else 1.

#[export] Instance timers_laws : ThreadTimersLaws (Watchdog.state unit) D := ThreadTimer.watchdog_timers_laws watchdog_of 77 D.

Definition ops : Scheduler_Operations := SchedulerSimple.SCHEDULER_SIMPLE_ENTRY_POINTS 1000.
#[export] Instance laws : SchedulerLaws ops (up_to 3) := SchedulerSimple.simple_laws 1000 3.

Definition ready_ops : list thread_op := [clear_state 2016 0x80000000; clear_state 2032 0x80000000; dispatch].

Definition sched : Scheduler.state :=
  match (SchedulerSimple.simple_boot 1000 2000;; run_ops ops 10 ready_ops) sample_kernel with
  | Some (_, s) => s
  | None => sample_kernel
  end.

Definition watchdog_node : RBTree_Node := {| rbe_left := NULL; rbe_right := NULL; rbe_parent := NULL; rbe_color := 0 |}.
Definition watchdogs0 : Watchdog.state unit :=
  Watchdog.Build_state
    {[ 12000 := watchdog_node; 12016 := watchdog_node; 12032 := watchdog_node ]}
    {[ 12000 := {| Watchdog.routine := 77; Watchdog.expire := 0 |}; 12016 := {| Watchdog.routine := 77; Watchdog.expire := 0 |};
       12032 := {| Watchdog.routine := 77; Watchdog.expire := 0 |} ]}
    {| Watchdog.Watchdogs := NULL; Watchdog.first := NULL |} {| Watchdog.Watchdogs := NULL; Watchdog.first := NULL |} 100 0 [] tt.
Definition watchdog_set : gset Z := {[ 12000; 12016; 12032 ]}.

Definition watchdogs : Watchdog.state unit :=
  match WatchdogCorrect.boot watchdog_set watchdogs0 with
  | Some (_, s) => s
  | None => watchdogs0
  end.

Definition heads_words : list Z := h ← [6000; 6200; 6400]; (fun i => h + i) <$> [0; 8; 16; 72; 80; 88; 96; 104].
Definition stack_words : list Z := u ← [7000; 7100]; [u; u + 8; u + 16].
Definition queue_words : list Z := [8448; 8456; 8464; 8480; 8488; 8496; 9000; 9008; 9040; 9048].
Definition node_words : list Z := t ← [2000; 2016; 2032]; [t + 3008; t + 3016].

Definition wait_information (sp : Z) : Thread_Wait_information :=
  {| wait_queue := NULL; wait_operations := Operations_default; wait_flags := THREAD_WAIT_FLAGS_INITIAL;
     wait_return_code := STATUS_SUCCESSFUL; spare_heads := sp |}.
Definition aggregation : Priority_Aggregation := {| Contributors := 99; Action_node := NULL; Action_type := PRIORITY_ACTION_INVALID |}.

Definition message_state : messages :=
  {| ms_queue := {[ 8400 := {| operations := Operations_default; maximum_pending_messages := 0; number_of_pending_messages := 0;
                               maximum_message_size := 0; message_buffers := NULL |} ]};
     ms_size := {[ 9016 := 77; 9056 := 77; 9700 := 0; 9708 := 0 ]};
     ms_bytes := {[ 9024 := [7; 7; 7; 7]; 9064 := [7; 7; 7; 7]; 9500 := [1; 2; 3; 4; 0; 0; 0; 0]; 9600 := [0; 0; 0; 0; 0; 0; 0; 0] ]};
     ms_arguments := gset_to_gmap {| wait_count := 0; return_argument := NULL; return_argument_second := NULL |} D |}.

Definition kernel : ThreadQueue.kernel (Watchdog.state unit) :=
  Build_kernel sched (list_to_map ((fun n => (n, 77)) <$> heads_words ++ node_words ++ stack_words ++ queue_words))
    {| p_nodes := {[ 5008 := idle_node; 5024 := idle_node; 5040 := idle_node ]};
       p_aggrs := {[ 6000 := aggregation; 6200 := aggregation; 6400 := aggregation ]} |}
    {[ 6000 := 0; 6200 := 0; 6400 := 0 ]}
    {[ 2000 := wait_information 6000; 2016 := wait_information 6200; 2032 := wait_information 6400 ]}
    ∅ ∅ ∅ ∅ message_state 0 watchdogs.

Lemma D_elem t : t ∈ D -> t = 2000 \/ t = 2016 \/ t = 2032.
Proof. unfold D. set_solver. Qed.
Lemma HS_elem h : h ∈ HS -> h = 6000 \/ h = 6200 \/ h = 6400.
Proof. unfold HS. set_solver. Qed.

Lemma sched_wf : exists q, wf ops (up_to 3) 2000 sched q.
Proof.
  destruct (proj1 (wp_run _ _ _) (SchedulerSimple.simple_boot_spec 1000 3 2000 sample_kernel SchedulerSimple.sample_simple_bootable))
    as ([] & s0 & E & _ & Hd & p & Hwf).
  destruct (run_ops_trace ops (up_to 3) 10 2000 ready_ops s0 _ Hwf) as (s' & q' & E' & _ & Hwf').
  { rewrite Hd. repeat constructor; cbn; set_solver. }
  exists q'. unfold sched, mbind, M_bind. by rewrite E, E'.
Qed.

Lemma watchdogs_correct : ThreadTimer.watchdogs_ok watchdog_of 77 D watchdogs ∅.
Proof.
  assert (Hb : wp (WatchdogCorrect.boot watchdog_set) (fun _ s => ThreadTimer.watchdogs_ok watchdog_of 77 D s ∅) watchdogs0).
  { apply (WatchdogCorrect.boot_spec ThreadTimer.home (ThreadTimer.rt 77)) with (react := fun _ _ _ e => ([], e)).
    - intros clock r w e. constructor.
    - intros w c. cbn. intros [[<- <-]|[_ [[<- <-]|[_ [<- <-]%lookup_singleton_Some]]%lookup_insert_Some]]%lookup_insert_Some;
        (split; [unfold watchdog_set; set_solver|done]).
    - intros w Hw. assert (Hw' : w = 12000 \/ w = 12016 \/ w = 12032) by (unfold watchdog_set in Hw; set_solver).
      destruct Hw' as [->|[->| ->]]; (split; [lia|split; by eexists]).
    - intros s' Hi Hk. split.
      + set_solver.
      + eexists. split; [exact Hi|]. cbn. split_and!; [lia|lia|]. intros t _. set_solver.
      + intros t Ht%D_elem. apply Hk. unfold watchdog_set, watchdog_of. destruct Ht as [->|[->| ->]]; set_solver. }
  unfold watchdogs. unfold wp in Hb. by destruct (WatchdogCorrect.boot watchdog_set watchdogs0) as [[[] s]|].
Qed.

Lemma sched_dom : dom (threads sched) = D.
Proof. vm_compute. reflexivity. Qed.

Lemma wait_node_eq t : wait_node t = t + 3008.
Proof. unfold wait_node, _Thread_Scheduler_get_home_node, WAIT_PRIORITY. cbn. lia. Qed.

Lemma kernel_layout : ThreadQueueInv.layout D HS (k_mem kernel).
Proof.
  split.
  - intros h Hh%HS_elem. split; [lia|]. split; [lia|]. intros i Hi.
    assert (Hi' : In i [0; 8; 16; 72; 80; 88; 96; 104]) by (by apply list_elem_of_In).
    destruct Hh as [->|[->| ->]]; repeat (destruct Hi' as [<-|Hi']; [by eexists|]); done.
  - intros t Ht%D_elem. destruct Ht as [->|[->| ->]]; (split; [rewrite wait_node_eq; lia|split; by eexists]).
  - intros h h' Hh%HS_elem Hh'%HS_elem. lia.
  - intros t t' Ht%D_elem Ht'%D_elem. rewrite !wait_node_eq. lia.
  - intros h t Hh%HS_elem Ht%D_elem. rewrite !wait_node_eq. lia.
Qed.

Lemma kernel_stacks : stack_layout D HS STK (k_mem kernel).
Proof.
  assert (HS_STK : forall u, u ∈ STK -> u = 7000 \/ u = 7100) by (unfold STK; set_solver). split.
  - intros u x Hu%HS_STK Hx. assert (Hx' : x = u \/ x = u + 8 \/ x = u + 16) by set_solver.
    destruct Hu as [->| ->], Hx' as [->|[->| ->]]; by eexists.
  - intros u h Hu%HS_STK Hh%HS_elem. lia.
  - intros u t Hu%HS_STK Ht%D_elem. rewrite wait_node_eq. lia.
Qed.

Lemma kernel_startable : startable D HS STK U V ops (up_to 3) 2000 capacity base kernel.
Proof.
  split.
  - split; [exact kernel_layout| |].
    + split.
      * intros t Ht%D_elem. destruct Ht as [->|[->| ->]]; (split; [by eexists|]); eexists; vm_compute; reflexivity.
      * intros h Hh%HS_elem. destruct Hh as [->|[->| ->]]; (split; [by eexists|]); eexists; vm_compute; reflexivity.
    + intros h Hh%HS_elem t Ht. assert (HtD : t ∈ D) by (rewrite <- sched_dom; by apply elem_of_dom).
      apply D_elem in HtD. rewrite wait_node_eq. lia.
  - exact kernel_stacks.
  - intros t Ht%D_elem. destruct Ht as [->|[->| ->]]; eexists; (split; [reflexivity|]); cbn; split_and!; try done; unfold HS; set_solver.
  - intros t t' w w' Ht%D_elem Ht'%D_elem Hw Hw'. destruct Ht as [->|[->| ->]], Ht' as [->|[->| ->]]; vm_compute in Hw, Hw';
      injection Hw as <-; injection Hw' as <-; done.
  - exact sched_wf.
  - exact sched_dom.
  - intros t th Ht. assert (HtD : t ∈ D) by (rewrite <- sched_dom; by eapply elem_of_dom_2). apply D_elem in HtD.
    destruct HtD as [->|[->| ->]]; vm_compute in Ht; injection Ht as <-; (split; [|done]); unfold blocked; cbn; intros H; by apply H.
  - exact watchdogs_correct.
  - intros b Hb. assert (Hb' : b = 9500 \/ b = 9600) by (unfold U in Hb; set_solver). destruct Hb' as [->| ->]; by eexists.
  - intros p Hp. assert (Hp' : p = 9700 \/ p = 9708) by (unfold V in Hp; set_solver). destruct Hp' as [->| ->]; by eexists.
  - intros t Ht%D_elem. destruct Ht as [->|[->| ->]]; by eexists.
  - done.
  - vm_compute. reflexivity.
Qed.

Lemma objects_message q c : kind_of objects q = Kind_message c -> q = 8400 /\ c = queue_config.
Proof.
  unfold kind_of. destruct (list_to_map objects !! q) as [o|] eqn:E; [|done]. apply elem_of_list_to_map_2 in E. unfold objects in E. set_unfold. naive_solver.
Qed.

Lemma queue_nodes n : n ∈ message_nodes queue_config -> n = 9000 \/ n = 9040.
Proof. change (message_nodes queue_config) with [9000; 9040]. set_solver. Qed.

Lemma queue_word x : message_word 8400 queue_config x -> 8448 <= x < 8504 \/ 9000 <= x < 9016 \/ 9040 <= x < 9056.
Proof. unfold message_word, PENDING_MESSAGES, INACTIVE_MESSAGES. intros [?|(n & Hn%queue_nodes & ?)]; lia. Qed.

Lemma kernel_messages : message_layout D HS QS STK U V (kind_of objects).
Proof.
  split.
  - intros q c x _ [-> ->]%objects_message Hx%queue_word. split_and!.
    + intros (h & Hh%HS_elem & ?). lia.
    + intros t Ht%D_elem. rewrite wait_node_eq. lia.
    + intros u Hu. assert (u = 7000 \/ u = 7100) by (unfold STK in Hu; set_solver). lia.
    + by intros q' c' _ [-> ->]%objects_message.
  - intros q c n _ [-> ->]%objects_message Hn%queue_nodes. unfold PENDING_MESSAGES, INACTIVE_MESSAGES, CONTENTS_SIZE, CONTENTS_BUFFER, U, V.
    split; [lia|]. split; [lia|]. split; [set_unfold; lia|]. split; [set_unfold; lia|]. intros n' Hn'%queue_nodes. lia.
  - intros q c _ [-> ->]%objects_message. cbn. split_and!; try lia. change (NoDup [9000; 9040]). repeat constructor; set_solver.
Qed.

Lemma kernel_queue : message_startable kernel 8400 queue_config.
Proof.
  split.
  - by eexists.
  - change (Chain.chain_words (8400 + PENDING_MESSAGES) []) with [8448; 8456; 8464]. intros x Hx.
    repeat (apply elem_of_cons in Hx as [->|Hx]; [by eexists|]). by apply not_elem_of_nil in Hx.
  - change (Chain.chain_words _ _) with [8480; 8488; 8496; 9000; 9008; 9040; 9048]. intros x Hx.
    repeat (apply elem_of_cons in Hx as [->|Hx]; [by eexists|]). by apply not_elem_of_nil in Hx.
  - intros n Hn%queue_nodes. destruct Hn as [->| ->]; (split; [by eexists|]); eexists; (split; [reflexivity|]); cbn; lia.
Qed.

Lemma kernel_application : application D HS QS STK U V ops (up_to 3) 2000 disc capacity base kernel objects.
Proof.
  split.
  - exact kernel_startable.
  - split; [done|cbn; repeat constructor; set_solver| | |done].
    + intros q v. unfold objects. set_unfold. intros. naive_solver lia.
    + intros q d c Hin. assert (q = 8400 /\ d = CORE_MESSAGE_QUEUE_DISCIPLINES_FIFO /\ c = queue_config) as (-> & -> & ->)
        by (unfold objects in Hin; set_unfold; naive_solver).
      split_and!; [done| |exact kernel_queue]. split_and!; vm_compute; done.
  - exact kernel_messages.
  - intros q _. unfold disc. destruct (q =? 8100); [by right|by left].
  - intros q at_. unfold disc. destruct (Z.eqb_spec q 8100) as [->|_]; [|done]. by vm_compute.
  - intros Hn%D_elem. unfold NULL in Hn. lia.
Qed.

(** Thread 2016 takes the unit of the first semaphore and waits for a second
    one, with a timeout; thread 2032 waits for the other semaphore, but an
    interrupt surrenders it before the thread blocks; it surrenders the first
    semaphore, and 2016, whose timeout expires too late, continues; then 2016
    waits again, and an interrupt flushes the semaphore; both threads meet at the barrier.  Two messages
    are sent, the second one is urgent, a third one finds the queue full; they
    are received, and a thread that waits for a message gets the next one
    before its timer is started. *)
Definition sync_ops : list sync_op :=
  [Seize 8000 true None undisturbed; Seize 8000 true (Some 5) undisturbed;
   Seize 8100 true None (Windows [] [] [I_call (Surrender 8100 1)]);
   Call (Surrender 8000 3) [I_timeout 2016]; Seize 8000 false None undisturbed;
   Interrupt [I_suspend 2032; I_timeout 2032; I_resume 2032];
   Seize 8000 true (Some 7) (Windows [] [I_timeout 2032] []); Interrupt [I_timeout 2032; I_call (Flush 8000 7100)];
   Arrive 8200 (Some 9) 7000 undisturbed; Arrive 8200 None 7000 undisturbed; Call (Release 8200 7000) [];
   Call (Send 8400 9500 3 false) []; Call (Fill 9500 [5; 6; 7; 8; 9; 0; 0; 0]) []; Call (Send 8400 9500 2 true) [];
   Call (Send 8400 9500 4 false) []; Call (Send 8400 9500 5 false) [];
   Receive 8400 9600 9700 true None undisturbed; Receive 8400 9600 9708 false None undisturbed;
   Receive 8400 9600 9700 true (Some 4) (Windows [I_call (Send 8400 9500 4 false)] [I_timeout 2016] []);
   Receive 8400 9600 9708 true None undisturbed;
   Interrupt [I_broadcast 8400 9500 1]; Call (Close 8400 7000) []].
End Sample.

Lemma sync_trace_refines_witness : exists k0 es k' a',
  sync_boot (elements Sample.D) Sample.objects Sample.kernel = Some (tt, k0) /\
  sync_run (TL := Sample.layout) (RB := Sample.macros) (TT := Sample.timers) Sample.ops 10 Sample.disc 2000 Sample.sync_ops k0 = Some (es, k') /\
  a_run Sample.disc (kind_of Sample.objects) Sample.base 2000 (a_init Sample.objects Sample.kernel) Sample.sync_ops es a' /\
  agrees (TL := Sample.layout) (RB := Sample.macros) (TT := Sample.timers) (TTL := Sample.timers_laws) Sample.D Sample.QS Sample.U Sample.V Sample.disc
    (kind_of Sample.objects) Sample.capacity k' a'.
Proof.
  apply (sync_trace_refines (TL := Sample.layout) (RB := Sample.macros) (TT := Sample.timers) (TTL := Sample.timers_laws)
    Sample.D Sample.HS Sample.QS Sample.STK Sample.U Sample.V Sample.ops (up_to 3) (L := Sample.laws) 10 2000 Sample.disc Sample.capacity Sample.base Sample.kernel Sample.objects Sample.sync_ops).
  - exact Sample.kernel_application.
  - unfold Sample.sync_ops, Sample.QS, Sample.D, Sample.STK. repeat constructor; cbn; first [lia|by eexists|set_solver|done].
Defined.

(** The results of the run: the executing thread and what its call returns. *)
Example sample_results :
  fst <$> (sync_boot (elements Sample.D) Sample.objects;;
    sync_run (TL := Sample.layout) (RB := Sample.macros) (TT := Sample.timers) Sample.ops 10 Sample.disc 2000 Sample.sync_ops) Sample.kernel
  = Some [(2016, Status STATUS_SUCCESSFUL); (2016, Nothing); (2032, Nothing); (2032, Status STATUS_SUCCESSFUL);
          (2032, Status STATUS_UNSATISFIED); (2032, Nothing); (2016, Nothing); (2032, Nothing);
          (2032, Nothing); (2016, Status STATUS_BARRIER_AUTOMATICALLY_RELEASED); (2016, Woken 0);
          (2016, Status STATUS_SUCCESSFUL); (2016, Nothing); (2016, Status STATUS_SUCCESSFUL); (2016, Status STATUS_TOO_MANY);
          (2016, Status STATUS_MESSAGE_INVALID_SIZE); (2016, Status STATUS_SUCCESSFUL); (2016, Status STATUS_SUCCESSFUL);
          (2016, Nothing); (2032, Nothing); (2016, Nothing); (2016, Nothing)].
Proof. vm_compute. reflexivity. Qed.

(** The sizes and the bytes that were received last. *)
Example sample_messages :
  (fun r => (ms_size (k_messages r.2) !! 9700, ms_size (k_messages r.2) !! 9708, ms_bytes (k_messages r.2) !! 9600)) <$>
  (sync_boot (elements Sample.D) Sample.objects;;
    sync_run (TL := Sample.layout) (RB := Sample.macros) (TT := Sample.timers) Sample.ops 10 Sample.disc 2000 Sample.sync_ops) Sample.kernel
  = Some (Some 4, Some 1, Some [5; 6; 7; 8; 0; 0; 0; 0]).
Proof. vm_compute. reflexivity. Qed.

(** A unit is taken, then a thread waits; two surrenders follow. *)
Definition first_ops : list sync_op := [Seize 8000 true None undisturbed; Seize 8000 true (Some 5) undisturbed].
Definition next_ops : list sync_op := [Interrupt [I_call (Surrender 8000 9)]; Call (Surrender 8000 9) [I_timeout 2016]].
Definition first_results : list (Z * result) := [(2016, Status STATUS_SUCCESSFUL); (2016, Nothing)].
Definition first_kernel : ThreadQueue.kernel (Watchdog.state unit) :=
  match (sync_boot (elements Sample.D) Sample.objects;;
    sync_run (TL := Sample.layout) (RB := Sample.macros) (TT := Sample.timers) Sample.ops 10 Sample.disc 2000 first_ops) Sample.kernel with
  | Some (_, k) => k
  | None => Sample.kernel
  end.

Lemma semaphore_bounded_wait_witness : exists os os' es k' a', next_ops = os ++ os' /\
  sync_run (TL := Sample.layout) (RB := Sample.macros) (TT := Sample.timers) Sample.ops 10 Sample.disc 2000 os first_kernel = Some (es, k') /\
  agrees (TL := Sample.layout) (RB := Sample.macros) (TT := Sample.timers) (TTL := Sample.timers_laws) Sample.D Sample.QS Sample.U Sample.V Sample.disc
    (kind_of Sample.objects) Sample.capacity k' a' /\
  ~ waiting a' 2016 /\ exists th, threads (k_sched k') !! 2016 = Some th /\ ~ blocked th.
Proof.
  set (a0 := a_init Sample.objects Sample.kernel).
  set (a1 := (a_exec Sample.disc (kind_of Sample.objects) Sample.base 2000 2016 (Seize 8000 true None undisturbed) a0).2).
  set (a2 := (a_exec Sample.disc (kind_of Sample.objects) Sample.base 2000 2016 (Seize 8000 true (Some 5) undisturbed) a1).2).
  apply (semaphore_bounded_wait (TL := Sample.layout) (RB := Sample.macros) (TT := Sample.timers) (TTL := Sample.timers_laws)
    Sample.D Sample.HS Sample.QS Sample.STK Sample.U Sample.V Sample.ops (up_to 3) (L := Sample.laws) 10 2000 Sample.disc Sample.capacity Sample.base Sample.kernel first_kernel
    Sample.objects first_ops next_ops first_results a2 8000 2016 0).
  - exact Sample.kernel_application.
  - unfold Sample.QS. repeat constructor; cbn; first [lia|set_solver|done].
  - unfold Sample.QS. repeat constructor; cbn; first [lia|set_solver|done].
  - vm_compute. reflexivity.
  - exact (a_run_cons _ _ _ _ a0 _ _ 2016 _ _ (a_run_cons _ _ _ _ a1 _ _ 2016 _ _ (a_run_nil _ _ _ _ a2))).
  - reflexivity.
  - exists [], []. split; [vm_compute; reflexivity|cbn; lia].
  - vm_compute. reflexivity.
Defined.
End SyncCorrect.
