(* ===== verification/BarrierCorrect.v ===== *)
(** What automatic barriers promise.

    The number that a barrier keeps is meant to be the number of threads
    that wait for it.  It is, as long as no thread waits with a timeout: then
    the barrier opens for the thread that completes the group, and only for
    it.  A thread that times out is not taken off the number, so that later
    the barrier opens too early. *)

From S2P Require Import Prelude DList Chain RBTree Priority Scheduler SchedulerLaws SchedulerSimple Watchdog WatchdogCorrect ThreadQueue ThreadQueueInv ThreadTimer Semaphore Barrier MessageQueue SyncSpec MessageQueueInv SyncInv SyncCorrect.

Module BarrierCorrect.
Import RBTree Priority Scheduler SchedulerLaws ThreadQueue ThreadQueueInv Semaphore Barrier MessageQueue SyncSpec MessageQueueInv SyncInv SyncCorrect.

(** * Counting the threads at a barrier *)

(** A thread waits for one object. *)
Definition exclusive (a : sync) : Prop :=
  (forall q, NoDup (a_wait a q)) /\ forall q q' t, t ∈ a_wait a q -> t ∈ a_wait a q' -> q = q'.

(** The number of threads at the barrier [q] is right, and none of them has a
    timeout. *)
Definition counted (q : Z) (a : sync) : Prop :=
  a_count a q = Z.of_nat (length (a_wait a q)) /\ forall t, t ∈ a_wait a q -> t ∉ a_timers a.

(** Nobody waits for the barrier [q] with a timeout. *)
Definition untimed (q : Z) (o : sync_op) : Prop :=
  match o with
  | Arrive q' ticks _ _ => q' = q -> timed ticks = false
  | _ => True
  end.

Lemma flush_wait f l a q : a_wait (foldl (a_drop f) a l) q = filter (fun x => x ∉ l) (a_wait a q).
Proof.
  revert a. induction l as [|t l IH]; intros a; cbn [foldl].
  - symmetry. induction (a_wait a q) as [|x w IHw]; [done|]. rewrite filter_cons, decide_True by set_solver. by rewrite IHw.
  - rewrite IH, drop_wait, list_filter_filter. apply list_filter_iff. set_solver.
Qed.

Lemma flush_count f l a q : a_count (foldl (a_drop f) a l) q = a_count a q.
Proof. revert a. induction l as [|t l IH]; intros a; cbn [foldl]; [done|]. rewrite IH. by destruct f. Qed.

Lemma flush_timers f l a t : t ∈ a_timers (foldl (a_drop f) a l) -> t ∈ a_timers a.
Proof.
  revert a. induction l as [|x l IH]; intros a; cbn [foldl]; [done|]. intros Hin%IH. destruct f; cbn in Hin; set_solver.
Qed.

Lemma filter_keep (P : Z -> Prop) `{!forall x, Decision (P x)} (w : list Z) : (forall x, x ∈ w -> P x) -> filter P w = w.
Proof. induction w as [|x w IH]; intros Hw; [done|]. rewrite filter_cons, decide_True by (apply Hw; left). f_equal. apply IH. set_solver. Qed.

Lemma flush_empties q f a : a_wait (a_flush q f a) q = [].
Proof.
  unfold a_flush. rewrite flush_wait. assert (Hx : forall x, x ∉ filter (fun x => x ∉ a_wait a q) (a_wait a q)).
  { intros x [? ?]%list_elem_of_filter. done. }
  destruct (filter _ _) as [|y w]; [done|]. destruct (Hx y). left.
Qed.

(** Threads that leave. *)
Lemma exclusive_sub a a' : (forall q, exists P (H : forall x, Decision (P x)), a_wait a' q = filter P (a_wait a q)) -> exclusive a -> exclusive a'.
Proof.
  intros Hf [Hnd Hu]. split.
  - intros q. destruct (Hf q) as (P & ? & ->). by apply NoDup_filter.
  - intros q q' t Ht Ht'. destruct (Hf q) as (P & ? & E). destruct (Hf q') as (P' & ? & E'). rewrite E in Ht. rewrite E' in Ht'.
    apply list_elem_of_filter in Ht as [_ Ht]. apply list_elem_of_filter in Ht' as [_ Ht']. by eapply Hu.
Qed.

Lemma leave_counted q t st a : exclusive a -> t ∉ a_wait a q -> counted q a -> exclusive (a_leave t st a) /\ counted q (a_leave t st a).
Proof.
  intros He Hn [Hc Ht]. split.
  - eapply exclusive_sub; [|exact He]. intros q'. by exists (fun x => x <> t), _.
  - unfold counted. cbn. rewrite filter_keep by (by intros x Hx ->). split; [done|]. set_solver.
Qed.

Lemma flush_counted q q' f a : exclusive a -> q' <> q -> counted q a -> exclusive (a_flush q' f a) /\ counted q (a_flush q' f a).
Proof.
  intros He Hne [Hc Ht]. split.
  - eapply exclusive_sub; [|exact He]. intros q2. exists (fun x => x ∉ a_wait a q'), _. apply flush_wait.
  - unfold counted, a_flush. rewrite flush_count, flush_wait, filter_keep.
    + split; [done|]. intros t Hin Htm%flush_timers. by apply (Ht t).
    + intros x Hx Hx'. apply Hne. by eapply He.
Qed.

Lemma release_counted q f a : exclusive a -> exclusive (a_flush q f (a_set_count q 0 a)) /\ counted q (a_flush q f (a_set_count q 0 a)).
Proof.
  intros He. split.
  - eapply exclusive_sub; [|exact He]. intros q2. exists (fun x => x ∉ a_wait a q), _. apply (flush_wait f (a_wait a q) (a_set_count q 0 a) q2).
  - unfold counted. rewrite flush_empties. split; [|set_solver]. unfold a_flush. rewrite flush_count. cbn. by rewrite fn_set_eq.
Qed.

Lemma deliver_counted q b size t a : exclusive a -> t ∉ a_wait a q -> counted q a ->
  exclusive (a_deliver b size a t) /\ counted q (a_deliver b size a t).
Proof. intros He Hn Hc. unfold a_deliver. destruct (d_target (a_data a) t). by apply leave_counted. Qed.

Lemma deliveries_counted q b size l a : exclusive a -> (forall t, t ∈ l -> t ∉ a_wait a q) -> counted q a ->
  exclusive (foldl (a_deliver b size) a l) /\ counted q (foldl (a_deliver b size) a l).
Proof.
  revert a. induction l as [|t l IH]; intros a He Hn Hc; cbn [foldl]; [done|].
  destruct (deliver_counted q b size t a) as [He1 Hc1]; [done|apply Hn; left|done|]. apply IH; [done| |done].
  intros x Hx. rewrite deliver_wait, list_elem_of_filter. intros [_ Hin]. apply (Hn x); [by right|done].
Qed.

(** The timer of a thread that does not wait for the barrier. *)
Lemma arm_counted q q' t ticks a : exclusive a -> (q' = q -> timed ticks = false) -> counted q a ->
  exclusive (a_arm q' t ticks a) /\ counted q (a_arm q' t ticks a).
Proof.
  intros He Hun [Hc Ht]. unfold a_arm. destruct (timed ticks && bool_decide (t ∈ a_wait a q')) eqn:E; [|done].
  apply andb_true_iff in E as [E1 E2%bool_decide_eq_true]. split; [done|]. split; [done|]. cbn.
  intros x Hx [->%elem_of_singleton|Hin]%elem_of_union; [|by apply (Ht x)].
  assert (q' = q) as Eq by (by eapply (proj2 He)). by rewrite (Hun Eq) in E1.
Qed.

Section counted.
Context (D QS STK U V : gset Z) (idle : Z) (kind : Z -> object_kind) (capacity : Z -> Z).
Context (q : Z) (at_ : CORE_barrier_Attributes) (Hat : kind q = Kind_barrier at_).

Lemma message_counted c a : call_ok QS STK U kind capacity c -> message_call c = true -> exclusive a -> counted q a ->
  exclusive (a_call kind c a).2 /\ counted q (a_call kind c a).2.
Proof using Hat at_.
  intros Hc Hm He Hco. destruct c as [q' max|q' u|q' u|q' u|q' u|q' b size urgent|q'|q' u|b bytes]; try done; cbn [call_ok a_call snd] in *.
  - destruct Hc as (_ & [cf Hk] & _). assert (Hne : q' <> q) by congruence. unfold a_send. rewrite Hk. destruct (_ <? size); [done|].
    destruct (a_messages a q') as [|m l], (a_wait a q') as [|t ts] eqn:E; try (by destruct (_ <? _)).
    apply deliver_counted; [done| |done]. intros Ht. apply Hne. eapply He; [|exact Ht]. rewrite E. left.
  - destruct Hc as (_ & [cf Hk] & _). apply flush_counted; [done|congruence|done].
Qed.

Lemma call_counted c a : call_ok QS STK U kind capacity c -> exclusive a -> counted q a ->
  exclusive (a_call kind c a).2 /\ counted q (a_call kind c a).2.
Proof using Hat at_.
  intros Hc He Hco. destruct (message_call c) eqn:Em; [by apply message_counted|].
  destruct c as [q' max|q' u|q' u|q' u|q' u| | | |]; try done; cbn [call_ok a_call snd] in *.
  - destruct Hc as (_ & Hq' & _). assert (Hne : q' <> q) by congruence. unfold a_surrender. destruct (a_wait a q') as [|t l] eqn:E.
    + destruct (_ <? _); [|done]. split; [done|]. unfold counted. cbn. rewrite fn_set_ne by done. done.
    + apply leave_counted; [done| |done]. intros Ht. apply Hne. eapply He; [|exact Ht]. rewrite E. left.
  - destruct Hc as (_ & Hq' & _). apply flush_counted; [done|congruence|done].
  - destruct Hc as (_ & Hq' & _). apply flush_counted; [done|congruence|done].
  - destruct (decide (q' = q)) as [->|Hne]; [by apply release_counted|]. apply flush_counted; [done|done|].
    unfold counted. cbn. by rewrite fn_set_ne.
  - destruct (decide (q' = q)) as [->|Hne]; [by apply release_counted|]. apply flush_counted; [done|done|].
    unfold counted. cbn. by rewrite fn_set_ne.
Qed.

Lemma isr_counted o a : isr_ok D QS STK U idle kind capacity o -> exclusive a -> counted q a ->
  exclusive (a_isr kind o a) /\ counted q (a_isr kind o a).
Proof using Hat at_.
  intros Ho He Hco. destruct o as [c|q' b size|t|t|t]; cbn [a_isr isr_ok] in *; [by apply call_counted| | |done|done].
  - destruct Ho as (_ & [cf Hk] & _). unfold a_broadcast. rewrite Hk. destruct (_ <? size); [done|]. destruct (a_messages a q'); [|done].
    apply deliveries_counted; [done| |done]. intros t Ht Ht'. assert (q' = q) as -> by (by eapply He). congruence.
  - case_decide as Ht; [|done]. apply leave_counted; [done| |done]. intros Hin. by apply (proj2 Hco t).
Qed.

Lemma isrs_counted l a : Forall (isr_ok D QS STK U idle kind capacity) l -> exclusive a -> counted q a ->
  exclusive (a_isrs kind l a) /\ counted q (a_isrs kind l a).
Proof using Hat at_.
  intros Hl. revert a. induction Hl as [|o l Ho Hl IH]; intros a He Hco; [done|]. cbn.
  destruct (isr_counted o a Ho He Hco). by apply IH.
Qed.
End counted.

(** * Programs *)

Section barrier.
Context {TL : ThreadLayout} {RB : RB_Macros} {T : Type} {TT : ThreadTimers T}.
Context (D HS QS STK U V : gset Z) {TTL : ThreadTimersLaws T D}.
Context (ops : Scheduler_Operations) (priorities : Z -> Prop) {L : SchedulerLaws ops priorities}.
Context (ticks_per_timeslice idle : Z) (disc : Z -> Thread_queue_Operations).
Context (kind : Z -> object_kind) (capacity : Z -> Z) (base : Z -> Z).
Hypothesis Hdisc : forall q, q ∈ QS -> supported (disc q).
Hypothesis Hnull : NULL ∉ D.
Hypothesis Hbarrier : forall q at_, kind q = Kind_barrier at_ -> disc q = CORE_BARRIER_TQ_OPERATIONS.
Hypothesis Hmsg : message_layout D HS QS STK U V kind.
Hypothesis Hsize : Z.of_nat (size D) < 2 ^ 32.
Abbreviation K := (kernel T).
Abbreviation inv := (SyncInv.inv D HS QS STK U V ops priorities idle disc kind capacity base).
Abbreviation sync_op_ok := (SyncInv.sync_op_ok D QS STK U V idle kind capacity).
Abbreviation a_exec := (SyncSpec.a_exec disc kind base idle).
Context (q : Z) (at_ : CORE_barrier_Attributes) (Hat : kind q = Kind_barrier at_).

Lemma inv_exclusive win A lv (k : K) a : inv win A lv k a -> exclusive a.
Proof using All.
  intros Hi. destruct (si_queues Hi) as (hs & pl & Hq). split; apply Hq.
Qed.

(** The number of threads fits in 32 bits. *)
Lemma arrivals_small A (k : K) a : inv ∅ A 0 k a -> counted q a -> u32 (a_count a q + 1) = Z.of_nat (length (a_wait a q)) + 1.
Proof using All.
  intros Hi [-> _]. destruct (executing_ok D HS QS STK U V ops priorities idle disc kind capacity base A k a Hi) as (He & Hnw & _).
  set (e := executing (k_sched k)) in *. destruct (si_queues Hi) as (hs & pl & Hq).
  apply u32_small. enough (length (e :: a_wait a q) <= size D)%nat by (cbn in *; lia).
  rewrite <- (size_list_to_set (C := gset Z)).
  - apply subseteq_size. intros x [->|Hx]%elem_of_list_to_set%elem_of_cons; [done|]. by apply (ti_ws _ _ _ _ _ _ _ _ Hq q).
  - constructor; [|apply Hq]. intros Hin. apply Hnw. by exists q.
Qed.

Lemma enter_counted a q' e : exclusive a -> ~ waiting a e -> (forall t, t ∈ a_timers a -> waiting a t) ->
  (q' = q -> a_count a q = Z.of_nat (length (a_wait a q)) + 1) ->
  (q' <> q -> a_count a q = Z.of_nat (length (a_wait a q))) -> (forall t, t ∈ a_wait a q -> t ∉ a_timers a) ->
  exclusive (a_enter disc base q' e a) /\ counted q (a_enter disc base q' e a).
Proof using All.
  intros [Hnd Hu] Hnw Htm Heq Hneq Hun.
  assert (Hel : forall x, x ∈ enter_by base (disc q') e (a_wait a q') <-> x = e \/ x ∈ a_wait a q').
  { intros x. unfold enter_by. destruct (disc q'); rewrite ?elem_of_insert_by; set_solver. }
  assert (Hno : forall q2, e ∉ a_wait a q2) by (intros q2 Hin; apply Hnw; by exists q2).
  split; [split|split]; cbn.
  - intros q2. unfold fn_set. case_decide; [|apply Hnd]. unfold enter_by.
    destruct (disc q'); try (apply NoDup_app; split_and!; [apply Hnd|set_solver|apply NoDup_singleton]). rewrite insert_by_Permutation. by constructor.
  - intros q1 q2 t. unfold fn_set. repeat case_decide; subst; rewrite ?Hel; try congruence.
    + intros [->|Ht] Ht'; [by apply Hno in Ht'|by eapply Hu].
    + intros Ht [->|Ht']; [by apply Hno in Ht|by eapply Hu].
    + apply Hu.
  - destruct (decide (q' = q)) as [->|Hne].
    + rewrite (Heq eq_refl). rewrite fn_set_eq. unfold enter_by. rewrite (Hbarrier q at_ Hat). cbn. rewrite length_app. cbn. lia.
    + rewrite fn_set_ne by done. by apply Hneq.
  - intros t Ht. unfold fn_set in Ht. case_decide; [|by apply Hun]. subst q'. apply Hel in Ht as [->|Ht]; [|by apply Hun].
    intros Hin. by apply Hnw, Htm.
Qed.

Lemma block_counted a q' e ticks w : windows_ok D QS STK U idle kind capacity w -> (q' = q -> timed ticks = false) ->
  exclusive (a_enter disc base q' e a) /\ counted q (a_enter disc base q' e a) -> counted q (a_block disc kind base q' e ticks w a).
Proof using All.
  intros (H0 & H1 & H2) Hun [He Hc].
  destruct (isrs_counted D QS STK U idle kind capacity q at_ Hat _ _ H0 He Hc) as [He1 Hc1].
  destruct (arm_counted q q' e ticks _ He1 Hun Hc1) as [He2 Hc2].
  destruct (isrs_counted D QS STK U idle kind capacity q at_ Hat _ _ H1 He2 Hc2) as [He3 Hc3].
  by apply (isrs_counted D QS STK U idle kind capacity q at_ Hat).
Qed.

Lemma exec_counted A (k : K) a o : inv ∅ A 0 k a -> sync_op_ok o -> untimed q o -> counted q a ->
  counted q (a_exec (executing (k_sched k)) o a).2.
Proof using All.
  intros Hi Ho Hun Hco. pose proof (inv_exclusive _ _ _ _ _ Hi) as He.
  destruct (executing_ok D HS QS STK U V ops priorities idle disc kind capacity base A k a Hi) as (_ & Hnw & _).
  assert (Htm : forall t, t ∈ a_timers a -> waiting a t) by (intros t Ht; by apply (si_a_timers Hi)).
  pose proof (arrivals_small A k a Hi Hco) as Hsm. set (e := executing (k_sched k)) in *.
  destruct o as [q' wait ticks w|q' ticks u w|q' b p wait ticks w|c w|l]; cbn [SyncSpec.a_exec untimed SyncInv.sync_op_ok] in *.
  - destruct Ho as (_ & Hq' & _ & Hw). assert (Hne : q' <> q) by congruence. destruct (e =? idle); [done|]. unfold a_seize.
    case_decide; [unfold counted; cbn; by rewrite fn_set_ne|]. destruct wait; [|done]. cbn [snd].
    apply block_counted; [done|done|]. apply enter_counted; [done|done|done|done|intros _; apply Hco|apply Hco].
  - destruct Ho as (_ & _ & _ & _ & Hw). destruct (e =? idle); [done|]. unfold a_arrive. destruct (trips kind q' a); cbn [snd].
    { destruct (decide (q' = q)) as [->|Hne]; [by apply release_counted|]. apply flush_counted; [done|done|]. unfold counted. cbn. by rewrite fn_set_ne. }
    apply block_counted; [done|done|]. apply enter_counted; [done|done|done| | |apply Hco].
    + intros ->. cbn. by rewrite fn_set_eq.
    + intros Hne. cbn. rewrite fn_set_ne by done. apply Hco.
  - destruct Ho as (_ & _ & _ & (cf & Hk & _) & _ & Hw). assert (Hne : q' <> q) by congruence. destruct (e =? idle); [done|]. unfold a_receive.
    destruct (a_messages a q'); [|done]. destruct wait; [|done]. cbn [snd].
    apply block_counted; [done|done|]. apply enter_counted; [done|done|done|done|intros _; apply Hco|apply Hco].
  - destruct Ho as [Hc Hw]. unfold a_call_in. destruct (call_counted QS STK U kind capacity q at_ Hat c a Hc He Hco) as [He1 Hc1].
    destruct (a_call kind c a) as [r a']. cbn [snd] in *. destruct (wakes kind c a); [|done].
    by apply (isrs_counted D QS STK U idle kind capacity q at_ Hat).
  - by apply (isrs_counted D QS STK U idle kind capacity q at_ Hat).
Qed.

Lemma run_counted A (k : K) a os : inv ∅ A 0 k a -> Forall sync_op_ok os -> Forall (untimed q) os -> counted q a ->
  wp (sync_run ops ticks_per_timeslice disc idle os) (fun _ k' => exists a' A', inv ∅ A' 0 k' a' /\ counted q a') k.
Proof using All.
  intros Hi Hos Hun. revert A k a Hi. induction Hos as [|o os Ho Hos IH]; intros A k a Hi Hco; cbn [sync_run].
  - apply wp_ret. eauto.
  - apply Forall_cons in Hun as [Hu Hun]. apply wp_bind.
    eapply wp_mono; [by eapply (sync_exec_ok D HS QS STK U V ops priorities ticks_per_timeslice idle disc kind capacity base Hdisc Hmsg Hnull Hbarrier)|].
    intros r k1 (e & A1 & -> & -> & Hi1). apply wp_bind. eapply wp_mono; [eapply IH; [done|exact Hi1|by eapply exec_counted]|].
    intros es k2 Hk2. by apply wp_ret.
Qed.

(** The threads that an automatic barrier lets pass. *)
Definition passed (k : K) (t : Z) : Prop := exists th, threads (k_sched k) !! t = Some th /\ ~ blocked th.

(** An arrival that opens the barrier. *)
Lemma trip_effect A (k : K) a u tk w : inv ∅ A 0 k a -> trips kind q a = true -> q ∈ QS -> u ∈ STK -> ticks_ok tk ->
  windows_ok D QS STK U idle kind capacity w -> executing (k_sched k) <> idle ->
  wp (sync_exec ops ticks_per_timeslice disc idle (Arrive q tk u w)) (fun r k' => exists a' A', inv ∅ A' 0 k' a' /\
    r = (executing (k_sched k), Status STATUS_BARRIER_AUTOMATICALLY_RELEASED) /\ a_wait a' q = [] /\ forall t, t ∈ a_wait a q -> passed k' t) k.
Proof using All.
  intros Hi Htr Hq Hu Htk Hw Hid. pose proof (inv_exclusive _ _ _ _ _ Hi) as He.
  assert (HwD : forall t, t ∈ a_wait a q -> t ∈ D).
  { destruct (si_queues Hi) as (hs & pl & Hqs). intros t Ht. by apply (ti_ws _ _ _ _ _ _ _ _ Hqs q). }
  eapply wp_mono.
  { apply (sync_exec_ok D HS QS STK U V ops priorities ticks_per_timeslice idle disc kind capacity base Hdisc Hmsg Hnull Hbarrier A k a); [done|].
    cbn. split_and!; [done|by exists at_|done|done|done]. }
  intros r k' (e & A' & -> & -> & Hi'). cbn [SyncSpec.a_exec] in *. rewrite (proj2 (Z.eqb_neq _ idle) Hid) in *.
  unfold a_arrive in *. rewrite Htr in *. cbn [fst snd] in *. eexists _, A'. split_and!; [exact Hi'|done|apply flush_empties|]. intros t Ht.
  destruct (si_thread Hi' t (HwD t Ht)) as (wt & th & _ & Hth & _ & _ & Hb & _). exists th. split; [done|].
  rewrite lookup_empty in Hb. cbn in Hb. rewrite Hb. intros (q' & Hin). unfold a_flush in Hin. rewrite flush_wait in Hin.
  apply list_elem_of_filter in Hin as [Hn Hin]. cbn in Hn, Hin. by assert (q' = q) as -> by (by eapply He).
Qed.

Lemma arrive_effect A (k : K) a u tk : inv ∅ A 0 k a -> counted q a -> q ∈ QS -> u ∈ STK -> ticks_ok tk ->
  discipline at_ = CORE_BARRIER_AUTOMATIC_RELEASE -> executing (k_sched k) <> idle ->
  wp (sync_exec ops ticks_per_timeslice disc idle (Arrive q tk u undisturbed)) (fun r k' => exists a' A', inv ∅ A' 0 k' a' /\
    r.1 = executing (k_sched k) /\
    if Z.of_nat (length (a_wait a q)) + 1 =? maximum_count at_ then
      r.2 = Status STATUS_BARRIER_AUTOMATICALLY_RELEASED /\ a_wait a' q = [] /\ forall t, t ∈ a_wait a q -> passed k' t
    else r.2 = Nothing /\ a_wait a' q = a_wait a q ++ [executing (k_sched k)]) k.
Proof using All.
  intros Hi Hco Hq Hu Htk Haut Hid. pose proof (arrivals_small A k a Hi Hco) as Hsm.
  assert (Htr : trips kind q a = (Z.of_nat (length (a_wait a q)) + 1 =? maximum_count at_)).
  { unfold trips, _CORE_barrier_Is_automatic. by rewrite Hat, Haut, Hsm. }
  destruct (_ =? maximum_count at_) eqn:E.
  { eapply wp_mono; [by eapply (trip_effect A k a u tk undisturbed)|]. intros r k' (a' & A' & Hi' & -> & Hr). by exists a', A'. }
  eapply wp_mono.
  { apply (sync_exec_ok D HS QS STK U V ops priorities ticks_per_timeslice idle disc kind capacity base Hdisc Hmsg Hnull Hbarrier A k a); [done|].
    cbn. split_and!; [done|by exists at_|done|done|by split_and!]. }
  intros r k' (e & A' & -> & -> & Hi'). cbn [SyncSpec.a_exec] in *. rewrite (proj2 (Z.eqb_neq _ idle) Hid) in *.
  unfold a_arrive in *. rewrite Htr in *. cbn [fst snd] in *. eexists _, A'. split; [exact Hi'|]. split_and!; [done|done|].
  unfold a_block. cbn [undisturbed w_callout w_state w_flags a_isrs foldl]. rewrite arm_wait. cbn. rewrite fn_set_eq.
  unfold enter_by. by rewrite (Hbarrier q at_ Hat).
Qed.

(** A timeout leaves the number of arrivals alone. *)
Lemma timeout_effect A (k : K) a t : inv ∅ A 0 k a -> t ∈ D -> t ∈ a_timers a ->
  wp (sync_exec ops ticks_per_timeslice disc idle (Interrupt [I_timeout t])) (fun r k' => exists A',
    inv ∅ A' 0 k' (a_leave t STATUS_TIMEOUT a) /\ r = (executing (k_sched k), Nothing)) k.
Proof using All.
  intros Hi Ht Htm. eapply wp_mono.
  { apply (sync_exec_ok D HS QS STK U V ops priorities ticks_per_timeslice idle disc kind capacity base Hdisc Hmsg Hnull Hbarrier A k a); [done|].
    by repeat constructor. }
  intros r k' (e & A' & -> & -> & Hi'). exists A'. cbn in *. rewrite decide_True in Hi' by done. done.
Qed.
End barrier.

(** C7. An automatic barrier for [n] threads holds the threads until [n] have
    arrived.  After any program in which no thread waits for the barrier
    with a timeout, the next thread that arrives is blocked behind those that
    wait, unless [n - 1] threads wait: then it passes, all the others are
    woken, and the barrier is empty again. *)
Theorem barrier_rendezvous {TL : ThreadLayout} {RB : RB_Macros} {T : Type} {TT : ThreadTimers T}
    (D HS QS STK U V : gset Z) {TTL : ThreadTimersLaws T D} (ops : Scheduler_Operations) (priorities : Z -> Prop)
    {L : SchedulerLaws ops priorities} (ticks idle : Z) (disc : Z -> Thread_queue_Operations) (capacity base : Z -> Z)
    (k : kernel T) (l : list (Z * object_config)) (os : list sync_op) (q : Z) (at_ : CORE_barrier_Attributes) (u : Z) (tk : option Z) :
  application D HS QS STK U V ops priorities idle disc capacity base k l -> Z.of_nat (size D) < 2 ^ 32 ->
  kind_of l q = Kind_barrier at_ -> discipline at_ = CORE_BARRIER_AUTOMATIC_RELEASE ->
  Forall (sync_op_ok D QS STK U V idle (kind_of l) capacity) os -> Forall (untimed q) os -> u ∈ STK -> ticks_ok tk ->
  exists k1 es a1, (sync_boot (elements D) l;; sync_run ops ticks disc idle os) k = Some (es, k1) /\
    agrees D QS U V disc (kind_of l) capacity k1 a1 /\
    (executing (k_sched k1) <> idle ->
     exists r k2 a2, sync_exec ops ticks disc idle (Arrive q tk u undisturbed) k1 = Some ((executing (k_sched k1), r), k2) /\
       agrees D QS U V disc (kind_of l) capacity k2 a2 /\
       if Z.of_nat (length (a_wait a1 q)) + 1 =? maximum_count at_ then
         r = Status STATUS_BARRIER_AUTOMATICALLY_RELEASED /\ a_wait a2 q = [] /\ forall t, t ∈ a_wait a1 q -> passed k2 t
       else r = Nothing /\ a_wait a2 q = a_wait a1 q ++ [executing (k_sched k1)]).
Proof.
  intros Happ Hsize Hat Haut Hos Hun Hu Htk. destruct (boot_run D HS QS STK U V ops priorities idle disc capacity base k l Happ) as (k0 & E0 & Hi0).
  destruct Happ as [Hs Hl Hmsg Hdisc Hbar Hnull].
  assert (Hq : (q, Config_barrier at_) ∈ l).
  { apply elem_of_list_to_map_2. unfold kind_of in Hat. destruct (list_to_map l !! q) as [[]|]; congruence. }
  assert (Hq' : q ∈ QS) by (rewrite (co_queues _ _ _ _ _ Hl); apply elem_of_list_to_set, list_elem_of_fmap; by exists (q, Config_barrier at_)).
  assert (Hco : counted q (a_init l k)).
  { split; [|set_solver]. cbn. rewrite (elem_of_list_to_map_1 l q _ (co_nodup _ _ _ _ _ Hl) Hq). done. }
  destruct (proj1 (wp_run _ _ _) (run_counted D HS QS STK U V ops priorities ticks idle disc _ capacity base Hdisc Hnull Hbar Hmsg Hsize q at_ Hat
    ∅ k0 _ os Hi0 Hos Hun Hco)) as (es & k1 & E1 & a1 & A1 & Hi1 & Hco1).
  exists k1, es, a1. split; [unfold mbind, M_bind; by rewrite E0|]. split; [by eapply inv_agrees|]. intros Hid.
  destruct (proj1 (wp_run _ _ _) (arrive_effect D HS QS STK U V ops priorities ticks idle disc _ capacity base Hdisc Hnull Hbar Hmsg Hsize q at_ Hat
    A1 k1 a1 u tk Hi1 Hco1 Hq' Hu Htk Haut Hid)) as ([e r] & k2 & E2 & a2 & A2 & Hi2 & Ee & Hr). cbn in Ee. subst e.
  exists r, k2, a2. split_and!; [done|by eapply inv_agrees|done].
Qed.

(** Thread 2016 arrives at the barrier for two threads; then 2032 arrives. *)
Definition one_arrives : list sync_op := [Arrive 8200 None 7000 (Windows [I_timeout 2016] [] [])].

Lemma barrier_rendezvous_witness : exists k1 es a1,
  (sync_boot (elements Sample.D) Sample.objects;;
   sync_run (TL := Sample.layout) (RB := Sample.macros) (TT := Sample.timers) Sample.ops 10 Sample.disc 2000 one_arrives) Sample.kernel = Some (es, k1) /\
  agrees (TL := Sample.layout) (RB := Sample.macros) (TT := Sample.timers) (TTL := Sample.timers_laws) Sample.D Sample.QS Sample.U Sample.V Sample.disc
    (kind_of Sample.objects) Sample.capacity k1 a1 /\
  (executing (k_sched k1) <> 2000 ->
   exists r k2 a2, sync_exec (TL := Sample.layout) (RB := Sample.macros) (TT := Sample.timers) Sample.ops 10 Sample.disc 2000
       (Arrive 8200 (Some 3) 7100 undisturbed) k1 = Some ((executing (k_sched k1), r), k2) /\
     agrees (TL := Sample.layout) (RB := Sample.macros) (TT := Sample.timers) (TTL := Sample.timers_laws) Sample.D Sample.QS Sample.U Sample.V Sample.disc
       (kind_of Sample.objects) Sample.capacity k2 a2 /\
     if Z.of_nat (length (a_wait a1 8200)) + 1 =? 2 then
       r = Status STATUS_BARRIER_AUTOMATICALLY_RELEASED /\ a_wait a2 8200 = [] /\ forall t, t ∈ a_wait a1 8200 -> passed k2 t
     else r = Nothing /\ a_wait a2 8200 = a_wait a1 8200 ++ [executing (k_sched k1)]).
Proof.
  apply (barrier_rendezvous (TL := Sample.layout) (RB := Sample.macros) (TT := Sample.timers) (TTL := Sample.timers_laws)
    Sample.D Sample.HS Sample.QS Sample.STK Sample.U Sample.V Sample.ops (up_to 3) (L := Sample.laws) 10 2000 Sample.disc Sample.capacity Sample.base Sample.kernel Sample.objects one_arrives
    8200 {| discipline := CORE_BARRIER_AUTOMATIC_RELEASE; maximum_count := 2 |} 7100 (Some 3)).
  - exact Sample.kernel_application.
  - vm_compute. reflexivity.
  - vm_compute. reflexivity.
  - reflexivity.
  - unfold Sample.QS, Sample.STK, one_arrives. repeat constructor; cbn; first [lia|by eexists|set_solver].
  - repeat constructor; cbn; tauto.
  - unfold Sample.STK. set_solver.
  - cbn. lia.
Defined.

(** C36. With timeouts an automatic barrier opens too early, because a thread
    that times out stays in the number of waiting threads.  After any program
    in which all threads that were counted at a barrier for [n] threads wait
    for it, and [n - 1] do, one of them with a timeout: when its timer
    expires, the thread leaves and [n - 2] threads wait, but the number is
    still [n - 1], so that the next thread that arrives passes and wakes the
    others: the barrier opens for [n - 1] threads. *)
Theorem barrier_timeout_opens_early {TL : ThreadLayout} {RB : RB_Macros} {T : Type} {TT : ThreadTimers T}
    (D HS QS STK U V : gset Z) {TTL : ThreadTimersLaws T D} (ops : Scheduler_Operations) (priorities : Z -> Prop)
    {L : SchedulerLaws ops priorities} (ticks idle : Z) (disc : Z -> Thread_queue_Operations) (capacity base : Z -> Z)
    (k k1 : kernel T) (l : list (Z * object_config)) (os : list sync_op) (es : list (Z * result)) (a1 : sync)
    (q : Z) (at_ : CORE_barrier_Attributes) (t u : Z) (tk : option Z) (w : windows) :
  application D HS QS STK U V ops priorities idle disc capacity base k l -> Z.of_nat (size D) < 2 ^ 32 ->
  kind_of l q = Kind_barrier at_ -> discipline at_ = CORE_BARRIER_AUTOMATIC_RELEASE -> maximum_count at_ < 2 ^ 32 ->
  Forall (sync_op_ok D QS STK U V idle (kind_of l) capacity) os ->
  (sync_boot (elements D) l;; sync_run ops ticks disc idle os) k = Some (es, k1) ->
  a_run disc (kind_of l) base idle (a_init l k) os es a1 ->
  t ∈ a_wait a1 q -> t ∈ a_timers a1 -> a_count a1 q = Z.of_nat (length (a_wait a1 q)) ->
  Z.of_nat (length (a_wait a1 q)) = maximum_count at_ - 1 ->
  u ∈ STK -> ticks_ok tk -> windows_ok D QS STK U idle (kind_of l) capacity w ->
  exists e k2 a2, sync_exec ops ticks disc idle (Interrupt [I_timeout t]) k1 = Some ((e, Nothing), k2) /\
    agrees D QS U V disc (kind_of l) capacity k2 a2 /\ Z.of_nat (length (a_wait a2 q)) = maximum_count at_ - 2 /\
    (executing (k_sched k2) <> idle ->
     exists k3 a3, sync_exec ops ticks disc idle (Arrive q tk u w) k2
         = Some ((executing (k_sched k2), Status STATUS_BARRIER_AUTOMATICALLY_RELEASED), k3) /\
       agrees D QS U V disc (kind_of l) capacity k3 a3 /\ a_wait a3 q = [] /\ forall x, x ∈ a_wait a2 q -> passed k3 x).
Proof.
  intros Happ Hsize Hat Haut Hmax Hos E1 Hrun Ht Htm Hc Hlen Hu Htk Hw.
  destruct (boot_run D HS QS STK U V ops priorities idle disc capacity base k l Happ) as (k0 & E0 & Hi0).
  destruct Happ as [Hs Hl Hmsg Hdisc Hbar Hnull]. unfold mbind, M_bind in E1. rewrite E0 in E1.
  pose proof (sync_run_ok D HS QS STK U V ops priorities ticks idle disc _ capacity base Hdisc Hmsg Hnull Hbar ∅ k0 _ os Hi0 Hos) as Hwp.
  unfold wp in Hwp. rewrite E1 in Hwp. destruct Hwp as (a1' & A1 & Hrun' & Hi1). rewrite (a_run_det _ _ _ _ _ _ _ _ _ Hrun' Hrun) in Hi1.
  destruct (si_queues Hi1) as (hs & pl & Hqs). destruct (ti_ws _ _ _ _ _ _ _ _ Hqs q t Ht) as [HqS HtD].
  destruct (proj1 (wp_run _ _ _) (timeout_effect D HS QS STK U V ops priorities ticks idle disc _ capacity base Hdisc Hnull Hbar Hmsg Hsize q at_ Hat
    A1 k1 a1 t Hi1 HtD Htm)) as (r & k2 & E2 & A2 & Hi2 & ->).
  exists (executing (k_sched k1)), k2, (a_leave t STATUS_TIMEOUT a1). split; [done|]. split; [by eapply inv_agrees|]. split.
  { pose proof (ti_ws_nodup _ _ _ _ _ _ _ _ Hqs q) as Hnd. destruct (list_elem_of_split _ _ Ht) as (l1 & l2 & El). cbn. rewrite El in *.
    apply NoDup_app in Hnd as (_ & Hn1 & [Hn2 _]%NoDup_cons). rewrite filter_app, filter_cons, decide_False by naive_solver.
    rewrite !filter_keep by (intros x Hx ->; set_solver). rewrite length_app in *. cbn in Hlen. lia. }
  intros Hid. assert (Htr : trips (kind_of l) q (a_leave t STATUS_TIMEOUT a1) = true).
  { unfold trips, _CORE_barrier_Is_automatic. rewrite Hat, Haut. cbn. rewrite Hc, Hlen, u32_small by lia. apply Z.eqb_eq. lia. }
  destruct (proj1 (wp_run _ _ _) (trip_effect D HS QS STK U V ops priorities ticks idle disc _ capacity base Hdisc Hnull Hbar Hmsg Hsize q at_ Hat
    A2 k2 _ u tk w Hi2 Htr HqS Hu Htk Hw Hid)) as (r & k3 & E3 & a3 & A3 & Hi3 & -> & Hr).
  exists k3, a3. split_and!; [done|by eapply inv_agrees|apply Hr|apply Hr].
Qed.

(** Both threads wait at the barrier for three threads, the first one with a
    timeout. *)
Definition two_arrive : list sync_op := [Arrive 8300 (Some 5) 7000 undisturbed; Arrive 8300 None 7000 undisturbed].

Lemma barrier_timeout_opens_early_witness :
  let k1 := match (sync_boot (elements Sample.D) Sample.objects;;
      sync_run (TL := Sample.layout) (RB := Sample.macros) (TT := Sample.timers) Sample.ops 10 Sample.disc 2000 two_arrive) Sample.kernel with
    | Some (_, k) => k
    | None => Sample.kernel
    end in
  exists e k2 a2, sync_exec (TL := Sample.layout) (RB := Sample.macros) (TT := Sample.timers) Sample.ops 10 Sample.disc 2000
      (Interrupt [I_timeout 2016]) k1 = Some ((e, Nothing), k2) /\
    agrees (TL := Sample.layout) (RB := Sample.macros) (TT := Sample.timers) (TTL := Sample.timers_laws) Sample.D Sample.QS Sample.U Sample.V Sample.disc
      (kind_of Sample.objects) Sample.capacity k2 a2 /\ Z.of_nat (length (a_wait a2 8300)) = 1 /\
    (executing (k_sched k2) <> 2000 ->
     exists k3 a3, sync_exec (TL := Sample.layout) (RB := Sample.macros) (TT := Sample.timers) Sample.ops 10 Sample.disc 2000
         (Arrive 8300 None 7000 undisturbed) k2
         = Some ((executing (k_sched k2), Status STATUS_BARRIER_AUTOMATICALLY_RELEASED), k3) /\
       agrees (TL := Sample.layout) (RB := Sample.macros) (TT := Sample.timers) (TTL := Sample.timers_laws) Sample.D Sample.QS Sample.U Sample.V Sample.disc
         (kind_of Sample.objects) Sample.capacity k3 a3 /\ a_wait a3 8300 = [] /\ forall x, x ∈ a_wait a2 8300 -> passed k3 x).
Proof.
  set (a0 := a_init Sample.objects Sample.kernel).
  set (a1 := (a_exec Sample.disc (kind_of Sample.objects) Sample.base 2000 2016 (Arrive 8300 (Some 5) 7000 undisturbed) a0).2).
  set (a2 := (a_exec Sample.disc (kind_of Sample.objects) Sample.base 2000 2032 (Arrive 8300 None 7000 undisturbed) a1).2).
  intros k1. apply (barrier_timeout_opens_early (TL := Sample.layout) (RB := Sample.macros) (TT := Sample.timers) (TTL := Sample.timers_laws)
    Sample.D Sample.HS Sample.QS Sample.STK Sample.U Sample.V Sample.ops (up_to 3) (L := Sample.laws) 10 2000 Sample.disc Sample.capacity Sample.base
    Sample.kernel k1 Sample.objects two_arrive [(2016, Nothing); (2032, Nothing)] a2
    8300 {| discipline := CORE_BARRIER_AUTOMATIC_RELEASE; maximum_count := 3 |} 2016 7000 None undisturbed).
  - exact Sample.kernel_application.
  - vm_compute. reflexivity.
  - vm_compute. reflexivity.
  - reflexivity.
  - cbn. lia.
  - unfold Sample.QS, Sample.STK, two_arrive. repeat constructor; cbn; first [lia|by eexists|set_solver].
  - vm_compute. reflexivity.
  - exact (a_run_cons _ _ _ _ a0 _ _ 2016 _ _ (a_run_cons _ _ _ _ a1 _ _ 2032 _ _ (a_run_nil _ _ _ _ a2))).
  - vm_compute. left.
  - apply (bool_decide_unpack _). vm_compute. reflexivity.
  - vm_compute. reflexivity.
  - vm_compute. reflexivity.
  - unfold Sample.STK. set_solver.
  - done.
  - repeat constructor.
Defined.

(** The run: after the timeout thread 2016 executes and arrives again; the
    barrier for three threads opens for the two. *)
Example early_results :
  fst <$> (sync_boot (elements Sample.D) Sample.objects;;
    sync_run (TL := Sample.layout) (RB := Sample.macros) (TT := Sample.timers) Sample.ops 10 Sample.disc 2000
      (two_arrive ++ [Interrupt [I_timeout 2016]; Arrive 8300 None 7000 undisturbed])) Sample.kernel
  = Some [(2016, Nothing); (2032, Nothing); (2000, Nothing); (2016, Status STATUS_BARRIER_AUTOMATICALLY_RELEASED)].
Proof. vm_compute. reflexivity. Qed.

End BarrierCorrect.
