(* ===== verification/MessageCorrect.v ===== *)
(** What message queues promise.

    A queue neither loses nor invents messages, and it keeps their order: the
    messages that were accepted are those that were delivered, followed by
    those that are pending.  The size of the buffers is computed without
    noticing an overflow on a machine with 64 bits. *)

From S2P Require Import Prelude DList Chain RBTree Priority Scheduler SchedulerLaws SchedulerSimple Watchdog WatchdogCorrect ThreadQueue ThreadQueueInv ThreadTimer Semaphore Barrier MessageQueue SyncSpec MessageQueueInv SyncInv SyncCorrect.

Module MessageCorrect.
Import RBTree Priority Scheduler SchedulerLaws ThreadQueue ThreadQueueInv Semaphore Barrier MessageQueue SyncSpec MessageQueueInv SyncInv SyncCorrect.

(** * Messages that pass a queue *)

(** The messages that a queue accepted, and those that threads received from
    it, in the order of time. *)
Record flow := { accepted : list (list Z); delivered : list (list Z) }.

Definition no_flow : flow := {| accepted := []; delivered := [] |}.
Definition flow_app (f g : flow) : flow :=
  {| accepted := accepted f ++ accepted g; delivered := delivered f ++ delivered g |}.

Section flow.
Context (disc : Z -> Thread_queue_Operations) (kind : Z -> object_kind) (prio : Z -> Z) (idle : Z) (q : Z).

(** A message that is accepted while a thread waits, and none is pending, goes
    to that thread. *)
Definition send_flow (b size : Z) (urgent : bool) (a : sync) : flow :=
  match (a_send kind q b size urgent a).1 with
  | STATUS_SUCCESSFUL =>
      let m := message_of b size a in
      {| accepted := [m]; delivered := match a_messages a q, a_wait a q with [], _ :: _ => [m] | _, _ => [] end |}
  | _ => no_flow
  end.

Definition call_flow (c : call) (a : sync) : flow :=
  match c with
  | Send q' b size urgent => if decide (q' = q) then send_flow b size urgent a else no_flow
  | _ => no_flow
  end.

Fixpoint deliveries (b size : Z) (l : list Z) (a : sync) : list (list Z) :=
  match l with
  | [] => []
  | t :: l => message_of b size a :: deliveries b size l (a_deliver b size a t)
  end.

Definition broadcast_flow (b size : Z) (a : sync) : flow :=
  match kind q, a_messages a q with
  | Kind_message c, [] =>
      if mc_size c <? size then no_flow
      else {| accepted := deliveries b size (a_wait a q) a; delivered := deliveries b size (a_wait a q) a |}
  | _, _ => no_flow
  end.

Definition isr_flow (o : isr_op) (a : sync) : flow :=
  match o with
  | I_call c => call_flow c a
  | I_broadcast q' b size => if decide (q' = q) then broadcast_flow b size a else no_flow
  | _ => no_flow
  end.

Fixpoint isrs_flow (l : list isr_op) (a : sync) : flow :=
  match l with
  | [] => no_flow
  | o :: l => flow_app (isr_flow o a) (isrs_flow l (a_isr kind o a))
  end.

(** A thread starts to wait, with interrupts in between. *)
Definition block_flow (q' t : Z) (ticks : option Z) (w : windows) (a : sync) : flow :=
  let a0 := a_enter disc prio q' t a in
  let a1 := a_arm q' t ticks (a_isrs kind (w_callout w) a0) in
  let a2 := a_isrs kind (w_state w) a1 in
  flow_app (isrs_flow (w_callout w) a0) (flow_app (isrs_flow (w_state w) a1) (isrs_flow (w_flags w) a2)).

Definition exec_flow (e : Z) (o : sync_op) (a : sync) : flow :=
  match o with
  | Seize q' wait ticks w =>
      if (e =? idle) || bool_decide (a_count a q' <> 0) || negb wait then no_flow
      else block_flow q' e ticks w a
  | Arrive q' ticks _ w =>
      if (e =? idle) || trips kind q' a then no_flow
      else block_flow q' e ticks w (a_set_count q' (u32 (a_count a q' + 1)) a)
  | Receive q' b p wait ticks w =>
      if e =? idle then no_flow
      else
        match a_messages a q' with
        | m :: _ => if decide (q' = q) then {| accepted := []; delivered := [m] |} else no_flow
        | [] =>
            if wait then block_flow q' e ticks w (a_set_data (d_set_target e b p (a_data a)) a)
            else no_flow
        end
  | Call c w => flow_app (call_flow c a) (if wakes kind c a then isrs_flow w (a_call kind c a).2 else no_flow)
  | Interrupt l => isrs_flow l a
  end.

Fixpoint run_flow (os : list sync_op) (es : list (Z * result)) (a : sync) : flow :=
  match os, es with
  | o :: os, (e, _) :: es => flow_app (exec_flow e o a) (run_flow os es (a_exec disc kind prio idle e o a).2)
  | _, _ => no_flow
  end.

(** Programs that do not send urgent messages to the queue and do not drop
    its messages. *)
Definition call_in_order (c : call) : Prop :=
  match c with
  | Send q' _ _ urgent => q' = q -> urgent = false
  | Drop q' => q' <> q
  | _ => True
  end.

Definition isr_in_order (o : isr_op) : Prop :=
  match o with
  | I_call c => call_in_order c
  | _ => True
  end.

Definition in_order (o : sync_op) : Prop :=
  match o with
  | Seize _ _ _ w | Arrive _ _ _ w | Receive _ _ _ _ _ w =>
      Forall isr_in_order (w_callout w) /\ Forall isr_in_order (w_state w) /\ Forall isr_in_order (w_flags w)
  | Call c w => call_in_order c /\ Forall isr_in_order w
  | Interrupt l => Forall isr_in_order l
  end.

(** What is pending and what is accepted is delivered or pending. *)
Definition conserves (a : sync) (f : flow) (a' : sync) : Prop := a_messages a q ++ accepted f = delivered f ++ a_messages a' q.

Lemma conserves_none a a' : a_messages a' q = a_messages a q -> conserves a no_flow a'.
Proof. intros E. unfold conserves. cbn. by rewrite E, app_nil_r. Qed.

Lemma conserves_app a f a1 g a2 : conserves a f a1 -> conserves a1 g a2 -> conserves a (flow_app f g) a2.
Proof. unfold conserves. cbn. intros E1 E2. by rewrite app_assoc, E1, <- app_assoc, E2, app_assoc. Qed.

Lemma flush_messages q' f a : a_messages (a_flush q' f a) = a_messages a.
Proof. unfold a_flush. generalize (a_wait a q'). intros l. revert a. induction l as [|t l IH]; intros a; cbn; [done|]. rewrite IH. by destruct f. Qed.

Lemma send_conserves b size a : conserves a (send_flow b size false a) (a_send kind q b size false a).2.
Proof.
  unfold send_flow, a_send. destruct (kind q) as [| |c]; try (by apply conserves_none). destruct (_ <? size); [by apply conserves_none|].
  unfold conserves. destruct (a_messages a q) as [|m l] eqn:Em; [destruct (a_wait a q) as [|t ts] eqn:Ew|].
  - destruct (_ <? _); cbn; [by rewrite fn_set_eq|by rewrite Em].
  - cbn. by rewrite deliver_messages, Em.
  - destruct (_ <? _); cbn [fst snd accepted delivered no_flow]; [cbn; by rewrite fn_set_eq|by rewrite Em, app_nil_r].
Qed.

Lemma send_other q' b size urgent a : q' <> q -> a_messages (a_send kind q' b size urgent a).2 q = a_messages a q.
Proof.
  intros Hne. unfold a_send. destruct (kind q') as [| |c]; [done|done|]. destruct (_ <? size); [done|].
  destruct (a_messages a q'), (a_wait a q'); try (destruct (_ <? _); cbn; by rewrite ?fn_set_ne by done). cbn. by rewrite deliver_messages.
Qed.

Lemma call_conserves c a : call_in_order c -> conserves a (call_flow c a) (a_call kind c a).2.
Proof.
  destruct c as [q' max|q' u|q' u|q' u|q' u|q' b size urgent|q'|q' u|b bytes]; cbn [call_in_order call_flow a_call snd]; intros Hin;
    try (apply conserves_none; by rewrite ?flush_messages).
  - apply conserves_none. unfold a_surrender. by destruct (a_wait a q'); [destruct (_ <? _)|].
  - case_decide as E.
    + subst q'. rewrite (Hin eq_refl). pose proof (send_conserves b size a) as Hc. by destruct (a_send kind q b size false a).
    + apply conserves_none. pose proof (send_other q' b size urgent a E) as Hc. by destruct (a_send kind q' b size urgent a).
  - apply conserves_none. cbn. by rewrite fn_set_ne.
Qed.

Lemma deliveries_messages b size l a : a_messages (foldl (a_deliver b size) a l) = a_messages a.
Proof. revert a. induction l as [|t l IH]; intros a; cbn; [done|]. by rewrite IH, deliver_messages. Qed.

Lemma broadcast_messages q' b size a : a_messages (a_broadcast kind q' b size a) = a_messages a.
Proof.
  unfold a_broadcast. destruct (kind q') as [| |c]; [done|done|]. destruct (_ <? size); [done|]. destruct (a_messages a q'); [|done].
  apply deliveries_messages.
Qed.

Lemma isr_conserves o a : isr_in_order o -> conserves a (isr_flow o a) (a_isr kind o a).
Proof.
  destruct o as [c|q' b size|t|t|t]; cbn [isr_in_order isr_flow a_isr]; intros Hin; try (by apply conserves_none).
  - by apply call_conserves.
  - case_decide as E; [|apply conserves_none; by rewrite broadcast_messages]. subst q'. unfold conserves, broadcast_flow. rewrite broadcast_messages.
    destruct (kind q) as [| |c]; try (cbn; by rewrite app_nil_r). destruct (a_messages a q) as [|m l]; [|cbn; by rewrite app_nil_r].
    destruct (_ <? size); [done|]. cbn. by rewrite app_nil_r.
  - apply conserves_none. by case_decide.
Qed.

Lemma isrs_conserves l a : Forall isr_in_order l -> conserves a (isrs_flow l a) (a_isrs kind l a).
Proof.
  intros Hl. revert a. induction Hl as [|o l Ho Hl IH]; intros a; [by apply conserves_none|]. cbn [isrs_flow].
  eapply conserves_app; [by apply isr_conserves|]. apply IH.
Qed.

Lemma arm_messages q' t ticks a : a_messages (a_arm q' t ticks a) = a_messages a.
Proof. unfold a_arm. by destruct (_ && _). Qed.

Lemma block_conserves q' t ticks w a0 a : a_messages a0 q = a_messages a q ->
  Forall isr_in_order (w_callout w) /\ Forall isr_in_order (w_state w) /\ Forall isr_in_order (w_flags w) ->
  conserves a (block_flow q' t ticks w a0) (a_block disc kind prio q' t ticks w a0).
Proof.
  intros E (H0 & H1 & H2). unfold block_flow, a_block. cbv zeta. set (a1 := a_enter disc prio q' t a0).
  eapply (conserves_app _ _ (a_arm q' t ticks (a_isrs kind (w_callout w) a1))).
  - unfold conserves. rewrite arm_messages, <- E. apply (isrs_conserves (w_callout w) a1 H0).
  - eapply conserves_app; by apply isrs_conserves.
Qed.

Lemma exec_conserves e o a : in_order o -> conserves a (exec_flow e o a) (a_exec disc kind prio idle e o a).2.
Proof.
  destruct o as [q' wait ticks w|q' ticks u w|q' b p wait ticks w|c w|l]; cbn [in_order exec_flow a_exec].
  - intros Hw. destruct (e =? idle); [by apply conserves_none|]. unfold a_seize. cbn [orb]. case_decide as E.
    + rewrite bool_decide_true by done. by apply conserves_none.
    + rewrite bool_decide_false by tauto. destruct wait; [by apply block_conserves|by apply conserves_none].
  - intros Hw. destruct (e =? idle); [by apply conserves_none|]. unfold a_arrive. cbn [orb].
    destruct (trips kind q' a); [apply conserves_none; cbn [snd]; by rewrite flush_messages|]. by apply block_conserves.
  - intros Hw. destruct (e =? idle); [by apply conserves_none|]. unfold a_receive. destruct (a_messages a q') as [|m l] eqn:Em.
    + destruct wait; [by apply block_conserves|by apply conserves_none].
    + case_decide as E; [|apply conserves_none; cbn; by rewrite fn_set_ne by congruence]. subst q'. unfold conserves. cbn.
      by rewrite Em, fn_set_eq, app_nil_r.
  - intros [Hc Hw]. unfold a_call_in. pose proof (call_conserves c a Hc) as Hcc. destruct (a_call kind c a) as [r a']. cbn [snd] in *.
    eapply conserves_app; [exact Hcc|]. destruct (wakes kind c a); [by apply isrs_conserves|by apply conserves_none].
  - apply isrs_conserves.
Qed.

Lemma run_conserves a os es a' : a_run disc kind prio idle a os es a' -> Forall in_order os -> conserves a (run_flow os es a) a'.
Proof.
  intros Hr. induction Hr as [a|a o os e es a' Hr IH]; intros Hos; [by apply conserves_none|]. apply Forall_cons in Hos as [Ho Hos]. cbn [run_flow].
  eapply conserves_app; [by apply exec_conserves|]. by apply IH.
Qed.
End flow.

(** C6. Message queues deliver every message once and in order.  For every
    program, from the initialization on, that does not send urgent messages
    to a queue and does not drop its messages, with any other calls,
    interrupts, timeouts and broadcasts: the messages that the queue accepted
    are the messages that threads received from it, in this order, followed
    by the pending messages, of which there are never more than configured. *)
Theorem message_queue_conserves {TL : ThreadLayout} {RB : RB_Macros} {T : Type} {TT : ThreadTimers T}
    (D HS QS STK U V : gset Z) {TTL : ThreadTimersLaws T D} (ops : Scheduler_Operations) (priorities : Z -> Prop)
    {L : SchedulerLaws ops priorities} (ticks idle : Z) (disc : Z -> Thread_queue_Operations) (capacity base : Z -> Z)
    (k : kernel T) (l : list (Z * object_config)) (os : list sync_op) (q : Z) (c : message_config) :
  application D HS QS STK U V ops priorities idle disc capacity base k l ->
  Forall (sync_op_ok D QS STK U V idle (kind_of l) capacity) os -> Forall (in_order q) os -> q ∈ QS -> kind_of l q = Kind_message c ->
  exists es k' a', (sync_boot (elements D) l;; sync_run ops ticks disc idle os) k = Some (es, k') /\
    a_run disc (kind_of l) base idle (a_init l k) os es a' /\ agrees D QS U V disc (kind_of l) capacity k' a' /\
    (let f := run_flow disc (kind_of l) base idle q os es (a_init l k) in accepted f = delivered f ++ a_messages a' q) /\
    Z.of_nat (length (a_messages a' q)) <= mc_pending c.
Proof.
  intros Happ Hos Hord Hq Hk. destruct (boot_run D HS QS STK U V ops priorities idle disc capacity base k l Happ) as (k0 & E0 & Hi0).
  destruct Happ as [Hs Hl Hmsg Hdisc Hbar Hnull].
  destruct (proj1 (wp_run _ _ _) (sync_run_ok D HS QS STK U V ops priorities ticks idle disc _ capacity base Hdisc Hmsg Hnull Hbar ∅ k0 _ os Hi0 Hos))
    as (es & k' & E & a' & A' & Hrun & Hi'). exists es, k', a'. split; [unfold mbind, M_bind; by rewrite E0|]. split; [done|]. split; [by eapply inv_agrees|]. split.
  - exact (run_conserves disc (kind_of l) base idle q _ os es a' Hrun Hord).
  - destruct (message_state D HS QS STK U V ops priorities idle disc (kind_of l) capacity base _ _ _ _ _ q c Hi' Hq Hk)
      as [_ (pend & inact & _ & _ & Hp & Hst) _ _ _ _].
    destruct (nodes_facts D HS QS STK U V disc (kind_of l) capacity Hmsg q c Hq Hk _ _ Hp) as (_ & _ & _ & _ & _ & Hn).
    apply Forall2_length in Hst. lia.
Qed.

(** Two messages are sent and received; then a thread waits and gets a third
    one before its timer is started; another thread waits for a message, gets
    it, and before it is unblocked an interrupt sends one more, which stays in
    the queue. *)
Definition message_ops : list sync_op :=
  [Call (Send 8400 9500 3 false) []; Call (Fill 9500 [5; 6; 7; 8; 9; 0; 0; 0]) []; Call (Send 8400 9500 2 false) [];
   Receive 8400 9600 9700 true None undisturbed; Receive 8400 9600 9708 false None undisturbed;
   Receive 8400 9600 9700 true (Some 4) (Windows [I_call (Send 8400 9500 4 false)] [I_timeout 2016] []);
   Receive 8400 9600 9700 true (Some 4) undisturbed;
   Call (Send 8400 9500 1 false) [I_timeout 2016; I_call (Send 8400 9500 2 false)]].

Lemma message_queue_conserves_witness : exists es k' a',
  (sync_boot (elements Sample.D) Sample.objects;;
   sync_run (TL := Sample.layout) (RB := Sample.macros) (TT := Sample.timers) Sample.ops 10 Sample.disc 2000 message_ops) Sample.kernel = Some (es, k') /\
  a_run Sample.disc (kind_of Sample.objects) Sample.base 2000 (a_init Sample.objects Sample.kernel) message_ops es a' /\
  agrees (TL := Sample.layout) (RB := Sample.macros) (TT := Sample.timers) (TTL := Sample.timers_laws) Sample.D Sample.QS Sample.U Sample.V Sample.disc
    (kind_of Sample.objects) Sample.capacity k' a' /\
  (let f := run_flow Sample.disc (kind_of Sample.objects) Sample.base 2000 8400 message_ops es (a_init Sample.objects Sample.kernel) in
   accepted f = delivered f ++ a_messages a' 8400) /\
  Z.of_nat (length (a_messages a' 8400)) <= 2.
Proof.
  apply (message_queue_conserves (TL := Sample.layout) (RB := Sample.macros) (TT := Sample.timers) (TTL := Sample.timers_laws)
    Sample.D Sample.HS Sample.QS Sample.STK Sample.U Sample.V Sample.ops (up_to 3) (L := Sample.laws) 10 2000 Sample.disc Sample.capacity Sample.base
    Sample.kernel Sample.objects message_ops 8400 Sample.queue_config).
  - exact Sample.kernel_application.
  - unfold message_ops, Sample.QS, Sample.U, Sample.V. repeat constructor; cbn; first [lia|by eexists|set_solver|done].
  - repeat constructor; cbn; done.
  - unfold Sample.QS. set_solver.
  - reflexivity.
Defined.

(** What was accepted and delivered in this run. *)
Example sample_flow :
  (fun r => run_flow Sample.disc (kind_of Sample.objects) Sample.base 2000 8400 message_ops r.1 (a_init Sample.objects Sample.kernel)) <$>
  (sync_boot (elements Sample.D) Sample.objects;;
   sync_run (TL := Sample.layout) (RB := Sample.macros) (TT := Sample.timers) Sample.ops 10 Sample.disc 2000 message_ops) Sample.kernel
  = Some {| accepted := [[1; 2; 3]; [5; 6]; [5; 6; 7; 8]; [5]; [5; 6]]; delivered := [[1; 2; 3]; [5; 6]; [5; 6; 7; 8]; [5]] |}.
Proof. vm_compute. reflexivity. Qed.

(** * The size of the buffers *)

(** An allocator that has an area of 128 bytes at 9000, and the kernel with
    this memory. *)
Definition area_allocate (size : Z) : M (kernel (Watchdog.state unit)) Z := mret (if size <=? 128 then 9000 else NULL).
Definition area_kernel : kernel (Watchdog.state unit) :=
  with_mem (list_to_map ((fun n => (n, 77)) <$> [8448; 8456; 8464; 8480; 8488; 8496] ++ ((fun i => 9000 + 8 * Z.of_nat i) <$> seq 0 16))) Sample.kernel.

(** C37. The computation of the size of the message buffers does not notice an
    overflow when [size_t] has 64 bits: the product is truncated before it is
    compared with the largest size.  For four messages of 2^62 bytes it
    requests 128 bytes, which is enough for four empty messages; the
    initialization goes on and writes outside of the area that it got. *)
Theorem message_queue_overflow_undetected :
  (forall a b, size_t_mult32_with_overflow a b = Some (u64 (a * b))) /\
  size_t_mult32_with_overflow 4 (align_message_size (2 ^ 62) + BUFFER_CONTROL_SIZE) = Some 128 /\
  fst <$> _CORE_message_queue_Initialize area_allocate 8400 CORE_MESSAGE_QUEUE_DISCIPLINES_FIFO 4 0 area_kernel = Some true /\
  _CORE_message_queue_Initialize area_allocate 8400 CORE_MESSAGE_QUEUE_DISCIPLINES_FIFO 4 (2 ^ 62) area_kernel = None.
Proof. split; [exact mult32_always|]. repeat split; vm_compute; reflexivity. Qed.

End MessageCorrect.
